(* ===== verification/_CoqProject ===== *)
-Q . S2P
Prelude.v
ByteOrder.v
Buffer.v
Crc32.v
Deattack.v
Stdio.v
SuperTrace.v
HashMap.v
Csbuflo.v
CipherMac.v
Packet.v
PacketWrite.v
PacketRead.v
PacketProofs.v
PacketStream.v
PacketLink.v
Pacing.v
Rekey.v
Shaper.v
ShaperProofs.v
ShaperSecurity.v
Dispatch.v
Nchan.v
NchanProofs.v
Channels.v
ChannelsProofs.v
Match.v
Kex.v
KexProofs.v
AddrMatch.v
Auth.v
Auth2.v
Auth2Proofs.v
Session.v
SessionProofs.v
BufBn.v
KeyState.v
Monitor.v
Wp.v
MonitorProofs.v
MonitorData.v
Base64.v
Keys.v
KeyText.v
KeysProofs.v
KeyDemo.v
KeySign.v
KeyCert.v
KeyParse.v
KeyTextProofs.v
Agent.v
AgentProofs.v
AgentSign.v
RbTree.v
MonitorMm.v
MmProofs.v
