(* ===== verification/Prelude.v ===== *)
(** * CS-BuFLO on OpenSSH 5.9p1: a verification development

    The program is OpenSSH 5.9p1 with a defence against website fingerprinting
    built into its packet layer ([src/modified_openssh-5.9p1/]).  In plain mode
    it is ordinary ssh.  In CS-BuFLO mode it writes to the network at a steady,
    slowly adapting rate and pads the stream to a goal; in super-trace mode it
    replays a recorded trace, chosen by the URL of the page, byte for byte,
    filling it with real data where there is some and with dummy packets where
    there is none.

    ** The parts of the program and the files that model them

    Lower layers:
    - [ByteOrder.v]: the big-endian integers of [misc.c], [timingsafe_bcmp].
    - [Buffer.v]: [buffer.c] and [bufaux.c].  A [Buffer] is the C structure; the
      functions have the names of the C functions.
    - [Crc32.v], [Deattack.v]: [crc32.c] and [deattack.c].
    - [Match.v]: [match.c], patterns and name lists; [AddrMatch.v]: the network
      addresses of [addrmatch.c] and what [match.c] builds on them.
    - [BufBn.v]: big numbers and points of curves in buffers, [bufbn.c] and
      [bufec.c]; OpenSSL's numbers are the class [Bignum].
    - [CipherMac.v]: [cipher.c], [mac.c], [compress.c].  OpenSSL and zlib are
      the class [Crypto], and so are the primitives that the repository has
      itself, [umac.c], [cipher-ctr.c], [cipher-3des1.c] and [cipher-bf1.c],
      which are abstracted; what the protocol relies on is [CryptoLaws], and
      [Toy] is an instance of both.

    The data of the defence:
    - [Stdio.v]: the parts of the C library that the next two read files with.
    - [SuperTrace.v]: [load_st.c], reading, merging and splitting of traces.
    - [HashMap.v]: [hashmap.c], the map from URLs to clusters.
    - [Csbuflo.v]: the variables of [misc.c] (record [globals]) and the functions
      on them: position in the trace, ring buffer of sending times, choice of
      the rate.

    The packet layer ([packet.c]); the state is the record [ssh]:
    - [Packet.v]: building and sending packets, key changes, dummy packets and
      notifications; [PacketRead.v]: receiving, up to [packet_read_expect];
      [PacketWrite.v]: what is written to the network and when.
    - [PacketProofs.v], [PacketStream.v] (sending), [PacketLink.v] (two ends and
      the bytes in flight), [Rekey.v], [Pacing.v]: theorems.

    The main loops:
    - [Shaper.v]: the part of [process_output] ([serverloop.c]) and of
      [client_loop] ([clientloop.c]) that writes to the connection.
    - [ShaperProofs.v], [ShaperSecurity.v]: theorems.

    The layers above:
    - [Dispatch.v]: [dispatch.c].
    - [Kex.v], [KexProofs.v]: [kex.c] and the curves and names of [key.c] and
      [kexecdh.c]; the Diffie-Hellman methods and the hash are parameters.
    - [Nchan.v], [NchanProofs.v]: [nchan.c], the close protocol of a channel.
    - [Channels.v], [ChannelsProofs.v]: [channels.c], the table of channels and
      the flow control.
    - [Auth.v]: who may log in ([auth.c], [groupaccess.c], [auth-shadow.c]) and
      with which password ([auth-passwd.c]); the account data base is the class
      [System].
    - [Auth2.v], [Auth2Proofs.v]: the dialogue of protocol 2, [auth2*.c]; the
      checks of passwords, keys and signatures are the class [Backend], which
      with privilege separation is the monitor.
    - [Session.v], [SessionProofs.v]: the sessions of a connection,
      [session.c].

    Privilege separation:
    - [Monitor.v]: the privileged process, [monitor.c], with its message format
      ([monitor_wrap.c]); [KeyState.v]: the transfer of the state of the
      connection between the two processes.
    - [MonitorMm.v], [MmProofs.v]: the allocator of the memory the two processes
      share, [monitor_mm.c]; [RbTree.v]: the red-black trees it uses,
      [sys-tree.h].
    - [Wp.v]: weakest preconditions for the monad; [MonitorProofs.v],
      [MonitorData.v]: theorems.

    Keys and the agent:
    - [Keys.v]: [key.c] and the signatures of [ssh-rsa.c], [ssh-dss.c] and
      [ssh-ecdsa.c]: names, comparison, the format of public keys and
      certificates, certification.  What is used of OpenSSL is the class
      [Openssl]; what the theorems rely on is [OpensslOk], and [KeyDemo.v] is
      an instance of both.  [KeyText.v]: fingerprints and keys as text;
      [Base64.v]: [base64.c] and [uuencode.c].
    - [KeysProofs.v], [KeySign.v], [KeyCert.v], [KeyParse.v],
      [KeyTextProofs.v]: theorems.
    - [Agent.v]: the agent, [ssh-agent.c], with its table of keys, its sockets
      and its main loop, and the clients' side, [authfd.c]; what it needs of
      its environment is the class [AgentEnv].  [AgentProofs.v],
      [AgentSign.v]: theorems.

    ** How C is modelled

    An integer is a [Z], and the width of its type is the function applied to
    the result ([u32], [i64], ...).  A pointer to bytes is the list of the bytes.
    Code that can fail returns an [outcome]: a value, [fatal()],
    [packet_disconnect()], [cleanup_exit()], undefined behaviour ([Fault]: an
    access outside an object, a NULL pointer), or [NoFuel].  Stateful code is in
    the state monad [M] over [outcome].  The clock, random numbers, and the
    answers of [select], [read] and [write] are arbitrary sequences or
    arguments, so a theorem holds for all of them.

    Fuel: [buffer_append_space] restarts at most twice (fuel 3);
    [packet_read_poll_seqnr] handles at most one packet per two bytes of input;
    the loops over traces and lists have the length of the list; the zlib loops
    produce at most [BUFFER_MAX_LEN] bytes; the key expansion of [derive_key]
    has [need] as fuel, and each round adds a block; the loops of the monitor
    have the number of results of [poll] as fuel, and its log the number of its
    bytes; a blob of a key or certificate has its length as fuel for the keys
    in it and for its options, a request to the agent and an answer of it
    their lengths; the repair of a red-black tree goes up
    its path, and an allocator calls the one that holds its structures, so its
    fuel is the number of areas.  The theorems about these
    functions show that the fuel is enough.  The write loop of super-trace mode
    waits for the network and has its fuel as an argument:
    [supertrace_burst_ends] gives a bound, and [write_wait_never_drains] shows a
    case without one.

    ** What the theorems show

    - The defence: in super-trace mode, before the end of the trace and without
      compression, the sizes and times of the writes do not
      depend on data, keys or random numbers ([supertrace_noninterference],
      [supertrace_burst_shape]); nor does a round of the server's loop while it
      plays a trace, which excludes the first burst of a page, whose size
      follows the data ([server_round_noninterference],
      [first_burst_follows_data]); the modes and
      the rate stay within their rules ([output_modes], [output_rate]); items
      of the trace are released as described ([server_item_waits]); the padding
      goal ([set_target_goal]); traces are read, merged, split and walked
      through correctly ([load_st_roundtrip], [refresh_trace_conserves] with the
      bytes of each direction for traces without packets of size 0,
      [split_schedules], [walk_plays_own_packets]); waiting for the output
      buffer to empty in plain mode ends within a bound for every amount of
      padding ([write_wait_drains]), except where the padding of a write is
      refilled for ever ([write_wait_never_drains]); the rate is the rounded
      median of the observed gaps ([update_tau_interval_refines],
      [update_tau_median_spec]).
    - The packet layer: messages arrive unchanged and in order
      ([ssh2_stream_delivered]: sending, transport in pieces and reading
      interleaved in any order, packets read over several pieces, no limit on
      the total; without compression, while the queues fit their buffers), also
      across a key change ([rekey_preserves_order]), and what is delivered
      carried a valid MAC ([ssh2_delivered_is_authentic]: from any point of a
      packet on, over any pieces, with or without compression).
    - Key exchange: both sides agree ([kex_agreement]), the messages carry the
      proposals ([kex_prop_roundtrip]), keys are those of RFC 4253
      ([derive_key_rfc]), and names are chosen as the protocol says
      ([match_list_first]).
    - Channels: the window is respected from end to end ([window_respected]); a
      channel keeps the rules of the close protocol whatever happens
      ([nchan_discipline]), and two ends close it together ([close_handshake]).
    - Authentication: success needs an allowed account and evidence
      ([authentication_sound]), signatures are bound to session, user and key
      for all clients, and to service and algorithm where the client's version
      puts them into the data ([signature_binds]), failures are limited ([failures_bounded]); the
      policy is the documented one ([allowed_user_policy],
      [auth_password_sound], [addr_match_list_verdict]).
    - Privilege separation: whatever the unprivileged process sends, the monitor
      lets it through only for a user it has authenticated itself
      ([monitor_preauth_sound]), checks the signed data exactly, in the forms
      of all compatibility flags ([userblob_exact]), and does not crash ([monitor_preauth_no_crash]); the
      state of the connection is transferred unchanged ([keystate_roundtrip]);
      the allocator of the shared memory is a first-fit allocator over disjoint
      blocks, which fails only for want of memory ([mm_area_refines],
      [share_sync_ok]), on red-black trees that stay
      ordered and balanced ([rb_tree_ok], [rb_height]).
    - Keys: whatever bytes are parsed, a certificate is accepted only with the
      signature of the authority it names ([cert_authentic]), and the parser
      always ends ([key_from_blob_total]); certificates, signatures and texts
      that the program makes are accepted by it ([certify_roundtrip], except
      those with more than 256 principals, which it signs and refuses;
      [sign_verify], [key_text_roundtrip]); the check of an RSA signature
      accepts one plaintext ([rsa_verify_exact]).
    - The agent: its tables stay sound ([agent_tables_sound]); while it is
      locked it does not use or show its keys ([locked_agent_silent]); a key
      that was added signs for its clients until its lifetime ends, and not
      after it ([added_key_signs]).
    - Sessions: the table of sessions is sound ([session_table_sound]).
    - Data structures and helpers: buffers refine byte queues over operation
      sequences of any length, where at each append the data in the buffer and
      twice the new ones are at most [ROOM], 9 MB ([buffer_refines_queue]), and their encodings are inverse
      ([put_get_roundtrip]); the attack detector equals the naive search
      ([detect_attack_is_naive]); the hash table is a finite map
      ([hashmap_implements_map]); the CRC is the polynomial division; patterns
      and dispatch tables do what they should.

    Where the code does not do what it means to, a theorem or an example says
    so: [write_wait_never_drains], [hm_lookup_bounds],
    [SuperTrace.Format.load_st_id_out_of_range],
    [SuperTrace.Format.load_st_empty_trace],
    [SuperTrace.Bursts.zero_packet_merges_directions],
    [SuperTrace.Schedule.split_one_direction_faults],
    [Csbuflo.set_first_sent_stops_at_blanks], [Match.two_stars],
    [ChannelsProofs.FlowDemo.datagram_window_wraps],
    [AddrMatch.Quads.long_entry_is_cut],
    [Auth.AuthDemo.malformed_allow_users_admits],
    [Auth2Proofs.Auth2Demo.keyboard_interactive_unlimited],
    [KeyState.KeyStateDemo.null_cipher_accepted],
    [MonitorData.MonitorDemo.moduli_without_answer],
    [KeyParse.truncated_certificate_fatal], [KeyParse.unknown_curve_fatal],
    [KeyCert.principals_257_refused], [KeyCert.v00_serial_lost],
    [AgentProofs.add_wrong_certificate],
    [AgentProofs.empty_message_ends_agent], [MmProofs.freelist_skips_left].

    ** What is not modelled

    OpenSSL, zlib and the operating system (parameters); the primitives
    [umac.c], [cipher-ctr.c] and the like behind the same interfaces
    (parameters too); floating point (the rounded logarithm of [Shaper.v] is the
    exact one); the parent pointers of the red-black trees (a path takes their
    place); the Diffie-Hellman methods; authentication in protocol 1 (apart from the requests to the
    monitor) and on the client; PAM, BSD_AUTH, S/Key, GSSAPI, J-PAKE and audit,
    which the default build leaves out; starting of the user's shell;
    generation and files of keys, known hosts, smart cards, configuration
    files, sftp and scp, forwarding, X11, SOCKS and
    multiplexing, terminal handling, the sets of descriptors for [select],
    logging and the freeing of memory. *)

From Stdlib Require Export ZArith Lia.
From stdpp Require Export base tactics strings option numbers list.

Global Open Scope Z_scope.

(** ** Machine integers

    Every C integer is a [Z]; the width of the C type is the function applied
    to the result of an operation.  Signed types use two's complement. *)

Definition u8 (z : Z) : Z := z mod 2 ^ 8.
Definition u16 (z : Z) : Z := z mod 2 ^ 16.
Definition u32 (z : Z) : Z := z mod 2 ^ 32.
Definition u64 (z : Z) : Z := z mod 2 ^ 64.
Definition i32 (z : Z) : Z := (z + 2 ^ 31) mod 2 ^ 32 - 2 ^ 31.
Definition i64 (z : Z) : Z := (z + 2 ^ 63) mod 2 ^ 64 - 2 ^ 63.

Definition INT_MAX : Z := 2 ^ 31 - 1.

Definition is_u8 (z : Z) : Prop := 0 ≤ z < 256.
Definition is_u32 (z : Z) : Prop := 0 ≤ z < 2 ^ 32.
Definition is_u64 (z : Z) : Prop := 0 ≤ z < 2 ^ 64.

(** C's conversion of a truth value to [int]. *)
Definition b2z (b : bool) : Z := if b then 1 else 0.

Lemma u8_small z : 0 ≤ z < 256 → u8 z = z.
Proof. intros. unfold u8. rewrite Z.mod_small; lia. Qed.
Lemma u32_small z : 0 ≤ z < 2 ^ 32 → u32 z = z.
Proof. intros. unfold u32. rewrite Z.mod_small; lia. Qed.
Lemma u64_small z : 0 ≤ z < 2 ^ 64 → u64 z = z.
Proof. intros. unfold u64. rewrite Z.mod_small; lia. Qed.
Lemma i32_small z : - 2 ^ 31 ≤ z < 2 ^ 31 → i32 z = z.
Proof. intros. unfold i32. rewrite Z.mod_small; lia. Qed.
Lemma i64_small z : - 2 ^ 63 ≤ z < 2 ^ 63 → i64 z = z.
Proof. intros. unfold i64. rewrite Z.mod_small; lia. Qed.
(** A small signed value survives the trip through [unsigned long long]. *)
Lemma i32_u64_small z : - 2 ^ 31 ≤ z < 2 ^ 31 → i32 (u64 z) = z.
Proof.
  intros Hz. unfold u64, i32. destruct (Z.leb_spec 0 z).
  - rewrite (Z.mod_small _ (2 ^ 64)), (Z.mod_small _ (2 ^ 32)) by lia. lia.
  - rewrite <- (Z_mod_plus_full z 1 (2 ^ 64)), (Z.mod_small _ (2 ^ 64)) by lia.
    replace (z + 1 * 2 ^ 64 + 2 ^ 31) with (z + 2 ^ 31 + 2 ^ 32 * 2 ^ 32) by lia.
    rewrite Z_mod_plus_full, Z.mod_small by lia. lia.
Qed.
Lemma u8_range z : 0 ≤ u8 z < 256.
Proof. unfold u8. change 256 with (2 ^ 8). apply Z.mod_pos_bound. lia. Qed.
Lemma u32_range z : 0 ≤ u32 z < 2 ^ 32.
Proof. unfold u32. apply Z.mod_pos_bound. lia. Qed.
Lemma u64_range z : 0 ≤ u64 z < 2 ^ 64.
Proof. unfold u64. apply Z.mod_pos_bound. lia. Qed.

(** ** Outcomes of C code

    [Fatal] is a call of [fatal()]; [Disconnect] a call of
    [packet_disconnect()]; [Exit] a call of [cleanup_exit()]; [Fault] is
    undefined behaviour (an access outside an object, a NULL dereference);
    [NoFuel] is a loop that was cut off by its fuel, which the termination
    theorems exclude. *)

Inductive outcome (A : Type) : Type :=
| Ok (a : A)
| Fatal (msg : string)
| Disconnect (msg : string)
| Exit (code : Z)
| Fault
| NoFuel.
Arguments Ok {A} a.
Arguments Fatal {A} msg.
Arguments Disconnect {A} msg.
Arguments Exit {A} code.
Arguments Fault {A}.
Arguments NoFuel {A}.

#[export] Instance outcome_ret : MRet outcome := @Ok.
#[export] Instance outcome_bind : MBind outcome := λ A B f m,
  match m with
  | Ok a => f a
  | Fatal s => Fatal s
  | Disconnect s => Disconnect s
  | Exit c => Exit c
  | Fault => Fault
  | NoFuel => NoFuel
  end.
#[export] Instance outcome_fmap : FMap outcome := λ A B f m, m ≫= λ a, Ok (f a).

Definition is_Ok {A} (m : outcome A) : Prop := ∃ a, m = Ok a.

Lemma bind_Ok {A B} (m : outcome A) (f : A → outcome B) b :
  m ≫= f = Ok b ↔ ∃ a, m = Ok a ∧ f a = Ok b.
Proof. split; [destruct m; simpl; eauto; discriminate | intros (a & -> & H); exact H]. Qed.

(** ** Stateful code: a state monad over [outcome] *)

Definition M (S A : Type) : Type := S → outcome (A * S).

#[export] Instance M_ret S : MRet (M S) := λ A a s, Ok (a, s).
#[export] Instance M_bind S : MBind (M S) := λ A B f m s,
  match m s with
  | Ok (a, s') => f a s'
  | Fatal e => Fatal e
  | Disconnect e => Disconnect e
  | Exit c => Exit c
  | Fault => Fault
  | NoFuel => NoFuel
  end.

Definition get {S} : M S S := λ s, Ok (s, s).
Definition gets {S A} (f : S → A) : M S A := λ s, Ok (f s, s).
Definition put {S} (s : S) : M S unit := λ _, Ok (tt, s).
Definition modify {S} (f : S → S) : M S unit := λ s, Ok (tt, f s).
Definition liftO {S A} (m : outcome A) : M S A := λ s, a ← m; Ok (a, s).
Definition skip {S} : M S unit := mret tt.
Definition when {S} (b : bool) (m : M S unit) : M S unit := if b then m else skip.

(** ** Stepping through the state monad *)

Lemma M_bind_Ok {S A B} (m : M S A) (f : A → M S B) s a s' :
  m s = Ok (a, s') → (m ≫= f) s = f a s'.
Proof. intros E. unfold mbind, M_bind. by rewrite E. Qed.

Lemma liftO_Ok {S A} (m : outcome A) a (s : S) : m = Ok a → liftO m s = Ok (a, s).
Proof. intros ->. done. Qed.

(** A step whose result is computed, and a step whose result is known. *)
Ltac mstep := rewrite (M_bind_Ok _ _ _ _ _ eq_refl); cbv beta iota.
Ltac mstep_by H := rewrite (M_bind_Ok _ _ _ _ _ H); cbv beta iota.

Lemma M_bind_assoc {S A B C} (m : M S A) (n : A → M S B) (f : B → M S C) s :
  (m ≫= λ a, n a ≫= f) s = ((m ≫= n) ≫= f) s.
Proof. unfold mbind, M_bind, mbind, outcome_bind. destruct (m s) as [[a s']| | | | |]; done. Qed.

(** The same steps in a hypothesis. *)
Ltac mstep_in H := rewrite (M_bind_Ok _ _ _ _ _ eq_refl) in H; cbv beta iota in H.

Lemma M_bind_inv {S A B} (m : M S A) (f : A → M S B) s b s' :
  (m ≫= f) s = Ok (b, s') → ∃ a s1, m s = Ok (a, s1) ∧ f a s1 = Ok (b, s').
Proof. unfold mbind, M_bind. destruct (m s) as [[a s1]| | | | |]; try discriminate. eauto. Qed.

(** [keeps p m]: whenever [m] returns, [p] of the state is what it was. *)
Definition keeps {S A B} (p : S → B) (m : M S A) : Prop := ∀ s a s', m s = Ok (a, s') → p s' = p s.

Lemma keeps_bind {S A B C} (p : S → C) (m : M S A) (f : A → M S B) :
  keeps p m → (∀ a, keeps p (f a)) → keeps p (m ≫= f).
Proof.
  intros Hm Hf s b s' E. apply M_bind_inv in E as (a & s1 & E1 & E2). rewrite (Hf _ _ _ _ E2). by apply Hm in E1.
Qed.
Lemma keeps_gets {S A B} (p : S → B) (f : S → A) : keeps p (gets f).
Proof. intros s a s' [= <- <-]. done. Qed.
Lemma keeps_ret {S A B} (p : S → B) (a : A) : keeps p (mret a).
Proof. intros s b s' [= <- <-]. done. Qed.
Lemma keeps_lift {S A B} (p : S → B) (m : outcome A) : keeps p (liftO m).
Proof. intros s a s' E. apply bind_Ok in E as (x & _ & [= <- <-]). done. Qed.
Lemma keeps_modify {S B} (p : S → B) f : (∀ s, p (f s) = p s) → keeps p (modify f).
Proof. intros Hf s a s' [= <- <-]. apply Hf. Qed.
Lemma keeps_fail {S A B} (p : S → B) (o : outcome (A * S)) : (∀ x, o ≠ Ok x) → keeps p (λ _ : S, o).
Proof. intros Ho s a s' E. by destruct (Ho (a, s')). Qed.
Lemma keeps_weaken {S A B C} (p : S → B) (q : B → C) (m : M S A) : keeps p m → keeps (λ s, q (p s)) m.
Proof. intros Hm s a s' E. by rewrite (Hm _ _ _ E). Qed.

(** Composite code keeps what its parts keep; the parts are in the database
    [keeps]. *)
Create HintDb keeps.
Ltac keep :=
  repeat first
    [ solve [eauto 2 with keeps]
    | apply keeps_bind; [|intros ?] | apply keeps_gets | apply keeps_ret | apply keeps_lift
    | apply keeps_fail; discriminate
    | apply keeps_modify; intros ?; done | progress unfold when, skip | case_match ].

(** [moves R m]: whenever [m] returns, the states before and after are related
    by [R].  With [R s s' := I s → I s'] this says that [m] preserves [I]. *)
Definition moves {S A} (R : S → S → Prop) (m : M S A) : Prop := ∀ s a s', m s = Ok (a, s') → R s s'.

Section Moves.
Context {S : Type} (R : S → S → Prop) `{!PreOrder R}.

Lemma moves_bind {A B} (m : M S A) (f : A → M S B) :
  moves R m → (∀ a, moves R (f a)) → moves R (m ≫= f).
Proof.
  intros Hm Hf s b s' E. apply M_bind_inv in E as (a & s1 & E1 & E2).
  transitivity s1; [by eapply Hm|by eapply Hf].
Qed.
Lemma moves_gets {A} (f : S → A) : moves R (gets f).
Proof. intros s a s' [= <- <-]. reflexivity. Qed.
Lemma moves_ret {A} (a : A) : moves R (mret a).
Proof. intros s b s' [= <- <-]. reflexivity. Qed.
Lemma moves_lift {A} (m : outcome A) : moves R (liftO m).
Proof. intros s a s' E. apply bind_Ok in E as (x & _ & [= <- <-]). reflexivity. Qed.
Lemma moves_when b (m : M S unit) : (b = true → moves R m) → moves R (when b m).
Proof. intros Hm. destruct b; [by apply Hm|]. apply moves_ret. Qed.
(** Code that keeps [p] moves along every relation that only looks at [p]. *)
Lemma moves_keeps {A B} (p : S → B) (m : M S A) :
  (∀ s s', p s' = p s → R s s') → keeps p m → moves R m.
Proof. intros HR Hm s a s' E. eapply HR, Hm, E. Qed.
End Moves.
Lemma moves_weaken {S A} (R Q : S → S → Prop) (m : M S A) : (∀ s s', R s s' → Q s s') → moves R m → moves Q m.
Proof. intros HQ Hm s a s' E. by eapply HQ, Hm. Qed.

(** C array access: an index outside the object is a [Fault]. *)
Definition zget {A} (l : list A) (i : Z) : outcome A :=
  if i <? 0 then Fault
  else match l !! Z.to_nat i with Some x => Ok x | None => Fault end.
Definition zset {A} (l : list A) (i : Z) (v : A) : outcome (list A) :=
  if (i <? 0) || (Z.of_nat (length l) <=? i) then Fault
  else Ok (<[Z.to_nat i := v]> l).

Lemma zget_lookup {A} (l : list A) i x :
  0 ≤ i → l !! Z.to_nat i = Some x → zget l i = Ok x.
Proof. intros Hi Hx. unfold zget. destruct (Z.ltb_spec i 0); [lia|]. by rewrite Hx. Qed.
Lemma zget_app_mid {A} (l1 : list A) x l2 : zget (l1 ++ x :: l2) (Z.of_nat (length l1)) = Ok x.
Proof. apply zget_lookup; [lia|]. rewrite Nat2Z.id. by apply list_lookup_middle. Qed.
Lemma zset_app_mid {A} (l1 : list A) x y l2 :
  zset (l1 ++ x :: l2) (Z.of_nat (length l1)) y = Ok (l1 ++ y :: l2).
Proof.
  unfold zset. rewrite length_app. simpl.
  destruct (Z.ltb_spec (Z.of_nat (length l1)) 0); [lia|].
  destruct (Z.leb_spec (Z.of_nat (length l1 + S (length l2))) (Z.of_nat (length l1))); [lia|].
  simpl. rewrite Nat2Z.id. by rewrite insert_app_r_alt, Nat.sub_diag by lia.
Qed.

Lemma zget_app_l {A} (l k : list A) i x : zget l i = Ok x → zget (l ++ k) i = Ok x.
Proof.
  unfold zget. destruct (i <? 0); [done|]. destruct (l !! Z.to_nat i) eqn:E; [|done].
  by rewrite (lookup_app_l_Some _ _ _ _ E).
Qed.
Lemma zset_app_l {A} (l k l' : list A) i v : zset l i v = Ok l' → zset (l ++ k) i v = Ok (l' ++ k).
Proof.
  unfold zset. rewrite length_app. destruct (Z.ltb_spec i 0); [done|].
  destruct (Z.leb_spec (Z.of_nat (length l)) i); [done|].
  destruct (Z.leb_spec (Z.of_nat (length l + length k)) i); [lia|]. simpl.
  intros [= <-]. by rewrite insert_app_l by lia.
Qed.

(** Splitting a list at an index inside it. *)
Lemma list_split_at {A} (l : list A) i :
  0 ≤ i < Z.of_nat (length l) →
  ∃ l1 x l2, l = l1 ++ x :: l2 ∧ Z.of_nat (length l1) = i ∧ l !! Z.to_nat i = Some x.
Proof.
  intros Hi. destruct (lookup_lt_is_Some_2 l (Z.to_nat i)) as [x Hx]; [lia|].
  exists (take (Z.to_nat i) l), x, (drop (S (Z.to_nat i)) l).
  split_and!; [by rewrite take_drop_middle | rewrite length_take; lia | done].
Qed.

(** ** Field updates

    [Updater p] builds the function that overwrites the field [p] of a record,
    from the eta-expansion of the record registered with [Eta]. *)

Class Eta (R : Type) := eta : R → R.
Class Updater {R T : Type} (p : R → T) := upd_field : T → R → R.
Definition upd {R T} (p : R → T) `{!Updater p} (v : T) (r : R) : R := upd_field v r.
#[global] Arguments upd {R T} p {_} v r : simpl never.

Ltac make_updater :=
  match goal with
  | |- @Updater ?R ?T ?p =>
      let e := constr:(_ : Eta R) in
      let v := fresh "v" in
      let r := fresh "r" in
      intros v r;
      let b := eval hnf in (e r) in
      match b with
      | context C [p r] => let b' := context C [v] in exact b'
      end
  end.
#[export] Hint Extern 0 (Updater _) => make_updater : typeclass_instances.

Declare Scope csbuflo_scope.
Delimit Scope csbuflo_scope with csb.
Notation "r <| p := v |>" := (upd p v r)
  (at level 8, left associativity, p constr at level 1, v constr at level 99,
   format "r <| p  :=  v |>") : csbuflo_scope.
Global Open Scope csbuflo_scope.

(** Reads of a freshly written record: [p (r <| q := v |>)] is [v] or [p r]. *)
Ltac rsimpl :=
  repeat match goal with
  | |- context [?p (@upd ?R ?T ?q ?U ?v ?r)] =>
      first [ change (p (@upd R T q U v r)) with v
            | change (p (@upd R T q U v r)) with (p r) ]
  end.
Ltac rsimpl_in H :=
  repeat match type of H with
  | context [?p (@upd ?R ?T ?q ?U ?v ?r)] =>
      first [ change (p (@upd R T q U v r)) with v in H
            | change (p (@upd R T q U v r)) with (p r) in H ]
  end.

(** ** Boolean comparisons

    [zdec] decides the comparisons of the goal that [lia] can decide,
    [zcase] makes a case analysis on the first one, keeping the fact. *)
Ltac zdec :=
  repeat match goal with
  | |- context [?a <? ?b] =>
      first [rewrite (proj2 (Z.ltb_lt a b)) by lia | rewrite (proj2 (Z.ltb_ge a b)) by lia]
  | |- context [?a <=? ?b] =>
      first [rewrite (proj2 (Z.leb_le a b)) by lia | rewrite (proj2 (Z.leb_gt a b)) by lia]
  | |- context [?a =? ?b] =>
      first [rewrite (proj2 (Z.eqb_eq a b)) by lia | rewrite (proj2 (Z.eqb_neq a b)) by lia]
  end.
Ltac zcase :=
  match goal with
  | |- context [?a <? ?b] => destruct (Z.ltb_spec a b)
  | |- context [?a <=? ?b] => destruct (Z.leb_spec a b)
  | |- context [?a =? ?b] => destruct (Z.eqb_spec a b)
  end.
