(* ===== verification/ByteOrder.v ===== *)
(** * Big-endian integers and byte comparison

    The helpers of [misc.c] that read and write 16, 32 and 64 bit integers in
    network byte order, and [timingsafe_bcmp] of [openbsd-compat].  A C pointer
    to bytes is the list of the bytes it points to. *)

From S2P Require Import Prelude.

(** The byte [p[i]]; callers pass buffers that are long enough. *)
Definition byte_at (p : list Z) (i : nat) : Z := nth i p 0.

Definition get_u64 (p : list Z) : Z :=
  let v := u64 (Z.shiftl (byte_at p 0) 56) in
  let v := Z.lor v (u64 (Z.shiftl (byte_at p 1) 48)) in
  let v := Z.lor v (u64 (Z.shiftl (byte_at p 2) 40)) in
  let v := Z.lor v (u64 (Z.shiftl (byte_at p 3) 32)) in
  let v := Z.lor v (u64 (Z.shiftl (byte_at p 4) 24)) in
  let v := Z.lor v (u64 (Z.shiftl (byte_at p 5) 16)) in
  let v := Z.lor v (u64 (Z.shiftl (byte_at p 6) 8)) in
  Z.lor v (byte_at p 7).

Definition get_u32 (p : list Z) : Z :=
  let v := u32 (Z.shiftl (byte_at p 0) 24) in
  let v := Z.lor v (u32 (Z.shiftl (byte_at p 1) 16)) in
  let v := Z.lor v (u32 (Z.shiftl (byte_at p 2) 8)) in
  Z.lor v (byte_at p 3).

Definition get_u16 (p : list Z) : Z :=
  let v := u16 (Z.shiftl (byte_at p 0) 8) in
  Z.lor v (byte_at p 1).

Definition put_byte (v sh : Z) : Z := Z.land (u8 (Z.shiftr v sh)) 0xff.

Definition put_u64 (v : Z) : list Z :=
  [put_byte v 56; put_byte v 48; put_byte v 40; put_byte v 32;
   put_byte v 24; put_byte v 16; put_byte v 8; put_byte v 0].

Definition put_u32 (v : Z) : list Z :=
  [put_byte v 24; put_byte v 16; put_byte v 8; put_byte v 0].

Definition put_u16 (v : Z) : list Z := [put_byte v 8; put_byte v 0].

(** [ret |= *p1++ ^ *p2++] for [n] steps; the answer is [ret != 0]. *)
Fixpoint bcmp_loop (p1 p2 : list Z) (n : nat) (ret : Z) : Z :=
  match n with
  | O => ret
  | S n => bcmp_loop (tail p1) (tail p2) n
             (Z.lor ret (Z.lxor (byte_at p1 0) (byte_at p2 0)))
  end.
Definition timingsafe_bcmp (b1 b2 : list Z) (n : Z) : Z :=
  b2z (negb (bcmp_loop b1 b2 (Z.to_nat n) 0 =? 0)).

(** ** Lemmas *)

Lemma testbit_small b n i : 0 ≤ b < 2 ^ n → n ≤ i → Z.testbit b i = false.
Proof.
  intros Hb Hi. destruct (decide (b = 0)) as [->|]; [apply Z.bits_0|].
  apply Z.bits_above_log2; [lia|]. apply Z.log2_lt_pow2; [lia|].
  apply Z.lt_le_trans with (2 ^ n); [lia|]. apply Z.pow_le_mono_r; lia.
Qed.

Lemma land_shiftl_small a b n :
  0 ≤ n → 0 ≤ b < 2 ^ n → Z.land (Z.shiftl a n) b = 0.
Proof.
  intros Hn Hb. apply Z.bits_inj'. intros i Hi.
  rewrite Z.land_spec, Z.shiftl_spec, Z.bits_0 by lia.
  destruct (decide (i < n)).
  - by rewrite (Z.testbit_neg_r a) by lia.
  - rewrite (testbit_small b n) by lia. apply andb_false_r.
Qed.

Lemma lor_shiftl_add a b n :
  0 ≤ n → 0 ≤ b < 2 ^ n → Z.lor (Z.shiftl a n) b = Z.shiftl a n + b.
Proof.
  intros Hn Hb. rewrite <- Z.lxor_lor by (apply land_shiftl_small; lia).
  symmetry. apply Z.add_nocarry_lxor. apply land_shiftl_small; lia.
Qed.

Lemma put_byte_div v sh : 0 ≤ sh → put_byte v sh = (v / 2 ^ sh) mod 256.
Proof.
  intros. unfold put_byte, u8. change 0xff with (Z.ones 8).
  rewrite Z.land_ones by lia. rewrite Z.shiftr_div_pow2 by lia.
  rewrite Z.mod_mod by lia. done.
Qed.

Lemma put_byte_range v sh : 0 ≤ put_byte v sh < 256.
Proof.
  unfold put_byte. change 0xff with (Z.ones 8). rewrite Z.land_ones by lia.
  apply Z.mod_pos_bound. lia.
Qed.

Definition bytes (l : list Z) : Prop := Forall is_u8 l.

Ltac solve_bytes :=
  unfold bytes; repeat first [apply List.Forall_nil | apply List.Forall_cons; [unfold is_u8; lia|]].

Lemma lxor_lt_pow2 n x y :
  0 ≤ x < 2 ^ n → 0 ≤ y < 2 ^ n → 0 ≤ Z.lxor x y < 2 ^ n.
Proof.
  intros Hx Hy. assert (0 ≤ Z.lxor x y) by (apply Z.lxor_nonneg; lia).
  destruct (decide (Z.lxor x y = 0)) as [->|]; [lia|]. split; [done|].
  apply Z.log2_lt_pow2; [lia|].
  apply Z.le_lt_trans with (Z.max (Z.log2 x) (Z.log2 y)); [apply Z.log2_lxor; lia|].
  assert (0 < n).
  { destruct (decide (0 < n)); [done|]. destruct (decide (n = 0)) as [->|].
    - assert (x = 0) as -> by lia. assert (y = 0) as -> by lia. done.
    - rewrite Z.pow_neg_r in * by lia. lia. }
  assert (∀ z, 0 ≤ z < 2 ^ n → Z.log2 z < n) as Hlog.
  { intros z Hz. destruct (decide (z = 0)) as [->|]; [done|]. apply Z.log2_lt_pow2; lia. }
  apply Z.max_lub_lt; apply Hlog; lia.
Qed.

Lemma put_u32_bytes v : bytes (put_u32 v).
Proof. repeat constructor; apply put_byte_range. Qed.
Lemma put_u64_bytes v : bytes (put_u64 v).
Proof. repeat constructor; apply put_byte_range. Qed.

Lemma get_u32_sum a b c d :
  is_u8 a → is_u8 b → is_u8 c → is_u8 d →
  get_u32 [a; b; c; d] = a * 2 ^ 24 + b * 2 ^ 16 + c * 2 ^ 8 + d.
Proof.
  unfold is_u8, get_u32, byte_at. intros. cbn [nth].
  rewrite !u32_small by (rewrite Z.shiftl_mul_pow2 by lia; lia).
  replace (Z.lor (Z.lor (Z.lor (Z.shiftl a 24) (Z.shiftl b 16)) (Z.shiftl c 8)) d)
    with (Z.lor (Z.shiftl a 24) (Z.lor (Z.shiftl b 16) (Z.lor (Z.shiftl c 8) d)))
    by (by rewrite !Z.lor_assoc).
  rewrite (lor_shiftl_add c) by lia.
  rewrite (lor_shiftl_add b) by (rewrite ?Z.shiftl_mul_pow2 by lia; lia).
  rewrite (lor_shiftl_add a) by (rewrite ?Z.shiftl_mul_pow2 by lia; lia).
  rewrite !Z.shiftl_mul_pow2 by lia. lia.
Qed.

Lemma get_u16_sum a b :
  is_u8 a → is_u8 b → get_u16 [a; b] = a * 2 ^ 8 + b.
Proof.
  unfold is_u8, get_u16, byte_at, u16. intros. cbn [nth].
  rewrite Z.mod_small by (rewrite Z.shiftl_mul_pow2 by lia; lia).
  rewrite lor_shiftl_add by lia. by rewrite Z.shiftl_mul_pow2 by lia.
Qed.

Lemma get_u64_sum a b c d e f g h :
  is_u8 a → is_u8 b → is_u8 c → is_u8 d → is_u8 e → is_u8 f → is_u8 g → is_u8 h →
  get_u64 [a; b; c; d; e; f; g; h] =
    a * 2 ^ 56 + b * 2 ^ 48 + c * 2 ^ 40 + d * 2 ^ 32 +
    e * 2 ^ 24 + f * 2 ^ 16 + g * 2 ^ 8 + h.
Proof.
  unfold is_u8, get_u64, byte_at. intros. cbn [nth].
  rewrite !u64_small by (rewrite Z.shiftl_mul_pow2 by lia; lia).
  rewrite <- !Z.lor_assoc.
  rewrite (lor_shiftl_add g) by lia.
  rewrite (lor_shiftl_add f) by (rewrite ?Z.shiftl_mul_pow2 by lia; lia).
  rewrite (lor_shiftl_add e) by (rewrite ?Z.shiftl_mul_pow2 by lia; lia).
  rewrite (lor_shiftl_add d) by (rewrite ?Z.shiftl_mul_pow2 by lia; lia).
  rewrite (lor_shiftl_add c) by (rewrite ?Z.shiftl_mul_pow2 by lia; lia).
  rewrite (lor_shiftl_add b) by (rewrite ?Z.shiftl_mul_pow2 by lia; lia).
  rewrite (lor_shiftl_add a) by (rewrite ?Z.shiftl_mul_pow2 by lia; lia).
  rewrite !Z.shiftl_mul_pow2 by lia. lia.
Qed.

Lemma get_put_u16 v : 0 ≤ v < 2 ^ 16 → get_u16 (put_u16 v) = v.
Proof.
  intros. unfold put_u16. rewrite get_u16_sum by apply put_byte_range.
  rewrite !put_byte_div by lia. Z.div_mod_to_equations. lia.
Qed.

Lemma get_put_u32 v : is_u32 v → get_u32 (put_u32 v) = v.
Proof.
  unfold is_u32. intros. unfold put_u32. rewrite get_u32_sum by apply put_byte_range.
  rewrite !put_byte_div by lia. Z.div_mod_to_equations. lia.
Qed.

Lemma get_put_u64 v : is_u64 v → get_u64 (put_u64 v) = v.
Proof.
  unfold is_u64. intros. unfold put_u64. rewrite get_u64_sum by apply put_byte_range.
  rewrite !put_byte_div by lia. Z.div_mod_to_equations. lia.
Qed.

Lemma put_get_u32 a b c d :
  is_u8 a → is_u8 b → is_u8 c → is_u8 d →
  put_u32 (get_u32 [a; b; c; d]) = [a; b; c; d].
Proof.
  intros Ha Hb Hc Hd. rewrite get_u32_sum by done. unfold is_u8 in *.
  unfold put_u32. rewrite !put_byte_div by lia.
  repeat f_equal; Z.div_mod_to_equations; lia.
Qed.

(** Reading from a longer buffer only looks at the first bytes. *)
Lemma get_u32_app l k : length l = 4%nat → get_u32 (l ++ k) = get_u32 l.
Proof. intros. by destruct l as [|? [|? [|? [|? [|]]]]]. Qed.

Lemma get_u32_range l : bytes l → length l = 4%nat → is_u32 (get_u32 l).
Proof.
  intros Hl Hlen. destruct l as [|a [|b [|c [|d [|]]]]]; try done.
  inversion Hl as [|?? Ha H1]; subst. inversion H1 as [|?? Hb H2]; subst.
  inversion H2 as [|?? Hc H3]; subst. inversion H3 as [|?? Hd H4]; subst.
  rewrite get_u32_sum by done. unfold is_u8, is_u32 in *. lia.
Qed.

Lemma bcmp_loop_0 n p1 p2 r :
  bcmp_loop p1 p2 n r = 0 ↔
  r = 0 ∧ ∀ i, (i < n)%nat → byte_at p1 i = byte_at p2 i.
Proof.
  revert p1 p2 r. induction n as [|n IH]; intros p1 p2 r; simpl.
  { split; [intros ->; split; [done|lia]|intros [-> _]; done]. }
  rewrite IH, Z.lor_eq_0_iff, Z.lxor_eq_0_iff.
  assert (∀ p i, byte_at (tail p) i = byte_at p (S i)) as Htl.
  { intros [|] [|]; done. }
  split.
  - intros [[-> H0] H]. split; [done|]. intros [|i] Hi; [done|].
    rewrite <- !Htl. apply H. lia.
  - intros [-> H]. repeat split; [apply H; lia|]. intros i Hi. rewrite !Htl.
    apply H. lia.
Qed.

(** [timingsafe_bcmp] answers 0 exactly when the first [n] bytes agree. *)
Lemma timingsafe_bcmp_eq b1 b2 n :
  n ≤ Z.of_nat (length b1) → n ≤ Z.of_nat (length b2) →
  timingsafe_bcmp b1 b2 n = 0 ↔ take (Z.to_nat n) b1 = take (Z.to_nat n) b2.
Proof.
  intros H1 H2. unfold timingsafe_bcmp.
  transitivity (bcmp_loop b1 b2 (Z.to_nat n) 0 = 0).
  { destruct (Z.eqb_spec (bcmp_loop b1 b2 (Z.to_nat n) 0) 0); simpl; lia. }
  rewrite bcmp_loop_0. split.
  - intros [_ H]. apply list_eq_same_length with (n := Z.to_nat n);
      [rewrite length_take; lia..|].
    intros i x y Hi Hx Hy. rewrite lookup_take in Hx, Hy.
    rewrite decide_True in Hx, Hy by done.
    specialize (H i Hi). unfold byte_at in H.
    rewrite !nth_lookup, Hx, Hy in H. done.
  - intros H. split; [done|]. intros i Hi. unfold byte_at. rewrite !nth_lookup.
    apply (f_equal (.!! i)) in H. rewrite !lookup_take in H.
    rewrite !decide_True in H by done. by rewrite H.
Qed.
