(* ===== verification/Buffer.v ===== *)
(** * Byte buffers ([buffer.c], [bufaux.c])

    A [Buffer] is the C structure: the allocated bytes, the size of the
    allocation and the two offsets.  Bytes the allocator hands out are
    unspecified in C; the model fills them with 0 and no statement reads them.
    The functions ending in [_ret] report failure as a value and leave the
    buffer in the state the C code leaves it in; the others call [fatal]. *)

From S2P Require Import Prelude ByteOrder.

Definition BUFFER_MAX_CHUNK : Z := 0x100000.
Definition BUFFER_MAX_LEN : Z := 0xa00000.
Definition BUFFER_ALLOCSZ : Z := 0x008000.

Definition roundup (x y : Z) : Z := u32 (u32 (u32 (x + (y - 1)) / y) * y).

Record Buffer := mkBuffer {
  buf : list Z;
  alloc : Z;
  offset : Z;
  end_ : Z
}.
#[export] Instance eta_Buffer : Eta Buffer := λ b,
  {| buf := buf b; alloc := alloc b; offset := offset b; end_ := end_ b |}.

(** [xmalloc]/[xrealloc]: the old bytes followed by fresh ones. *)
Definition xrealloc (l : list Z) (n : Z) : list Z :=
  take (Z.to_nat n) l ++ replicate (Z.to_nat n - length l) 0.

(** [memcpy(buf + p, data, len)] inside the allocation. *)
Definition memcpy (l : list Z) (p : Z) (data : list Z) : list Z :=
  take (Z.to_nat p) l ++ data ++ drop (Z.to_nat p + length data) l.

Definition buffer_init : Buffer :=
  {| buf := xrealloc [] 4096; alloc := 4096; offset := 0; end_ := 0 |}.

Definition buffer_free (b : Buffer) : Buffer :=
  if 0 <? alloc b then b <| buf := [] |> <| alloc := 0 |> else b.

Definition buffer_clear (b : Buffer) : Buffer := b <| offset := 0 |> <| end_ := 0 |>.

Definition buffer_compact (b : Buffer) : bool * Buffer :=
  if Z.min (alloc b) BUFFER_MAX_CHUNK <? offset b then
    let n := u32 (end_ b - offset b) in
    let b := b <| buf := memcpy (buf b) 0
                     (take (Z.to_nat n) (drop (Z.to_nat (offset b)) (buf b))) |> in
    (true, b <| end_ := u32 (end_ b - offset b) |> <| offset := 0 |>)
  else (false, b).

(** [if (buffer->offset == buffer->end) { buffer->offset = 0; buffer->end = 0; }] *)
Definition reset_if_empty (b : Buffer) : Buffer :=
  if offset b =? end_ b then b <| offset := 0 |> <| end_ := 0 |> else b.

(** The [restart] loop of [buffer_append_space]; the result is the index of
    the reserved region and the buffer. *)
Fixpoint append_space_restart (fuel : nat) (b : Buffer) (len : Z) : outcome (Z * Buffer) :=
  match fuel with
  | O => NoFuel
  | S fuel =>
      if u32 (end_ b + len) <? alloc b then
        Ok (end_ b, b <| end_ := u32 (end_ b + len) |>)
      else
        match buffer_compact b with
        | (true, b) => append_space_restart fuel b len
        | (false, b) =>
            let newlen := roundup (u32 (alloc b + len)) BUFFER_ALLOCSZ in
            if BUFFER_MAX_LEN <? newlen then
              Fatal "buffer_append_space: alloc not supported"
            else
              append_space_restart fuel
                (b <| buf := xrealloc (buf b) newlen |> <| alloc := newlen |>) len
        end
  end.

#[global] Arguments append_space_restart : simpl never.

Definition buffer_append_space (b : Buffer) (len : Z) : outcome (Z * Buffer) :=
  if BUFFER_MAX_CHUNK <? len then Fatal "buffer_append_space: len not supported"
  else append_space_restart 3 (reset_if_empty b) len.

Definition buffer_append (b : Buffer) (data : list Z) : outcome Buffer :=
  '(p, b) ← buffer_append_space b (Z.of_nat (length data));
  Ok (b <| buf := memcpy (buf b) p data |>).

Fixpoint check_alloc_restart (fuel : nat) (b : Buffer) (len : Z) : outcome (Z * Buffer) :=
  match fuel with
  | O => NoFuel
  | S fuel =>
      if u32 (end_ b + len) <? alloc b then Ok (1, b)
      else
        match buffer_compact b with
        | (true, b) => check_alloc_restart fuel b len
        | (false, b) =>
            if roundup (u32 (alloc b + len)) BUFFER_ALLOCSZ <=? BUFFER_MAX_LEN
            then Ok (1, b) else Ok (0, b)
        end
  end.

Definition buffer_check_alloc (b : Buffer) (len : Z) : outcome (Z * Buffer) :=
  check_alloc_restart 2 (reset_if_empty b) len.

Definition buffer_len (b : Buffer) : Z := u32 (end_ b - offset b).

(** The bytes from the first used one on. *)
Definition buffer_ptr (b : Buffer) : list Z := drop (Z.to_nat (offset b)) (buf b).

Definition buffer_get_ret (b : Buffer) (len : Z) : option (list Z) * Buffer :=
  if u32 (end_ b - offset b) <? len then (None, b)
  else (Some (take (Z.to_nat len) (buffer_ptr b)), b <| offset := u32 (offset b + len) |>).

Definition buffer_get (b : Buffer) (len : Z) : outcome (list Z * Buffer) :=
  match buffer_get_ret b len with
  | (Some data, b) => Ok (data, b)
  | (None, _) => Fatal "buffer_get: buffer error"
  end.

Definition buffer_consume_ret (b : Buffer) (n : Z) : Z * Buffer :=
  if u32 (end_ b - offset b) <? n then (-1, b)
  else (0, b <| offset := u32 (offset b + n) |>).

Definition buffer_consume (b : Buffer) (n : Z) : outcome Buffer :=
  match buffer_consume_ret b n with
  | (r, b) => if r =? -1 then Fatal "buffer_consume: buffer error" else Ok b
  end.

Definition buffer_consume_end_ret (b : Buffer) (n : Z) : Z * Buffer :=
  if u32 (end_ b - offset b) <? n then (-1, b)
  else (0, b <| end_ := u32 (end_ b - n) |>).

Definition buffer_consume_end (b : Buffer) (n : Z) : outcome Buffer :=
  match buffer_consume_end_ret b n with
  | (r, b) => if r =? -1 then Fatal "buffer_consume_end: trying to get more bytes than in buffer"
              else Ok b
  end.

(** ** bufaux.c *)

Definition or_fatal {A} (msg : string) (r : option A * Buffer) : outcome (A * Buffer) :=
  match r with
  | (Some a, b) => Ok (a, b)
  | (None, _) => Fatal msg
  end.

Definition buffer_get_short_ret (b : Buffer) : option Z * Buffer :=
  match buffer_get_ret b 2 with
  | (None, b) => (None, b)
  | (Some bs, b) => (Some (get_u16 bs), b)
  end.
Definition buffer_get_short (b : Buffer) : outcome (Z * Buffer) :=
  or_fatal "buffer_get_short: buffer error" (buffer_get_short_ret b).

Definition buffer_get_int_ret (b : Buffer) : option Z * Buffer :=
  match buffer_get_ret b 4 with
  | (None, b) => (None, b)
  | (Some bs, b) => (Some (get_u32 bs), b)
  end.
Definition buffer_get_int (b : Buffer) : outcome (Z * Buffer) :=
  or_fatal "buffer_get_int: buffer error" (buffer_get_int_ret b).

Definition buffer_get_int64_ret (b : Buffer) : option Z * Buffer :=
  match buffer_get_ret b 8 with
  | (None, b) => (None, b)
  | (Some bs, b) => (Some (get_u64 bs), b)
  end.
Definition buffer_get_int64 (b : Buffer) : outcome (Z * Buffer) :=
  or_fatal "buffer_get_int: buffer error" (buffer_get_int64_ret b).

Definition buffer_put_short (b : Buffer) (v : Z) : outcome Buffer :=
  buffer_append b (put_u16 v).
Definition buffer_put_int (b : Buffer) (v : Z) : outcome Buffer :=
  buffer_append b (put_u32 v).
Definition buffer_put_int64 (b : Buffer) (v : Z) : outcome Buffer :=
  buffer_append b (put_u64 v).

(** The returned memory holds the string and a NUL after it; the model returns
    the [len] bytes of the string, whose count is what [*length_ptr] gets. *)
Definition buffer_get_string_ret (b : Buffer) : option (list Z) * Buffer :=
  match buffer_get_int_ret b with
  | (None, b) => (None, b)
  | (Some len, b) =>
      if 256 * 1024 <? len then (None, b)
      else match buffer_get_ret b len with
           | (None, b) => (None, b)
           | (Some value, b) => (Some value, b)
           end
  end.
Definition buffer_get_string (b : Buffer) : outcome (list Z * Buffer) :=
  or_fatal "buffer_get_string: buffer error" (buffer_get_string_ret b).

(** [memchr(s, '\0', length)]: the position of the first NUL. *)
Definition memchr0 (s : list Z) : option nat := fst <$> list_find (λ c, c = 0) s.

Definition buffer_get_cstring_ret (b : Buffer) : option (list Z) * Buffer :=
  match buffer_get_string_ret b with
  | (None, b) => (None, b)
  | (Some ret, b) =>
      match memchr0 ret with
      | Some cp => if Z.of_nat cp =? Z.of_nat (length ret) - 1 then (Some ret, b) else (None, b)
      | None => (Some ret, b)
      end
  end.
Definition buffer_get_cstring (b : Buffer) : outcome (list Z * Buffer) :=
  or_fatal "buffer_get_cstring: buffer error" (buffer_get_cstring_ret b).

(** The pointer is returned as the [len] bytes it designates. *)
Definition buffer_get_string_ptr_ret (b : Buffer) : outcome (option (list Z) * Buffer) :=
  match buffer_get_int_ret b with
  | (None, b) => Ok (None, b)
  | (Some len, b) =>
      if 256 * 1024 <? len then Ok (None, b)
      else
        let ptr := take (Z.to_nat len) (buffer_ptr b) in
        b ← buffer_consume b len;
        Ok (Some ptr, b)
  end.
Definition buffer_get_string_ptr (b : Buffer) : outcome (list Z * Buffer) :=
  r ← buffer_get_string_ptr_ret b;
  or_fatal "buffer_get_string_ptr: buffer error" r.

Definition buffer_put_string (b : Buffer) (s : list Z) : outcome Buffer :=
  b ← buffer_put_int b (u32 (Z.of_nat (length s)));
  buffer_append b s.

(** A C string is its bytes before the terminating NUL; [None] is NULL. *)
Definition buffer_put_cstring (b : Buffer) (s : option (list Z)) : outcome Buffer :=
  match s with
  | None => Fatal "buffer_put_cstring: s == NULL"
  | Some s => buffer_put_string b s
  end.

Definition buffer_get_char_ret (b : Buffer) : option Z * Buffer :=
  match buffer_get_ret b 1 with
  | (None, b) => (None, b)
  | (Some bs, b) => (Some (byte_at bs 0), b)
  end.
Definition buffer_get_char (b : Buffer) : outcome (Z * Buffer) :=
  or_fatal "buffer_get_char: buffer error" (buffer_get_char_ret b).

Definition buffer_put_char (b : Buffer) (v : Z) : outcome Buffer :=
  buffer_append b [u8 v].

(** [buffer_skip_string] (a macro of [buffer.h]). *)
Definition buffer_skip_string (b : Buffer) : outcome Buffer :=
  '(l, b) ← buffer_get_int b; buffer_consume b l.

(** ** Representation invariant and abstraction *)

(** The bytes between the two offsets: the abstract value of a buffer. *)
Definition contents (b : Buffer) : list Z :=
  take (Z.to_nat (end_ b - offset b)) (buffer_ptr b).

Record wf (b : Buffer) : Prop := mkWf {
  wf_offset : 0 ≤ offset b ≤ end_ b;
  wf_end : end_ b < alloc b;
  wf_alloc : alloc b ≤ BUFFER_MAX_LEN;
  wf_buf : Z.of_nat (length (buf b)) = alloc b
}.

(** Whether [len] more bytes fit, as [buffer_append_space] decides it. *)
Definition append_fits (b : Buffer) (len : Z) : bool :=
  let b := reset_if_empty b in
  (end_ b + len <? alloc b)
  || ((Z.min (alloc b) BUFFER_MAX_CHUNK <? offset b) && (end_ b - offset b + len <? alloc b))
  || (roundup (alloc b + len) BUFFER_ALLOCSZ <=? BUFFER_MAX_LEN).

Ltac unfold_consts := unfold BUFFER_MAX_LEN, BUFFER_MAX_CHUNK, BUFFER_ALLOCSZ in *.
Ltac wf_bounds :=
  repeat match goal with H : wf _ |- _ => destruct H end; unfold_consts.

Lemma roundup_bounds x y :
  0 < y → 0 ≤ x → x + y < 2 ^ 32 → x ≤ roundup x y < x + y.
Proof.
  intros. unfold roundup.
  rewrite (u32_small (x + (y - 1))) by lia.
  assert (x ≤ (x + (y - 1)) / y * y < x + y) by (Z.div_mod_to_equations; nia).
  rewrite (u32_small (_ / y)) by (Z.div_mod_to_equations; nia).
  rewrite u32_small; lia.
Qed.

Lemma memcpy_length l p data :
  (Z.to_nat p + length data ≤ length l)%nat →
  length (memcpy l p data) = length l.
Proof. intros. unfold memcpy. rewrite !length_app, length_take, length_drop. lia. Qed.

Lemma buffer_init_wf : wf buffer_init ∧ contents buffer_init = [].
Proof. split; [|done]. constructor; unfold_consts; vm_compute; intuition congruence. Qed.

Lemma contents_length b : wf b → Z.of_nat (length (contents b)) = end_ b - offset b.
Proof.
  intros Hb. wf_bounds. unfold contents, buffer_ptr. rewrite length_take, length_drop. lia.
Qed.

Lemma buffer_len_contents b : wf b → buffer_len b = Z.of_nat (length (contents b)).
Proof.
  intros Hb. rewrite contents_length by done. wf_bounds. unfold buffer_len.
  apply u32_small. lia.
Qed.

Lemma buffer_clear_spec b : wf b → wf (buffer_clear b) ∧ contents (buffer_clear b) = [].
Proof.
  intros Hb. wf_bounds. split; [|done].
  constructor; unfold buffer_clear; rsimpl; unfold_consts; lia.
Qed.

Lemma reset_if_empty_spec b :
  wf b → wf (reset_if_empty b) ∧ contents (reset_if_empty b) = contents b ∧
         alloc (reset_if_empty b) = alloc b ∧ end_ (reset_if_empty b) ≤ end_ b.
Proof.
  intros Hb. unfold reset_if_empty. destruct (Z.eqb_spec (offset b) (end_ b)); [|done].
  wf_bounds. unfold contents. rsimpl.
  replace (end_ b - offset b) with 0 by lia. split; [|split; [done|rsimpl; lia]].
  constructor; rsimpl; unfold_consts; lia.
Qed.

Lemma buffer_compact_spec b c b' :
  wf b → buffer_compact b = (c, b') →
  wf b' ∧ contents b' = contents b ∧ alloc b' = alloc b ∧
  (c = true → Z.min (alloc b) BUFFER_MAX_CHUNK < offset b ∧ offset b' = 0 ∧
              end_ b' = end_ b - offset b) ∧
  (c = false → b' = b ∧ offset b ≤ Z.min (alloc b) BUFFER_MAX_CHUNK).
Proof.
  intros Hb. unfold buffer_compact.
  destruct (Z.ltb_spec (Z.min (alloc b) BUFFER_MAX_CHUNK) (offset b)) as [Hlt|Hge];
    intros H; simplify_eq; [|by eauto using Z.le_refl].
  pose proof (contents_length b Hb) as Hlen. fold (buffer_ptr b).
  assert (take (Z.to_nat (u32 (end_ b - offset b))) (buffer_ptr b) = contents b) as ->.
  { unfold contents. rewrite u32_small; [done|]. wf_bounds. lia. }
  wf_bounds. rsimpl.
  assert (length (memcpy (buf b) 0 (contents b)) = length (buf b)) as Hm
    by (apply memcpy_length; lia).
  rewrite u32_small by lia. split; [constructor; rsimpl; unfold_consts; lia|].
  split; [|naive_solver]. unfold contents at 1, buffer_ptr. rsimpl.
  rewrite drop_0, Z.sub_0_r. unfold memcpy. simpl.
  replace (Z.to_nat (end_ b - offset b)) with (length (contents b)) by lia.
  by rewrite take_app_length.
Qed.

Lemma contents_grow b n :
  wf b → alloc b ≤ n ≤ BUFFER_MAX_LEN →
  let b' := b <| buf := xrealloc (buf b) n |> <| alloc := n |> in
  wf b' ∧ contents b' = contents b.
Proof.
  intros Hb Hn b'. wf_bounds. subst b'.
  assert (take (Z.to_nat n) (buf b) = buf b) as Htk by (apply take_ge; lia).
  split.
  - constructor; rsimpl; unfold_consts; try lia.
    unfold xrealloc. rewrite length_app, length_replicate, length_take. lia.
  - unfold contents, buffer_ptr. rsimpl. unfold xrealloc. rewrite Htk.
    rewrite drop_app_le by lia. rewrite take_app_le; [done|]. rewrite length_drop. lia.
Qed.

(** What reserving [len] bytes in [b] yields. *)
Definition reserved (b : Buffer) (len p : Z) (b' : Buffer) : Prop :=
  wf b' ∧ offset b' ≤ p ≤ end_ b ∧ end_ b' = p + len ∧
  take (Z.to_nat (p - offset b')) (buffer_ptr b') = contents b ∧
  alloc b ≤ alloc b' ≤ Z.max (alloc b) (end_ b + 2 * len + BUFFER_ALLOCSZ).

Lemma append_space_fit fuel b len :
  wf b → 0 ≤ len ≤ BUFFER_MAX_CHUNK → end_ b + len < alloc b →
  append_space_restart (S fuel) b len = Ok (end_ b, b <| end_ := end_ b + len |>) ∧
  reserved b len (end_ b) (b <| end_ := end_ b + len |>).
Proof.
  intros Hb Hl Hfit. unfold append_space_restart; fold append_space_restart.
  assert (u32 (end_ b + len) = end_ b + len) as -> by (apply u32_small; wf_bounds; lia).
  rewrite (proj2 (Z.ltb_lt _ _) Hfit). split; [done|].
  unfold reserved. wf_bounds. rsimpl.
  split; [constructor; rsimpl; unfold_consts; lia|].
  split_and!; first [lia|done].
Qed.

Lemma append_space_grow fuel b len :
  wf b → 0 ≤ len ≤ BUFFER_MAX_CHUNK → alloc b ≤ end_ b + len →
  offset b ≤ Z.min (alloc b) BUFFER_MAX_CHUNK →
  if roundup (alloc b + len) BUFFER_ALLOCSZ <=? BUFFER_MAX_LEN then
    ∃ b', append_space_restart (S (S fuel)) b len = Ok (end_ b, b') ∧
          reserved b len (end_ b) b'
  else ∃ m, append_space_restart (S (S fuel)) b len = Fatal m.
Proof.
  intros Hb Hl Hfit Hoff. set (n := roundup (alloc b + len) BUFFER_ALLOCSZ).
  assert (alloc b + len ≤ n < alloc b + len + BUFFER_ALLOCSZ) as Hn.
  { apply roundup_bounds; wf_bounds; lia. }
  assert (append_space_restart (S (S fuel)) b len =
          if BUFFER_MAX_LEN <? n then Fatal "buffer_append_space: alloc not supported"
          else append_space_restart (S fuel)
                 (b <| buf := xrealloc (buf b) n |> <| alloc := n |>) len) as ->.
  { remember (S fuel) as f. unfold append_space_restart; fold append_space_restart.
    rewrite u32_small by (wf_bounds; lia).
    rewrite (proj2 (Z.ltb_ge _ _) Hfit). unfold buffer_compact.
    rewrite (proj2 (Z.ltb_ge _ _) Hoff). by rewrite u32_small by (wf_bounds; lia). }
  rewrite Z.leb_antisym. destruct (Z.ltb_spec BUFFER_MAX_LEN n) as [|Hle]; simpl; [eauto|].
  destruct (contents_grow b n) as [Hw Hc]; [done|wf_bounds; lia|].
  set (b1 := b <| buf := xrealloc (buf b) n |> <| alloc := n |>) in *.
  destruct (append_space_fit fuel b1 len) as [He Hr]; [done|lia| |].
  { subst b1. rsimpl. wf_bounds. lia. }
  eexists. split; [exact He|].
  destruct Hr as (Hw' & Ho & Hend & Hk & Ha1 & Ha2).
  change (alloc b1) with n in *. change (end_ b1) with (end_ b) in *.
  unfold reserved. rewrite Hc in Hk. wf_bounds. revert Ho Ha1 Ha2. rsimpl. intros.
  split_and!; try done; lia.
Qed.

(** [buffer_append_space] succeeds exactly when [append_fits], needs at most
    three rounds of its [restart] loop, and keeps the contents. *)
Lemma buffer_append_space_spec b len :
  wf b → 0 ≤ len ≤ BUFFER_MAX_CHUNK →
  if append_fits b len then
    ∃ p b', buffer_append_space b len = Ok (p, b') ∧ reserved b len p b'
  else ∃ m, buffer_append_space b len = Fatal m.
Proof.
  intros Hb Hl. unfold append_fits, buffer_append_space.
  rewrite (proj2 (Z.ltb_ge BUFFER_MAX_CHUNK len)) by lia.
  destruct (reset_if_empty_spec b Hb) as (Hw & Hc & Ha & He).
  set (b0 := reset_if_empty b) in *.
  assert (∀ p b', reserved b0 len p b' → reserved b len p b') as Hres.
  { intros p b'. unfold reserved. rewrite Hc, Ha. intuition lia. }
  destruct (Z.ltb_spec (end_ b0 + len) (alloc b0)) as [Hfit|Hnofit]; simpl.
  { destruct (append_space_fit 2 b0 len Hw Hl Hfit). eauto. }
  destruct (Z.ltb_spec (Z.min (alloc b0) BUFFER_MAX_CHUNK) (offset b0)) as [Hoff|Hoff]; simpl.
  - destruct (buffer_compact b0) as [c b1] eqn:Hcomp.
    destruct (buffer_compact_spec b0 c b1 Hw Hcomp) as (Hw1 & Hc1 & Ha1 & Ht & Hf).
    destruct c; [|destruct Hf as [_ Hf]; [done|lia]].
    destruct Ht as (_ & Ho1 & He1); [done|].
    assert (append_space_restart 3 b0 len = append_space_restart 2 b1 len) as ->.
    { remember 2%nat as f. unfold append_space_restart; fold append_space_restart. rewrite u32_small by (wf_bounds; lia).
      rewrite (proj2 (Z.ltb_ge _ _) Hnofit). by rewrite Hcomp. }
    assert (∀ p b', reserved b1 len p b' → reserved b len p b') as Hres1.
    { intros p b' Hr. apply Hres. destruct Hr as (?&?&?&?&?).
      unfold reserved. rewrite Ha1, Hc1 in *. pose proof (wf_offset _ Hw). intuition lia. }
    destruct (Z.ltb_spec (end_ b0 - offset b0 + len) (alloc b0)) as [Hfit|Hnf]; simpl.
    + destruct (append_space_fit 1 b1 len Hw1 Hl) as [-> ?]; [lia|]. eauto.
    + pose proof (append_space_grow 0 b1 len Hw1 Hl) as Hg. rewrite Ha1 in Hg.
      specialize (Hg ltac:(lia) ltac:(pose proof (wf_alloc _ Hw1); wf_bounds; lia)).
      destruct (_ <=? _); naive_solver.
  - pose proof (append_space_grow 1 b0 len Hw Hl Hnofit Hoff) as Hg.
    destruct (_ <=? _); naive_solver.
Qed.

(** Appending to a buffer that is not almost full always succeeds. *)
Lemma append_fits_room b len :
  wf b → 0 ≤ len ≤ BUFFER_MAX_CHUNK →
  alloc b + len + BUFFER_ALLOCSZ ≤ BUFFER_MAX_LEN → append_fits b len = true.
Proof.
  intros Hb Hl Hroom. unfold append_fits.
  destruct (reset_if_empty_spec b Hb) as (Hw & Hc & Ha & _). rewrite Ha.
  pose proof (roundup_bounds (alloc b + len) BUFFER_ALLOCSZ) as Hr.
  rewrite (proj2 (Z.leb_le _ _)); [by rewrite orb_true_r|]. wf_bounds. lia.
Qed.

Lemma buffer_append_spec b data :
  wf b → Z.of_nat (length data) ≤ BUFFER_MAX_CHUNK →
  if append_fits b (Z.of_nat (length data)) then
    ∃ b', buffer_append b data = Ok b' ∧ wf b' ∧ contents b' = contents b ++ data ∧
          alloc b ≤ alloc b' ≤
            Z.max (alloc b) (end_ b + 2 * Z.of_nat (length data) + BUFFER_ALLOCSZ) ∧
          end_ b' ≤ end_ b + Z.of_nat (length data)
  else ∃ m, buffer_append b data = Fatal m.
Proof.
  intros Hb Hl. pose proof (buffer_append_space_spec b _ Hb (conj (Nat2Z.is_nonneg _) Hl)) as Hs.
  unfold buffer_append. destruct (append_fits _ _); [|destruct Hs as [m ->]; simpl; eauto].
  destruct Hs as (p & b' & -> & Hw & Ho & He & Hk & Ha). cbn [mbind outcome_bind].
  eexists. split; [done|]. rsimpl. wf_bounds.
  assert (length (memcpy (buf b') p data) = length (buf b')) by (apply memcpy_length; lia).
  split; [constructor; rsimpl; unfold_consts; lia|]. split; [|lia].
  rewrite <- Hk. unfold contents, buffer_ptr in *. rsimpl. unfold memcpy.
  rewrite drop_app_le by (rewrite length_take; lia).
  rewrite skipn_firstn_comm, He, app_assoc.
  replace (Z.to_nat p - Z.to_nat (offset b'))%nat with (Z.to_nat (p - offset b')) by lia.
  apply take_app_length'. rewrite length_app, length_take, length_drop. lia.
Qed.

Lemma buffer_append_ok b data :
  wf b → Z.of_nat (length data) ≤ BUFFER_MAX_CHUNK →
  alloc b + Z.of_nat (length data) + BUFFER_ALLOCSZ ≤ BUFFER_MAX_LEN →
  ∃ b', buffer_append b data = Ok b' ∧ wf b' ∧ contents b' = contents b ++ data ∧
        alloc b ≤ alloc b' ≤
          Z.max (alloc b) (end_ b + 2 * Z.of_nat (length data) + BUFFER_ALLOCSZ) ∧
        end_ b' ≤ end_ b + Z.of_nat (length data).
Proof.
  intros Hb Hl Hroom. pose proof (buffer_append_spec b data Hb Hl) as Hs.
  rewrite append_fits_room in Hs by (done || lia). exact Hs.
Qed.

Lemma buffer_consume_spec b n :
  wf b → 0 ≤ n →
  if n <=? Z.of_nat (length (contents b)) then
    ∃ b', buffer_consume b n = Ok b' ∧ wf b' ∧ alloc b' = alloc b ∧ end_ b' = end_ b ∧
          contents b' = drop (Z.to_nat n) (contents b)
  else ∃ m, buffer_consume b n = Fatal m.
Proof.
  intros Hb Hn. pose proof (contents_length b Hb) as Hlen.
  unfold buffer_consume, buffer_consume_ret. wf_bounds.
  rewrite (u32_small (end_ b - offset b)) by lia. rewrite <- Hlen.
  rewrite Z.ltb_antisym. destruct (Z.leb_spec n (Z.of_nat (length (contents b)))); simpl; [|eauto].
  rewrite u32_small by lia. eexists. split; [done|]. rsimpl.
  split; [constructor; rsimpl; unfold_consts; lia|]. split; [done|]. split; [done|].
  unfold contents, buffer_ptr. rsimpl. rewrite skipn_firstn_comm, drop_drop.
  f_equal; [lia|]. f_equal. lia.
Qed.

Lemma buffer_consume_end_spec b n :
  wf b → 0 ≤ n →
  if n <=? Z.of_nat (length (contents b)) then
    ∃ b', buffer_consume_end b n = Ok b' ∧ wf b' ∧ alloc b' = alloc b ∧
          contents b' = take (length (contents b) - Z.to_nat n) (contents b)
  else ∃ m, buffer_consume_end b n = Fatal m.
Proof.
  intros Hb Hn. pose proof (contents_length b Hb) as Hlen.
  unfold buffer_consume_end, buffer_consume_end_ret. wf_bounds.
  rewrite (u32_small (end_ b - offset b)) by lia. rewrite <- Hlen.
  rewrite Z.ltb_antisym. destruct (Z.leb_spec n (Z.of_nat (length (contents b)))); simpl; [|eauto].
  rewrite u32_small by lia. eexists. split; [done|]. rsimpl.
  split; [constructor; rsimpl; unfold_consts; lia|]. split; [done|].
  unfold contents at 1 3, buffer_ptr. rsimpl. rewrite take_take. f_equal. lia.
Qed.

Lemma buffer_get_ret_spec b n :
  wf b → 0 ≤ n →
  if n <=? Z.of_nat (length (contents b)) then
    ∃ b', buffer_get_ret b n = (Some (take (Z.to_nat n) (contents b)), b') ∧
          wf b' ∧ alloc b' = alloc b ∧ contents b' = drop (Z.to_nat n) (contents b)
  else buffer_get_ret b n = (None, b).
Proof.
  intros Hb Hn. pose proof (buffer_consume_spec b n Hb Hn) as Hc.
  pose proof (contents_length b Hb) as Hlen.
  unfold buffer_get_ret. unfold buffer_consume, buffer_consume_ret in Hc. wf_bounds.
  rewrite (u32_small (end_ b - offset b)) in * by lia. rewrite <- Hlen in *.
  rewrite Z.ltb_antisym in *.
  destruct (Z.leb_spec n (Z.of_nat (length (contents b)))); simpl in *; [|done].
  destruct Hc as (b' & Heq & Hw & Ha & He & Hc). simplify_eq.
  eexists. split; [|done]. unfold contents. rewrite take_take. do 3 f_equal. lia.
Qed.

Lemma buffer_get_spec b n :
  wf b → 0 ≤ n →
  if n <=? Z.of_nat (length (contents b)) then
    ∃ b', buffer_get b n = Ok (take (Z.to_nat n) (contents b), b') ∧
          wf b' ∧ alloc b' = alloc b ∧ contents b' = drop (Z.to_nat n) (contents b)
  else ∃ m, buffer_get b n = Fatal m.
Proof.
  intros Hb Hn. pose proof (buffer_get_ret_spec b n Hb Hn) as Hg. unfold buffer_get.
  destruct (_ <=? _); [|rewrite Hg; eauto].
  destruct Hg as (b' & -> & ?). eauto.
Qed.

(** ** Buffers with room

    What counts is the data in the buffer, not how much has passed through it:
    [buffer_append_space] moves the data to the front or grows the allocation
    only when the free space behind the data is used up, and then at most
    [BUFFER_MAX_CHUNK] bytes of the allocation lie before the data. *)
Definition ROOM : Z := BUFFER_MAX_LEN - BUFFER_MAX_CHUNK - BUFFER_ALLOCSZ.

Lemma append_fits_live b len :
  wf b → 0 ≤ len ≤ BUFFER_MAX_CHUNK →
  Z.of_nat (length (contents b)) + 2 * len ≤ ROOM → append_fits b len = true.
Proof.
  intros Hb Hl Hroom. unfold append_fits, ROOM in *.
  destruct (reset_if_empty_spec b Hb) as (Hw & Hc & _ & _). rewrite <- Hc in Hroom.
  set (b0 := reset_if_empty b) in *. rewrite (contents_length b0 Hw) in Hroom.
  pose proof (roundup_bounds (alloc b0 + len) BUFFER_ALLOCSZ) as Hr.
  destruct (Z.ltb_spec (end_ b0 + len) (alloc b0)) as [|Hn1]; [done|]. rewrite orb_false_l.
  destruct (Z.ltb_spec (end_ b0 - offset b0 + len) (alloc b0)) as [Hn2|Hn2];
    destruct (Z.ltb_spec (Z.min (alloc b0) BUFFER_MAX_CHUNK) (offset b0)) as [Ho|Ho]; [done|..]; simpl;
    apply Z.leb_le; wf_bounds; lia.
Qed.

(** [roomy b n]: [n] more bytes can be appended, in any number of pieces of at
    most one chunk. *)
Record roomy (b : Buffer) (n : Z) : Prop := {
  ro_wf : wf b;
  ro_live : Z.of_nat (length (contents b)) + 2 * n ≤ ROOM
}.

Lemma roomy_weaken b n m : roomy b n → m ≤ n → roomy b m.
Proof. intros [] ?. split; [done|lia]. Qed.

Lemma append_roomy b n data :
  roomy b n → Z.of_nat (length data) ≤ n → Z.of_nat (length data) ≤ BUFFER_MAX_CHUNK →
  ∃ b', buffer_append b data = Ok b' ∧ contents b' = contents b ++ data ∧
    roomy b' (n - Z.of_nat (length data)).
Proof.
  intros [Hw He] Hn Hc. pose proof (buffer_append_spec b data Hw Hc) as Hs.
  rewrite append_fits_live in Hs by (done || lia).
  destruct Hs as (b' & Hb & Hw' & Hcont & _).
  exists b'. split_and!; [done..|]. split; [done|]. rewrite Hcont, length_app. lia.
Qed.

Lemma append_space_roomy b n len :
  roomy b n → 0 ≤ len ≤ n → len ≤ BUFFER_MAX_CHUNK →
  ∃ p b', buffer_append_space b len = Ok (p, b') ∧
    ∀ data, Z.of_nat (length data) = len →
      buffer_append b data = Ok (b' <| buf := memcpy (buf b') p data |>).
Proof.
  intros [Hw He] Hn Hc. pose proof (buffer_append_space_spec b len Hw ltac:(lia)) as Hs.
  rewrite append_fits_live in Hs by (done || lia).
  destruct Hs as (p & b' & Hsp & _). exists p, b'. split; [done|].
  intros data <-. unfold buffer_append. by rewrite Hsp.
Qed.

Lemma clear_roomy b m : wf b → 2 * m ≤ ROOM → roomy (buffer_clear b) m.
Proof. intros Hw Hm. destruct (buffer_clear_spec b Hw) as [? Hc]. split; [done|]. by rewrite Hc. Qed.

Lemma consume_roomy b n k b' : roomy b n → 0 ≤ k → buffer_consume b k = Ok b' → roomy b' n.
Proof.
  intros [Hw He] Hk E. pose proof (buffer_consume_spec b k Hw Hk) as Hs.
  destruct (_ <=? _); [|by destruct Hs as [m Hs]; rewrite E in Hs].
  destruct Hs as (b2 & E2 & Hw2 & _ & _ & Hc2). rewrite E in E2. injection E2 as ->.
  split; [done|]. rewrite Hc2, length_drop. lia.
Qed.

(** ** Refinement: a buffer is a byte queue *)

Module Queue.

(** The operations of [buffer.c] that a client can interleave. *)
Inductive op :=
| Append (data : list Z)
| Get (n : Z)
| Consume (n : Z)
| ConsumeEnd (n : Z)
| Clear.

Definition op_ok (o : op) : Prop :=
  match o with
  | Append data => Z.of_nat (length data) ≤ BUFFER_MAX_CHUNK
  | Get n | Consume n | ConsumeEnd n => 0 ≤ n
  | Clear => True
  end.

(** One operation on the C structure, with the bytes it returns. *)
Definition run (b : Buffer) (o : op) : outcome (list Z * Buffer) :=
  match o with
  | Append data => b ← buffer_append b data; Ok ([], b)
  | Get n => buffer_get b n
  | Consume n => b ← buffer_consume b n; Ok ([], b)
  | ConsumeEnd n => b ← buffer_consume_end b n; Ok ([], b)
  | Clear => Ok ([], buffer_clear b)
  end.

Fixpoint runs (b : Buffer) (os : list op) : outcome (list (list Z) * Buffer) :=
  match os with
  | [] => Ok ([], b)
  | o :: os => '(r, b) ← run b o; '(rs, b) ← runs b os; Ok (r :: rs, b)
  end.

(** The abstract queue: a list of bytes; [None] is an underflow. *)
Definition spec (q : list Z) (o : op) : option (list Z * list Z) :=
  let enough n := n <=? Z.of_nat (length q) in
  match o with
  | Append data => Some ([], q ++ data)
  | Get n => if enough n then Some (take (Z.to_nat n) q, drop (Z.to_nat n) q) else None
  | Consume n => if enough n then Some ([], drop (Z.to_nat n) q) else None
  | ConsumeEnd n => if enough n then Some ([], take (length q - Z.to_nat n) q) else None
  | Clear => Some ([], [])
  end.

Fixpoint specs (q : list Z) (os : list op) : option (list (list Z) * list Z) :=
  match os with
  | [] => Some ([], q)
  | o :: os => '(r, q) ← spec q o; '(rs, q) ← specs q os; Some (r :: rs, q)
  end.

(** Whether the queue leaves room for an operation: an append needs twice its
    length beside the data that is in the queue. *)
Definition room_for (q : list Z) (o : op) : Prop :=
  match o with
  | Append data => Z.of_nat (length q) + 2 * Z.of_nat (length data) ≤ ROOM
  | _ => True
  end.

(** All along a sequence of operations. *)
Fixpoint rooms_for (q : list Z) (os : list op) : Prop :=
  match os with
  | [] => True
  | o :: os => room_for q o ∧ match spec q o with Some (_, q) => rooms_for q os | None => True end
  end.

Lemma run_spec b o :
  wf b → op_ok o → room_for (contents b) o →
  match spec (contents b) o with
  | Some (r, q) => ∃ b', run b o = Ok (r, b') ∧ wf b' ∧ contents b' = q
  | None => ∃ m, run b o = Fatal m
  end.
Proof.
  intros Hb Ho Hc. destruct o as [data|n|n|n|]; simpl in *.
  - pose proof (buffer_append_spec b data Hb Ho) as Hs. rewrite append_fits_live in Hs by (done || lia).
    destruct Hs as (b' & -> & Hw & Hq & _). by exists b'.
  - pose proof (buffer_get_spec b n Hb Ho) as Hs.
    destruct (_ <=? _); [|done]. destruct Hs as (b' & -> & Hw & Ha & Hq). by exists b'.
  - pose proof (buffer_consume_spec b n Hb Ho) as Hs.
    destruct (_ <=? _); [|destruct Hs as [m ->]; simpl; eauto].
    destruct Hs as (b' & -> & Hw & Ha & He & Hq). by exists b'.
  - pose proof (buffer_consume_end_spec b n Hb Ho) as Hs.
    destruct (_ <=? _); [|destruct Hs as [m ->]; simpl; eauto].
    destruct Hs as (b' & -> & Hw & Ha & Hq). by exists b'.
  - destruct (buffer_clear_spec b Hb) as [Hw Hq]. eexists. split; [done|]. split; [apply Hw|done].
Qed.

(** C35: the buffer of [buffer.c] refines a byte queue.  For every sequence,
    however long, of appends (of at most [BUFFER_MAX_CHUNK] bytes each), gets,
    consumes and clears, the C operations return exactly what the list
    operations return and end with the same contents, provided that at each
    append the data still in the queue and twice the piece appended are at
    most [ROOM] (9,404,416) bytes: the space of data that has been taken out
    is used again, and the [restart] loop of [buffer_append_space] never runs
    out of rounds.  They call [fatal] exactly when the queue underflows. *)
Theorem buffer_refines_queue b os :
  wf b → Forall op_ok os → rooms_for (contents b) os →
  match specs (contents b) os with
  | Some (rs, q) => ∃ b', runs b os = Ok (rs, b') ∧ wf b' ∧ contents b' = q
  | None => ∃ m, runs b os = Fatal m
  end.
Proof.
  revert b. induction os as [|o os IH]; intros b Hb Hos Hc; simpl; [eauto|].
  inversion Hos as [|?? Ho Hos']; subst. destruct Hc as [Hc Hcs].
  pose proof (run_spec b o Hb Ho Hc) as Hs.
  destruct (spec (contents b) o) as [[r q]|]; [|destruct Hs as [m ->]; simpl; eauto].
  destruct Hs as (b1 & -> & Hb1 & <-). simpl.
  specialize (IH b1 Hb1 Hos' Hcs).
  destruct (specs (contents b1) os) as [[rs q']|]; simpl.
  - destruct IH as (b' & -> & ?). simpl. eauto.
  - destruct IH as [m ->]. simpl. eauto.
Qed.

Lemma buffer_refines_queue_witness :
  ∃ b', runs buffer_init [Append [1; 2; 3; 4]; Get 2; Consume 1; Append [9]; ConsumeEnd 1]
        = Ok ([[]; [1; 2]; []; []; []], b') ∧ wf b' ∧ contents b' = [4].
Proof.
  apply (buffer_refines_queue buffer_init
    [Append [1; 2; 3; 4]; Get 2; Consume 1; Append [9]; ConsumeEnd 1]).
  - apply buffer_init_wf.
  - repeat constructor; vm_compute; intuition congruence.
  - vm_compute. repeat split; congruence.
Defined.

End Queue.

(** ** [buffer_check_alloc] *)

Lemma check_alloc_spec b len :
  wf b → 0 ≤ len ≤ BUFFER_MAX_CHUNK →
  ∃ b', buffer_check_alloc b len = Ok (b2z (append_fits b len), b') ∧
        wf b' ∧ contents b' = contents b.
Proof.
  intros Hb Hl. unfold buffer_check_alloc, append_fits.
  destruct (reset_if_empty_spec b Hb) as (Hw & Hc & Ha & _).
  set (b0 := reset_if_empty b) in *. cbn [check_alloc_restart].
  rewrite (u32_small (end_ b0 + len)) by (wf_bounds; lia).
  destruct (Z.ltb_spec (end_ b0 + len) (alloc b0)); simpl; [eauto|].
  destruct (buffer_compact b0) as [c b1] eqn:Hcomp.
  destruct (buffer_compact_spec b0 c b1 Hw Hcomp) as (Hw1 & Hc1 & Ha1 & Ht & Hf).
  rewrite <- Hc.
  destruct c.
  - destruct Ht as (Hoff & Ho1 & He1); [done|].
    rewrite (proj2 (Z.ltb_lt _ _) Hoff), Ha1, He1. simpl.
    rewrite (u32_small (end_ b0 - offset b0 + len)) by (wf_bounds; lia).
    destruct (Z.ltb_spec (end_ b0 - offset b0 + len) (alloc b0)); simpl; [eauto|].
    assert (buffer_compact b1 = (false, b1)) as ->.
    { unfold buffer_compact. rewrite Ho1. pose proof (wf_end _ Hw1).
      pose proof (wf_offset _ Hw1). by rewrite (proj2 (Z.ltb_ge _ _)) by (unfold_consts; lia). }
    rewrite Ha1, (u32_small (alloc b0 + len)) by (wf_bounds; lia).
    destruct (_ <=? _); eauto.
  - destruct Hf as [-> Hoff]; [done|].
    rewrite (proj2 (Z.ltb_ge _ _) Hoff). simpl.
    rewrite (u32_small (alloc b0 + len)) by (wf_bounds; lia).
    destruct (_ <=? _); eauto.
Qed.

(** [buffer_check_alloc] "must follow the same math as
    [buffer_append_space]" (the comment of [buffer.c]): for every well-formed
    buffer and every length up to the chunk limit it answers 1 exactly when
    [buffer_append_space] would succeed, and it leaves the contents alone. *)
Theorem buffer_check_alloc_agrees b len :
  wf b → 0 ≤ len ≤ BUFFER_MAX_CHUNK →
  ∃ r b', buffer_check_alloc b len = Ok (r, b') ∧ contents b' = contents b ∧ wf b' ∧
          (r = 1 ↔ is_Ok (buffer_append_space b len)) ∧
          (r = 0 ↔ ∃ m, buffer_append_space b len = Fatal m).
Proof.
  intros Hb Hl. destruct (check_alloc_spec b len Hb Hl) as (b' & -> & Hw & Hc).
  pose proof (buffer_append_space_spec b len Hb Hl) as Hs.
  eexists _, b'. split; [done|]. split; [done|]. split; [done|].
  destruct (append_fits b len); simpl.
  - destruct Hs as (p & b1 & -> & _). split; split; try done; [by eexists|naive_solver].
  - destruct Hs as (m & ->). split; split; try done; [|eauto]. intros [? ?]; done.
Qed.

Lemma buffer_check_alloc_agrees_witness :
  ∃ r b', buffer_check_alloc buffer_init 5000 = Ok (r, b') ∧
          contents b' = contents buffer_init ∧ wf b' ∧
          (r = 1 ↔ is_Ok (buffer_append_space buffer_init 5000)) ∧
          (r = 0 ↔ ∃ m, buffer_append_space buffer_init 5000 = Fatal m).
Proof.
  apply (buffer_check_alloc_agrees buffer_init 5000).
  - apply buffer_init_wf.
  - unfold BUFFER_MAX_CHUNK. lia.
Defined.

(** ** Wire encodings *)

Module Items.

(** The typed items the [buffer_put_*] functions write. *)
Inductive item :=
| Short (v : Z)
| Int (v : Z)
| Int64 (v : Z)
| Char (v : Z)
| String (s : list Z)
| CString (s : list Z).

Inductive kind := KShort | KInt | KInt64 | KChar | KString | KCString.

Definition kind_of (i : item) : kind :=
  match i with
  | Short _ => KShort | Int _ => KInt | Int64 _ => KInt64
  | Char _ => KChar | String _ => KString | CString _ => KCString
  end.

Definition put (b : Buffer) (i : item) : outcome Buffer :=
  match i with
  | Short v => buffer_put_short b v
  | Int v => buffer_put_int b v
  | Int64 v => buffer_put_int64 b v
  | Char v => buffer_put_char b v
  | String s => buffer_put_string b s
  | CString s => buffer_put_cstring b (Some s)
  end.

Definition get (b : Buffer) (k : kind) : outcome (item * Buffer) :=
  match k with
  | KShort => '(v, b) ← buffer_get_short b; Ok (Short v, b)
  | KInt => '(v, b) ← buffer_get_int b; Ok (Int v, b)
  | KInt64 => '(v, b) ← buffer_get_int64 b; Ok (Int64 v, b)
  | KChar => '(v, b) ← buffer_get_char b; Ok (Char v, b)
  | KString => '(v, b) ← buffer_get_string b; Ok (String v, b)
  | KCString => '(v, b) ← buffer_get_cstring b; Ok (CString v, b)
  end.

Fixpoint puts (b : Buffer) (its : list item) : outcome Buffer :=
  match its with
  | [] => Ok b
  | i :: its => b ← put b i; puts b its
  end.

Fixpoint gets (b : Buffer) (ks : list kind) : outcome (list item * Buffer) :=
  match ks with
  | [] => Ok ([], b)
  | k :: ks => '(i, b) ← get b k; '(its, b) ← gets b ks; Ok (i :: its, b)
  end.

(** The values each encoding can carry: C strings hold no NUL, strings are at
    most 256 kB. *)
Definition ok (i : item) : Prop :=
  match i with
  | Short v => 0 ≤ v < 2 ^ 16
  | Int v => is_u32 v
  | Int64 v => is_u64 v
  | Char v => is_u8 v
  | String s => Z.of_nat (length s) ≤ 256 * 1024
  | CString s => Z.of_nat (length s) ≤ 256 * 1024 ∧ 0 ∉ s
  end.

(** The bytes an item is encoded to. *)
Definition wire (i : item) : list Z :=
  match i with
  | Short v => put_u16 v
  | Int v => put_u32 v
  | Int64 v => put_u64 v
  | Char v => [v]
  | String s | CString s => put_u32 (Z.of_nat (length s)) ++ s
  end.

Definition size (i : item) : Z := Z.of_nat (length (wire i)).
Definition room (its : list item) : Z :=
  foldr (λ i n, 2 * size i + 2 * BUFFER_ALLOCSZ + n) 0 its.

Lemma append_small b data :
  wf b → Z.of_nat (length data) ≤ BUFFER_MAX_CHUNK →
  alloc b + 2 * Z.of_nat (length data) + BUFFER_ALLOCSZ ≤ BUFFER_MAX_LEN →
  ∃ b', buffer_append b data = Ok b' ∧ wf b' ∧ contents b' = contents b ++ data ∧
        alloc b ≤ alloc b' ≤ alloc b + 2 * Z.of_nat (length data) + BUFFER_ALLOCSZ.
Proof.
  intros Hb Hl Hr. pose proof (wf_end _ Hb).
  destruct (buffer_append_ok b data) as (b' & ? & ? & ? & ?); [done|done|unfold_consts; lia|].
  exists b'. split_and!; try done; unfold_consts; lia.
Qed.

Lemma put_string_spec b s :
  wf b → Z.of_nat (length s) ≤ 256 * 1024 →
  alloc b + 2 * (4 + Z.of_nat (length s)) + 2 * BUFFER_ALLOCSZ ≤ BUFFER_MAX_LEN →
  ∃ b', buffer_put_string b s = Ok b' ∧ wf b' ∧
        contents b' = contents b ++ put_u32 (Z.of_nat (length s)) ++ s ∧
        alloc b ≤ alloc b' ≤ alloc b + 2 * (4 + Z.of_nat (length s)) + 2 * BUFFER_ALLOCSZ.
Proof.
  intros Hb Hl Hr. unfold buffer_put_string, buffer_put_int.
  rewrite (u32_small (Z.of_nat _)) by lia.
  destruct (append_small b (put_u32 (Z.of_nat (length s)))) as (b1 & -> & Hw1 & Hc1 & Ha1);
    [done|simpl; unfold_consts; lia|simpl length; unfold_consts; lia|].
  simpl length in Ha1. cbn [mbind outcome_bind].
  destruct (append_small b1 s) as (b' & -> & Hw & Hc & Ha);
    [done|unfold_consts; lia|unfold_consts; lia|].
  exists b'. rewrite Hc, Hc1, <- app_assoc. split_and!; try done; unfold_consts; lia.
Qed.

Lemma put_spec b i :
  wf b → ok i → alloc b + 2 * size i + 2 * BUFFER_ALLOCSZ ≤ BUFFER_MAX_LEN →
  ∃ b', put b i = Ok b' ∧ wf b' ∧ contents b' = contents b ++ wire i ∧
        alloc b ≤ alloc b' ≤ alloc b + 2 * size i + 2 * BUFFER_ALLOCSZ.
Proof.
  intros Hb Hi Hroom. unfold size in *.
  assert (Z.of_nat (length (wire i)) ≤ BUFFER_MAX_CHUNK) as Hsz.
  { destruct i; simpl in *; rewrite ?length_app; simpl; unfold_consts; lia. }
  assert (match i with String _ | CString _ => True | _ => put b i = buffer_append b (wire i) end)
    as Hsmall.
  { destruct i; simpl in *; try done. unfold buffer_put_char. by rewrite u8_small. }
  destruct i as [v|v|v|v|s|s]; simpl in Hi;
    try (rewrite Hsmall;
         destruct (append_small b _ Hb Hsz) as (b' & ? & ? & ? & ?); [unfold_consts; lia|];
         exists b'; split_and!; try done; unfold_consts; lia);
    unfold put, buffer_put_cstring, wire in *; simpl length in *.
  all: destruct (put_string_spec b s) as (b' & ? & ? & ? & ?); [done|lia|lia|].
  all: exists b'; split_and!; try done; lia.
Qed.

Lemma get_ret_app b l k :
  wf b → contents b = l ++ k →
  ∃ b', buffer_get_ret b (Z.of_nat (length l)) = (Some l, b') ∧ wf b' ∧ contents b' = k.
Proof.
  intros Hb Hc. pose proof (buffer_get_ret_spec b (Z.of_nat (length l)) Hb ltac:(lia)) as Hs.
  rewrite Hc, length_app, (proj2 (Z.leb_le _ _)) in Hs by lia.
  destruct Hs as (b' & Hg & Hw & _ & Hk). rewrite Nat2Z.id in *.
  rewrite take_app_length in Hg. rewrite drop_app_length in Hk. eauto.
Qed.

Lemma get_string_ret_app b s k :
  wf b → Z.of_nat (length s) ≤ 256 * 1024 →
  contents b = put_u32 (Z.of_nat (length s)) ++ s ++ k →
  ∃ b', buffer_get_string_ret b = (Some s, b') ∧ wf b' ∧ contents b' = k.
Proof.
  intros Hb Hl Hc. unfold buffer_get_string_ret, buffer_get_int_ret.
  destruct (get_ret_app b _ _ Hb Hc) as (b1 & Hg & Hw1 & Hc1).
  change (Z.of_nat (length (put_u32 _))) with 4 in Hg. rewrite Hg.
  rewrite get_put_u32 by (unfold is_u32; lia). zdec.
  destruct (get_ret_app b1 s k Hw1 Hc1) as (b2 & -> & ?). eauto.
Qed.

Lemma memchr0_None s : 0 ∉ s → memchr0 s = None.
Proof.
  intros H. unfold memchr0. destruct (list_find _ s) as [[i x]|] eqn:E; [|done].
  apply list_find_Some in E as (Hi & -> & _). destruct H. eapply list_elem_of_lookup_2, Hi.
Qed.

Lemma get_spec b i k :
  wf b → ok i → contents b = wire i ++ k →
  ∃ b', get b (kind_of i) = Ok (i, b') ∧ wf b' ∧ contents b' = k.
Proof.
  intros Hb Hi Hc. destruct i as [v|v|v|v|s|s]; simpl kind_of; unfold get; simpl in Hi.
  1-4: destruct (get_ret_app b _ _ Hb Hc) as (b1 & Hg & Hw & Hk);
    match type of Hg with _ _ ?n = _ => let m := eval compute in n in change n with m in Hg end;
    unfold wire in Hg.
  - unfold buffer_get_short, buffer_get_short_ret. rewrite Hg, get_put_u16 by lia. simpl. eauto.
  - unfold buffer_get_int, buffer_get_int_ret. rewrite Hg, get_put_u32 by done. simpl. eauto.
  - unfold buffer_get_int64, buffer_get_int64_ret. rewrite Hg, get_put_u64 by done. simpl. eauto.
  - unfold buffer_get_char, buffer_get_char_ret. rewrite Hg. simpl. eauto.
  - unfold wire in Hc. rewrite <- app_assoc in Hc.
    destruct (get_string_ret_app b s k Hb Hi Hc) as (b1 & Hg & ?).
    unfold buffer_get_string. rewrite Hg. simpl. eauto.
  - unfold wire in Hc. rewrite <- app_assoc in Hc. destruct Hi as [Hl H0].
    destruct (get_string_ret_app b s k Hb Hl Hc) as (b1 & Hg & ?).
    unfold buffer_get_cstring, buffer_get_cstring_ret. rewrite Hg, memchr0_None by done.
    simpl. eauto.
Qed.

Lemma puts_spec b its :
  wf b → Forall ok its → alloc b + room its ≤ BUFFER_MAX_LEN →
  ∃ b', puts b its = Ok b' ∧ wf b' ∧ contents b' = contents b ++ concat (map wire its).
Proof.
  revert b. induction its as [|i its IH]; intros b Hb Hok Hr; simpl.
  { exists b. by rewrite app_nil_r. }
  inversion Hok; subst. unfold room in Hr; simpl in Hr; fold (room its) in Hr.
  assert (0 ≤ room its).
  { clear. induction its; simpl; [done|]. unfold room, size in *; simpl. unfold_consts. lia. }
  destruct (put_spec b i) as (b1 & -> & Hw & Hc & Ha); [done..|lia|]. simpl.
  destruct (IH b1) as (b' & -> & Hw' & Hc'); [done..|lia|].
  exists b'. split_and!; try done. by rewrite Hc', Hc, app_assoc.
Qed.

Lemma gets_spec b its k :
  wf b → Forall ok its → contents b = concat (map wire its) ++ k →
  ∃ b', gets b (map kind_of its) = Ok (its, b') ∧ wf b' ∧ contents b' = k.
Proof.
  revert b. induction its as [|i its IH]; intros b Hb Hok Hc; simpl in *; [eauto|].
  inversion Hok; subst. rewrite <- app_assoc in Hc.
  destruct (get_spec b i _ Hb ltac:(done) Hc) as (b1 & -> & Hw & Hc1). simpl.
  destruct (IH b1) as (b' & -> & ?); [done..|]. simpl. eauto.
Qed.

(** One item at a time. *)
Lemma got_int b v k : wf b → is_u32 v → contents b = wire (Int v) ++ k →
  ∃ b', buffer_get_int b = Ok (v, b') ∧ wf b' ∧ contents b' = k.
Proof.
  intros Hb Hv Hc. destruct (get_spec b (Int v) k Hb Hv Hc) as (b' & Hg & ?). cbn [get kind_of] in Hg.
  apply bind_Ok in Hg as ([v' b2] & Hg & [= -> ->]). eauto.
Qed.
Lemma got_int64 b v k : wf b → is_u64 v → contents b = wire (Int64 v) ++ k →
  ∃ b', buffer_get_int64 b = Ok (v, b') ∧ wf b' ∧ contents b' = k.
Proof.
  intros Hb Hv Hc. destruct (get_spec b (Int64 v) k Hb Hv Hc) as (b' & Hg & ?). cbn [get kind_of] in Hg.
  apply bind_Ok in Hg as ([v' b2] & Hg & [= -> ->]). eauto.
Qed.
Lemma got_char b v k : wf b → is_u8 v → contents b = wire (Char v) ++ k →
  ∃ b', buffer_get_char b = Ok (v, b') ∧ wf b' ∧ contents b' = k.
Proof.
  intros Hb Hv Hc. destruct (get_spec b (Char v) k Hb Hv Hc) as (b' & Hg & ?). cbn [get kind_of] in Hg.
  apply bind_Ok in Hg as ([v' b2] & Hg & [= -> ->]). eauto.
Qed.
Lemma got_string b s k : wf b → Z.of_nat (length s) ≤ 256 * 1024 → contents b = wire (String s) ++ k →
  ∃ b', buffer_get_string b = Ok (s, b') ∧ wf b' ∧ contents b' = k.
Proof.
  intros Hb Hv Hc. destruct (get_spec b (String s) k Hb Hv Hc) as (b' & Hg & ?). cbn [get kind_of] in Hg.
  apply bind_Ok in Hg as ([v' b2] & Hg & [= -> ->]). eauto.
Qed.

(** ** The same facts for a put that succeeded *)

Lemma append_inv b d b' :
  wf b → Z.of_nat (length d) ≤ BUFFER_MAX_CHUNK → buffer_append b d = Ok b' → wf b' ∧ contents b' = contents b ++ d.
Proof.
  intros Hw Hl E. pose proof (buffer_append_spec b d Hw Hl) as Hs. destruct (append_fits _ _).
  - destruct Hs as (b2 & E2 & Hw2 & Hc & _). rewrite E in E2. by injection E2 as <-.
  - destruct Hs as [m Hs]. by rewrite E in Hs.
Qed.
Lemma put_inv b i b' : wf b → ok i → put b i = Ok b' → wf b' ∧ contents b' = contents b ++ wire i.
Proof.
  intros Hw Hi E. assert (Hstr : ∀ s b', Z.of_nat (length s) ≤ 256 * 1024 → buffer_put_string b s = Ok b' →
    wf b' ∧ contents b' = contents b ++ put_u32 (Z.of_nat (length s)) ++ s).
  { intros s b2 Hl E2. unfold buffer_put_string, buffer_put_int in E2. rewrite u32_small in E2 by lia.
    apply bind_Ok in E2 as (b1 & E1 & E2). apply append_inv in E1 as [Hw1 Hc1]; [|done|simpl; unfold_consts; lia].
    apply append_inv in E2 as [Hw2 Hc2]; [|done|unfold_consts; lia]. split; [done|]. by rewrite Hc2, Hc1, app_assoc. }
  destruct i as [v|v|v|v|s|s]; cbn [put wire] in *; cbn [ok] in Hi.
  - apply append_inv in E; [done|done|simpl; unfold_consts; lia].
  - apply append_inv in E; [done|done|simpl; unfold_consts; lia].
  - apply append_inv in E; [done|done|simpl; unfold_consts; lia].
  - unfold buffer_put_char in E. rewrite u8_small in E by done. apply append_inv in E; [done|done|simpl; unfold_consts; lia].
  - apply Hstr; [exact Hi|exact E].
  - apply Hstr; [apply Hi|exact E].
Qed.
Lemma puts_inv its : ∀ b b', wf b → Forall ok its → puts b its = Ok b' →
  wf b' ∧ contents b' = contents b ++ concat (map wire its).
Proof.
  induction its as [|i its IH]; intros b b' Hw Hok E; cbn [puts] in E.
  { injection E as <-. by rewrite app_nil_r. }
  apply Forall_cons in Hok as [Hi Hok]. apply bind_Ok in E as (b1 & E1 & E). apply put_inv in E1 as [Hw1 Hc1]; [|done..].
  apply IH in E as [Hw2 Hc2]; [|done..]. split; [done|]. rewrite Hc2, Hc1. cbn [map concat]. by rewrite app_assoc.
Qed.

(** Behind prefixes of the same length, items of the same kinds with the same
    encoding are the same. *)
Lemma wire_inj_behind b pre pre' its its' :
  wf b → Forall ok its → Forall ok its' → map kind_of its = map kind_of its' → length pre = length pre' →
  contents b = pre ++ concat (map wire its) → contents b = pre' ++ concat (map wire its') → pre = pre' ∧ its = its'.
Proof.
  intros Hw Ho Ho' Hk Hl Hc Hc'. rewrite Hc in Hc'. apply app_inj_1 in Hc' as [-> Hw']; [|done]. split; [done|].
  pose proof (buffer_consume_spec b (Z.of_nat (length pre')) Hw ltac:(lia)) as Hs.
  rewrite Hc, length_app, (proj2 (Z.leb_le _ _)), Nat2Z.id, drop_app_length in Hs by lia.
  destruct Hs as (b1 & _ & W1 & _ & _ & C1).
  destruct (gets_spec b1 its [] W1 Ho) as (b2 & G1 & _); [by rewrite app_nil_r|].
  destruct (gets_spec b1 its' [] W1 Ho') as (b3 & G2 & _); [by rewrite app_nil_r, C1, Hw'|].
  rewrite Hk, G2 in G1. by injection G1.
Qed.

(** encoding and decoding are inverse.  Whatever sequence of 16, 32 and 64
    bit integers, bytes, strings and C strings is put into a fresh buffer (up to
    the allocation limit), getting items of the same kinds returns the same
    values and leaves the buffer empty. *)
Theorem put_get_roundtrip its :
  Forall ok its → 4096 + room its ≤ BUFFER_MAX_LEN →
  ∃ b b', puts buffer_init its = Ok b ∧ gets b (map kind_of its) = Ok (its, b') ∧
          wf b' ∧ contents b' = [].
Proof.
  intros Hok Hr. destruct buffer_init_wf as [Hw Hc].
  destruct (puts_spec buffer_init its Hw Hok Hr) as (b & Hp & Hwb & Hcb).
  destruct (gets_spec b its [] Hwb Hok) as (b' & ? & ? & ?).
  { rewrite Hcb, Hc. by rewrite app_nil_r. }
  exists b, b'. done.
Qed.

Lemma put_get_roundtrip_witness :
  ∃ b b', puts buffer_init [Int 300; CString [104; 105]; Int64 (2 ^ 40); Char 7; Short 513]
          = Ok b ∧
          gets b [KInt; KCString; KInt64; KChar; KShort]
          = Ok ([Int 300; CString [104; 105]; Int64 (2 ^ 40); Char 7; Short 513], b') ∧
          wf b' ∧ contents b' = [].
Proof.
  apply (put_get_roundtrip [Int 300; CString [104; 105]; Int64 (2 ^ 40); Char 7; Short 513]).
  - repeat constructor; simpl; try (unfold is_u32, is_u64, is_u8; lia).
    intros H. by repeat (apply elem_of_cons in H as [H|H]; [lia|]); apply elem_of_nil in H.
  - vm_compute. congruence.
Defined.

End Items.


(** Every way [buffer_get_string_ret] can fail, and what it does to the
    buffer: with fewer than four bytes it fails and consumes nothing; with a
    length field above 256 kB, or larger than what is buffered, it fails after
    consuming the length; otherwise it returns exactly that many bytes. *)
Theorem buffer_get_string_ret_cases b :
  wf b → bytes (contents b) →
  ∃ r b', buffer_get_string_ret b = (r, b') ∧ wf b' ∧
  let q := contents b in
  let len := get_u32 (take 4 q) in
  if Z.of_nat (length q) <? 4 then r = None ∧ b' = b
  else if (256 * 1024 <? len) || (Z.of_nat (length q) - 4 <? len)
  then r = None ∧ contents b' = drop 4 q
  else r = Some (take (Z.to_nat len) (drop 4 q)) ∧ contents b' = drop (4 + Z.to_nat len) q.
Proof.
  intros Hb Hbytes. unfold buffer_get_string_ret, buffer_get_int_ret.
  pose proof (buffer_get_ret_spec b 4 Hb ltac:(lia)) as Hs.
  rewrite Z.leb_antisym in Hs. cbv zeta.
  destruct (Z.ltb_spec (Z.of_nat (length (contents b))) 4) as [Hlt|Hge]; simpl in Hs.
  { rewrite Hs. by exists None, b. }
  destruct Hs as (b1 & -> & Hw1 & _ & Hc1). change (Z.to_nat 4) with 4%nat in *.
  set (len := get_u32 (take 4 (contents b))).
  assert (is_u32 len) as Hlen.
  { apply get_u32_range; [by apply Forall_take|rewrite length_take; lia]. }
  unfold is_u32 in Hlen. destruct (Z.ltb_spec (256 * 1024) len); simpl; [by exists None, b1|].
  pose proof (buffer_get_ret_spec b1 len Hw1 ltac:(lia)) as Hs.
  rewrite Hc1, length_drop, Z.leb_antisym in Hs.
  replace (Z.of_nat (length (contents b) - 4)) with (Z.of_nat (length (contents b)) - 4) in Hs by lia.
  destruct (Z.ltb_spec (Z.of_nat (length (contents b)) - 4) len); simpl in Hs.
  - rewrite Hs. by exists None, b1.
  - destruct Hs as (b2 & -> & Hw2 & _ & Hc2). rewrite drop_drop in Hc2. by eexists _, b2.
Qed.

Lemma buffer_get_string_ret_cases_witness :
  let b := buffer_init <| buf := memcpy (buf buffer_init) 0 [0; 0; 0; 9; 1] |> <| end_ := 5 |> in
  ∃ b', buffer_get_string_ret b = (None, b') ∧ contents b' = [1].
Proof.
  intros b. destruct (buffer_get_string_ret_cases b) as (r & b' & He & _ & Hr).
  - constructor; vm_compute; intuition congruence.
  - repeat constructor; vm_compute; congruence.
  - vm_compute in Hr. destruct Hr as [-> Hr]. eauto.
Defined.
