(* ===== verification/Crc32.v ===== *)
(** * CRC-32 ([crc32.c])

    The table-driven checksum of SSH protocol 1, and its equivalence with the
    bit-by-bit division by the polynomial 0xedb88320 (reflected). *)

From S2P Require Import Prelude ByteOrder.

Definition crc32tab : list Z := [
   0x00000000; 0x77073096; 0xee0e612c; 0x990951ba;
   0x076dc419; 0x706af48f; 0xe963a535; 0x9e6495a3;
   0x0edb8832; 0x79dcb8a4; 0xe0d5e91e; 0x97d2d988;
   0x09b64c2b; 0x7eb17cbd; 0xe7b82d07; 0x90bf1d91;
   0x1db71064; 0x6ab020f2; 0xf3b97148; 0x84be41de;
   0x1adad47d; 0x6ddde4eb; 0xf4d4b551; 0x83d385c7;
   0x136c9856; 0x646ba8c0; 0xfd62f97a; 0x8a65c9ec;
   0x14015c4f; 0x63066cd9; 0xfa0f3d63; 0x8d080df5;
   0x3b6e20c8; 0x4c69105e; 0xd56041e4; 0xa2677172;
   0x3c03e4d1; 0x4b04d447; 0xd20d85fd; 0xa50ab56b;
   0x35b5a8fa; 0x42b2986c; 0xdbbbc9d6; 0xacbcf940;
   0x32d86ce3; 0x45df5c75; 0xdcd60dcf; 0xabd13d59;
   0x26d930ac; 0x51de003a; 0xc8d75180; 0xbfd06116;
   0x21b4f4b5; 0x56b3c423; 0xcfba9599; 0xb8bda50f;
   0x2802b89e; 0x5f058808; 0xc60cd9b2; 0xb10be924;
   0x2f6f7c87; 0x58684c11; 0xc1611dab; 0xb6662d3d;
   0x76dc4190; 0x01db7106; 0x98d220bc; 0xefd5102a;
   0x71b18589; 0x06b6b51f; 0x9fbfe4a5; 0xe8b8d433;
   0x7807c9a2; 0x0f00f934; 0x9609a88e; 0xe10e9818;
   0x7f6a0dbb; 0x086d3d2d; 0x91646c97; 0xe6635c01;
   0x6b6b51f4; 0x1c6c6162; 0x856530d8; 0xf262004e;
   0x6c0695ed; 0x1b01a57b; 0x8208f4c1; 0xf50fc457;
   0x65b0d9c6; 0x12b7e950; 0x8bbeb8ea; 0xfcb9887c;
   0x62dd1ddf; 0x15da2d49; 0x8cd37cf3; 0xfbd44c65;
   0x4db26158; 0x3ab551ce; 0xa3bc0074; 0xd4bb30e2;
   0x4adfa541; 0x3dd895d7; 0xa4d1c46d; 0xd3d6f4fb;
   0x4369e96a; 0x346ed9fc; 0xad678846; 0xda60b8d0;
   0x44042d73; 0x33031de5; 0xaa0a4c5f; 0xdd0d7cc9;
   0x5005713c; 0x270241aa; 0xbe0b1010; 0xc90c2086;
   0x5768b525; 0x206f85b3; 0xb966d409; 0xce61e49f;
   0x5edef90e; 0x29d9c998; 0xb0d09822; 0xc7d7a8b4;
   0x59b33d17; 0x2eb40d81; 0xb7bd5c3b; 0xc0ba6cad;
   0xedb88320; 0x9abfb3b6; 0x03b6e20c; 0x74b1d29a;
   0xead54739; 0x9dd277af; 0x04db2615; 0x73dc1683;
   0xe3630b12; 0x94643b84; 0x0d6d6a3e; 0x7a6a5aa8;
   0xe40ecf0b; 0x9309ff9d; 0x0a00ae27; 0x7d079eb1;
   0xf00f9344; 0x8708a3d2; 0x1e01f268; 0x6906c2fe;
   0xf762575d; 0x806567cb; 0x196c3671; 0x6e6b06e7;
   0xfed41b76; 0x89d32be0; 0x10da7a5a; 0x67dd4acc;
   0xf9b9df6f; 0x8ebeeff9; 0x17b7be43; 0x60b08ed5;
   0xd6d6a3e8; 0xa1d1937e; 0x38d8c2c4; 0x4fdff252;
   0xd1bb67f1; 0xa6bc5767; 0x3fb506dd; 0x48b2364b;
   0xd80d2bda; 0xaf0a1b4c; 0x36034af6; 0x41047a60;
   0xdf60efc3; 0xa867df55; 0x316e8eef; 0x4669be79;
   0xcb61b38c; 0xbc66831a; 0x256fd2a0; 0x5268e236;
   0xcc0c7795; 0xbb0b4703; 0x220216b9; 0x5505262f;
   0xc5ba3bbe; 0xb2bd0b28; 0x2bb45a92; 0x5cb36a04;
   0xc2d7ffa7; 0xb5d0cf31; 0x2cd99e8b; 0x5bdeae1d;
   0x9b64c2b0; 0xec63f226; 0x756aa39c; 0x026d930a;
   0x9c0906a9; 0xeb0e363f; 0x72076785; 0x05005713;
   0x95bf4a82; 0xe2b87a14; 0x7bb12bae; 0x0cb61b38;
   0x92d28e9b; 0xe5d5be0d; 0x7cdcefb7; 0x0bdbdf21;
   0x86d3d2d4; 0xf1d4e242; 0x68ddb3f8; 0x1fda836e;
   0x81be16cd; 0xf6b9265b; 0x6fb077e1; 0x18b74777;
   0x88085ae6; 0xff0f6a70; 0x66063bca; 0x11010b5c;
   0x8f659eff; 0xf862ae69; 0x616bffd3; 0x166ccf45;
   0xa00ae278; 0xd70dd2ee; 0x4e048354; 0x3903b3c2;
   0xa7672661; 0xd06016f7; 0x4969474d; 0x3e6e77db;
   0xaed16a4a; 0xd9d65adc; 0x40df0b66; 0x37d83bf0;
   0xa9bcae53; 0xdebb9ec5; 0x47b2cf7f; 0x30b5ffe9;
   0xbdbdf21c; 0xcabac28a; 0x53b39330; 0x24b4a3a6;
   0xbad03605; 0xcdd70693; 0x54de5729; 0x23d967bf;
   0xb3667a2e; 0xc4614ab8; 0x5d681b02; 0x2a6f2b94;
   0xb40bbe37; 0xc30c8ea1; 0x5a05df1b; 0x2d02ef8d
].

Definition crc32_step (crc b : Z) : Z :=
  Z.lxor (nth (Z.to_nat (Z.land (Z.lxor crc b) 0xff)) crc32tab 0) (Z.shiftr crc 8).

(** [for (i = 0; i < size; i++) crc = crc32tab[...] ^ (crc >> 8);] *)
Fixpoint ssh_crc32_loop (buf : list Z) (size : nat) (crc : Z) : Z :=
  match size with
  | O => crc
  | S size => ssh_crc32_loop (tail buf) size (crc32_step crc (byte_at buf 0))
  end.
Definition ssh_crc32 (buf : list Z) (size : Z) : Z :=
  ssh_crc32_loop buf (Z.to_nat size) 0.

(** ** Reference: polynomial division, one bit at a time *)

Definition poly : Z := 0xedb88320.
Definition bit_step (x : Z) : Z :=
  Z.lxor (Z.shiftr x 1) (if Z.odd x then poly else 0).
Fixpoint bit_steps (n : nat) (x : Z) : Z :=
  match n with O => x | S n => bit_steps n (bit_step x) end.
Definition crc_bits (l : list Z) : Z := foldl (λ crc b, bit_steps 8 (Z.lxor crc b)) 0 l.

Lemma bit_step_lxor x y : bit_step (Z.lxor x y) = Z.lxor (bit_step x) (bit_step y).
Proof.
  unfold bit_step. rewrite Z.shiftr_lxor.
  assert (Z.odd (Z.lxor x y) = xorb (Z.odd x) (Z.odd y)) as ->.
  { rewrite <- !Z.bit0_odd. apply Z.lxor_spec. }
  apply Z.bits_inj'. intros i Hi.
  destruct (Z.odd x), (Z.odd y); simpl; rewrite !Z.lxor_spec, ?Z.bits_0;
    repeat match goal with |- context [Z.testbit ?a i] => destruct (Z.testbit a i) end; done.
Qed.

Lemma bit_steps_lxor n x y : bit_steps n (Z.lxor x y) = Z.lxor (bit_steps n x) (bit_steps n y).
Proof. revert x y. induction n; intros; simpl; [done|]. by rewrite bit_step_lxor. Qed.

Lemma bit_steps_shiftl n y : bit_steps n (Z.shiftl y (Z.of_nat n)) = y.
Proof.
  revert y. induction n as [|n IH]; intros y; simpl bit_steps.
  { apply Z.shiftl_0_r. }
  rewrite <- (IH y) at 2. f_equal. unfold bit_step.
  assert (Z.odd (Z.shiftl y (Z.of_nat (S n))) = false) as ->.
  { rewrite <- Z.bit0_odd, Z.shiftl_spec by lia. apply Z.testbit_neg_r. lia. }
  rewrite Z.lxor_0_r, Z.shiftr_shiftl_l by lia. f_equal. lia.
Qed.

Lemma split_low8 x : x = Z.lxor (Z.land x 0xff) (Z.shiftl (Z.shiftr x 8) 8).
Proof.
  apply Z.bits_inj'. intros i Hi. change 0xff with (Z.ones 8).
  rewrite Z.lxor_spec, Z.land_spec, Z.shiftl_spec by lia.
  destruct (decide (i < 8)).
  - rewrite Z.ones_spec_low by lia. rewrite (Z.testbit_neg_r _ (i - 8)) by lia.
    by rewrite andb_true_r, xorb_false_r.
  - rewrite Z.ones_spec_high by lia. rewrite Z.shiftr_spec by lia.
    rewrite andb_false_r, xorb_false_l. f_equal. lia.
Qed.

Lemma crc32tab_bits : crc32tab = map (bit_steps 8) (map Z.of_nat (seq 0 256)).
Proof. vm_compute. reflexivity. Qed.

Lemma crc32tab_nth i : 0 ≤ i < 256 → nth (Z.to_nat i) crc32tab 0 = bit_steps 8 i.
Proof.
  intros. rewrite crc32tab_bits, map_map.
  rewrite nth_lookup, list_lookup_fmap, lookup_seq_lt by lia. simpl.
  by rewrite Z2Nat.id by lia.
Qed.

Lemma crc32_step_bits crc b :
  0 ≤ b < 256 → crc32_step crc b = bit_steps 8 (Z.lxor crc b).
Proof.
  intros Hb. unfold crc32_step.
  set (x := Z.lxor crc b).
  assert (0 ≤ Z.land x 0xff < 256) as Hx.
  { change 0xff with (Z.ones 8). rewrite Z.land_ones by lia.
    apply Z.mod_pos_bound. lia. }
  rewrite (crc32tab_nth _ Hx).
  rewrite (split_low8 x) at 2. rewrite bit_steps_lxor.
  change 8 with (Z.of_nat 8) at 3. rewrite bit_steps_shiftl. f_equal.
  subst x. rewrite Z.shiftr_lxor.
  replace (Z.shiftr b 8) with 0; [by rewrite Z.lxor_0_r|].
  rewrite Z.shiftr_div_pow2 by lia. symmetry. apply Z.div_small. lia.
Qed.

Lemma ssh_crc32_loop_bits l k crc :
  bytes l →
  ssh_crc32_loop (l ++ k) (length l) crc =
  foldl (λ crc b, bit_steps 8 (Z.lxor crc b)) crc l.
Proof.
  intros Hl. revert crc. induction Hl as [|b l Hb Hl IH]; intros crc; [done|].
  simpl. rewrite crc32_step_bits by done. apply IH.
Qed.

Lemma ssh_crc32_bits l k : bytes l → ssh_crc32 (l ++ k) (Z.of_nat (length l)) = crc_bits l.
Proof. intros. unfold ssh_crc32. rewrite Nat2Z.id. by apply ssh_crc32_loop_bits. Qed.

Lemma lxor_u32 x y : is_u32 x → is_u32 y → is_u32 (Z.lxor x y).
Proof. apply lxor_lt_pow2. Qed.

Lemma bit_steps_range n x : is_u32 x → is_u32 (bit_steps n x).
Proof.
  revert x. induction n as [|n IH]; intros x Hx; simpl; [done|]. apply IH.
  unfold bit_step. apply lxor_u32; [|destruct (Z.odd x); unfold is_u32, poly; lia].
  unfold is_u32 in *. rewrite Z.shiftr_div_pow2 by lia. Z.div_mod_to_equations. lia.
Qed.

Lemma is_u8_u32 b : is_u8 b → is_u32 b.
Proof. unfold is_u8, is_u32. lia. Qed.

Lemma crc_fold_range l crc :
  bytes l → is_u32 crc →
  is_u32 (foldl (λ crc b, bit_steps 8 (Z.lxor crc b)) crc l).
Proof.
  intros Hl. revert crc. induction Hl as [|b l Hb Hl IH]; intros crc Hc; [done|]. simpl.
  apply IH. apply (bit_steps_range 8). apply lxor_u32; [done|by apply is_u8_u32].
Qed.

Lemma crc_bits_range l : bytes l → is_u32 (crc_bits l).
Proof. intros. apply crc_fold_range; [done|]. unfold is_u32. lia. Qed.

Lemma crc_fold_lxor l1 l2 c1 c2 :
  length l1 = length l2 →
  foldl (λ crc b, bit_steps 8 (Z.lxor crc b)) (Z.lxor c1 c2) (zip_with Z.lxor l1 l2) =
  Z.lxor (foldl (λ crc b, bit_steps 8 (Z.lxor crc b)) c1 l1)
         (foldl (λ crc b, bit_steps 8 (Z.lxor crc b)) c2 l2).
Proof.
  revert l2 c1 c2. induction l1 as [|a l1 IH]; intros [|b l2] c1 c2 Hlen; try done.
  cbn [zip_with foldl]. rewrite <- IH by (simpl in Hlen; lia). f_equal.
  rewrite <- bit_steps_lxor. f_equal.
  rewrite !Z.lxor_assoc. f_equal. rewrite <- !Z.lxor_assoc. f_equal. apply Z.lxor_comm.
Qed.

(** The table-driven [ssh_crc32] computes the CRC-32 polynomial division
    bit by bit, for every byte string, and its value is a 32-bit word. *)
Theorem ssh_crc32_is_division l k :
  bytes l →
  ssh_crc32 (l ++ k) (Z.of_nat (length l)) = crc_bits l ∧ is_u32 (crc_bits l).
Proof. intros Hl. split; [by apply ssh_crc32_bits|by apply crc_bits_range]. Qed.

Lemma ssh_crc32_is_division_witness :
  ssh_crc32 ([104; 105; 33] ++ [99]) 3 = crc_bits [104; 105; 33] ∧ is_u32 (crc_bits [104; 105; 33]).
Proof. apply (ssh_crc32_is_division [104; 105; 33] [99]). solve_bytes. Defined.

(** [ssh_crc32] is linear: the checksum of the exclusive or of two packets
    of the same length is the exclusive or of their checksums, which is what the
    CRC compensation attack (see [deattack.c]) exploits. *)
Theorem ssh_crc32_linear l1 l2 :
  bytes l1 → bytes l2 → length l1 = length l2 →
  ssh_crc32 (zip_with Z.lxor l1 l2) (Z.of_nat (length l1)) =
  Z.lxor (ssh_crc32 l1 (Z.of_nat (length l1))) (ssh_crc32 l2 (Z.of_nat (length l2))).
Proof.
  intros H1 H2 Hlen.
  assert (bytes (zip_with Z.lxor l1 l2)) as Hx.
  { clear Hlen. revert l2 H2. induction H1 as [|a l1 Ha H1 IH]; intros [|b l2] H2; try constructor;
      inversion H2; subst; [|by apply IH].
    by apply (lxor_lt_pow2 8). }
  pose proof (ssh_crc32_bits _ [] Hx) as E. rewrite app_nil_r, length_zip_with_l_eq in E by lia.
  pose proof (ssh_crc32_bits _ [] H1) as E1. pose proof (ssh_crc32_bits _ [] H2) as E2.
  rewrite app_nil_r in E1, E2. rewrite E, E1, E2.
  unfold crc_bits. rewrite <- crc_fold_lxor by done. done.
Qed.

Lemma ssh_crc32_linear_witness :
  ssh_crc32 [5; 3] 2 = Z.lxor (ssh_crc32 [4; 1] 2) (ssh_crc32 [1; 2] 2).
Proof. apply (ssh_crc32_linear [4; 1] [1; 2]); [solve_bytes..|done]. Defined.
