(* ===== verification/Deattack.v ===== *)
(** * The CRC compensation attack detector ([deattack.c])

    [detect_attack] looks for repeated cipher blocks in an SSH-1 packet with an
    open-addressing hash table that it keeps between calls.  The theorem below
    shows that the table never changes the answer: it is the answer of the
    quadratic search that compares every block with all earlier ones.  The
    host is little-endian (the bytes of a [u_int32_t] are fed to the CRC). *)

From S2P Require Import Prelude ByteOrder Crc32.

Definition MAX_IDENTICAL : Z := 32.
Definition SSH_MAXBLOCKS : Z := 32 * 1024.
Definition SSH_BLOCKSIZE : Z := 8.
Definition HASH_MINSIZE : Z := 8 * 1024.
Definition HASH_ENTRYSIZE : Z := 2.
Definition HASH_FACTOR (x : Z) : Z := u32 (x * 3) / 2.
Definition HASH_UNUSED : Z := 0xffff.
Definition HASH_MINBLOCKS : Z := 7 * SSH_BLOCKSIZE.
Definition DEATTACK_OK : Z := 0.
Definition DEATTACK_DETECTED : Z := 1.
Definition DEATTACK_DOS_DETECTED : Z := 2.

(** The static variables [h] and [n] ([None]: NULL). *)
Record deattack := mkDeattack { da_h : option (list Z); da_n : Z }.
Definition deattack_init : deattack := mkDeattack None (HASH_MINSIZE / HASH_ENTRYSIZE).

(** The bytes of a [u_int32_t] in memory. *)
Definition le32 (b : Z) : list Z := rev (put_u32 b).

Definition crc_update (a b : Z) : Z := ssh_crc32 (le32 (Z.lxor b a)) 4.

(** The 8 bytes of block [k] of [buf]. *)
Definition block (buf : list Z) (k : nat) : list Z := take 8 (drop (8 * k) buf).

Definition CMP (a b : list Z) : bool := negb (bool_decide (a = b)).

(** The loop of [check_crc] over the [n] blocks from [k] on. *)
Fixpoint check_crc_loop (s buf : list Z) (n k : nat) (crc : Z) : Z :=
  match n with
  | O => crc
  | S n =>
      let crc := if negb (CMP s (block buf k))
                 then crc_update (crc_update crc 1) 0
                 else crc_update (crc_update crc 0) 0 in
      check_crc_loop s buf n (S k) crc
  end.
Definition check_crc (s buf : list Z) (nblocks : nat) : bool :=
  check_crc_loop s buf nblocks 0 0 =? 0.

(** [for (l = n; l < goal; l = l << 2)] *)
Fixpoint grow (fuel : nat) (l goal : Z) : outcome Z :=
  match fuel with
  | O => NoFuel
  | S fuel => if l <? goal then grow fuel (u32 (Z.shiftl l 2)) goal else Ok l
  end.

(** The search for short packets: [d] runs over the blocks before [c]; [None]
    is the [break] or the end of the loop. *)
Fixpoint short_inner (c buf : list Z) (nb : nat) (n d : nat) : option Z :=
  match n with
  | O => None
  | S n =>
      if negb (CMP c (block buf d))
      then if check_crc c buf nb then Some DEATTACK_DETECTED else None
      else short_inner c buf nb n (S d)
  end.
Fixpoint short_outer (buf : list Z) (nb : nat) (n c : nat) : Z :=
  match n with
  | O => DEATTACK_OK
  | S n =>
      match short_inner (block buf c) buf nb c 0 with
      | Some r => r
      | None => short_outer buf nb n (S c)
      end
  end.

(** The probe loop: the slot at which it stops, and whether an equal block was
    found there. *)
Fixpoint probe (fuel : nat) (buf h : list Z) (n : Z) (c : list Z) (i : Z) : outcome (Z * bool) :=
  match fuel with
  | O => NoFuel
  | S fuel =>
      hi ← zget h i;
      if hi =? HASH_UNUSED then Ok (i, false)
      else if negb (CMP c (block buf (Z.to_nat hi))) then Ok (i, true)
      else probe fuel buf h n c (Z.land (i + 1) (n - 1))
  end.

Fixpoint hash_scan (m : nat) (buf : list Z) (nb : nat) (n : Z) (j : nat) (same : Z) (h : list Z)
    : outcome (Z * list Z) :=
  match m with
  | O => Ok (DEATTACK_OK, h)
  | S m =>
      let c := block buf j in
      '(i, found) ← probe (S (Z.to_nat n)) buf h n c (Z.land (get_u32 c) (n - 1));
      if found : bool then
        if MAX_IDENTICAL <? same + 1 then Ok (DEATTACK_DOS_DETECTED, h)
        else if check_crc c buf nb then Ok (DEATTACK_DETECTED, h)
        else h ← zset h i (Z.of_nat j); hash_scan m buf nb n (S j) (same + 1) h
      else h ← zset h i (Z.of_nat j); hash_scan m buf nb n (S j) same h
  end.

Definition detect_attack (buf : list Z) (len : Z) (d : deattack) : outcome (Z * deattack) :=
  if (SSH_MAXBLOCKS * SSH_BLOCKSIZE <? len) || negb (len mod SSH_BLOCKSIZE =? 0)
  then Fatal "detect_attack: bad length"
  else if Z.of_nat (length buf) <? len then Fault
  else
    let nb := Z.to_nat (len / SSH_BLOCKSIZE) in
    l ← grow 17 (da_n d) (HASH_FACTOR (len / SSH_BLOCKSIZE));
    let d := match da_h d with
             | None => mkDeattack (Some (replicate (Z.to_nat l) 0)) l
             | Some h => if da_n d <? l
                         then mkDeattack (Some (take (Z.to_nat l) h ++ replicate (Z.to_nat l - length h) 0)) l
                         else d
             end in
    if len <=? HASH_MINBLOCKS then Ok (short_outer buf nb nb 0, d)
    else
      '(r, h) ← hash_scan nb buf nb (da_n d) 0 0 (replicate (Z.to_nat (da_n d)) HASH_UNUSED);
      Ok (r, mkDeattack (Some h) (da_n d)).

(** ** The quadratic reference *)

Definition seen (buf : list Z) (j : nat) : bool :=
  existsb (λ k, bool_decide (block buf j = block buf k)) (seq 0 j).

(** Blocks from [j] on: a block seen before counts against the limit (unless
    [limit] is off) and is then tested for the attack pattern. *)
Fixpoint naive (limit : bool) (buf : list Z) (nb : nat) (m j : nat) (same : Z) : Z :=
  match m with
  | O => DEATTACK_OK
  | S m =>
      if seen buf j then
        if limit && (MAX_IDENTICAL <? same + 1) then DEATTACK_DOS_DETECTED
        else if check_crc (block buf j) buf nb then DEATTACK_DETECTED
        else naive limit buf nb m (S j) (same + 1)
      else naive limit buf nb m (S j) same
  end.

Lemma seen_spec buf j : seen buf j = true ↔ ∃ k, (k < j)%nat ∧ block buf k = block buf j.
Proof.
  unfold seen. rewrite existsb_exists. split.
  - intros (k & Hin & Hk). apply in_seq in Hin. apply bool_decide_eq_true in Hk. exists k. split; [lia|done].
  - intros (k & Hk & E). exists k. split; [apply in_seq; lia|]. by apply bool_decide_eq_true.
Qed.

Lemma CMP_false a b : CMP a b = false ↔ a = b.
Proof. unfold CMP. rewrite negb_false_iff. apply bool_decide_eq_true. Qed.

(** The table while the first [j] blocks have been entered. *)
Section Table.
Context (buf : list Z) (n e : Z) (He : 0 ≤ e ≤ 31) (Hn : n = 2 ^ e).

Definition slot (c : list Z) (t : Z) : Z := (get_u32 c + t) mod n.
Definition used (h : list Z) (i : Z) (k : nat) : Prop :=
  0 ≤ i ∧ h !! Z.to_nat i = Some (Z.of_nat k) ∧ Z.of_nat k ≠ HASH_UNUSED.

Record tab_inv (j : nat) (h : list Z) : Prop := {
  ti_len : Z.of_nat (length h) = n;
  ti_range : ∀ i x, h !! i = Some x → x = HASH_UNUSED ∨ 0 ≤ x < Z.of_nat j;
  ti_uniq : ∀ i i' k k', used h i k → used h i' k' → block buf k = block buf k' → i = i';
  ti_path : ∀ i k, used h i k → ∃ t, 0 ≤ t < n ∧ i = slot (block buf k) t ∧
      ∀ t', 0 ≤ t' < t → ∃ k', used h (slot (block buf k) t') k';
  ti_all : ∀ k, (k < j)%nat → ∃ i k', used h i k' ∧ block buf k' = block buf k
}.

Lemma n_pos : 0 < n.
Proof. subst n. apply Z.pow_pos_nonneg; lia. Qed.

Lemma slot_range c t : 0 ≤ slot c t < n.
Proof. apply Z.mod_pos_bound, n_pos. Qed.

Lemma land_mod x : Z.land x (n - 1) = x mod n.
Proof.
  subst n. replace (2 ^ e - 1) with (Z.ones e) by (rewrite Z.ones_equiv; lia).
  apply Z.land_ones. lia.
Qed.

Lemma slot_next c t : Z.land (slot c t + 1) (n - 1) = slot c (t + 1).
Proof. rewrite land_mod. unfold slot. rewrite Zplus_mod_idemp_l. f_equal. lia. Qed.

Lemma slot_inj c t t' : 0 ≤ t < n → 0 ≤ t' < n → slot c t = slot c t' → t = t'.
Proof.
  unfold slot. intros Ht Ht' E. pose proof n_pos.
  assert ((t - t') mod n = 0) as Hm.
  { replace (t - t') with (get_u32 c + t - (get_u32 c + t')) by lia.
    rewrite Zminus_mod, E, Z.sub_diag. done. }
  apply Z.mod_divide in Hm; [|lia]. destruct Hm as [q Hq].
  assert (q = 0) by nia. lia.
Qed.

(** As long as fewer blocks than slots were entered, a slot is free. *)
Lemma free_slot j h : tab_inv j h → Z.of_nat j < n → ∃ i, h !! i = Some HASH_UNUSED.
Proof.
  intros Hi Hj. destruct (decide (HASH_UNUSED ∈ h)) as [Hin|Hnin].
  { by apply list_elem_of_lookup_1 in Hin. }
  exfalso. pose proof (ti_len j h Hi) as Hlen.
  assert (Hused : ∀ i x, h !! i = Some x → used h (Z.of_nat i) (Z.to_nat x) ∧ 0 ≤ x < Z.of_nat j).
  { intros i x Hx. destruct (ti_range j h Hi i x Hx) as [->|Hr].
    - exfalso. apply Hnin. by eapply list_elem_of_lookup_2.
    - split; [|done]. unfold used. rewrite Nat2Z.id, Z2Nat.id by lia. split_and!; [lia|done|].
      intros ->. apply Hnin. by eapply list_elem_of_lookup_2. }
  assert (Hnd : NoDup h).
  { apply NoDup_alt. intros i i' x Hx Hx'.
    destruct (Hused i x Hx) as [Hu _], (Hused i' x Hx') as [Hu' _].
    pose proof (ti_uniq j h Hi _ _ _ _ Hu Hu' eq_refl). lia. }
  assert (Hsub : h ⊆ (Z.of_nat <$> seq 0 j)).
  { intros x Hx. apply list_elem_of_lookup_1 in Hx as [i Hx]. destruct (Hused i x Hx) as [_ Hr].
    apply list_elem_of_fmap. exists (Z.to_nat x). split; [lia|]. apply elem_of_seq. lia. }
  pose proof (NoDup_incl_length (l := h) (l' := Z.of_nat <$> seq 0 j)) as Hincl.
  rewrite length_fmap, length_seq in Hincl.
  assert (length h ≤ j)%nat; [|lia]. apply Hincl; [by apply NoDup_ListNoDup|].
  intros x Hx. apply list_elem_of_In, Hsub, list_elem_of_In, Hx.
Qed.

(** The outcome of a probe for block [c]: the first slot of its path that is
    free or holds an equal block. *)
Definition stops (h c : list Z) (t : Z) (found : bool) : Prop :=
  0 ≤ t < n ∧
  (∀ t', 0 ≤ t' < t → ∃ k, used h (slot c t') k ∧ block buf k ≠ c) ∧
  if found then ∃ k, used h (slot c t) k ∧ block buf k = c
  else h !! Z.to_nat (slot c t) = Some HASH_UNUSED.

Lemma probe_from j h c u fuel : ∀ t,
  tab_inv j h → 0 ≤ t ≤ u → u < n → h !! Z.to_nat (slot c u) = Some HASH_UNUSED →
  (∀ t', 0 ≤ t' < t → ∃ k, used h (slot c t') k ∧ block buf k ≠ c) →
  (Z.to_nat (u - t) < fuel)%nat →
  ∃ t1 found, probe fuel buf h n c (slot c t) = Ok (slot c t1, found) ∧ stops h c t1 found.
Proof.
  induction fuel as [|fuel IH]; intros t Hi Ht Hu Hfree Hbefore Hf; [lia|]. cbn [probe].
  pose proof (slot_range c t) as Hs. pose proof (ti_len j h Hi) as Hlen.
  destruct (lookup_lt_is_Some_2 h (Z.to_nat (slot c t))) as [x Hx]; [lia|].
  rewrite (zget_lookup _ _ _ (proj1 Hs) Hx). cbn [mbind outcome_bind].
  destruct (Z.eqb_spec x HASH_UNUSED) as [->|Hne].
  { exists t, false. split; [done|]. split_and!; [lia|lia|done|done]. }
  destruct (ti_range j h Hi _ _ Hx) as [?|Hr]; [done|].
  assert (Hused : used h (slot c t) (Z.to_nat x)).
  { unfold used. rewrite Z2Nat.id by lia. split_and!; [lia|done|done]. }
  destruct (CMP c (block buf (Z.to_nat x))) eqn:Hc; simpl.
  - assert (Hdiff : block buf (Z.to_nat x) ≠ c).
    { intros E. rewrite E in Hc. unfold CMP in Hc. rewrite bool_decide_eq_true_2 in Hc by done. done. }
    destruct (decide (t = u)) as [->|Htu].
    { rewrite Hfree in Hx. congruence. }
    rewrite slot_next. apply IH; [done|lia|done|done| |lia].
    intros t' Ht'. destruct (decide (t' = t)) as [->|]; [eauto|]. apply Hbefore. lia.
  - exists t, true. split; [done|]. apply CMP_false in Hc. split_and!; [lia|lia|done|eauto].
Qed.

Lemma probe_spec j h c :
  tab_inv j h → Z.of_nat j < n →
  ∃ t found, probe (S (Z.to_nat n)) buf h n c (Z.land (get_u32 c) (n - 1)) = Ok (slot c t, found) ∧
    stops h c t found.
Proof.
  intros Hi Hj. destruct (free_slot j h Hi Hj) as [i Hfree]. pose proof n_pos.
  pose proof (lookup_lt_Some _ _ _ Hfree) as Hlt. pose proof (ti_len j h Hi) as Hlen.
  set (u := (Z.of_nat i - get_u32 c) mod n).
  assert (Hu : 0 ≤ u < n) by (apply Z.mod_pos_bound; lia).
  assert (Hslot : slot c u = Z.of_nat i).
  { unfold slot, u. rewrite Zplus_mod_idemp_r.
    replace (get_u32 c + (Z.of_nat i - get_u32 c)) with (Z.of_nat i) by lia. apply Z.mod_small. lia. }
  destruct (probe_from j h c u (S (Z.to_nat n)) 0) as (t & f & Hp & Hst);
    [done|lia|lia|by rewrite Hslot, Nat2Z.id|lia|lia|].
  exists t, f. split; [|done]. rewrite <- Hp. f_equal. rewrite land_mod. unfold slot. f_equal. lia.
Qed.

(** A probe finds a block exactly when it occurred before. *)
Lemma stops_seen j h t found :
  tab_inv j h → stops h (block buf j) t found → found = seen buf j.
Proof.
  intros Hi (Ht & Hbefore & Hf). destruct found.
  - destruct Hf as (k & (Hs & Hk & Hku) & E). symmetry. apply seen_spec. exists k.
    destruct (ti_range j h Hi _ _ Hk) as [?|?]; [done|]. split; [lia|done].
  - symmetry. apply not_true_is_false. intros Hs. apply seen_spec in Hs as (k & Hk & E).
    destruct (ti_all j h Hi k Hk) as (i & k' & Hused & E'). rewrite E in E'.
    destruct (ti_path j h Hi i k' Hused) as (t1 & Ht1 & -> & Hpath). rewrite E' in *.
    destruct (Z.lt_trichotomy t1 t) as [Hlt|[->|Hgt]].
    + destruct (Hbefore t1) as (k2 & (_ & Hk2 & _) & Hne); [lia|].
      destruct Hused as (_ & Hk' & _). rewrite Hk' in Hk2. injection Hk2 as Hk2.
      apply Nat2Z.inj in Hk2. subst k2. congruence.
    + destruct Hused as (_ & Hk' & Hk'u). rewrite Hf in Hk'. congruence.
    + destruct (Hpath t) as (k2 & _ & Hk2 & Hk2u); [lia|]. rewrite Hf in Hk2. congruence.
Qed.

(** Entering block [j] keeps the invariant. *)
Lemma enter_inv j h t found :
  tab_inv j h → Z.of_nat j < HASH_UNUSED → stops h (block buf j) t found →
  tab_inv (S j) (<[Z.to_nat (slot (block buf j) t) := Z.of_nat j]> h).
Proof.
  intros Hi Hj (Ht & Hbefore & Hf). set (c := block buf j) in *. set (i0 := slot c t).
  pose proof (slot_range c t) as Hs. fold i0 in Hs. pose proof (ti_len j h Hi) as Hlen.
  assert (Hnew : ∀ i k, used (<[Z.to_nat i0 := Z.of_nat j]> h) i k ↔
      (i = i0 ∧ k = j) ∨ (i ≠ i0 ∧ used h i k)).
  { intros i k. unfold used. destruct (decide (i = i0)) as [->|Hne].
    - rewrite list_lookup_insert_eq by lia. split; [|naive_solver lia].
      intros (_ & [= E] & _). apply Nat2Z.inj in E. by left.
    - destruct (decide (0 ≤ i)); [|naive_solver lia].
      rewrite list_lookup_insert_ne by lia. naive_solver. }
  assert (Hkeep : ∀ t' k, used h (slot c t') k → ∃ k', used (<[Z.to_nat i0 := Z.of_nat j]> h) (slot c t') k').
  { intros t' k Hu. destruct (decide (slot c t' = i0)); [exists j | exists k]; apply Hnew; auto. }
  assert (Hother : ∀ i k, i ≠ i0 → used h i k → block buf k ≠ c).
  { intros i k Hne Hu E. destruct found.
    - destruct Hf as (k' & Hu' & E'). apply Hne. apply (ti_uniq j h Hi i i0 k k' Hu Hu'). congruence.
    - destruct (ti_path j h Hi i k Hu) as (t1 & Ht1 & -> & Hp). rewrite E in *.
      destruct (Z.lt_trichotomy t1 t) as [Hlt|[->|Hgt]].
      + destruct (Hbefore t1) as (k2 & (_ & Hk2 & _) & Hd); [lia|]. destruct Hu as (_ & Hk & _).
        rewrite Hk in Hk2. injection Hk2 as Hk2. apply Nat2Z.inj in Hk2. subst k2. done.
      + done.
      + destruct (Hp t) as (k2 & _ & Hk2 & Hk2u); [lia|]. rewrite Hf in Hk2. congruence. }
  split.
  - by rewrite length_insert.
  - intros i x Hx. apply list_lookup_insert_Some in Hx as [(_ & <- & _)|(_ & Hx)]; [right; lia|].
    destruct (ti_range j h Hi i x Hx); [by left|right; lia].
  - intros i i' k k' Hu Hu' E. apply Hnew in Hu as [[-> ->]|[Hne Hu]], Hu' as [[-> ->]|[Hne' Hu']]; try done.
    + exfalso. by apply (Hother i' k' Hne' Hu').
    + exfalso. by apply (Hother i k Hne Hu).
    + by apply (ti_uniq j h Hi i i' k k').
  - intros i k Hu. apply Hnew in Hu as [[-> ->]|[Hne Hu]].
    + exists t. split_and!; [lia|lia|done|]. intros t' Ht'.
      destruct (Hbefore t' Ht') as (k' & Hk' & _). by apply (Hkeep t' k').
    + destruct (ti_path j h Hi i k Hu) as (t1 & Ht1 & -> & Hp). exists t1. split_and!; [lia|lia|done|].
      intros t' Ht'. destruct (Hp t' Ht') as (k' & Hk').
      destruct (decide (slot (block buf k) t' = i0)); [exists j | exists k']; apply Hnew; auto.
  - intros k Hk. destruct (decide (block buf k = c)) as [E|Hne].
    + exists i0, j. split; [apply Hnew; auto|done].
    + assert (k < j)%nat by (destruct (decide (k = j)); [by subst|lia]).
      destruct (ti_all j h Hi k) as (i & k' & Hu & E); [done|]. exists i, k'. split; [|done].
      apply Hnew. destruct (decide (i = i0)) as [->|]; [|auto]. exfalso.
      destruct found.
      * destruct Hf as (k2 & (_ & Hk2 & _) & E2). destruct Hu as (_ & Hk' & _).
        fold i0 in Hk2. rewrite Hk' in Hk2. injection Hk2 as Hk2. apply Nat2Z.inj in Hk2. congruence.
      * destruct Hu as (_ & Hk' & Hu). fold i0 in Hf. rewrite Hf in Hk'. congruence.
Qed.

End Table.

Lemma tab_inv_empty buf n e : n = 2 ^ e → 0 ≤ e → tab_inv buf n 0 (replicate (Z.to_nat n) HASH_UNUSED).
Proof.
  intros Hn He. assert (0 < n) by (subst n; apply Z.pow_pos_nonneg; lia).
  assert (Hno : ∀ i k, ¬ used (replicate (Z.to_nat n) HASH_UNUSED) i k).
  { intros i k (_ & Hk & Hu). apply lookup_replicate in Hk as [Hk _]. done. }
  split.
  - rewrite length_replicate. lia.
  - intros i x Hx. apply lookup_replicate in Hx as [-> _]. by left.
  - intros i i' k k' Hu. by apply Hno in Hu.
  - intros i k Hu. by apply Hno in Hu.
  - lia.
Qed.

Lemma hash_scan_spec buf nb n e m : ∀ j same h,
  0 ≤ e ≤ 31 → n = 2 ^ e → tab_inv buf n j h →
  Z.of_nat (j + m) ≤ n → Z.of_nat (j + m) ≤ HASH_UNUSED →
  ∃ h', hash_scan m buf nb n j same h = Ok (naive true buf nb m j same, h') ∧ Z.of_nat (length h') = n.
Proof.
  induction m as [|m IH]; intros j same h He Hn Hi Hjn Hju.
  { exists h. split; [done|]. by apply (ti_len _ _ _ _ Hi). }
  cbn [hash_scan naive].
  destruct (probe_spec buf n e He Hn j h (block buf j) Hi) as (t & found & Hp & Hst); [lia|].
  rewrite Hp. cbn [mbind outcome_bind].
  pose proof (stops_seen buf n e j h t found Hi Hst) as Hseen. rewrite <- Hseen.
  pose proof (enter_inv buf n e He Hn j h t found Hi ltac:(lia) Hst) as Hi'.
  pose proof (slot_range n e He Hn (block buf j) t) as Hs. pose proof (ti_len _ _ _ _ Hi) as Hlen.
  assert (Hset : zset h (slot n (block buf j) t) (Z.of_nat j) =
                 Ok (<[Z.to_nat (slot n (block buf j) t) := Z.of_nat j]> h)).
  { unfold zset. rewrite (proj2 (Z.ltb_ge _ _)), (proj2 (Z.leb_gt _ _)) by lia. done. }
  destruct found.
  - cbn [andb]. destruct (MAX_IDENTICAL <? same + 1); [by exists h|].
    destruct (check_crc _ _ _); [by exists h|]. rewrite Hset. cbn [mbind outcome_bind].
    apply IH; done || lia.
  - rewrite Hset. cbn [mbind outcome_bind]. apply IH; done || lia.
Qed.

Lemma short_inner_spec c buf nb n : ∀ d,
  short_inner c buf nb n d =
  if existsb (λ k, bool_decide (c = block buf k)) (seq d n)
  then (if check_crc c buf nb then Some DEATTACK_DETECTED else None) else None.
Proof.
  induction n as [|n IH]; intros d; [done|]. simpl. unfold CMP.
  destruct (bool_decide (c = block buf d)); simpl; [done|apply IH].
Qed.

Lemma short_outer_spec buf nb m : ∀ j same, short_outer buf nb m j = naive false buf nb m j same.
Proof.
  induction m as [|m IH]; intros j same; [done|]. cbn [short_outer naive]. rewrite short_inner_spec.
  fold (seen buf j). destruct (seen buf j); [|apply IH]. simpl.
  destruct (check_crc _ _ _); [done|apply IH].
Qed.

(** The sizes the table can have. *)
Definition da_wf (d : deattack) : Prop :=
  (da_n d = 4096 ∨ da_n d = 16384 ∨ da_n d = 65536) ∧
  match da_h d with Some h => Z.of_nat (length h) = da_n d | None => True end.

Lemma grow_spec n goal :
  n = 4096 ∨ n = 16384 ∨ n = 65536 → goal ≤ 65536 →
  ∃ l, grow 17 n goal = Ok l ∧ (l = 4096 ∨ l = 16384 ∨ l = 65536) ∧ goal ≤ l ∧ n ≤ l.
Proof.
  intros Hn Hg.
  assert (Hstep : ∀ fuel x, (x = 4096 ∨ x = 16384 ∨ x = 65536) → (3 ≤ fuel)%nat →
     ∃ l, grow fuel x goal = Ok l ∧ (l = 4096 ∨ l = 16384 ∨ l = 65536) ∧ goal ≤ l ∧ x ≤ l).
  { intros fuel x Hx Hf. destruct fuel as [|[|[|fuel]]]; try lia. cbn [grow].
    destruct Hx as [->|[->| ->]];
      repeat (zcase; [change (u32 (4096 ≪ 2)) with 16384 in *; change (u32 (16384 ≪ 2)) with 65536 in *
                     | eexists; split; [reflexivity|lia]]); lia. }
  destruct (Hstep 17%nat n Hn) as (l & ? & ? & ? & ?); [lia|]. eauto.
Qed.

(** C36: on every block-aligned packet of up to [SSH_MAXBLOCKS] blocks, and
    whatever the table holds from earlier packets, [detect_attack] terminates
    and gives exactly the verdict of the quadratic search: the first repeated
    block whose positions satisfy the CRC pattern is reported as an attack,
    more than [MAX_IDENTICAL] repetitions (in packets of more than
    [HASH_MINBLOCKS] bytes) as a denial of service, anything else as harmless.
    The table stays usable for the next packet. *)
Theorem detect_attack_is_naive buf len d :
  da_wf d → 0 ≤ len ≤ SSH_MAXBLOCKS * SSH_BLOCKSIZE → len mod SSH_BLOCKSIZE = 0 →
  len ≤ Z.of_nat (length buf) →
  let nb := Z.to_nat (len / SSH_BLOCKSIZE) in
  ∃ d', detect_attack buf len d = Ok (naive (HASH_MINBLOCKS <? len) buf nb nb 0 0, d') ∧ da_wf d'.
Proof.
  intros [Hn Hh] Hlen Hmod Hbuf nb.
  unfold detect_attack, HASH_MINBLOCKS, SSH_MAXBLOCKS, SSH_BLOCKSIZE in *. rewrite Hmod. zdec. simpl orb. cbv iota.
  assert (Hnb : 0 ≤ len / 8 ≤ 32768) by (split; [apply Z.div_pos; lia|apply Z.div_le_upper_bound; lia]).
  assert (Hfac : len / 8 ≤ HASH_FACTOR (len / 8) ≤ 65536).
  { unfold HASH_FACTOR. rewrite u32_small by lia. Z.div_mod_to_equations. lia. }
  destruct (grow_spec (da_n d) (HASH_FACTOR (len / 8)) Hn) as (l & -> & Hl & Hgl & Hnl); [lia|].
  cbn [mbind outcome_bind]. set (d' := match da_h d with Some _ => _ | None => _ end).
  assert (Hd' : da_wf d' ∧ da_n d' = l).
  { unfold d', da_wf. destruct (da_h d) as [h|] eqn:Eh.
    - destruct (Z.ltb_spec (da_n d) l); simpl.
      + rewrite length_app, length_take, length_replicate. lia.
      + rewrite Eh. lia.
    - simpl. rewrite length_replicate. lia. }
  destruct Hd' as [Hwf Hdn].
  change (7 * 8) with 56. rewrite Z.leb_antisym. destruct (Z.ltb_spec 56 len) as [Hgt|Hle]; simpl.
  - rewrite Hdn. assert (∃ e, 0 ≤ e ≤ 31 ∧ l = 2 ^ e) as (e & He & El).
    { destruct Hl as [->|[->| ->]]; [exists 12|exists 14|exists 16]; split; lia || done. }
    destruct (hash_scan_spec buf nb l e nb 0 0 (replicate (Z.to_nat l) HASH_UNUSED) He El)
      as (h' & Hs & Hh').
    + apply (tab_inv_empty buf l e); [done|lia].
    + unfold nb. simpl. lia.
    + unfold nb, HASH_UNUSED. simpl. lia.
    + fold nb. rewrite Hs. cbn [mbind outcome_bind]. eexists; split; [reflexivity|].
      split; [done|]. simpl. lia.
  - eexists; split; [|exact Hwf]. f_equal. f_equal. apply short_outer_spec.
Qed.

(** Eight blocks, the second of which repeats the first. *)
Definition demo_packet : list Z :=
  replicate 16 1 ++ concat ((λ k, replicate 8 (Z.of_nat k)) <$> seq 2 6).

Lemma detect_attack_is_naive_witness :
  ∃ d', detect_attack demo_packet 64 deattack_init = Ok (naive true demo_packet 8 8 0 0, d') ∧ da_wf d'.
Proof.
  apply (detect_attack_is_naive demo_packet 64 deattack_init).
  - split; [left; reflexivity|exact I].
  - split; discriminate.
  - reflexivity.
  - discriminate.
Defined.
