(* ===== verification/Stdio.v ===== *)
(** * [fscanf] and C strings

    The text of a configuration file is the list of its bytes.  [Scanf] models
    the conversions that [load_st.c] and [hashmap.c] use, each of which returns
    the converted value (or [None], a matching failure) and the rest of the
    input, and proves that [%d] reads back the decimal text of an [int]. *)

From S2P Require Import Prelude.

(** The bytes of a [char] array up to the terminating NUL. *)
Fixpoint cstr (s : list Z) : list Z :=
  match s with
  | c :: s' => if c =? 0 then [] else c :: cstr s'
  | [] => []
  end.

(** The value of a byte read as a (signed) [char]. *)
Definition schar (c : Z) : Z := if c <? 128 then c else c - 256.

(** ** [fscanf] as the parser uses it *)

Module Scanf.

Definition is_space (c : Z) : bool := (c =? 32) || ((9 <=? c) && (c <=? 13)).
Definition is_digit (c : Z) : bool := (48 <=? c) && (c <=? 57).

Fixpoint skip_ws (s : list Z) : list Z :=
  match s with
  | c :: s' => if is_space c then skip_ws s' else s
  | [] => []
  end.

Fixpoint digits (s : list Z) (acc : Z) : Z * list Z :=
  match s with
  | c :: s' => if is_digit c then digits s' (acc * 10 + (c - 48)) else (acc, s)
  | [] => (acc, [])
  end.

(** [%d]: optional white space, an optional sign and at least one digit. *)
Definition int (s : list Z) : option Z * list Z :=
  let s := skip_ws s in
  let '(sign, s1) := match s with
                     | 45 :: s' => (-1, s')
                     | 43 :: s' => (1, s')
                     | _ => (1, s)
                     end in
  match s1 with
  | c :: _ => if is_digit c
              then let '(v, r) := digits s1 0 in (Some (i32 (sign * v)), r)
              else (None, s)
  | [] => (None, s)
  end.

(** A literal character of the format. *)
Definition lit (c : Z) (s : list Z) : bool * list Z :=
  match s with
  | x :: s' => if x =? c then (true, s') else (false, s)
  | [] => (false, s)
  end.

(** ["%d,%d,\n"]: the two numbers and the number of conversions done. *)
Definition int_int (s : list Z) : option (Z * Z) * list Z :=
  match int s with
  | (None, s) => (None, s)
  | (Some a, s) =>
      match lit 44 s with
      | (false, s) => (None, s)
      | (true, s) =>
          match int s with
          | (None, s) => (None, s)
          | (Some b, s) =>
              match lit 44 s with
              | (false, s) => (Some (a, b), s)
              | (true, s) => (Some (a, b), skip_ws s)
              end
          end
      end
  end.

(** ["%d,"] *)
Definition int_comma (s : list Z) : option Z * list Z :=
  match int s with
  | (None, s) => (None, s)
  | (Some a, s) => (Some a, snd (lit 44 s))
  end.

(** ["%s"]: white space is skipped, then the longest run of other characters;
    the conversion fails at the end of the input. *)
Fixpoint word_loop (s : list Z) : list Z * list Z :=
  match s with
  | c :: s' => if is_space c then ([], s) else let '(w, r) := word_loop s' in (c :: w, r)
  | [] => ([], [])
  end.
Definition word (s : list Z) : option (list Z) * list Z :=
  match word_loop (skip_ws s) with
  | ([], r) => (None, r)
  | (w, r) => (Some w, r)
  end.

(** ["%s %d,\n"] *)
Definition word_int (s : list Z) : option (list Z * Z) * list Z :=
  match word s with
  | (None, s) => (None, s)
  | (Some w, s) =>
      match int (skip_ws s) with
      | (None, s) => (None, s)
      | (Some v, s) =>
          match lit 44 s with
          | (false, s) => (Some (w, v), s)
          | (true, s) => (Some (w, v), skip_ws s)
          end
      end
  end.

(** ["%c"] *)
Definition char (s : list Z) : list Z := tail s.

(** ** The decimal text of a number, and that [%d] reads it back *)

Fixpoint dec_loop (fuel : nat) (n : Z) (acc : list Z) : list Z :=
  match fuel with
  | O => acc
  | S fuel =>
      let acc := (48 + n mod 10) :: acc in
      if n <? 10 then acc else dec_loop fuel (n / 10) acc
  end.
(** Enough digits for any [int]. *)
Definition dec (z : Z) : list Z :=
  if z <? 0 then 45 :: dec_loop 10 (- z) [] else dec_loop 10 z [].

Definition no_digit (s : list Z) : Prop :=
  match s with c :: _ => is_digit c = false | [] => True end.

Lemma digits_dec_loop fuel : ∀ n acc a rest,
  0 ≤ n < 10 ^ Z.of_nat fuel → (0 < fuel)%nat → no_digit rest →
  ∃ k, 0 ≤ k ∧ digits (dec_loop fuel n acc ++ rest) a = digits (acc ++ rest) (a * 10 ^ k + n).
Proof.
  induction fuel as [|fuel IH]; intros n acc a rest Hn Hf Hr; [lia|]. cbn [dec_loop].
  pose proof (Z.div_mod n 10 ltac:(lia)) as Hdm. pose proof (Z.mod_pos_bound n 10 ltac:(lia)) as Hm.
  assert (Hdig : ∀ l b, digits ((48 + n mod 10) :: l) b = digits l (b * 10 + n mod 10)).
  { intros l b. cbn [digits]. unfold is_digit. zdec. simpl. f_equal. lia. }
  destruct (Z.ltb_spec n 10) as [Hlt|Hge].
  - exists 1. split; [lia|]. simpl app. rewrite Hdig. f_equal. rewrite Z.mod_small by lia. lia.
  - rewrite Nat2Z.inj_succ, Z.pow_succ_r in Hn by lia.
    destruct (IH (n / 10) ((48 + n mod 10) :: acc) a rest) as (k & Hk & ->).
    + split; [apply Z.div_pos; lia | apply Z.div_lt_upper_bound; lia].
    + destruct fuel; [simpl in Hn; lia | lia].
    + done.
    + exists (k + 1). split; [lia|]. simpl app. rewrite Hdig. f_equal.
      rewrite Z.pow_add_r by lia. lia.
Qed.

Lemma dec_loop_head fuel : ∀ n acc,
  0 ≤ n → (0 < fuel)%nat → ∃ c l, dec_loop fuel n acc = c :: l ∧ is_digit c = true.
Proof.
  induction fuel as [|fuel IH]; intros n acc Hn Hf; [lia|]. cbn [dec_loop].
  pose proof (Z.mod_pos_bound n 10 ltac:(lia)).
  assert (Hd : is_digit (48 + n mod 10) = true) by (unfold is_digit; zdec; done).
  destruct (n <? 10); [eauto|]. destruct fuel as [|fuel]; [simpl; eauto|].
  apply IH; [apply Z.div_pos; lia | lia].
Qed.

Lemma digits_stop s a : no_digit s → digits s a = (a, s).
Proof. destruct s as [|c s]; [done|]. simpl. by intros ->. Qed.

Lemma digit_not c d : is_digit c = true → is_digit d = false → c ≠ d.
Proof. congruence. Qed.

#[local] Arguments dec_loop : simpl never.

Lemma int_dec z rest :
  - 2 ^ 31 ≤ z < 2 ^ 31 → no_digit rest → int (dec z ++ rest) = (Some z, rest).
Proof.
  intros Hz Hr. unfold dec, int.
  destruct (Z.ltb_spec z 0) as [Hneg|Hpos].
  - destruct (digits_dec_loop 10 (- z) [] 0 rest) as (k & Hk & Hd); [simpl Z.of_nat; lia|lia|done|].
    destruct (dec_loop_head 10 (- z) []) as (c & l & El & Hc); [lia|lia|].
    simpl app. cbn [skip_ws]. change (is_space 45) with false. cbv iota.
    rewrite El in Hd |- *. rewrite <- app_comm_cons in Hd |- *. simpl app in Hd. rewrite Hc, Hd. rewrite digits_stop by done.
    rewrite i32_small by lia. f_equal. f_equal. lia.
  - destruct (digits_dec_loop 10 z [] 0 rest) as (k & Hk & Hd); [simpl Z.of_nat; lia|lia|done|].
    destruct (dec_loop_head 10 z []) as (c & l & El & Hc); [lia|lia|].
    rewrite El in Hd |- *. rewrite <- app_comm_cons in Hd |- *. simpl app in Hd. cbn [skip_ws].
    assert (Hsp : is_space c = false) by (unfold is_space, is_digit in *; lia). rewrite Hsp.
    assert (Hs : match c with 45 => (-1, l ++ rest) | 43 => (1, l ++ rest) | _ => (1, c :: l ++ rest) end
                 = (1, c :: l ++ rest)).
    { unfold is_digit in Hc. assert (48 ≤ c ≤ 57) by lia.
      assert (c = 48 ∨ c = 49 ∨ c = 50 ∨ c = 51 ∨ c = 52 ∨ c = 53 ∨ c = 54 ∨ c = 55 ∨ c = 56 ∨ c = 57)
        as Hcs by lia. by repeat destruct Hcs as [->|Hcs]; subst. }
    rewrite Hs, Hc, Hd. rewrite digits_stop by done. rewrite i32_small by lia. f_equal. f_equal. lia.
Qed.

Lemma int_comma_dec z rest :
  - 2 ^ 31 ≤ z < 2 ^ 31 → int_comma (dec z ++ 44 :: rest) = (Some z, rest).
Proof. intros Hz. unfold int_comma. by rewrite int_dec. Qed.

End Scanf.
