(* ===== verification/SuperTrace.v ===== *)
(** * Super-traces ([load_st.c], [load_st.h])

    A super-trace is the sequence of packet sizes and times that all web sites
    of a cluster are made to look like: positive sizes go from server to
    client, negative ones from client to server.  This file models the parser
    of the trace file, the merging of bursts ([refresh_trace]), the change to
    relative times and [split], which turns absolute times into gaps per
    direction and records how much data each side must have received before it
    may continue. *)

From S2P Require Import Prelude Stdio.

Record STPAIR := mkPair {
  psize : Z;      (* int size *)
  ptime : Z;      (* int time *)
  sprob : Z;      (* unsigned int sprob *)
  expected : Z    (* unsigned long long expected *)
}.
#[export] Instance eta_STPAIR : Eta STPAIR := λ p,
  {| psize := psize p; ptime := ptime p; sprob := sprob p; expected := expected p |}.

Record ST := mkST {
  clusterid : Z;
  tracelen : Z;
  pairs : list STPAIR
}.
#[export] Instance eta_ST : Eta ST := λ t,
  {| clusterid := clusterid t; tracelen := tracelen t; pairs := pairs t |}.

(** [ST**]: the allocated array; [None] is an entry that was never assigned. *)
Abbreviation straces_t := (list (option ST)).

(** Reading [straces[i]] through the array; an unassigned entry is a wild
    pointer. *)
Definition get_trace (s : straces_t) (i : Z) : outcome ST :=
  o ← zget s i;
  match o with Some t => Ok t | None => Fault end.
Definition set_trace (s : straces_t) (i : Z) (t : ST) : outcome straces_t :=
  zset s i (Some t).

(** The three inner loops of [load_st]: read [n] numbers and store each with
    [store]; [false] is the [goto exit] on a format error. *)
Fixpoint load_column (store : STPAIR → Z → STPAIR) (n : nat) (j : Z)
    (p : list STPAIR) (s : list Z) : outcome (bool * list STPAIR * list Z) :=
  match n with
  | O => Ok (true, p, s)
  | S n =>
      match Scanf.int_comma s with
      | (None, s) => Ok (false, p, s)
      | (Some v, s) =>
          e ← zget p j;
          p ← zset p j (store e v);
          load_column store n (j + 1) p s
      end
  end.

Definition store_size (e : STPAIR) (v : Z) : STPAIR := e <| psize := v |>.
Definition store_time (e : STPAIR) (v : Z) : STPAIR := e <| ptime := v |> <| expected := 0 |>.
Definition store_prob (e : STPAIR) (v : Z) : STPAIR := e <| sprob := u32 v |>.

(** One round of the outer loop; [malloc] leaves the pairs unspecified (0). *)
Definition load_one (s : list Z) (straces : straces_t) : outcome (bool * straces_t * list Z) :=
  match Scanf.int_int s with
  | (None, s) => Ok (false, straces, s)
  | (Some (cid, stsize), s) =>
      if (cid <=? 0) || (stsize <? 0) then Ok (false, straces, s)
      else
        let save (p : list STPAIR) := set_trace straces cid {| clusterid := cid; tracelen := stsize; pairs := p |} in
        let p := replicate (Z.to_nat stsize) (mkPair 0 0 0 0) in
        let n := Z.to_nat stsize in
        '((ok, p), s) ← load_column store_size n 0 p s;
        if negb ok then straces ← save p; Ok (false, straces, s)
        else
          '((ok, p), s) ← load_column store_time n 0 p (Scanf.char s);
          if negb ok then straces ← save p; Ok (false, straces, s)
          else
            '((ok, p), s) ← load_column store_prob n 0 p (Scanf.char s);
            straces ← save p;
            Ok (ok, straces, if ok : bool then Scanf.char s else s)
  end.

Fixpoint load_rounds (n : nat) (s : list Z) (straces : straces_t) : outcome straces_t :=
  match n with
  | O => Ok straces
  | S n =>
      '((ok, straces), s) ← load_one s straces;
      if ok : bool then load_rounds n s straces else Ok straces
  end.

(** [load_st]: the file is its bytes, or [None] if it cannot be opened; the
    result is [None] for NULL. *)
Definition load_st (file : option (list Z)) (ccnt : Z) : outcome (option straces_t) :=
  match file with
  | None => Ok None
  | Some s =>
      straces ← load_rounds (Z.to_nat ccnt) s (replicate (Z.to_nat (ccnt + 1)) None);
      Ok (Some straces)
  end.

(** ** [refresh_trace]: merge the packets of a burst *)

(** [trace[e].time - stime >= 200000] in [unsigned long long]. *)
Definition too_late (t stime : Z) : bool := 200000 <=? u64 (u64 t - stime).

Definition opposite (a b : Z) : bool := ((a <? 0) && (0 <? b)) || ((0 <? a) && (b <? 0)).

Fixpoint refresh_inner (fuel : nat) (trace : list STPAIR) (len s e stime ssize : Z)
    : outcome (list STPAIR * Z) :=
  match fuel with
  | O => NoFuel
  | S fuel =>
      if e <? len then
        pe ← zget trace e;
        if opposite (psize pe) ssize then Ok (trace, e)
        else if too_late (ptime pe) stime then Ok (trace, e)
        else
          ps ← zget trace s;
          trace ← zset trace s
            (ps <| psize := i32 (psize ps + psize pe) |> <| ptime := ptime pe |>
                <| sprob := sprob pe |>);
          pe ← zget trace e;
          trace ← zset trace e (pe <| psize := 0 |> <| ptime := 0 |> <| sprob := 0 |>);
          refresh_inner fuel trace len s (e + 1) stime ssize
      else Ok (trace, e)
  end.

Fixpoint refresh_outer (fuel : nat) (trace : list STPAIR) (len e : Z) : outcome (list STPAIR) :=
  match fuel with
  | O => NoFuel
  | S fuel =>
      if e <? len then
        let s := e in
        ps ← zget trace s;
        let stime := u64 (ptime ps) in
        let ssize := psize ps in
        '(trace, e) ← refresh_inner (S (Z.to_nat len)) trace len s (e + 1) stime ssize;
        refresh_outer fuel trace len e
      else Ok trace
  end.

Definition refresh_trace (trace : list STPAIR) (len : Z) : outcome (list STPAIR) :=
  refresh_outer (S (Z.to_nat len)) trace len 0.

(** ** [change_to_relative_time] *)

(** [for (j = tracelen-1; j >= 0; j--) pairs[j].time -= pairs[0].time;] *)
Fixpoint relative_loop (n : nat) (p : list STPAIR) : outcome (list STPAIR) :=
  match n with
  | O => Ok p
  | S j =>
      pj ← zget p (Z.of_nat j);
      p0 ← zget p 0;
      p ← zset p (Z.of_nat j) (pj <| ptime := i32 (ptime pj - ptime p0) |>);
      relative_loop j p
  end.

Fixpoint relative_clusters (n : nat) (i : Z) (straces : straces_t) : outcome straces_t :=
  match n with
  | O => Ok straces
  | S n =>
      t ← get_trace straces i;
      p ← relative_loop (Z.to_nat (tracelen t)) (pairs t);
      p ← refresh_trace p (tracelen t);
      straces ← set_trace straces i (t <| pairs := p |>);
      relative_clusters n (i + 1) straces
  end.

Definition change_to_relative_time (straces : option straces_t) (total_clusters : Z)
    : outcome (option straces_t) :=
  match straces with
  | None => if 1 <=? total_clusters then Fault else Ok None
  | Some s => s ← relative_clusters (Z.to_nat total_clusters) 1 s; Ok (Some s)
  end.

(** ** [split]: gaps per direction and expected amounts *)

Record split_state := mkSplit {
  sp_pairs : list STPAIR;
  pos_pre_index : Z;
  neg_pre_index : Z;
  pre_valid_index : Z;
  sp_sum : Z              (* unsigned long long *)
}.
#[export] Instance eta_split_state : Eta split_state := λ s,
  {| sp_pairs := sp_pairs s; pos_pre_index := pos_pre_index s;
     neg_pre_index := neg_pre_index s; pre_valid_index := pre_valid_index s;
     sp_sum := sp_sum s |}.

(** [if (pre >= 0) pairs[pre].time = curtime - pairs[pre].time;] *)
Definition close_gap (p : list STPAIR) (pre curtime : Z) : outcome (list STPAIR) :=
  if 0 <=? pre then
    q ← zget p pre;
    zset p pre (q <| ptime := i32 (curtime - ptime q) |>)
  else Ok p.

(** The direction of the last packet seen: [pre_valid_index >= 0 &&
    pairs[pre_valid_index].size < 0] (or [> 0]). *)
Definition pre_valid_is (neg : bool) (p : list STPAIR) (pre_valid : Z) : outcome bool :=
  if 0 <=? pre_valid then
    q ← zget p pre_valid;
    Ok (if neg then psize q <? 0 else 0 <? psize q)
  else Ok false.

(** The body of the loop over [j]. *)
Definition split_step (s : split_state) (j : Z) : outcome split_state :=
  e ← zget (sp_pairs s) j;
  let curtime := ptime e in
  let cursize := psize e in
  if 0 <? cursize then
    p ← close_gap (sp_pairs s) (pos_pre_index s) curtime;
    turn ← pre_valid_is true p (pre_valid_index s);
    if turn : bool then
      e ← zget p j;
      p ← zset p j (e <| expected := sp_sum s |>);
      Ok {| sp_pairs := p; pos_pre_index := j; neg_pre_index := neg_pre_index s;
            pre_valid_index := j; sp_sum := u64 cursize |}
    else
      Ok {| sp_pairs := p; pos_pre_index := j; neg_pre_index := neg_pre_index s;
            pre_valid_index := j; sp_sum := u64 (sp_sum s + cursize) |}
  else if cursize <? 0 then
    p ← close_gap (sp_pairs s) (neg_pre_index s) curtime;
    turn ← pre_valid_is false p (pre_valid_index s);
    if turn : bool then
      e ← zget p j;
      p ← zset p j (e <| expected := sp_sum s |>);
      Ok {| sp_pairs := p; pos_pre_index := pos_pre_index s; neg_pre_index := j;
            pre_valid_index := j; sp_sum := u64 (0 - cursize) |}
    else
      Ok {| sp_pairs := p; pos_pre_index := pos_pre_index s; neg_pre_index := j;
            pre_valid_index := j; sp_sum := u64 (sp_sum s - cursize) |}
  else Ok s.

Fixpoint split_scan (n : nat) (j : Z) (s : split_state) : outcome split_state :=
  match n with
  | O => Ok s
  | S n => s ← split_step s j; split_scan n (j + 1) s
  end.

(** [for (k = tracelen-1; k >= 0; k--) if (pairs[k].time > 0) { ...; break; }] *)
Fixpoint last_valid (n : nat) (p : list STPAIR) (last_valid_time : Z) : outcome Z :=
  match n with
  | O => Ok last_valid_time
  | S k =>
      e ← zget p (Z.of_nat k);
      if 0 <? ptime e then Ok (u64 (ptime e)) else last_valid k p last_valid_time
  end.

(** [pairs[pre].time = last_valid_time - pairs[pre].time;] *)
Definition close_last (p : list STPAIR) (pre last_valid_time : Z) : outcome (list STPAIR) :=
  q ← zget p pre;
  zset p pre (q <| ptime := i32 (u64 (last_valid_time - ptime q)) |>).

Definition split_cluster (p : list STPAIR) (tracelen last_valid_time : Z)
    : outcome (list STPAIR * Z) :=
  s ← split_scan (Z.to_nat tracelen) 0 (mkSplit p (-1) (-1) (-1) 0);
  lv ← last_valid (Z.to_nat tracelen) (sp_pairs s) last_valid_time;
  p ← close_last (sp_pairs s) (pos_pre_index s) lv;
  p ← close_last p (neg_pre_index s) lv;
  Ok (p, lv).

(** The [send_pos] argument is not used by the code. *)
Fixpoint split_clusters (n : nat) (i : Z) (straces : straces_t) (last_valid_time : Z)
    : outcome straces_t :=
  match n with
  | O => Ok straces
  | S n =>
      t ← get_trace straces i;
      '(p, lv) ← split_cluster (pairs t) (tracelen t) last_valid_time;
      straces ← set_trace straces i (t <| pairs := p |>);
      split_clusters n (i + 1) straces lv
  end.

Definition split (straces : option straces_t) (total_clusters send_pos : Z)
    : outcome (option straces_t) :=
  match straces with
  | None => if 1 <=? total_clusters then Fault else Ok None
  | Some s => s ← split_clusters (Z.to_nat total_clusters) 1 s 0; Ok (Some s)
  end.

(** ** Reference definition of the burst merging *)

Module Bursts.

(** [q] belongs to the burst opened by [p]. *)
Definition in_burst (p q : STPAIR) : bool :=
  negb (opposite (psize q) (psize p)) && negb (too_late (ptime q) (u64 (ptime p))).

Definition absorb (acc q : STPAIR) : STPAIR :=
  acc <| psize := i32 (psize acc + psize q) |> <| ptime := ptime q |> <| sprob := sprob q |>.
Definition blank (q : STPAIR) : STPAIR := q <| psize := 0 |> <| ptime := 0 |> <| sprob := 0 |>.

(** The packets of the burst opened by [p] at the head of [l], and the rest. *)
Fixpoint burst (p : STPAIR) (l : list STPAIR) : list STPAIR * list STPAIR :=
  match l with
  | q :: l' => if in_burst p q then let '(b, r) := burst p l' in (q :: b, r) else ([], l)
  | [] => ([], [])
  end.

(** Every burst becomes one packet followed by blanks. *)
Fixpoint merge (fuel : nat) (l : list STPAIR) : list STPAIR :=
  match fuel, l with
  | S fuel, p :: l' =>
      let '(b, r) := burst p l' in
      foldl absorb p b :: (blank <$> b) ++ merge fuel r
  | _, _ => []
  end.

(** Bytes sent in one direction ([1]: server to client, [-1]: the other). *)
Fixpoint bytes_dir (d : Z) (l : list STPAIR) : Z :=
  match l with
  | p :: l => (if 0 <? d * psize p then Z.abs (psize p) else 0) + bytes_dir d l
  | [] => 0
  end.

Lemma burst_app p l : (burst p l).1 ++ (burst p l).2 = l.
Proof.
  induction l as [|q l IH]; [done|]. simpl. destruct (in_burst p q); [|done].
  destruct (burst p l); simpl in *. by rewrite IH.
Qed.

Lemma bytes_dir_app d l1 l2 : bytes_dir d (l1 ++ l2) = bytes_dir d l1 + bytes_dir d l2.
Proof. induction l1 as [|p l1 IH]; [done|]. simpl in *. lia. Qed.
Lemma bytes_dir_nonneg d l : 0 ≤ bytes_dir d l.
Proof. induction l as [|p l IH]; simpl; [lia|]. destruct (_ <? _); lia. Qed.
Lemma bytes_dir_blank d l : bytes_dir d (blank <$> l) = 0.
Proof.
  induction l as [|p l IH]; [done|]. rewrite fmap_cons. cbn [bytes_dir].
  change (psize (blank p)) with 0. rewrite IH, Z.mul_0_r. done.
Qed.

(** The in-place inner loop computes the burst. *)
Lemma refresh_inner_burst fuel : ∀ pre p acc bl l,
  (length l < fuel)%nat →
  refresh_inner fuel (pre ++ acc :: bl ++ l) (Z.of_nat (length (pre ++ acc :: bl ++ l)))
    (Z.of_nat (length pre)) (Z.of_nat (length (pre ++ acc :: bl))) (u64 (ptime p)) (psize p)
  = Ok (pre ++ foldl absorb acc (burst p l).1 :: bl ++ (blank <$> (burst p l).1) ++ (burst p l).2,
        Z.of_nat (length (pre ++ acc :: bl ++ (burst p l).1))).
Proof.
  induction fuel as [|fuel IH]; intros pre p acc bl l Hf; [lia|].
  destruct l as [|q l]; simpl.
  - rewrite !app_nil_r. zdec. done.
  - replace (Z.of_nat (length (pre ++ acc :: bl)) <? Z.of_nat (length (pre ++ acc :: bl ++ q :: l)))
      with true by (symmetry; apply Z.ltb_lt; rewrite !length_app; simpl; rewrite length_app; simpl; lia).
    replace (pre ++ acc :: bl ++ q :: l) with ((pre ++ acc :: bl) ++ q :: l) by by rewrite <- app_assoc.
    rewrite zget_app_mid. simpl. unfold in_burst.
    destruct (opposite _ _); simpl; [by rewrite <- app_assoc, !app_nil_r|].
    destruct (too_late _ _); simpl; [by rewrite <- app_assoc, !app_nil_r|].
    replace ((pre ++ acc :: bl) ++ q :: l) with (pre ++ acc :: bl ++ q :: l) by by rewrite <- app_assoc.
    rewrite zget_app_mid. simpl. rewrite zset_app_mid. simpl.
    fold (absorb acc q).
    set (acc' := absorb acc q).
    replace (pre ++ acc' :: bl ++ q :: l) with ((pre ++ acc' :: bl) ++ q :: l) by by rewrite <- app_assoc.
    replace (length (pre ++ acc :: bl)) with (length (pre ++ acc' :: bl)) by by rewrite !length_app.
    rewrite zget_app_mid. simpl. rewrite zset_app_mid. simpl. fold (blank q).
    specialize (IH pre p acc' (bl ++ [blank q]) l ltac:(simpl in Hf; lia)).
    rewrite <- !app_assoc in IH. simpl in IH.
    replace ((pre ++ acc' :: bl) ++ blank q :: l) with (pre ++ acc' :: bl ++ blank q :: l)
      by by rewrite <- app_assoc.
    replace (length (pre ++ acc :: bl ++ q :: l)) with (length (pre ++ acc' :: bl ++ blank q :: l))
      by (rewrite !length_app; simpl; rewrite !length_app; done).
    replace (Z.of_nat (length (pre ++ acc' :: bl)) + 1)
      with (Z.of_nat (length (pre ++ acc' :: bl ++ [blank q])))
      by (rewrite !length_app; simpl; rewrite !length_app; simpl; lia).
    rewrite IH. destruct (burst p l) as [b r]; simpl. f_equal. f_equal.
    rewrite !length_app; simpl; rewrite !length_app; simpl. done.
Qed.

#[local] Arguments refresh_inner : simpl never.
Lemma refresh_outer_merge fuel : ∀ pre l,
  (length l < fuel)%nat →
  refresh_outer fuel (pre ++ l) (Z.of_nat (length (pre ++ l))) (Z.of_nat (length pre))
  = Ok (pre ++ merge fuel l).
Proof.
  induction fuel as [|fuel IH]; intros pre l Hf; [lia|].
  destruct l as [|p l]; simpl.
  - rewrite app_nil_r. zdec. done.
  - rewrite length_app at 1. simpl. zdec. rewrite zget_app_mid. simpl.
    pose proof (refresh_inner_burst (S (length (pre ++ p :: l))) pre p p [] l) as Hi.
    simpl app in Hi.
    replace (Z.of_nat (length (pre ++ [p]))) with (Z.of_nat (length pre) + 1) in Hi
      by (rewrite length_app; simpl; lia).
    rewrite Nat2Z.id, Hi by (rewrite length_app; simpl; lia). simpl.
    pose proof (burst_app p l) as Hb. destruct (burst p l) as [b r]; simpl in *.
    set (p' := foldl absorb p b).
    specialize (IH (pre ++ p' :: (blank <$> b)) r).
    rewrite <- !app_assoc in IH. simpl in IH.
    rewrite <- IH by (rewrite <- Hb, length_app in Hf; lia). f_equal.
    + rewrite !length_app; simpl. rewrite <- Hb, !length_app, length_fmap. done.
    + rewrite !length_app; simpl. by rewrite length_fmap.
Qed.

Lemma burst_same_sign p l :
  psize p ≠ 0 → Forall (λ q, psize q ≠ 0) l →
  Forall (λ q, 0 < psize p * psize q) (burst p l).1 ∧ Forall (λ q, psize q ≠ 0) (burst p l).2.
Proof.
  intros Hp Hl. induction Hl as [|q l Hq Hl IH]; [done|]. simpl. unfold in_burst.
  destruct (opposite (psize q) (psize p)) eqn:Ho; simpl; [by auto|].
  destruct (too_late _ _); simpl; [by auto|].
  destruct (burst p l) as [b r]; simpl in *. destruct IH as [IH1 IH2]. split; [|done].
  constructor; [|done]. unfold opposite in Ho. nia.
Qed.

Lemma absorb_bytes d b : ∀ acc,
  d = 1 ∨ d = -1 → psize acc ≠ 0 → Forall (λ q, 0 < psize acc * psize q) b →
  bytes_dir 1 (acc :: b) + bytes_dir (-1) (acc :: b) < 2 ^ 31 →
  bytes_dir d [foldl absorb acc b] = bytes_dir d (acc :: b).
Proof.
  induction b as [|q b IH]; intros acc Hd Hacc Hb Hfit; [done|].
  inversion_clear Hb as [|? ? Hq Hb']. cbn [foldl].
  pose proof (bytes_dir_nonneg 1 b). pose proof (bytes_dir_nonneg (-1) b).
  assert (Hs : psize (absorb acc q) = psize acc + psize q).
  { unfold absorb. rsimpl. apply i32_small. cbn [bytes_dir] in Hfit. 
    revert Hfit. repeat zcase; lia. }
  assert (Hsum : ∀ d', d' = 1 ∨ d' = -1 →
      bytes_dir d' (absorb acc q :: b) = bytes_dir d' (acc :: q :: b)).
  { intros d' Hd'. cbn [bytes_dir]. rewrite Hs. repeat zcase; nia. }
  rewrite IH, Hsum; auto.
  - rewrite Hs; nia.
  - eapply Forall_impl; [exact Hb'|]. cbn beta. intros x Hx. rewrite Hs. nia.
  - rewrite !Hsum by auto. done.
Qed.

Lemma merge_bytes d fuel : ∀ l,
  d = 1 ∨ d = -1 → (length l < fuel)%nat → Forall (λ q, psize q ≠ 0) l →
  bytes_dir 1 l + bytes_dir (-1) l < 2 ^ 31 →
  bytes_dir d (merge fuel l) = bytes_dir d l ∧ length (merge fuel l) = length l.
Proof.
  induction fuel as [|fuel IH]; intros l Hd Hf Hl Hfit; [lia|].
  destruct l as [|p l]; [done|]. inversion_clear Hl as [|? ? Hp Hl'].
  destruct (burst_same_sign p l Hp Hl') as [Hb Hr]. pose proof (burst_app p l) as Happ.
  cbn [merge]. destruct (burst p l) as [b r]; simpl in Hb, Hr, Happ. subst l.
  rewrite (app_comm_cons b r p), !bytes_dir_app in Hfit. simpl in Hf. rewrite length_app in Hf.
  pose proof (bytes_dir_nonneg 1 r). pose proof (bytes_dir_nonneg (-1) r).
  pose proof (bytes_dir_nonneg 1 (p :: b)). pose proof (bytes_dir_nonneg (-1) (p :: b)).
  destruct (IH r) as [IH1 IH2]; [done|lia|done|lia|].
  pose proof (absorb_bytes d b p Hd Hp Hb ltac:(lia)) as Ha.
  split.
  - change (bytes_dir d ([foldl absorb p b] ++ (blank <$> b) ++ merge fuel r)
            = bytes_dir d ((p :: b) ++ r)).
    rewrite !bytes_dir_app, bytes_dir_blank, Ha, IH1. lia.
  - simpl. rewrite !length_app, length_fmap. lia.
Qed.

(** The sum of all sizes, with the sign of the direction. *)
Fixpoint net (l : list STPAIR) : Z := match l with p :: l => psize p + net l | [] => 0 end.

Lemma net_app l1 l2 : net (l1 ++ l2) = net l1 + net l2.
Proof. induction l1 as [|p l1 IH]; simpl; lia. Qed.
Lemma net_blank l : net (blank <$> l) = 0.
Proof. induction l as [|p l IH]; [done|]. rewrite fmap_cons. cbn [net]. by rewrite IH. Qed.

Lemma i32_mod x : i32 x mod 2 ^ 32 = x mod 2 ^ 32.
Proof.
  unfold i32. rewrite Zminus_mod, Zmod_mod, <- Zminus_mod. f_equal. lia.
Qed.

Lemma absorb_net b : ∀ acc, psize (foldl absorb acc b) mod 2 ^ 32 = (psize acc + net b) mod 2 ^ 32.
Proof.
  induction b as [|q b IH]; intros acc; cbn [foldl net]; [by rewrite Z.add_0_r|].
  rewrite IH. change (psize (absorb acc q)) with (i32 (psize acc + psize q)).
  rewrite Zplus_mod, i32_mod, <- Zplus_mod. f_equal. lia.
Qed.

Lemma merge_net fuel : ∀ l, (length l < fuel)%nat →
  net (merge fuel l) mod 2 ^ 32 = net l mod 2 ^ 32 ∧ length (merge fuel l) = length l.
Proof.
  induction fuel as [|fuel IH]; intros l Hf; [lia|]. destruct l as [|p l]; [done|].
  pose proof (burst_app p l) as Happ. cbn [merge]. destruct (burst p l) as [b r]; simpl in Happ. subst l.
  simpl in Hf. rewrite length_app in Hf. destruct (IH r) as [IH1 IH2]; [lia|]. split.
  - cbn [net]. rewrite !net_app, net_blank, Z.add_0_l, Zplus_mod, absorb_net, IH1, <- Zplus_mod. f_equal. lia.
  - simpl. rewrite !length_app, length_fmap. lia.
Qed.

(** C34: [refresh_trace] always terminates.  On every trace it computes exactly
    the burst merging of the reference definition (every packet absorbs the
    packets that follow it, not in the opposite direction and within 200 ms of
    it, which become blanks), keeps the length of the trace and, in 32 bits,
    the balance of the bytes of the two directions.  If no packet of the trace
    has size 0 and all packets together have less than 2^31 bytes, the number
    of bytes sent in each direction is unchanged. *)
Theorem refresh_trace_conserves (l : list STPAIR) (d : Z) :
  d = 1 ∨ d = -1 →
  refresh_trace l (Z.of_nat (length l)) = Ok (merge (S (length l)) l) ∧
  length (merge (S (length l)) l) = length l ∧
  net (merge (S (length l)) l) mod 2 ^ 32 = net l mod 2 ^ 32 ∧
  (Forall (λ q, psize q ≠ 0) l → bytes_dir 1 l + bytes_dir (-1) l < 2 ^ 31 →
   bytes_dir d (merge (S (length l)) l) = bytes_dir d l).
Proof.
  intros Hd. destruct (merge_net (S (length l)) l) as [H1 H2]; [lia|].
  split_and!; [|done|done|intros Hl Hfit; apply merge_bytes; auto].
  unfold refresh_trace. rewrite Nat2Z.id. apply (refresh_outer_merge (S (length l)) [] l). lia.
Qed.

(** A packet of size 0, which [load_st] accepts, opens a burst of both
    directions: 100 bytes one way and 50 the other become 50 bytes one way. *)
Example zero_packet_merges_directions :
  refresh_trace [mkPair 0 0 5 0; mkPair 100 1000 6 0; mkPair (-50) 2000 7 0] 3
    = Ok [mkPair 50 2000 7 0; mkPair 0 0 0 0; mkPair 0 0 0 0].
Proof. reflexivity. Qed.

Definition demo : list STPAIR :=
  [mkPair 100 0 5 0; mkPair 200 1000 6 0; mkPair (-50) 2000 7 0; mkPair (-60) 3000 8 0;
   mkPair 40 900000 9 0].

Lemma refresh_trace_conserves_witness :
  refresh_trace demo 5
    = Ok [mkPair 300 1000 6 0; mkPair 0 0 0 0; mkPair (-110) 3000 8 0; mkPair 0 0 0 0;
          mkPair 40 900000 9 0] ∧
  bytes_dir 1 (merge 6 demo) = 340.
Proof.
  destruct (refresh_trace_conserves demo 1) as (H1 & _ & _ & H3).
  - by left.
  - split; [exact H1|]. apply H3; [repeat constructor; discriminate|reflexivity].
Defined.

End Bursts.

(** ** What [split] computes *)

Module Schedule.

Definition same_dir (p q : STPAIR) : bool := 0 <? psize p * psize q.

(** The time of the first packet of [l] in the direction of [p]. *)
Fixpoint next_time (p : STPAIR) (l : list STPAIR) : option Z :=
  match l with
  | q :: l' => if same_dir p q then Some (ptime q) else next_time p l'
  | [] => None
  end.

(** Every packet carries the gap to the next packet of its own direction; the
    last packet of each direction takes its gap from [fin]. *)
Fixpoint gaps (fin : STPAIR → Z) (l : list STPAIR) : list STPAIR :=
  match l with
  | p :: l' =>
      (match next_time p l' with
       | Some t => p <| ptime := t - ptime p |>
       | None => if psize p =? 0 then p else p <| ptime := fin p |>
       end) :: gaps fin l'
  | [] => []
  end.

(** The volume of the run in progress and its direction. *)
Definition run_step (r : Z * Z) (p : STPAIR) : Z * Z :=
  let '(dir, sum) := r in
  if psize p =? 0 then r
  else if dir * psize p <? 0 then (Z.sgn (psize p), Z.abs (psize p))
  else (Z.sgn (psize p), sum + Z.abs (psize p)).

(** A packet that turns the direction expects the volume of the run before. *)
Definition expect (r : Z * Z) (p : STPAIR) : STPAIR :=
  if (r.1 * psize p <? 0) then p <| expected := r.2 |> else p.

Fixpoint expectations (r : Z * Z) (l : list STPAIR) : list STPAIR :=
  match l with
  | p :: l' => expect r p :: expectations (run_step r p) l'
  | [] => []
  end.

(** The whole schedule, with [last] the time at which both sides end. *)
Definition schedule (last : Z) (l : list STPAIR) : list STPAIR :=
  gaps (λ p, last - ptime p) (expectations (0, 0) l).

(** The index of the last packet of direction [d] ([-1] if there is none). *)
Fixpoint last_index (d : Z) (l : list STPAIR) : Z :=
  match l with
  | p :: l' =>
      if 0 <=? last_index d l' then last_index d l' + 1
      else if 0 <? d * psize p then 0 else -1
  | [] => -1
  end.

Definition int_times (l : list STPAIR) : Prop := Forall (λ p, 0 ≤ ptime p < 2 ^ 31) l.

Lemma last_index_range d l : -1 ≤ last_index d l < Z.of_nat (length l).
Proof. induction l as [|p l IH]; simpl; [lia|]. repeat zcase; lia. Qed.

Lemma last_index_snoc d l p :
  last_index d (l ++ [p]) = if 0 <? d * psize p then Z.of_nat (length l) else last_index d l.
Proof.
  induction l as [|q l IH]; simpl; [by repeat zcase|]. rewrite IH.
  pose proof (last_index_range d l). destruct (0 <? d * psize p); repeat zcase; lia.
Qed.

(** Splitting off the last packet of a direction. *)
Lemma last_index_split d l :
  0 ≤ last_index d l →
  ∃ l1 q l2, l = l1 ++ q :: l2 ∧ Z.of_nat (length l1) = last_index d l ∧
    0 < d * psize q ∧ Forall (λ x, d * psize x ≤ 0) l2.
Proof.
  induction l as [|p l IH]; simpl; [lia|]. intros H.
  destruct (Z.leb_spec 0 (last_index d l)) as [Hl|Hl].
  - destruct (IH Hl) as (l1 & q & l2 & -> & Hlen & Hq & H2).
    exists (p :: l1), q, l2. split_and!; [done| |done|done]. simpl. lia.
  - exists [], p, l. destruct (Z.ltb_spec 0 (d * psize p)); [|lia]. split_and!; [done..|].
    clear IH H. induction l as [|q l IHl]; [done|]. simpl in Hl. 
    pose proof (last_index_range d l).
    destruct (Z.leb_spec 0 (last_index d l)); [lia|].
    destruct (Z.ltb_spec 0 (d * psize q)); [lia|]. constructor; auto.
Qed.

Lemma last_index_none d l : last_index d l < 0 → Forall (λ x, d * psize x ≤ 0) l.
Proof.
  induction l as [|q l IHl]; [done|]. simpl. pose proof (last_index_range d l).
  destruct (Z.leb_spec 0 (last_index d l)); [lia|].
  destruct (Z.ltb_spec 0 (d * psize q)); [lia|]. auto.
Qed.

(** Updates of a time, seen from the other fields. *)
Lemma ptime_twice (q : STPAIR) v w : q <| ptime := v |> <| ptime := w |> = q <| ptime := w |>.
Proof. done. Qed.
Lemma ptime_same (q : STPAIR) : q <| ptime := ptime q |> = q.
Proof. by destruct q. Qed.

Lemma next_time_snoc p l x :
  next_time p (l ++ [x]) =
  match next_time p l with
  | Some t => Some t
  | None => if same_dir p x then Some (ptime x) else None
  end.
Proof. induction l as [|q l IH]; simpl; [done|]. by destruct (same_dir p q). Qed.

Lemma gaps_length F l : length (gaps F l) = length l.
Proof. induction l; simpl; congruence. Qed.

Lemma gaps_ext F F' l :
  Forall (λ p, psize p ≠ 0 → F p = F' p) l → gaps F l = gaps F' l.
Proof.
  induction 1 as [|p l Hp Hl IH]; [done|]. simpl. rewrite IH. f_equal.
  destruct (next_time p l); [done|]. destruct (Z.eqb_spec (psize p) 0); [done|]. by rewrite Hp.
Qed.

Lemma gaps_psize F l : psize <$> gaps F l = psize <$> l.
Proof.
  induction l as [|p l IH]; [done|]. simpl gaps. rewrite !fmap_cons, IH. f_equal.
  destruct (next_time p l); [done|]. by destruct (_ =? _).
Qed.
Lemma expectations_psize r l : psize <$> expectations r l = psize <$> l.
Proof.
  revert r. induction l as [|p l IH]; intros r; [done|]. simpl expectations.
  rewrite !fmap_cons, IH. f_equal. unfold expect. by destruct (_ <? _).
Qed.
Lemma expectations_ptime r l : ptime <$> expectations r l = ptime <$> l.
Proof.
  revert r. induction l as [|p l IH]; intros r; [done|]. simpl expectations.
  rewrite !fmap_cons, IH. f_equal. unfold expect. by destruct (_ <? _).
Qed.

Lemma last_index_ext d l l' : psize <$> l = psize <$> l' → last_index d l = last_index d l'.
Proof.
  revert l'. induction l as [|p l IH]; intros [|p' l'] H; try done.
  rewrite !fmap_cons in H. injection H as Hp Hl. simpl. by rewrite (IH l' Hl), Hp.
Qed.

(** A new packet [x] closes the gap of the last packet of its direction. *)
Lemma gaps_snoc d F l x :
  0 < d * psize x → F x = ptime x →
  gaps F (l ++ [x]) = gaps (λ p, if 0 <? d * psize p then ptime x - ptime p else F p) l ++ [x].
Proof.
  intros Hx HF. induction l as [|p l IH]; simpl.
  - destruct (Z.eqb_spec (psize x) 0) as [E|]; [rewrite E in Hx; lia|]. by rewrite HF, ptime_same.
  - rewrite IH, next_time_snoc. f_equal. destruct (next_time p l); [done|]. unfold same_dir.
    destruct (Z.eqb_spec (psize p) 0) as [E|Hp].
    + rewrite E, Z.mul_0_l. done.
    + destruct (Z.ltb_spec 0 (d * psize p)); destruct (Z.ltb_spec 0 (psize p * psize x)); try done; nia.
Qed.

(** Rewriting the gap of the last packet of direction [d]. *)
Lemma gaps_close d F F' l :
  0 ≤ last_index d l → (∀ p, ~ 0 < d * psize p → F p = F' p) →
  ∃ q, q ∈ l ∧ 0 < d * psize q ∧
    zget (gaps F l) (last_index d l) = Ok (q <| ptime := F q |>) ∧
    zset (gaps F l) (last_index d l) (q <| ptime := F' q |>) = Ok (gaps F' l).
Proof.
  intros Hi HF. destruct (last_index_split d l Hi) as (l1 & q & l2 & El & Hlen & Hq & H2).
  assert (Hdec : ∃ A B, length A = length l1 ∧
            gaps F l = A ++ q <| ptime := F q |> :: B ∧
            gaps F' l = A ++ q <| ptime := F' q |> :: B).
  { clear Hlen Hi. subst l. induction l1 as [|p l1 IH]; simpl.
    - exists [], (gaps F l2). split_and!; [done|..];
        (replace (next_time q l2) with (@None Z)
          by (symmetry; clear -H2 Hq; induction H2 as [|x l2 Hx H2 IH]; [done|]; simpl; unfold same_dir;
              destruct (Z.ltb_spec 0 (psize q * psize x)); [nia|done]));
        destruct (Z.eqb_spec (psize q) 0) as [E|]; [lia| |lia|]; simpl; [done|].
      f_equal. apply gaps_ext. eapply Forall_impl; [exact H2|]. cbn beta. intros p Hp _.
      symmetry. apply HF. lia.
    - destruct IH as (A & B & HA & E1 & E2). rewrite E1, E2.
      eexists (_ :: A), B. split_and!; [simpl; congruence | reflexivity |].
      simpl. f_equal. destruct (next_time p (l1 ++ q :: l2)) eqn:En; [done|].
      destruct (psize p =? 0) eqn:Ep; [done|]. rewrite <- HF; [done|]. intros Hp.
      clear -En Hp Hq Ep. induction l1 as [|x l1 IH]; simpl in En.
      + unfold same_dir in En. destruct (Z.ltb_spec 0 (psize p * psize q)); [done|nia].
      + destruct (same_dir p x); [done|auto]. }
  destruct Hdec as (A & B & HA & E1 & E2). exists q.
  rewrite E1, E2, <- Hlen, <- HA, zget_app_mid, zset_app_mid, El.
  split_and!; [apply elem_of_app; right; left | done..].
Qed.

(** The volume of the whole trace bounds every sum. *)
Definition volume (l : list STPAIR) : Z := foldr (λ p acc, Z.abs (psize p) + acc) 0 l.

Lemma volume_snoc l x : volume (l ++ [x]) = volume l + Z.abs (psize x).
Proof. unfold volume. induction l as [|p l IH]; simpl; lia. Qed.
Lemma volume_app l k : volume (l ++ k) = volume l + volume k.
Proof. unfold volume. induction l as [|p l IH]; simpl; lia. Qed.
Lemma volume_nonneg l : 0 ≤ volume l.
Proof. unfold volume. induction l as [|p l IH]; simpl; lia. Qed.

Lemma run_range l :
  let r := foldl run_step (0, 0) l in 0 ≤ r.2 ≤ volume l.
Proof.
  induction l as [|x l IH] using rev_ind; [done|]. simpl in *.
  rewrite foldl_snoc, volume_snoc. destruct (foldl run_step (0, 0) l) as [dir sum]; simpl in *.
  pose proof (volume_nonneg l). repeat zcase; simpl; lia.
Qed.

Lemma expectations_snoc r l x :
  expectations r (l ++ [x]) = expectations r l ++ [expect (foldl run_step r l) x].
Proof. revert r. induction l as [|p l IH]; intros r; simpl; [done|]. by rewrite IH. Qed.

Lemma pre_valid_at neg p l1 x l2 :
  psize <$> p = psize <$> (l1 ++ x :: l2) →
  pre_valid_is neg p (Z.of_nat (length l1)) = Ok (if neg then psize x <? 0 else 0 <? psize x).
Proof.
  intros H. unfold pre_valid_is. zdec.
  assert (∃ q, p !! length l1 = Some q ∧ psize q = psize x) as (q & Hq & Eq).
  { assert ((psize <$> p) !! length l1 = Some (psize x)) as Hx.
    { rewrite H, list_lookup_fmap, list_lookup_middle; done. }
    rewrite list_lookup_fmap in Hx. destruct (p !! length l1); [|done].
    injection Hx as Hx. eauto. }
  rewrite (zget_lookup p _ q) by (rewrite ?Nat2Z.id; auto with lia). simpl. by rewrite Eq.
Qed.

Lemma close_gap_spec d E x rest :
  int_times (E ++ [x]) →
  close_gap (gaps ptime E ++ rest) (last_index d E) (ptime x)
  = Ok (gaps (λ p, if 0 <? d * psize p then ptime x - ptime p else ptime p) E ++ rest).
Proof.
  intros HT. unfold close_gap. destruct (Z.leb_spec 0 (last_index d E)) as [Hi|Hi].
  - destruct (gaps_close d ptime (λ p, if 0 <? d * psize p then ptime x - ptime p else ptime p) E Hi)
      as (q & Hin & Hq & Hg & Hs).
    { intros p Hp. destruct (Z.ltb_spec 0 (d * psize p)); done. }
    rewrite (zget_app_l _ _ _ _ Hg). simpl. rsimpl.
    apply Forall_app in HT as [HT Hx]. inversion_clear Hx as [|? ? Hx' _].
    rewrite Forall_forall in HT. specialize (HT q Hin).
    rewrite i32_small by lia.
    revert Hs. destruct (Z.ltb_spec 0 (d * psize q)); [|lia]. intros Hs.
    by apply zset_app_l.
  - f_equal. f_equal. apply gaps_ext. eapply Forall_impl; [apply (last_index_none d E); lia|].
    cbn beta. intros p Hp _. destruct (Z.ltb_spec 0 (d * psize p)); [lia|done].
Qed.

Record Inv (done rest : list STPAIR) (s : split_state) : Prop := {
  inv_pairs : sp_pairs s = gaps ptime (expectations (0, 0) done) ++ rest;
  inv_pos : pos_pre_index s = last_index 1 done;
  inv_neg : neg_pre_index s = last_index (-1) done;
  inv_sum : sp_sum s = (foldl run_step (0, 0) done).2;
  inv_pre : ∀ neg p, psize <$> p = psize <$> (done ++ rest) →
    pre_valid_is neg p (pre_valid_index s)
    = Ok (if neg then (foldl run_step (0, 0) done).1 <? 0 else 0 <? (foldl run_step (0, 0) done).1)
}.

Lemma expectations_length r l : length (expectations r l) = length l.
Proof. revert r. induction l; intros r; simpl; [done|]. by f_equal. Qed.

(** What a packet [x] of direction [d] does to the pairs. *)
Lemma pairs_step d l x rest :
  0 < d * psize x → int_times (l ++ [x]) →
  let r := foldl run_step (0, 0) l in
  let E := expectations (0, 0) l in
  let p := gaps (λ p, if 0 <? d * psize p then ptime x - ptime p else ptime p) E in
  close_gap (gaps ptime E ++ x :: rest) (last_index d l) (ptime x) = Ok (p ++ x :: rest) ∧
  psize <$> (p ++ x :: rest) = psize <$> (l ++ x :: rest) ∧
  zget (p ++ x :: rest) (Z.of_nat (length l)) = Ok x ∧
  (∀ y, zset (p ++ x :: rest) (Z.of_nat (length l)) y = Ok (p ++ y :: rest)) ∧
  p ++ expect r x :: rest = gaps ptime (expectations (0, 0) (l ++ [x])) ++ rest.
Proof.
  intros Hx HT r E p.
  assert (Hlen : length p = length l) by (unfold p, E; by rewrite gaps_length, expectations_length).
  split_and!.
  - rewrite (last_index_ext d l E) by (unfold E; by rewrite expectations_psize).
    apply (close_gap_spec d E x (x :: rest)). unfold E, int_times in *.
    apply Forall_app in HT as [HT Hx'].
    apply Forall_app. split; [|done]. rewrite <- Forall_fmap with (f := ptime) (P := λ t, 0 ≤ t < 2 ^ 31).
    rewrite expectations_ptime. by rewrite Forall_fmap.
  - rewrite !fmap_app. f_equal. unfold p, E. by rewrite gaps_psize, expectations_psize.
  - rewrite <- Hlen. apply zget_app_mid.
  - intros y. rewrite <- Hlen. apply zset_app_mid.
  - rewrite expectations_snoc. fold r E.
    assert (psize (expect r x) = psize x ∧ ptime (expect r x) = ptime x) as [Es Et]
      by (unfold expect; by destruct (_ <? _)).
    rewrite (gaps_snoc d ptime E (expect r x)) by (rewrite ?Es; done).
    rewrite Et, <- app_assoc. done.
Qed.

(** The two branches of [split_step] end the same way. *)
Ltac close_branch r x Hfin Hg Hset Hsnoc Hsum :=
  cbn [mbind outcome_bind]; unfold expect in Hfin;
  let dir := fresh "dir" in let sum := fresh "sum" in
  destruct r as [dir sum]; simpl in *;
  destruct (Z.ltb_spec (dir * psize x) 0), (Z.ltb_spec dir 0), (Z.ltb_spec 0 dir); try lia;
  rewrite ?Hg; cbn [mbind outcome_bind]; rewrite ?Hset; cbn [mbind outcome_bind];
  eexists; (split; [reflexivity|]); split; simpl; rewrite ?Hsnoc, ?last_index_snoc; simpl;
  zdec; simpl;
  try (rewrite <- Hfin, ?Hsum; done); try done; try (rewrite u64_small; lia);
  let neg := fresh "neg" in let p := fresh "p" in let E := fresh "E" in
  intros neg p E; rewrite <- app_assoc in E; simpl in E; rewrite (pre_valid_at _ _ _ _ _ E);
  f_equal; destruct neg; repeat zcase; done || lia.

Lemma split_step_inv l x rest s :
  int_times (l ++ [x]) → volume (l ++ [x]) < 2 ^ 64 →
  Inv l (x :: rest) s →
  ∃ s', split_step s (Z.of_nat (length l)) = Ok s' ∧ Inv (l ++ [x]) rest s'.
Proof.
  intros HT HV [Hp Hpos Hneg Hsum Hpre].
  pose proof (run_range l) as Hr. simpl in Hr. rewrite volume_snoc in HV.
  pose proof (volume_nonneg l).
  assert (Hz : zget (sp_pairs s) (Z.of_nat (length l)) = Ok x).
  { rewrite Hp. rewrite <- (expectations_length (0, 0) l), <- (gaps_length ptime). apply zget_app_mid. }
  assert (Hsnoc : foldl run_step (0, 0) (l ++ [x]) = run_step (foldl run_step (0, 0) l) x)
    by apply foldl_snoc.
  unfold split_step. rewrite Hz. cbn [mbind outcome_bind].
  set (r := foldl run_step (0, 0) l) in *.
  destruct (Z.ltb_spec 0 (psize x)) as [Hx|Hx]; [|destruct (Z.ltb_spec (psize x) 0) as [Hx'|Hx']].
  - destruct (pairs_step 1 l x rest ltac:(lia) HT) as (Hcg & Hsz & Hg & Hset & Hfin).
    fold r in Hcg, Hsz, Hg, Hset, Hfin.
    rewrite Hp, Hpos, Hcg. cbn [mbind outcome_bind]. rewrite (Hpre true) by exact Hsz.
    close_branch r x Hfin Hg Hset Hsnoc Hsum.
  - destruct (pairs_step (-1) l x rest ltac:(lia) HT) as (Hcg & Hsz & Hg & Hset & Hfin).
    fold r in Hcg, Hsz, Hg, Hset, Hfin.
    rewrite Hp, Hneg, Hcg. cbn [mbind outcome_bind]. rewrite (Hpre false) by exact Hsz.
    close_branch r x Hfin Hg Hset Hsnoc Hsum.
  - assert (psize x = 0) as Hx0 by lia. eexists; split; [reflexivity|].
    assert (Hrun : run_step r x = r).
    { unfold run_step. rewrite Hx0. by destruct r. }
    assert (Hexp : expect r x = x).
    { unfold expect. rewrite Hx0, Z.mul_0_r. done. }
    split; rewrite ?Hsnoc, ?Hrun, ?last_index_snoc, ?Hx0; try done.
    + rewrite expectations_snoc. fold r. rewrite Hexp, Hp.
      change (x :: rest) with ([x] ++ rest). rewrite app_assoc. f_equal.
      clear -Hx0. induction (expectations (0, 0) l) as [|p E IH]; simpl; [by rewrite Hx0|].
      rewrite IH, next_time_snoc. unfold same_dir at 1. rewrite Hx0, Z.mul_0_r. simpl.
      by destruct (next_time p E).
    + intros neg p Epp. apply Hpre. rewrite <- app_assoc in Epp. done.
Qed.

Lemma split_scan_inv rest : ∀ l s,
  int_times (l ++ rest) → volume (l ++ rest) < 2 ^ 64 → Inv l rest s →
  ∃ s', split_scan (length rest) (Z.of_nat (length l)) s = Ok s' ∧ Inv (l ++ rest) [] s'.
Proof.
  induction rest as [|x rest IH]; intros l s HT HV HI.
  - exists s. by rewrite app_nil_r.
  - replace (l ++ x :: rest) with ((l ++ [x]) ++ rest) in * by by rewrite <- app_assoc.
    pose proof (volume_nonneg rest) as Hr. rewrite volume_app in HV.
    destruct (split_step_inv l x rest s) as (s1 & Hs1 & HI1); [|lia|done|].
    { by apply Forall_app in HT as [? _]. }
    simpl. rewrite Hs1. cbn [mbind outcome_bind].
    replace (Z.of_nat (length l) + 1) with (Z.of_nat (length (l ++ [x])))
      by (rewrite length_app; simpl; lia).
    apply IH; [done | rewrite volume_app; lia | done].
Qed.

Definition blanks (tl : list STPAIR) : Prop := Forall (λ q, psize q = 0 ∧ ptime q = 0) tl.

Lemma gaps_blanks F tl : blanks tl → gaps F tl = tl.
Proof.
  induction 1 as [|q tl [Hs Ht] Htl IH]; [done|]. simpl. rewrite IH, Hs. f_equal.
  replace (next_time q tl) with (@None Z); [done|]. clear -Hs. 
  induction tl as [|x tl IH]; [done|]. simpl. unfold same_dir. by rewrite Hs.
Qed.

Lemma next_time_blanks p tl : blanks tl → next_time p tl = None.
Proof.
  induction 1 as [|q tl [Hs Ht] Htl IH]; [done|]. simpl. unfold same_dir.
  by rewrite Hs, Z.mul_0_r.
Qed.

Lemma gaps_tail A z tl :
  blanks tl → ∃ A', length A' = length A ∧ gaps ptime (A ++ z :: tl) = A' ++ z :: tl.
Proof.
  intros Htl. induction A as [|p A (A' & HA & E)]; simpl.
  - exists []. split; [done|]. rewrite next_time_blanks, gaps_blanks, ptime_same by done.
    by destruct (_ =? _).
  - eexists (_ :: A'). rewrite E. split; [simpl; congruence | reflexivity].
Qed.

Lemma expectations_blanks r tl : blanks tl → expectations r tl = tl.
Proof.
  intros H. revert r. induction H as [|q tl [Hs Ht] Htl IH]; intros r; [done|]. simpl.
  rewrite IH. unfold expect. by rewrite Hs, Z.mul_0_r.
Qed.

Lemma expectations_app r l k :
  expectations r (l ++ k) = expectations r l ++ expectations (foldl run_step r l) k.
Proof. revert r. induction l as [|p l IH]; intros r; simpl; [done|]. by rewrite IH. Qed.

Lemma last_valid_blanks A z tl lvt :
  blanks tl → 0 < ptime z < 2 ^ 31 →
  last_valid (length (A ++ z :: tl)) (A ++ z :: tl) lvt = Ok (ptime z).
Proof.
  intros Htl Hz. rewrite length_app. simpl.
  assert (Hgen : ∀ k, blanks k → ∀ suf,
    last_valid (length A + S (length k)) (A ++ z :: k ++ suf) lvt = Ok (ptime z)).
  { induction k as [|q k IH] using rev_ind; intros Hk suf.
    - rewrite Nat.add_1_r. simpl. rewrite zget_app_mid. simpl. zdec. by rewrite u64_small by lia.
    - apply Forall_app in Hk as [Hk Hq]. inversion_clear Hq as [|? ? [Hqs Hqt] _].
      rewrite length_app, Nat.add_1_r, Nat.add_succ_r. cbn [last_valid].
      replace (A ++ z :: (k ++ [q]) ++ suf) with ((A ++ z :: k) ++ q :: suf)
        by (by rewrite <- !app_assoc).
      replace (length A + S (length k))%nat with (length (A ++ z :: k)) at 1
        by (rewrite length_app; done).
      rewrite zget_app_mid. cbn [mbind outcome_bind]. zdec.
      rewrite <- app_assoc. apply (IH Hk (q :: suf)). }
  specialize (Hgen tl Htl []). by rewrite app_nil_r in Hgen.
Qed.

Lemma close_last_spec d F E last :
  0 ≤ last_index d E → int_times E → 0 ≤ last < 2 ^ 31 →
  (∀ p, 0 < d * psize p → F p = ptime p) →
  close_last (gaps F E) (last_index d E) last
  = Ok (gaps (λ p, if 0 <? d * psize p then last - ptime p else F p) E).
Proof.
  intros Hi HT Hl HF. unfold close_last.
  destruct (gaps_close d F (λ p, if 0 <? d * psize p then last - ptime p else F p) E Hi)
    as (q & Hin & Hq & Hg & Hs).
  { intros p Hp. destruct (Z.ltb_spec 0 (d * psize p)); done. }
  rewrite Hg. cbn [mbind outcome_bind]. rsimpl. rewrite HF by done.
  unfold int_times in HT. rewrite Forall_forall in HT.
  specialize (HT q Hin).
  rewrite <- Hs. destruct (Z.ltb_spec 0 (d * psize q)); [|lia].
  by rewrite i32_u64_small by lia.
Qed.

Lemma Inv_init l : Inv [] l (mkSplit l (-1) (-1) (-1) 0).
Proof. split; simpl; try done. by intros []. Qed.

(** Total gap of one direction. *)
Fixpoint gap_sum (d : Z) (l : list STPAIR) : Z :=
  match l with
  | p :: l' => (if 0 <? d * psize p then ptime p else 0) + gap_sum d l'
  | [] => 0
  end.

Lemma gap_sum_telescopes d last l :
  d = 1 ∨ d = -1 →
  gap_sum d (gaps (λ p, last - ptime p) l) =
  match next_time (mkPair d 0 0 0) l with Some t0 => last - t0 | None => 0 end.
Proof.
  intros Hd. induction l as [|p l IH]; [done|]. simpl. unfold same_dir. simpl psize.
  destruct (Z.ltb_spec 0 (d * psize p)) as [Hp|Hp].
  - assert (Hn : next_time p l = next_time (mkPair d 0 0 0) l).
    { clear IH. induction l as [|q l IHl]; [done|]. simpl. unfold same_dir. simpl psize.
      destruct (Z.ltb_spec 0 (psize p * psize q)), (Z.ltb_spec 0 (d * psize q)); try done; nia. }
    rewrite Hn in *. rewrite IH. destruct (next_time (mkPair d 0 0 0) l); rsimpl.
    + rewrite (proj2 (Z.ltb_lt 0 (d * psize p)) Hp). lia.
    + destruct (Z.eqb_spec (psize p) 0) as [E|]; [rewrite E in Hp; lia|]. rsimpl.
      rewrite (proj2 (Z.ltb_lt 0 (d * psize p)) Hp). lia.
  - rewrite IH. replace (0 <? d * psize (match next_time p l with
      | Some t => p <| ptime := t - ptime p |>
      | None => if psize p =? 0 then p else p <| ptime := last - ptime p |> end)) with false; [lia|].
    symmetry. apply Z.ltb_ge. destruct (next_time p l); [exact Hp|]. by destruct (_ =? _).
Qed.

Lemma next_time_expectations p r l : next_time p (expectations r l) = next_time p l.
Proof.
  revert r. induction l as [|q l IH]; intros r; [done|]. simpl. rewrite IH. unfold same_dir, expect.
  by destruct (_ <? 0).
Qed.

(** The end of [split]: both directions are closed at the time of the last
    packet. *)
Lemma split_cluster_spec body z tl lvt :
  let l := body ++ z :: tl in
  psize z ≠ 0 → 0 < ptime z → blanks tl → int_times l → volume l < 2 ^ 64 →
  0 ≤ last_index 1 l → 0 ≤ last_index (-1) l →
  split_cluster l (Z.of_nat (length l)) lvt = Ok (schedule (ptime z) l, ptime z).
Proof.
  intros l Hz Htz Htl HT HV Hpos Hneg.
  destruct (split_scan_inv l [] (mkSplit l (-1) (-1) (-1) 0) HT HV (Inv_init l)) as (s & Hs & HI).
  unfold split_cluster. rewrite Nat2Z.id. simpl length in Hs. change (Z.of_nat 0) with 0 in Hs.
  rewrite Hs. cbn [mbind outcome_bind]. destruct HI as [Hp Hps Hng _ _].
  rewrite app_nil_r in Hp. simpl app in Hp. rewrite Hp, Hps, Hng. clear Hp Hps Hng Hs s.
  assert (HzT : ptime z < 2 ^ 31).
  { apply Forall_app in HT as [_ HT]. inversion_clear HT. lia. }
  set (E := expectations (0, 0) l).
  assert (HE : int_times E).
  { unfold int_times. rewrite <- Forall_fmap with (f := ptime) (P := λ t, 0 ≤ t < 2 ^ 31).
    unfold E. rewrite expectations_ptime. by rewrite Forall_fmap. }
  assert (Hlv : last_valid (length l) (gaps ptime E) lvt = Ok (ptime z)).
  { unfold E, l. rewrite expectations_app. simpl expectations. rewrite (expectations_blanks _ tl) by done.
    set (z' := expect _ z). replace (ptime z) with (ptime z') by (unfold z', expect; by destruct (_ <? _)).
    destruct (gaps_tail (expectations (0, 0) body) z' tl Htl) as (A' & HA & ->).
    replace (length (body ++ z :: tl)) with (length (A' ++ z' :: tl))
      by (rewrite !length_app, HA, expectations_length; done).
    apply last_valid_blanks; [done|]. unfold z', expect. destruct (_ <? _); rsimpl; lia. }
  simpl app. rewrite Hlv. cbn [mbind outcome_bind].
  assert (Hli : ∀ d, last_index d l = last_index d E)
    by (intros d; apply last_index_ext; unfold E; by rewrite expectations_psize).
  simpl app. rewrite !Hli in *. rewrite close_last_spec by (auto with lia). cbn [mbind outcome_bind].
  rewrite (close_last_spec (-1)); [|done|done|lia|].
  - cbn [mbind outcome_bind]. f_equal. f_equal. unfold schedule. fold E. apply gaps_ext.
    apply Forall_true. intros p Hp. repeat zcase; try done; lia.
  - cbn beta. intros p Hp. zcase; [lia|done].
Qed.

(** for every trace with packets in both directions, with [int] times and
    whose last packet has a positive time (followed only by the blanks that
    [refresh_trace] leaves), [split] succeeds and produces the schedule of the
    reference definition: every packet holds the gap to the next packet of its
    own direction, a packet that turns the direction expects exactly the bytes
    of the preceding run, and in each direction the gaps add up to the time
    from its first packet to the end of the trace, so both ends stop at the
    same instant. *)
Theorem split_schedules body z tl lvt d t0 :
  let l := body ++ z :: tl in
  psize z ≠ 0 → 0 < ptime z → blanks tl → int_times l → volume l < 2 ^ 64 →
  0 ≤ last_index 1 l → 0 ≤ last_index (-1) l →
  d = 1 ∨ d = -1 → next_time (mkPair d 0 0 0) l = Some t0 →
  split_cluster l (Z.of_nat (length l)) lvt = Ok (schedule (ptime z) l, ptime z) ∧
  gap_sum d (schedule (ptime z) l) = ptime z - t0.
Proof.
  intros l Hz Htz Htl HT HV Hpos Hneg Hd Ht0. split; [by apply split_cluster_spec|].
  unfold schedule. rewrite gap_sum_telescopes, next_time_expectations, Ht0; done.
Qed.

Lemma split_schedules_witness :
  split_cluster [mkPair 300 10 6 0; mkPair (-110) 30 8 0; mkPair 40 90 9 0; mkPair 0 0 0 0] 4 0
    = Ok ([mkPair 300 80 6 0; mkPair (-110) 60 8 300; mkPair 40 0 9 110; mkPair 0 0 0 0], 90) ∧
  gap_sum 1 [mkPair 300 80 6 0; mkPair (-110) 60 8 300; mkPair 40 0 9 110; mkPair 0 0 0 0] = 90 - 10.
Proof.
  apply (split_schedules [mkPair 300 10 6 0; mkPair (-110) 30 8 0] (mkPair 40 90 9 0)
    [mkPair 0 0 0 0] 0 1 10); simpl; try lia.
  - repeat constructor.
  - repeat (constructor; [simpl; lia|]). constructor.
  - reflexivity.
Defined.

(** A cluster without packets in one of the directions makes [split] write
    before the start of the array ([pos_pre_index] or [neg_pre_index] is still
    [-1]). *)
Lemma split_one_direction_faults l lvt :
  int_times l → volume l < 2 ^ 64 → last_index 1 l < 0 →
  split_cluster l (Z.of_nat (length l)) lvt = Fault.
Proof.
  intros HT HV Hpos.
  destruct (split_scan_inv l [] (mkSplit l (-1) (-1) (-1) 0) HT HV (Inv_init l)) as (s & Hs & HI).
  unfold split_cluster. rewrite Nat2Z.id. simpl length in Hs. change (Z.of_nat 0) with 0 in Hs.
  rewrite Hs. cbn [mbind outcome_bind]. destruct HI as [Hp Hps _ _ _]. simpl app in Hps.
  rewrite Hps. pose proof (last_index_range 1 l).
  assert (length (sp_pairs s) = length l) as Hlen
    by (rewrite Hp, app_nil_r, gaps_length, expectations_length; done).
  assert (Hlv : ∀ n, (n ≤ length l)%nat → ∃ v, last_valid n (sp_pairs s) lvt = Ok v).
  { induction n as [|n IH]; intros Hn; simpl; [eauto|].
    destruct (lookup_lt_is_Some_2 (sp_pairs s) n) as [q Hq]; [lia|].
    rewrite (zget_lookup _ _ q) by (rewrite ?Nat2Z.id; auto with lia). simpl.
    destruct (0 <? ptime q); eauto with lia. }
  destruct (Hlv (length l)) as [v ->]; [lia|]. simpl. unfold close_last, zget.
  destruct (Z.ltb_spec (last_index 1 l) 0); [done|lia].
Qed.

End Schedule.

(** ** The text format of a trace file *)

Module Format.

Definition column (vs : list Z) : list Z := concat ((λ v, Scanf.dec v ++ [44]) <$> vs).

(** One record of the file: a header line and three columns of numbers. *)
Definition encode (t : ST) : list Z :=
  Scanf.dec (clusterid t) ++ 44 :: Scanf.dec (tracelen t) ++ 44 :: 10 ::
  column (psize <$> pairs t) ++ 10 :: column (ptime <$> pairs t) ++ 10 ::
  column (sprob <$> pairs t) ++ [10].

Definition is_int (z : Z) : Prop := - 2 ^ 31 ≤ z < 2 ^ 31.

Record wf_trace (ccnt : Z) (t : ST) : Prop := {
  wf_id : 1 ≤ clusterid t ≤ ccnt;
  wf_id_int : is_int (clusterid t);
  wf_len : tracelen t = Z.of_nat (length (pairs t));
  wf_len_int : is_int (tracelen t);
  wf_nonempty : pairs t ≠ [];
  wf_pairs : Forall (λ p, is_int (psize p) ∧ is_int (ptime p) ∧
                          0 ≤ sprob p < 2 ^ 31 ∧ expected p = 0) (pairs t)
}.

Lemma load_column_spec store vs : ∀ pre todo rest,
  Forall is_int vs → length vs = length todo →
  load_column store (length vs) (Z.of_nat (length pre)) (pre ++ todo) (column vs ++ rest)
  = Ok (true, pre ++ zip_with store todo vs, rest).
Proof.
  induction vs as [|v vs IH]; intros pre [|e todo] rest Hv Hlen; try done.
  inversion_clear Hv as [|? ? Hv' Hvs].
  cbn [length load_column]. unfold column. rewrite fmap_cons. simpl concat. rewrite <- !app_assoc.
  simpl app. rewrite Scanf.int_comma_dec by done. rewrite zget_app_mid. cbn [mbind outcome_bind].
  rewrite zset_app_mid. cbn [mbind outcome_bind].
  replace (pre ++ store e v :: todo) with ((pre ++ [store e v]) ++ todo) by by rewrite <- app_assoc.
  replace (Z.of_nat (length pre) + 1) with (Z.of_nat (length (pre ++ [store e v])))
    by (rewrite length_app; simpl; lia).
  fold (column vs). rewrite IH; [|done|simpl in Hlen; lia]. simpl. by rewrite <- app_assoc.
Qed.

Lemma load_column_all store vs todo rest :
  Forall is_int vs → length vs = length todo →
  load_column store (length vs) 0 todo (column vs ++ rest) = Ok (true, zip_with store todo vs, rest).
Proof. intros. by apply (load_column_spec store vs [] todo rest). Qed.

Lemma dec_no_space z rest : is_int z → Scanf.skip_ws (Scanf.dec z ++ rest) = Scanf.dec z ++ rest.
Proof.
  intros Hz. unfold Scanf.dec. destruct (Z.ltb_spec z 0); [done|].
  destruct (Scanf.dec_loop_head 10 z []) as (c & l & -> & Hc); [lia|lia|].
  simpl. unfold Scanf.is_space. unfold Scanf.is_digit in Hc.
  destruct (Z.eqb_spec c 32), (Z.leb_spec 9 c), (Z.leb_spec c 13); simpl; try done; lia.
Qed.

(** The three columns rebuild the pairs. *)
Lemma columns_rebuild (l : list STPAIR) :
  Forall (λ p, 0 ≤ sprob p < 2 ^ 31 ∧ expected p = 0) l →
  zip_with store_prob
    (zip_with store_time (zip_with store_size (replicate (length l) (mkPair 0 0 0 0)) (psize <$> l))
       (ptime <$> l)) (sprob <$> l) = l.
Proof.
  induction 1 as [|p l [Hs He] Hl IH]; [done|]. rewrite !fmap_cons. simpl replicate. simpl zip_with.
  f_equal; [|done]. destruct p; simpl in *. unfold store_prob, store_time, store_size.
  subst. cbv [upd upd_field]. simpl. by rewrite u32_small by lia.
Qed.

Lemma load_one_spec ccnt t rest (straces : straces_t) :
  wf_trace ccnt t → length straces = Z.to_nat (ccnt + 1) →
  load_one (encode t ++ rest) straces
  = Ok (true, <[Z.to_nat (clusterid t) := Some t]> straces, rest).
Proof.
  intros [Hid Hidi Hlen Hleni Hne Hp] Hs. unfold load_one, encode, Scanf.int_int.
  rewrite <- !app_assoc. simpl app. rewrite Scanf.int_dec by done. simpl Scanf.lit. cbv iota.
  rewrite <- !app_assoc. simpl app. rewrite Scanf.int_dec by done. simpl Scanf.lit. cbv iota.
  cbn [Scanf.skip_ws]. change (Scanf.is_space 10) with true. cbv iota.
  zdec. simpl orb. cbv iota.
  assert (Hint : Forall is_int (psize <$> pairs t) ∧ Forall is_int (ptime <$> pairs t) ∧
                 Forall is_int (sprob <$> pairs t)).
  { rewrite !Forall_fmap. split_and!; (eapply Forall_impl; [exact Hp|]); cbn; unfold is_int;
      intros p (? & ? & ? & ?); tauto || lia. }
  destruct Hint as (H1 & H2 & H3).
  assert (Hws : ∀ r, Scanf.skip_ws (column (psize <$> pairs t) ++ r) = column (psize <$> pairs t) ++ r).
  { intros r. destruct (pairs t) as [|p l]; [done|]. rewrite fmap_cons. unfold column.
    rewrite fmap_cons. simpl concat. rewrite <- !app_assoc. apply dec_no_space.
    inversion_clear H1. done. }
  rewrite !app_comm_cons, !app_assoc, <- !app_assoc. rewrite Hws.
  rewrite Hlen, !Nat2Z.id.
  set (l := pairs t) in *.
  set (zs := replicate (length l) _).
  assert (Hc : ∀ f (ps : list STPAIR) sto r, length ps = length l → Forall is_int (f <$> l) →
    load_column sto (length l) 0 ps (column (f <$> l) ++ r) = Ok (true, zip_with sto ps (f <$> l), r)).
  { intros f ps sto r Hps Hf. rewrite <- (length_fmap f l) at 1. apply load_column_all; [done|].
    by rewrite length_fmap. }
  rewrite Hc by (unfold zs; rewrite ?length_replicate; done). cbn [mbind outcome_bind negb].
  assert (Hl1 : length (zip_with store_size zs (psize <$> l)) = length l)
    by (rewrite length_zip_with, length_fmap; unfold zs; rewrite length_replicate; lia).
  simpl Scanf.char. rewrite Hc by done. cbn [mbind outcome_bind negb].
  simpl Scanf.char. rewrite Hc; [|by rewrite length_zip_with, length_fmap, Hl1, Nat.min_id|done].
  cbn [mbind outcome_bind negb]. unfold zs, set_trace. rewrite columns_rebuild.
  - unfold zset. rewrite Hs. zdec. simpl. f_equal. f_equal. f_equal. f_equal. f_equal.
    destruct t; simpl in *. by rewrite Hlen.
  - eapply Forall_impl; [exact Hp|]. cbn. intros p (_ & _ & ? & ?). done.
Qed.

Lemma load_rounds_spec ccnt ts : ∀ (straces : straces_t),
  Forall (wf_trace ccnt) ts → length straces = Z.to_nat (ccnt + 1) →
  load_rounds (length ts) (concat (encode <$> ts)) straces
  = Ok (foldl (λ s t, <[Z.to_nat (clusterid t) := Some t]> s) straces ts).
Proof.
  induction ts as [|t ts IH]; intros straces Hts Hs; [done|]. inversion_clear Hts as [|? ? Ht Hts'].
  rewrite fmap_cons. simpl concat. cbn [length load_rounds].
  rewrite (load_one_spec ccnt) by done. cbn [mbind outcome_bind foldl]. apply IH; [done|].
  etransitivity; [apply length_insert | done].
Qed.

Lemma stored_traces ts : ∀ (straces : straces_t) t,
  NoDup (Z.to_nat <$> (clusterid <$> ts)) → t ∈ ts →
  Forall (λ t, (Z.to_nat (clusterid t) < length straces)%nat) ts →
  foldl (λ s t, <[Z.to_nat (clusterid t) := Some t]> s) straces ts !! Z.to_nat (clusterid t)
  = Some (Some t).
Proof.
  induction ts as [|t' ts IH] using rev_ind; intros straces t Hnd Hin Hb; [by apply elem_of_nil in Hin|].
  rewrite foldl_snoc. rewrite !fmap_app in Hnd. apply NoDup_app in Hnd as (Hnd & Hdis & _).
  apply Forall_app in Hb as [Hb Hb']. inversion_clear Hb' as [|? ? Hb'' _].
  assert (Hlen : length (foldl (λ s t, <[Z.to_nat (clusterid t) := Some t]> s) straces ts) = length straces).
  { clear. revert straces. induction ts as [|t ts IH]; intros straces; simpl; [done|].
    rewrite IH. apply length_insert. }
  apply elem_of_app in Hin as [Hin|Hin].
  - rewrite list_lookup_insert_ne; [by apply IH|]. intros He.
    apply (Hdis (Z.to_nat (clusterid t))).
    + apply list_elem_of_fmap_2, list_elem_of_fmap_2, Hin.
    + rewrite <- He. simpl. left.
  - apply list_elem_of_singleton in Hin as ->. by apply list_lookup_insert_eq; rewrite Hlen.
Qed.

(** the trace file of a set of clusters is read back exactly: when the file
    lists each cluster (with distinct ids between 1 and the number of clusters,
    at least one packet per trace and [int] values), [load_st] returns an array
    that holds every trace at the index of its cluster. *)
Theorem load_st_roundtrip ts t :
  let ccnt := Z.of_nat (length ts) in
  Forall (wf_trace ccnt) ts → NoDup (Z.to_nat <$> (clusterid <$> ts)) → t ∈ ts →
  ∃ straces, load_st (Some (concat (encode <$> ts))) ccnt = Ok (Some straces) ∧
    get_trace straces (clusterid t) = Ok t.
Proof.
  intros ccnt Hts Hnd Hin. unfold load_st, ccnt. rewrite Nat2Z.id.
  rewrite (load_rounds_spec ccnt) by (done || by rewrite length_replicate).
  eexists; split; [reflexivity|]. unfold get_trace.
  assert (Hb : Forall (λ t, (Z.to_nat (clusterid t) < Z.to_nat (ccnt + 1))%nat) ts).
  { eapply Forall_impl; [exact Hts|]. intros x [Hx _ _ _ _ _]. lia. }
  pose proof (stored_traces ts (replicate (Z.to_nat (ccnt + 1)) None) t Hnd Hin) as Hl.
  rewrite length_replicate in Hl. specialize (Hl Hb).
  rewrite Forall_forall in Hts. destruct (Hts t Hin) as [Hid _ _ _ _ _].
  by rewrite (zget_lookup _ _ (Some t)) by (done || lia).
Qed.

Definition demo_traces : list ST :=
  [mkST 2 2 [mkPair 300 10 6 0; mkPair (-110) 30 8 0]; mkST 1 1 [mkPair (-7) 0 100 0]].

Lemma load_st_roundtrip_witness :
  ∃ straces, load_st (Some (concat (encode <$> demo_traces))) 2 = Ok (Some straces) ∧
    get_trace straces 1 = Ok (mkST 1 1 [mkPair (-7) 0 100 0]).
Proof.
  apply (load_st_roundtrip demo_traces (mkST 1 1 [mkPair (-7) 0 100 0])).
  - repeat (constructor; [split; simpl; unfold is_int; try done; try lia;
      repeat (constructor; [simpl; lia|]); constructor|]). constructor.
  - apply (bool_decide_unpack _). vm_compute. exact I.
  - right. left.
Defined.

(** The cluster id of a record is never compared with the number of clusters:
    a larger one is stored outside of the array. *)
Example load_st_id_out_of_range :
  load_st (Some (encode (mkST 2 1 [mkPair 1 2 3 0]))) 1 = Fault.
Proof. vm_compute. reflexivity. Qed.

(** After an empty trace the three [%c] conversions swallow the first bytes of
    the next header, since the newline of the header format already skipped the
    blank lines: here the header of cluster 2 is destroyed and its trace is lost. *)
Example load_st_empty_trace :
  load_st (Some (encode (mkST 1 0 []) ++ encode (mkST 2 1 [mkPair 1 2 3 0]))) 2
  = Ok (Some [None; Some (mkST 1 0 []); None]).
Proof. vm_compute. reflexivity. Qed.

End Format.
