(* ===== verification/HashMap.v ===== *)
(** * The map from URLs to clusters ([hashmap.c])

    A chained hash table with [HMSIZE] buckets, built once from the cluster
    file.  A C string is the list of its bytes (without the NUL).  The
    abstraction function [hm_abs] maps a table to a finite map from URLs to
    cluster ids. *)

From stdpp Require Import gmap.
From S2P Require Import Prelude Stdio.

Definition HMSIZE : Z := 5000.
Definition MAXSTRLEN : Z := 500.

(** [kvpair]; the [next] pointer is the position in the bucket's list. *)
Record kvpair := mkKv { key : list Z; value : Z }.

(** [hashmap]: the array of buckets.  [None] is the NULL map. *)
Abbreviation hashmap := (list (list kvpair)).

(** One round of the loop of [default_hash]. *)
Definition hash_step (hash c : Z) : Z :=
  let hash := u32 (hash + schar c) in
  let hash := u32 (hash + u32 (Z.shiftl hash 10)) in
  Z.lxor hash (Z.shiftr hash 6).

(** The loops of [default_hash] and [hm_lookup] run up to the first blank. *)
Fixpoint until_blank (s : list Z) : list Z :=
  match s with
  | c :: s' => if (c =? 32) || (c =? 0) then [] else c :: until_blank s'
  | [] => []
  end.

(** [None] is the NULL key. *)
Definition default_hash (k : option (list Z)) : Z :=
  match k with
  | None => 0
  | Some k =>
      let hash := foldl hash_step 0 (until_blank k) in
      let hash := u32 (hash + u32 (Z.shiftl hash 3)) in
      let hash := Z.lxor hash (Z.shiftr hash 11) in
      u32 (hash + u32 (Z.shiftl hash 15))
  end.

#[global] Arguments default_hash : simpl never.

(** [u_char tmpkey[255+2]]: the copy and the final NUL must fit. *)
Definition TMPKEY_SIZE : Z := 257.

(** [for (p = hm[bucket]; p != NULL; p = p->next) if (strcmp ...)]. *)
Fixpoint bucket_find (k : list Z) (b : list kvpair) : Z :=
  match b with
  | p :: b' => if decide (k = key p) then value p else bucket_find k b'
  | [] => -1
  end.

Definition hm_lookup (hm : option hashmap) (k : option (list Z)) : outcome Z :=
  match hm, k with
  | Some hm, Some k =>
      let tmpkey := until_blank k in
      if TMPKEY_SIZE <=? Z.of_nat (length tmpkey) then Fault
      else
        let bucket := default_hash (Some tmpkey) mod HMSIZE in
        b ← zget hm bucket;
        Ok (bucket_find tmpkey b)
  | _, _ => Ok (-1)
  end.

Definition hm_insert (hm : option hashmap) (k : list Z) (val : Z)
    : outcome (Z * option hashmap) :=
  match hm with
  | None => Ok (-1, None)
  | Some h =>
      v ← hm_lookup hm (Some k);
      if negb (v =? -1) then Ok (0, hm)
      else
        let tmp := mkKv (take (Z.to_nat MAXSTRLEN) (cstr k)) val in
        let bucket := default_hash (Some k) mod HMSIZE in
        b ← zget h bucket;
        h ← zset h bucket (tmp :: b);
        Ok (0, Some h)
  end.

(** The loop of [hm_build]; [false] is the [goto exit]. *)
Fixpoint build_rounds (n : nat) (s : list Z) (hm : option hashmap) : outcome (option hashmap) :=
  match n with
  | O => Ok hm
  | S n =>
      match Scanf.word_int s with
      | (None, _) => Ok hm
      | (Some (url, clusterid), s) =>
          if MAXSTRLEN <=? Z.of_nat (length url) then Fault
          else if clusterid <=? 0 then Ok hm
          else
            '(r, hm) ← hm_insert hm (cstr url) clusterid;
            if r <? 0 then Ok hm else build_rounds n s hm
      end
  end.

(** [hm_build]: the map and the new value of [*ccnt]. *)
Definition hm_build (file : option (list Z)) (ccnt : Z) : outcome (option hashmap * Z) :=
  let ret := Some (replicate (Z.to_nat HMSIZE) []) in
  match file with
  | None => Ok (ret, ccnt)
  | Some s =>
      match Scanf.int_int s with
      | (None, _) => Ok (ret, ccnt)
      | (Some (webcnt, ccnt), s) =>
          if (webcnt <? 0) || (ccnt <? 0) then Ok (ret, ccnt)
          else hm ← build_rounds (Z.to_nat webcnt) s ret; Ok (hm, ccnt)
      end
  end.

(** ** The abstract map and the representation invariant *)

Definition to_pair (p : kvpair) : list Z * Z := (key p, value p).
Definition hm_abs (hm : hashmap) : gmap (list Z) Z := list_to_map (to_pair <$> concat hm).

(** A key without blanks or NULs that fits in [tmpkey]. *)
Definition clean (k : list Z) : Prop := until_blank k = k ∧ Z.of_nat (length k) < TMPKEY_SIZE.

Definition bucket_of (k : list Z) : nat := Z.to_nat (default_hash (Some k) mod HMSIZE).

Record hm_wf (hm : hashmap) : Prop := {
  wf_size : length hm = Z.to_nat HMSIZE;
  wf_keys : ∀ i b p, hm !! i = Some b → p ∈ b → clean (key p) ∧ bucket_of (key p) = i ∧ value p ≠ -1;
  wf_nodup : NoDup (key <$> concat hm)
}.

(** A table is its bucket [i] between two smaller tables. *)
Lemma concat_bucket {A} (l : list (list A)) i b :
  l !! i = Some b →
  concat l = concat (take i l) ++ b ++ concat (drop (S i) l) ∧
  ∀ b', concat (<[i := b']> l) = concat (take i l) ++ b' ++ concat (drop (S i) l).
Proof.
  intros H. split.
  - rewrite <- (take_drop_middle l i b H) at 1. by rewrite concat_app.
  - intros b'. rewrite insert_take_drop by (by eapply lookup_lt_Some). by rewrite concat_app.
Qed.

Lemma bucket_lt k : (bucket_of k < Z.to_nat HMSIZE)%nat.
Proof. unfold bucket_of. pose proof (Z.mod_pos_bound (default_hash (Some k)) HMSIZE). unfold HMSIZE in *. lia. Qed.

Lemma bucket_find_map k b :
  bucket_find k b = default (-1) ((list_to_map (to_pair <$> b) : gmap (list Z) Z) !! k).
Proof.
  induction b as [|p b IH]; [done|]. simpl. destruct (decide (k = key p)) as [->|Hne].
  - by rewrite lookup_insert_eq.
  - by rewrite lookup_insert_ne by done.
Qed.

Lemma keys_fst (l : list kvpair) : (to_pair <$> l).*1 = key <$> l.
Proof. rewrite <- list_fmap_compose. done. Qed.

Section Wf.
Context (hm : hashmap) (Hwf : hm_wf hm).

Lemma wf_bucket k : ∃ b, hm !! bucket_of k = Some b.
Proof. apply lookup_lt_is_Some_2. rewrite (wf_size _ Hwf). apply bucket_lt. Qed.

Lemma elem_of_concat {A} (x : A) (l : list (list A)) :
  x ∈ concat l ↔ ∃ i b, l !! i = Some b ∧ x ∈ b.
Proof.
  induction l as [|b l IH]; simpl.
  - split; [by intros ?%elem_of_nil | intros (i & b & H & _); done].
  - rewrite elem_of_app, IH. split.
    + intros [H|(i & b' & H & H')]; [by exists O, b | by exists (S i), b'].
    + intros ([|i] & b' & H & H'); [left; by injection H as -> | right; eauto].
Qed.

(** Keys of the other buckets are different. *)
Lemma other_buckets k l :
  (l = take (bucket_of k) hm ∨ l = drop (S (bucket_of k)) hm) → k ∉ key <$> concat l.
Proof.
  intros Hl Hin. apply list_elem_of_fmap in Hin as (p & -> & Hp).
  apply elem_of_concat in Hp as (i & b & Hb & Hp).
  destruct Hl as [->| ->].
  - apply lookup_take_Some in Hb as [Hb Hlt]. destruct (wf_keys _ Hwf i b p Hb Hp) as (_ & E & _). lia.
  - rewrite lookup_drop in Hb. destruct (wf_keys _ Hwf _ b p Hb Hp) as (_ & E & _). lia.
Qed.

Lemma abs_bucket k b :
  hm !! bucket_of k = Some b →
  hm_abs hm !! k = (list_to_map (to_pair <$> b) : gmap (list Z) Z) !! k.
Proof.
  intros Hb. unfold hm_abs. destruct (concat_bucket hm (bucket_of k) b Hb) as [-> _].
  rewrite !fmap_app, !list_to_map_app.
  rewrite lookup_union_r by (apply not_elem_of_list_to_map_1; rewrite keys_fst; apply other_buckets; auto).
  destruct ((list_to_map (to_pair <$> b) : gmap (list Z) Z) !! k) eqn:E.
  - by apply lookup_union_Some_l.
  - rewrite lookup_union_r by done. apply not_elem_of_list_to_map_1. rewrite keys_fst.
    apply other_buckets; auto.
Qed.

(** Lookup reads the abstract map. *)
Lemma hm_lookup_abs k :
  clean k → hm_lookup (Some hm) (Some k) = Ok (default (-1) (hm_abs hm !! k)).
Proof.
  intros [Hk Hlen]. unfold hm_lookup. rewrite Hk. zdec.
  destruct (wf_bucket k) as [b Hb].
  pose proof (Z.mod_pos_bound (default_hash (Some k)) HMSIZE ltac:(done)).
  rewrite (zget_lookup _ _ b) by (done || lia). cbn [mbind outcome_bind].
  by rewrite bucket_find_map, (abs_bucket k b Hb).
Qed.

Lemma abs_values k v : hm_abs hm !! k = Some v → v ≠ -1.
Proof.
  intros H. destruct (wf_bucket k) as [b Hb]. rewrite (abs_bucket k b Hb) in H.
  apply elem_of_list_to_map_2 in H. apply list_elem_of_fmap in H as (p & [= -> ->] & Hp).
  by destruct (wf_keys _ Hwf _ _ _ Hb Hp) as (_ & _ & ?).
Qed.

Lemma clean_cstr k : clean k → take (Z.to_nat MAXSTRLEN) (cstr k) = k.
Proof.
  intros [Hk Hlen]. assert (cstr k = k) as ->.
  { clear Hlen. induction k as [|c k IH]; [done|]. simpl in *.
    destruct (Z.eqb_spec c 32); [done|]. destruct (Z.eqb_spec c 0); [done|].
    injection Hk as Hk. by rewrite IH. }
  apply take_ge. unfold TMPKEY_SIZE, MAXSTRLEN in *. lia.
Qed.

(** Insertion extends the abstract map unless the key is bound. *)
Lemma hm_insert_abs k v :
  clean k → v ≠ -1 →
  ∃ hm', hm_insert (Some hm) k v = Ok (0, Some hm') ∧ hm_wf hm' ∧
    hm_abs hm' = (if hm_abs hm !! k is Some _ then hm_abs hm else <[k := v]> (hm_abs hm)).
Proof.
  intros Hk Hv. unfold hm_insert. rewrite (hm_lookup_abs k Hk). cbn [mbind outcome_bind].
  destruct (hm_abs hm !! k) as [w|] eqn:Hl.
  { pose proof (abs_values k w Hl). simpl. zdec. simpl. eauto. }
  simpl. rewrite clean_cstr by done. destruct (wf_bucket k) as [b Hb].
  pose proof (Z.mod_pos_bound (default_hash (Some k)) HMSIZE ltac:(done)) as Hm.
  rewrite (zget_lookup _ _ b) by (done || lia). cbn [mbind outcome_bind].
  unfold zset. rewrite (wf_size _ Hwf). zdec. simpl orb. cbv iota. cbn [mbind outcome_bind].
  fold (bucket_of k). set (x := mkKv k v).
  destruct (concat_bucket hm (bucket_of k) b Hb) as [Ec Ec'].
  assert (Hperm : concat (<[bucket_of k := x :: b]> hm) ≡ₚ x :: concat hm)
    by (rewrite Ec, Ec'; solve_Permutation).
  assert (Hnd : NoDup (key <$> x :: concat hm)).
  { rewrite fmap_cons. apply NoDup_cons. split; [|apply (wf_nodup _ Hwf)].
    rewrite <- keys_fst. by apply not_elem_of_list_to_map_2. }
  eexists; split; [reflexivity|]. split.
  - split.
    + by rewrite length_insert, (wf_size _ Hwf).
    + intros i b' p Hb' Hp. destruct (decide (i = bucket_of k)) as [->|Hne].
      * rewrite list_lookup_insert_eq in Hb' by (by eapply lookup_lt_Some).
        injection Hb' as <-. apply elem_of_cons in Hp as [->|Hp]; [done|].
        by apply (wf_keys _ Hwf _ b).
      * rewrite list_lookup_insert_ne in Hb' by done. by apply (wf_keys _ Hwf _ b').
    + by rewrite Hperm.
  - unfold hm_abs. rewrite (list_to_map_proper _ (to_pair <$> x :: concat hm)); [done| |by rewrite Hperm].
    rewrite keys_fst. by rewrite Hperm.
Qed.

End Wf.

Lemma hm_wf_empty : hm_wf (replicate (Z.to_nat HMSIZE) []).
Proof.
  split.
  - apply length_replicate.
  - intros i b p Hb Hp. apply lookup_replicate in Hb as [-> _]. by apply elem_of_nil in Hp.
  - assert (∀ n, concat (replicate n ([] : list kvpair)) = []) as -> by (induction n; done). constructor.
Qed.

(** Inserting a list of entries one after the other. *)
Fixpoint insert_all (hm : option hashmap) (l : list (list Z * Z)) : outcome (option hashmap) :=
  match l with
  | [] => Ok hm
  | (k, v) :: l => '(_, hm) ← hm_insert hm k v; insert_all hm l
  end.

(** The abstract counterpart: the first binding of a key is kept. *)
Definition add_new (m : gmap (list Z) Z) (e : list Z * Z) : gmap (list Z) Z :=
  if m !! e.1 is Some _ then m else <[e.1 := e.2]> m.

Lemma insert_all_abs l : ∀ hm,
  hm_wf hm → Forall (λ e, clean e.1 ∧ e.2 ≠ -1) l →
  ∃ hm', insert_all (Some hm) l = Ok (Some hm') ∧ hm_wf hm' ∧ hm_abs hm' = foldl add_new (hm_abs hm) l.
Proof.
  induction l as [|[k v] l IH]; intros hm Hwf Hl; [by exists hm|].
  inversion_clear Hl as [|? ? [Hk Hv] Hl']. simpl in Hk, Hv.
  destruct (hm_insert_abs hm Hwf k v Hk Hv) as (hm1 & Hi & Hwf1 & Habs).
  cbn [insert_all]. rewrite Hi. cbn [mbind outcome_bind].
  destruct (IH hm1 Hwf1 Hl') as (hm' & H1 & H2 & H3). exists hm'. split_and!; [done..|].
  rewrite H3. simpl. by rewrite Habs.
Qed.

Lemma add_new_lookup l k : ∀ m,
  foldl add_new m l !! k =
  if m !! k is Some v then Some v else (list_to_map l : gmap (list Z) Z) !! k.
Proof.
  induction l as [|[k' v] l IH]; intros m; simpl.
  - rewrite lookup_empty. by destruct (m !! k).
  - rewrite IH. unfold add_new. simpl. destruct (decide (k = k')) as [->|Hne].
    + rewrite lookup_insert_eq. destruct (m !! k') as [w|] eqn:E; [by rewrite E|].
      by rewrite lookup_insert_eq.
    + rewrite (lookup_insert_ne (list_to_map l)) by done.
      destruct (m !! k'); [done|]. by rewrite lookup_insert_ne.
Qed.

(** the hash table implements a finite map.  Starting from the empty table,
    after any sequence of insertions of blank-free URLs of at most 256 bytes
    with ids other than -1, every insertion succeeds and looking up a URL
    returns the id of its first insertion, or -1 if it was never inserted. *)
Theorem hashmap_implements_map l k :
  Forall (λ e, clean e.1 ∧ e.2 ≠ -1) l → clean k →
  ∃ hm, insert_all (Some (replicate (Z.to_nat HMSIZE) [])) l = Ok (Some hm) ∧ hm_wf hm ∧
    hm_lookup (Some hm) (Some k) = Ok (default (-1) ((list_to_map l : gmap (list Z) Z) !! k)).
Proof.
  intros Hl Hk. destruct (insert_all_abs l _ hm_wf_empty Hl) as (hm & H1 & H2 & H3).
  exists hm. split_and!; [done..|]. rewrite (hm_lookup_abs hm H2 k Hk), H3, add_new_lookup.
  unfold hm_abs at 1. 
  assert (∀ n, concat (replicate n ([] : list kvpair)) = []) as -> by (induction n; done). done.
Qed.

Definition url1 : list Z := [119; 119; 119; 46; 97].
Definition url2 : list Z := [119; 119; 119; 46; 98].

Lemma hashmap_implements_map_witness :
  ∃ hm, insert_all (Some (replicate (Z.to_nat HMSIZE) [])) [(url1, 3); (url2, 4); (url1, 5)] = Ok (Some hm)
    ∧ hm_wf hm ∧ hm_lookup (Some hm) (Some url1) = Ok 3.
Proof.
  apply (hashmap_implements_map [(url1, 3); (url2, 4); (url1, 5)] url1).
  - repeat (constructor; [split; [split; vm_compute; reflexivity|done]|]). constructor.
  - split; vm_compute; reflexivity.
Defined.

(** [hm_lookup] overruns its local copy of the key exactly when the URL has
    more than 256 bytes before its first blank; on any other key (blanks
    included) of a well-formed table it returns. *)
Theorem hm_lookup_bounds hm k :
  hm_wf hm →
  hm_lookup (Some hm) (Some k) = Fault ↔ 256 < Z.of_nat (length (until_blank k)).
Proof.
  intros Hwf. unfold hm_lookup, TMPKEY_SIZE.
  destruct (Z.leb_spec 257 (Z.of_nat (length (until_blank k)))); [split; [lia|done]|].
  destruct (wf_bucket hm Hwf (until_blank k)) as [b Hb].
  pose proof (Z.mod_pos_bound (default_hash (Some (until_blank k))) HMSIZE ltac:(done)).
  rewrite (zget_lookup _ _ b) by (done || lia). split; [done|lia].
Qed.

Lemma hm_lookup_bounds_witness :
  hm_lookup (Some (replicate (Z.to_nat HMSIZE) [])) (Some (replicate 257 97)) = Fault.
Proof. apply hm_lookup_bounds; [apply hm_wf_empty | vm_compute; reflexivity]. Defined.
