(* ===== verification/Csbuflo.v ===== *)
(** * The CS-BuFLO state machine variables ([misc.c], lines 65 to 831)

    The file-level variables of [misc.c] are the record [globals]; every
    function that reads or writes them is a function on that record.  The two
    adaptive parts are the ring buffer of the times at which real data was sent
    ([time_arr]) and the list of inter-packet gaps derived from it ([tau_arr]),
    from which [update_tau_median] picks the next sending rate. *)

From Stdlib Require Import Sorted.
From stdpp Require Import sorting.
From S2P Require Import Prelude Stdio SuperTrace HashMap.

Definition ARRSIZE : Z := 1000.
Definition TARGET_QUEUE_LEN : Z := 548.
Definition INITIAL_TAU : Z := 8192.
Definition LOWER_TAU : Z := 4096.
Definition UPPER_TAU : Z := 32768.
Definition INITIAL_BOUNDARY : Z := 16384.

Record globals := mkGlobals {
  stmode : Z;  (* -1: plain ssh, 0: CS-BuFLO, 1: super-trace *)
  cluster_id : Z;
  padded_junk : Z;
  ts_end : Z;  (* unsigned long long *)
  ts_start : Z;  (* unsigned long long *)
  tstart_set : Z;
  tend_set : Z;
  tau_arr : list Z;  (* long[ARRSIZE] *)
  tau_index : Z;
  tau_size : Z;
  w2w : Z;  (* long *)
  time_arr : list Z;  (* unsigned long long[ARRSIZE] *)
  time_index : Z;
  time_size : Z;
  onload_flag : Z;
  unload_flag : Z;
  paddingdone_flag : Z;
  url : list Z;  (* u_char[257] *)
  urllen : Z;
  straces : option straces_t;  (* None: NULL *)
  clusters : option hashmap;  (* None: NULL *)
  total_clusters : Z;
  transcript_end : Z;
  sent_tend : Z;
  first_client : Z;
  second_client : Z;
  first_sent : Z;
  st_index : Z;
  cur_item : option STPAIR;  (* None: NULL *)
  trans_padded : Z;
  urlack : Z;
  first_expected : Z;  (* unsigned long long *)
  received_sofar : Z;  (* unsigned long long *)
  st_idle_start : Z;  (* unsigned long long *)
  server_entering_normal : Z;
  trans_padded_remaining : Z
}.
#[export] Instance eta_globals : Eta globals := λ g,
  {| stmode := stmode g; cluster_id := cluster_id g; padded_junk := padded_junk g;
     ts_end := ts_end g; ts_start := ts_start g; tstart_set := tstart_set g;
     tend_set := tend_set g; tau_arr := tau_arr g; tau_index := tau_index g;
     tau_size := tau_size g; w2w := w2w g; time_arr := time_arr g;
     time_index := time_index g; time_size := time_size g; onload_flag := onload_flag g;
     unload_flag := unload_flag g; paddingdone_flag := paddingdone_flag g; url := url g;
     urllen := urllen g; straces := straces g; clusters := clusters g;
     total_clusters := total_clusters g; transcript_end := transcript_end g; sent_tend := sent_tend g;
     first_client := first_client g; second_client := second_client g; first_sent := first_sent g;
     st_index := st_index g; cur_item := cur_item g; trans_padded := trans_padded g;
     urlack := urlack g; first_expected := first_expected g; received_sofar := received_sofar g;
     st_idle_start := st_idle_start g; server_entering_normal := server_entering_normal g; trans_padded_remaining := trans_padded_remaining g |}.

(** The initial values of the static variables. *)
Definition globals_init : globals :=
  {| stmode := -1; cluster_id := -1; padded_junk := 0;
     ts_end := 0; ts_start := 0; tstart_set := 0;
     tend_set := 0; tau_arr := replicate (Z.to_nat ARRSIZE) 0; tau_index := 0;
     tau_size := 0; w2w := 0; time_arr := replicate (Z.to_nat ARRSIZE) 0;
     time_index := 0; time_size := 0; onload_flag := 0;
     unload_flag := 0; paddingdone_flag := 0; url := replicate 257 0;
     urllen := 0; straces := None; clusters := None;
     total_clusters := 0; transcript_end := 0; sent_tend := 0;
     first_client := 1; second_client := 0; first_sent := 0;
     st_index := -1; cur_item := None; trans_padded := 0;
     urlack := 0; first_expected := 0; received_sofar := 0;
     st_idle_start := 0; server_entering_normal := 0; trans_padded_remaining := 0 |}.

(** ** Setters *)

Definition set_server_entering_normal (g : globals) : globals := g <| server_entering_normal := 1 |>.
Definition unset_server_entering_normal (g : globals) : globals := g <| server_entering_normal := 0 |>.
Definition set_trans_padded (g : globals) : globals := g <| trans_padded := 1 |>.
Definition unset_trans_padded (g : globals) : globals := g <| trans_padded := 0 |>.
Definition set_urlack (g : globals) : globals := g <| urlack := 1 |>.
Definition unset_urlack (g : globals) : globals := g <| urlack := 0 |>.
Definition set_second_client (g : globals) : globals := g <| second_client := 1 |>.
Definition unset_second_client (g : globals) : globals := g <| second_client := 0 |>.
Definition set_first_client (g : globals) : globals := g <| first_client := 1 |>.
Definition unset_first_client (g : globals) : globals := g <| first_client := 0 |>.
Definition set_sent_tend (g : globals) : globals := g <| sent_tend := 1 |>.
Definition unset_sent_tend (g : globals) : globals := g <| sent_tend := 0 |>.
Definition set_transcript_end (g : globals) : globals := g <| transcript_end := 1 |>.
Definition unset_transcript_end (g : globals) : globals := g <| transcript_end := 0 |>.
Definition set_onload_flag (g : globals) : globals := g <| onload_flag := 1 |>.
Definition unset_onload_flag (g : globals) : globals := g <| onload_flag := 0 |>.
Definition set_unload_flag (g : globals) : globals := g <| unload_flag := 1 |>.
Definition unset_unload_flag (g : globals) : globals := g <| unload_flag := 0 |>.
Definition set_paddingdone_flag (g : globals) : globals := g <| paddingdone_flag := 1 |>.
Definition unset_paddingdone_flag (g : globals) : globals := g <| paddingdone_flag := 0 |>.
Definition unset_first_sent (g : globals) : globals := g <| first_sent := 0 |>.
Definition set_trans_padded_remaining (val : Z) (g : globals) : globals := g <| trans_padded_remaining := val |>.
Definition set_st_idle_start (val : Z) (g : globals) : globals := g <| st_idle_start := val |>.
Definition set_padded_junk (val : Z) (g : globals) : globals := g <| padded_junk := val |>.
Definition set_received_sofar (val : Z) (g : globals) : globals := g <| received_sofar := val |>.
Definition set_stmode (val : Z) (g : globals) : globals := g <| stmode := val |>.
Definition set_ts_start (val : Z) (g : globals) : globals := g <| ts_start := val |>.
Definition set_ts_end (val : Z) (g : globals) : globals := g <| ts_end := val |>.
Definition set_tstart_set (val : Z) (g : globals) : globals := g <| tstart_set := val |>.
Definition set_tend_set (val : Z) (g : globals) : globals := g <| tend_set := val |>.

Definition decrease_trans_padded_remaining (val : Z) (g : globals) : globals :=
  if val <=? trans_padded_remaining g
  then g <| trans_padded_remaining := trans_padded_remaining g - val |>
  else g <| trans_padded_remaining := 0 |>.

Definition set_w2w (val : Z) (g : globals) : globals :=
  if val <? 0 then g <| w2w := 0 |> else g <| w2w := val |>.

(** ** The position in the super-trace *)

(** [straces[cluster_id]]. *)
Definition cur_trace (g : globals) : outcome ST :=
  match straces g with
  | None => Fault
  | Some s => get_trace s (cluster_id g)
  end.

(** [while (i < tracelen && test(cur[i].size)) i++;] *)
Fixpoint advance (fuel : nat) (test : Z → bool) (cur : list STPAIR) (tracelen i : Z) : outcome Z :=
  match fuel with
  | O => NoFuel
  | S fuel =>
      if i <? tracelen then
        p ← zget cur i;
        if test (psize p) then advance fuel test cur tracelen (i + 1) else Ok i
      else Ok i
  end.

(** Rounds the loops over a trace can make. *)
Definition trace_fuel (t : ST) : nat := S (Z.to_nat (tracelen t)).

Definition set_first_sent (g : globals) : outcome globals :=
  if cluster_id g =? -1 then Ok g
  else
    t ← cur_trace g;
    if (st_index g <? 0) || (tracelen t <=? st_index g) then Ok g
    else
      i ← advance (trace_fuel t) (λ s, 0 <? s) (pairs t) (tracelen t) (st_index g);
      i ← advance (trace_fuel t) (λ s, s <? 0) (pairs t) (tracelen t) i;
      if i <? tracelen t then
        p ← zget (pairs t) i;
        let g := g <| first_expected := expected p |> in
        if 0 <=? i - 1 then Ok (g <| first_sent := 1 |>) else Ok g
      else Ok g.

(** [should_jump_trans_end]; [rand] is the random number of the caller. *)
Definition should_jump_trans_end (rand : Z) (g : globals) : Z * globals :=
  match cur_item g with
  | None => (1, g)
  | Some item =>
      if cluster_id g <? 0 then (1, g)
      else if transcript_end g =? 1 then (1, g)
      else if rand mod 100 <? sprob item
      then (1, g <| cur_item := None |> <| st_index := -1 |>)
      else (0, g)
  end.

Definition move_to_next_st_item (is_pos : Z) (g : globals) : outcome globals :=
  if cluster_id g <? 0 then Ok g
  else
    t ← cur_trace g;
    if (st_index g <? 0) || (tracelen t <=? st_index g)
    then Ok (g <| cur_item := None |> <| st_index := -1 |>)
    else
      i ← (if 0 <? is_pos
           then advance (trace_fuel t) (λ s, s <=? 0) (pairs t) (tracelen t) (st_index g)
           else advance (trace_fuel t) (λ s, 0 <=? s) (pairs t) (tracelen t) (st_index g));
      if i <? tracelen t then
        p ← zget (pairs t) i;
        Ok (g <| cur_item := Some p |> <| st_index := i + 1 |>)
      else Ok (g <| cur_item := None |> <| st_index := -1 |>).

(** [set_cluster_id]: the two files are read on the first call. *)
Definition set_cluster_id (clusters_txt st_txt : option (list Z)) (u : list Z) (send_pos : Z)
    (g : globals) : outcome globals :=
  g ← (match clusters g with
       | Some _ => Ok g
       | None =>
           '(hm, ccnt) ← hm_build clusters_txt (total_clusters g);
           Ok (g <| clusters := hm |> <| total_clusters := ccnt |>)
       end);
  g ← (match straces g with
       | Some _ => Ok g
       | None =>
           s ← load_st st_txt (total_clusters g);
           s ← change_to_relative_time s (total_clusters g);
           s ← split s (total_clusters g) send_pos;
           Ok (g <| straces := s |>)
       end);
  id ← hm_lookup (clusters g) (Some u);
  let g := g <| cluster_id := id |> in
  if negb (id =? -1) then Ok (g <| st_index := 0 |>) else Ok g.

(** ** The URL of the page ([set_url]) *)

(** The copy loop; [p[i]] beyond the end of the object is a fault. *)
Fixpoint copy_url (n : nat) (p : list Z) (i ulen : Z) (u : list Z) : outcome (Z * Z * list Z) :=
  match n with
  | O => Ok (i, ulen, u)
  | S n =>
      c ← zget p i;
      if c =? 32 then Ok (i, ulen, u)
      else u ← zset u ulen c; copy_url n p (i + 1) (ulen + 1) u
  end.

Fixpoint strcpy_at (u : list Z) (j : Z) (s : list Z) : outcome (list Z) :=
  match s with
  | [] => Ok u
  | c :: s => u ← zset u j c; strcpy_at u (j + 1) s
  end.

(** ["www.google.com "] with its NUL. *)
Definition google : list Z := [119;119;119;46;103;111;111;103;108;101;46;99;111;109;32;0].

Definition set_url (p : list Z) (off : Z) (g : globals) : outcome globals :=
  '((i, ulen), u) ← copy_url 255 p off 0 (url g);
  u ← zset u ulen 32;
  u ← zset u (ulen + 1) 0;
  c ← zget p i;
  if negb (c =? 32) then
    u ← strcpy_at u 0 google;
    u ← zset u 15 0;
    Ok (g <| url := u |> <| urllen := 15 |>)
  else Ok (g <| url := u |> <| urllen := ulen + 1 |>).

(** ** The ring buffer of sending times and the gaps derived from it *)

Definition insert_time (time : Z) (g : globals) : outcome globals :=
  ta ← zset (time_arr g) (time_index g) time;
  Ok (g <| time_arr := ta |> <| time_index := (time_index g + 1) mod ARRSIZE |>
        <| time_size := i32 (time_size g + 1) |>).

(** [(long)(a - b)] on [unsigned long long]. *)
Definition long_diff (a b : Z) : Z := i64 (u64 (a - b)).

(** The loop of the branch [time_size <= ARRSIZE]: [ti] counts down from
    [time_size - 1]; the result lists [interval_arr[0 .. size-1]]. *)
Fixpoint intervals_linear (ti : nat) (ta : list Z) : outcome (list Z) :=
  match ti with
  | O => Ok []
  | S ti' =>
      a ← zget ta (Z.of_nat ti);
      b ← zget ta (Z.of_nat ti');
      rest ← intervals_linear ti' ta;
      Ok (long_diff a b :: rest)
  end.

Definition ring_pre (i : Z) : Z := if i =? 0 then ARRSIZE - 1 else i - 1.

(** The loop of the other branch: backwards round the ring until [oldest]. *)
Fixpoint intervals_ring (fuel : nat) (ta : list Z) (ti oldest : Z) : outcome (list Z) :=
  match fuel with
  | O => NoFuel
  | S fuel =>
      if ti =? oldest then Ok []
      else
        a ← zget ta ti;
        b ← zget ta (ring_pre ti);
        rest ← intervals_ring fuel ta (ring_pre ti) oldest;
        Ok (long_diff a b :: rest)
  end.

Definition intervals (g : globals) : outcome (list Z) :=
  if time_size g <=? ARRSIZE
  then intervals_linear (Z.to_nat (time_size g - 1)) (time_arr g)
  else intervals_ring (S (Z.to_nat ARRSIZE)) (time_arr g) (ring_pre (time_index g)) (time_index g).

Definition clamp_tau (tau : Z) : Z :=
  if tau <? LOWER_TAU then LOWER_TAU else if UPPER_TAU <? tau then UPPER_TAU else tau.

(** The gap to use when none was measured. *)
Definition default_tau (tss tse is_client : Z) : Z :=
  if negb (is_client =? 0)
  then Z.quot (i64 (long_diff tse tss + UPPER_TAU)) 2
  else long_diff tse tss.

(** [tau_arr[tau_index] = tau; if (tau_size < ARRSIZE) tau_size++; ...] *)
Definition push_tau (tau : Z) (g : globals) : outcome globals :=
  ta ← zset (tau_arr g) (tau_index g) tau;
  Ok (g <| tau_arr := ta |>
        <| tau_size := if tau_size g <? ARRSIZE then tau_size g + 1 else tau_size g |>
        <| tau_index := (tau_index g + 1) mod ARRSIZE |>).

(** The final loop of [update_tau_interval]. *)
Fixpoint push_intervals (tss tse is_client : Z) (l : list Z) (g : globals) : outcome globals :=
  match l with
  | [] => Ok g
  | tau :: l =>
      let tau := if tau =? 0 then default_tau tss tse is_client else tau in
      g ← push_tau (clamp_tau tau) g;
      push_intervals tss tse is_client l g
  end.

Definition update_tau_interval (tss tse cur_total_realsent_bytes is_client : Z) (g : globals)
    : outcome globals :=
  if tse <=? tss then Ok g
  else
    g ← (if 0 <? cur_total_realsent_bytes then insert_time tse g else Ok g);
    ivs ← intervals g;
    let g := g <| time_index := 0 |> <| time_size := 0 |> in
    match ivs with
    | [] => push_tau (clamp_tau (default_tau tss tse is_client)) g
    | _ => push_intervals tss tse is_client ivs g
    end.

(** [comp_long] returns [int]: the difference of the two longs is truncated. *)
Definition comp_long (a b : Z) : Z := i32 (a - b).

(** [qsort] with [comp_long], as an insertion sort. *)
Fixpoint qsort_insert (x : Z) (l : list Z) : list Z :=
  match l with
  | [] => [x]
  | y :: l' => if comp_long x y <=? 0 then x :: l else y :: qsort_insert x l'
  end.
Definition qsort (l : list Z) : list Z := foldr qsort_insert [] l.

(** [(long)pow(2, floor(log2(v/1.0)))]: for an integer below 2^40 the
    logarithm in double precision has the floor of the exact one.  The logarithm of
    0 is minus infinity, that of a negative number is not a number. *)
Definition pow_floor_log2 (v : Z) : outcome Z :=
  if v <? 0 then Fault else if v =? 0 then Ok 0 else Ok (2 ^ Z.log2 v).

(** [update_tau_median]: the new tau and the new [*boundary]. *)
Definition update_tau_median (tau boundary total_sent_bytes : Z) (g : globals)
    : outcome (Z * Z * globals) :=
  if total_sent_bytes <? boundary then Ok (tau, boundary, g)
  else
    let n := Z.to_nat (tau_size g) in
    let g := g <| tau_arr := qsort (take n (tau_arr g)) ++ drop n (tau_arr g) |> in
    new_tau ← zget (tau_arr g) (Z.quot (tau_size g) 2);
    new_tau ← (if tau_size g =? 0 then Ok UPPER_TAU else pow_floor_log2 new_tau);
    Ok (new_tau, i64 (boundary * 2), g <| tau_size := 0 |> <| tau_index := 0 |>).

(** ** Timers *)

(** [struct timeval] and [struct timeval *]: seconds and microseconds. *)
Record timeval := mkTv { tv_sec : Z; tv_usec : Z }.

(** [should_set_writefd]: the result, and the timeout stored through [tvp] (no
    store is [None]). *)
Definition should_set_writefd (now truly_idle time_to_write : Z) (g : globals)
    : Z * option timeval :=
  if (stmode g =? 0) && negb (truly_idle =? 0) then (0, Some (mkTv 5 0))
  else if time_to_write <? now then (1, None)
  else
    let diff := time_to_write - now in
    (0, Some (mkTv (diff / 1000000) (diff mod 1000000))).

(** [channel_idle]: the result and the new [*idle_start]. *)
Definition channel_idle (now buf_len outbuf_remain idle_start : Z) (g : globals) : Z * Z :=
  let idle_start := if 32 <=? i32 (buf_len - outbuf_remain) then now else idle_start in
  if u64 (idle_start + 2000000) <? now then (1, idle_start)
  else if onload_flag g =? 1 then (1, idle_start)
  else (0, idle_start).

(** ** Invariant of the adaptive state *)

Record tau_wf (g : globals) : Prop := {
  tw_tau_len : length (tau_arr g) = Z.to_nat ARRSIZE;
  tw_tau_idx : 0 ≤ tau_index g < ARRSIZE;
  tw_tau_size : 0 ≤ tau_size g ≤ ARRSIZE;
  tw_tau_fill : tau_size g < ARRSIZE → tau_index g = tau_size g;
  tw_tau_range : Forall (λ t, LOWER_TAU ≤ t ≤ UPPER_TAU) (take (Z.to_nat (tau_size g)) (tau_arr g));
  tw_time_len : length (time_arr g) = Z.to_nat ARRSIZE;
  tw_time_idx : 0 ≤ time_index g < ARRSIZE;
  tw_time_size : 0 ≤ time_size g ≤ INT_MAX;
  tw_time_fill : time_size g ≤ ARRSIZE → time_index g = time_size g mod ARRSIZE
}.

(** The recorded sending times, oldest first. *)
Definition times (g : globals) : list Z :=
  if time_size g <=? ARRSIZE then take (Z.to_nat (time_size g)) (time_arr g)
  else drop (Z.to_nat (time_index g)) (time_arr g) ++ take (Z.to_nat (time_index g)) (time_arr g).

(** The last [n] elements. *)
Definition lastn {A} (n : nat) (l : list A) : list A := drop (length l - n) l.

(** Consecutive differences, newest first. *)
Fixpoint diffs (l : list Z) : list Z :=
  match l with
  | a :: ((b :: _) as l') => diffs l' ++ [long_diff b a]
  | _ => []
  end.

(** The ring read from its oldest element. *)
Definition ring (i : nat) (l : list Z) : list Z := drop i l ++ take i l.

Lemma times_ring g : tau_wf g → ARRSIZE ≤ time_size g → times g = ring (Z.to_nat (time_index g)) (time_arr g).
Proof.
  intros W H. unfold times. destruct (Z.leb_spec (time_size g) ARRSIZE); [|done].
  rewrite (tw_time_fill g W) by done. replace (time_size g) with ARRSIZE by lia.
  unfold ring. rewrite Z.mod_same, drop_0, take_0, app_nil_r by done.
  apply take_ge. by rewrite (tw_time_len g W).
Qed.

Lemma ring_rotate (l : list Z) i t :
  length l = Z.to_nat ARRSIZE → 0 ≤ i < ARRSIZE →
  ring (Z.to_nat ((i + 1) mod ARRSIZE)) (<[Z.to_nat i := t]> l) = drop 1 (ring (Z.to_nat i) l ++ [t]).
Proof.
  intros Hl Hi. destruct (list_split_at l i) as (A & x & B & -> & HA & _); [unfold ARRSIZE in *; lia|].
  rewrite <- HA, Nat2Z.id. rewrite insert_app_r_alt, Nat.sub_diag by lia. simpl.
  unfold ring. rewrite drop_app_length, take_app_length. simpl.
  rewrite length_app in Hl. simpl in Hl. unfold ARRSIZE in *.
  destruct (decide (Z.of_nat (length A) = 999)) as [E|E].
  - rewrite E. change ((999 + 1) mod 1000) with 0. simpl Z.to_nat. rewrite drop_0, take_0, app_nil_r.
    destruct B; simpl in Hl; [done|lia].
  - rewrite Z.mod_small by lia. replace (Z.to_nat (Z.of_nat (length A) + 1)) with (length (A ++ [t]))
      by (rewrite length_app; simpl; lia).
    replace (A ++ t :: B) with ((A ++ [t]) ++ B) by by rewrite <- app_assoc.
    rewrite drop_app_length, take_app_length. by rewrite <- app_assoc.
Qed.

(** The ring buffer holds the last [ARRSIZE] of the inserted times. *)
Lemma insert_time_times t g :
  tau_wf g → time_size g < INT_MAX →
  ∃ g', insert_time t g = Ok g' ∧ tau_wf g' ∧
    times g' = lastn (Z.to_nat ARRSIZE) (times g ++ [t]) ∧
    tau_arr g' = tau_arr g ∧ tau_size g' = tau_size g ∧ tau_index g' = tau_index g.
Proof.
  intros W Hs. pose proof W as [Htl Hti Hts Htf Htr Hml Hmi Hms Hmf].
  unfold insert_time, zset. rewrite Hml. 
  rewrite (proj2 (Z.ltb_ge (time_index g) 0)) by lia.
  rewrite (proj2 (Z.leb_gt (Z.of_nat (Z.to_nat ARRSIZE)) (time_index g))) by (unfold ARRSIZE in *; lia).
  simpl orb. cbv iota. cbn [mbind outcome_bind].
  rewrite i32_small by (unfold INT_MAX in *; lia).
  set (g' := _ <| time_size := _ |>).
  assert (W' : tau_wf g').
  { split; unfold g'; rsimpl; auto.
    - by rewrite length_insert.
    - apply Z.mod_pos_bound. done.
    - lia.
    - intros Hle. rewrite Hmf by lia. by rewrite Zplus_mod_idemp_l. }
  eexists; split; [reflexivity|]. split; [done|]. split; [|done].
  destruct (Z.ltb_spec (time_size g) ARRSIZE) as [Hlt|Hge].
  - unfold times, g'. rsimpl. unfold lastn.
    rewrite (proj2 (Z.leb_le (time_size g + 1) ARRSIZE)), (proj2 (Z.leb_le (time_size g) ARRSIZE)) by lia.
    rewrite Hmf, Z.mod_small by lia. rewrite length_app, length_take. simpl length.
    replace (_ - _)%nat with 0%nat by (unfold ARRSIZE in *; lia).
    replace (Z.to_nat (time_size g + 1)) with (S (Z.to_nat (time_size g))) by lia.
    rewrite drop_0. erewrite take_S_r by (apply list_lookup_insert_eq; unfold ARRSIZE in *; lia).
    by rewrite take_insert_ge by lia.
  - rewrite (times_ring g W Hge), (times_ring g' W') by (unfold g'; rsimpl; lia).
    unfold g'. rsimpl. rewrite ring_rotate by done. unfold lastn.
    replace (length (ring _ _ ++ [t]) - _)%nat with 1%nat; [done|].
    unfold ring. rewrite !length_app, length_drop, length_take, Hml. simpl. unfold ARRSIZE in *. lia.
Qed.

Lemma diffs_snoc l a b : diffs (l ++ [b; a]) = long_diff a b :: diffs (l ++ [b]).
Proof.
  induction l as [|x l IH]; [done|]. destruct l as [|y l]; [done|].
  change (diffs ((x :: y :: l) ++ [b; a])) with (diffs ((y :: l) ++ [b; a]) ++ [long_diff y x]).
  rewrite IH. done.
Qed.

(** Reading one more element of a list adds one difference. *)
Lemma diffs_take_S l n a b :
  l !! n = Some b → l !! S n = Some a →
  diffs (take (S (S n)) l) = long_diff a b :: diffs (take (S n) l).
Proof.
  intros Hb Ha. rewrite (take_S_r _ _ _ Ha), (take_S_r _ _ _ Hb), <- app_assoc. apply diffs_snoc.
Qed.

Lemma zget_nat {A} (l : list A) (n : nat) x : l !! n = Some x → zget l (Z.of_nat n) = Ok x.
Proof. intros H. apply zget_lookup; [lia|]. by rewrite Nat2Z.id. Qed.

Lemma intervals_linear_spec ta n :
  (n < length ta)%nat → intervals_linear n ta = Ok (diffs (take (S n) ta)).
Proof.
  induction n as [|n IH]; intros Hn.
  - destruct ta as [|x ta]; [simpl in Hn; lia|done].
  - cbn [intervals_linear]. destruct (lookup_lt_is_Some_2 ta n) as [b Hb]; [lia|].
    destruct (lookup_lt_is_Some_2 ta (S n)) as [a Ha]; [lia|].
    rewrite (zget_nat _ _ _ Ha), (zget_nat _ _ _ Hb). cbn [mbind outcome_bind].
    rewrite IH by lia. cbn [mbind outcome_bind]. by rewrite (diffs_take_S ta n a b).
Qed.

Lemma ring_lookup l i k :
  length l = Z.to_nat ARRSIZE → 0 ≤ i < ARRSIZE → 0 ≤ k < ARRSIZE →
  ring (Z.to_nat i) l !! Z.to_nat k = l !! Z.to_nat ((i + k) mod ARRSIZE).
Proof.
  intros Hl Hi Hk. unfold ring, ARRSIZE in *. destruct (Z.ltb_spec (i + k) 1000).
  - rewrite Z.mod_small by lia. rewrite lookup_app_l by (rewrite length_drop; lia).
    rewrite lookup_drop. f_equal. lia.
  - rewrite <- (Z_mod_plus_full (i + k) (-1)), Z.mod_small by lia.
    rewrite lookup_app_r by (rewrite length_drop; lia). rewrite length_drop, lookup_take_lt by lia.
    f_equal. lia.
Qed.

Lemma ring_pre_mod i k :
  0 ≤ i < ARRSIZE → 0 ≤ k < ARRSIZE - 1 →
  ring_pre ((i + (k + 1)) mod ARRSIZE) = (i + k) mod ARRSIZE ∧ (i + (k + 1)) mod ARRSIZE ≠ i.
Proof.
  intros Hi Hk. unfold ring_pre, ARRSIZE in *.
  destruct (Z.ltb_spec (i + (k + 1)) 1000); [rewrite !Z.mod_small by lia; zdec; lia|].
  rewrite <- (Z_mod_plus_full (i + (k + 1)) (-1)), Z.mod_small by lia.
  zcase.
  - rewrite Z.mod_small by lia. lia.
  - rewrite <- (Z_mod_plus_full (i + k) (-1)), Z.mod_small by lia. lia.
Qed.

Lemma intervals_ring_spec ta i (k : nat) : ∀ fuel,
  length ta = Z.to_nat ARRSIZE → 0 ≤ i < ARRSIZE → Z.of_nat k < ARRSIZE → (k < fuel)%nat →
  intervals_ring fuel ta ((i + Z.of_nat k) mod ARRSIZE) i
  = Ok (diffs (take (S k) (ring (Z.to_nat i) ta))).
Proof.
  induction k as [|k IH]; intros [|fuel] Hl Hi Hk Hf; try lia; cbn [intervals_ring].
  - rewrite Z.add_0_r, Z.mod_small by done. rewrite Z.eqb_refl.
    assert (Hr : (0 < length (ring (Z.to_nat i) ta))%nat).
    { unfold ring. rewrite length_app, length_drop, length_take. unfold ARRSIZE in *. lia. }
    by destruct (ring (Z.to_nat i) ta); [simpl in Hr; lia|].
  - destruct (ring_pre_mod i (Z.of_nat k) Hi) as [Hpre Hne]; [lia|].
    replace (Z.of_nat (S k)) with (Z.of_nat k + 1) by lia. rewrite Hpre.
    rewrite (proj2 (Z.eqb_neq _ _) Hne).
    pose proof (Z.mod_pos_bound (i + (Z.of_nat k + 1)) ARRSIZE ltac:(done)).
    pose proof (Z.mod_pos_bound (i + Z.of_nat k) ARRSIZE ltac:(done)).
    destruct (lookup_lt_is_Some_2 ta (Z.to_nat ((i + (Z.of_nat k + 1)) mod ARRSIZE))) as [a Ha];
      [unfold ARRSIZE in *; lia|].
    destruct (lookup_lt_is_Some_2 ta (Z.to_nat ((i + Z.of_nat k) mod ARRSIZE))) as [b Hb];
      [unfold ARRSIZE in *; lia|].
    rewrite (zget_lookup _ _ _ (proj1 H) Ha), (zget_lookup _ _ _ (proj1 H0) Hb).
    cbn [mbind outcome_bind]. rewrite IH by (done || lia). cbn [mbind outcome_bind].
    rewrite (diffs_take_S _ k a b); [done|..].
    + rewrite <- (ring_lookup ta i (Z.of_nat k)), Nat2Z.id in Hb by (done || lia). done.
    + rewrite <- (ring_lookup ta i (Z.of_nat k + 1)) in Ha by (done || lia).
      by replace (Z.to_nat (Z.of_nat k + 1)) with (S k) in Ha by lia.
Qed.

(** Both loops compute the gaps between the recorded times. *)
Lemma intervals_spec g : tau_wf g → intervals g = Ok (diffs (times g)).
Proof.
  intros W. pose proof W as [_ _ _ _ _ Hml Hmi Hms _]. unfold intervals.
  destruct (Z.leb_spec (time_size g) ARRSIZE) as [Hle|Hgt].
  - unfold times. rewrite (proj2 (Z.leb_le _ _) Hle).
    destruct (decide (time_size g = 0)) as [->|Hne]; [done|].
    rewrite intervals_linear_spec by (unfold ARRSIZE in *; lia). f_equal. f_equal. f_equal. lia.
  - rewrite (times_ring g W) by lia. 
    assert (Hpre : ring_pre (time_index g) = (time_index g + Z.of_nat 999) mod ARRSIZE).
    { unfold ring_pre, ARRSIZE in *. zcase.
      - rewrite e. done.
      - replace (time_index g + Z.of_nat 999) with (time_index g - 1 + 1 * 1000) by lia.
        rewrite Z_mod_plus_full, Z.mod_small by lia. done. }
    rewrite Hpre, intervals_ring_spec; [|done|done|unfold ARRSIZE; lia|unfold ARRSIZE; lia].
    f_equal. f_equal. apply take_ge. unfold ring. rewrite length_app, length_drop, length_take.
    unfold ARRSIZE in *. lia.
Qed.

(** The gaps collected so far. *)
Definition taus (g : globals) : list Z := take (Z.to_nat (tau_size g)) (tau_arr g).

Definition in_range (t : Z) : Prop := LOWER_TAU ≤ t ≤ UPPER_TAU.

Lemma clamp_tau_range t : in_range (clamp_tau t).
Proof. unfold clamp_tau, in_range, LOWER_TAU, UPPER_TAU. repeat zcase; lia. Qed.

Lemma push_tau_spec t g :
  tau_wf g → in_range t →
  ∃ g', push_tau t g = Ok g' ∧ tau_wf g' ∧ times g' = times g ∧ time_size g' = time_size g ∧
    tau_size g ≤ tau_size g' ∧
    (tau_size g < ARRSIZE → taus g' = taus g ++ [t] ∧ tau_size g' = tau_size g + 1).
Proof.
  intros W Ht. pose proof W as [Htl Hti Hts Htf Htr Hml Hmi Hms Hmf].
  unfold push_tau, zset. rewrite Htl.
  rewrite (proj2 (Z.ltb_ge (tau_index g) 0)) by lia.
  rewrite (proj2 (Z.leb_gt (Z.of_nat (Z.to_nat ARRSIZE)) (tau_index g))) by (unfold ARRSIZE in *; lia).
  simpl orb. cbv iota. cbn [mbind outcome_bind].
  assert (Hins : tau_size g < ARRSIZE →
    take (Z.to_nat (tau_size g + 1)) (<[Z.to_nat (tau_index g) := t]> (tau_arr g)) = taus g ++ [t]).
  { intros Hlt. rewrite (Htf Hlt). replace (Z.to_nat (tau_size g + 1)) with (S (Z.to_nat (tau_size g))) by lia.
    erewrite take_S_r by (apply list_lookup_insert_eq; unfold ARRSIZE in *; lia).
    by rewrite take_insert_ge by lia. }
  set (g' := _ <| tau_index := _ |>).
  exists g'. split; [done|]. split; [|split_and!; [done|done| |]].
  - split; unfold g'; rsimpl; auto.
    + by rewrite length_insert.
    + by apply Z.mod_pos_bound.
    + zcase; lia.
    + zcase; [|lia]. intros H'. rewrite (Htf ltac:(lia)), Z.mod_small; lia.
    + zcase.
      * rewrite Hins by done. apply Forall_app. split; [done|]. by constructor.
      * replace (tau_size g) with ARRSIZE in * by lia.
        rewrite take_ge in * by (rewrite ?length_insert, Htl; done).
        by apply Forall_insert.
  - unfold g'. rsimpl. zcase; lia.
  - intros Hlt. unfold taus, g'. rsimpl. rewrite (proj2 (Z.ltb_lt _ _) Hlt). split; [|done].
    by apply Hins.
Qed.

(** What a measured gap contributes. *)
Definition sample (tss tse is_client d : Z) : Z :=
  clamp_tau (if d =? 0 then default_tau tss tse is_client else d).

Lemma push_intervals_spec tss tse cl l : ∀ g,
  tau_wf g →
  ∃ g', push_intervals tss tse cl l g = Ok g' ∧ tau_wf g' ∧ times g' = times g ∧ time_size g' = time_size g ∧
    (tau_size g + Z.of_nat (length l) ≤ ARRSIZE →
     taus g' = taus g ++ (sample tss tse cl <$> l)).
Proof.
  induction l as [|d l IH]; intros g W.
  - exists g. split_and!; [done..|]. intros _. by rewrite app_nil_r.
  - cbn [push_intervals].
    destruct (push_tau_spec (sample tss tse cl d) g W (clamp_tau_range _)) as (g1 & H1 & W1 & T1 & S1 & L1 & A1).
    unfold sample in H1 at 1. rewrite H1. cbn [mbind outcome_bind].
    destruct (IH g1 W1) as (g' & H2 & W2 & T2 & S2 & A2). exists g'. split_and!; [done|done|congruence|congruence|].
    intros Hfit. simpl length in Hfit. destruct A1 as [A1 A1']; [lia|].
    rewrite A2, A1 by lia. by rewrite <- app_assoc.
Qed.

Lemma reset_times g :
  tau_wf g →
  tau_wf (g <| time_index := 0 |> <| time_size := 0 |>) ∧
  times (g <| time_index := 0 |> <| time_size := 0 |>) = [] ∧
  taus (g <| time_index := 0 |> <| time_size := 0 |>) = taus g.
Proof. intros []. split; [split; rsimpl; done || (unfold INT_MAX; lia)|done]. Qed.

(** The samples that a call adds. *)
Definition samples (tss tse cl : Z) (ts : list Z) : list Z :=
  match diffs ts with
  | [] => [clamp_tau (default_tau tss tse cl)]
  | ds => sample tss tse cl <$> ds
  end.

(** C32: [update_tau_interval] refines its specification on the unbounded
    history of sending times: the ring buffer stands for the last [ARRSIZE]
    times; a call never reads or writes outside the arrays, records the current
    time if real data was sent, adds exactly the clamped gaps between
    consecutive times (newest first; a default if there are none, or if a gap
    is 0) to the collected samples, and forgets the times.  The invariant, in
    particular that all samples lie between [LOWER_TAU] and [UPPER_TAU], is
    kept also when the sample array wraps around. *)
Theorem update_tau_interval_refines tss tse sent cl g :
  tau_wf g → time_size g < INT_MAX → tss < tse →
  ∃ g', update_tau_interval tss tse sent cl g = Ok g' ∧ tau_wf g' ∧ times g' = [] ∧
    let ts := if 0 <? sent then lastn (Z.to_nat ARRSIZE) (times g ++ [tse]) else times g in
    (tau_size g + Z.of_nat (length (samples tss tse cl ts)) ≤ ARRSIZE →
     taus g' = taus g ++ samples tss tse cl ts).
Proof.
  intros W Hs Ht. unfold update_tau_interval. rewrite (proj2 (Z.leb_gt _ _) Ht).
  assert (∃ g1, (if 0 <? sent then insert_time tse g else Ok g) = Ok g1 ∧ tau_wf g1 ∧
     times g1 = (if 0 <? sent then lastn (Z.to_nat ARRSIZE) (times g ++ [tse]) else times g) ∧
     tau_size g1 = tau_size g ∧ taus g1 = taus g) as (g1 & -> & W1 & T1 & S1 & A1).
  { destruct (0 <? sent); [|by exists g].
    destruct (insert_time_times tse g W Hs) as (g1 & H1 & W1 & T1 & A1 & S1 & _).
    exists g1. split_and!; auto. unfold taus. by rewrite A1, S1. }
  cbn [mbind outcome_bind]. rewrite (intervals_spec g1 W1). cbn [mbind outcome_bind].
  destruct (reset_times g1 W1) as (W2 & T2 & A2). rewrite T1.
  set (ts := if 0 <? sent then _ else _). set (g2 := _ <| time_size := 0 |>) in *.
  assert (S2 : tau_size g2 = tau_size g) by (unfold g2; rsimpl; done).
  unfold samples. destruct (diffs ts) as [|d ds].
  - destruct (push_tau_spec (clamp_tau (default_tau tss tse cl)) g2 W2 (clamp_tau_range _))
      as (g' & H3 & W3 & T3 & _ & _ & A3).
    exists g'. split_and!; [done|done|congruence|]. cbv zeta. simpl length. intros Hfit.
    destruct A3 as [-> _]; [lia|]. by rewrite A2, A1.
  - destruct (push_intervals_spec tss tse cl (d :: ds) g2 W2) as (g' & H3 & W3 & T3 & _ & A3).
    exists g'. split_and!; [done|done|congruence|]. cbv zeta. rewrite length_fmap. intros Hfit.
    rewrite A3 by lia. by rewrite A2, A1.
Qed.

Lemma tau_wf_init : tau_wf globals_init.
Proof. split; simpl; rewrite ?length_replicate; unfold ARRSIZE, INT_MAX; try done; try lia. Qed.

Definition demo_g : globals :=
  match insert_time 7000 globals_init with Ok g => g | _ => globals_init end.

Lemma update_tau_interval_refines_witness :
  ∃ g', update_tau_interval 2000 17000 600 0 demo_g = Ok g' ∧ tau_wf g' ∧ times g' = [] ∧
    let ts := if 0 <? 600 then lastn (Z.to_nat ARRSIZE) (times demo_g ++ [17000]) else times demo_g in
    (tau_size demo_g + Z.of_nat (length (samples 2000 17000 0 ts)) ≤ ARRSIZE →
     taus g' = taus demo_g ++ samples 2000 17000 0 ts) ∧ samples 2000 17000 0 ts = [10000].
Proof.
  destruct (update_tau_interval_refines 2000 17000 600 0 demo_g) as (g' & H1 & H2 & H3 & H4).
  - destruct (insert_time_times 7000 globals_init tau_wf_init) as (g & Hg & W & _); [done|].
    unfold demo_g. rewrite Hg. exact W.
  - vm_compute. reflexivity.
  - reflexivity.
  - exists g'. split_and!; [exact H1|exact H2|exact H3|]. split; [exact H4 | vm_compute; reflexivity].
Defined.

(** ** The median and the new rate *)

Lemma comp_long_diff x y : in_range x → in_range y → comp_long x y = x - y.
Proof. unfold in_range, comp_long, LOWER_TAU, UPPER_TAU. intros. apply i32_small. lia. Qed.

Lemma qsort_insert_perm x l : qsort_insert x l ≡ₚ x :: l.
Proof.
  induction l as [|y l IH]; simpl; [done|]. destruct (_ <=? _); [done|]. rewrite IH.
  apply Permutation_swap.
Qed.

Lemma qsort_insert_sorted x l :
  in_range x → Forall in_range l → StronglySorted Z.le l → StronglySorted Z.le (qsort_insert x l).
Proof.
  intros Hx Hl Hs. induction Hs as [|y l Hs IH Hy]; simpl; [by repeat constructor|].
  inversion_clear Hl as [|? ? Hy' Hl']. rewrite comp_long_diff by done.
  destruct (Z.leb_spec (x - y) 0).
  - constructor; [by constructor|]. constructor; [lia|].
    eapply Forall_impl; [exact Hy|]. cbn. lia.
  - constructor; [by apply IH|]. rewrite qsort_insert_perm. constructor; [lia|done].
Qed.

Lemma qsort_perm l : qsort l ≡ₚ l.
Proof. induction l as [|x l IH]; simpl; [done|]. by rewrite qsort_insert_perm, IH. Qed.

Lemma qsort_sorted l : Forall in_range l → StronglySorted Z.le (qsort l).
Proof.
  induction 1 as [|x l Hx Hl IH]; [constructor|]. simpl. apply qsort_insert_sorted; [done| |done].
  by rewrite qsort_perm.
Qed.

Definition count (P : Z → Prop) `{!∀ x, Decision (P x)} (l : list Z) : Z :=
  Z.of_nat (length (filter P l)).

Lemma count_app P `{!∀ x, Decision (P x)} l k : count P (l ++ k) = count P l + count P k.
Proof. unfold count. rewrite filter_app, length_app. lia. Qed.
Lemma count_all P `{!∀ x, Decision (P x)} l : Forall P l → count P l = Z.of_nat (length l).
Proof.
  induction 1 as [|x l Hx Hl IH]; [done|]. unfold count in *. rewrite filter_cons_True by done.
  simpl. lia.
Qed.
Lemma count_nonneg P `{!∀ x, Decision (P x)} l : 0 ≤ count P l.
Proof. unfold count. lia. Qed.
Lemma count_perm P `{!∀ x, Decision (P x)} l k : l ≡ₚ k → count P l = count P k.
Proof. intros Hp. unfold count. by rewrite Hp. Qed.

(** The element at position [k] of a sorted list splits it by rank. *)
Lemma sorted_rank l k m :
  StronglySorted Z.le l → l !! k = Some m →
  Z.of_nat (length l) - Z.of_nat k ≤ count (λ x, m ≤ x) l ∧
  Z.of_nat k + 1 ≤ count (λ x, x ≤ m) l.
Proof.
  intros Hs Hk. rewrite <- (take_drop_middle l k m Hk) in Hs |- *.
  pose proof (lookup_lt_Some _ _ _ Hk) as Hlt.
  apply StronglySorted_app in Hs as (Hx & _ & Hs2).
  inversion_clear Hs2 as [|? ? _ Hm].
  assert (Htake : Forall (λ x, x ≤ m) (take k l)).
  { apply Forall_forall. intros x Hin. apply Hx; [done|left]. }
  rewrite !length_app, !count_app, length_take. simpl length. rewrite length_drop.
  pose proof (count_nonneg (λ x, m ≤ x) (take k l)).
  pose proof (count_nonneg (λ x, x ≤ m) (drop (S k) l)).
  rewrite (count_all (λ x, x ≤ m) (take k l) Htake), length_take.
  change (m :: drop (S k) l) with ([m] ++ drop (S k) l). rewrite !count_app.
  rewrite (count_all (λ x, m ≤ x) (drop (S k) l)) by done.
  rewrite (count_all (λ x, m ≤ x) [m]), (count_all (λ x, x ≤ m) [m]), length_drop
    by (repeat constructor; lia).
  simpl length. lia.
Qed.

Lemma count_mono P Q `{!∀ x, Decision (P x)} `{!∀ x, Decision (Q x)} l :
  (∀ x, P x → Q x) → count P l ≤ count Q l.
Proof.
  intros HPQ. unfold count. induction l as [|x l IH]; [done|].
  destruct (decide (P x)).
  - rewrite !filter_cons_True by auto. simpl. lia.
  - rewrite (filter_cons_False P) by done.
    destruct (decide (Q x)); [rewrite filter_cons_True by done|rewrite filter_cons_False by done]; simpl; lia.
Qed.

Lemma log2_range m : in_range m → 12 ≤ Z.log2 m ≤ 15 ∧ 2 ^ Z.log2 m ≤ m < 2 * 2 ^ Z.log2 m.
Proof.
  unfold in_range, LOWER_TAU, UPPER_TAU. intros Hm. pose proof (Z.log2_spec m ltac:(lia)) as Hl.
  rewrite Z.pow_succ_r in Hl by apply Z.log2_nonneg.
  pose proof (Z.log2_le_mono 4096 m ltac:(lia)). pose proof (Z.log2_le_mono m 32768 ltac:(lia)).
  change (Z.log2 4096) with 12 in *. change (Z.log2 32768) with 15 in *. lia.
Qed.

(** C33: when enough bytes were sent ([boundary] reached), [update_tau_median]
    returns a power of two between [LOWER_TAU] and [UPPER_TAU], doubles the
    boundary and forgets the samples.  The new rate is the median rounded down
    to a power of two: at least half of the samples are no smaller than it and
    more than half are smaller than its double; without samples it is
    [UPPER_TAU]. *)
Theorem update_tau_median_spec tau boundary total g :
  tau_wf g → 0 < boundary < 2 ^ 62 → boundary ≤ total →
  ∃ nt g', update_tau_median tau boundary total g = Ok (nt, 2 * boundary, g') ∧
    tau_wf g' ∧ taus g' = [] ∧
    (∃ k, 12 ≤ k ≤ 15 ∧ nt = 2 ^ k) ∧
    (tau_size g = 0 → nt = UPPER_TAU) ∧
    (0 < tau_size g →
      tau_size g - tau_size g / 2 ≤ count (λ x, nt ≤ x) (taus g) ∧
      tau_size g / 2 + 1 ≤ count (λ x, x < 2 * nt) (taus g)).
Proof.
  intros W Hb Ht. pose proof W as [Htl Hti Hts Htf Htr Hml Hmi Hms Hmf].
  unfold update_tau_median. rewrite (proj2 (Z.ltb_ge _ _) Ht). rsimpl.
  fold (taus g). set (s := qsort (taus g)).
  assert (Hlen : length (taus g) = Z.to_nat (tau_size g))
    by (unfold taus; rewrite length_take; unfold ARRSIZE in *; lia).
  assert (Hslen : length s = Z.to_nat (tau_size g)) by (unfold s; rewrite qsort_perm; done).
  rewrite Z.quot_div_nonneg by lia. rewrite i64_small by lia.
  assert (W' : ∀ arr, length arr = Z.to_nat ARRSIZE →
    tau_wf (g <| tau_arr := arr |> <| tau_size := 0 |> <| tau_index := 0 |>)).
  { intros arr Ha. split; rsimpl; auto; unfold ARRSIZE; lia || done. }
  assert (Hlen' : length (s ++ drop (Z.to_nat (tau_size g)) (tau_arr g)) = Z.to_nat ARRSIZE)
    by (rewrite length_app, length_drop, Hslen; unfold ARRSIZE in *; lia).
  destruct (Z.eqb_spec (tau_size g) 0) as [E|Hne].
  - destruct (lookup_lt_is_Some_2 (s ++ drop (Z.to_nat (tau_size g)) (tau_arr g)) 0) as [x Hx];
      [rewrite Hlen'; unfold ARRSIZE; lia|].
    rewrite (zget_lookup _ _ x); [|apply Z.div_pos; lia|by rewrite E in Hx |- *].
    cbn [mbind outcome_bind]. eexists _, _. split; [f_equal; f_equal; f_equal; lia|]. split; [by apply W'|].
    split_and!; [done | by exists 15 | done | lia].
  - destruct (lookup_lt_is_Some_2 s (Z.to_nat (tau_size g / 2))) as [m Hm].
    { rewrite Hslen. pose proof (Z.div_lt (tau_size g) 2). lia. }
    assert (Hmr : in_range m).
    { assert (m ∈ taus g) as Hin by (rewrite <- qsort_perm; by eapply list_elem_of_lookup_2).
      by apply (proj1 (Forall_forall _ _) Htr). }
    destruct (log2_range m Hmr) as [Hk Hlog].
    rewrite (zget_lookup _ _ m); [|apply Z.div_pos; lia|by apply lookup_app_l_Some].
    cbn [mbind outcome_bind]. unfold pow_floor_log2.
    unfold in_range, LOWER_TAU in Hmr.
    rewrite (proj2 (Z.ltb_ge m 0)), (proj2 (Z.eqb_neq m 0)) by lia. cbn [mbind outcome_bind].
    destruct (sorted_rank s _ m (qsort_sorted _ Htr) Hm) as [Hr1 Hr2].
    pose proof (count_mono (λ x, m ≤ x) (λ x, 2 ^ Z.log2 m ≤ x) s ltac:(cbn; lia)).
    pose proof (count_mono (λ x, x ≤ m) (λ x, x < 2 * 2 ^ Z.log2 m) s ltac:(cbn; lia)).
    unfold s in *. rewrite !(count_perm _ _ _ (qsort_perm _)) in *. rewrite qsort_perm, Hlen in Hr1.
    pose proof (Z.div_pos (tau_size g) 2).
    eexists _, _. split; [f_equal; f_equal; f_equal; lia|]. split; [by apply W'|].
    split_and!; [done | by exists (Z.log2 m) | lia | intros _; lia].
Qed.

Definition demo_g2 : globals :=
  match push_intervals 0 1 0 [5000; 20000; 9000] globals_init with Ok g => g | _ => globals_init end.

Lemma update_tau_median_spec_witness :
  ∃ nt g', update_tau_median 8192 16384 20000 demo_g2 = Ok (nt, 2 * 16384, g') ∧ nt = 8192 ∧
    tau_size demo_g2 - tau_size demo_g2 / 2 ≤ count (λ x, nt ≤ x) (taus demo_g2).
Proof.
  destruct (update_tau_median_spec 8192 16384 20000 demo_g2) as (nt & g' & H & _ & _ & _ & _ & Hc).
  - destruct (push_intervals_spec 0 1 0 [5000; 20000; 9000] globals_init tau_wf_init) as (g & Hg & W & _).
    unfold demo_g2. rewrite Hg. exact W.
  - split; reflexivity.
  - discriminate.
  - exists nt, g'. split; [exact H|]. split; [|apply Hc; reflexivity].
    vm_compute in H. by injection H as <- _.
Defined.

(** *** What the two updates preserve *)

(** The rates the program uses. *)
Definition rate (t : Z) : Prop := ∃ k, 12 ≤ k ≤ 15 ∧ t = 2 ^ k.

Lemma update_tau_interval_wf tss tse sent cl g g' :
  update_tau_interval tss tse sent cl g = Ok g' →
  tau_wf g → time_size g < INT_MAX → tau_wf g' ∧ time_size g' ≤ time_size g.
Proof.
  intros E W Hs. unfold update_tau_interval in E. destruct (tse <=? tss); [by injection E as <-|].
  apply bind_Ok in E as (g1 & E1 & E). apply bind_Ok in E as (ivs & _ & E).
  assert (W1 : tau_wf g1).
  { destruct (0 <? sent); [|by injection E1 as <-].
    destruct (insert_time_times tse g W Hs) as (g2 & H2 & W2 & _). congruence. }
  destruct (reset_times g1 W1) as (W2 & _). pose proof (tw_time_size _ W).
  set (g2 := _ <| time_size := 0 |>) in *. destruct ivs as [|d ivs].
  - destruct (push_tau_spec (clamp_tau (default_tau tss tse cl)) g2 W2 (clamp_tau_range _))
      as (g3 & H3 & W3 & _ & T3 & _). assert (g3 = g') as <- by congruence.
    split; [done|]. rewrite T3. unfold g2. rsimpl. lia.
  - destruct (push_intervals_spec tss tse cl (d :: ivs) g2 W2) as (g3 & H3 & W3 & _ & T3 & _).
    assert (g3 = g') as <- by congruence. split; [done|]. rewrite T3. unfold g2. rsimpl. lia.
Qed.

Lemma insert_time_wf t g g' :
  insert_time t g = Ok g' → tau_wf g → time_size g < INT_MAX → tau_wf g' ∧ time_size g' = time_size g + 1.
Proof.
  intros E W Hs. destruct (insert_time_times t g W Hs) as (g1 & H1 & W1 & _).
  assert (g1 = g') as <- by congruence. split; [done|].
  unfold insert_time in H1. apply bind_Ok in H1 as (ta & _ & [= <-]). rsimpl.
  pose proof (tw_time_size _ W). apply i32_small. unfold INT_MAX in *. lia.
Qed.

Lemma update_tau_median_wf t b total g t' b' g' :
  update_tau_median t b total g = Ok (t', b', g') →
  tau_wf g → rate t → rate t' ∧ tau_wf g' ∧ time_size g' = time_size g.
Proof.
  intros E W Ht. unfold update_tau_median in E. destruct (total <? b); [by injection E as <- <- <-|].
  pose proof W as [Htl Hti Hts Htf Htr Hml Hmi Hms Hmf].
  apply bind_Ok in E as (m & Em & E). apply bind_Ok in E as (m' & Em' & [= <- <- <-]).
  rsimpl_in Em. rsimpl_in Em'. fold (taus g) in Em.
  assert (Hlen : length (qsort (taus g)) = Z.to_nat (tau_size g))
    by (rewrite qsort_perm; unfold taus; rewrite length_take; unfold ARRSIZE in *; lia).
  split_and!; [| |done].
  - destruct (Z.eqb_spec (tau_size g) 0); [injection Em' as <-; by exists 15|].
    rewrite Z.quot_div_nonneg in Em by lia.
    pose proof (Z.div_lt (tau_size g) 2). pose proof (Z.div_pos (tau_size g) 2).
    unfold zget in Em. destruct (_ <? 0); [done|]. rewrite lookup_app_l in Em by lia.
    destruct (qsort (taus g) !! _) eqn:Hm; [|done]. injection Em as ->.
    assert (Hmr : in_range m).
    { assert (m ∈ taus g) as Hin by (rewrite <- qsort_perm; by eapply list_elem_of_lookup_2).
      by apply (proj1 (Forall_forall _ _) Htr). }
    destruct (log2_range m Hmr) as [Hk _]. unfold in_range, LOWER_TAU in Hmr. unfold pow_floor_log2 in Em'.
    rewrite (proj2 (Z.ltb_ge m 0)), (proj2 (Z.eqb_neq m 0)) in Em' by lia. injection Em' as <-.
    by exists (Z.log2 m).
  - split; rsimpl; auto; try (unfold ARRSIZE; lia || done).
    fold (taus g). rewrite length_app, length_drop, Hlen. unfold ARRSIZE in *. lia.
Qed.

(** ** Walking through the super-trace *)

Module Walk.

(** The packets a side sends: positive sizes for [is_pos > 0]. *)
Definition mine (is_pos : Z) (p : STPAIR) : bool := if 0 <? is_pos then 0 <? psize p else psize p <? 0.

Definition skipped (is_pos : Z) : Z → bool := if 0 <? is_pos then (λ s, s <=? 0) else (λ s, 0 <=? s).

Lemma skipped_mine is_pos p : skipped is_pos (psize p) = negb (mine is_pos p).
Proof. unfold skipped, mine. destruct (0 <? is_pos); repeat zcase; done || lia. Qed.

(** A selected trace and a position in it. *)
Record playing (g : globals) (t : ST) : Prop := {
  pl_id : 0 ≤ cluster_id g;
  pl_trace : cur_trace g = Ok t;
  pl_len : tracelen t = Z.of_nat (length (pairs t))
}.

Lemma advance_spec is_pos l : ∀ pre fuel,
  (length l < fuel)%nat →
  match filter (mine is_pos) l with
  | [] => advance fuel (skipped is_pos) (pre ++ l) (Z.of_nat (length (pre ++ l))) (Z.of_nat (length pre))
          = Ok (Z.of_nat (length (pre ++ l)))
  | _ => ∃ l1 p l2, l = l1 ++ p :: l2 ∧ mine is_pos p ∧ filter (mine is_pos) l1 = [] ∧
          advance fuel (skipped is_pos) (pre ++ l) (Z.of_nat (length (pre ++ l))) (Z.of_nat (length pre))
          = Ok (Z.of_nat (length (pre ++ l1)))
  end.
Proof.
  induction l as [|p l IH]; intros pre [|fuel] Hf; simpl length in Hf; try lia.
  - simpl. rewrite app_nil_r, Z.ltb_irrefl. done.
  - assert (Hlt : (Z.of_nat (length pre) <? Z.of_nat (length (pre ++ p :: l))) = true)
      by (rewrite length_app; simpl; zdec; done).
    cbn [advance]. rewrite Hlt, zget_app_mid. cbn [mbind outcome_bind]. rewrite skipped_mine.
    destruct (mine is_pos p) eqn:Hp.
    + rewrite filter_cons_True by (by rewrite Hp). exists [], p, l. rewrite Hp, app_nil_r. done.
    + rewrite filter_cons_False by (rewrite Hp; exact id). cbn [negb].
      specialize (IH (pre ++ [p]) fuel ltac:(lia)). rewrite <- app_assoc in IH. simpl app in IH.
      replace (Z.of_nat (length (pre ++ [p]))) with (Z.of_nat (length pre) + 1) in IH
        by (rewrite length_app; simpl; lia).
      destruct (filter (mine is_pos) l) as [|q r]; [done|].
      destruct IH as (l1 & p' & l2 & -> & H1 & H2 & H3). exists (p :: l1), p', l2.
      split_and!; [done|done| |]; [by rewrite filter_cons_False by (rewrite Hp; exact id)|].
      rewrite H3. by rewrite <- app_assoc.
Qed.

(** One move: the next own packet, or the end. *)
Lemma move_spec is_pos g t :
  playing g t → 0 ≤ st_index g →
  let l := drop (Z.to_nat (st_index g)) (pairs t) in
  match filter (mine is_pos) l with
  | [] => move_to_next_st_item is_pos g = Ok (g <| cur_item := None |> <| st_index := -1 |>)
  | p :: r => ∃ i, move_to_next_st_item is_pos g = Ok (g <| cur_item := Some p |> <| st_index := i |>) ∧
      0 < i ≤ tracelen t ∧ st_index g < i ∧ pairs t !! Z.to_nat (i - 1) = Some p ∧
      filter (mine is_pos) (drop (Z.to_nat i) (pairs t)) = r
  end.
Proof.
  intros [Hid Htr Hlen] Hi l. unfold move_to_next_st_item.
  rewrite (proj2 (Z.ltb_ge (cluster_id g) 0)) by lia. rewrite Htr. cbn [mbind outcome_bind].
  rewrite (proj2 (Z.ltb_ge (st_index g) 0)) by lia. simpl orb.
  destruct (Z.leb_spec (tracelen t) (st_index g)) as [Hend|Hlt].
  { unfold l. rewrite drop_ge by lia. done. }
  set (pre := take (Z.to_nat (st_index g)) (pairs t)).
  assert (Hsplit : pairs t = pre ++ l) by (symmetry; apply take_drop).
  assert (Hpre : Z.of_nat (length pre) = st_index g) by (unfold pre; rewrite length_take; lia).
  replace (if 0 <? is_pos then _ else _) with
    (advance (trace_fuel t) (skipped is_pos) (pairs t) (tracelen t) (st_index g))
    by (unfold skipped; by destruct (0 <? is_pos)).
  pose proof (advance_spec is_pos l pre (trace_fuel t)) as Ha.
  rewrite <- Hsplit, <- Hlen, Hpre in Ha. 
  assert (Hfuel : (length l < trace_fuel t)%nat) by (unfold trace_fuel, l; rewrite length_drop; lia).
  specialize (Ha Hfuel). destruct (filter (mine is_pos) l) as [|q r] eqn:Hf.
  - rewrite Ha. cbn [mbind outcome_bind]. by rewrite Z.ltb_irrefl.
  - destruct Ha as (l1 & p & l2 & El & Hp & H1 & Ha). rewrite Ha. cbn [mbind outcome_bind].
    rewrite El, filter_app, H1, filter_cons_True in Hf by done. simpl in Hf. injection Hf as -> <-.
    assert (Hfull : pairs t = (pre ++ l1) ++ q :: l2) by (by rewrite Hsplit, El, app_assoc).
    assert (Hlt' : Z.of_nat (length (pre ++ l1)) < tracelen t)
      by (rewrite Hlen, Hfull, (length_app (pre ++ l1)); simpl; lia).
    rewrite (proj2 (Z.ltb_lt _ _) Hlt'). 
    assert (Hz : zget (pairs t) (Z.of_nat (length (pre ++ l1))) = Ok q) by (rewrite Hfull; apply zget_app_mid).
    rewrite Hz. cbn [mbind outcome_bind].
    exists (Z.of_nat (length (pre ++ l1)) + 1). split; [done|].
    assert (Hge : st_index g ≤ Z.of_nat (length (pre ++ l1))) by (rewrite length_app; lia).
    split_and!; [lia|lia|lia| |].
    + replace (Z.to_nat _) with (length (pre ++ l1)) by lia. rewrite Hfull. by apply list_lookup_middle.
    + replace (Z.to_nat _) with (length ((pre ++ l1) ++ [q])) by (rewrite (length_app (pre ++ l1)); simpl; lia).
      rewrite Hfull. replace ((pre ++ l1) ++ q :: l2) with (((pre ++ l1) ++ [q]) ++ l2)
        by by rewrite <- (app_assoc (pre ++ l1)).
      by rewrite drop_app_length.
Qed.

(** The items a side goes through by calling [move_to_next_st_item] until
    there is no current item. *)
Fixpoint walk (n : nat) (is_pos : Z) (g : globals) : outcome (list STPAIR) :=
  match n with
  | O => NoFuel
  | S n =>
      g ← move_to_next_st_item is_pos g;
      match cur_item g with
      | None => Ok []
      | Some p => rest ← walk n is_pos g; Ok (p :: rest)
      end
  end.

Lemma walk_spec is_pos t n : ∀ g,
  playing g t → 0 ≤ st_index g →
  (length (filter (mine is_pos) (drop (Z.to_nat (st_index g)) (pairs t))) < n)%nat →
  walk n is_pos g = Ok (filter (mine is_pos) (drop (Z.to_nat (st_index g)) (pairs t))).
Proof.
  induction n as [|n IH]; intros g Hg Hi Hn; [lia|]. cbn [walk].
  pose proof (move_spec is_pos g t Hg Hi) as Hm. cbv zeta in Hm.
  destruct (filter (mine is_pos) (drop (Z.to_nat (st_index g)) (pairs t))) as [|p r].
  - rewrite Hm. done.
  - destruct Hm as (i & -> & Hi' & Hlt & _ & Hr). cbn [mbind outcome_bind]. rsimpl.
    rewrite IH; rsimpl; [|by destruct Hg|lia|by rewrite Hr; simpl in Hn; lia].
    by rewrite Hr.
Qed.

(** from the start of a selected trace, moving to the next item until there
    is none goes through exactly the packets of the own direction, each once
    and in order, skips the blanks and the packets of the other side, and
    terminates. *)
Theorem walk_plays_own_packets is_pos g t :
  playing g t → st_index g = 0 →
  walk (S (length (pairs t))) is_pos g = Ok (filter (mine is_pos) (pairs t)).
Proof.
  intros Hg Hi. rewrite (walk_spec is_pos t); rewrite ?Hi; [done|done|lia|].
  simpl Z.to_nat. rewrite drop_0. pose proof (length_filter (mine is_pos) (pairs t)). lia.
Qed.

Definition demo_trace : ST := mkST 1 4 [mkPair 300 80 6 0; mkPair (-110) 60 8 300; mkPair 0 0 0 0; mkPair 40 0 9 110].
Definition demo_playing : globals :=
  globals_init <| cluster_id := 1 |> <| st_index := 0 |> <| straces := Some [None; Some demo_trace] |>.

Lemma walk_plays_own_packets_witness :
  walk 5 1 demo_playing = Ok [mkPair 300 80 6 0; mkPair 40 0 9 110].
Proof. apply (walk_plays_own_packets 1 demo_playing demo_trace); [split; done || reflexivity|reflexivity]. Defined.

End Walk.

(** ** The URL that selects the cluster *)

Module Url.

Definition no_blank (l : list Z) : Prop := Forall (λ c, c ≠ 32) l.

Lemma copy_url_spec n : ∀ p pre host rest u0 u1,
  p = pre ++ host ++ rest → no_blank host → (length host ≤ n)%nat → (length host ≤ length u1)%nat →
  (length host = n ∨ head rest = Some 32) →
  copy_url n p (Z.of_nat (length pre)) (Z.of_nat (length u0)) (u0 ++ u1)
  = Ok (Z.of_nat (length (pre ++ host)), Z.of_nat (length (u0 ++ host)), u0 ++ host ++ drop (length host) u1).
Proof.
  induction n as [|n IH]; intros p pre host rest u0 u1 -> Hb Hn Hu Hend; simpl.
  - destruct host; [|simpl in Hn; lia]. by rewrite !app_nil_r, drop_0.
  - destruct host as [|c host].
    + destruct Hend as [?|Hr]; [done|]. destruct rest as [|x rest]; [done|]. injection Hr as ->.
      simpl. rewrite zget_app_mid. simpl. by rewrite !app_nil_r, drop_0.
    + inversion_clear Hb as [|? ? Hc Hb']. simpl app. rewrite zget_app_mid. cbn [mbind outcome_bind].
      rewrite (proj2 (Z.eqb_neq c 32)) by done. destruct u1 as [|x u1]; [simpl in Hu; lia|].
      rewrite zset_app_mid. cbn [mbind outcome_bind].
      specialize (IH (pre ++ c :: host ++ rest) (pre ++ [c]) host rest (u0 ++ [c]) u1).
      rewrite <- !app_assoc in IH. simpl app in IH.
      replace (Z.of_nat (length pre) + 1) with (Z.of_nat (length (pre ++ [c])))
        by (rewrite length_app; simpl; lia).
      replace (Z.of_nat (length u0) + 1) with (Z.of_nat (length (u0 ++ [c])))
        by (rewrite length_app; simpl; lia).
      simpl in Hn, Hu. rewrite IH; [done|done|done|lia|lia|]. destruct Hend as [He|He]; [left; simpl in He; lia|by right].
Qed.

Lemma strcpy_spec s : ∀ u0 u1, (length s ≤ length u1)%nat →
  strcpy_at (u0 ++ u1) (Z.of_nat (length u0)) s = Ok (u0 ++ s ++ drop (length s) u1).
Proof.
  induction s as [|c s IH]; intros u0 u1 Hl; simpl; [by rewrite drop_0|].
  destruct u1 as [|x u1]; [simpl in Hl; lia|]. rewrite zset_app_mid. cbn [mbind outcome_bind].
  specialize (IH (u0 ++ [c]) u1). rewrite <- !app_assoc in IH. simpl app in IH.
  replace (Z.of_nat (length u0) + 1) with (Z.of_nat (length (u0 ++ [c]))) by (rewrite length_app; simpl; lia).
  simpl in Hl. by rewrite IH by lia.
Qed.

Lemma until_blank_app host rest : no_blank host → until_blank (host ++ 32 :: rest) = until_blank host.
Proof.
  induction 1 as [|c host Hc Hh IH]; [done|]. simpl. rewrite IH. done.
Qed.
Lemma until_blank_length l : (length (until_blank l) ≤ length l)%nat.
Proof. induction l as [|c l IH]; simpl; [done|]. destruct (_ || _); simpl; lia. Qed.

(** The end of [set_url] when the copied part is [host]. *)
Lemma finish_url host v :
  (length host ≤ 255)%nat → (length host + length v = 257)%nat →
  ∃ v', zset (host ++ v) (Z.of_nat (length host)) 32 ≫= (λ u, zset u (Z.of_nat (length host) + 1) 0)
        = Ok (host ++ 32 :: 0 :: v') ∧ (length v' + 2 + length host = 257)%nat.
Proof.
  intros Hh Hv. destruct v as [|a [|b v]]; simpl in Hv; try lia.
  rewrite zset_app_mid. cbn [mbind outcome_bind].
  replace (Z.of_nat (length host) + 1) with (Z.of_nat (length (host ++ [32]))) by (rewrite length_app; simpl; lia).
  replace (host ++ 32 :: b :: v) with ((host ++ [32]) ++ b :: v) by by rewrite <- app_assoc.
  rewrite zset_app_mid, <- app_assoc. exists v. split; [done|lia].
Qed.

(** [set_url] never writes outside [url]: it stores the bytes up to the
    first blank when there is one among the first 256 bytes, and the default
    URL otherwise (the bytes up to there must be readable).  The stored URL
    always ends in a blank and its host part has at most 255 bytes, so that
    looking it up in a well-formed table cannot overrun [hm_lookup]'s buffer. *)
Theorem set_url_safe p pre host rest g hm :
  length (url g) = 257%nat → hm_wf hm →
  p = pre ++ host ++ rest → no_blank host →
  rest ≠ [] → (length host = 255%nat ∨ (length host ≤ 255)%nat ∧ head rest = Some 32) →
  ∃ g', set_url p (Z.of_nat (length pre)) g = Ok g' ∧ length (url g') = 257%nat ∧
    until_blank (url g') = (if decide (head rest = Some 32) then until_blank host
                            else until_blank google) ∧
    urllen g' = (if decide (head rest = Some 32) then Z.of_nat (length host) + 1 else 15) ∧
    is_Ok (hm_lookup (Some hm) (Some (url g'))).
Proof.
  intros Hu Hwf Hp Hb Hrest Hhost.
  assert (Hle : (length host ≤ 255)%nat) by lia.
  assert (Hlook : ∀ u, (length (until_blank u) ≤ 255)%nat → is_Ok (hm_lookup (Some hm) (Some u))).
  { intros u Hlu. unfold hm_lookup, TMPKEY_SIZE. zdec.
    destruct (wf_bucket hm Hwf (until_blank u)) as [b Hbk].
    pose proof (Z.mod_pos_bound (default_hash (Some (until_blank u))) HMSIZE ltac:(done)).
    rewrite (zget_lookup _ _ b) by (done || lia). by eexists. }
  unfold set_url. pose proof (copy_url_spec 255 p pre host rest [] (url g) Hp Hb) as Hc.
  simpl app in Hc. simpl length in Hc. change (Z.of_nat 0) with 0 in Hc.
  rewrite Hc by (lia || (destruct Hhost as [|[? ?]]; [by left|by right])). cbn [mbind outcome_bind].
  destruct (finish_url host (drop (length host) (url g)) Hle) as (v' & Hf & Hv'); [rewrite length_drop; lia|].
  destruct (zset (host ++ _) _ 32) as [u1| | | | |]; try done. cbn [mbind outcome_bind] in Hf |- *.
  rewrite Hf. cbn [mbind outcome_bind].
  destruct rest as [|c rest]; [done|]. subst p. rewrite app_assoc, zget_app_mid. cbn [mbind outcome_bind].
  destruct (Z.eqb_spec c 32) as [->|Hne]; cbn [negb].
  - destruct (decide (head (32 :: rest) = Some 32)); [|done]. eexists; split; [reflexivity|]. rsimpl.
    split_and!; [rewrite length_app; simpl; lia | by apply until_blank_app | done |].
    apply Hlook. rewrite until_blank_app by done. pose proof (until_blank_length host). lia.
  - destruct (decide (head (c :: rest) = Some 32)) as [E|_]; [simpl in E; congruence|].
    set (u := host ++ _). assert (Hlu : length u = 257%nat) by (unfold u; rewrite length_app; simpl; lia).
    pose proof (strcpy_spec google [] u ltac:(rewrite Hlu; simpl; lia)) as Hs.
    rewrite !app_nil_l in Hs. change (Z.of_nat (length [])) with 0 in Hs. rewrite Hs. cbn [mbind outcome_bind].
    assert (Hset : zset (google ++ drop (length google) u) 15 0 = Ok (google ++ drop (length google) u))
      by (unfold zset; rewrite length_app, length_drop, Hlu; reflexivity).
    rewrite Hset. cbn [mbind outcome_bind].
    eexists; split; [reflexivity|]. rsimpl. split_and!; [rewrite length_app, length_drop, Hlu; done|reflexivity|reflexivity|].
    apply Hlook. simpl. lia.
Qed.

Lemma set_url_safe_witness :
  ∃ g', set_url [1; 119; 46; 97; 32; 7] 1 globals_init = Ok g' ∧ until_blank (url g') = [119; 46; 97].
Proof.
  destruct (set_url_safe [1; 119; 46; 97; 32; 7] [1] [119; 46; 97] [32; 7] globals_init
    (replicate (Z.to_nat HMSIZE) [])) as (g' & H1 & _ & H3 & _).
  - reflexivity.
  - apply hm_wf_empty.
  - reflexivity.
  - repeat (constructor; [discriminate|]). constructor.
  - discriminate.
  - right. split; [simpl; lia|reflexivity].
  - exists g'. split; [exact H1 | exact H3].
Defined.

End Url.

(** [set_first_sent] looks for the next request of the client, but stops at the
    blanks that [refresh_trace] leaves behind a merged burst: here the first
    turn of direction expects 110 bytes, and 0 is recorded. *)
Definition blank_first : globals :=
  Walk.demo_playing <| straces := Some [None; Some (mkST 1 4
    [mkPair 300 80 6 0; mkPair 0 0 0 0; mkPair (-110) 60 8 300; mkPair 40 0 9 110])] |>.
Example set_first_sent_stops_at_blanks :
  ∃ g, set_first_sent blank_first = Ok g ∧ first_sent g = 1 ∧ first_expected g = 0.
Proof. eexists. split; [vm_compute; reflexivity|]. split; reflexivity. Qed.

(** The waiting time of the main loop.  Outside of an idle CS-BuFLO channel
    the write descriptor is polled exactly when the time to write has passed;
    otherwise the timeout is well formed and adds up to the time that is left. *)
Theorem should_set_writefd_timeout now idle ttw g :
  is_u64 now → is_u64 ttw →
  match should_set_writefd now idle ttw g with
  | (1, None) => ttw < now ∧ (stmode g ≠ 0 ∨ idle = 0)
  | (0, Some tv) => 0 ≤ tv_usec tv < 1000000 ∧ 0 ≤ tv_sec tv ∧
      ((stmode g = 0 ∧ idle ≠ 0 ∧ tv_sec tv = 5) ∨ tv_sec tv * 1000000 + tv_usec tv = ttw - now)
  | _ => False
  end.
Proof.
  unfold is_u64, should_set_writefd. intros Hn Ht.
  destruct (Z.eqb_spec (stmode g) 0), (Z.eqb_spec idle 0); simpl; try (split_and!; lia || (left; lia)).
  all: destruct (Z.ltb_spec ttw now); [lia|]; simpl.
  all: pose proof (Z.div_mod (ttw - now) 1000000 ltac:(lia)); pose proof (Z.mod_pos_bound (ttw - now) 1000000 ltac:(lia));
    pose proof (Z.div_pos (ttw - now) 1000000 ltac:(lia) ltac:(lia)); lia.
Qed.

Lemma should_set_writefd_timeout_witness :
  should_set_writefd 5 0 3000009 globals_init = (0, Some (mkTv 3 4)) ∧ 3 * 1000000 + 4 = 3000009 - 5.
Proof.
  pose proof (should_set_writefd_timeout 5 0 3000009 globals_init ltac:(split; done) ltac:(split; done)) as H.
  split; [reflexivity|]. simpl in H. destruct H as (_ & _ & [(H & _)|H]); [discriminate H|exact H].
Defined.
