(* ===== verification/CipherMac.v ===== *)
(** * Ciphers, MACs and compression ([cipher.c], [mac.c], [compress.c])

    OpenSSL's EVP and HMAC and zlib are libraries, not part of the repository.
    The primitives that the repository has itself ([umac.c], [cipher-ctr.c],
    [cipher-3des1.c], [cipher-bf1.c]) are called through the same interfaces
    and are abstracted in the same way: all are the operations of the class
    [Crypto], one per call.  What the protocol needs of them is the class
    [CryptoLaws]: a cipher context and its peer invert each other, block-wise
    calls compose, lengths are preserved, a digest has its nominal size.
    [Toy] is an instance that satisfies the laws. *)

From S2P Require Import Prelude ByteOrder Buffer.
From Stdlib Require Import Ascii.

(** The cipher implementations the table of [cipher.c] names. *)
Inductive evp_type :=
| EVP_enc_null | EVP_des_cbc | evp_ssh1_3des | evp_ssh1_bf | EVP_des_ede3_cbc | EVP_bf_cbc
| EVP_cast5_cbc | EVP_rc4 | EVP_aes_128_cbc | EVP_aes_192_cbc | EVP_aes_256_cbc | evp_aes_128_ctr.

(** The digests the table of [mac.c] names. *)
Inductive evp_md_type := EVP_sha1 | EVP_sha256 | EVP_sha384 | EVP_sha512 | EVP_md5 | EVP_ripemd160.

(** zlib's results. *)
Definition Z_OK : Z := 0.
Definition Z_BUF_ERROR : Z := -5.

Class Crypto := {
  evp : Type;                         (* EVP_CIPHER_CTX *)
  EVP_CipherInit : evp_type → option (list Z) → bool → option evp;
  EVP_CIPHER_CTX_key_length : evp → Z;
  EVP_CIPHER_CTX_set_key_length : evp → Z → option evp;
  EVP_CipherInit_key : evp → list Z → option evp;
  EVP_Cipher : evp → list Z → option (list Z * evp);
  EVP_MD_size : evp_md_type → Z;
  HMAC : evp_md_type → list Z → list Z → list Z;     (* key, message *)
  umac : list Z → list Z → list Z → list Z;          (* key, message, nonce *)
  z_stream : Type;
  deflateInit : Z → z_stream;
  inflateInit : z_stream;
  (* status, output and unread input for an input and the size of the output area *)
  deflate : z_stream → list Z → Z → Z * list Z * list Z * z_stream;
  inflate : z_stream → list Z → Z → Z * list Z * list Z * z_stream
}.

(** ** [cipher.c] *)

Definition SSH_CIPHER_SSH2 : Z := -3.
Definition SSH_CIPHER_NONE : Z := 0.
Definition SSH_CIPHER_DES : Z := 2.
Definition SSH_CIPHER_3DES : Z := 3.
Definition SSH_CIPHER_BLOWFISH : Z := 6.

Record Cipher := mkCipher {
  c_name : string;
  c_number : Z;
  c_block_size : Z;
  c_key_len : Z;
  c_discard_len : Z;
  c_cbc_mode : Z;
  c_evptype : evp_type
}.

(** The table, without its NULL terminator and without the optional ACSS. *)
Definition ciphers : list Cipher := [
  mkCipher "none" SSH_CIPHER_NONE 8 0 0 0 EVP_enc_null;
  mkCipher "des" SSH_CIPHER_DES 8 8 0 1 EVP_des_cbc;
  mkCipher "3des" SSH_CIPHER_3DES 8 16 0 1 evp_ssh1_3des;
  mkCipher "blowfish" SSH_CIPHER_BLOWFISH 8 32 0 1 evp_ssh1_bf;
  mkCipher "3des-cbc" SSH_CIPHER_SSH2 8 24 0 1 EVP_des_ede3_cbc;
  mkCipher "blowfish-cbc" SSH_CIPHER_SSH2 8 16 0 1 EVP_bf_cbc;
  mkCipher "cast128-cbc" SSH_CIPHER_SSH2 8 16 0 1 EVP_cast5_cbc;
  mkCipher "arcfour" SSH_CIPHER_SSH2 8 16 0 0 EVP_rc4;
  mkCipher "arcfour128" SSH_CIPHER_SSH2 8 16 1536 0 EVP_rc4;
  mkCipher "arcfour256" SSH_CIPHER_SSH2 8 32 1536 0 EVP_rc4;
  mkCipher "aes128-cbc" SSH_CIPHER_SSH2 16 16 0 1 EVP_aes_128_cbc;
  mkCipher "aes192-cbc" SSH_CIPHER_SSH2 16 24 0 1 EVP_aes_192_cbc;
  mkCipher "aes256-cbc" SSH_CIPHER_SSH2 16 32 0 1 EVP_aes_256_cbc;
  mkCipher "rijndael-cbc@lysator.liu.se" SSH_CIPHER_SSH2 16 32 0 1 EVP_aes_256_cbc;
  mkCipher "aes128-ctr" SSH_CIPHER_SSH2 16 16 0 0 evp_aes_128_ctr;
  mkCipher "aes192-ctr" SSH_CIPHER_SSH2 16 24 0 0 evp_aes_128_ctr;
  mkCipher "aes256-ctr" SSH_CIPHER_SSH2 16 32 0 0 evp_aes_128_ctr ].

Definition cipher_blocksize (c : Cipher) : Z := c_block_size c.
Definition cipher_keylen (c : Cipher) : Z := c_key_len c.
Definition cipher_get_number (c : Cipher) : Z := u32 (c_number c).
Definition cipher_is_cbc (c : Cipher) : Z := c_cbc_mode c.

Definition cipher_mask_ssh1 (client : Z) : Z :=
  let mask := Z.lor (Z.shiftl 1 SSH_CIPHER_3DES) (Z.shiftl 1 SSH_CIPHER_BLOWFISH) in
  if negb (client =? 0) then Z.lor mask (Z.shiftl 1 SSH_CIPHER_DES) else mask.

(** The table loops: the first entry that satisfies the test. *)
Fixpoint first_such {A} (f : A → bool) (l : list A) : option A :=
  match l with
  | x :: l => if f x then Some x else first_such f l
  | [] => None
  end.

Definition cipher_by_name (name : string) : option Cipher :=
  first_such (λ c, String.eqb (c_name c) name) ciphers.
Definition cipher_by_number (id : Z) : option Cipher :=
  first_such (λ c, c_number c =? id) ciphers.

(** [strsep(&cp, ",")] repeated until the first empty token. *)
Fixpoint tokens_loop (s : string) (cur : string) : list string :=
  match s with
  | EmptyString => [cur]
  | String c s' => if Ascii.eqb c "," then cur :: tokens_loop s' EmptyString
                   else tokens_loop s' (String.append cur (String c EmptyString))
  end.
Definition tokens (s : string) : list string := tokens_loop s EmptyString.
Fixpoint until_empty (l : list string) : list string :=
  match l with
  | t :: l => if String.eqb t EmptyString then [] else t :: until_empty l
  | [] => []
  end.

Definition ciphers_valid (names : option string) : Z :=
  match names with
  | None => 0
  | Some names =>
      if String.eqb names EmptyString then 0
      else b2z (forallb (λ p, match cipher_by_name p with
                              | Some c => c_number c =? SSH_CIPHER_SSH2
                              | None => false
                              end) (until_empty (tokens names)))
  end.

Definition to_lower (c : ascii) : ascii :=
  let n := nat_of_ascii c in
  if (Nat.leb 65 n && Nat.leb n 90)%bool then ascii_of_nat (n + 32) else c.
Fixpoint strcaseeq (a b : string) : bool :=
  match a, b with
  | EmptyString, EmptyString => true
  | String x a, String y b => Ascii.eqb (to_lower x) (to_lower y) && strcaseeq a b
  | _, _ => false
  end.

Definition cipher_number (name : option string) : Z :=
  match name with
  | None => -1
  | Some name =>
      match first_such (λ c, strcaseeq (c_name c) name) ciphers with
      | Some c => c_number c
      | None => -1
      end
  end.

Definition cipher_name (id : Z) : string :=
  match cipher_by_number id with Some c => c_name c | None => "<unknown>" end.

Section WithCrypto.
Context `{Crypto}.

Record CipherContext := mkCC {
  plaintext : bool;
  cc_evp : evp;
  cc_cipher : Cipher
}.

(** [cipher_init], without the logging of the weak DES warning. *)
Definition cipher_init (cipher : Cipher) (key : list Z) (keylen : Z) (iv : option (list Z))
    (ivlen : Z) (do_encrypt : bool) : outcome CipherContext :=
  let keylen := if (c_number cipher =? SSH_CIPHER_DES) && (8 <? keylen) then 8 else keylen in
  if keylen <? c_key_len cipher then Fatal "cipher_init: key length is insufficient"
  else if (if iv is Some _ then true else false) && (ivlen <? c_block_size cipher)
  then Fatal "cipher_init: iv length is insufficient"
  else
    match EVP_CipherInit (c_evptype cipher) iv do_encrypt with
    | None => Fatal "cipher_init: EVP_CipherInit failed"
    | Some e =>
        let klen := EVP_CIPHER_CTX_key_length e in
        let e' := if (0 <? klen) && negb (keylen =? klen)
                  then EVP_CIPHER_CTX_set_key_length e keylen else Some e in
        match e' with
        | None => Fatal "cipher_init: set keylen failed"
        | Some e =>
            match EVP_CipherInit_key e key with
            | None => Fatal "cipher_init: EVP_CipherInit: set key failed"
            | Some e =>
                let cc e := mkCC (c_number cipher =? SSH_CIPHER_NONE) e cipher in
                if 0 <? c_discard_len cipher then
                  match EVP_Cipher e (replicate (Z.to_nat (c_discard_len cipher)) 0) with
                  | None => Fatal "evp_crypt: EVP_Cipher failed during discard"
                  | Some (_, e) => Ok (cc e)
                  end
                else Ok (cc e)
            end
        end
    end.

Definition cipher_crypt (cc : CipherContext) (src : list Z) : outcome (list Z * CipherContext) :=
  if negb (Z.of_nat (length src) mod c_block_size (cc_cipher cc) =? 0)
  then Fatal "cipher_encrypt: bad plaintext length"
  else
    match EVP_Cipher (cc_evp cc) src with
    | None => Fatal "evp_crypt: EVP_Cipher failed"
    | Some (dst, e) => Ok (dst, mkCC (plaintext cc) e (cc_cipher cc))
    end.

End WithCrypto.

(** ** [mac.c] *)

Definition SSH_EVP : Z := 1.
Definition SSH_UMAC : Z := 2.
Definition EVP_MAX_MD_SIZE : Z := 64.

Record mac_entry := mkMacEntry {
  m_name : string;
  m_type : Z;
  m_mdfunc : option evp_md_type;
  m_truncatebits : Z;
  m_key_len : Z;
  m_len : Z
}.

Definition macs : list mac_entry := [
  mkMacEntry "hmac-sha1" SSH_EVP (Some EVP_sha1) 0 (-1) (-1);
  mkMacEntry "hmac-sha1-96" SSH_EVP (Some EVP_sha1) 96 (-1) (-1);
  mkMacEntry "hmac-sha2-256" SSH_EVP (Some EVP_sha256) 0 (-1) (-1);
  mkMacEntry "hmac-sha2-256-96" SSH_EVP (Some EVP_sha256) 96 (-1) (-1);
  mkMacEntry "hmac-sha2-512" SSH_EVP (Some EVP_sha512) 0 (-1) (-1);
  mkMacEntry "hmac-sha2-512-96" SSH_EVP (Some EVP_sha512) 96 (-1) (-1);
  mkMacEntry "hmac-md5" SSH_EVP (Some EVP_md5) 0 (-1) (-1);
  mkMacEntry "hmac-md5-96" SSH_EVP (Some EVP_md5) 96 (-1) (-1);
  mkMacEntry "hmac-ripemd160" SSH_EVP (Some EVP_ripemd160) 0 (-1) (-1);
  mkMacEntry "hmac-ripemd160@openssh.com" SSH_EVP (Some EVP_ripemd160) 0 (-1) (-1);
  mkMacEntry "umac-64@openssh.com" SSH_UMAC None 0 128 64 ].

(** [struct Mac]; [evp_ctx] and [umac_ctx] hold the key they were set up with. *)
Record Mac := mkMac {
  mac_name : string;
  mac_enabled : Z;
  mac_len : Z;
  mac_key : option (list Z);
  mac_key_len : Z;
  mac_type : Z;
  mac_evp_md : option evp_md_type;
  mac_evp_ctx : option (evp_md_type * list Z);
  mac_umac_ctx : option (list Z)
}.
#[export] Instance eta_Mac : Eta Mac := λ m,
  {| mac_name := mac_name m; mac_enabled := mac_enabled m; mac_len := mac_len m;
     mac_key := mac_key m; mac_key_len := mac_key_len m; mac_type := mac_type m;
     mac_evp_md := mac_evp_md m; mac_evp_ctx := mac_evp_ctx m; mac_umac_ctx := mac_umac_ctx m |}.

Section WithCryptoMac.
Context `{Crypto}.

Definition mac_setup_by_id (m : Mac) (e : mac_entry) : outcome Mac :=
  let m := m <| mac_type := m_type e |> in
  m ← (if m_type e =? SSH_EVP then
         match m_mdfunc e with
         | None => Fault
         | Some md =>
             let m := m <| mac_evp_md := Some md |> in
             if EVP_MD_size md <=? 0 then Fatal "mac len"
             else Ok (m <| mac_key_len := EVP_MD_size md |> <| mac_len := EVP_MD_size md |>)
         end
       else Ok (m <| mac_len := m_len e / 8 |> <| mac_key_len := m_key_len e / 8 |>
                  <| mac_umac_ctx := None |>));
  Ok (if negb (m_truncatebits e =? 0) then m <| mac_len := m_truncatebits e / 8 |> else m).

(** [None] as the first argument is the NULL of [mac_valid]. *)
Definition mac_setup (m : option Mac) (name : string) : outcome (Z * option Mac) :=
  match first_such (λ e, String.eqb name (m_name e)) macs with
  | None => Ok (-1, m)
  | Some e =>
      match m with
      | None => Ok (0, None)
      | Some m => m ← mac_setup_by_id m e; Ok (0, Some m)
      end
  end.

Definition mac_init (m : Mac) : outcome (Z * Mac) :=
  match mac_key m with
  | None => Fatal "mac_init: no key"
  | Some key =>
      if mac_type m =? SSH_EVP then
        match mac_evp_md m with
        | None => Ok (-1, m)
        | Some md => Ok (0, m <| mac_evp_ctx := Some (md, take (Z.to_nat (mac_key_len m)) key) |>)
        end
      else if mac_type m =? SSH_UMAC then Ok (0, m <| mac_umac_ctx := Some key |>)
      else Ok (-1, m)
  end.

(** The result is what the static array [m] holds. *)
Definition mac_compute (m : Mac) (seqno : Z) (data : list Z) : outcome (list Z) :=
  if EVP_MAX_MD_SIZE <? mac_len m then Fatal "mac_compute: mac too long"
  else if mac_type m =? SSH_EVP then
    match mac_evp_ctx m with
    | None => Fault
    | Some (md, key) => Ok (HMAC md key (put_u32 seqno ++ data))
    end
  else if mac_type m =? SSH_UMAC then
    match mac_umac_ctx m with
    | None => Fault
    | Some key => Ok (umac key data (put_u64 seqno))
    end
  else Fatal "mac_compute: unknown MAC type".

Definition mac_clear (m : Mac) : Mac :=
  let m := if mac_type m =? SSH_UMAC then m
           else if mac_evp_md m is Some _ then m <| mac_evp_ctx := None |> else m in
  m <| mac_evp_md := None |> <| mac_umac_ctx := None |>.

Definition mac_valid (names : option string) : outcome Z :=
  match names with
  | None => Ok 0
  | Some names =>
      if String.eqb names EmptyString then Ok 0
      else Ok (b2z (forallb (λ p, match mac_setup None p with
                                  | Ok (r, _) => 0 <=? r | _ => false end)
                            (until_empty (tokens names))))
  end.

(** ** [compress.c] *)

(** The [do ... while (avail_out == 0)] loop of [buffer_compress]. *)
Fixpoint compress_loop (fuel : nat) (st : z_stream) (input : list Z) (out : Buffer)
    : outcome (Buffer * z_stream) :=
  match fuel with
  | O => NoFuel
  | S fuel =>
      let '(((status, data), input), st) := deflate st input 4096 in
      if status =? Z_OK then
        out ← buffer_append out data;
        if 4096 - Z.of_nat (length data) =? 0 then compress_loop fuel st input out else Ok (out, st)
      else Fatal "buffer_compress: deflate failed"
  end.

(** Each round but the last appends 4096 bytes, and the buffer holds no more
    than [BUFFER_MAX_LEN]. *)
Definition zlib_fuel : nat := S (Z.to_nat (BUFFER_MAX_LEN / 4096)).

Definition buffer_compress (input out : Buffer) (st : z_stream) : outcome (Buffer * z_stream) :=
  if buffer_len input =? 0 then Ok (out, st)
  else compress_loop zlib_fuel st (contents input) out.

(** The loop of [buffer_uncompress]. *)
Fixpoint uncompress_loop (fuel : nat) (st : z_stream) (input : list Z) (out : Buffer)
    : outcome (Buffer * z_stream) :=
  match fuel with
  | O => NoFuel
  | S fuel =>
      let '(((status, data), input), st) := inflate st input 4096 in
      if status =? Z_OK then
        out ← buffer_append out data;
        uncompress_loop fuel st input out
      else if status =? Z_BUF_ERROR then Ok (out, st)
      else Fatal "buffer_uncompress: inflate failed"
  end.

(** Every round that returns [Z_OK] reads or writes at least one byte. *)
Definition buffer_uncompress (input out : Buffer) (st : z_stream) : outcome (Buffer * z_stream) :=
  uncompress_loop (S (Z.to_nat BUFFER_MAX_LEN + length (contents input))) st (contents input) out.

(** [level] is checked before [deflateInit]. *)
Definition buffer_compress_init_send (level : Z) : outcome z_stream :=
  if (level <? 1) || (9 <? level) then Fatal "Bad compression level"
  else Ok (deflateInit level).
Definition buffer_compress_init_recv : z_stream := inflateInit.

End WithCryptoMac.

(** ** What the protocol relies on *)

Class CryptoLaws `{Crypto} := {
  (* [paired bs e d]: [d] decrypts what [e] encrypts, in blocks of [bs] bytes *)
  paired : Z → evp → evp → Prop;
  evp_roundtrip : ∀ bs e d l,
    paired bs e d → Z.of_nat (length l) mod bs = 0 → bytes l →
    ∃ c e' d', EVP_Cipher e l = Some (c, e') ∧ EVP_Cipher d c = Some (l, d') ∧
      length c = length l ∧ bytes c ∧ paired bs e' d';
  evp_split : ∀ bs e d a b x d',
    paired bs e d → Z.of_nat (length a) mod bs = 0 → Z.of_nat (length b) mod bs = 0 →
    EVP_Cipher d (a ++ b) = Some (x, d') →
    ∃ x1 x2 d1, EVP_Cipher d a = Some (x1, d1) ∧ EVP_Cipher d1 b = Some (x2, d') ∧
      x = x1 ++ x2 ∧ length x1 = length a;
  evp_length : ∀ e l c e', EVP_Cipher e l = Some (c, e') → length c = length l;
  md_size_pos : ∀ md, 0 < EVP_MD_size md ≤ EVP_MAX_MD_SIZE;
  hmac_digest : ∀ md k m, Z.of_nat (length (HMAC md k m)) = EVP_MD_size md ∧ bytes (HMAC md k m);
  umac_digest : ∀ k m n, length (umac k m n) = 8%nat ∧ bytes (umac k m n)
}.

(** A key stream that counts: every law holds, so the theorems that assume the
    laws are not vacuous, and the witnesses can be evaluated. *)
Module Toy.

Fixpoint xor_stream (k : Z) (l : list Z) : list Z :=
  match l with
  | x :: l => Z.lxor x (k mod 256) :: xor_stream (k + 1) l
  | [] => []
  end.

#[export] Instance toy_crypto : Crypto := {|
  evp := Z;
  EVP_CipherInit _ _ _ := Some 0;
  EVP_CIPHER_CTX_key_length _ := 0;
  EVP_CIPHER_CTX_set_key_length e _ := Some e;
  EVP_CipherInit_key _ key := Some (foldr Z.add 7 key);
  EVP_Cipher k l := Some (xor_stream k l, k + Z.of_nat (length l));
  EVP_MD_size md := match md with EVP_sha256 => 32 | EVP_sha512 => 64 | EVP_md5 => 16 | _ => 20 end;
  HMAC md key msg :=
    replicate (match md with EVP_sha256 => 28 | EVP_sha512 => 60 | EVP_md5 => 12 | _ => 16 end) 0 ++ put_u32 (foldl (λ a x, u32 (31 * a + x)) 17 (key ++ msg));
  umac key msg nonce := replicate 4 0 ++ put_u32 (foldl (λ a x, u32 (31 * a + x)) 17 (key ++ nonce ++ msg));
  z_stream := unit;
  deflateInit _ := tt;
  inflateInit := tt;
  deflate st input n := (Z_OK, take (Z.to_nat n) input, drop (Z.to_nat n) input, st);
  inflate st input n := (if Nat.eqb (length input) 0 then Z_BUF_ERROR else Z_OK,
                         take (Z.to_nat n) input, drop (Z.to_nat n) input, st)
|}.

Lemma xor_stream_length k l : length (xor_stream k l) = length l.
Proof. revert k. induction l; intros k; simpl; congruence. Qed.
Lemma xor_stream_inv k l : xor_stream k (xor_stream k l) = l.
Proof.
  revert k. induction l as [|x l IH]; intros k; simpl; [done|].
  by rewrite Z.lxor_assoc, Z.lxor_nilpotent, Z.lxor_0_r, IH.
Qed.
Lemma xor_stream_app k a b : xor_stream k (a ++ b) = xor_stream k a ++ xor_stream (k + Z.of_nat (length a)) b.
Proof.
  revert k. induction a as [|x a IH]; intros k; simpl; [by rewrite Z.add_0_r|].
  rewrite IH. do 3 f_equal. lia.
Qed.
Lemma xor_stream_bytes k l : bytes l → bytes (xor_stream k l).
Proof.
  intros Hl. revert k. induction Hl as [|x l Hx Hl IH]; intros k; simpl; constructor; [|apply IH].
  unfold is_u8 in *. pose proof (Z.mod_pos_bound k 256 ltac:(lia)).
  apply (lxor_lt_pow2 8); lia.
Qed.

#[export] Instance toy_laws : CryptoLaws.
Proof.
  refine {| paired bs (e d : @evp toy_crypto) := e = d |}.
  - intros bs e d l -> _ Hl. exists (xor_stream d l), (d + Z.of_nat (length l)), (d + Z.of_nat (length l)).
    simpl. rewrite xor_stream_inv, xor_stream_length. split_and!; auto. by apply xor_stream_bytes.
  - intros bs e d a b x d' -> _ _ [= <- <-]. exists (xor_stream d a), (xor_stream (d + Z.of_nat (length a)) b), (d + Z.of_nat (length a)).
    simpl. rewrite length_app, Nat2Z.inj_add, Z.add_assoc, xor_stream_length.
    split_and!; [done..| |done]. apply xor_stream_app.
  - intros e l c e' [= <- _]. apply xor_stream_length.
  - intros []; split; vm_compute; done.
  - intros md k m. split; [by destruct md|]. apply Forall_app. split; [|apply put_u32_bytes].
    apply Forall_replicate. done.
  - intros k m n. split; [done|]. apply Forall_app. split; [|apply put_u32_bytes].
    repeat constructor; lia.
Defined.

End Toy.
