(* ===== verification/Packet.v ===== *)
(** * The packet layer: state and sending ([packet.c])

    [session_state] is the C structure of the same name; [ssh] is everything a
    packet function can touch: the active and the backup session, the CS-BuFLO
    variables, the file-level variables of [packet.c], the keys that the key
    exchange has ready, the two zlib streams, and the environment: clock,
    random numbers, fill level of the TCP queue and results of [write] are
    arbitrary sequences that the state consumes.  [wire] records every call of
    [roaming_write]: the length asked for and the bytes that went out. *)

From S2P Require Import Prelude ByteOrder Buffer Crc32 Deattack Stdio SuperTrace HashMap Csbuflo CipherMac.

(** Protocol constants ([ssh1.h], [ssh2.h], [kex.h], [compat.h]). *)
Definition PACKET_MAX_SIZE : Z := 256 * 1024.
Definition SSH_MSG_NONE : Z := 0.
Definition SSH_MSG_IGNORE : Z := 32.
Definition SSH2_MSG_DISCONNECT : Z := 1.
Definition SSH2_MSG_IGNORE : Z := 2.
Definition SSH2_MSG_UNIMPLEMENTED : Z := 3.
Definition SSH2_MSG_DEBUG : Z := 4.
Definition SSH2_MSG_KEXINIT : Z := 20.
Definition SSH2_MSG_NEWKEYS : Z := 21.
Definition SSH2_MSG_USERAUTH_SUCCESS : Z := 52.
Definition SSH2_MSG_TRANSPORT_MIN : Z := 1.
Definition SSH2_MSG_TRANSPORT_MAX : Z := 49.
Definition SSH2_MSG_MIN : Z := 1.
Definition SSH2_MSG_LOCAL_MIN : Z := 192.
(** The notifications have the same numbers in both protocol versions. *)
Definition MSG_NOTIFY_ONLOAD : Z := 200.
Definition MSG_NOTIFY_UNLOAD : Z := 201.
Definition MSG_NOTIFY_PADDINGDONE : Z := 202.
Definition MSG_NOTIFY_URL : Z := 203.
Definition MSG_NOTIFY_SYNC : Z := 204.
Definition MSG_NOTIFY_TEND : Z := 205.
Definition MSG_NOTIFY_NORMAL : Z := 206.
Definition MSG_NOTIFY_URLACK : Z := 207.
Definition COMP_ZLIB : Z := 1.
Definition COMP_DELAYED : Z := 2.
Definition SSH_BUG_NOREKEY : Z := 0x8000.
Definition MAX_PACKETS : Z := 2 ^ 31.

Inductive mode := MODE_IN | MODE_OUT.

Record packet_state := mkPS { seqnr : Z; packets : Z; blocks : Z; pbytes : Z }.
#[export] Instance eta_packet_state : Eta packet_state := λ p,
  {| seqnr := seqnr p; packets := packets p; blocks := blocks p; pbytes := pbytes p |}.

(** [struct Enc], [struct Comp], [struct Newkeys] of [kex.h]. *)
Record Enc := mkEnc {
  enc_cipher : Cipher; enc_key_len : Z; enc_block_size : Z; enc_key : list Z; enc_iv : list Z
}.
Record Comp := mkComp { comp_type : Z; comp_enabled : Z }.
#[export] Instance eta_Comp : Eta Comp := λ c,
  {| comp_type := comp_type c; comp_enabled := comp_enabled c |}.
Record Newkeys := mkNewkeys { nk_enc : Enc; nk_mac : Mac; nk_comp : Comp }.
#[export] Instance eta_Newkeys : Eta Newkeys := λ n,
  {| nk_enc := nk_enc n; nk_mac := nk_mac n; nk_comp := nk_comp n |}.

(** The result of [write]: the room there was for data and [roaming_write]'s
    [cont], a temporary error, or another error. *)
Inductive write_res := Wrote (room : Z) (cont : bool) | WBlock | WError.

(** Sequences of answers of the system, and the contents of the two files. *)
Record env := mkEnv {
  e_time : nat → Z;
  e_rand : nat → Z;
  e_outq : nat → Z;
  e_write : nat → write_res;
  e_clusters : option (list Z);
  e_st : option (list Z)
}.

Section Packet.
Context `{Crypto}.

Record session_state := mkSession {
  connection_in : Z;
  connection_out : Z;
  remote_protocol_flags : Z;
  receive_context : option CipherContext;   (* None: not initialised *)
  send_context : option CipherContext;
  input : Buffer;
  output : Buffer;
  outgoing_packet : Buffer;
  incoming_packet : Buffer;
  compression_buffer : Buffer;
  compression_buffer_ready : Z;
  packet_compression : Z;
  max_packet_size : Z;
  initialized : Z;
  interactive_mode : Z;
  server_side : Z;
  after_authentication : Z;
  keep_alive_timeouts : Z;
  packet_timeout_ms : Z;
  newkeys_in : option Newkeys;
  newkeys_out : option Newkeys;
  p_read : packet_state;
  p_send : packet_state;
  max_blocks_in : Z;
  max_blocks_out : Z;
  rekey_limit : Z;
  ssh1_key : list Z;
  ssh1_keylen : Z;
  extra_pad : Z;
  packet_discard : Z;
  packet_discard_mac : option Mac;
  packlen : Z;
  rekeying : Z;
  set_interactive_called : Z;
  set_maxsize_called : Z;
  outgoing : list (Z * Buffer)
}.
#[export] Instance eta_session : Eta session_state := λ s,
  {| connection_in := connection_in s; connection_out := connection_out s;
     remote_protocol_flags := remote_protocol_flags s; receive_context := receive_context s;
     send_context := send_context s; input := input s; output := output s;
     outgoing_packet := outgoing_packet s; incoming_packet := incoming_packet s;
     compression_buffer := compression_buffer s;
     compression_buffer_ready := compression_buffer_ready s;
     packet_compression := packet_compression s; max_packet_size := max_packet_size s;
     initialized := initialized s; interactive_mode := interactive_mode s;
     server_side := server_side s; after_authentication := after_authentication s;
     keep_alive_timeouts := keep_alive_timeouts s; packet_timeout_ms := packet_timeout_ms s;
     newkeys_in := newkeys_in s; newkeys_out := newkeys_out s; p_read := p_read s;
     p_send := p_send s; max_blocks_in := max_blocks_in s; max_blocks_out := max_blocks_out s;
     rekey_limit := rekey_limit s; ssh1_key := ssh1_key s; ssh1_keylen := ssh1_keylen s;
     extra_pad := extra_pad s; packet_discard := packet_discard s;
     packet_discard_mac := packet_discard_mac s; packlen := packlen s; rekeying := rekeying s;
     set_interactive_called := set_interactive_called s;
     set_maxsize_called := set_maxsize_called s; outgoing := outgoing s |}.

Record ssh := mkSsh {
  st : session_state;
  backup_state : option session_state;
  g : globals;
  compat20 : bool;
  datafellows : Z;
  packet_tau : Z;
  packet_time_to_write : Z;
  current_keys_in : option Newkeys;
  current_keys_out : option Newkeys;
  outgoing_stream : z_stream;
  incoming_stream : z_stream;
  attack_table : deattack;
  wire : list (Z * list Z);
  world : env;
  n_time : nat;
  n_rand : nat;
  n_outq : nat;
  n_write : nat
}.
#[export] Instance eta_ssh : Eta ssh := λ s,
  {| st := st s; backup_state := backup_state s; g := g s; compat20 := compat20 s;
     datafellows := datafellows s; packet_tau := packet_tau s;
     packet_time_to_write := packet_time_to_write s; current_keys_in := current_keys_in s;
     current_keys_out := current_keys_out s; outgoing_stream := outgoing_stream s;
     incoming_stream := incoming_stream s; attack_table := attack_table s; wire := wire s; world := world s;
     n_time := n_time s; n_rand := n_rand s; n_outq := n_outq s; n_write := n_write s |}.

(** ** Access to the state *)

Definition getS {A} (f : session_state → A) : M ssh A := gets (λ s, f (st s)).
Definition getG {A} (f : globals → A) : M ssh A := gets (λ s, f (g s)).
Definition modS (f : session_state → session_state) : M ssh unit := modify (λ s, s <| st := f (st s) |>).
Definition modG (f : globals → globals) : M ssh unit := modify (λ s, s <| g := f (g s) |>).

(** Apply a buffer function to one of the session's buffers. *)
Definition on_buf (p : session_state → Buffer) `{!Updater p} (f : Buffer → outcome Buffer) : M ssh unit :=
  b ← getS p; b ← liftO (f b); modS (upd p b).
Definition on_buf_get {A} (p : session_state → Buffer) `{!Updater p}
    (f : Buffer → outcome (A * Buffer)) : M ssh A :=
  b ← getS p; '(a, b) ← liftO (f b); _ ← modS (upd p b); mret a.

Definition get_current_time_usecs : M ssh Z := λ s,
  Ok (u64 (e_time (world s) (n_time s)), s <| n_time := S (n_time s) |>).
Definition arc4random : M ssh Z := λ s,
  Ok (u32 (e_rand (world s) (n_rand s)), s <| n_rand := S (n_rand s) |>).

Definition fatal {A} (msg : string) : M ssh A := λ _, Fatal msg.
(** [packet_disconnect] sends a last message, closes the connection and exits. *)
Definition packet_disconnect {A} (msg : string) : M ssh A := λ _, Disconnect msg.
Definition cleanup_exit {A} (code : Z) : M ssh A := λ _, Exit code.
Definition fault {A} : M ssh A := λ _, Fault.

(** The byte at [buffer_ptr(b) + i], and writing bytes there. *)
Definition peek (b : Buffer) (i : Z) : outcome Z := zget (buffer_ptr b) i.
Definition poke (b : Buffer) (i : Z) (data : list Z) : outcome Buffer :=
  if (i <? 0) || (Z.of_nat (length (buffer_ptr b)) <? i + Z.of_nat (length data)) then Fault
  else Ok (b <| buf := memcpy (buf b) (offset b + i) data |>).
(** [len] bytes from [buffer_ptr(b)] on. *)
Definition peek_bytes (b : Buffer) (len : Z) : outcome (list Z) :=
  if Z.of_nat (length (buffer_ptr b)) <? len then Fault else Ok (take (Z.to_nat len) (buffer_ptr b)).

(** [for (i = 0; i < n; i++) { if (i % 4 == 0) rnd = arc4random(); b = rnd & 0xff; rnd >>= 8; }] *)
Fixpoint random_bytes (n : nat) (i rnd : Z) : M ssh (list Z) :=
  match n with
  | O => mret []
  | S n =>
      rnd ← (if i mod 4 =? 0 then arc4random else mret rnd);
      rest ← random_bytes n (i + 1) (Z.shiftr rnd 8);
      mret (Z.land rnd 0xff :: rest)
  end.

(** [cp = buffer_append_space(b, len); cipher_crypt(cc, cp, src, len)]. *)
Definition append_crypt (cc : option CipherContext) (b : Buffer) (src : list Z)
    : outcome (Buffer * option CipherContext) :=
  match cc with
  | None => Fault
  | Some cc =>
      '(p, b) ← buffer_append_space b (Z.of_nat (length src));
      '(dst, cc) ← cipher_crypt cc src;
      Ok (b <| buf := memcpy (buf b) p dst |>, Some cc)
  end.

Definition newkeys (m : mode) (s : session_state) : option Newkeys :=
  match m with MODE_IN => newkeys_in s | MODE_OUT => newkeys_out s end.
Definition set_newkeys_field (m : mode) (k : option Newkeys) (s : session_state) : session_state :=
  match m with MODE_IN => s <| newkeys_in := k |> | MODE_OUT => s <| newkeys_out := k |> end.

(** ** Setting up *)

Definition session_init : session_state :=
  {| connection_in := -1; connection_out := -1; remote_protocol_flags := 0;
     receive_context := None; send_context := None;
     input := mkBuffer [] 0 0 0; output := mkBuffer [] 0 0 0;
     outgoing_packet := mkBuffer [] 0 0 0; incoming_packet := mkBuffer [] 0 0 0;
     compression_buffer := mkBuffer [] 0 0 0; compression_buffer_ready := 0;
     packet_compression := 0; max_packet_size := 32768; initialized := 0; interactive_mode := 0;
     server_side := 0; after_authentication := 0; keep_alive_timeouts := 0;
     packet_timeout_ms := -1; newkeys_in := None; newkeys_out := None;
     p_read := mkPS 0 0 0 0; p_send := mkPS 0 0 0 0; max_blocks_in := 0; max_blocks_out := 0;
     rekey_limit := 0; ssh1_key := replicate 32 0; ssh1_keylen := 0; extra_pad := 0;
     packet_discard := 0; packet_discard_mac := None; packlen := 0; rekeying := 0;
     set_interactive_called := 0; set_maxsize_called := 0; outgoing := [] |}.
Definition alloc_session_state : session_state := session_init.

Definition packet_set_connection (fd_in fd_out : Z) : M ssh unit :=
  match cipher_by_name "none" with
  | None => fatal "packet_set_connection: cannot load cipher 'none'"
  | Some none =>
      _ ← modS (λ s, s <| connection_in := fd_in |> <| connection_out := fd_out |>);
      sc ← liftO (cipher_init none [] 0 None 0 true);
      rc ← liftO (cipher_init none [] 0 None 0 false);
      _ ← modS (λ s, s <| send_context := Some sc |> <| receive_context := Some rc |>
                       <| newkeys_in := None |> <| newkeys_out := None |>);
      i ← getS initialized;
      when (i =? 0)
        (modS (λ s, s <| initialized := 1 |> <| input := buffer_init |> <| output := buffer_init |>
                      <| outgoing_packet := buffer_init |> <| incoming_packet := buffer_init |>
                      <| outgoing := [] |> <| p_send := (p_send s) <| packets := 0 |> |>
                      <| p_read := (p_read s) <| packets := 0 |> |>))
  end.

Definition packet_set_timeout (timeout count : Z) : M ssh unit :=
  modS (λ s, s <| packet_timeout_ms :=
    if (timeout =? 0) || (count =? 0) then -1
    else if Z.quot (Z.quot INT_MAX 1000) count <? timeout then INT_MAX
    else i32 (timeout * count * 1000) |>).

Definition packet_init_compression : M ssh unit :=
  r ← getS compression_buffer_ready;
  if r =? 1 then skip
  else modS (λ s, s <| compression_buffer_ready := 1 |> <| compression_buffer := buffer_init |>).

(** The calls that (re)initialise the zlib streams. *)
Definition init_stream (m : mode) (level : Z) : M ssh unit :=
  match m with
  | MODE_OUT => z ← liftO (buffer_compress_init_send level); modify (λ s, s <| outgoing_stream := z |>)
  | MODE_IN => modify (λ s, s <| incoming_stream := buffer_compress_init_recv |>)
  end.

Definition packet_start_compression (level : Z) : M ssh unit :=
  c ← getS packet_compression;
  c20 ← gets compat20;
  if negb (c =? 0) && negb c20 then fatal "Compression already enabled."
  else
    _ ← modS (λ s, s <| packet_compression := 1 |>);
    _ ← packet_init_compression;
    _ ← init_stream MODE_OUT level;
    init_stream MODE_IN 0.

Definition SSH_SESSION_KEY_LENGTH : Z := 32.

Definition packet_set_encryption_key (key : list Z) (keylen number : Z) : M ssh unit :=
  match cipher_by_number number with
  | None => fatal "packet_set_encryption_key: unknown cipher number"
  | Some c =>
      if keylen <? 20 then fatal "packet_set_encryption_key: keylen too small"
      else if SSH_SESSION_KEY_LENGTH <? keylen then fatal "packet_set_encryption_key: keylen too big"
      else
        _ ← modS (λ s, s <| ssh1_key := memcpy (ssh1_key s) 0 (take (Z.to_nat keylen) key) |>
                         <| ssh1_keylen := keylen |>);
        sc ← liftO (cipher_init c key keylen None 0 true);
        rc ← liftO (cipher_init c key keylen None 0 false);
        modS (λ s, s <| send_context := Some sc |> <| receive_context := Some rc |>)
  end.

(** ** Building a packet *)

Definition packet_start (type : Z) : M ssh unit :=
  c20 ← gets compat20;
  let len := if c20 : bool then 6%nat else 9%nat in
  on_buf outgoing_packet (λ b, buffer_append (buffer_clear b) (replicate (len - 1) 0 ++ [u8 type])).

Definition packet_put_char (v : Z) : M ssh unit := on_buf outgoing_packet (λ b, buffer_append b [u8 v]).
Definition packet_put_int (v : Z) : M ssh unit := on_buf outgoing_packet (λ b, buffer_put_int b v).
Definition packet_put_int64 (v : Z) : M ssh unit := on_buf outgoing_packet (λ b, buffer_put_int64 b v).
Definition packet_put_string (v : list Z) : M ssh unit := on_buf outgoing_packet (λ b, buffer_put_string b v).
Definition packet_put_cstring (v : option (list Z)) : M ssh unit :=
  on_buf outgoing_packet (λ b, buffer_put_cstring b v).
Definition packet_put_raw (v : list Z) : M ssh unit := on_buf outgoing_packet (λ b, buffer_append b v).

(** ** Sending *)

(** Compression of the payload behind a header of [hdr] bytes. *)
Definition compress_outgoing (hdr : Z) (prefix : list Z) (before : bool) : M ssh unit :=
  _ ← on_buf compression_buffer (λ b, Ok (buffer_clear b));
  _ ← on_buf outgoing_packet (λ b, buffer_consume b hdr);
  _ ← when before (on_buf compression_buffer (λ b, buffer_append b prefix));
  ob ← getS outgoing_packet;
  cb ← getS compression_buffer;
  z ← gets outgoing_stream;
  '(cb, z) ← liftO (buffer_compress ob cb z);
  _ ← modify (λ s, s <| outgoing_stream := z |>);
  _ ← modS (λ s, s <| compression_buffer := cb |>);
  _ ← on_buf outgoing_packet (λ b, Ok (buffer_clear b));
  _ ← when (negb before) (on_buf outgoing_packet (λ b, buffer_append b prefix));
  on_buf outgoing_packet (λ b, buffer_append b (contents cb)).

Definition bump_send (nblocks nbytes : Z) : M ssh unit :=
  modS (λ s, s <| p_send := (p_send s) <| blocks := u64 (blocks (p_send s) + nblocks) |>
                                       <| pbytes := u64 (pbytes (p_send s) + nbytes) |> |>).

Definition packet_send1 : M ssh unit :=
  comp ← getS packet_compression;
  _ ← when (negb (comp =? 0)) (compress_outgoing 8 (replicate 8 0) true);
  ob ← getS outgoing_packet;
  let len := i32 (buffer_len ob + 4 - 8) in
  let padding := 8 - Z.rem len 8 in
  cc ← getS send_context;
  _ ← (match cc with
       | None => fault
       | Some cc =>
           if plaintext cc then skip
           else
             rnd ← random_bytes (Z.to_nat padding) 0 0;
             on_buf outgoing_packet (λ b, poke b (8 - padding) (rev rnd))
       end);
  _ ← on_buf outgoing_packet (λ b, buffer_consume b (8 - padding));
  ob ← getS outgoing_packet;
  let checksum := ssh_crc32 (buffer_ptr ob) (buffer_len ob) in
  _ ← on_buf outgoing_packet (λ b, buffer_append b (put_u32 checksum));
  _ ← on_buf output (λ b, buffer_append b (put_u32 (u32 len)));
  ob ← getS outgoing_packet;
  o ← getS output;
  '(o, cc) ← liftO (append_crypt cc o (contents ob));
  _ ← modS (λ s, s <| output := o |> <| send_context := cc |>);
  _ ← modS (λ s, s <| p_send := (p_send s) <| packets := u32 (packets (p_send s) + 1) |> |>);
  _ ← bump_send 0 (u32 (len + buffer_len ob));
  on_buf outgoing_packet (λ b, Ok (buffer_clear b)).

(** [kex_get_newkeys] hands over the keys of the last key exchange. *)
Definition kex_get_newkeys (m : mode) : M ssh (option Newkeys) :=
  match m with
  | MODE_IN => k ← gets current_keys_in; _ ← modify (λ s, s <| current_keys_in := None |>); mret k
  | MODE_OUT => k ← gets current_keys_out; _ ← modify (λ s, s <| current_keys_out := None |>); mret k
  end.

(** The limit after which new keys are negotiated. *)
Definition max_blocks_for (block_size limit : Z) : Z :=
  let m := if 16 <=? block_size then u64 (Z.shiftl 1 (block_size * 2)) else Z.shiftl 1 30 / block_size in
  if negb (limit =? 0) then Z.min m (limit / block_size) else m.

Definition set_newkeys (m : mode) : M ssh unit :=
  _ ← modS (λ s, match m with
                 | MODE_OUT => s <| p_send := (p_send s) <| packets := 0 |> <| blocks := 0 |> |>
                 | MODE_IN => s <| p_read := (p_read s) <| packets := 0 |> <| blocks := 0 |> |>
                 end);
  k ← kex_get_newkeys m;
  match k with
  | None => fatal "newkeys: no keys for mode"
  | Some k =>
      let enc := nk_enc k in
      '(r, mac) ← liftO (mac_init (nk_mac k));
      let mac := if r =? 0 then mac <| mac_enabled := 1 |> else mac in
      let k := k <| nk_mac := mac |> in
      _ ← modS (set_newkeys_field m (Some k));
      cc ← liftO (cipher_init (enc_cipher enc) (enc_key enc) (enc_key_len enc) (Some (enc_iv enc))
                    (enc_block_size enc) (match m with MODE_OUT => true | MODE_IN => false end));
      _ ← modS (λ s, match m with
                     | MODE_OUT => s <| send_context := Some cc |>
                     | MODE_IN => s <| receive_context := Some cc |>
                     end);
      auth ← getS after_authentication;
      let comp := nk_comp k in
      _ ← when (((comp_type comp =? COMP_ZLIB) || ((comp_type comp =? COMP_DELAYED) && negb (auth =? 0)))
                && (comp_enabled comp =? 0))
            (_ ← packet_init_compression;
             _ ← init_stream m 6;
             modS (set_newkeys_field m (Some (k <| nk_comp := comp <| comp_enabled := 1 |> |>))));
      limit ← getS rekey_limit;
      let mb := max_blocks_for (enc_block_size enc) limit in
      modS (λ s, match m with
                 | MODE_OUT => s <| max_blocks_out := mb |>
                 | MODE_IN => s <| max_blocks_in := mb |>
                 end)
  end.

(** One round of the loop of [packet_enable_delayed_compress]. *)
Definition enable_delayed (m : mode) : M ssh unit :=
  k ← getS (newkeys m);
  match k with
  | None => skip
  | Some k =>
      let comp := nk_comp k in
      when ((comp_enabled comp =? 0) && (comp_type comp =? COMP_DELAYED))
        (_ ← packet_init_compression;
         _ ← init_stream m 6;
         modS (set_newkeys_field m (Some (k <| nk_comp := comp <| comp_enabled := 1 |> |>))))
  end.

Definition packet_enable_delayed_compress : M ssh unit :=
  _ ← modS (λ s, s <| after_authentication := 1 |>);
  _ ← enable_delayed MODE_IN;
  enable_delayed MODE_OUT.

(** The padding length of [packet_send2_wrapped]: [padlen] before and after
    the extra padding, both [u_char]. *)
Definition base_padlen (block_size len : Z) : Z :=
  let padlen := u8 (block_size - len mod block_size) in
  if padlen <? 4 then u8 (padlen + block_size) else padlen.
Definition extra_padlen (block_size len padlen extra : Z) : outcome Z :=
  let extra := u8 (roundup extra block_size) in
  if extra =? 0 then Fault
  else Ok (u8 (padlen + u8 (extra - (len + padlen) mod extra))).

(** Random padding if the packet will be encrypted, zeroes otherwise. *)
Definition make_padding (k : option Newkeys) (cc : option CipherContext) (padlen : Z) : M ssh (list Z) :=
  match k with
  | None => mret (replicate (Z.to_nat padlen) 0)
  | Some _ =>
      match cc with
      | None => fault
      | Some cc => if plaintext cc then mret (replicate (Z.to_nat padlen) 0)
                   else random_bytes (Z.to_nat padlen) 0 0
      end
  end.

(** The first half: compression, padding and header. *)
Definition send2_format (k : option Newkeys) (block_size : Z) : M ssh unit :=
  let comp_on := match k with Some k => negb (comp_enabled (nk_comp k) =? 0) | None => false end in
  _ ← when comp_on (compress_outgoing 5 (replicate 5 0) false);
  ob ← getS outgoing_packet;
  let len := buffer_len ob in
  let padlen := base_padlen block_size len in
  ep ← getS extra_pad;
  padlen ← (if negb (ep =? 0)
            then p ← liftO (extra_padlen block_size len padlen ep);
                 _ ← modS (λ s, s <| extra_pad := 0 |>); mret p
            else mret padlen);
  cc ← getS send_context;
  pad ← make_padding k cc padlen;
  _ ← on_buf outgoing_packet (λ b, buffer_append b pad);
  ob ← getS outgoing_packet;
  let packet_length := u32 (buffer_len ob - 4) in
  on_buf outgoing_packet (λ b, poke b 0 (put_u32 packet_length ++ [padlen])).

(** The second half: MAC, encryption and counters. *)
Definition send2_transmit (k : option Newkeys) (block_size : Z) : M ssh unit :=
  ob ← getS outgoing_packet;
  let packet_length := u32 (buffer_len ob - 4) in
  let mac_on := match k with Some k => negb (mac_enabled (nk_mac k) =? 0) | None => false end in
  sn ← getS (λ s, seqnr (p_send s));
  macbuf ← (match k with
            | Some k => if mac_on then liftO (mac_compute (nk_mac k) sn (contents ob)) else mret []
            | None => mret []
            end);
  cc ← getS send_context;
  o ← getS output;
  '(o, cc) ← liftO (append_crypt cc o (contents ob));
  _ ← modS (λ s, s <| output := o |> <| send_context := cc |>);
  _ ← (match k with
       | Some k => when mac_on (on_buf output (λ b, buffer_append b (take (Z.to_nat (mac_len (nk_mac k))) macbuf)))
       | None => skip
       end);
  _ ← modS (λ s, s <| p_send := (p_send s) <| seqnr := u32 (seqnr (p_send s) + 1) |>
                                           <| packets := u32 (packets (p_send s) + 1) |> |>);
  pk ← getS (λ s, packets (p_send s));
  df ← gets datafellows;
  _ ← (if (pk =? 0) && (Z.land df SSH_BUG_NOREKEY =? 0)
       then fatal "XXX too many packets with same key" else skip);
  _ ← bump_send (u32 (packet_length + 4) / block_size) (u32 (packet_length + 4));
  on_buf outgoing_packet (λ b, Ok (buffer_clear b)).

(** The key changes that the packet causes. *)
Definition send2_keys (type : Z) : M ssh unit :=
  srv ← getS server_side;
  if type =? SSH2_MSG_NEWKEYS then set_newkeys MODE_OUT
  else when ((type =? SSH2_MSG_USERAUTH_SUCCESS) && negb (srv =? 0)) packet_enable_delayed_compress.

Definition packet_send2_wrapped : M ssh unit :=
  k ← getS newkeys_out;
  let block_size := match k with Some k => enc_block_size (nk_enc k) | None => 8 end in
  ob ← getS outgoing_packet;
  type ← liftO (peek ob 5);
  _ ← send2_format k block_size;
  _ ← send2_transmit k block_size;
  send2_keys type.

(** [while ((p = TAILQ_FIRST(&outgoing)))] *)
Fixpoint flush_outgoing (fuel : nat) : M ssh unit :=
  match fuel with
  | O => λ _, NoFuel
  | S fuel =>
      q ← getS outgoing;
      match q with
      | [] => skip
      | (_, payload) :: q =>
          _ ← modS (λ s, s <| outgoing_packet := payload |> <| outgoing := q |>);
          _ ← packet_send2_wrapped;
          flush_outgoing fuel
      end
  end.

Definition is_transport (type : Z) : bool :=
  (SSH2_MSG_TRANSPORT_MIN <=? type) && (type <=? SSH2_MSG_TRANSPORT_MAX).

Definition packet_send2 : M ssh unit :=
  ob ← getS outgoing_packet;
  type ← liftO (peek ob 5);
  rk ← getS rekeying;
  if negb (rk =? 0) && negb (is_transport type)
  then modS (λ s, s <| outgoing := outgoing s ++ [(type, outgoing_packet s)] |>
                    <| outgoing_packet := buffer_init |>)
  else
    _ ← when (type =? SSH2_MSG_KEXINIT) (modS (λ s, s <| rekeying := 1 |>));
    _ ← packet_send2_wrapped;
    when (type =? SSH2_MSG_NEWKEYS)
      (_ ← modS (λ s, s <| rekeying := 0 |>);
       n ← getS (λ s, length (outgoing s));
       flush_outgoing (S n)).

Definition packet_send : M ssh unit :=
  c20 ← gets compat20;
  if c20 : bool then packet_send2 else packet_send1.

(** ** Dummy and notification messages *)

Fixpoint put_chars (l : list Z) : M ssh unit :=
  match l with
  | [] => skip
  | c :: l => _ ← packet_put_char c; put_chars l
  end.

(** The loops that append [n] random bytes. *)
Definition put_random (n : nat) : M ssh unit := l ← random_bytes n 0 0; put_chars l.

Definition packet_send_ignore (nbytes : Z) : M ssh unit :=
  c20 ← gets compat20;
  _ ← packet_start (if c20 : bool then SSH2_MSG_IGNORE else SSH_MSG_IGNORE);
  _ ← packet_put_int (u32 nbytes);
  put_random (Z.to_nat nbytes).

(** The [flag] argument of [packet_send_notify]. *)
Inductive notify_flag := N_unload | N_onload | N_urlack | N_tend | N_sync | N_paddingdone | N_url | N_normal.
Definition notify_msg (f : notify_flag) : Z :=
  match f with
  | N_unload => MSG_NOTIFY_UNLOAD | N_onload => MSG_NOTIFY_ONLOAD | N_urlack => MSG_NOTIFY_URLACK
  | N_tend => MSG_NOTIFY_TEND | N_sync => MSG_NOTIFY_SYNC | N_paddingdone => MSG_NOTIFY_PADDINGDONE
  | N_url => MSG_NOTIFY_URL | N_normal => MSG_NOTIFY_NORMAL
  end.

Definition packet_send_notify (nbytes : Z) (flag : notify_flag) : M ssh unit :=
  _ ← packet_start (notify_msg flag);
  _ ← packet_put_int (u32 nbytes);
  match flag with
  | N_url =>
      u ← getG url;
      if Z.of_nat (length u) <? nbytes then fault
      else
        _ ← put_chars (take (Z.to_nat nbytes) u);
        put_random (Z.to_nat (300 - nbytes))
  | _ => put_random (Z.to_nat nbytes)
  end.

(** ** Small operations *)

Definition packet_need_rekeying (s : ssh) : bool :=
  if negb (Z.land (datafellows s) SSH_BUG_NOREKEY =? 0) then false
  else
    let x := st s in
    (MAX_PACKETS <? packets (p_send x)) || (MAX_PACKETS <? packets (p_read x)) ||
    (negb (max_blocks_out x =? 0) && (max_blocks_out x <? blocks (p_send x))) ||
    (negb (max_blocks_in x =? 0) && (max_blocks_in x <? blocks (p_read x))).

Definition packet_have_data_to_write (s : ssh) : bool := negb (buffer_len (output (st s)) =? 0).
Definition packet_not_very_much_data_to_write (s : ssh) : bool :=
  if negb (interactive_mode (st s) =? 0) then buffer_len (output (st s)) <? 16384
  else buffer_len (output (st s)) <? 128 * 1024.

Definition packet_set_maxsize (sz : Z) : M ssh Z :=
  called ← getS set_maxsize_called;
  if negb (called =? 0) then mret (-1)
  else if (sz <? 4 * 1024) || (1024 * 1024 <? sz) then mret (-1)
  else _ ← modS (λ s, s <| set_maxsize_called := 1 |> <| max_packet_size := sz |>); mret (i32 sz).

Definition packet_inc_alive_timeouts : M ssh Z :=
  _ ← modS (λ s, s <| keep_alive_timeouts := i32 (keep_alive_timeouts s + 1) |>);
  getS keep_alive_timeouts.
Definition packet_add_padding (pad : Z) : M ssh unit := modS (λ s, s <| extra_pad := u8 pad |>).
Definition packet_set_rekey_limit (n : Z) : M ssh unit := modS (λ s, s <| rekey_limit := n |>).
Definition packet_set_server : M ssh unit := modS (λ s, s <| server_side := 1 |>).
Definition packet_set_authenticated : M ssh unit := modS (λ s, s <| after_authentication := 1 |>).
Definition set_packet_tau (tau : Z) : M ssh unit := modify (λ s, s <| packet_tau := tau |>).
Definition set_updated_time (t : Z) : M ssh unit := modify (λ s, s <| packet_time_to_write := t |>).

Definition packet_set_state (m : mode) (sn bl pk by_ : Z) : M ssh unit :=
  modS (λ s, match m with
             | MODE_IN => s <| p_read := mkPS sn pk bl by_ |>
             | MODE_OUT => s <| p_send := mkPS sn pk bl by_ |>
             end).

(** [close] of the descriptors is left out. *)
Definition packet_backup_state : M ssh unit := λ s,
  let old := (st s) <| connection_in := -1 |> <| connection_out := -1 |> in
  Ok (tt, s <| st := match backup_state s with Some b => b | None => alloc_session_state end |>
            <| backup_state := Some old |>).

(** [add_recv_bytes] only counts bytes for roaming. *)
Definition packet_restore_state : M ssh unit := λ s,
  match backup_state s with
  | None => Fault
  | Some tmp =>
      let bk := st s in
      let act := tmp <| connection_in := connection_in bk |> <| connection_out := connection_out bk |> in
      let bk := bk <| connection_in := -1 |> <| connection_out := -1 |> in
      if 0 <? buffer_len (input bk) then
        inp ← buffer_append (input act) (contents (input bk));
        Ok (tt, s <| st := act <| input := inp |> |>
                  <| backup_state := Some (bk <| input := buffer_clear (input bk) |>) |>)
      else Ok (tt, s <| st := act |> <| backup_state := Some bk |>)
  end.

End Packet.
