(* ===== verification/PacketWrite.v ===== *)
(** * The packet layer: writing to the connection ([packet.c])

    [packet_write_poll] is where CS-BuFLO shapes the traffic: when it writes,
    how much it asks [write] to send, and the dummy packets that make up for
    missing data. *)

From Stdlib Require Import SpecFloat.
From S2P Require Import Prelude ByteOrder Buffer Crc32 Deattack Stdio SuperTrace HashMap Csbuflo.
From S2P Require Import CipherMac Packet.

(** ** [float] arithmetic: IEEE binary32 *)

Definition f32_of_Z (z : Z) : spec_float := binary_normalize 24 128 z 0 false.
Definition f32_div (a b : spec_float) : spec_float := SFdiv 24 128 a b.
(** [(unsigned long long)x]; negative numbers and NaN have no defined result. *)
Definition u64_of_f32 (x : spec_float) : outcome Z :=
  match x with
  | S754_zero _ => Ok 0
  | S754_finite false m e => Ok (u64 (Z.shiftl (Zpos m) e))
  | _ => Fault
  end.

Section PacketWrite.
Context `{Crypto}.

(** [update_time]: the next time to write. *)
Definition update_time (now tau : Z) : M ssh Z :=
  m ← getG stmode;
  if m =? 1 then mret (u64 (now + tau))
  else
    r ← arc4random;
    t ← liftO (u64_of_f32 (f32_div (f32_of_Z (i64 (tau * (r mod 201)))) (f32_of_Z 100)));
    mret (u64 (now + t)).

(** [ioctl(connection_out, SIOCOUTQ, &tcp_buf_len)] *)
Definition tcp_queue_len : M ssh Z := λ s,
  Ok (i32 (e_outq (world s) (n_outq s)), s <| n_outq := S (n_outq s) |>).

(** The result of a call of [roaming_write]. *)
Inductive write_result := WR (len : Z) (cont : bool) | WR_again | WR_error.

(** [roaming_write(connection_out, buffer_ptr(&output), len, &cont)]: at most
    [len] bytes are taken from the buffer; the call is recorded. *)
Definition roaming_write (len : Z) : M ssh write_result :=
  b ← getS output;
  data ← liftO (peek_bytes b len);
  w ← gets (λ s, e_write (world s) (n_write s));
  _ ← modify (λ s, s <| n_write := S (n_write s) |>);
  let log n := modify (λ s, s <| wire := wire s ++ [(len, take (Z.to_nat n) data)] |>) in
  match w with
  | Wrote room cont => let n := Z.max 0 (Z.min room len) in _ ← log n; mret (WR n cont)
  | WBlock => _ ← log 0; mret WR_again
  | WError => _ ← log 0; mret WR_error
  end.

Definition output_buffer_len : M ssh Z := getS (λ s, i32 (buffer_len (output s))).
Definition outgoing_buffer_len : M ssh Z := getS (λ s, i32 (buffer_len (outgoing_packet s))).

(** [while ((len = buffer_len(&output)) < actual_write)] *)
Fixpoint fill_output (fuel : nat) (actual_write : Z) : M ssh Z :=
  match fuel with
  | O => λ _, NoFuel
  | S fuel =>
      len ← output_buffer_len;
      if len <? actual_write
      then _ ← packet_send_ignore 0; _ ← packet_send; fill_output fuel actual_write
      else mret len
  end.

(** The dummy packet that fills the output up to [actual_write] bytes; the
    result is the new length of the output. *)
Definition pad_output (len actual_write : Z) : M ssh Z :=
  let diff := i32 (actual_write - len) in
  let amount := i32 (diff - 16) in
  _ ← (if 0 <? amount then packet_send_ignore (i32 (amount + 6)) else packet_send_ignore 0);
  _ ← packet_send;
  fill_output (S (Z.to_nat (actual_write - len))) actual_write.

Definition WRITE_LIMIT : Z := 4096 * 4.
Definition MINSIZE : Z := 128.

(** Neither CS-BuFLO nor the super-trace decides what to write. *)
Definition unpaced (g : globals) : bool :=
  (stmode g =? -1) || ((stmode g =? 1) && (sent_tend g =? 1)).

(** How many bytes to write, from the request, the length of the output and
    the bytes in the TCP queue. *)
Definition choose_write (g : globals) (w2w len tcp_buf_len : Z) : Z :=
  let a2w := if tcp_buf_len <? WRITE_LIMIT then i32 (WRITE_LIMIT - tcp_buf_len) else 0 in
  let actual_write := if a2w <? w2w then a2w else w2w in
  if unpaced g then
    if trans_padded_remaining g <=? 0 then (if 32 <? len then MINSIZE else len) else MINSIZE
  else actual_write.

(** The bytes to ask for, after filling the output if it is too short. *)
Definition prepare_write (len actual_write : Z) : M ssh Z :=
  if actual_write <=? len then mret actual_write
  else
    let ori_len := len in
    len ← pad_output len actual_write;
    _ ← modG (λ gl, set_padded_junk (i32 (i32 (len - ori_len) + padded_junk gl)) gl);
    m ← getG stmode;
    mret (if negb (m =? 0) then actual_write else len).

(** [packet_write_poll_one_write(&ori_w2w)]; the result is the new [ori_w2w]. *)
Definition packet_write_poll_one_write (ori_w2w : Z) : M ssh Z :=
  len ← output_buffer_len;
  tcp_buf_len ← tcp_queue_len;
  gl ← gets g;
  let actual_write := choose_write gl (i32 ori_w2w) len tcp_buf_len in
  if 0 <? actual_write then
    len ← prepare_write len actual_write;
    r ← roaming_write len;
    match r with
    | WR_again => mret ori_w2w
    | WR_error => fatal "Write failed"
    | WR len cont =>
        if (len =? 0) && negb cont then fatal "Write connection closed"
        else
          _ ← on_buf output (λ b, buffer_consume b len);
          gl ← gets g;
          _ ← when (unpaced gl && (0 <? trans_padded_remaining gl))
                (modG (decrease_trans_padded_remaining len));
          gl ← gets g;
          mret (if (stmode gl =? 1) && (0 <? ori_w2w) then ori_w2w - len else ori_w2w)
    end
  else mret ori_w2w.

(** [while (ori_w2w > 0)]: the loop polls the queue until everything has been
    accepted, so the number of rounds depends on the network. *)
Fixpoint write_burst (fuel : nat) (ori_w2w : Z) : M ssh Z :=
  if 0 <? ori_w2w then
    match fuel with
    | O => λ _, NoFuel
    | S fuel => w ← packet_write_poll_one_write ori_w2w; write_burst fuel w
    end
  else mret ori_w2w.

Definition packet_write_poll (fuel : nat) : M ssh unit :=
  now ← get_current_time_usecs;
  t ← gets packet_time_to_write;
  if now <? t then skip
  else
    ori_w2w ← getG w2w;
    _ ← modG (set_padded_junk 0);
    m ← getG stmode;
    _ ← (if m =? 1 then
           tend ← getG sent_tend;
           w ← (if (ori_w2w =? 0) && (tend =? 1) then packet_write_poll_one_write ori_w2w else mret ori_w2w);
           _ ← write_burst fuel w;
           modG (set_w2w 0)
         else _ ← packet_write_poll_one_write ori_w2w; skip);
    m ← getG stmode;
    tau ← (if m =? -1 then mret (10 * INITIAL_TAU) else gets packet_tau);
    t ← update_time now tau;
    set_updated_time t.

Definition out_of_fuel {A} : M ssh A := λ _, NoFuel.

(** [packet_write_wait]; [sel] has an answer for every time the process waits
    for the connection: it became writable, or the wait timed out. *)
Fixpoint write_wait_loop (sel : list bool) (fuel : nat) : M ssh unit :=
  match sel with
  | [] => more ← gets packet_have_data_to_write; if more : bool then out_of_fuel else skip
  | writable :: sel =>
      more ← gets packet_have_data_to_write;
      if more : bool then
        if writable : bool then _ ← packet_write_poll fuel; write_wait_loop sel fuel
        else cleanup_exit 255
      else skip
  end.
Definition packet_write_wait (sel : list bool) (fuel : nat) : M ssh unit :=
  _ ← packet_write_poll fuel; write_wait_loop sel fuel.

End PacketWrite.

(** The random factor: [tau] times 0 to 2 in hundredths, rounded down, exact
    for all values of [tau] that the program uses. *)
Definition used_taus : list Z := [4096; 8192; 16384; 32768; 81920].

Definition f32_scale (tau r : Z) : outcome Z :=
  u64_of_f32 (f32_div (f32_of_Z (i64 (tau * r))) (f32_of_Z 100)).

Lemma f32_scale_exact tau r :
  tau ∈ used_taus → 0 ≤ r < 201 → f32_scale tau r = Ok (tau * r / 100).
Proof.
  intros Ht Hr.
  assert (Hall : Forall (λ t, Forall (λ r, f32_scale t r = Ok (t * r / 100)) (map Z.of_nat (seq 0 201))) used_taus).
  { repeat constructor; vm_compute; reflexivity. }
  rewrite Forall_forall in Hall. specialize (Hall tau Ht). rewrite Forall_forall in Hall. apply Hall.
  apply list_elem_of_In, in_map_iff. exists (Z.to_nat r). split; [lia|apply in_seq; lia].
Qed.
