(* ===== verification/PacketRead.v ===== *)
(** * The packet layer: receiving ([packet.c])

    [packet_process_incoming] buffers what arrives on the connection,
    [packet_read_poll1] and [packet_read_poll2] take one packet of protocol
    version 1 or 2 out of it, and [packet_read_poll_seqnr] handles the messages
    of the transport layer and the CS-BuFLO notifications itself and returns
    the first packet for the upper layers (or [SSH_MSG_NONE]). *)

From S2P Require Import Prelude ByteOrder Buffer Crc32 Deattack Stdio SuperTrace HashMap Csbuflo.
From S2P Require Import CipherMac Packet PacketWrite.

Definition SSH_MSG_MIN : Z := 1.
Definition SSH_MSG_MAX : Z := 254.
Definition SSH_MSG_DISCONNECT : Z := 1.
Definition SSH_MSG_DEBUG : Z := 36.
Definition SSH_SMSG_SUCCESS : Z := 14.
Definition SSH_SMSG_FAILURE : Z := 15.
Definition SSH_CMSG_EOF : Z := 19.
Definition SSH_CMSG_EXIT_CONFIRMATION : Z := 33.

Section PacketRead.
Context `{Crypto}.

(** [while (buffer_len(&incoming_packet) < PACKET_MAX_SIZE) buffer_append(..., 1024)] *)
Fixpoint fill_discard (fuel : nat) : M ssh unit :=
  match fuel with
  | O => λ _, NoFuel
  | S fuel =>
      n ← getS (λ s, buffer_len (incoming_packet s));
      if n <? PACKET_MAX_SIZE
      then _ ← on_buf incoming_packet (λ b, buffer_append b (replicate 1024 97)); fill_discard fuel
      else skip
  end.

(** The MAC is computed only for the time it takes; then the process exits. *)
Definition packet_stop_discard {A} : M ssh A :=
  m ← getS packet_discard_mac;
  _ ← (match m with
       | None => skip
       | Some m =>
           _ ← fill_discard 258;
           sn ← getS (λ s, seqnr (p_read s));
           b ← getS incoming_packet;
           data ← liftO (peek_bytes b PACKET_MAX_SIZE);
           _ ← liftO (mac_compute m sn data);
           skip
       end);
  cleanup_exit 255.

Definition mac_is_on (k : option Newkeys) : bool :=
  match k with Some k => negb (mac_enabled (nk_mac k) =? 0) | None => false end.

Definition packet_start_discard (k : option Newkeys) (packet_length discard : Z) : M ssh unit :=
  match k with
  | None => packet_disconnect "Packet corrupt"
  | Some nk =>
      if cipher_is_cbc (enc_cipher (nk_enc nk)) =? 0 then packet_disconnect "Packet corrupt"
      else
        _ ← when (negb (packet_length =? PACKET_MAX_SIZE) && mac_is_on k)
              (modS (λ s, s <| packet_discard_mac := Some (nk_mac nk) |>));
        n ← getS (λ s, buffer_len (input s));
        if discard <=? n then packet_stop_discard
        else modS (λ s, s <| packet_discard := u32 (discard - n) |>)
  end.

(** [received_sofar] counts the bytes for the CS-BuFLO schedule. *)
Definition packet_process_incoming (data : list Z) : M ssh unit :=
  cur ← getG received_sofar;
  d ← getS packet_discard;
  let len := Z.of_nat (length data) in
  if negb (d =? 0) then
    _ ← modS (λ s, s <| keep_alive_timeouts := 0 |>);
    if d <=? len then packet_stop_discard
    else modS (λ s, s <| packet_discard := u32 (d - len) |>)
  else
    _ ← modG (set_received_sofar (u64 (cur + len)));
    on_buf input (λ b, buffer_append b data).

(** ** Protocol version 1 *)

Definition uncompress_incoming : M ssh unit :=
  _ ← on_buf compression_buffer (λ b, Ok (buffer_clear b));
  ib ← getS incoming_packet;
  cb ← getS compression_buffer;
  z ← gets incoming_stream;
  '(cb, z) ← liftO (buffer_uncompress ib cb z);
  _ ← modify (λ s, s <| incoming_stream := z |>);
  _ ← modS (λ s, s <| compression_buffer := cb |>);
  _ ← on_buf incoming_packet (λ b, Ok (buffer_clear b));
  on_buf incoming_packet (λ b, buffer_append b (contents cb)).

(** The length field and the attack detector; [None] is [SSH_MSG_NONE]. *)
Definition read1_header : M ssh (option (Z * Z)) :=
  b ← getS input;
  if buffer_len b <? 4 + 8 then mret None
  else
    hd ← liftO (peek_bytes b 4);
    let len := get_u32 hd in
    if (len <? 1 + 2 + 2) || (256 * 1024 <? len) then packet_disconnect "Bad packet length"
    else
      let padded_len := Z.land (u32 (len + 8)) (u32 (Z.lnot 7)) in
      if buffer_len b <? 4 + padded_len then mret None
      else
        _ ← on_buf input (λ b, buffer_consume b 4);
        cc ← getS receive_context;
        match cc with
        | None => fault
        | Some cc =>
            if plaintext cc then mret (Some (len, padded_len))
            else
              b ← getS input;
              da ← gets attack_table;
              '(r, da) ← liftO (detect_attack (buffer_ptr b) padded_len da);
              _ ← modify (λ s, s <| attack_table := da |>);
              if r =? DEATTACK_DETECTED
              then packet_disconnect "crc32 compensation attack: network attack detected"
              else if r =? DEATTACK_DOS_DETECTED
              then packet_disconnect "deattack denial of service detected"
              else mret (Some (len, padded_len))
        end.

(** Decryption, check bytes and decompression. *)
Definition read1_body (len padded_len : Z) : M ssh Z :=
  _ ← on_buf incoming_packet (λ b, Ok (buffer_clear b));
  cc ← getS receive_context;
  ib ← getS input;
  ob ← getS incoming_packet;
  data ← liftO (peek_bytes ib padded_len);
  '(ob, cc) ← liftO (append_crypt cc ob data);
  _ ← modS (λ s, s <| incoming_packet := ob |> <| receive_context := cc |>);
  _ ← on_buf input (λ b, buffer_consume b padded_len);
  ob ← getS incoming_packet;
  let checksum := ssh_crc32 (buffer_ptr ob) (u32 (buffer_len ob - 4)) in
  _ ← on_buf incoming_packet (λ b, buffer_consume b (8 - len mod 8));
  ob ← getS incoming_packet;
  if negb (len =? buffer_len ob) then packet_disconnect "packet_read_poll1: len != buffer_len"
  else
    let stored_checksum := get_u32 (drop (Z.to_nat (len - 4)) (buffer_ptr ob)) in
    if negb (checksum =? stored_checksum) then packet_disconnect "Corrupted check bytes on input."
    else
      _ ← on_buf incoming_packet (λ b, buffer_consume_end b 4);
      comp ← getS packet_compression;
      _ ← when (negb (comp =? 0)) uncompress_incoming;
      _ ← modS (λ s, s <| p_read := (p_read s) <| packets := u32 (packets (p_read s) + 1) |>
                            <| pbytes := u64 (pbytes (p_read s) + u32 (padded_len + 4)) |> |>);
      type ← on_buf_get incoming_packet buffer_get_char;
      if (type <? SSH_MSG_MIN) || (SSH_MSG_MAX <? type)
      then packet_disconnect "Invalid ssh1 packet type" else mret type.

Definition packet_read_poll1 : M ssh Z :=
  h ← read1_header;
  match h with
  | None => mret SSH_MSG_NONE
  | Some (len, padded_len) => read1_body len padded_len
  end.

(** ** Protocol version 2 *)

(** The first block; [false] is [return SSH_MSG_NONE]. *)
Definition read2_first (k : option Newkeys) (block_size : Z) : M ssh bool :=
  pl ← getS packlen;
  if negb (pl =? 0) then mret true
  else
    ib ← getS input;
    if buffer_len ib <? block_size then mret false
    else
      _ ← on_buf incoming_packet (λ b, Ok (buffer_clear b));
      cc ← getS receive_context;
      ob ← getS incoming_packet;
      data ← liftO (peek_bytes ib block_size);
      '(ob, cc) ← liftO (append_crypt cc ob data);
      _ ← modS (λ s, s <| incoming_packet := ob |> <| receive_context := cc |>);
      hd ← liftO (peek_bytes ob 4);
      let pl := get_u32 hd in
      _ ← modS (λ s, s <| packlen := pl |>);
      if (pl <? 1 + 4) || (PACKET_MAX_SIZE <? pl)
      then _ ← packet_start_discard k pl PACKET_MAX_SIZE; mret false
      else _ ← on_buf input (λ b, buffer_consume b block_size); mret true.

(** The rest of the packet and its MAC. *)
Definition read2_rest (k : option Newkeys) (block_size : Z) : M ssh bool :=
  pl ← getS packlen;
  let maclen := match k with Some k' => if mac_is_on k then mac_len (nk_mac k') else 0 | None => 0 end in
  let need := u32 (4 + pl - block_size) in
  if negb (need mod block_size =? 0) then
    _ ← packet_start_discard k pl (PACKET_MAX_SIZE - block_size); mret false
  else
    ib ← getS input;
    if buffer_len ib <? u32 (need + maclen) then mret false
    else
      cc ← getS receive_context;
      ob ← getS incoming_packet;
      data ← liftO (peek_bytes ib need);
      '(ob, cc) ← liftO (append_crypt cc ob data);
      _ ← modS (λ s, s <| incoming_packet := ob |> <| receive_context := cc |>);
      _ ← on_buf input (λ b, buffer_consume b need);
      match k with
      | Some k' =>
          if mac_is_on k then
            sn ← getS (λ s, seqnr (p_read s));
            macbuf ← liftO (mac_compute (nk_mac k') sn (contents ob));
            ib ← getS input;
            theirs ← liftO (peek_bytes ib maclen);
            if negb (timingsafe_bcmp macbuf theirs maclen =? 0) then
              if PACKET_MAX_SIZE <? need then fatal "internal error need"
              else _ ← packet_start_discard k pl (PACKET_MAX_SIZE - need); mret false
            else _ ← on_buf input (λ b, buffer_consume b maclen); mret true
          else mret true
      | None => mret true
      end.

Definition is_notify (type : Z) : bool := (MSG_NOTIFY_ONLOAD <=? type) && (type <=? MSG_NOTIFY_URLACK).

(** Counters, padding, decompression and the type byte; the result is the type
    and the sequence number of the packet. *)
Definition read2_finish (k : option Newkeys) (block_size : Z) : M ssh (Z * Z) :=
  pl ← getS packlen;
  sn ← getS (λ s, seqnr (p_read s));
  _ ← modS (λ s, s <| p_read := (p_read s) <| seqnr := u32 (seqnr (p_read s) + 1) |>
                                           <| packets := u32 (packets (p_read s) + 1) |> |>);
  pk ← getS (λ s, packets (p_read s));
  df ← gets datafellows;
  _ ← (if (pk =? 0) && (Z.land df SSH_BUG_NOREKEY =? 0)
       then fatal "XXX too many packets with same key" else skip);
  _ ← modS (λ s, s <| p_read := (p_read s)
                 <| blocks := u64 (blocks (p_read s) + u32 (pl + 4) / block_size) |>
                 <| pbytes := u64 (pbytes (p_read s) + u32 (pl + 4)) |> |>);
  ob ← getS incoming_packet;
  padlen ← liftO (peek ob 4);
  if padlen <? 4 then packet_disconnect "Corrupted padlen on input."
  else
    _ ← on_buf incoming_packet (λ b, buffer_consume b (4 + 1));
    _ ← on_buf incoming_packet (λ b, buffer_consume_end b padlen);
    let comp_on := match k with Some k => negb (comp_enabled (nk_comp k) =? 0) | None => false end in
    _ ← when comp_on uncompress_incoming;
    type ← on_buf_get incoming_packet buffer_get_char;
    if ((type <? SSH2_MSG_MIN) || (SSH2_MSG_LOCAL_MIN <=? type)) && negb (is_notify type)
    then packet_disconnect "Invalid ssh2 packet type"
    else
      srv ← getS server_side;
      _ ← (if type =? SSH2_MSG_NEWKEYS then set_newkeys MODE_IN
           else when ((type =? SSH2_MSG_USERAUTH_SUCCESS) && (srv =? 0)) packet_enable_delayed_compress);
      _ ← modS (λ s, s <| packlen := 0 |>);
      mret (type, sn).

Definition packet_read_poll2 : M ssh (Z * Z) :=
  d ← getS packet_discard;
  if negb (d =? 0) then mret (SSH_MSG_NONE, 0)
  else
    k ← getS newkeys_in;
    let block_size := match k with Some k => enc_block_size (nk_enc k) | None => 8 end in
    ok ← read2_first k block_size;
    if negb ok then mret (SSH_MSG_NONE, 0)
    else
      ok ← read2_rest k block_size;
      if negb ok then mret (SSH_MSG_NONE, 0) else read2_finish k block_size.

(** ** Reading the fields of the packet *)

Definition packet_get_char : M ssh Z :=
  ch ← on_buf_get incoming_packet (λ b, buffer_get b 1);
  mret (u8 (byte_at ch 0)).
Definition packet_get_int : M ssh Z := on_buf_get incoming_packet buffer_get_int.
Definition packet_get_int64 : M ssh Z := on_buf_get incoming_packet buffer_get_int64.
(** The pointer and [*length_ptr] are the bytes they designate. *)
Definition packet_get_raw : M ssh (list Z) :=
  b ← getS incoming_packet; liftO (peek_bytes b (buffer_len b)).
Definition packet_remaining : M ssh Z := getS (λ s, i32 (buffer_len (incoming_packet s))).
Definition packet_get_string : M ssh (list Z) := on_buf_get incoming_packet buffer_get_string.
Definition packet_get_string_ptr : M ssh (list Z) := on_buf_get incoming_packet buffer_get_string_ptr.
Definition packet_get_cstring : M ssh (list Z) := on_buf_get incoming_packet buffer_get_cstring.
(** [packet_check_eom()] of [packet.h]. *)
Definition packet_check_eom : M ssh unit :=
  len ← packet_remaining;
  if 0 <? len then packet_disconnect "Packet integrity error." else skip.

(** ** Messages handled below the upper layers *)

(** The [SSH2_MSG_NOTIFY_URL] branch: the server looks up the cluster of the
    page, and enters super-trace mode or CS-BuFLO mode. *)
Definition notify_url2 : M ssh unit :=
  _ ← modG unset_onload_flag;
  _ ← modG unset_transcript_end;
  _ ← modG unset_sent_tend;
  b ← getS incoming_packet;
  gl ← gets g;
  gl ← liftO (set_url (buffer_ptr b) 4 gl);
  e ← gets world;
  gl ← liftO (set_cluster_id (e_clusters e) (e_st e) (url gl) 1 gl);
  _ ← modify (λ s, s <| g := gl |>);
  if negb (cluster_id gl =? -1) then
    _ ← modG unset_trans_padded;
    _ ← modG (set_trans_padded_remaining 0);
    _ ← modG (set_stmode 1);
    _ ← modG (set_st_idle_start 0);
    gl ← gets g;
    gl ← liftO (set_first_sent gl);
    _ ← modify (λ s, s <| g := set_received_sofar (first_expected gl) gl |>);
    _ ← packet_send_notify 4 N_urlack;
    packet_send
  else
    _ ← modG unset_paddingdone_flag;
    _ ← modG set_unload_flag;
    modG (set_stmode 0).

(** The other notifications, the same in both protocol versions. *)
Definition notify_common (type : Z) : M ssh unit :=
  if type =? MSG_NOTIFY_ONLOAD then modG set_onload_flag
  else if type =? MSG_NOTIFY_UNLOAD then _ ← modG unset_paddingdone_flag; modG set_unload_flag
  else if type =? MSG_NOTIFY_TEND then modG set_transcript_end
  else if type =? MSG_NOTIFY_NORMAL then
    m ← getG stmode;
    if m =? -1 then modG unset_server_entering_normal else modG set_server_entering_normal
  else if type =? MSG_NOTIFY_PADDINGDONE then modG set_paddingdone_flag
  else if type =? MSG_NOTIFY_URLACK then modG set_urlack
  else skip.

(** The end of an interval without data is the arrival of a real message. *)
Definition note_arrival : M ssh unit :=
  cur_ts ← get_current_time_usecs;
  modG (λ gl,
    if ((tend_set gl =? 0) && (ts_start gl <? cur_ts)) ||
       (negb (tend_set gl =? 0) && (ts_end gl <=? ts_start gl))
    then set_ts_end cur_ts (set_tend_set 1 gl) else gl).

(** One round of the protocol 2 loop: [Some] is [return type]. *)
Definition poll_round2 : M ssh (option (Z * Z)) :=
  '(type, sn) ← packet_read_poll2;
  _ ← when (negb (type =? 0)) (modS (λ s, s <| keep_alive_timeouts := 0 |>));
  _ ← when (negb (type =? SSH2_MSG_IGNORE) && negb (type =? SSH_MSG_NONE) && negb (is_notify type)) note_arrival;
  if type =? SSH2_MSG_IGNORE then mret None
  else if type =? MSG_NOTIFY_URL then _ ← notify_url2; mret None
  else if is_notify type then _ ← notify_common type; mret None
  else if type =? SSH2_MSG_DEBUG then
    _ ← on_buf_get incoming_packet buffer_get_char;
    _ ← on_buf_get incoming_packet buffer_get_string;
    _ ← on_buf_get incoming_packet buffer_get_string;
    mret None
  else if type =? SSH2_MSG_DISCONNECT then
    _ ← on_buf_get incoming_packet buffer_get_int;
    _ ← on_buf_get incoming_packet buffer_get_string;
    cleanup_exit 255
  else if type =? SSH2_MSG_UNIMPLEMENTED then
    _ ← on_buf_get incoming_packet buffer_get_int; mret None
  else mret (Some (type, sn)).

(** One round of the protocol 1 loop. *)
Definition poll_round1 : M ssh (option (Z * Z)) :=
  type ← packet_read_poll1;
  if type =? SSH_MSG_IGNORE then mret None
  else if type =? MSG_NOTIFY_URL then
    _ ← modG unset_onload_flag;
    _ ← modG unset_transcript_end;
    _ ← modG unset_sent_tend;
    b ← getS incoming_packet;
    gl ← gets g;
    gl ← liftO (set_url (buffer_ptr b) 0 gl);
    _ ← modify (λ s, s <| g := gl |>);
    mret None
  else if is_notify type then _ ← notify_common type; mret None
  else if type =? SSH_MSG_DEBUG then
    _ ← on_buf_get incoming_packet buffer_get_string; mret None
  else if type =? SSH_MSG_DISCONNECT then
    _ ← on_buf_get incoming_packet buffer_get_string; cleanup_exit 255
  else mret (Some (type, 0)).

Fixpoint poll_loop (fuel : nat) : M ssh (Z * Z) :=
  match fuel with
  | O => λ _, NoFuel
  | S fuel =>
      c20 ← gets compat20;
      r ← (if c20 : bool then poll_round2 else poll_round1);
      match r with
      | Some r => mret r
      | None => poll_loop fuel
      end
  end.

(** Every round that does not return takes a packet from the input: at least
    its header in this round, or, if that was read by an earlier call, in the
    next one. *)
Definition poll_fuel (s : ssh) : nat := (2 + 2 * length (contents (input (st s))))%nat.

Definition packet_read_poll_seqnr : M ssh (Z * Z) := λ s, poll_loop (poll_fuel s) s.
Definition packet_read_poll : M ssh Z := '(type, _) ← packet_read_poll_seqnr; mret type.

(** ** Waiting for a packet *)

(** How a wait for the connection ends: the time is over, the other side has
    closed it, the read fails, or bytes arrive. *)
Inductive recv := Timeout | Closed | ReadError | Received (data : list Z).

(** The loop of [packet_read_seqnr]; the list has an answer for every time the
    process waits, and what is not used of it is returned. *)
Fixpoint read_wait_loop (net : list recv) : M ssh (Z * Z * list recv) :=
  '(type, sn) ← packet_read_poll_seqnr;
  c20 ← gets compat20;
  _ ← when (negb c20 && ((type =? SSH_SMSG_SUCCESS) || (type =? SSH_SMSG_FAILURE) ||
                         (type =? SSH_CMSG_EOF) || (type =? SSH_CMSG_EXIT_CONFIRMATION))) packet_check_eom;
  if negb (type =? SSH_MSG_NONE) then mret (type, sn, net)
  else
    match net with
    | [] => out_of_fuel
    | (Timeout | Closed) :: _ => cleanup_exit 255
    | ReadError :: _ => fatal "Read from socket failed"
    | Received data :: net => _ ← packet_process_incoming data; read_wait_loop net
    end.

Definition packet_read_seqnr (sel : list bool) (fuel : nat) (net : list recv) : M ssh (Z * Z * list recv) :=
  _ ← packet_write_wait sel fuel; read_wait_loop net.
Definition packet_read (sel : list bool) (fuel : nat) (net : list recv) : M ssh (Z * list recv) :=
  '(type, _, net) ← packet_read_seqnr sel fuel net; mret (type, net).
Definition packet_read_expect (expected_type : Z) (sel : list bool) (fuel : nat) (net : list recv) : M ssh (list recv) :=
  '(type, net) ← packet_read sel fuel net;
  if negb (type =? expected_type) then packet_disconnect "Protocol error: expected packet type" else mret net.

End PacketRead.
