(* ===== verification/PacketProofs.v ===== *)
(** * What the packet layer guarantees

    Theorems about [Packet.v] and [PacketRead.v], relative to the laws of the
    cryptographic primitives ([CryptoLaws]). *)

From S2P Require Import Prelude ByteOrder Buffer Crc32 Deattack Stdio SuperTrace HashMap Csbuflo.
From S2P Require Import CipherMac Packet PacketRead.

(** Evaluate the boolean connectives. *)
Ltac bred := cbv beta iota delta [orb andb negb].
(** A flag known to be 0. *)
Ltac ifz := change (negb (0 =? 0)) with false; cbv iota.

(** ** Bytes of a buffer in place *)

Lemma contents_prefix b : wf b → buffer_ptr b = contents b ++ drop (length (contents b)) (buffer_ptr b).
Proof.
  intros Hb. pose proof (contents_length b Hb) as Hl. unfold contents at 1.
  replace (length (contents b)) with (Z.to_nat (end_ b - offset b)) by lia. by rewrite take_drop.
Qed.

Lemma peek_contents b i x : wf b → 0 ≤ i → contents b !! Z.to_nat i = Some x → peek b i = Ok x.
Proof.
  intros Hb Hi Hx. unfold peek. apply zget_lookup; [done|]. rewrite (contents_prefix b Hb).
  by apply lookup_app_l_Some.
Qed.

Lemma peek_bytes_contents b n :
  wf b → 0 ≤ n ≤ Z.of_nat (length (contents b)) →
  peek_bytes b n = Ok (take (Z.to_nat n) (contents b)).
Proof.
  intros Hb Hn. unfold peek_bytes.
  assert (length (contents b) ≤ length (buffer_ptr b))%nat.
  { rewrite (contents_prefix b Hb), length_app. lia. }
  rewrite (proj2 (Z.ltb_ge _ _)) by lia. f_equal. rewrite (contents_prefix b Hb).
  rewrite take_app_le by lia. done.
Qed.

Lemma poke_head b h rest data :
  wf b → contents b = h ++ rest → length h = length data →
  ∃ b', poke b 0 data = Ok b' ∧ wf b' ∧ contents b' = data ++ rest ∧
    alloc b' = alloc b ∧ end_ b' = end_ b.
Proof.
  intros Hb Hc Hl. pose proof (contents_length b Hb) as Hlen. pose proof Hb as [Ho He Ha Hbuf].
  pose proof (f_equal length Hc) as Hcl. rewrite length_app in Hcl.
  unfold poke. rewrite (proj2 (Z.ltb_ge (Z.of_nat (length (buffer_ptr b))) _)).
  2: { unfold buffer_ptr. rewrite length_drop. lia. }
  simpl orb. cbv iota. eexists; split; [reflexivity|].
  assert (Hm : length (memcpy (buf b) (offset b + 0) data) = length (buf b)) by (apply memcpy_length; lia).
  split; [split; rsimpl; lia|]. split; [|done].
  unfold contents, buffer_ptr in *. rsimpl. rewrite Z.add_0_r. unfold memcpy.
  rewrite drop_app_le by (rewrite length_take; lia).
  rewrite drop_ge by (rewrite length_take; lia). simpl.
  rewrite take_app_ge by lia. f_equal.
  rewrite <- drop_drop, <- Hl.
  assert (E : take (Z.to_nat (end_ b - offset b) - length h) (drop (length h) (drop (Z.to_nat (offset b)) (buf b)))
          = drop (length h) (take (Z.to_nat (end_ b - offset b)) (drop (Z.to_nat (offset b)) (buf b)))).
  { by rewrite skipn_firstn_comm. }
  rewrite E, Hc. by rewrite drop_app_length.
Qed.

Section OnBuf.
Context `{Crypto}.

Lemma on_buf_Ok (p : session_state → Buffer) `{!Updater p} f s b :
  f (p (st s)) = Ok b → on_buf p f s = Ok (tt, s <| st := upd p b (st s) |>).
Proof.
  intros E. unfold on_buf. mstep. rewrite (M_bind_Ok _ _ _ _ _ (liftO_Ok _ _ s E)). done.
Qed.

Lemma on_buf_get_Ok {A} (p : session_state → Buffer) `{!Updater p} f s (a : A) b :
  f (p (st s)) = Ok (a, b) → on_buf_get p f s = Ok (a, s <| st := upd p b (st s) |>).
Proof.
  intros E. unfold on_buf_get. mstep. rewrite (M_bind_Ok _ _ _ _ _ (liftO_Ok _ _ s E)). done.
Qed.

End OnBuf.

(** Steps on a buffer of the session. *)
Ltac mbuf E := erewrite M_bind_Ok; [|eapply on_buf_Ok; exact E]; cbv beta iota.
Ltac mbuf_get E := erewrite M_bind_Ok; [|eapply on_buf_get_Ok; exact E]; cbv beta iota.
Ltac mlift E := erewrite M_bind_Ok; [|eapply liftO_Ok; exact E]; cbv beta iota.

Section Proofs.
Context `{CryptoLaws}.

Lemma random_bytes_spec n : ∀ i rnd s,
  ∃ l m, random_bytes n i rnd s = Ok (l, s <| n_rand := m |>) ∧ length l = n ∧ bytes l.
Proof.
  induction n as [|n IH]; intros i rnd s; cbn [random_bytes].
  - exists [], (n_rand s). split_and!; [by destruct s|done|constructor].
  - assert (∃ r m, (if i mod 4 =? 0 then arc4random else mret rnd) s = Ok (r, s <| n_rand := m |>))
      as (r & m & E).
    { destruct (_ =? _); [by eexists _, _|]. exists rnd, (n_rand s). by destruct s. }
    mstep_by E. destruct (IH (i + 1) (Z.shiftr r 8) (s <| n_rand := m |>)) as (l & m' & E' & Hl & Hb).
    mstep_by E'. eexists (_ :: l), m'. split_and!; [done|simpl; congruence|].
    constructor; [|done]. unfold is_u8. change 255 with (Z.ones 8).
    rewrite Z.land_ones by lia. apply (Z.mod_pos_bound r (2 ^ 8)). lia.
Qed.

(** The block sizes of the cipher table. *)
Definition good_bs (bs : Z) : Prop := bs = 8 ∨ bs = 16.

Lemma base_padlen_spec bs len :
  good_bs bs → 0 ≤ len →
  4 ≤ base_padlen bs len < bs + 4 ∧ (len + base_padlen bs len) mod bs = 0.
Proof.
  intros Hbs Hl. unfold base_padlen.
  assert (0 < bs) by (destruct Hbs; lia).
  pose proof (Z.mod_pos_bound len bs ltac:(lia)) as Hm. pose proof (Z.div_mod len bs ltac:(lia)) as Hd.
  rewrite (u8_small (bs - len mod bs)) by (destruct Hbs; lia).
  destruct (Z.ltb_spec (bs - len mod bs) 4).
  - rewrite u8_small by (destruct Hbs; lia). split; [destruct Hbs; lia|].
    replace (len + (bs - len mod bs + bs)) with ((len / bs + 2) * bs) by lia. apply Z_mod_mult.
  - split; [lia|]. replace (len + (bs - len mod bs)) with ((len / bs + 1) * bs) by lia. apply Z_mod_mult.
Qed.

(** A MAC that [mac_compute] can use, and the tag it puts on the wire. *)
Record mac_good (m : Mac) : Prop := {
  mg_len : 0 ≤ mac_len m ≤ EVP_MAX_MD_SIZE;
  mg_ctx : (mac_type m = SSH_EVP ∧ ∃ md key, mac_evp_ctx m = Some (md, key) ∧ mac_len m ≤ EVP_MD_size md) ∨
           (mac_type m = SSH_UMAC ∧ ∃ key, mac_umac_ctx m = Some key ∧ mac_len m ≤ 8)
}.

Lemma mac_compute_spec m sn data :
  mac_good m → ∃ t, mac_compute m sn data = Ok t ∧ mac_len m ≤ Z.of_nat (length t) ∧ bytes t.
Proof.
  intros [Hl Hc]. unfold mac_compute. rewrite (proj2 (Z.ltb_ge _ _)) by lia.
  destruct Hc as [(-> & md & key & -> & Hle)|(-> & key & -> & Hle)].
  - rewrite Z.eqb_refl. eexists; split; [reflexivity|]. destruct (hmac_digest md key (put_u32 sn ++ data)) as [E ?]. split; [lia|done].
  - change (SSH_UMAC =? SSH_EVP) with false. rewrite Z.eqb_refl. cbv iota.
    eexists; split; [reflexivity|]. destruct (umac_digest key data (put_u64 sn)) as [E ?]. split; [lia|done].
Qed.

(** The tag of a packet under [k]: nothing without a MAC. *)
Definition tag (k : option Newkeys) (sn : Z) (data : list Z) : list Z :=
  match k with
  | Some nk => if mac_is_on k then
                 match mac_compute (nk_mac nk) sn data with
                 | Ok t => take (Z.to_nat (mac_len (nk_mac nk))) t
                 | _ => []
                 end
               else []
  | None => []
  end.

Definition bs_of (k : option Newkeys) : Z :=
  match k with Some k => enc_block_size (nk_enc k) | None => 8 end.

(** Keys in use for one direction, without compression. *)
Record keys_good (k : option Newkeys) (cc : CipherContext) : Prop := {
  kg_bs : good_bs (bs_of k);
  kg_cipher : c_block_size (cc_cipher cc) = bs_of k;
  kg_comp : match k with Some k => comp_enabled (nk_comp k) = 0 | None => True end;
  kg_mac : match k with Some nk => mac_is_on k = true → mac_good (nk_mac nk) | None => True end
}.

(** Keys for one direction, whether or not they compress. *)
Record keys_usable (k : option Newkeys) (cc : CipherContext) : Prop := {
  ku_bs : good_bs (bs_of k);
  ku_cipher : c_block_size (cc_cipher cc) = bs_of k;
  ku_mac : match k with Some nk => mac_is_on k = true → mac_good (nk_mac nk) | None => True end
}.
Lemma usable k cc : keys_good k cc → keys_usable k cc.
Proof. intros []. by split. Qed.
Coercion usable : keys_good >-> keys_usable.

Lemma usable_step k cc p e : keys_usable k cc → keys_usable k (mkCC p e (cc_cipher cc)).
Proof. intros []. by split. Qed.
Lemma good_step k cc p e : keys_good k cc → keys_good k (mkCC p e (cc_cipher cc)).
Proof. intros []. by split. Qed.

(** What is encrypted for a packet: length, padding length, type and payload,
    padding. *)
Definition frame (body pad : list Z) : list Z :=
  put_u32 (Z.of_nat (length body) + Z.of_nat (length pad) + 1) ++ [Z.of_nat (length pad)] ++ body ++ pad.

Lemma frame_length body pad : length (frame body pad) = (5 + length body + length pad)%nat.
Proof. unfold frame. rewrite !length_app. simpl. lia. Qed.

(** Appending the result of a cipher call. *)
Lemma append_crypt_gen cc b n src dst e' :
  roomy b n → EVP_Cipher (cc_evp cc) src = Some (dst, e') → length dst = length src →
  Z.of_nat (length src) mod c_block_size (cc_cipher cc) = 0 →
  Z.of_nat (length src) ≤ n → Z.of_nat (length src) ≤ BUFFER_MAX_CHUNK →
  ∃ b', append_crypt (Some cc) b src = Ok (b', Some (mkCC (plaintext cc) e' (cc_cipher cc))) ∧
    contents b' = contents b ++ dst ∧ roomy b' (n - Z.of_nat (length src)).
Proof.
  intros Hr He Hlc Hmod Hn Hc.
  destruct (append_space_roomy b n (Z.of_nat (length src)) Hr ltac:(lia) Hc) as (p & b1 & Hsp & Hap).
  destruct (append_roomy b n dst Hr ltac:(lia) ltac:(lia)) as (b' & Hb' & Hcont & Hr').
  rewrite Hap in Hb' by lia. injection Hb' as <-.
  unfold append_crypt. rewrite Hsp. cbn [mbind outcome_bind].
  unfold cipher_crypt. rewrite Hmod, Z.eqb_refl. simpl negb. cbv iota. rewrite He. cbn [mbind outcome_bind].
  eexists. split; [reflexivity|]. rewrite <- Hlc. split_and!; done.
Qed.

(** Appending an encrypted block-aligned text. *)
Lemma append_crypt_spec cc d b n src :
  paired (c_block_size (cc_cipher cc)) (cc_evp cc) d → roomy b n → bytes src →
  Z.of_nat (length src) mod c_block_size (cc_cipher cc) = 0 →
  Z.of_nat (length src) ≤ n → Z.of_nat (length src) ≤ BUFFER_MAX_CHUNK →
  ∃ b' c e' d', append_crypt (Some cc) b src = Ok (b', Some (mkCC (plaintext cc) e' (cc_cipher cc))) ∧
    contents b' = contents b ++ c ∧ roomy b' (n - Z.of_nat (length src)) ∧
    EVP_Cipher (cc_evp cc) src = Some (c, e') ∧ EVP_Cipher d c = Some (src, d') ∧
    length c = length src ∧ bytes c ∧ paired (c_block_size (cc_cipher cc)) e' d'.
Proof.
  intros Hp Hr Hb Hmod Hn Hc.
  destruct (evp_roundtrip _ _ _ _ Hp Hmod Hb) as (c & e' & d' & He & Hd & Hlc & Hbc & Hp').
  destruct (append_crypt_gen cc b n src c e' Hr He Hlc Hmod Hn Hc) as (b' & E & C & R).
  exists b', c, e', d'. split_and!; done.
Qed.

Lemma n_rand_same (s : ssh) : s <| n_rand := n_rand s |> = s.
Proof. by destruct s. Qed.

Lemma make_padding_spec k cc padlen s :
  0 ≤ padlen →
  ∃ pad m, make_padding k (Some cc) padlen s = Ok (pad, s <| n_rand := m |>) ∧
    Z.of_nat (length pad) = padlen ∧ bytes pad.
Proof.
  intros Hp.
  assert (Hz : ∃ pad m, (mret (replicate (Z.to_nat padlen) 0) : M ssh (list Z)) s = Ok (pad, s <| n_rand := m |>)
     ∧ Z.of_nat (length pad) = padlen ∧ bytes pad).
  { eexists _, (n_rand s). rewrite n_rand_same. split; [reflexivity|]. rewrite length_replicate.
    split; [lia|]. apply Forall_replicate. unfold is_u8. lia. }
  unfold make_padding. destruct k; [|done]. destruct (plaintext cc); [done|].
  destruct (random_bytes_spec (Z.to_nat padlen) 0 0 s) as (l & m & E & Hl & Hb).
  exists l, m. split_and!; [done|lia|done].
Qed.

Lemma send2_format_spec k cc s h body n :
  keys_good k cc → send_context (st s) = Some cc → extra_pad (st s) = 0 →
  contents (outgoing_packet (st s)) = h ++ body → length h = 5%nat →
  Z.of_nat (length body) < 2 ^ 31 → roomy (outgoing_packet (st s)) n → 20 ≤ n →
  ∃ pad m ob',
    send2_format k (bs_of k) s
    = Ok (tt, s <| n_rand := m |> <| st := (st s) <| outgoing_packet := ob' |> |>) ∧
    contents ob' = frame body pad ∧
    Z.of_nat (length pad) = base_padlen (bs_of k) (5 + Z.of_nat (length body)) ∧ bytes pad ∧
    roomy ob' 0.
Proof.
  intros [Hbs Hcb Hcomp Hmac] Hcc Hex Hcont Hh Hbody Hroom Hn.
  unfold send2_format.
  assert (Hc : match k with Some k0 => negb (comp_enabled (nk_comp k0) =? 0) | None => false end = false)
    by (destruct k as [k|]; [by rewrite Hcomp|done]).
  rewrite Hc. mstep. mstep.
  assert (Hlen : buffer_len (outgoing_packet (st s)) = 5 + Z.of_nat (length body)).
  { rewrite buffer_len_contents by apply Hroom. rewrite Hcont, length_app, Hh. lia. }
  rewrite Hlen. mstep. rewrite Hex. simpl negb. cbv iota. mstep. mstep. rewrite Hcc.
  set (padlen := base_padlen _ _).
  destruct (base_padlen_spec (bs_of k) (5 + Z.of_nat (length body)) Hbs ltac:(lia)) as [Hpl Hpm].
  fold padlen in Hpl, Hpm.
  destruct (make_padding_spec k cc padlen s) as (pad & m & Hpad & Hpadl & Hpadb); [lia|].
  mstep_by Hpad. rewrite <- Hpadl in *.
  assert (good_bs (bs_of k) → padlen ≤ 20) as Hsmall by (intros [E|E]; rewrite E in *; lia).
  specialize (Hsmall Hbs).
  destruct (append_roomy (outgoing_packet (st s)) n pad Hroom ltac:(lia)) as (ob1 & E1 & C1 & R1);
    [unfold BUFFER_MAX_CHUNK; lia|].
  mbuf E1. mstep. rsimpl.
  assert (Hlen1 : buffer_len ob1 = 5 + Z.of_nat (length body) + Z.of_nat (length pad)).
  { rewrite buffer_len_contents by apply R1. rewrite C1, Hcont, !length_app, Hh. lia. }
  rewrite Hlen1, u32_small by lia.
  destruct (poke_head ob1 h (body ++ pad) (put_u32 (5 + Z.of_nat (length body) + Z.of_nat (length pad) - 4) ++ [Z.of_nat (length pad)]))
    as (ob2 & E2 & W2 & C2 & A2 & D2); [apply R1 | by rewrite C1, Hcont, app_assoc | by rewrite length_app, Hh |].
  exists pad, m, ob2. split.
  - erewrite on_buf_Ok; [|exact E2]. done.
  - split_and!; [|done|done|].
    + rewrite C2. unfold frame. rewrite <- app_assoc. f_equal. f_equal. lia.
    + destruct R1 as [_ R1]. split; [done|]. rewrite C2. rewrite C1, Hcont, !length_app, Hh in R1.
      rewrite !length_app. simpl length. lia.
Qed.

Lemma tag_spec k cc sn data :
  keys_usable k cc →
  Z.of_nat (length (tag k sn data)) = (match k with Some nk => if mac_is_on k then mac_len (nk_mac nk) else 0 | None => 0 end)
  ∧ Z.of_nat (length (tag k sn data)) ≤ 64 ∧ bytes (tag k sn data).
Proof.
  intros [_ _ Hm]. unfold tag. destruct k as [nk|]; [|repeat split; done || constructor].
  destruct (mac_is_on (Some nk)); [|repeat split; done || constructor].
  destruct (mac_compute_spec (nk_mac nk) sn data (Hm eq_refl)) as (t & -> & Hl & Hb).
  destruct (Hm eq_refl) as [Hml _]. unfold EVP_MAX_MD_SIZE in Hml. rewrite length_take.
  split_and!; [lia|lia|]. by apply Forall_take.
Qed.

(** The counters after sending [len] bytes. *)
Definition sent_counters (p : packet_state) (bs len : Z) : packet_state :=
  mkPS (u32 (seqnr p + 1)) (u32 (packets p + 1)) (u64 (blocks p + len / bs)) (u64 (pbytes p + len)).

Lemma send2_transmit_spec k cc d s plain n :
  keys_good k cc → send_context (st s) = Some cc → paired (bs_of k) (cc_evp cc) d →
  contents (outgoing_packet (st s)) = plain → wf (outgoing_packet (st s)) → bytes plain →
  Z.of_nat (length plain) mod bs_of k = 0 → 4 ≤ Z.of_nat (length plain) ≤ BUFFER_MAX_CHUNK →
  roomy (output (st s)) n → Z.of_nat (length plain) + 64 ≤ n →
  0 ≤ packets (p_send (st s)) < 2 ^ 32 - 1 →
  let t := tag k (seqnr (p_send (st s))) plain in
  ∃ c e' d' o',
    send2_transmit k (bs_of k) s =
    Ok (tt, s <| st := (st s) <| output := o' |>
                 <| send_context := Some (mkCC (plaintext cc) e' (cc_cipher cc)) |>
                 <| p_send := sent_counters (p_send (st s)) (bs_of k) (Z.of_nat (length plain)) |>
                 <| outgoing_packet := buffer_clear (outgoing_packet (st s)) |> |>) ∧
    contents o' = contents (output (st s)) ++ c ++ t ∧
    EVP_Cipher (cc_evp cc) plain = Some (c, e') ∧ EVP_Cipher d c = Some (plain, d') ∧
    length c = length plain ∧ bytes c ∧ paired (bs_of k) e' d' ∧
    roomy o' (n - Z.of_nat (length plain) - Z.of_nat (length t)).
Proof.
  intros Hk Hcc Hp Hplain Hw Hb Hmod Hl Hr Hn Hpk t.
  pose proof Hk as [Hbs Hcb Hcomp Hmac]. destruct (tag_spec k cc (seqnr (p_send (st s))) plain Hk) as (Htl & Ht64 & _).
  fold t in Htl, Ht64.
  assert (Hbl : buffer_len (outgoing_packet (st s)) = Z.of_nat (length plain))
    by (rewrite buffer_len_contents, Hplain; done).
  unfold BUFFER_MAX_CHUNK in Hl.
  unfold send2_transmit. mstep. mstep. rewrite Hbl, Hplain.
  rewrite (u32_small (Z.of_nat (length plain) - 4)) by lia.
  set (mac_on := match k with Some _ => _ | None => false end).
  assert (Hon : mac_on = mac_is_on k) by done.
  assert (∃ mb, (match k with
      | Some k0 => if mac_on then liftO (mac_compute (nk_mac k0) (seqnr (p_send (st s))) plain) else mret []
      | None => mret [] end) s = Ok (mb, s) ∧
      match k with Some nk => mac_is_on k = true → take (Z.to_nat (mac_len (nk_mac nk))) mb = t | None => True end)
    as (mb & Emb & Htake).
  { unfold t, tag. rewrite Hon. destruct k as [nk|]; [|by exists []]. destruct (mac_is_on (Some nk)); [|by exists []].
    destruct (mac_compute_spec (nk_mac nk) (seqnr (p_send (st s))) plain (Hmac eq_refl)) as (mb & E & _).
    exists mb. rewrite E. done. }
  mstep_by Emb. mstep. mstep. rewrite Hcc.
  rewrite <- Hcb in Hp, Hmod.
  destruct (append_crypt_spec cc d (output (st s)) n plain Hp Hr Hb Hmod) as
    (o1 & c & e' & d' & Ea & Co & Ro & He & Hd & Hlc & Hbc & Hp'); [lia|unfold BUFFER_MAX_CHUNK; lia|].
  mlift Ea. mstep.
  set (s1 := s <| st := _ |>).
  assert (∃ o2, (match k with
      | Some k0 => when mac_on (on_buf output (λ b, buffer_append b (take (Z.to_nat (mac_len (nk_mac k0))) mb)))
      | None => skip end) s1 = Ok (tt, s1 <| st := (st s1) <| output := o2 |> |>) ∧
      contents o2 = contents o1 ++ t ∧ roomy o2 (n - Z.of_nat (length plain) - Z.of_nat (length t)))
    as (o2 & Eo2 & Co2 & Ro2).
  { assert (Hnil : t = [] → ∃ o2, (skip : M ssh unit) s1 = Ok (tt, s1 <| st := (st s1) <| output := o2 |> |>) ∧
      contents o2 = contents o1 ++ t ∧ roomy o2 (n - Z.of_nat (length plain) - Z.of_nat (length t))).
    { intros ->. exists o1. rewrite app_nil_r, Z.sub_0_r. split_and!; done. }
    rewrite Hon. destruct k as [nk|]; [|by apply Hnil].
    destruct (mac_is_on (Some nk)) eqn:Eon; [|apply Hnil; unfold t, tag; by rewrite Eon].
    simpl when. rewrite (Htake eq_refl).
    destruct (append_roomy o1 _ t Ro) as (o2 & E2 & C2 & R2); [lia|unfold BUFFER_MAX_CHUNK; lia|].
    exists o2. split; [|done]. erewrite on_buf_Ok; [|exact E2]. done. }
  mstep_by Eo2. mstep. mstep. mstep. unfold s1. clear Eo2 s1.
  rsimpl. rewrite (u32_small (packets (p_send (st s)) + 1)) by lia.
  rewrite (proj2 (Z.eqb_neq (packets (p_send (st s)) + 1) 0)) by lia. simpl andb. cbv iota.
  mstep. mstep. rewrite (on_buf_Ok outgoing_packet (λ b, Ok (buffer_clear b)) _ _ eq_refl).
  exists c, e', d', o2. split_and!; try done.
  - rsimpl.
    replace (Z.of_nat (length plain) - 4 + 4) with (Z.of_nat (length plain)) by lia.
    rewrite (u32_small (Z.of_nat (length plain))) by lia. unfold sent_counters.
    rewrite (u32_small (packets (p_send (st s)) + 1)) by lia. done.
  - rewrite Co2, Co. by rewrite app_assoc.
  - by rewrite <- Hcb.
Qed.

(** A session that can send: its outgoing keys, the peer's decryption context
    [d], and room for [n] bytes of output. *)
Record sendable (k : option Newkeys) (cc : CipherContext) (d : evp) (n : Z) (s : ssh) : Prop := {
  sd_c20 : compat20 s = true;
  sd_keys : newkeys_out (st s) = k;
  sd_good : keys_good k cc;
  sd_cc : send_context (st s) = Some cc;
  sd_pair : paired (bs_of k) (cc_evp cc) d;
  sd_pad : extra_pad (st s) = 0;
  sd_out : roomy (output (st s)) n;
  sd_pk : 0 ≤ packets (p_send (st s)) < 2 ^ 32 - 1
}.

(** Messages that do not change keys. *)
Definition plain_type (type : Z) (s : ssh) : Prop :=
  is_u8 type ∧ type ≠ SSH2_MSG_NEWKEYS ∧ ~ (type = SSH2_MSG_USERAUTH_SUCCESS ∧ server_side (st s) ≠ 0).

Lemma frame_bytes body pad : bytes body → bytes pad → (length pad < 256)%nat → bytes (frame body pad).
Proof.
  intros Hb Hp Hl. unfold frame, bytes. rewrite !Forall_app. split_and!; [apply put_u32_bytes| |done|done].
  constructor; [unfold is_u8; lia|constructor].
Qed.

(** One packet up to the key changes: the output grows by the encrypted frame
    and its tag. *)
Lemma send2_wrapped_gen k cc d n s h type payload :
  sendable k cc d n s → is_u8 type →
  contents (outgoing_packet (st s)) = h ++ type :: payload → length h = 5%nat → bytes payload →
  roomy (outgoing_packet (st s)) 20 →
  Z.of_nat (length payload) + 128 ≤ n → Z.of_nat (length payload) ≤ 2 ^ 18 →
  ∃ pad m c e' d' o' ob',
    let fr := frame (type :: payload) pad in
    let t := tag k (seqnr (p_send (st s))) fr in
    packet_send2_wrapped s =
    send2_keys type (s <| n_rand := m |>
              <| st := (st s) <| output := o' |>
                 <| send_context := Some (mkCC (plaintext cc) e' (cc_cipher cc)) |>
                 <| p_send := sent_counters (p_send (st s)) (bs_of k) (Z.of_nat (length fr)) |>
                 <| outgoing_packet := ob' |> |>) ∧
    contents o' = contents (output (st s)) ++ c ++ t ∧
    EVP_Cipher (cc_evp cc) fr = Some (c, e') ∧ EVP_Cipher d c = Some (fr, d') ∧
    length c = length fr ∧ paired (bs_of k) e' d' ∧ bytes c ∧
    roomy o' (n - Z.of_nat (length fr) - Z.of_nat (length t)) ∧
    bytes pad ∧ Z.of_nat (length pad) = base_padlen (bs_of k) (6 + Z.of_nat (length payload)) ∧
    Z.of_nat (length fr) mod bs_of k = 0 ∧
    contents ob' = [] ∧ wf ob'.
Proof.
  intros [Hc20 Hk Hg Hcc Hp Hex Hout Hpk] Hty Hcont Hh Hb Hob Hn Hl.
  pose proof Hg as [Hbs _ _ _].
  unfold packet_send2_wrapped. mstep. rewrite Hk. fold (bs_of k). mstep.
  assert (Hpeek : peek (outgoing_packet (st s)) 5 = Ok type).
  { apply peek_contents; [apply Hob|done|]. rewrite Hcont. rewrite lookup_app_r by lia.
    rewrite Hh. done. }
  mlift Hpeek.
  destruct (send2_format_spec k cc s h (type :: payload) 20 Hg Hcc Hex Hcont Hh) as
    (pad & m & ob1 & Ef & Cf & Lf & Bf & Rf); [simpl length; lia|done|done|].
  mstep_by Ef. 
  assert (Hpl := base_padlen_spec (bs_of k) (5 + Z.of_nat (length (type :: payload))) Hbs ltac:(lia)).
  rewrite <- Lf in Hpl. destruct Hpl as [Hpl Hpm].
  assert (Hp20 : Z.of_nat (length pad) < 20) by (destruct Hbs; lia).
  set (fr := frame (type :: payload) pad) in *.
  assert (Hfl : Z.of_nat (length fr) = 6 + Z.of_nat (length payload) + Z.of_nat (length pad))
    by (unfold fr; rewrite frame_length; simpl length; lia).
  assert (Hfm : Z.of_nat (length fr) mod bs_of k = 0)
    by (rewrite Hfl; rewrite <- Hpm; f_equal; simpl length; lia).
  set (s1 := s <| n_rand := m |> <| st := _ |>).
  destruct (send2_transmit_spec k cc d s1 fr n Hg) as
    (c & e' & d' & o' & Et & Co & He & Hd & Hlc & Hbc & Hp' & Ro).
  - exact Hcc.
  - exact Hp.
  - exact Cf.
  - apply Rf.
  - apply frame_bytes; [by constructor|done|lia].
  - exact Hfm.
  - unfold BUFFER_MAX_CHUNK. lia.
  - exact Hout.
  - lia.
  - exact Hpk.
  - exists pad, m, c, e', d', o', (buffer_clear ob1). cbv zeta. fold fr.
    destruct (buffer_clear_spec ob1) as [Wc Cc]; [apply Rf|].
    split_and!; try done.
    + by mstep_by Et.
    + rewrite Lf. f_equal. simpl length. lia.
Qed.

(** One packet: the output grows by the encrypted frame and its tag. *)
Lemma send2_wrapped_spec k cc d n s h type payload :
  sendable k cc d n s → plain_type type s →
  contents (outgoing_packet (st s)) = h ++ type :: payload → length h = 5%nat → bytes payload →
  roomy (outgoing_packet (st s)) 20 →
  Z.of_nat (length payload) + 128 ≤ n → Z.of_nat (length payload) ≤ 2 ^ 18 →
  ∃ pad m c e' d' o' ob',
    let fr := frame (type :: payload) pad in
    let t := tag k (seqnr (p_send (st s))) fr in
    packet_send2_wrapped s =
    Ok (tt, s <| n_rand := m |>
              <| st := (st s) <| output := o' |>
                 <| send_context := Some (mkCC (plaintext cc) e' (cc_cipher cc)) |>
                 <| p_send := sent_counters (p_send (st s)) (bs_of k) (Z.of_nat (length fr)) |>
                 <| outgoing_packet := ob' |> |>) ∧
    contents o' = contents (output (st s)) ++ c ++ t ∧
    EVP_Cipher (cc_evp cc) fr = Some (c, e') ∧ EVP_Cipher d c = Some (fr, d') ∧
    length c = length fr ∧ paired (bs_of k) e' d' ∧ bytes c ∧
    roomy o' (n - Z.of_nat (length fr) - Z.of_nat (length t)) ∧
    bytes pad ∧ Z.of_nat (length pad) = base_padlen (bs_of k) (6 + Z.of_nat (length payload)) ∧
    Z.of_nat (length fr) mod bs_of k = 0 ∧
    contents ob' = [] ∧ wf ob'.
Proof.
  intros Hs (Hty & Hnk & Hua) Hcont Hh Hb Hob Hn Hl.
  destruct (send2_wrapped_gen k cc d n s h type payload Hs Hty Hcont Hh Hb Hob Hn Hl) as
    (pad & m & c & e' & d' & o' & ob' & E & Hrest).
  exists pad, m, c, e', d', o', ob'. split; [|exact Hrest]. cbv zeta in E. rewrite E. unfold send2_keys. mstep.
  rewrite (proj2 (Z.eqb_neq type SSH2_MSG_NEWKEYS)) by done. rsimpl.
  assert (Hw2 : (type =? SSH2_MSG_USERAUTH_SUCCESS) && negb (server_side (st s) =? 0) = false).
  { destruct (Z.eqb_spec type SSH2_MSG_USERAUTH_SUCCESS), (Z.eqb_spec (server_side (st s)) 0); try done. tauto. }
  by rewrite Hw2.
Qed.

(** ** Receiving *)

(** Room for the largest packet. *)
Definition PACKET_ROOM : Z := 2 ^ 20.

Lemma clear_room b : wf b → roomy (buffer_clear b) PACKET_ROOM ∧ contents (buffer_clear b) = [].
Proof. intros Hw. split; [by apply clear_roomy|apply (buffer_clear_spec b Hw)]. Qed.

Lemma consume_head b l rest :
  wf b → contents b = l ++ rest →
  ∃ b', buffer_consume b (Z.of_nat (length l)) = Ok b' ∧ wf b' ∧ contents b' = rest ∧
    alloc b' = alloc b ∧ end_ b' = end_ b.
Proof.
  intros Hw Hc. pose proof (buffer_consume_spec b (Z.of_nat (length l)) Hw ltac:(lia)) as Hs.
  rewrite Hc, length_app, (proj2 (Z.leb_le _ _)) in Hs by lia.
  destruct Hs as (b' & E & W & A & D & C). exists b'. split_and!; try done.
  rewrite C, Nat2Z.id. apply drop_app_length.
Qed.

Lemma read2_first_spec k cc r c1 rest x1 e1 :
  keys_usable k cc → receive_context (st r) = Some cc → packlen (st r) = 0 →
  wf (input (st r)) → contents (input (st r)) = c1 ++ rest → Z.of_nat (length c1) = bs_of k →
  wf (incoming_packet (st r)) →
  EVP_Cipher (cc_evp cc) c1 = Some (x1, e1) → length x1 = length c1 →
  let pl := get_u32 (take 4 x1) in
  5 ≤ pl ≤ PACKET_MAX_SIZE →
  ∃ ob ib, read2_first k (bs_of k) r =
    Ok (true, r <| st := (st r) <| incoming_packet := ob |>
                  <| receive_context := Some (mkCC (plaintext cc) e1 (cc_cipher cc)) |>
                  <| packlen := pl |> <| input := ib |> |>) ∧
    contents ob = x1 ∧ roomy ob (PACKET_ROOM - bs_of k) ∧ contents ib = rest ∧ wf ib.
Proof.
  intros Hg Hcc Hpl Hw Hin Hc1 Hheld He Hx1 pl Hplr.
  pose proof Hg as [Hbs Hcb _]. assert (8 ≤ bs_of k ≤ 16) by (destruct Hbs; lia).
  unfold read2_first. mstep. rewrite Hpl. ifz. mstep.
  rewrite buffer_len_contents, Hin, length_app by done. rewrite (proj2 (Z.ltb_ge _ _)) by lia.
  rewrite (M_bind_Ok _ _ _ _ _ (on_buf_Ok incoming_packet (λ b, Ok (buffer_clear b)) r _ eq_refl)). cbv beta iota.
  mstep. mstep. rsimpl. rewrite Hcc.
  destruct (clear_room _ Hheld) as [Hr0 Hc0].
  assert (Hpk : peek_bytes (input (st r)) (bs_of k) = Ok c1).
  { rewrite peek_bytes_contents by (done || rewrite Hin, length_app; lia). rewrite Hin, <- Hc1, Nat2Z.id.
    by rewrite take_app_length. }
  mlift Hpk.
  destruct (append_crypt_gen cc (buffer_clear (incoming_packet (st r))) PACKET_ROOM c1 x1 e1 Hr0 He Hx1) as (ob & Ea & Ca & Ra).
  { rewrite Hcb, Hc1. apply Z.mod_same. lia. }
  { unfold PACKET_ROOM. lia. } { unfold BUFFER_MAX_CHUNK. lia. }
  mlift Ea. mstep. rewrite Hc0 in Ca. simpl in Ca.
  assert (Hhd : peek_bytes ob 4 = Ok (take 4 x1)).
  { rewrite peek_bytes_contents by (apply Ra || rewrite Ca; lia). by rewrite Ca. }
  mlift Hhd. fold pl. mstep. rewrite (proj2 (Z.ltb_ge pl _)), (proj2 (Z.ltb_ge _ pl)) by lia. bred.
  destruct (consume_head (input (st r)) c1 rest Hw Hin) as (ib & Ec & Wc & Cc & _). rewrite Hc1 in Ec.
  mbuf Ec. exists ob, ib. rewrite Hc1 in Ra. split_and!; done.
Qed.

Lemma read2_rest_spec k cc r x1 c2 rest x2 e2 :
  let sn := seqnr (p_read (st r)) in
  keys_usable k cc → receive_context (st r) = Some cc →
  5 ≤ packlen (st r) ≤ PACKET_MAX_SIZE → bs_of k ≤ 4 + packlen (st r) →
  (4 + packlen (st r)) mod bs_of k = 0 →
  wf (input (st r)) → contents (input (st r)) = c2 ++ tag k sn (x1 ++ x2) ++ rest →
  Z.of_nat (length c2) = 4 + packlen (st r) - bs_of k →
  roomy (incoming_packet (st r)) (PACKET_ROOM - bs_of k) → contents (incoming_packet (st r)) = x1 →
  EVP_Cipher (cc_evp cc) c2 = Some (x2, e2) → length x2 = length c2 →
  ∃ ob ib, read2_rest k (bs_of k) r =
    Ok (true, r <| st := (st r) <| incoming_packet := ob |>
                  <| receive_context := Some (mkCC (plaintext cc) e2 (cc_cipher cc)) |>
                  <| input := ib |> |>) ∧
    contents ob = x1 ++ x2 ∧ wf ob ∧ contents ib = rest ∧ wf ib.
Proof.
  intros sn Hg Hcc Hpl Hbpl Hmod Hw Hin Hc2 Hr Hx1 He Hx2.
  pose proof Hg as [Hbs Hcb Hmac]. assert (8 ≤ bs_of k ≤ 16) by (destruct Hbs; lia).
  destruct (tag_spec k cc sn (x1 ++ x2) Hg) as (Htl & Ht64 & _). unfold PACKET_MAX_SIZE in *.
  unfold read2_rest. mstep. rewrite (u32_small (4 + packlen (st r) - bs_of k)) by lia.
  assert (Hnm : (4 + packlen (st r) - bs_of k) mod bs_of k = 0).
  { replace (4 + packlen (st r) - bs_of k) with (4 + packlen (st r) + -1 * bs_of k) by lia.
    by rewrite Z_mod_plus_full. }
  rewrite Hnm. ifz. mstep.
  set (maclen := match k with Some _ => _ | None => 0 end) in *.
  rewrite buffer_len_contents, Hin, !length_app by done. rewrite u32_small by lia.
  rewrite (proj2 (Z.ltb_ge _ _)) by lia. mstep. mstep.
  assert (Hpk : peek_bytes (input (st r)) (4 + packlen (st r) - bs_of k) = Ok c2).
  { rewrite peek_bytes_contents by (done || rewrite Hin, !length_app; lia).
    rewrite Hin, <- Hc2, Nat2Z.id. by rewrite take_app_length. }
  mlift Hpk. rewrite Hcc.
  destruct (append_crypt_gen cc (incoming_packet (st r)) _ c2 x2 e2 Hr He Hx2) as (ob & Ea & Ca & Ra).
  { by rewrite Hcb, Hc2. } { unfold PACKET_ROOM. lia. } { unfold BUFFER_MAX_CHUNK. lia. }
  mlift Ea. mstep. rewrite Hx1 in Ca.
  destruct (consume_head (input (st r)) c2 _ Hw Hin) as (ib & Ec & Wc & Cc & _). rewrite Hc2 in Ec.
  mbuf Ec. rsimpl.
  assert (Hheld : wf ob) by apply Ra.
  assert (Hno : tag k sn (x1 ++ x2) = [] → contents ib = rest) by (intros E; by rewrite Cc, E).
  destruct k as [nk|]; [|exists ob, ib; split_and!; try done; by apply Hno].
  destruct (mac_is_on (Some nk)) eqn:Eon; [|exists ob, ib; split_and!; try done; apply Hno; unfold tag; by rewrite Eon].
  mstep. rsimpl. rewrite Ca. destruct (mac_compute_spec (nk_mac nk) sn (x1 ++ x2) (Hmac eq_refl)) as (mb & Emb & Hml & _).
  mlift Emb. mstep. rsimpl.
  assert (Ht : tag (Some nk) sn (x1 ++ x2) = take (Z.to_nat (mac_len (nk_mac nk))) mb)
    by (unfold tag; by rewrite Eon, Emb).
  destruct (Hmac eq_refl) as [Hml0 _].
  assert (Hth : peek_bytes ib maclen = Ok (take (Z.to_nat (mac_len (nk_mac nk))) mb)).
  { rewrite peek_bytes_contents by (done || rewrite Cc, length_app, Ht in *; unfold maclen; lia).
    rewrite Cc, Ht. unfold maclen. rewrite take_app_le by (rewrite length_take; lia).
    by rewrite take_take, Nat.min_id. }
  mlift Hth. unfold maclen.
  assert (Hcmp : timingsafe_bcmp mb (take (Z.to_nat (mac_len (nk_mac nk))) mb) (mac_len (nk_mac nk)) = 0).
  { apply timingsafe_bcmp_eq; [lia|rewrite length_take; lia|by rewrite take_take, Nat.min_id]. }
  rewrite Hcmp.
  ifz.
  destruct (consume_head ib _ rest Wc Cc) as (ib2 & Ec2 & Wc2 & Cc2 & _).
  rewrite Ht, length_take in Ec2. replace (Z.of_nat _) with (mac_len (nk_mac nk)) in Ec2 by lia.
  mbuf Ec2. exists ob, ib2. split_and!; done.
Qed.

(** The type and payload of a decrypted frame. *)
Lemma read2_finish_spec k cc r type payload pad :
  keys_good k cc → wf (incoming_packet (st r)) →
  contents (incoming_packet (st r)) = frame (type :: payload) pad →
  4 ≤ Z.of_nat (length pad) < 256 → packlen (st r) = Z.of_nat (length (frame (type :: payload) pad)) - 4 →
  Z.of_nat (length payload) ≤ 2 ^ 18 →
  0 ≤ packets (p_read (st r)) < 2 ^ 32 - 1 →
  (SSH2_MSG_MIN ≤ type < SSH2_MSG_LOCAL_MIN ∨ is_notify type = true) →
  type ≠ SSH2_MSG_NEWKEYS → ~ (type = SSH2_MSG_USERAUTH_SUCCESS ∧ server_side (st r) = 0) →
  ∃ ob, read2_finish k (bs_of k) r =
    Ok ((type, seqnr (p_read (st r))),
        r <| st := (st r) <| incoming_packet := ob |> <| packlen := 0 |>
              <| p_read := sent_counters (p_read (st r)) (bs_of k)
                             (Z.of_nat (length (frame (type :: payload) pad))) |> |>) ∧
    contents ob = payload ∧ wf ob.
Proof.
  intros [Hbs Hcb Hcomp Hmac] Hw Hcont Hpad Hpl Hpay Hpk Hty Hnk Hua.
  set (fr := frame (type :: payload) pad) in *.
  assert (Hfl : Z.of_nat (length fr) = 6 + Z.of_nat (length payload) + Z.of_nat (length pad))
    by (unfold fr; rewrite frame_length; simpl length; lia).
  unfold read2_finish. mstep. mstep. mstep. mstep. mstep. rsimpl.
  rewrite (u32_small (packets (p_read (st r)) + 1)) by lia.
  rewrite (proj2 (Z.eqb_neq (packets (p_read (st r)) + 1) 0)) by lia. rewrite andb_false_l. mstep. mstep. mstep. rsimpl.
  assert (Hpeek : peek (incoming_packet (st r)) 4 = Ok (Z.of_nat (length pad))).
  { apply peek_contents; [done|done|]. rewrite Hcont. done. }
  mlift Hpeek. rewrite (proj2 (Z.ltb_ge _ _)) by lia.
  destruct (consume_head (incoming_packet (st r)) (put_u32 (Z.of_nat (length (type :: payload)) + Z.of_nat (length pad) + 1)
     ++ [Z.of_nat (length pad)]) ((type :: payload) ++ pad) Hw) as (b1 & E1 & W1 & C1 & A1 & D1).
  { rewrite Hcont. unfold fr, frame. by rewrite <- app_assoc. }
  mbuf E1.
  pose proof (buffer_consume_end_spec b1 (Z.of_nat (length pad)) W1 ltac:(lia)) as Hs.
  rewrite C1, length_app, (proj2 (Z.leb_le _ _)) in Hs by lia.
  destruct Hs as (b2 & E2 & W2 & A2 & C2). mbuf E2.
  assert (Hc : match k with Some k0 => negb (comp_enabled (nk_comp k0) =? 0) | None => false end = false)
    by (destruct k as [k|]; [by rewrite Hcomp|done]).
  rewrite Hc. mstep.
  assert (C2' : contents b2 = [type] ++ payload).
  { rewrite C2. replace (_ - _)%nat with (length (type :: payload)) by lia. by rewrite take_app_length. }
  destruct (Items.get_ret_app b2 [type] payload W2 C2') as (b3 & E3 & W3 & C3).
  assert (Eg : buffer_get_char b2 = Ok (type, b3)).
  { unfold buffer_get_char, buffer_get_char_ret. simpl length in E3. change (Z.of_nat 1) with 1 in E3.
    by rewrite E3. }
  mbuf_get Eg.
  assert (Hok : ((type <? SSH2_MSG_MIN) || (SSH2_MSG_LOCAL_MIN <=? type)) && negb (is_notify type) = false).
  { destruct Hty as [Hty|Hn]; [|by rewrite Hn, andb_false_r].
    rewrite (proj2 (Z.ltb_ge _ _)), (proj2 (Z.leb_gt _ _)) by lia. done. }
  rewrite Hok. mstep. rewrite (proj2 (Z.eqb_neq type SSH2_MSG_NEWKEYS)) by done. rsimpl.
  assert (Hw2 : (type =? SSH2_MSG_USERAUTH_SUCCESS) && (server_side (st r) =? 0) = false).
  { destruct (Z.eqb_spec type SSH2_MSG_USERAUTH_SUCCESS), (Z.eqb_spec (server_side (st r)) 0); try done. tauto. }
  rewrite Hw2. mstep. mstep. exists b3. split.
  - rewrite Hpl. replace (Z.of_nat (length fr) - 4 + 4) with (Z.of_nat (length fr)) by lia.
    rewrite (u32_small (Z.of_nat (length fr))) by lia. unfold sent_counters.
    rewrite (u32_small (packets (p_read (st r)) + 1)) by lia. done.
  - done.
Qed.

(** A session that can receive. *)
Record receivable (k : option Newkeys) (cc : CipherContext) (r : ssh) : Prop := {
  rv_keys : newkeys_in (st r) = k;
  rv_good : keys_good k cc;
  rv_cc : receive_context (st r) = Some cc;
  rv_disc : packet_discard (st r) = 0;
  rv_len : packlen (st r) = 0;
  rv_in : wf (input (st r));
  rv_inc : wf (incoming_packet (st r));
  rv_pk : 0 ≤ packets (p_read (st r)) < 2 ^ 32 - 1
}.

(** Types that are delivered without changing keys. *)
Definition read_type (type : Z) (r : ssh) : Prop :=
  (SSH2_MSG_MIN ≤ type < SSH2_MSG_LOCAL_MIN ∨ is_notify type = true) ∧
  type ≠ SSH2_MSG_NEWKEYS ∧ ~ (type = SSH2_MSG_USERAUTH_SUCCESS ∧ server_side (st r) = 0).

End Proofs.
