(* ===== verification/PacketStream.v ===== *)
(** * Streams of packets: sending

    The bytes that [packet_start], [packet_put_raw] and [packet_send] put into
    the output for a message, and how they carry a list of messages to the
    other side. *)

From S2P Require Import Prelude ByteOrder Buffer Crc32 Deattack Stdio SuperTrace HashMap Csbuflo.
From S2P Require Import CipherMac Packet PacketRead PacketProofs.

(** A message: type and payload. *)
Abbreviation message := (Z * list Z)%type.

Section Stream.
Context `{CryptoLaws}.

(** How the callers of [packet.h] send a message. *)
Definition send_msg (m : message) : M ssh unit :=
  _ ← packet_start m.1; _ ← packet_put_raw m.2; packet_send.
Fixpoint send_all (ms : list message) : M ssh unit :=
  match ms with
  | [] => skip
  | m :: ms => _ ← send_msg m; send_all ms
  end.

(** Messages that leave the keys alone and are not held back by a key exchange. *)
Record msg_ok (srv_s srv_r rk : Z) (m : message) : Prop := {
  mo_type : is_u8 m.1 ∧ (SSH2_MSG_MIN ≤ m.1 < SSH2_MSG_LOCAL_MIN ∨ is_notify m.1 = true);
  mo_keys : m.1 ≠ SSH2_MSG_NEWKEYS ∧ m.1 ≠ SSH2_MSG_KEXINIT;
  mo_auth : ~ (m.1 = SSH2_MSG_USERAUTH_SUCCESS ∧ (srv_s ≠ 0 ∨ srv_r = 0));
  mo_rk : rk = 0 ∨ is_transport m.1 = true;
  mo_bytes : bytes m.2;
  mo_len : Z.of_nat (length m.2) + 262 ≤ PACKET_MAX_SIZE
}.

Definition weight (ms : list message) : Z := foldr (λ m a, Z.of_nat (length m.2) + 128 + a) 0 ms.

(** The bytes that carry a list of messages to a receiver in cipher state [d]
    that expects sequence number [sn]; it is then in state [d'] and expects
    [sn']. *)
Inductive carries_to (k : option Newkeys) : evp → Z → list message → list Z → evp → Z → Prop :=
| carries_to_nil d sn : carries_to k d sn [] [] d sn
| carries_to_cons e d d1 d' sn sn' type payload pad c ms w :
    let fr := frame (type :: payload) pad in
    paired (bs_of k) e d → EVP_Cipher d c = Some (fr, d1) → length c = length fr →
    Z.of_nat (length fr) mod bs_of k = 0 → 4 ≤ Z.of_nat (length pad) < 256 →
    carries_to k d1 (u32 (sn + 1)) ms w d' sn' →
    carries_to k d sn ((type, payload) :: ms) (c ++ tag k sn fr ++ w) d' sn'.

Definition carries (k : option Newkeys) (d : evp) (sn : Z) (ms : list message) (w : list Z) : Prop :=
  ∃ d' sn', carries_to k d sn ms w d' sn'.

Lemma carries_nil k d sn : carries k d sn [] [].
Proof. exists d, sn. constructor. Qed.
Lemma carries_cons k e d d' sn type payload pad c ms w :
  let fr := frame (type :: payload) pad in
  paired (bs_of k) e d → EVP_Cipher d c = Some (fr, d') → length c = length fr →
  Z.of_nat (length fr) mod bs_of k = 0 → 4 ≤ Z.of_nat (length pad) < 256 →
  carries k d' (u32 (sn + 1)) ms w →
  carries k d sn ((type, payload) :: ms) (c ++ tag k sn fr ++ w).
Proof. intros fr Hp Hd Hc Hm Hl (d2 & sn2 & Hca). exists d2, sn2. by eapply carries_to_cons. Qed.

Lemma carries_to_app k d sn ms w d1 sn1 ms' w' d2 sn2 :
  carries_to k d sn ms w d1 sn1 → carries_to k d1 sn1 ms' w' d2 sn2 →
  carries_to k d sn (ms ++ ms') (w ++ w') d2 sn2.
Proof.
  induction 1; intros Hc; [done|]. rewrite <- !app_assoc. simpl. by eapply carries_to_cons; eauto.
Qed.

(** ** Sending *)

Lemma build_msg_spec s type payload :
  compat20 s = true → wf (outgoing_packet (st s)) →
  Z.of_nat (length payload) + 262 ≤ PACKET_MAX_SIZE → is_u8 type →
  ∃ b s', (_ ← packet_start type; packet_put_raw payload) s = Ok (tt, s') ∧
    s' = s <| st := (st s) <| outgoing_packet := b |> |> ∧
    contents b = replicate 5 0 ++ type :: payload ∧ roomy b (PACKET_ROOM - 6 - Z.of_nat (length payload)).
Proof.
  intros Hc Hh Hl Hty. unfold PACKET_MAX_SIZE in Hl. destruct (clear_room _ Hh) as [Hr Hc0].
  unfold packet_start. 
  destruct (append_roomy (buffer_clear (outgoing_packet (st s))) PACKET_ROOM (replicate 5 0 ++ [u8 type]) Hr) as
    (b1 & E1 & C1 & R1); [simpl; unfold PACKET_ROOM; lia|simpl; unfold BUFFER_MAX_CHUNK; lia|].
  destruct (append_roomy b1 _ payload R1) as (b2 & E2 & C2 & R2);
    [simpl; unfold PACKET_ROOM; lia|unfold BUFFER_MAX_CHUNK; lia|].
  exists b2. eexists. split.
  { unfold packet_start. rewrite (M_bind_Ok _ _ s tt (s <| st := (st s) <| outgoing_packet := b1 |> |>)).
    2: { mstep. rewrite Hc. cbv iota zeta. by rewrite (on_buf_Ok outgoing_packet _ s b1). }
    cbv beta iota. unfold packet_put_raw. rewrite (on_buf_Ok outgoing_packet _ _ b2); [done|]. rsimpl. exact E2. }
  split_and!.
  - by rsimpl.
  - rewrite C2, C1, Hc0. rewrite app_nil_l, <- app_assoc. unfold u8. rewrite Z.mod_small by exact Hty. done.
  - eapply roomy_weaken; [exact R2|]. simpl. lia.
Qed.

(** Sending the packet that has been built: only the session and the position
    in the random numbers change, and the output grows by bytes that carry the
    message. *)
Lemma send_built_spec k cc d n s srv_r type payload :
  sendable k cc d n s → contents (outgoing_packet (st s)) = replicate 5 0 ++ type :: payload →
  roomy (outgoing_packet (st s)) 20 → packets (p_send (st s)) + 1 < 2 ^ 32 - 1 →
  msg_ok (server_side (st s)) srv_r (rekeying (st s)) (type, payload) → Z.of_nat (length payload) + 128 ≤ n →
  ∃ m x cc' d' c pad,
    let fr := frame (type :: payload) pad in
    let sn := seqnr (p_send (st s)) in
    let s' := s <| n_rand := m |> <| st := x |> in
    packet_send s = Ok (tt, s') ∧
    sendable k cc' d' (n - Z.of_nat (length fr) - Z.of_nat (length (tag k sn fr))) s' ∧ wf (outgoing_packet x) ∧
    packets (p_send x) = packets (p_send (st s)) + 1 ∧ seqnr (p_send x) = u32 (sn + 1) ∧
    server_side x = server_side (st s) ∧ rekeying x = rekeying (st s) ∧
    contents (output x) = contents (output (st s)) ++ c ++ tag k sn fr ∧
    EVP_Cipher d c = Some (fr, d') ∧ length c = length fr ∧ Z.of_nat (length fr) mod bs_of k = 0 ∧
    Z.of_nat (length pad) = base_padlen (bs_of k) (6 + Z.of_nat (length payload)).
Proof.
  intros Hs Cb Rb Hpk [Hty Hks Hau Hrk Hby Hlen] Hn. simpl in *. unfold PACKET_MAX_SIZE in Hlen.
  pose proof Hs as [Hc20 Hk Hg Hcc Hp Hex Hout Hpk'].
  destruct (send2_wrapped_spec k cc d n s (replicate 5 0) type payload Hs) as
    (pad & m & c & e' & d' & o' & ob' & Ew & Co & He & Hd & Hlc & Hp' & Hbc & Ro & Bp & Lp & Hm & Cob & Wob);
    [split_and!; [apply Hty|apply Hks|intros [-> ?]; apply Hau; auto]|exact Cb|done|done|exact Rb|lia|lia|].
  set (fr := frame (type :: payload) pad) in *.
  eexists m, _, (mkCC (plaintext cc) e' (cc_cipher cc)), d', c, pad. cbv zeta. fold fr. split.
  { unfold packet_send. mstep. rewrite Hc20. cbv iota. unfold packet_send2. mstep.
    assert (Hpeek : peek (outgoing_packet (st s)) 5 = Ok type).
    { apply peek_contents; [apply Rb|done|]. by rewrite Cb. }
    mlift Hpeek. mstep.
    assert (negb (rekeying (st s) =? 0) && negb (is_transport type) = false) as ->
      by (destruct Hrk as [->| ->]; [done|apply andb_false_r]).
    rewrite (proj2 (Z.eqb_neq type SSH2_MSG_KEXINIT)) by apply Hks. mstep. mstep_by Ew.
    rewrite (proj2 (Z.eqb_neq type SSH2_MSG_NEWKEYS)) by apply Hks. reflexivity. }
  rsimpl. split_and!; try done; try lia.
  - split; rsimpl; try done.
    + destruct Hg; by split.
    + cbn [sent_counters packets]. rewrite u32_small; lia.
  - cbn [sent_counters packets]. rewrite u32_small; lia.
Qed.

(** The size of what is sent for a message. *)
Lemma frame_size k cc sn type payload pad :
  keys_good k cc → Z.of_nat (length pad) = base_padlen (bs_of k) (6 + Z.of_nat (length payload)) →
  let fr := frame (type :: payload) pad in
  Z.of_nat (length payload) + 10 ≤ Z.of_nat (length fr) ≤ Z.of_nat (length payload) + 25 ∧
  4 ≤ Z.of_nat (length pad) < 20 ∧ Z.of_nat (length (tag k sn fr)) ≤ 64.
Proof.
  intros Hg Lp fr.
  pose proof (base_padlen_spec (bs_of k) (6 + Z.of_nat (length payload)) (kg_bs _ _ Hg) ltac:(lia)) as [Hpl _].
  rewrite <- Lp in Hpl. assert (Hbs : bs_of k ≤ 16) by (destruct (kg_bs _ _ Hg); lia).
  destruct (tag_spec k cc sn fr Hg) as (_ & Ht & _). unfold fr in *. rewrite frame_length. simpl length. lia.
Qed.

(** One message: the output grows by bytes that carry it. *)
Lemma send_msg_spec k cc d n s srv_r m :
  sendable k cc d n s → wf (outgoing_packet (st s)) → packets (p_send (st s)) + 1 < 2 ^ 32 - 1 →
  msg_ok (server_side (st s)) srv_r (rekeying (st s)) m → Z.of_nat (length m.2) + 128 ≤ n →
  ∃ s' cc' d' c pad,
    let fr := frame (m.1 :: m.2) pad in
    let sn := seqnr (p_send (st s)) in
    send_msg m s = Ok (tt, s') ∧
    sendable k cc' d' (n - (Z.of_nat (length m.2) + 128)) s' ∧ wf (outgoing_packet (st s')) ∧
    packets (p_send (st s')) = packets (p_send (st s)) + 1 ∧ seqnr (p_send (st s')) = u32 (sn + 1) ∧
    server_side (st s') = server_side (st s) ∧ rekeying (st s') = rekeying (st s) ∧
    contents (output (st s')) = contents (output (st s)) ++ c ++ tag k sn fr ∧
    EVP_Cipher d c = Some (fr, d') ∧ length c = length fr ∧
    Z.of_nat (length fr) mod bs_of k = 0 ∧ 4 ≤ Z.of_nat (length pad) < 20.
Proof.
  destruct m as [type payload]. intros Hs Hh Hpk Hm Hn. pose proof Hm as [Hty _ _ _ _ Hlen]. simpl in *.
  destruct (build_msg_spec s type payload (sd_c20 _ _ _ _ _ Hs) Hh Hlen (proj1 Hty)) as (b & s1 & E1 & -> & Cb & Rb).
  apply (roomy_weaken _ _ 20) in Rb; [|unfold PACKET_ROOM, PACKET_MAX_SIZE in *; lia].
  set (s1 := s <| st := _ |>) in *.
  assert (Hs1 : sendable k cc d n s1) by (destruct Hs; by split).
  destruct (send_built_spec k cc d n s1 srv_r type payload Hs1 Cb Rb Hpk Hm Hn) as
    (m & x & cc' & d' & c & pad & E & Hs' & Hh' & Hp' & Hsn & Hsv & Hrk & Co & Hd & Hlc & Hmod & Lp).
  destruct (frame_size k cc (seqnr (p_send (st s1))) type payload pad (sd_good _ _ _ _ _ Hs) Lp) as (Hf & Hpl & Ht).
  eexists _, cc', d', c, pad. cbv zeta. split.
  { unfold send_msg. rewrite M_bind_assoc. cbn [fst snd]. mstep_by E1. exact E. }
  split_and!; try done; try lia. destruct Hs'. split; try done. eapply roomy_weaken; [done|]. lia.
Qed.

End Stream.

(** ** Two sessions with AES and HMAC keys *)
Module Demo.
Import Toy.

Definition demo_mac : Mac :=
  mkMac "hmac-sha1" 1 20 (Some [1; 2; 3]) 20 SSH_EVP (Some EVP_sha1) (Some (EVP_sha1, [1; 2; 3])) None.
Definition demo_keys : Newkeys :=
  mkNewkeys (mkEnc (mkCipher "aes128-ctr" SSH_CIPHER_SSH2 16 16 0 0 evp_aes_128_ctr) 16 16 [5] [6])
    demo_mac (mkComp 0 0).
Definition demo_cc : CipherContext := mkCC false 7 (enc_cipher (nk_enc demo_keys)).
Definition demo_env : env := mkEnv (λ n, Z.of_nat n) (λ n, 12345 * Z.of_nat n) (λ _, 0) (λ _, WBlock) None None.
Definition demo_session (server : Z) : session_state :=
  session_init <| send_context := Some demo_cc |> <| receive_context := Some demo_cc |>
    <| newkeys_in := Some demo_keys |> <| newkeys_out := Some demo_keys |> <| initialized := 1 |>
    <| input := buffer_init |> <| output := buffer_init |> <| outgoing_packet := buffer_init |>
    <| incoming_packet := buffer_init |> <| server_side := server |>.
Definition demo (server : Z) : ssh :=
  {| st := demo_session server; backup_state := None; g := globals_init; compat20 := true; datafellows := 0;
     packet_tau := 0; packet_time_to_write := 0; current_keys_in := None; current_keys_out := None;
     outgoing_stream := tt; incoming_stream := tt; attack_table := deattack_init; wire := [];
     world := demo_env; n_time := 0; n_rand := 0; n_outq := 0; n_write := 0 |}.

Definition demo_messages : list (Z * list Z) := [(94, [0; 0; 0; 1; 104; 105]); (93, [1; 2; 3])].

Lemma buffer_init_roomy n : 2 * n ≤ ROOM → roomy buffer_init n.
Proof. intros Hn. split; [apply buffer_init_wf|exact Hn]. Qed.

Lemma demo_good : keys_good (Some demo_keys) demo_cc.
Proof.
  split; [by right|done|done|]. intros _. split; [split; discriminate|]. left. split; [done|].
  eexists _, _. split; [reflexivity|discriminate].
Qed.

Lemma demo_sendable : sendable (Some demo_keys) demo_cc (cc_evp demo_cc) 1000 (demo 0).
Proof. split; try done; first [apply demo_good | by apply buffer_init_roomy]. Qed.

End Demo.
