(* ===== verification/PacketLink.v ===== *)
(** * Streams of packets: receiving

    What one side sends, the other side gets from [packet_read_poll2], in order
    and unchanged, while the connection carries the bytes in pieces of any size
    and the receiver polls at any time, also in the middle of a packet; and
    nothing that fails the MAC check is delivered. *)

From S2P Require Import Prelude ByteOrder Buffer Crc32 Deattack Stdio SuperTrace HashMap Csbuflo.
From S2P Require Import CipherMac Packet PacketRead PacketProofs PacketStream.

Section Link.
Context `{CryptoLaws}.

(** ** One packet *)

(** The bytes of a packet behind its first block: the rest of the cipher text
    and the tag. *)
Definition mac_size (k : option Newkeys) : Z :=
  match k with Some nk => if mac_is_on k then mac_len (nk_mac nk) else 0 | None => 0 end.

(** A receiver that has decrypted the first block [x1] of the packet [fr] and
    waits for the rest. *)
Record midway (k : option Newkeys) (cc : CipherContext) (r : ssh) (fr x1 x2 : list Z) : Prop := {
  mw_keys : newkeys_in (st r) = k;
  mw_good : keys_good k cc;
  mw_cc : receive_context (st r) = Some cc;
  mw_disc : packet_discard (st r) = 0;
  mw_len : packlen (st r) = Z.of_nat (length fr) - 4;
  mw_in : wf (input (st r));
  mw_inc : roomy (incoming_packet (st r)) (PACKET_ROOM - bs_of k);
  mw_x1 : contents (incoming_packet (st r)) = x1;
  mw_fr : fr = x1 ++ x2;
  mw_bs : Z.of_nat (length x1) = bs_of k;
  mw_pk : 0 ≤ packets (p_read (st r)) < 2 ^ 32 - 1
}.

(** What is known of a packet on the wire. *)
Record packet_on (k : option Newkeys) (type : Z) (payload pad : list Z) : Prop := {
  po_mod : Z.of_nat (length (frame (type :: payload) pad)) mod bs_of k = 0;
  po_pad : 4 ≤ Z.of_nat (length pad) < 256;
  po_len : Z.of_nat (length payload) + 262 ≤ PACKET_MAX_SIZE
}.

Lemma packet_on_size k cc type payload pad :
  keys_usable k cc → packet_on k type payload pad →
  let fr := frame (type :: payload) pad in
  Z.of_nat (length fr) = 6 + Z.of_nat (length payload) + Z.of_nat (length pad) ∧
  bs_of k ≤ Z.of_nat (length fr) ≤ PACKET_MAX_SIZE + 4 ∧ 8 ≤ bs_of k ≤ 16.
Proof.
  intros [Hbs _ _] [Hm Hp Hl] fr. unfold PACKET_MAX_SIZE in *.
  assert (Hfl : Z.of_nat (length fr) = 6 + Z.of_nat (length payload) + Z.of_nat (length pad))
    by (unfold fr; rewrite frame_length; simpl length; lia).
  fold fr in Hm. assert (8 ≤ bs_of k ≤ 16) by (destruct Hbs; lia). split_and!; try lia.
  pose proof (Z.div_mod (Z.of_nat (length fr)) (bs_of k) ltac:(lia)). destruct Hbs as [E|E]; rewrite E in *; lia.
Qed.

(** The session after the rest of a packet has been read. *)
Abbreviation packet_read r ob cc d' ib k fr :=
  (r <| st := (st r) <| incoming_packet := ob |>
        <| receive_context := Some (mkCC (plaintext cc) d' (cc_cipher cc)) |>
        <| packlen := 0 |> <| input := ib |>
        <| p_read := sent_counters (p_read (st r)) (bs_of k) (Z.of_nat (length fr)) |> |>).

(** From the middle of a packet, with the rest of it there. *)
Lemma poll_midway k cc r x1 x2 c2 rest type payload pad d' :
  let fr := frame (type :: payload) pad in
  midway k cc r fr x1 x2 → packet_on k type payload pad → read_type type r →
  EVP_Cipher (cc_evp cc) c2 = Some (x2, d') → length x2 = length c2 →
  contents (input (st r)) = c2 ++ tag k (seqnr (p_read (st r))) fr ++ rest →
  ∃ ob ib, packet_read_poll2 r = Ok ((type, seqnr (p_read (st r))), packet_read r ob cc d' ib k fr) ∧
    contents ob = payload ∧ wf ob ∧ contents ib = rest ∧ wf ib.
Proof.
  intros fr [Hk Hg Hcc Hd Hpl Hw Hinc Hx1 Hfr Hl1 Hpk] Hon (Hty & Hnk & Hua) He Hx2 Hin.
  destruct (packet_on_size k cc type payload pad Hg Hon) as (Hfl & Hsz & Hb16). fold fr in Hfl, Hsz.
  pose proof Hon as [Hmod Hpad Hlen]. fold fr in Hmod. unfold PACKET_MAX_SIZE in *.
  unfold packet_read_poll2. mstep. rewrite Hd. ifz. mstep. rewrite Hk. fold (bs_of k).
  assert (E1 : read2_first k (bs_of k) r = Ok (true, r)).
  { unfold read2_first. mstep. rewrite Hpl. by rewrite (proj2 (Z.eqb_neq _ _)) by lia. }
  mstep_by E1. cbn [negb].
  assert (Hl2 : Z.of_nat (length c2) = 4 + packlen (st r) - bs_of k).
  { rewrite Hpl, Hfr, length_app. lia. }
  destruct (read2_rest_spec k cc r x1 c2 rest x2 d' Hg Hcc) as (ob2 & ib2 & Er2 & Co2 & Ro2 & Ci2 & Wi2);
    try done; try (unfold PACKET_MAX_SIZE; lia).
  { rewrite Hpl. by replace (4 + (Z.of_nat (length fr) - 4)) with (Z.of_nat (length fr)) by lia. }
  { by rewrite <- Hfr. }
  mstep_by Er2. cbn [negb].
  destruct (read2_finish_spec k cc (r <| st := (st r) <| incoming_packet := ob2 |>
     <| receive_context := Some (mkCC (plaintext cc) d' (cc_cipher cc)) |> <| input := ib2 |> |>) type payload pad Hg)
    as (ob3 & Er3 & Co3 & Ho3); try done; [rsimpl; by rewrite Co2, <- Hfr|lia|].
  by exists ob3, ib2.
Qed.

(** With less than the rest of it nothing happens. *)
Lemma poll_midway_short k cc r x1 x2 type payload pad :
  let fr := frame (type :: payload) pad in
  midway k cc r fr x1 x2 → packet_on k type payload pad →
  Z.of_nat (length (contents (input (st r)))) < Z.of_nat (length x2) + mac_size k →
  packet_read_poll2 r = Ok ((SSH_MSG_NONE, 0), r).
Proof.
  intros fr [Hk Hg Hcc Hd Hpl Hw Hinc Hx1 Hfr Hl1 Hpk] Hon Hshort.
  destruct (packet_on_size k cc type payload pad Hg Hon) as (Hfl & Hsz & Hb16). fold fr in Hfl, Hsz.
  pose proof (po_mod _ _ _ _ Hon) as Hmod. fold fr in Hmod. unfold PACKET_MAX_SIZE in *.
  destruct (tag_spec k cc 0 [] Hg) as (Htl & Ht64 & _).
  unfold packet_read_poll2. mstep. rewrite Hd. ifz. mstep. rewrite Hk. fold (bs_of k).
  assert (E1 : read2_first k (bs_of k) r = Ok (true, r)).
  { unfold read2_first. mstep. rewrite Hpl. by rewrite (proj2 (Z.eqb_neq _ _)) by lia. }
  mstep_by E1. cbn [negb].
  assert (Hfl2 : Z.of_nat (length fr) = bs_of k + Z.of_nat (length x2)) by (rewrite Hfr, length_app; lia).
  assert (E2 : read2_rest k (bs_of k) r = Ok (false, r)).
  { unfold read2_rest. mstep. rewrite Hpl. rewrite (u32_small (4 + _ - _)) by lia.
    replace (4 + (Z.of_nat (length fr) - 4) - bs_of k) with (Z.of_nat (length fr) + -1 * bs_of k) by lia.
    rewrite Z_mod_plus_full, Hmod. ifz. mstep. fold (mac_size k) in Htl |- *.
    rewrite buffer_len_contents by done. rewrite u32_small by lia. by rewrite (proj2 (Z.ltb_lt _ _)) by lia. }
  by mstep_by E2.
Qed.

(** ** A receiver and the bytes it waits for *)

(** The receiver is between two packets, or in the middle of one; [w] are the
    bytes that carry the messages [ms] from here. *)
Inductive expecting (k : option Newkeys) (r : ssh) : list message → list Z → evp → Z → Prop :=
| expecting_next cc ms w d' sn' :
    receivable k cc r → carries_to k (cc_evp cc) (seqnr (p_read (st r))) ms w d' sn' →
    expecting k r ms w d' sn'
| expecting_rest cc x1 x2 c2 d1 type payload pad ms w d' sn' :
    let fr := frame (type :: payload) pad in
    midway k cc r fr x1 x2 → packet_on k type payload pad →
    EVP_Cipher (cc_evp cc) c2 = Some (x2, d1) → length x2 = length c2 →
    carries_to k d1 (u32 (seqnr (p_read (st r)) + 1)) ms w d' sn' →
    expecting k r ((type, payload) :: ms) (c2 ++ tag k (seqnr (p_read (st r))) fr ++ w) d' sn'.

(** The parts of a session that a poll which delivers nothing leaves alone. *)
Definition same_count (r r' : ssh) : Prop :=
  p_read (st r') = p_read (st r) ∧ server_side (st r') = server_side (st r).

(** The answer of one poll: nothing, and the receiver still waits for the same
    messages, or the next message. *)
Inductive polled (k : option Newkeys) (r : ssh) (ms : list message) (fut : list Z) (d' : evp) (sn' : Z) : Prop :=
| polled_none r' w' :
    packet_read_poll2 r = Ok ((SSH_MSG_NONE, 0), r') → expecting k r' ms w' d' sn' →
    contents (input (st r')) ++ fut = w' → same_count r r' → (ms ≠ [] → fut ≠ []) →
    Z.of_nat (length (contents (input (st r')))) < PACKET_MAX_SIZE + 68 →
    polled k r ms fut d' sn'
| polled_message r' w' m ms' :
    ms = m :: ms' → packet_read_poll2 r = Ok ((m.1, seqnr (p_read (st r))), r') →
    contents (incoming_packet (st r')) = m.2 → expecting k r' ms' w' d' sn' →
    contents (input (st r')) ++ fut = w' → packets (p_read (st r')) = packets (p_read (st r)) + 1 →
    server_side (st r') = server_side (st r) →
    polled k r ms fut d' sn'.

Lemma tag_length k cc sn data : keys_usable k cc → Z.of_nat (length (tag k sn data)) = mac_size k ∧ 0 ≤ mac_size k ≤ 64.
Proof. intros Hk. destruct (tag_spec k cc sn data Hk) as (Hl & H64 & _). unfold mac_size. lia. Qed.

(** A list that starts with all of [a] or is cut within it. *)
Lemma prefix_cases {A} (i fut a b : list A) :
  i ++ fut = a ++ b →
  (length i < length a)%nat ∧ fut ≠ [] ∨ ∃ rest, i = a ++ rest ∧ rest ++ fut = b.
Proof.
  intros E. apply app_eq_app in E as (l & [[E1 E2]|[E1 E2]]); [right|destruct l as [|x l]; [right|left]].
  - by exists l.
  - exists []. rewrite app_nil_r in *. by rewrite E1, E2.
  - subst. rewrite length_app. simpl. split; [lia|done].
Qed.

Lemma midway_polled k cc r x1 x2 c2 d1 type payload pad ms w fut d' sn' srv rk :
  let fr := frame (type :: payload) pad in
  midway k cc r fr x1 x2 → packet_on k type payload pad →
  EVP_Cipher (cc_evp cc) c2 = Some (x2, d1) → length x2 = length c2 →
  carries_to k d1 (u32 (seqnr (p_read (st r)) + 1)) ms w d' sn' →
  msg_ok srv (server_side (st r)) rk (type, payload) →
  packets (p_read (st r)) + 1 + Z.of_nat (length ms) < 2 ^ 32 - 1 →
  contents (input (st r)) ++ fut = c2 ++ tag k (seqnr (p_read (st r))) fr ++ w →
  polled k r ((type, payload) :: ms) fut d' sn'.
Proof.
  intros fr Hm Hon He Hl Hca [Hty Hks Hau Hrk Hby Hlen] Hpk Hin. cbn [fst snd] in *.
  pose proof Hm as [Hk Hg Hcc Hd Hpl Hw Hinc Hx1 Hfr Hl1 Hpk'].
  destruct (tag_length k cc (seqnr (p_read (st r))) fr Hg) as [Ht Hm0].
  destruct (packet_on_size k cc type payload pad Hg Hon) as (Hfl & Hsz & Hb16). fold fr in Hfl, Hsz.
  assert (Hl2 : Z.of_nat (length fr) = bs_of k + Z.of_nat (length x2)) by (rewrite Hfr, length_app; lia).
  rewrite app_assoc in Hin. destruct (prefix_cases _ _ _ _ Hin) as [[Hshort Hfut]|(rest & Hi & Hrest)].
  - rewrite length_app in Hshort.
    eapply polled_none; [by eapply poll_midway_short; [done|done|lia]|by econstructor|by rewrite Hin, app_assoc|done|done|].
    unfold PACKET_MAX_SIZE in *. lia.
  - rewrite <- app_assoc in Hi.
    destruct (poll_midway k cc r x1 x2 c2 rest type payload pad d1 Hm Hon) as (ob & ib & E & Co & Wo & Ci & Wi); try done.
    { split_and!; [apply Hty|apply Hks|intros [? ?]; apply Hau; auto]. }
    eapply polled_message; [done|exact E|exact Co| |rsimpl; rewrite Ci; exact Hrest| |done].
    + apply (expecting_next k _ (mkCC (plaintext cc) d1 (cc_cipher cc))); [|exact Hca]. split; rsimpl; try done; [by apply good_step|].
      cbn [sent_counters packets]. rewrite u32_small; lia.
    + rsimpl. cbn [sent_counters packets]. rewrite u32_small; lia.
Qed.

(** With the first block there, polling goes on from the middle of the packet. *)
Lemma poll_first k r r1 :
  newkeys_in (st r) = k → packet_discard (st r) = 0 → read2_first k (bs_of k) r = Ok (true, r1) →
  newkeys_in (st r1) = k → packet_discard (st r1) = 0 → packlen (st r1) ≠ 0 →
  packet_read_poll2 r = packet_read_poll2 r1.
Proof.
  intros Hk Hd E Hk1 Hd1 Hpl. unfold packet_read_poll2. mstep. rewrite Hd. ifz. mstep. rewrite Hk. fold (bs_of k).
  mstep_by E. mstep. rewrite Hd1. ifz. mstep. rewrite Hk1. fold (bs_of k).
  assert (E1 : read2_first k (bs_of k) r1 = Ok (true, r1)).
  { unfold read2_first. mstep. by rewrite (proj2 (Z.eqb_neq _ _) Hpl). }
  by mstep_by E1.
Qed.

Lemma poll_short k cc r :
  receivable k cc r → Z.of_nat (length (contents (input (st r)))) < bs_of k →
  packet_read_poll2 r = Ok ((SSH_MSG_NONE, 0), r).
Proof.
  intros [Hk Hg Hcc Hd Hpl Hw Hinc Hpk] Hl. unfold packet_read_poll2. mstep. rewrite Hd. ifz. mstep. rewrite Hk. fold (bs_of k).
  assert (E1 : read2_first k (bs_of k) r = Ok (false, r)).
  { unfold read2_first. mstep. rewrite Hpl. ifz. mstep. rewrite buffer_len_contents by done.
    by rewrite (proj2 (Z.ltb_lt _ _)). }
  by mstep_by E1.
Qed.

(** The first block of a packet puts the receiver in its middle. *)
Lemma first_midway k cc e r c rest type payload pad d' :
  let fr := frame (type :: payload) pad in
  receivable k cc r → paired (bs_of k) e (cc_evp cc) → EVP_Cipher (cc_evp cc) c = Some (fr, d') →
  length c = length fr → packet_on k type payload pad →
  let c1 := take (Z.to_nat (bs_of k)) c in let c2 := drop (Z.to_nat (bs_of k)) c in
  contents (input (st r)) = c1 ++ rest →
  ∃ r1 cc1 x1 x2, packet_read_poll2 r = packet_read_poll2 r1 ∧ midway k cc1 r1 fr x1 x2 ∧
    EVP_Cipher (cc_evp cc1) c2 = Some (x2, d') ∧ length x2 = length c2 ∧
    contents (input (st r1)) = rest ∧ same_count r r1.
Proof.
  intros fr Hr Hp He Hlc Hon c1 c2 Hin. pose proof Hr as [Hk Hg Hcc Hdisc Hpl Hw Hinc Hpk].
  destruct (packet_on_size k cc type payload pad Hg Hon) as (Hfl & Hsz & Hb16). fold fr in Hfl, Hsz.
  pose proof (po_mod _ _ _ _ Hon) as Hmod. fold fr in Hmod. pose proof (po_pad _ _ _ _ Hon).
  assert (Hc12 : c = c1 ++ c2) by (symmetry; apply take_drop).
  assert (Hl1 : Z.of_nat (length c1) = bs_of k) by (unfold c1; rewrite length_take; lia).
  assert (Hl2 : Z.of_nat (length c2) = Z.of_nat (length fr) - bs_of k) by (unfold c2; rewrite length_drop; lia).
  rewrite Hc12 in He.
  destruct (evp_split (bs_of k) e (cc_evp cc) c1 c2 fr d' Hp) as (x1 & x2 & d1 & E1 & E2 & Hx & Hx1); [..|done|].
  { rewrite Hl1. apply Z.mod_same. lia. }
  { rewrite Hl2. replace (_ - _) with (Z.of_nat (length fr) + -1 * bs_of k) by lia. by rewrite Z_mod_plus_full. }
  assert (Hx2 : length x2 = length c2) by (by apply evp_length in E2).
  assert (Hhd : get_u32 (take 4 x1) = Z.of_nat (length fr) - 4).
  { assert (take 4 x1 = put_u32 (Z.of_nat (length fr) - 4)) as ->.
    { transitivity (take 4 fr); [rewrite Hx; symmetry; apply take_app_le; lia|].
      rewrite Hfl. unfold fr, frame. rewrite take_app_le by done. simpl length.
      change 4%nat with (length (put_u32 (Z.of_nat (S (length payload)) + Z.of_nat (length pad) + 1))).
      rewrite firstn_all. f_equal. lia. }
    apply get_put_u32. unfold is_u32, PACKET_MAX_SIZE in *. lia. }
  destruct (read2_first_spec k cc r c1 rest x1 d1 Hg Hcc Hpl Hw Hin Hl1 Hinc E1 Hx1) as
    (ob1 & ib1 & Er1 & Co1 & Ro1 & Ci1 & Wi1); [rewrite Hhd; lia|].
  rewrite Hhd in Er1. eexists _, (mkCC (plaintext cc) d1 (cc_cipher cc)), x1, x2. split_and!.
  - eapply (poll_first k); [done|done|exact Er1|done|done|]. rsimpl. lia.
  - split; rsimpl; try done; [by apply good_step|]. by rewrite <- Hl1, Hx1.
  - done.
  - done.
  - done.
  - done.
Qed.

(** A poll between two packets: without messages, and before a message. *)
Lemma next_polled_nil k cc r fut :
  receivable k cc r → contents (input (st r)) ++ fut = [] →
  polled k r [] fut (cc_evp cc) (seqnr (p_read (st r))).
Proof.
  intros Hr Hin. apply app_nil in Hin as [Hi ->].
  assert (Hb16 : 8 ≤ bs_of k ≤ 16) by (destruct (kg_bs _ _ (rv_good _ _ _ Hr)); lia).
  eapply (polled_none _ _ _ _ _ _ r); [|by eapply expecting_next; [|constructor]|by rewrite Hi|done|done|].
  - eapply poll_short; [done|]. rewrite Hi. simpl. lia.
  - rewrite Hi. unfold PACKET_MAX_SIZE. simpl. lia.
Qed.

Lemma polled_from k r r1 ms fut d' sn' :
  packet_read_poll2 r = packet_read_poll2 r1 → same_count r r1 →
  polled k r1 ms fut d' sn' → polled k r ms fut d' sn'.
Proof.
  intros E [Hp Hs] [r' w' E1 He Hi [Hp1 Hs1] Hf Hl|r' w' m ms' -> E1 Hc He Hi Hk Hs1].
  - eapply polled_none; try done; [by rewrite E|]. split; congruence.
  - eapply polled_message; try done; [by rewrite E, <- Hp|by rewrite <- Hp|congruence].
Qed.

Lemma next_polled_cons k cc e r c w type payload pad ms fut d1 d' sn' srv rk :
  let fr := frame (type :: payload) pad in
  receivable k cc r → paired (bs_of k) e (cc_evp cc) → EVP_Cipher (cc_evp cc) c = Some (fr, d1) →
  length c = length fr → packet_on k type payload pad →
  carries_to k d1 (u32 (seqnr (p_read (st r)) + 1)) ms w d' sn' →
  msg_ok srv (server_side (st r)) rk (type, payload) →
  packets (p_read (st r)) + 1 + Z.of_nat (length ms) < 2 ^ 32 - 1 →
  contents (input (st r)) ++ fut = c ++ tag k (seqnr (p_read (st r))) fr ++ w →
  polled k r ((type, payload) :: ms) fut d' sn'.
Proof.
  intros fr Hr Hp He Hlc Hon Hca Hm Hpk Hin. pose proof (rv_good _ _ _ Hr) as Hg.
  destruct (packet_on_size k cc type payload pad Hg Hon) as (Hfl & Hsz & Hb16). fold fr in Hfl, Hsz.
  pose proof Hin as Hin'. rewrite <- (take_drop (Z.to_nat (bs_of k)) c), <- app_assoc in Hin'.
  destruct (prefix_cases _ _ _ _ Hin') as [[Hshort Hfut]|(rest & Hi & Hrest)].
  - rewrite length_take in Hshort.
    eapply (polled_none _ _ _ _ _ _ r); [eapply poll_short; [done|lia]| |exact Hin|done|done|unfold PACKET_MAX_SIZE; lia].
    eapply expecting_next; [done|]. by eapply carries_to_cons; try done; apply Hon.
  - destruct (first_midway k cc e r c rest type payload pad d1 Hr Hp He Hlc Hon Hi) as
      (r1 & cc1 & x1 & x2 & E & Hmid & He2 & Hl2 & Hi1 & Hsame).
    apply (polled_from k r r1); [done..|]. destruct Hsame as [Hp1 Hs1].
    eapply midway_polled; try done; [by rewrite Hp1|by rewrite Hs1|by rewrite Hp1|by rewrite Hi1, Hp1].
Qed.

(** One poll of a receiver that has got a part of what it waits for. *)
Lemma expecting_polled k r ms w fut d' sn' srv rk :
  expecting k r ms w d' sn' → Forall (msg_ok srv (server_side (st r)) rk) ms →
  packets (p_read (st r)) + Z.of_nat (length ms) < 2 ^ 32 - 1 →
  contents (input (st r)) ++ fut = w → polled k r ms fut d' sn'.
Proof.
  intros [cc ms' w' d2 sn2 Hr Hca|] Hok Hpk Hin.
  2: { apply Forall_cons in Hok as [Hm _]. simpl in Hpk. eapply midway_polled; try done. lia. }
  remember (cc_evp cc) as d eqn:Ed. remember (seqnr (p_read (st r))) as sn eqn:Esn.
  destruct Hca as [d sn|e d d1 d2 sn sn2 type payload pad c ms0 w0 fr Hp Hd Hlc Hmod Hpad Hca]; subst.
  { by apply next_polled_nil. }
  apply Forall_cons in Hok as [Hm _]. simpl in Hpk.
  eapply next_polled_cons; try done; [|lia]. split; [done|done|apply Hm].
Qed.

(** ** Two ends of a connection *)

Record link := mkLink {
  lk_s : ssh;                  (* the sender *)
  lk_r : ssh;                  (* the receiver *)
  lk_got : list message        (* what the receiver's polls have returned *)
}.

(** What can happen, in any order: the sender sends a message, the connection
    carries the next (at most) [n] bytes of the sender's output to the receiver,
    and the receiver polls. *)
Inductive act := Send (m : message) | Carry (n : nat) | Poll.

Definition act_run (a : act) (l : link) : outcome link :=
  match a with
  | Send m => '(_, s) ← send_msg m (lk_s l); Ok (mkLink s (lk_r l) (lk_got l))
  | Carry n =>
      let data := take n (contents (output (st (lk_s l)))) in
      '(_, s) ← on_buf output (λ b, buffer_consume b (Z.of_nat (length data))) (lk_s l);
      '(_, r) ← packet_process_incoming data (lk_r l);
      Ok (mkLink s r (lk_got l))
  | Poll =>
      '((type, _), r) ← packet_read_poll2 (lk_r l);
      Ok (mkLink (lk_s l) r (if type =? SSH_MSG_NONE then lk_got l
                             else lk_got l ++ [(type, contents (incoming_packet (st r)))]))
  end.

Fixpoint acts_run (acts : list act) (l : link) : outcome link :=
  match acts with
  | [] => Ok l
  | a :: acts => l ← act_run a l; acts_run acts l
  end.

Definition sends (acts : list act) : list message :=
  omap (λ a, match a with Send m => Some m | _ => None end) acts.

(** The buffers have room for what is added, messages leave the keys alone, and
    the packet counter of these keys does not run out. *)
Definition act_ok (a : act) (l : link) : Prop :=
  match a with
  | Send m =>
      msg_ok (server_side (st (lk_s l))) (server_side (st (lk_r l))) (rekeying (st (lk_s l))) m ∧
      Z.of_nat (length (contents (output (st (lk_s l))))) + 2 * (Z.of_nat (length m.2) + 128) ≤ ROOM ∧
      packets (p_send (st (lk_s l))) + 1 < 2 ^ 32 - 1
  | Carry n =>
      Z.of_nat n ≤ BUFFER_MAX_CHUNK ∧
      Z.of_nat (length (contents (input (st (lk_r l))))) + 2 * Z.of_nat n ≤ ROOM
  | Poll => True
  end.

Fixpoint acts_ok (acts : list act) (l : link) : Prop :=
  match acts with
  | [] => True
  | a :: acts => act_ok a l ∧ ∀ l', act_run a l = Ok l' → acts_ok acts l'
  end.

(** [later] has been sent and not yet delivered: it is in the output of the
    sender, in the input of the receiver, or in part in the packet that the
    receiver has begun. *)
Record linked (k : option Newkeys) (l : link) (later : list message) : Prop := {
  ln_bytes : ∃ cc d, sendable k cc d 0 (lk_s l) ∧
    expecting k (lk_r l) later (contents (input (st (lk_r l))) ++ contents (output (st (lk_s l))))
      d (seqnr (p_send (st (lk_s l))));
  ln_out : wf (outgoing_packet (st (lk_s l)));
  ln_ok : Forall (msg_ok (server_side (st (lk_s l))) (server_side (st (lk_r l))) (rekeying (st (lk_s l)))) later;
  ln_count : packets (p_read (st (lk_r l))) + Z.of_nat (length later) = packets (p_send (st (lk_s l)))
}.

Lemma expecting_app k r ms w d sn ms' w' d' sn' :
  expecting k r ms w d sn → carries_to k d sn ms' w' d' sn' → expecting k r (ms ++ ms') (w ++ w') d' sn'.
Proof.
  intros [cc ? ? ? ? Hr Hca|] Hc.
  - eapply expecting_next; [done|]. by eapply carries_to_app.
  - rewrite <- !app_assoc. simpl. eapply expecting_rest; try done. by eapply carries_to_app.
Qed.

Lemma expecting_input k r ms w d sn b gl :
  expecting k r ms w d sn → wf b → expecting k (r <| st := (st r) <| input := b |> |> <| g := gl |>) ms w d sn.
Proof.
  intros Hx Hw. set (r' := r <| st := _ |> <| g := gl |>).
  assert (Hp : p_read (st r) = p_read (st r')) by done.
  destruct Hx as [cc ? ? ? ? [] Hca|cc x1 x2 c2 d1 type payload pad ms' w' d' sn' fr [] Hon He Hl Hca]; rewrite Hp in *.
  - apply (expecting_next k _ cc); [by split|exact Hca].
  - apply (expecting_rest k r' cc x1 x2 c2 d1); [by split|done..].
Qed.

Lemma expecting_in k r ms w d sn : expecting k r ms w d sn → packet_discard (st r) = 0 ∧ wf (input (st r)).
Proof. intros [? ? ? ? ? []|? ? ? ? ? ? ? ? ? ? ? ? ? []]; done. Qed.

Lemma linked_send k l later m :
  linked k l later → act_ok (Send m) l → ∃ l', act_run (Send m) l = Ok l' ∧ linked k l' (later ++ [m]) ∧ lk_got l' = lk_got l.
Proof.
  intros [(cc & d & Hs & Hx) Ho Hok Hc] (Hm & Hroom & Hpk).
  assert (Hs' : sendable k cc d (Z.of_nat (length m.2) + 128) (lk_s l)).
  { destruct Hs as [? ? ? ? ? ? [? _] ?]. by split. }
  destruct (send_msg_spec k cc d _ (lk_s l) _ m Hs' Ho Hpk Hm) as
    (s' & cc' & d' & c & pad & E & Hs1 & Ho1 & Hp1 & Hsn & Hsv & Hrk & Co & Hd & Hlc & Hmod & Hpad); [lia|].
  cbv zeta in *. eexists. split; [cbn [act_run]; rewrite E; reflexivity|]. split; [|done].
  rewrite Z.sub_diag in Hs1. split; cbn [lk_s lk_r lk_got].
  - exists cc', d'. split; [done|]. rewrite Co, app_assoc, Hsn. eapply expecting_app; [exact Hx|].
    destruct m as [type payload]. rewrite <- (app_nil_r (tag _ _ _)).
    eapply carries_to_cons; [apply (sd_pair _ _ _ _ _ Hs)|done..|simpl in *; lia|constructor].
  - done.
  - rewrite Hsv, Hrk. apply Forall_app. split; [done|]. by constructor.
  - rewrite Hp1, length_app. simpl. lia.
Qed.

Lemma linked_carry k l later n :
  linked k l later → act_ok (Carry n) l → ∃ l', act_run (Carry n) l = Ok l' ∧ linked k l' later ∧ lk_got l' = lk_got l.
Proof.
  intros [(cc & d & Hs & Hx) Ho Hok Hc] (Hn & Hroom). destruct (expecting_in _ _ _ _ _ _ Hx) as [Hd Hw].
  set (out := contents (output (st (lk_s l)))) in *. set (data := take n out).
  assert (Hld : Z.of_nat (length data) ≤ Z.of_nat n) by (unfold data; rewrite length_take; lia).
  destruct (consume_head (output (st (lk_s l))) data (drop n out)) as (ob & Eo & Wo & Co & _);
    [apply (sd_out _ _ _ _ _ Hs)|symmetry; apply take_drop|].
  assert (Hr : roomy (input (st (lk_r l))) (Z.of_nat n)) by by split.
  destruct (append_roomy _ _ data Hr Hld) as (ib & Ei & Ci & Ri); [lia|].
  eexists. split.
  { cbn [act_run]. fold out data. rewrite (on_buf_Ok output _ (lk_s l) ob) by exact Eo. cbn [mbind outcome_bind].
    unfold packet_process_incoming. mstep. mstep. rewrite Hd. ifz. mstep.
    rewrite (on_buf_Ok input _ _ ib) by (rsimpl; exact Ei). reflexivity. }
  split; [|done]. split; cbn [lk_s lk_r lk_got]; rsimpl; [|done..].
  exists cc, d. split.
  - destruct Hs as [? ? ? ? ? ? [_ Hl] ?]. split; try done. split; [done|].
    fold out in Hl. rsimpl. rewrite Co, length_drop. lia.
  - rewrite Ci, Co, <- app_assoc. unfold data. rewrite take_drop.
    apply (expecting_input k (lk_r l) later _ _ _ ib); [exact Hx|apply Ri].
Qed.

(** A poll returns the next message, or nothing; and nothing only if a part of
    the next message has not arrived. *)
Lemma linked_poll k l later :
  linked k l later →
  ∃ l' later', act_run Poll l = Ok l' ∧ linked k l' later' ∧ lk_got l' ++ later' = lk_got l ++ later ∧
    output (st (lk_s l')) = output (st (lk_s l)) ∧
    (contents (output (st (lk_s l))) = [] → length later' = pred (length later)).
Proof.
  intros [(cc & d & Hs & Hx) Ho Hok Hc]. pose proof (sd_pk _ _ _ _ _ Hs).
  destruct (expecting_polled k _ _ _ _ _ _ _ _ Hx Hok ltac:(lia) eq_refl) as
    [r' w' E He Hi [Hp Hsv] Hf _|r' w' m ms -> E Hpay He Hi Hp Hsv].
  - exists (mkLink (lk_s l) r' (lk_got l)), later. split; [cbn [act_run]; by rewrite E|]. split_and!; try done.
    + split; cbn [lk_s lk_r lk_got]; [|done|by rewrite Hsv|by rewrite Hp]. exists cc, d. by rewrite Hi.
    + intros Hnil. destruct later; [done|]. by destruct Hf.
  - exists (mkLink (lk_s l) r' (lk_got l ++ [m])), ms. apply Forall_cons in Hok as [Hm Hms]. split.
    { cbn [act_run]. rewrite E. cbn [mbind outcome_bind].
      assert (m.1 ≠ SSH_MSG_NONE).
      { destruct (mo_type _ _ _ _ Hm) as [_ [Ht|Ht]]; [intros Hz; rewrite Hz in Ht; unfold SSH2_MSG_MIN, SSH_MSG_NONE in Ht; lia|].
        intros Hz. rewrite Hz in Ht. discriminate. }
      rewrite (proj2 (Z.eqb_neq _ _)) by done. rewrite Hpay. by destruct m. }
    simpl in Hc. split_and!; try done; cbn [lk_s lk_r lk_got].
    + split; cbn [lk_s lk_r lk_got]; [|done|by rewrite Hsv|lia]. exists cc, d. by rewrite Hi.
    + by rewrite <- app_assoc.
Qed.

Lemma acts_linked k acts : ∀ l later,
  linked k l later → acts_ok acts l →
  ∃ l' later', acts_run acts l = Ok l' ∧ linked k l' later' ∧ lk_got l ++ later ++ sends acts = lk_got l' ++ later'.
Proof.
  induction acts as [|a acts IH]; intros l later Hl Hok.
  { exists l, later. by rewrite app_nil_r. }
  destruct Hok as [Ha Hrest]. destruct a as [m|n|].
  - destruct (linked_send k l later m Hl Ha) as (l1 & E & Hl1 & Hg).
    destruct (IH l1 _ Hl1 (Hrest _ E)) as (l' & later' & E' & Hl' & Hs'). exists l', later'.
    cbn [acts_run]. rewrite E. split_and!; [done|done|]. by rewrite <- Hs', Hg, <- app_assoc.
  - destruct (linked_carry k l later n Hl Ha) as (l1 & E & Hl1 & Hg).
    destruct (IH l1 _ Hl1 (Hrest _ E)) as (l' & later' & E' & Hl' & Hs'). exists l', later'.
    cbn [acts_run]. rewrite E. split_and!; [done|done|]. by rewrite <- Hs', Hg.
  - destruct (linked_poll k l later Hl) as (l1 & later1 & E & Hl1 & Hg & _).
    destruct (IH l1 _ Hl1 (Hrest _ E)) as (l' & later' & E' & Hl' & Hs'). exists l', later'.
    cbn [acts_run]. rewrite E. split_and!; [done|done|].
    rewrite <- Hs', !app_assoc, <- Hg, <- !app_assoc. done.
Qed.

(** Once everything has arrived, one poll per message delivers the rest. *)
Lemma polls_deliver k later : ∀ l,
  linked k l later → contents (output (st (lk_s l))) = [] →
  ∃ l', acts_run (replicate (length later) Poll) l = Ok l' ∧ linked k l' [] ∧ lk_got l' = lk_got l ++ later ∧
    contents (output (st (lk_s l'))) = [].
Proof.
  induction later as [|m later IH]; intros l Hl Ho.
  { exists l. by rewrite app_nil_r. }
  destruct (linked_poll k l _ Hl) as (l1 & later1 & E & Hl1 & Hg & Ho1 & Hlen). specialize (Hlen Ho). simpl in Hlen.
  assert (lk_got l1 = lk_got l ++ [m] ∧ later1 = later) as [Hg1 ->].
  { apply app_inj_2; [done|]. by rewrite Hg, <- app_assoc. }
  destruct (IH l1 Hl1) as (l' & E' & Hl' & Hg' & Ho'); [by rewrite Ho1|].
  exists l'. cbn [length replicate acts_run]. rewrite E. split_and!; [done|done| |done]. by rewrite Hg', Hg1, <- app_assoc.
Qed.

Lemma expecting_nothing k r w d sn : expecting k r [] w d sn → w = [].
Proof. intros Hx. inversion Hx as [? ? ? ? ? ? Hca|]; subst. by inversion Hca. Qed.

(** C4: Two ends whose keys, cipher states, sequence numbers and packet
    counters match, without compression.  Whatever the sender sends (no message
    of a key exchange and none that switches on compression), in whatever
    pieces the connection carries the bytes, and whenever the receiver polls,
    also in the middle of a packet: neither side fails, what the receiver has
    got is the beginning of what was sent, in order and unchanged, and once
    all bytes have been carried one poll for each missing message delivers
    these and leaves nothing over.  The total amount of data is not limited:
    only what is waiting in one of the two buffers must leave room, as
    [act_ok] says, and the packet counter of the keys must not run out. *)
Theorem ssh2_stream_delivered k cc_s cc_r s r acts :
  sendable k cc_s (cc_evp cc_r) 0 s → receivable k cc_r r → wf (outgoing_packet (st s)) →
  contents (output (st s)) = [] → contents (input (st r)) = [] →
  seqnr (p_send (st s)) = seqnr (p_read (st r)) → packets (p_send (st s)) = packets (p_read (st r)) →
  acts_ok acts (mkLink s r []) →
  ∃ l later, acts_run acts (mkLink s r []) = Ok l ∧ sends acts = lk_got l ++ later ∧
    (contents (output (st (lk_s l))) = [] →
     ∃ l', acts_run (replicate (length later) Poll) l = Ok l' ∧
       lk_got l' = sends acts ∧ contents (input (st (lk_r l'))) = []).
Proof.
  intros Hs Hr Hh Ho Hi Hsn Hpk Hok.
  assert (Hl : linked k (mkLink s r []) []).
  { split; cbn [lk_s lk_r]; [|done|constructor|simpl; lia]. exists cc_s, (cc_evp cc_r). split; [done|].
    rewrite Hi, Ho, Hsn. eapply expecting_next; [done|constructor]. }
  destruct (acts_linked k acts _ _ Hl Hok) as (l & later & E & Hl' & Hg). exists l, later. split_and!; [done|exact Hg|].
  intros Hout. destruct (polls_deliver k later l Hl' Hout) as (l' & E' & Hl2 & Hg' & Ho'). exists l'.
  split_and!; [done|by rewrite Hg', <- Hg|]. destruct Hl2 as [(cc & d & _ & Hx) _ _ _].
  rewrite Ho', app_nil_r in Hx. by apply expecting_nothing in Hx.
Qed.

(** ** Authenticity *)

(** Waiting for a packet, as [packet_read_seqnr] does: as long as a poll
    returns nothing, the next piece of data is taken in. *)
Fixpoint await (chunks : list (list Z)) : M ssh (Z * Z) :=
  '(type, sn) ← packet_read_poll2;
  if negb (type =? SSH_MSG_NONE) then mret (type, sn)
  else match chunks with
       | [] => mret (SSH_MSG_NONE, 0)
       | c :: cs => _ ← packet_process_incoming c; await cs
       end.

Lemma append_Ok_inv b d b' : wf b → buffer_append b d = Ok b' → wf b' ∧ contents b' = contents b ++ d.
Proof.
  intros Hw E. destruct (Z.le_gt_cases (Z.of_nat (length d)) BUFFER_MAX_CHUNK) as [Hl|Hl].
  - by apply Items.append_inv.
  - unfold buffer_append, buffer_append_space in E. by rewrite (proj2 (Z.ltb_lt _ _) Hl) in E.
Qed.

Lemma append_crypt_inv cc b src x :
  append_crypt (Some cc) b src = Ok x → ∃ dst e', EVP_Cipher (cc_evp cc) src = Some (dst, e').
Proof.
  intros E. unfold append_crypt in E. apply bind_Ok in E as ([p b1] & _ & E).
  apply bind_Ok in E as ([dst cc'] & E & _). unfold cipher_crypt in E.
  destruct (negb _); [discriminate|]. destruct (EVP_Cipher _ _) as [[d e]|]; [eauto|discriminate].
Qed.

Lemma on_buf_inv (p : session_state → Buffer) `{!Updater p} f s u s' :
  on_buf p f s = Ok (u, s') → ∃ b, f (p (st s)) = Ok b ∧ s' = s <| st := upd p b (st s) |>.
Proof.
  intros E. unfold on_buf in E. mstep_in E. apply M_bind_inv in E as (b & s1 & E1 & E2).
  apply bind_Ok in E1 as (x & Ex & [= <- <-]). injection E2 as <- <-. eauto.
Qed.

(** After an error the rest of the connection is thrown away. *)
Definition discarding (r : ssh) : Prop := 0 < packet_discard (st r) ≤ PACKET_MAX_SIZE.

Lemma stop_discard_inv {A} s (x : A * ssh) : packet_stop_discard s ≠ Ok x.
Proof.
  intros E. unfold packet_stop_discard in E. destruct x. apply M_bind_inv in E as (m & s1 & _ & E).
  by apply M_bind_inv in E as (? & s2 & _ & E).
Qed.

Lemma start_discard_inv k pl d s u s' :
  d ≤ PACKET_MAX_SIZE → packet_start_discard k pl d s = Ok (u, s') → discarding s'.
Proof.
  intros Hd E. unfold packet_start_discard in E. destruct k as [nk|]; [|discriminate].
  destruct (_ =? _); [discriminate|]. apply M_bind_inv in E as (? & s1 & _ & E). mstep_in E.
  destruct (Z.leb_spec d (buffer_len (input (st s1)))) as [|Hlt]; [by apply stop_discard_inv in E|].
  injection E as <- <-. unfold discarding. rsimpl.
  assert (0 ≤ buffer_len (input (st s1))) by (unfold buffer_len, u32; apply Z.mod_pos_bound; lia).
  unfold PACKET_MAX_SIZE in *. rewrite u32_small; lia.
Qed.

Lemma discarding_poll r : discarding r → packet_read_poll2 r = Ok ((SSH_MSG_NONE, 0), r).
Proof.
  intros Hd. unfold packet_read_poll2. mstep. unfold discarding in Hd. by rewrite (proj2 (Z.eqb_neq _ _)) by lia.
Qed.

Lemma discarding_input r c u r' : discarding r → packet_process_incoming c r = Ok (u, r') → discarding r'.
Proof.
  intros Hd E. unfold discarding in Hd. unfold packet_process_incoming in E. mstep_in E. mstep_in E.
  rewrite (proj2 (Z.eqb_neq _ _)) in E by lia. cbn [negb] in E. mstep_in E.
  destruct (Z.leb_spec (packet_discard (st r)) (Z.of_nat (length c))); [by apply stop_discard_inv in E|].
  injection E as <- <-. unfold discarding. rsimpl. unfold PACKET_MAX_SIZE in *. rewrite u32_small; lia.
Qed.

Lemma discarding_await cs : ∀ r type sn r', discarding r → await cs r = Ok ((type, sn), r') → type = SSH_MSG_NONE.
Proof.
  induction cs as [|c cs IH]; intros r type sn r' Hd E; cbn [await] in E;
    rewrite (M_bind_Ok _ _ _ _ _ (discarding_poll r Hd)) in E; cbv beta iota in E;
    change (negb (SSH_MSG_NONE =? SSH_MSG_NONE)) with false in E; cbv iota in E.
  - by injection E as <- _ _.
  - apply M_bind_inv in E as (u & s1 & E1 & E2). eapply IH; [|exact E2]. by eapply discarding_input.
Qed.

(** A receiver between two packets, and one that has decrypted the first block
    [c1] of a packet to [x1]; with or without compression. *)
Record between (nk : Newkeys) (cc : CipherContext) (r : ssh) : Prop := {
  bt_keys : newkeys_in (st r) = Some nk;
  bt_use : keys_usable (Some nk) cc;
  bt_cc : receive_context (st r) = Some cc;
  bt_disc : packet_discard (st r) = 0;
  bt_len : packlen (st r) = 0;
  bt_in : wf (input (st r));
  bt_inc : wf (incoming_packet (st r))
}.
Record inside (nk : Newkeys) (cc : CipherContext) (r : ssh) (c1 x1 : list Z) (e1 : evp) : Prop := {
  is_keys : newkeys_in (st r) = Some nk;
  is_use : keys_usable (Some nk) cc;
  is_bs : Z.of_nat (length x1) = bs_of (Some nk);
  is_evp : EVP_Cipher (cc_evp cc) c1 = Some (x1, e1);
  is_cc : receive_context (st r) = Some (mkCC (plaintext cc) e1 (cc_cipher cc));
  is_disc : packet_discard (st r) = 0;
  is_len : packlen (st r) = get_u32 (take 4 x1);
  is_range : 5 ≤ get_u32 (take 4 x1) ≤ PACKET_MAX_SIZE;
  is_in : wf (input (st r));
  is_inc : roomy (incoming_packet (st r)) (PACKET_ROOM - bs_of (Some nk));
  is_x1 : contents (incoming_packet (st r)) = x1
}.

(** What polls without a result leave alone: the sequence number and the state
    of decompression. *)
Definition read_state (r : ssh) : Z * z_stream * Buffer :=
  (seqnr (p_read (st r)), incoming_stream r, compression_buffer (st r)).

Lemma read2_first_cases nk cc r b r1 :
  let k := Some nk in
  between nk cc r → read2_first k (bs_of k) r = Ok (b, r1) →
  (b = false ∧ (r1 = r ∨ discarding r1)) ∨
  (b = true ∧ read_state r1 = read_state r ∧
   ∃ c1 x1 e1, inside nk cc r1 c1 x1 e1 ∧ contents (input (st r)) = c1 ++ contents (input (st r1))).
Proof.
  intros k [Hk Hg Hcc Hd Hpl Hw Hh] E. pose proof Hg as [Hbs Hcb _]. fold k in Hbs, Hcb.
  assert (8 ≤ bs_of k ≤ 16) by (destruct Hbs; lia).
  pose proof E as E0. unfold read2_first in E. mstep_in E. rewrite Hpl in E. change (negb (0 =? 0)) with false in E. cbv iota in E.
  mstep_in E. destruct (Z.ltb_spec (buffer_len (input (st r))) (bs_of k)) as [|Hlen].
  { injection E as <- <-. left. auto. }
  rewrite buffer_len_contents in Hlen by done.
  rewrite (M_bind_Ok _ _ _ _ _ (on_buf_Ok incoming_packet (λ b, Ok (buffer_clear b)) r _ eq_refl)) in E. cbv beta iota in E.
  mstep_in E. mstep_in E. rsimpl_in E. rewrite Hcc in E.
  set (c1 := take (Z.to_nat (bs_of k)) (contents (input (st r)))).
  assert (Hl1 : Z.of_nat (length c1) = bs_of k) by (unfold c1; rewrite length_take; lia).
  assert (Hpk : peek_bytes (input (st r)) (bs_of k) = Ok c1) by (apply peek_bytes_contents; [done|lia]).
  rewrite (M_bind_Ok _ _ _ _ _ (liftO_Ok _ _ _ Hpk)) in E. cbv beta iota in E.
  apply M_bind_inv in E as ([ob cc'] & s1 & Ea & E).
  apply bind_Ok in Ea as ([ob1 cc1] & Ea & Es). injection Es as <- <- <-.
  destruct (append_crypt_inv _ _ _ _ Ea) as (x1 & e1 & He). pose proof (evp_length _ _ _ _ He) as Hx1.
  destruct (clear_room _ Hh) as [Hr0 Hc0].
  destruct (append_crypt_gen cc (buffer_clear (incoming_packet (st r))) PACKET_ROOM c1 x1 e1 Hr0 He Hx1) as (ob' & Ea' & Ca & Ra).
  { rewrite Hcb, Hl1. apply Z.mod_same. lia. }
  { unfold PACKET_ROOM. lia. } { unfold BUFFER_MAX_CHUNK. lia. }
  rewrite Ea' in Ea. injection Ea as <- <-. rewrite Hc0 in Ca. simpl in Ca.
  mstep_in E.
  assert (Hhd : peek_bytes ob' 4 = Ok (take 4 x1)).
  { rewrite peek_bytes_contents by (apply Ra || rewrite Ca; lia). by rewrite Ca. }
  rewrite (M_bind_Ok _ _ _ _ _ (liftO_Ok _ _ _ Hhd)) in E. cbv beta iota in E. mstep_in E.
  destruct ((get_u32 (take 4 x1) <? 1 + 4) || (PACKET_MAX_SIZE <? get_u32 (take 4 x1))) eqn:Eb.
  { apply M_bind_inv in E as (u & s1 & E & [= <- <-]). left. split; [done|]. right. by eapply start_discard_inv; [|exact E]. }
  clear E. apply orb_false_iff in Eb as [Eb1%Z.ltb_ge Eb2%Z.ltb_ge].
  destruct (read2_first_spec k cc r c1 (drop (Z.to_nat (bs_of k)) (contents (input (st r)))) x1 e1 Hg Hcc Hpl Hw) as
    (ob2 & ib & E1 & C1 & R1 & C2 & W2); [symmetry; apply take_drop|done..|lia|].
  rewrite E1 in E0. injection E0 as <- <-. right. split_and!; [done..|]. exists c1, x1, e1. split.
  - split; try done. by rewrite Hx1.
  - rsimpl. rewrite C2. symmetry. apply take_drop.
Qed.

Lemma need_spec bs pl :
  good_bs bs → 5 ≤ pl ≤ PACKET_MAX_SIZE → u32 (4 + pl - bs) mod bs = 0 →
  u32 (4 + pl - bs) = 4 + pl - bs ∧ bs ≤ 4 + pl ∧ (4 + pl) mod bs = 0.
Proof.
  unfold PACKET_MAX_SIZE. intros Hbs Hpl Hm.
  assert (Hge : bs ≤ 4 + pl).
  { destruct Hbs as [->| ->]; [lia|]. unfold u32 in Hm.
    destruct (Z.le_gt_cases 16 (4 + pl)) as [|Hlt]; [done|].
    assert (Hd : (4 + pl - 16) mod 2 ^ 32 = 4 + pl - 16 + 2 ^ 32) by (symmetry; apply Z.mod_unique with (-1); lia).
    rewrite Hd in Hm. replace (4 + pl - 16 + 2 ^ 32) with (4 + pl + (2 ^ 28 - 1) * 16) in Hm by lia.
    rewrite Z_mod_plus_full, Z.mod_small in Hm; lia. }
  rewrite u32_small in * by (destruct Hbs; lia). split_and!; [done|done|].
  replace (4 + pl) with (4 + pl - bs + 1 * bs) by lia. by rewrite Z_mod_plus_full.
Qed.

(** With the MAC on, the rest of a packet is accepted only with the right tag
    behind it. *)
Lemma read2_rest_cases nk cc r b r1 c1 x1 e1 :
  let k := Some nk in
  inside nk cc r c1 x1 e1 → mac_is_on k = true → read2_rest k (bs_of k) r = Ok (b, r1) →
  (b = false ∧ (r1 = r ∨ discarding r1)) ∨
  (b = true ∧ read_state r1 = read_state r ∧ wf (incoming_packet (st r1)) ∧
   ∃ c2 rest x2 e2, EVP_Cipher e1 c2 = Some (x2, e2) ∧ contents (incoming_packet (st r1)) = x1 ++ x2 ∧
     Z.of_nat (length (x1 ++ x2)) = 4 + get_u32 (take 4 x1) ∧
     contents (input (st r)) = c2 ++ tag k (seqnr (p_read (st r))) (x1 ++ x2) ++ rest).
Proof.
  intros k [Hk Hg Hl1 Hc1 Hcc Hd Hpl Hrange Hw Hr Hx1] Hon E. pose proof Hg as [Hbs Hcb Hmac]. specialize (Hmac Hon).
  fold k in Hbs, Hcb, Hk, Hg, Hr, Hl1. pose proof E as E0. rewrite <- Hpl in Hrange.
  assert (8 ≤ bs_of k ≤ 16) by (destruct Hbs; lia).
  destruct (mg_len _ Hmac) as [Hml0 Hml1]. unfold EVP_MAX_MD_SIZE in Hml1.
  unfold read2_rest in E. mstep_in E. change (match k with Some _ => _ | None => 0 end)
    with (if mac_is_on k then mac_len (nk_mac nk) else 0) in E. rewrite Hon in E.
  destruct (negb _) eqn:Em in E.
  { apply M_bind_inv in E as (u & s1 & E & [= <- <-]). left. split; [done|]. right. eapply start_discard_inv; [|exact E]. lia. }
  apply negb_false_iff, Z.eqb_eq in Em. destruct (need_spec _ _ Hbs Hrange Em) as (Hneed & Hge & Hmod).
  unfold PACKET_MAX_SIZE in Hrange. rewrite Hneed in *. rewrite (u32_small (_ + mac_len _)) in E by lia. mstep_in E.
  destruct (Z.ltb_spec (buffer_len (input (st r))) (4 + packlen (st r) - bs_of k + mac_len (nk_mac nk))) as [|Hlen].
  { injection E as <- <-. left. auto. }
  rewrite buffer_len_contents in Hlen by done.
  mstep_in E. mstep_in E. rewrite Hcc in E. set (cc1 := mkCC (plaintext cc) e1 (cc_cipher cc)) in *.
  set (need := 4 + packlen (st r) - bs_of k) in *.
  set (c2 := take (Z.to_nat need) (contents (input (st r)))).
  assert (Hl2 : Z.of_nat (length c2) = need) by (unfold c2; rewrite length_take; lia).
  assert (Hin : contents (input (st r)) = c2 ++ drop (Z.to_nat need) (contents (input (st r)))) by (symmetry; apply take_drop).
  assert (Hpk : peek_bytes (input (st r)) need = Ok c2) by (apply peek_bytes_contents; [done|lia]).
  rewrite (M_bind_Ok _ _ _ _ _ (liftO_Ok _ _ _ Hpk)) in E. cbv beta iota in E.
  apply M_bind_inv in E as ([ob cc'] & s1 & Ea & E).
  apply bind_Ok in Ea as ([ob1 cc2] & Ea & Es). injection Es as <- <- <-.
  destruct (append_crypt_inv _ _ _ _ Ea) as (x2 & e2 & He). pose proof (evp_length _ _ _ _ He) as Hx2.
  destruct (append_crypt_gen cc1 (incoming_packet (st r)) _ c2 x2 e2 Hr He Hx2) as (ob' & Ea' & Ca & Ra).
  { change (cc_cipher cc1) with (cc_cipher cc). by rewrite Hcb, Hl2. } { unfold PACKET_ROOM. lia. } { unfold BUFFER_MAX_CHUNK. lia. }
  rewrite Ea' in Ea. injection Ea as <- <-. rewrite Hx1 in Ca. mstep_in E.
  destruct (consume_head (input (st r)) c2 _ Hw Hin) as (ib & Ec & Wc & Cc & _). rewrite Hl2 in Ec.
  erewrite M_bind_Ok in E; [|eapply on_buf_Ok; rsimpl; exact Ec]. cbv beta iota in E.
  unfold k in E. fold k in E. cbv iota in E. mstep_in E. rsimpl_in E. rewrite Ca in E.
  destruct (mac_compute_spec (nk_mac nk) (seqnr (p_read (st r))) (x1 ++ x2) Hmac) as (t & Et & Hlt & _).
  rewrite (M_bind_Ok _ _ _ _ _ (liftO_Ok _ _ _ Et)) in E. cbv beta iota in E. mstep_in E. rsimpl_in E.
  assert (Hth : peek_bytes ib (mac_len (nk_mac nk)) = Ok (take (Z.to_nat (mac_len (nk_mac nk))) (contents ib))).
  { apply peek_bytes_contents; [done|]. rewrite Cc, length_drop. lia. }
  rewrite (M_bind_Ok _ _ _ _ _ (liftO_Ok _ _ _ Hth)) in E. cbv beta iota in E.
  destruct (negb _) eqn:Eb in E.
  { destruct (_ <? _); [discriminate|]. apply M_bind_inv in E as (u & s1 & E & [= <- <-]).
    left. split; [done|]. right. eapply start_discard_inv; [|exact E]. lia. }
  apply M_bind_inv in E as (u & s1 & E & [= <- <-]). apply on_buf_inv in E as (ib2 & _ & ->). right.
  apply negb_false_iff, Z.eqb_eq, timingsafe_bcmp_eq in Eb; [|done|rewrite length_take, Cc, length_drop; lia].
  rewrite take_take, Nat.min_id in Eb. split_and!; [done|done|apply Ra|].
  exists c2, (drop (Z.to_nat (mac_len (nk_mac nk))) (contents ib)), x2, e2.
  split_and!; [done|done|rewrite length_app; lia|].
  rewrite Hin. f_equal. unfold tag. unfold k in Hon |- *. rewrite Hon, Et, Eb, take_drop. done.
Qed.

(** Changing keys does not touch the packet that is being read. *)
Abbreviation incoming := (λ s : ssh, incoming_packet (st s)).

Lemma set_newkeys_keeps : keeps incoming (set_newkeys MODE_IN).
Proof.
  unfold set_newkeys, kex_get_newkeys, packet_init_compression, init_stream, modS, skip, set_newkeys_field. keep.
Qed.
Lemma enable_delayed_compress_keeps : keeps incoming packet_enable_delayed_compress.
Proof.
  unfold packet_enable_delayed_compress, enable_delayed, packet_init_compression, init_stream, modS, skip, set_newkeys_field.
  keep.
Qed.

(** Type and payload of the text between header and padding: the text itself,
    or what [buffer_uncompress] makes of it. *)
Definition unpacked (nk : Newkeys) (z : z_stream) (cb : Buffer) (body : list Z) (type : Z) (payload : list Z) : Prop :=
  if comp_enabled (nk_comp nk) =? 0 then body = type :: payload
  else ∃ ib cb' z', contents ib = body ∧ buffer_uncompress ib (buffer_clear cb) z = Ok (cb', z') ∧
         contents cb' = type :: payload.

Lemma uncompress_incoming_inv r u r' :
  wf (incoming_packet (st r)) → uncompress_incoming r = Ok (u, r') →
  wf (incoming_packet (st r')) ∧
  ∃ cb' z', buffer_uncompress (incoming_packet (st r)) (buffer_clear (compression_buffer (st r))) (incoming_stream r) = Ok (cb', z') ∧
    contents (incoming_packet (st r')) = contents cb'.
Proof.
  intros Hw E. unfold uncompress_incoming in E.
  rewrite (M_bind_Ok _ _ _ _ _ (on_buf_Ok compression_buffer (λ b, Ok (buffer_clear b)) r _ eq_refl)) in E. cbv beta iota in E.
  mstep_in E. mstep_in E. mstep_in E. apply M_bind_inv in E as ([cb z] & s1 & E1 & E).
  apply bind_Ok in E1 as (x & E1 & [= -> <-]). mstep_in E. mstep_in E.
  rewrite (M_bind_Ok _ _ _ _ _ (on_buf_Ok incoming_packet (λ b, Ok (buffer_clear b)) _ _ eq_refl)) in E. cbv beta iota in E.
  apply on_buf_inv in E as (b & E & ->). rsimpl_in E. destruct (buffer_clear_spec _ Hw) as [Hwc Hcc].
  apply append_Ok_inv in E as [Hwb Hcb]; [|done]. rewrite Hcc in Hcb. simpl in Hcb. rsimpl. split; [done|]. by exists cb, z.
Qed.

(** The type byte. *)
Lemma get_type_inv r t r' :
  wf (incoming_packet (st r)) → on_buf_get incoming_packet buffer_get_char r = Ok (t, r') →
  contents (incoming_packet (st r)) = t :: contents (incoming_packet (st r')).
Proof.
  intros W2 E3. set (b2 := incoming_packet (st r)) in *.
  unfold on_buf_get in E3. mstep_in E3. fold b2 in E3. apply M_bind_inv in E3 as ([ty' b3] & s2 & E3 & E3').
  apply bind_Ok in E3 as (y & E3 & [= -> <-]). injection E3' as -> <-. rsimpl.
  unfold buffer_get_char, buffer_get_char_ret in E3. pose proof (buffer_get_ret_spec b2 1 W2 ltac:(lia)) as Hs.
  destruct (Z.leb_spec 1 (Z.of_nat (length (contents b2)))) as [Hl1|]; [|by rewrite Hs in E3].
  destruct Hs as (b3' & E3' & W3 & _ & C3). rewrite E3' in E3. injection E3 as Hty <-. rewrite C3.
  destruct (contents b2) as [|t0 rest] eqn:Eb2; [simpl in Hl1; lia|]. by change (t0 = t) in Hty; subst t0.
Qed.

Lemma read2_finish_inv nk bs r type sn r' :
  wf (incoming_packet (st r)) → read2_finish (Some nk) bs r = Ok ((type, sn), r') →
  sn = seqnr (p_read (st r)) ∧ type ≠ SSH_MSG_NONE ∧
  ∃ hd body pad, contents (incoming_packet (st r)) = hd ++ body ++ pad ∧
    length hd = 5%nat ∧ 4 ≤ Z.of_nat (length pad) ∧ hd !! 4%nat = Some (Z.of_nat (length pad)) ∧
    unpacked nk (incoming_stream r) (compression_buffer (st r)) body type (contents (incoming_packet (st r'))).
Proof.
  intros Hw E. unfold read2_finish in E. mstep_in E. mstep_in E. mstep_in E. mstep_in E. mstep_in E.
  apply M_bind_inv in E as ([] & s1 & E1 & E).
  assert (s1 = r <| st := (st r) <| p_read := (p_read (st r)) <| seqnr := u32 (seqnr (p_read (st r)) + 1) |>
      <| packets := u32 (packets (p_read (st r)) + 1) |> |> |>) as -> by (destruct (_ && _) in E1; [discriminate|by injection E1]).
  clear E1. mstep_in E. mstep_in E. rsimpl_in E.
  apply M_bind_inv in E as (padlen & s1 & E1 & E). apply bind_Ok in E1 as (x & Hpeek & [= <- <-]).
  destruct (Z.ltb_spec x 4) as [|Hx]; [discriminate|].
  set (b0 := incoming_packet (st r)) in *.
  apply M_bind_inv in E as ([] & s1 & E1 & E). apply on_buf_inv in E1 as (b1 & E1 & ->). rsimpl_in E1. fold b0 in E1.
  pose proof (buffer_consume_spec b0 (4 + 1) Hw ltac:(lia)) as Hs.
  destruct (Z.leb_spec (4 + 1) (Z.of_nat (length (contents b0)))) as [Hl5|]; [|by destruct Hs as [? Hs]; rewrite E1 in Hs].
  destruct Hs as (b1' & E1' & W1 & _ & _ & C1). rewrite E1 in E1'. injection E1' as <-.
  apply M_bind_inv in E as ([] & s1 & E2 & E). apply on_buf_inv in E2 as (b2 & E2 & ->). rsimpl_in E2.
  pose proof (buffer_consume_end_spec b1 x W1 ltac:(lia)) as Hs.
  destruct (Z.leb_spec x (Z.of_nat (length (contents b1)))) as [Hlx|]; [|by destruct Hs as [? Hs]; rewrite E2 in Hs].
  destruct Hs as (b2' & E2' & W2 & _ & C2). rewrite E2 in E2'. injection E2' as <-.
  set (r2 := _ <| st := upd incoming_packet b2 _ |>) in E.
  apply M_bind_inv in E as ([] & s3 & Ez & E). apply M_bind_inv in E as (ty & s4 & Et & E).
  destruct (_ && _) eqn:Eok in E; [discriminate|]. mstep_in E.
  apply M_bind_inv in E as ([] & s5 & Ek & E). mstep_in E. injection E as -> <- <-. split; [done|].
  split; [by intros ->|].
  assert (Hkeep : incoming_packet (st s5) = incoming_packet (st s4)).
  { destruct (_ =? _) in Ek; [by apply set_newkeys_keeps in Ek|].
    unfold when in Ek. destruct (_ && _) in Ek; [by apply enable_delayed_compress_keeps in Ek|]. by injection Ek as <-. }
  rsimpl. rewrite Hkeep. exists (take 5 (contents b0)), (contents b2), (drop (length (contents b1) - Z.to_nat x) (contents b1)).
  assert (Hpad : Z.of_nat (length (drop (length (contents b1) - Z.to_nat x) (contents b1))) = x) by (rewrite length_drop; lia).
  split_and!.
  - rewrite <- (take_drop 5 (contents b0)) at 1. f_equal. rewrite C2, take_drop. by rewrite C1.
  - rewrite length_take. lia.
  - lia.
  - rewrite Hpad. rewrite lookup_take_lt by lia.
    destruct (lookup_lt_is_Some_2 (contents b0) 4) as [y Hy]; [lia|]. rewrite Hy.
    rewrite (peek_contents b0 4 y Hw ltac:(lia) Hy) in Hpeek. congruence.
  - unfold unpacked. destruct (comp_enabled (nk_comp nk) =? 0); cbn [negb when] in Ez.
    + injection Ez as <-. apply get_type_inv in Et; [exact Et|exact W2].
    + apply uncompress_incoming_inv in Ez as (Wz & cb & z & Ez & Cz); [|exact W2].
      apply get_type_inv in Et; [|exact Wz]. exists b2, cb, z. split_and!; [done|exact Ez|]. by rewrite <- Cz.
Qed.

(** The receiver has taken in the bytes [i] since the end of the last packet. *)
Inductive taking (nk : Newkeys) (cc : CipherContext) (rs : Z * z_stream * Buffer) : ssh → list Z → Prop :=
| taking_start r : between nk cc r → read_state r = rs → taking nk cc rs r (contents (input (st r)))
| taking_mid r c1 x1 e1 :
    inside nk cc r c1 x1 e1 → read_state r = rs → taking nk cc rs r (c1 ++ contents (input (st r))).

Lemma taking_input nk cc rs r i c u r' :
  taking nk cc rs r i → packet_process_incoming c r = Ok (u, r') → taking nk cc rs r' (i ++ c).
Proof.
  intros Ht E. assert (Hd : packet_discard (st r) = 0 ∧ wf (input (st r))) by (by destruct Ht as [? []|? ? ? ? []]).
  destruct Hd as [Hd Hw]. unfold packet_process_incoming in E. mstep_in E. mstep_in E. rewrite Hd in E.
  change (negb (0 =? 0)) with false in E. cbv iota in E. mstep_in E. apply on_buf_inv in E as (b & E & ->).
  rsimpl_in E. apply append_Ok_inv in E as [Wb Cb]; [|done].
  destruct Ht as [r [] Hrs|r c1 x1 e1 [] Hrs]; [|rewrite <- app_assoc]; rewrite <- Cb;
    match goal with |- taking _ _ _ ?s _ => change (contents b) with (contents (input (st s))) end.
  - by apply taking_start.
  - by apply (taking_mid nk cc rs _ c1 x1 e1).
Qed.

(** [i] starts with a packet of type [type] and payload [payload] whose tag is
    the MAC of its text. *)
Definition authentic (nk : Newkeys) (cc : CipherContext) (rs : Z * z_stream * Buffer) (i : list Z)
    (type sn : Z) (payload : list Z) : Prop :=
  let '((seq, z), cb) := rs in
  sn = seq ∧
  ∃ c1 c2 t rest x1 x2 e1 e2 hd body pad m,
    i = c1 ++ c2 ++ t ++ rest ∧
    EVP_Cipher (cc_evp cc) c1 = Some (x1, e1) ∧ EVP_Cipher e1 c2 = Some (x2, e2) ∧
    mac_compute (nk_mac nk) sn (x1 ++ x2) = Ok m ∧ t = take (Z.to_nat (mac_len (nk_mac nk))) m ∧
    Z.of_nat (length t) = mac_len (nk_mac nk) ∧
    x1 ++ x2 = hd ++ body ++ pad ∧ length hd = 5%nat ∧
    Z.of_nat (length (x1 ++ x2)) = 4 + get_u32 (take 4 hd) ∧
    hd !! 4%nat = Some (Z.of_nat (length pad)) ∧ 4 ≤ Z.of_nat (length pad) ∧
    unpacked nk z cb body type payload.

Lemma authentic_more nk cc rs i c type sn payload :
  authentic nk cc rs i type sn payload → authentic nk cc rs (i ++ c) type sn payload.
Proof.
  destruct rs as [[seq z] cb]. intros (-> & c1 & c2 & t & rest & x1 & x2 & e1 & e2 & hd & body & pad & m & -> & Hrest).
  split; [done|]. exists c1, c2, t, (rest ++ c), x1, x2, e1, e2, hd, body, pad, m. by rewrite <- !app_assoc.
Qed.

(** What a poll can return. *)
Definition poll_result (nk : Newkeys) (cc : CipherContext) (rs : Z * z_stream * Buffer) (i : list Z)
    (type sn : Z) (r' : ssh) : Prop :=
  (type = SSH_MSG_NONE ∧ (discarding r' ∨ taking nk cc rs r' i)) ∨
  (type ≠ SSH_MSG_NONE ∧ authentic nk cc rs i type sn (contents (incoming_packet (st r')))).

Lemma poll_inside nk cc rs r c1 x1 e1 type sn r' :
  inside nk cc r c1 x1 e1 → read_state r = rs → mac_is_on (Some nk) = true →
  packet_read_poll2 r = Ok ((type, sn), r') →
  poll_result nk cc rs (c1 ++ contents (input (st r))) type sn r'.
Proof.
  intros Hi Hrs Hon E. pose proof Hi as [Hk Hg Hl1 He1 Hcc Hd Hpl Hrange Hw Hr Hx1]. set (k := Some nk) in *.
  unfold packet_read_poll2 in E. mstep_in E. rewrite Hd in E. change (negb (0 =? 0)) with false in E. cbv iota in E.
  mstep_in E. rewrite Hk in E. fold (bs_of k) in E.
  assert (E1 : read2_first k (bs_of k) r = Ok (true, r)).
  { unfold read2_first. mstep. rewrite Hpl. by rewrite (proj2 (Z.eqb_neq _ _)) by lia. }
  rewrite (M_bind_Ok _ _ _ _ _ E1) in E. cbn [negb] in E. apply M_bind_inv in E as (b & r2 & E2 & E).
  destruct (read2_rest_cases nk cc r b r2 c1 x1 e1 Hi Hon E2) as [[-> Hr2]|(-> & Hrs2 & Hw2 & c2 & rest & x2 & e2 & He2 & Cx & Hlen & Hin)]; cbn [negb] in E.
  { injection E as <- _ <-. left. split; [done|]. destruct Hr2 as [->|Hr2]; [right|by left]. by eapply taking_mid. }
  right. apply read2_finish_inv in E as (-> & Hne & hd & body & pad & Hx & Hhd & Hpad & Hp4 & Hun); [|done].
  rewrite <- Hrs2 in Hrs. rewrite <- Hrs. unfold read_state, authentic. split; [done|]. split; [done|].
  assert (Hsn : seqnr (p_read (st r2)) = seqnr (p_read (st r))) by (unfold read_state in Hrs2; congruence).
  rewrite Hsn. destruct (tag_length k cc (seqnr (p_read (st r))) (x1 ++ x2) Hg) as [Htl _]. unfold mac_size, k in Htl. fold k in Htl. rewrite Hon in Htl.
  destruct (mac_compute_spec (nk_mac nk) (seqnr (p_read (st r))) (x1 ++ x2) (ku_mac _ _ Hg Hon)) as (m & Em & _).
  exists c1, c2, (tag k (seqnr (p_read (st r))) (x1 ++ x2)), rest, x1, x2, e1, e2, hd, body, pad, m. rewrite Cx in Hx.
  split_and!; try done; [by rewrite Hin|unfold tag, k; unfold k in Hon; by rewrite Hon, Em|].
  rewrite Hlen. do 2 f_equal. destruct (ku_bs _ _ Hg) as [Hb|Hb]; fold k in Hb;
    (transitivity (take 4 (x1 ++ x2)); [symmetry; apply take_app_le; lia|rewrite Hx; apply take_app_le; lia]).
Qed.

Lemma poll_taking nk cc rs r i type sn r' :
  taking nk cc rs r i → mac_is_on (Some nk) = true → packet_read_poll2 r = Ok ((type, sn), r') →
  poll_result nk cc rs i type sn r'.
Proof.
  intros [r1 Hb Hrs|r1 c1 x1 e1 Hi Hrs] Hon E; [|by eapply poll_inside].
  pose proof Hb as [Hk _ _ Hd _ _ _]. set (k := Some nk) in *.
  assert (E' := E). unfold packet_read_poll2 in E'. mstep_in E'. rewrite Hd in E'.
  change (negb (0 =? 0)) with false in E'. cbv iota in E'. mstep_in E'. rewrite Hk in E'. fold (bs_of k) in E'.
  apply M_bind_inv in E' as (b & r2 & E1 & E').
  destruct (read2_first_cases nk cc r1 b r2 Hb E1) as [[-> Hr2]|(-> & Hrs2 & c1 & x1 & e1 & Hi & Hin)]; cbn [negb] in E'.
  { injection E' as <- _ <-. left. split; [done|]. destruct Hr2 as [->|Hr2]; [right|by left]. by apply taking_start. }
  pose proof Hi as [Hk2 _ _ _ _ Hd2 Hpl2 Hrange2 _ _ _].
  rewrite Hin. eapply poll_inside; [done|by rewrite Hrs2|done|].
  rewrite <- (poll_first k r1 r2); [done|done|done|done|done|done|lia].
Qed.

(** C5: A packet delivered while a MAC is in use is authentic, however its
    bytes arrive, with and without compression.  A receiver between two
    packets that polls, and takes in the next piece whenever a poll returns
    nothing, returns a packet only if the bytes it has taken in begin with an
    encrypted packet and a tag that is the MAC, under the receiver's key and
    sequence number, of the decrypted text; the text is as long as its length
    field says, and type and payload are what is between the header and at
    least four bytes of padding, decompressed if compression is on.  Once the
    check has failed no packet is delivered any more. *)
Theorem ssh2_delivered_is_authentic nk cc chunks r type sn r' :
  between nk cc r → mac_is_on (Some nk) = true →
  await chunks r = Ok ((type, sn), r') → type ≠ SSH_MSG_NONE →
  authentic nk cc (read_state r) (contents (input (st r)) ++ mjoin chunks) type sn
    (contents (incoming_packet (st r'))).
Proof.
  intros Hb Hon E Hty. pose proof (taking_start nk cc _ r Hb eq_refl) as Ht.
  remember (contents (input (st r))) as i eqn:Hi. clear Hi Hb. revert Ht E. generalize (read_state r) as rs. intros rs. revert r i.
  induction chunks as [|c cs IH]; intros r i Ht E; cbn [await] in E; apply M_bind_inv in E as ([ty sn'] & r1 & E1 & E);
    destruct (poll_taking nk cc rs r i ty sn' r1 Ht Hon E1) as [[-> Hr1]|[Hne Hau]].
  - injection E as <- _ _. done.
  - rewrite app_nil_r. rewrite (proj2 (Z.eqb_neq _ _) Hne) in E. by injection E as <- <- <-.
  - change (negb (SSH_MSG_NONE =? SSH_MSG_NONE)) with false in E. cbv iota in E.
    apply M_bind_inv in E as (u & r2 & E2 & E). destruct Hr1 as [Hdisc|Ht1].
    + destruct Hty. eapply discarding_await; [|exact E]. by eapply discarding_input.
    + simpl. rewrite app_assoc. eapply IH; [|exact E]. by eapply taking_input.
  - rewrite (proj2 (Z.eqb_neq _ _) Hne) in E. injection E as <- <- <-. by apply authentic_more.
Qed.

End Link.

(** ** Two sessions with AES and HMAC keys *)
Module LinkDemo.
Import Toy Demo.

Definition after (a : act) (l : link) : link := match act_run a l with Ok l' => l' | _ => l end.

Lemma acts_ok_cons a acts l : act_ok a l → acts_ok acts (after a l) → acts_ok (a :: acts) l.
Proof. intros Ha Hs. split; [done|]. intros l' E. unfold after in Hs. by rewrite E in Hs. Qed.

Lemma demo_receivable : receivable (Some demo_keys) demo_cc (demo 1).
Proof. split; try done; first [apply demo_good | apply buffer_init_wf]. Qed.

Definition hello : message := (94, [0; 0; 0; 1; 104; 105]).
Definition bye : message := (93, [1; 2; 3]).

(** The first packet arrives in three pieces: less than a block, up to the
    middle of the tag, and the rest together with a part of the second one. *)
Definition demo_acts : list act := [Send hello; Carry 7; Poll; Carry 30; Poll; Send bye; Carry 40; Poll; Carry 100].

Lemma ssh2_stream_delivered_witness :
  ∃ l later, acts_run demo_acts (mkLink (demo 0) (demo 1) []) = Ok l ∧ [hello; bye] = lk_got l ++ later ∧
    (contents (output (st (lk_s l))) = [] →
     ∃ l', acts_run (replicate (length later) Poll) l = Ok l' ∧
       lk_got l' = [hello; bye] ∧ contents (input (st (lk_r l'))) = []).
Proof.
  apply (ssh2_stream_delivered (Some demo_keys) demo_cc demo_cc (demo 0) (demo 1) demo_acts);
    [|apply demo_receivable|apply buffer_init_wf|reflexivity..|].
  { destruct demo_sendable. by split. }
  assert (Hm : ∀ m, m = hello ∨ m = bye → msg_ok 0 1 0 m).
  { intros m [-> | ->]; (split; [split; [|left]; vm_compute; split; congruence|split; discriminate|intros [? _]; discriminate
      |by left|repeat constructor; discriminate|discriminate]). }
  repeat apply acts_ok_cons; try exact I;
    (split; [first [vm_compute; discriminate | apply Hm; tauto]|]); try (vm_compute; discriminate);
    (split; vm_compute; [discriminate|reflexivity]).
Defined.

(** The bytes of a message, in two pieces. *)
Definition demo_wire : list Z :=
  match send_all [hello] (demo 0) with Ok (_, s) => contents (output (st s)) | _ => [] end.
Definition demo_pieces : list (list Z) := [take 21 demo_wire; drop 21 demo_wire].

Lemma ssh2_delivered_is_authentic_witness :
  match await demo_pieces (demo 1) with
  | Ok ((type, sn), r') =>
      type = 94 ∧ authentic demo_keys demo_cc (read_state (demo 1)) (contents (input (st (demo 1))) ++ mjoin demo_pieces)
                    type sn (contents (incoming_packet (st r')))
  | _ => False
  end.
Proof.
  assert (Hb : between demo_keys demo_cc (demo 1)).
  { split; [reflexivity|apply (demo_good : keys_usable _ _)|reflexivity..|apply buffer_init_wf|apply buffer_init_wf]. }
  assert (Hd : match await demo_pieces (demo 1) with Ok ((ty, _), _) => ty =? 94 | _ => false end = true)
    by (vm_compute; reflexivity).
  destruct (await demo_pieces (demo 1)) as [[[ty sn] r']| | | | |] eqn:E; try discriminate Hd.
  apply Z.eqb_eq in Hd as ->. split; [reflexivity|].
  exact (ssh2_delivered_is_authentic demo_keys demo_cc demo_pieces (demo 1) 94 sn r' Hb eq_refl E ltac:(discriminate)).
Defined.

End LinkDemo.
