(* ===== verification/Pacing.v ===== *)
(** * What CS-BuFLO puts on the wire

    Theorems about [PacketWrite.v]: the dummy packets that fill the output, the
    sizes and times of the writes, and their independence of the data. *)

From S2P Require Import Prelude ByteOrder Buffer Crc32 Deattack Stdio SuperTrace HashMap Csbuflo.
From S2P Require Import CipherMac Packet PacketWrite PacketRead PacketProofs PacketStream.

Section Pacing.
Context `{CryptoLaws}.

Lemma put_chars_spec l : ∀ s n,
  roomy (outgoing_packet (st s)) n → Z.of_nat (length l) ≤ n → bytes l →
  ∃ b, put_chars l s = Ok (tt, s <| st := (st s) <| outgoing_packet := b |> |>) ∧
    contents b = contents (outgoing_packet (st s)) ++ l ∧ roomy b (n - Z.of_nat (length l)).
Proof.
  induction l as [|c l IH]; intros s n Hr Hn Hb.
  { exists (outgoing_packet (st s)). split_and!; [by destruct s as [[]]|by rewrite app_nil_r|].
    simpl. by replace (n - Z.of_nat 0) with n by lia. }
  apply Forall_cons in Hb as [Hc Hb]. simpl in Hn.
  destruct (append_roomy (outgoing_packet (st s)) n [u8 c] Hr) as (b & E & Co & Ro);
    [simpl; lia|simpl; unfold BUFFER_MAX_CHUNK; lia|].
  destruct (IH (s <| st := (st s) <| outgoing_packet := b |> |>) (n - 1)) as (b' & E' & Co' & Ro'); [exact Ro|lia|done|].
  cbn [put_chars]. unfold packet_put_char. mbuf E. exists b'. split_and!.
  - etransitivity; [exact E'|]. by rsimpl.
  - rewrite Co'. rsimpl. rewrite Co, <- app_assoc. unfold u8. by rewrite Z.mod_small by exact Hc.
  - simpl length. eapply roomy_weaken; [exact Ro'|]. lia.
Qed.

(** The dummy packet with [nb] random bytes. *)
Lemma build_ignore_spec s nb :
  compat20 s = true → wf (outgoing_packet (st s)) → 0 ≤ nb ≤ 2 ^ 17 →
  ∃ m b l, packet_send_ignore nb s = Ok (tt, s <| n_rand := m |> <| st := (st s) <| outgoing_packet := b |> |>) ∧
    contents b = replicate 5 0 ++ SSH2_MSG_IGNORE :: put_u32 nb ++ l ∧ Z.of_nat (length l) = nb ∧ bytes l ∧ roomy b 20.
Proof.
  intros Hc Hh Hnb. unfold packet_send_ignore. mstep. rewrite Hc. cbv iota.
  destruct (build_msg_spec s SSH2_MSG_IGNORE (put_u32 nb) Hc Hh) as (b & s1 & E & -> & Cb & Rb);
    [simpl; unfold PACKET_MAX_SIZE; lia|done|].
  change (packet_put_int (u32 nb)) with (packet_put_raw (put_u32 (u32 nb))). rewrite u32_small by lia.
  apply (roomy_weaken _ _ (PACKET_ROOM - 10)) in Rb; [|simpl; lia].
  rewrite M_bind_assoc. mstep_by E. unfold put_random.
  destruct (random_bytes_spec (Z.to_nat nb) 0 0 (s <| st := (st s) <| outgoing_packet := b |> |>)) as (l & m & El & Hl & Hb).
  mstep_by El.
  destruct (put_chars_spec l ((s <| st := (st s) <| outgoing_packet := b |> |>) <| n_rand := m |>)
    (PACKET_ROOM - 10)) as (b' & E' & Co & Ro);
    [rsimpl; exact Rb|unfold PACKET_ROOM; lia|done|].
  exists m, b', l. split_and!; [| |lia|done|].
  - etransitivity; [exact E'|]. by rsimpl.
  - rewrite Co. rsimpl. by rewrite Cb, <- app_assoc.
  - eapply roomy_weaken; [exact Ro|]. unfold PACKET_ROOM. lia.
Qed.

(** Bytes that a dummy packet adds to the output, for cipher blocks of [bs]
    bytes and a MAC of [ml] bytes. *)
Definition dummy_size (bs ml nb : Z) : Z := 10 + nb + base_padlen bs (10 + nb) + ml.
Definition maclen_of (k : option Newkeys) : Z :=
  match k with Some nk => if mac_is_on k then mac_len (nk_mac nk) else 0 | None => 0 end.

(** A session in protocol 2 that can send [n] more bytes, whatever its keys. *)
Record ready (k : option Newkeys) (n pk : Z) (s : ssh) : Prop := {
  rd_send : ∃ cc d, sendable k cc d n s;
  rd_out : wf (outgoing_packet (st s));
  rd_pk : packets (p_send (st s)) + pk < 2 ^ 32 - 1
}.

Lemma ready_weaken k n n' pk pk' s : ready k n pk s → n' ≤ n → pk' ≤ pk → ready k n' pk' s.
Proof.
  intros [(cc & d & []) Ho Hp] Hn Hpk. split; [exists cc, d; split; try done|done|lia].
  by eapply roomy_weaken.
Qed.

Lemma ready_maclen k n pk s : ready k n pk s → 0 ≤ maclen_of k ≤ 64.
Proof.
  intros [(cc & d & [? ? Hg]) _ _]. destruct (tag_spec k cc 0 [] Hg) as (Ht & Ht' & _).
  unfold maclen_of. rewrite <- Ht. lia.
Qed.
Lemma ready_bs k n pk s : ready k n pk s → good_bs (bs_of k).
Proof. intros [(cc & d & [? ? Hg]) _ _]. apply Hg. Qed.

(** Sending a dummy packet. *)
Lemma send_ignore_spec k n pk s nb :
  ready k n pk s → 1 ≤ pk → 0 ≤ nb ≤ 2 ^ 17 → nb + 132 ≤ n →
  ∃ m x w, (_ ← packet_send_ignore nb; packet_send) s = Ok (tt, s <| n_rand := m |> <| st := x |>) ∧
    ready k (n - dummy_size (bs_of k) (maclen_of k) nb) (pk - 1) (s <| n_rand := m |> <| st := x |>) ∧
    contents (output x) = contents (output (st s)) ++ w ∧
    Z.of_nat (length w) = dummy_size (bs_of k) (maclen_of k) nb.
Proof.
  intros [(cc & d & Hs) Ho Hp] Hpk Hnb Hn.
  destruct (build_ignore_spec s nb (sd_c20 _ _ _ _ _ Hs) Ho Hnb) as (m & b & l & E & Cb & Hl & Hb & Rb).
  set (s1 := s <| n_rand := m |> <| st := _ |>) in *.
  assert (Hs1 : sendable k cc d n s1) by (destruct Hs; by split).
  destruct (send_built_spec k cc d n s1 1 SSH2_MSG_IGNORE (put_u32 nb ++ l) Hs1 Cb Rb) as
    (m' & x & cc' & d' & c & pad & E' & Hs' & Hh' & Hp' & _ & _ & _ & Co & _ & Hlc & _ & Lp).
  { change (packets (p_send (st s)) + 1 < 2 ^ 32 - 1). lia. }
  { split; simpl; [split; [done|by left]|done|intros [? _]; discriminate|by right| |].
    - apply (Forall_app_2 _ (put_u32 nb)); [apply put_u32_bytes|done].
    - unfold PACKET_MAX_SIZE. simpl. lia. }
  { rewrite length_app. simpl. lia. }
  rewrite length_app in Lp. change (length (put_u32 nb)) with 4%nat in Lp.
  assert (Hpl : Z.of_nat (length pad) = base_padlen (bs_of k) (10 + nb)) by (rewrite Lp; f_equal; lia).
  assert (Hw : Z.of_nat (length (c ++ tag k (seqnr (p_send (st s1))) (frame (SSH2_MSG_IGNORE :: put_u32 nb ++ l) pad)))
    = dummy_size (bs_of k) (maclen_of k) nb).
  { rewrite length_app, Hlc, frame_length. destruct (tag_spec k cc (seqnr (p_send (st s1)))
      (frame (SSH2_MSG_IGNORE :: put_u32 nb ++ l) pad) (sd_good _ _ _ _ _ Hs)) as (Ht & _).
    rewrite Nat2Z.inj_add, Ht. fold (maclen_of k). unfold dummy_size. rewrite <- Hpl. simpl. lia. }
  exists m', x, (c ++ tag k (seqnr (p_send (st s1))) (frame (SSH2_MSG_IGNORE :: put_u32 nb ++ l) pad)).
  split_and!; [| |exact Co|exact Hw].
  - mstep_by E. etransitivity; [exact E'|]. unfold s1. by rsimpl.
  - split; [|done|].
    + exists cc', d'. rewrite length_app, Hlc in Hw. destruct Hs'. split; try done. eapply roomy_weaken; [done|]. lia.
    + rsimpl. rewrite Hp'. change (packets (p_send (st s1))) with (packets (p_send (st s))). lia.
Qed.

Lemma output_len_spec b : wf b → i32 (buffer_len b) = Z.of_nat (length (contents b)).
Proof.
  intros Hw. rewrite buffer_len_contents by done. apply i32_small. pose proof (contents_length b Hw).
  destruct Hw. unfold BUFFER_MAX_LEN in *. lia.
Qed.

(** ** Filling the output *)

(** The dummy packet that [pad_output] sends when [diff] bytes are missing is
    at least as long as that, and at most 20 bytes and a MAC longer. *)
Definition fill_size (bs ml diff : Z) : Z := dummy_size bs ml (if 16 <? diff then diff - 10 else 0).

Lemma fill_size_bounds bs ml diff :
  good_bs bs → 0 ≤ ml → 0 < diff → 
  (diff + ml ≤ fill_size bs ml diff ≤ diff + 19 + ml) ∧ 16 ≤ fill_size bs ml diff.
Proof.
  intros Hbs Hml Hd. unfold fill_size, dummy_size. destruct (Z.ltb_spec 16 diff).
  - pose proof (base_padlen_spec bs (10 + (diff - 10)) Hbs ltac:(lia)) as [Hp _]. destruct Hbs; lia.
  - replace (base_padlen bs (10 + 0)) with 6 by (destruct Hbs as [->| ->]; reflexivity). lia.
Qed.

Lemma fill_output_done fuel aw s :
  wf (output (st s)) → aw ≤ Z.of_nat (length (contents (output (st s)))) →
  fill_output (S fuel) aw s = Ok (Z.of_nat (length (contents (output (st s)))), s).
Proof.
  intros Hw Ha. cbn [fill_output]. unfold output_buffer_len. mstep. rewrite output_len_spec by done.
  rewrite (proj2 (Z.ltb_ge _ _)) by lia. done.
Qed.

Lemma ready_wf k n pk s : ready k n pk s → wf (output (st s)).
Proof. intros [(cc & d & Hs)]. apply (sd_out _ _ _ _ _ Hs). Qed.

Lemma pad_output_spec k n pk s len aw :
  ready k n pk s → 1 ≤ pk → Z.of_nat (length (contents (output (st s)))) = len →
  len < aw ≤ 2 ^ 16 → aw - len + 132 ≤ n →
  let fill := fill_size (bs_of k) (maclen_of k) (aw - len) in
  ∃ m x w, pad_output len aw s = Ok (len + fill, s <| n_rand := m |> <| st := x |>) ∧
    ready k (n - fill) (pk - 1) (s <| n_rand := m |> <| st := x |>) ∧
    contents (output x) = contents (output (st s)) ++ w ∧ Z.of_nat (length w) = fill.
Proof.
  intros Hr Hpk Hl Haw Hn fill.
  assert (Hml := ready_maclen _ _ _ _ Hr). assert (Hbs := ready_bs _ _ _ _ Hr).
  destruct (fill_size_bounds (bs_of k) (maclen_of k) (aw - len) Hbs ltac:(lia) ltac:(lia)) as [Hf _].
  destruct (send_ignore_spec k n pk s (if 16 <? aw - len then aw - len - 10 else 0) Hr Hpk) as (m & x & w & E & Hr' & Co & Hw);
    [zcase; lia|zcase; lia|].
  exists m, x, w. split_and!; [|exact Hr'|exact Co|exact Hw].
  unfold pad_output. rewrite (i32_small (aw - len)), (i32_small (aw - len - 16)) by lia.
  assert (Hb : (if 0 <? aw - len - 16 then packet_send_ignore (i32 (aw - len - 16 + 6)) else packet_send_ignore 0)
    = packet_send_ignore (if 16 <? aw - len then aw - len - 10 else 0)).
  { destruct (Z.ltb_spec 16 (aw - len)), (Z.ltb_spec 0 (aw - len - 16)); try lia; [|done].
    rewrite i32_small by lia. f_equal. lia. }
  rewrite Hb, M_bind_assoc. mstep_by E. pose proof (ready_wf _ _ _ _ Hr') as Wx.
  change (output (st _)) with (output x) in Wx.
  assert (Hlx : Z.of_nat (length (contents (output x))) = len + fill) by (rewrite Co, length_app; unfold fill, fill_size in *; lia).
  rewrite fill_output_done; [|exact Wx|rsimpl; unfold fill in *; lia]. rsimpl. by rewrite Hlx.
Qed.

Lemma prepare_write_gen k n pk s len aw :
  ready k n pk s → Z.of_nat (length (contents (output (st s)))) = len →
  0 < aw ≤ 2 ^ 16 → (aw ≤ len ∨ aw - len + 132 ≤ n ∧ 1 ≤ pk) →
  let fill := if aw <=? len then 0 else fill_size (bs_of k) (maclen_of k) (aw - len) in
  ∃ m x j w, prepare_write len aw s =
      Ok (if negb (stmode (g s) =? 0) || (aw <=? len) then aw else len + fill,
          s <| n_rand := m |> <| st := x |> <| g := set_padded_junk j (g s) |>) ∧
    ready k (n - fill) (if aw <=? len then pk else pk - 1)
      (s <| n_rand := m |> <| st := x |> <| g := set_padded_junk j (g s) |>) ∧
    contents (output x) = contents (output (st s)) ++ w ∧ Z.of_nat (length w) = fill.
Proof.
  intros Hr Hl Haw Hn fill. unfold prepare_write, fill. destruct (Z.leb_spec aw len) as [Hle|Hlt].
  - exists (n_rand s), (st s), (padded_junk (g s)), []. rewrite orb_true_r.
    assert (s <| n_rand := n_rand s |> <| st := st s |> <| g := set_padded_junk (padded_junk (g s)) (g s) |> = s) as ->
      by (by destruct s as [? ? []]).
    split_and!; [done|eapply ready_weaken; [done|lia..]|by rewrite app_nil_r|done].
  - destruct (pad_output_spec k n pk s len aw Hr) as (m & x & w & E & Hr' & Co & Hw); [lia|done|lia|lia|].
    mstep_by E. mstep. mstep.
    eexists m, x, _, w. split_and!; [| |done|done].
    + rewrite orb_false_r. reflexivity.
    + destruct Hr' as [(cc & d & []) ? ?]. split; [exists cc, d; by split|done|done].
Qed.

Lemma prepare_write_spec k n s len aw :
  ready k n n s → Z.of_nat (length (contents (output (st s)))) = len →
  0 < aw ≤ 2 ^ 16 → (aw ≤ len ∨ aw - len + 132 ≤ n) →
  let fill := if aw <=? len then 0 else fill_size (bs_of k) (maclen_of k) (aw - len) in
  ∃ m x j w, prepare_write len aw s =
      Ok (if negb (stmode (g s) =? 0) || (aw <=? len) then aw else len + fill,
          s <| n_rand := m |> <| st := x |> <| g := set_padded_junk j (g s) |>) ∧
    ready k (n - fill) (n - fill) (s <| n_rand := m |> <| st := x |> <| g := set_padded_junk j (g s) |>) ∧
    contents (output x) = contents (output (st s)) ++ w ∧ Z.of_nat (length w) = fill.
Proof.
  intros Hr Hl Haw Hn fill.
  destruct (prepare_write_gen k n n s len aw Hr Hl Haw ltac:(lia)) as (m & x & j & w & E & Hr' & Co & Hw).
  exists m, x, j, w. split_and!; [done| |done|done]. eapply ready_weaken; [exact Hr'|done|].
  unfold fill. pose proof (fill_size_bounds (bs_of k) (maclen_of k) (aw - len) (ready_bs _ _ _ _ Hr)) as Hf.
  pose proof (ready_maclen _ _ _ _ Hr). destruct (Z.leb_spec aw len); lia.
Qed.

(** ** The write itself *)

Definition shape (l : list (Z * list Z)) : list (Z * Z) := map (λ e, (e.1, Z.of_nat (length e.2))) l.

(** Everything that has been or will be written. *)
Definition stream (s : ssh) : list Z := mjoin (map snd (wire s)) ++ contents (output (st s)).

Lemma roaming_write_spec len s :
  wf (output (st s)) → 0 ≤ len ≤ Z.of_nat (length (contents (output (st s)))) →
  let res := match e_write (world s) (n_write s) with
             | Wrote room cont => (WR (Z.max 0 (Z.min room len)) cont, Z.max 0 (Z.min room len))
             | WBlock => (WR_again, 0)
             | WError => (WR_error, 0)
             end in
  roaming_write len s =
    Ok (res.1, s <| n_write := S (n_write s) |>
                 <| wire := wire s ++ [(len, take (Z.to_nat res.2) (contents (output (st s))))] |>).
Proof.
  intros Hw Hl. unfold roaming_write. mstep.
  mlift (peek_bytes_contents (output (st s)) len Hw Hl). mstep. mstep.
  destruct (e_write (world s) (n_write s)) as [room cont| |]; cbv zeta; mstep; cbn [fst snd]; rsimpl.
  - rewrite take_take. replace (Z.to_nat (Z.max 0 (Z.min room len)) `min` Z.to_nat len)%nat
      with (Z.to_nat (Z.max 0 (Z.min room len))) by lia. done.
  - done.
  - done.
Qed.

(** ** Super-trace mode *)

(** A burst as the network sees it: for every call of [write] the length asked
    for and the length accepted, from the answers of the system alone. *)
Inductive burst_result := Burst (q i : nat) (calls : list (Z * Z)) | BClosed | BUnfinished.
Definition call (c : Z * Z) (r : burst_result) : burst_result :=
  match r with Burst q i l => Burst q i (c :: l) | r => r end.

Fixpoint paced (fuel : nat) (e : env) (q i : nat) (w : Z) : burst_result :=
  if 0 <? w then
    match fuel with
    | O => BUnfinished
    | S fuel =>
        let a := Z.min w (Z.max 0 (WRITE_LIMIT - e_outq e q)) in
        if a <=? 0 then paced fuel e (S q) i w
        else
          match e_write e i with
          | WError => BClosed
          | WBlock => call (a, 0) (paced fuel e (S q) (S i) w)
          | Wrote room cont =>
              let n := Z.max 0 (Z.min room a) in
              if (n =? 0) && negb cont then BClosed
              else call (a, n) (paced fuel e (S q) (S i) (w - n))
          end
    end
  else Burst q i [].

(** A session in the middle of a burst with [w] bytes to go. *)
Record bursting (k : option Newkeys) (w : Z) (s : ssh) : Prop := {
  bu_mode : stmode (g s) = 1;
  bu_tend : sent_tend (g s) ≠ 1;
  bu_queue : ∀ i, 0 ≤ e_outq (world s) i < 2 ^ 31;
  bu_w : w < 2 ^ 31;
  bu_room : ∃ n, ready k n n s ∧
    let len := Z.of_nat (length (contents (output (st s)))) in w ≤ len ∨ w - len + 200 ≤ n
}.

(** What a part of a burst leaves alone, and that it only adds to the stream. *)
Record burst_frame (s s' : ssh) : Prop := {
  bf_world : world s' = world s;
  bf_tau : packet_tau s' = packet_tau s;
  bf_time : packet_time_to_write s' = packet_time_to_write s;
  bf_clock : n_time s' = n_time s;
  bf_g : ∃ j, g s' = set_padded_junk j (g s);
  bf_stream : ∃ pad, stream s' = stream s ++ pad
}.

Lemma burst_frame_trans s1 s2 s3 : burst_frame s1 s2 → burst_frame s2 s3 → burst_frame s1 s3.
Proof.
  intros [Hw1 Ht1 Hp1 Hn1 [j1 Hg1] [p1 Hs1]] [Hw2 Ht2 Hp2 Hn2 [j2 Hg2] [p2 Hs2]]. split; try congruence.
  - exists j2. by rewrite Hg2, Hg1.
  - exists (p1 ++ p2). by rewrite Hs2, Hs1, app_assoc.
Qed.

Lemma choose_write_paced gl w len q :
  stmode gl = 1 → sent_tend gl ≠ 1 → 0 ≤ q < 2 ^ 31 → 0 < w →
  choose_write gl w len q = Z.min w (Z.max 0 (WRITE_LIMIT - q)).
Proof.
  intros Hm Ht Hq Hw. unfold choose_write, unpaced. rewrite Hm, (proj2 (Z.eqb_neq _ _) Ht).
  change (1 =? -1) with false. rewrite andb_false_r, orb_false_l. unfold WRITE_LIMIT.
  destruct (Z.ltb_spec q (4096 * 4)); [rewrite i32_small by lia|]; zcase; lia.
Qed.

(** After [prepare_write] and [roaming_write]: [got] of the [a] bytes went out
    and [left] is what the buffer holds next. *)
Lemma bursting_after k w s m x j i l n a got left o :
  bursting k w s → ready k n n (s <| n_rand := m |> <| st := x |> <| g := set_padded_junk j (g s) |>) →
  contents (output x) = contents (output (st s)) ++ l →
  0 ≤ got ≤ w → contents o = drop (Z.to_nat got) (contents (output x)) → roomy o n → 
  got ≤ Z.of_nat (length (contents (output x))) →
  w ≤ Z.of_nat (length (contents (output x))) ∨ w - Z.of_nat (length (contents (output x))) + 200 ≤ n →
  let s' := s <| n_outq := S (n_outq s) |> <| n_rand := m |> <| g := set_padded_junk j (g s) |> <| n_write := i |>
     <| wire := wire s ++ [(a, take (Z.to_nat got) (contents (output x)))] |> <| st := x <| output := o |> |> in
  left = w - got →
  bursting k left s' ∧ burst_frame s s' ∧ shape (wire s') = shape (wire s) ++ [(a, got)].
Proof.
  intros [Hm Ht Hq Hw _] [(cc & d & Hs) Ho Hp] Cx Hgot Co Ro Hg Hn s' ->. split_and!.
  - split; [done|done|done|lia|]. exists n. split.
    + split; [exists cc, d; destruct Hs; by split|done|done].
    + unfold s'. rsimpl. rewrite Co, length_drop. lia.
  - split; try done; [by exists j|]. exists l. unfold stream, s'. rsimpl.
    rewrite map_app, join_app. simpl. rewrite app_nil_r, Co, <- !app_assoc, take_drop, Cx. done.
  - unfold s', shape. rsimpl. rewrite map_app. simpl. rewrite length_take.
    do 3 f_equal. lia.
Qed.

Lemma one_write_paced k w s :
  bursting k w s → 0 < w →
  let a := Z.min w (Z.max 0 (WRITE_LIMIT - e_outq (world s) (n_outq s))) in
  if a <=? 0 then packet_write_poll_one_write w s = Ok (w, s <| n_outq := S (n_outq s) |>)
  else
    let goes n := ∃ s', packet_write_poll_one_write w s = Ok (w - n, s') ∧
      n_outq s' = S (n_outq s) ∧ n_write s' = S (n_write s) ∧
      bursting k (w - n) s' ∧ burst_frame s s' ∧ shape (wire s') = shape (wire s) ++ [(a, n)] in
    match e_write (world s) (n_write s) with
    | WError => ∃ m, packet_write_poll_one_write w s = Fatal m
    | WBlock => goes 0
    | Wrote room cont =>
        let n := Z.max 0 (Z.min room a) in
        if (n =? 0) && negb cont then ∃ m, packet_write_poll_one_write w s = Fatal m else goes n
    end.
Proof.
  intros Hb Hw0 a. pose proof Hb as [Hm Ht Hq Hw (n & Hr & Hn)]. pose proof (Hq (n_outq s)) as Hqs. cbv zeta in Hn.
  set (len := Z.of_nat (length (contents (output (st s))))) in *.
  unfold packet_write_poll_one_write, output_buffer_len. mstep.
  rewrite output_len_spec by eapply ready_wf, Hr. fold len. mstep. mstep. rsimpl.
  rewrite (i32_small w), (i32_small (e_outq _ _)) by lia. rewrite choose_write_paced by done. fold a.
  destruct (Z.leb_spec a 0) as [Ha|Ha]; [by rewrite (proj2 (Z.ltb_ge _ _)) by lia|].
  rewrite (proj2 (Z.ltb_lt _ _)) by lia.
  set (s1 := s <| n_outq := S (n_outq s) |>).
  assert (Hr1 : ready k n n s1) by (destruct Hr as [(cc & d & []) ? ?]; split; [exists cc, d; by split|done|done]).
  destruct (prepare_write_spec k n s1 len a Hr1 eq_refl) as (m & x & j & l & E & Hr2 & Cx & Hl);
    [split; [done|unfold a, WRITE_LIMIT; lia]|unfold a; lia|].
  set (fill := if a <=? len then 0 else _) in *.
  assert (Haw : a ≤ w) by (unfold a; lia).
  assert (Hwx : Z.of_nat (length (contents (output x))) = len + fill) by (rewrite Cx, length_app; change (output (st s1)) with (output (st s)); lia).
  assert (Hfill : a ≤ len + fill ∧ 0 ≤ fill ∧ (w ≤ len + fill ∨ w - (len + fill) + 200 ≤ n - fill)).
  { unfold fill. destruct (Z.leb_spec a len); [lia|].
    pose proof (fill_size_bounds (bs_of k) (maclen_of k) (a - len) (ready_bs _ _ _ _ Hr)) as Hf.
    pose proof (ready_maclen _ _ _ _ Hr). specialize (Hf ltac:(lia) ltac:(lia)). lia. }
  mstep_by E. change (stmode (g s1)) with (stmode (g s)). rewrite Hm. cbn [negb orb Z.eqb].
  pose proof (ready_wf _ _ _ _ Hr2) as Wx.
  set (s2 := s1 <| n_rand := m |> <| st := x |> <| g := set_padded_junk j (g s1) |>) in *.
  change (output (st s2)) with (output x) in Wx.
  assert (Er := roaming_write_spec a s2 Wx ltac:(change (output (st s2)) with (output x); lia)).
  change (world s2) with (world s) in Er. change (n_write s2) with (n_write s) in Er.
  assert (Hcons : ∀ got, 0 ≤ got ≤ a → ∃ o, buffer_consume (output x) got = Ok o ∧ roomy o (n - fill) ∧
     contents o = drop (Z.to_nat got) (contents (output x))).
  { intros got Hgot. pose proof (buffer_consume_spec (output x) got Wx ltac:(lia)) as Hs.
    rewrite (proj2 (Z.leb_le _ _)) in Hs by lia. destruct Hs as (o & Eo & Wo & _ & _ & Co). exists o. split_and!; [done| |done].
    destruct Hr2 as [(cc & d & Hs2) _ _]. eapply consume_roomy; [apply (sd_out _ _ _ _ _ Hs2)| |exact Eo]. lia. }
  destruct (e_write (world s) (n_write s)) as [room cont| |] eqn:Ew; cbn [fst snd] in Er; mstep_by Er.
  - set (got := Z.max 0 (Z.min room a)) in *. destruct ((got =? 0) && negb cont); [by eexists|].
    destruct (Hcons got ltac:(lia)) as (o & Eo & Ro & Co). mbuf Eo. mstep.
    assert (Hu : unpaced (set_padded_junk j (g s)) = false).
    { unfold unpaced, set_padded_junk. rsimpl. rewrite Hm, (proj2 (Z.eqb_neq _ _) Ht). done. }
    change (g _) with (set_padded_junk j (g s)) at 1. rewrite Hu. mstep. mstep.
    change (stmode (g _)) with (stmode (g s)). rewrite Hm, (proj2 (Z.ltb_lt 0 w)) by lia.
    eexists. split; [reflexivity|]. split; [done|]. split; [done|].
    eapply (bursting_after k w s m x j (S (n_write s)) l (n - fill) a got _ o Hb); try done; try lia.
    destruct Hr2 as [(cc & d & []) ? ?]; split; [exists cc, d; by split|done|done].
  - eexists. rewrite Z.sub_0_r. split; [reflexivity|]. split; [done|]. split; [done|].
    destruct (bursting_after k w s m x j (S (n_write s)) l (n - fill) a 0 w (output x) Hb) as (H1 & H2 & H3); try done; try lia.
    + destruct Hr2 as [(cc & d & []) ? ?]; split; [exists cc, d; by split|done|done].
    + destruct Hr2 as [(cc & d & Hs2) _ _]. apply (sd_out _ _ _ _ _ Hs2).
    + by destruct x.
  - by eexists.
Qed.

Lemma burst_frame_queue s n : burst_frame s (s <| n_outq := n |>).
Proof. split; try done; [exists (padded_junk (g s)); by destruct s as [? ? []]|]. exists []. by rewrite app_nil_r. Qed.

Lemma burst_frame_refl s : burst_frame s s.
Proof. replace s with (s <| n_outq := n_outq s |>) at 2 by (by destruct s). apply burst_frame_queue. Qed.

Lemma write_burst_paced k fuel : ∀ w s,
  bursting k w s → 0 ≤ w →
  match paced fuel (world s) (n_outq s) (n_write s) w with
  | Burst q i calls => ∃ s', write_burst fuel w s = Ok (0, s') ∧ n_outq s' = q ∧ n_write s' = i ∧
      burst_frame s s' ∧ shape (wire s') = shape (wire s) ++ calls
  | BClosed => ∃ m, write_burst fuel w s = Fatal m
  | BUnfinished => write_burst fuel w s = NoFuel
  end.
Proof.
  induction fuel as [|fuel IH]; intros w s Hb Hw0; cbn [paced write_burst].
  { destruct (Z.ltb_spec 0 w); [done|]. assert (w = 0) as -> by lia. exists s.
    split_and!; try done; [apply burst_frame_refl|by rewrite app_nil_r]. }
  destruct (Z.ltb_spec 0 w) as [Hw|Hw].
  2: { assert (w = 0) as -> by lia. exists s.
    split_and!; try done; [apply burst_frame_refl|by rewrite app_nil_r]. }
  pose proof (one_write_paced k w s Hb Hw) as Hstep. cbv zeta in Hstep.
  set (a := Z.min w _) in *. destruct (Z.leb_spec a 0) as [Ha|Ha].
  - mstep_by Hstep. 
    assert (Hb' : bursting k w (s <| n_outq := S (n_outq s) |>)).
    { destruct Hb as [? ? ? ? (n & [(cc & d & []) ? ?] & ?)]. split; try done. exists n. split; [|done].
      split; [exists cc, d; by split|done|done]. }
    specialize (IH w _ Hb' Hw0). rsimpl_in IH. destruct (paced _ _ _ _ _); try done.
    destruct IH as (s' & E & Hq & Hi & Hf & Hsh). exists s'. split_and!; try done.
    eapply burst_frame_trans; [apply burst_frame_queue|exact Hf].
  - assert (Hgoes : ∀ n, n ≤ w → (∃ s', packet_write_poll_one_write w s = Ok (w - n, s') ∧
      n_outq s' = S (n_outq s) ∧ n_write s' = S (n_write s) ∧
      bursting k (w - n) s' ∧ burst_frame s s' ∧ shape (wire s') = shape (wire s) ++ [(a, n)]) →
      match call (a, n) (paced fuel (world s) (S (n_outq s)) (S (n_write s)) (w - n)) with
      | Burst q i calls => ∃ s', (packet_write_poll_one_write w ≫= λ w, write_burst fuel w) s = Ok (0, s') ∧
          n_outq s' = q ∧ n_write s' = i ∧ burst_frame s s' ∧ shape (wire s') = shape (wire s) ++ calls
      | BClosed => ∃ m, (packet_write_poll_one_write w ≫= λ w, write_burst fuel w) s = Fatal m
      | BUnfinished => (packet_write_poll_one_write w ≫= λ w, write_burst fuel w) s = NoFuel
      end).
    { intros n Hn (s1 & E1 & Hq1 & Hi1 & Hb1 & Hf1 & Hs1). rewrite (M_bind_Ok _ _ _ _ _ E1).
      specialize (IH (w - n) s1 Hb1 ltac:(lia)). rewrite (bf_world _ _ Hf1), Hq1, Hi1 in IH.
      destruct (paced _ _ _ _ _); simpl; try done.
      destruct IH as (s' & E & Hq & Hi & Hf & Hsh). exists s'. split_and!; try done.
      - by eapply burst_frame_trans.
      - by rewrite Hsh, Hs1, <- app_assoc. }
    destruct (e_write (world s) (n_write s)) as [room cont| |].
    + destruct ((_ =? 0) && negb cont) eqn:Ez.
      * destruct Hstep as [m Hstep]. exists m. unfold mbind, M_bind. by rewrite Hstep.
      * apply Hgoes; [|exact Hstep]. unfold a. lia.
    + specialize (Hgoes 0 ltac:(lia) Hstep). by rewrite Z.sub_0_r in Hgoes.
    + destruct Hstep as [m Hstep]. exists m. unfold mbind, M_bind. by rewrite Hstep.
Qed.

(** Exactly [w] bytes are accepted, never more than the limit at a time. *)
Lemma paced_total fuel : ∀ e q i w q' i' calls,
  (∀ n, 0 ≤ e_outq e n) → 0 ≤ w → paced fuel e q i w = Burst q' i' calls →
  foldr (λ c a, c.2 + a) 0 calls = w ∧ Forall (λ c, 0 ≤ c.2 ≤ c.1 ∧ c.1 ≤ WRITE_LIMIT) calls.
Proof.
  induction fuel as [|fuel IH]; intros e q i w q' i' calls He Hw Hp; cbn [paced] in Hp.
  { destruct (Z.ltb_spec 0 w); [discriminate|]. injection Hp as <- <- <-. simpl. split; [lia|done]. }
  destruct (Z.ltb_spec 0 w); [|injection Hp as <- <- <-; simpl; split; [lia|done]].
  pose proof (He q) as Hq. set (a := Z.min w _) in *.
  assert (Hcall : ∀ n, 0 ≤ n ≤ a → 0 < a → call (a, n) (paced fuel e (S q) (S i) (w - n)) = Burst q' i' calls →
    foldr (λ c a, c.2 + a) 0 calls = w ∧ Forall (λ c, 0 ≤ c.2 ≤ c.1 ∧ c.1 ≤ WRITE_LIMIT) calls).
  { intros n Hn Ha Hc. destruct (paced fuel e (S q) (S i) (w - n)) as [q1 i1 l| |] eqn:E; try discriminate.
    injection Hc as -> -> <-. apply IH in E as [E1 E2]; [|done|unfold a in *; lia]. simpl. split; [lia|].
    constructor; [|done]. simpl. unfold a, WRITE_LIMIT in *. lia. }
  destruct (Z.leb_spec a 0) as [Ha|Ha]; [by apply IH in Hp|].
  destruct (e_write e i) as [room cont| |]; [| |discriminate].
  - destruct (_ && _); [discriminate|]. eapply Hcall; [|done|exact Hp]. lia.
  - apply (Hcall 0); [lia|done|]. by rewrite Z.sub_0_r.
Qed.

(** What [packet_write_poll] does in super-trace mode. *)
Lemma write_poll_paced k fuel s :
  let w := w2w (g s) in
  let now := u64 (e_time (world s) (n_time s)) in
  bursting k w s → 0 ≤ w → packet_time_to_write s ≤ now →
  match paced fuel (world s) (n_outq s) (n_write s) w with
  | Burst q i calls => ∃ s', packet_write_poll fuel s = Ok (tt, s') ∧
      shape (wire s') = shape (wire s) ++ calls ∧ packet_time_to_write s' = u64 (now + packet_tau s) ∧
      (∃ j, g s' = set_w2w 0 (set_padded_junk j (g s))) ∧ (∃ pad, stream s' = stream s ++ pad) ∧
      packet_tau s' = packet_tau s ∧ world s' = world s ∧ n_time s' = S (n_time s) ∧ n_outq s' = q ∧ n_write s' = i
  | BClosed => ∃ m, packet_write_poll fuel s = Fatal m
  | BUnfinished => packet_write_poll fuel s = NoFuel
  end.
Proof.
  intros w now Hb Hw Ht. pose proof Hb as [Hm Htend _ _ _].
  unfold packet_write_poll. mstep. mstep. rsimpl. fold now. rewrite (proj2 (Z.ltb_ge _ _)) by lia.
  mstep. mstep. mstep. rsimpl. change (stmode (set_padded_junk 0 (g s))) with (stmode (g s)). rewrite Hm, Z.eqb_refl.
  rewrite <- M_bind_assoc. mstep. rsimpl.
  change (sent_tend (set_padded_junk 0 (g s))) with (sent_tend (g s)).
  rewrite (proj2 (Z.eqb_neq _ _) Htend), andb_false_r. rewrite <- M_bind_assoc. mstep. rewrite <- M_bind_assoc.
  set (s1 := s <| n_time := S (n_time s) |> <| g := set_padded_junk 0 (g s) |>).
  assert (Hb1 : bursting k w s1).
  { destruct Hb as [? ? ? ? (n & [(cc & d & []) ? ?] & ?)]. split; try done. exists n. split; [|done].
    split; [exists cc, d; by split|done|done]. }
  pose proof (write_burst_paced k fuel w s1 Hb1 Hw) as Hl.
  change (world s1) with (world s) in Hl. change (n_outq s1) with (n_outq s) in Hl. change (n_write s1) with (n_write s) in Hl.
  change (w2w (g s)) with w. fold s1. 
  destruct (paced _ _ _ _ _) as [q i calls| |].
  - destruct Hl as (s' & E & Hq & Hi & [Hw' Htau Htm Hnt [j Hg] [pad Hs]] & Hsh). mstep_by E. mstep. mstep.
    rsimpl. unfold set_w2w at 1. change (0 <? 0) with false. cbv iota. rsimpl.
    assert (Hm' : stmode (g s') = 1) by (by rewrite Hg). rewrite Hm'. change (1 =? -1) with false. cbv iota.
    mstep. rsimpl. unfold update_time. rewrite <- M_bind_assoc. mstep.
    unfold set_w2w at 1. change (0 <? 0) with false. cbv iota. rsimpl. rewrite Hm', Z.eqb_refl. mstep.
    eexists. split; [reflexivity|]. rsimpl. split_and!; [done|by rewrite Htau|exists j; by rewrite Hg|by exists pad|done|done|by rewrite Hnt|done|done].
  - destruct Hl as [m Hl]. exists m. unfold mbind at 1, M_bind at 1. by rewrite Hl.
  - unfold mbind at 1, M_bind at 1. by rewrite Hl.
Qed.

(** C3: In super-trace mode, before the end of the trace, the writes of
    [packet_write_poll] are a function of the number of bytes the trace asks
    for and of the answers of the TCP queue and of [write] alone: each call
    asks for the smaller of what is left and what brings the queue to 16384
    bytes, exactly [w2w] bytes are accepted in all, and the next write is
    [packet_tau] later.  Missing data is made up, and nothing of the output is
    lost or reordered.  The poll fails only if the connection does, and goes on
    exactly as long as the network withholds bytes. *)
Theorem supertrace_burst_shape k fuel s :
  let w := w2w (g s) in
  let now := u64 (e_time (world s) (n_time s)) in
  bursting k w s → 0 ≤ w → packet_time_to_write s ≤ now →
  match paced fuel (world s) (n_outq s) (n_write s) w with
  | Burst q i calls =>
      foldr (λ c a, c.2 + a) 0 calls = w ∧ Forall (λ c, 0 ≤ c.2 ≤ c.1 ∧ c.1 ≤ WRITE_LIMIT) calls ∧
      ∃ s', packet_write_poll fuel s = Ok (tt, s') ∧
        shape (wire s') = shape (wire s) ++ calls ∧ packet_time_to_write s' = u64 (now + packet_tau s) ∧
        w2w (g s') = 0 ∧ (∃ pad, stream s' = stream s ++ pad)
  | BClosed => ∃ m, packet_write_poll fuel s = Fatal m
  | BUnfinished => packet_write_poll fuel s = NoFuel
  end.
Proof.
  intros w now Hb Hw Ht. pose proof (write_poll_paced k fuel s Hb Hw Ht) as Hp. fold w now in Hp.
  destruct (paced _ _ _ _ _) as [q i calls| |] eqn:E; [|done..].
  destruct (paced_total _ _ _ _ _ _ _ _ (λ n, proj1 (bu_queue _ _ _ Hb n)) Hw E) as [H1 H2].
  destruct Hp as (s' & ? & ? & ? & [j Hg] & ? & _). split_and!; [done..|]. exists s'. by rewrite Hg.
Qed.

(** C1: Non-interference: two sessions that are at the same point of the same
    trace, over the same network, look the same on the wire, whatever data
    they have buffered, whatever their keys and random numbers: the same calls
    of [write] with the same lengths, and the same time for the next write. *)
Theorem supertrace_noninterference k1 k2 fuel s1 s2 :
  bursting k1 (w2w (g s1)) s1 → bursting k2 (w2w (g s2)) s2 → 0 ≤ w2w (g s1) →
  w2w (g s2) = w2w (g s1) → world s2 = world s1 → n_outq s2 = n_outq s1 → n_write s2 = n_write s1 →
  n_time s2 = n_time s1 → packet_tau s2 = packet_tau s1 →
  packet_time_to_write s1 ≤ u64 (e_time (world s1) (n_time s1)) →
  packet_time_to_write s2 ≤ u64 (e_time (world s1) (n_time s1)) →
  match packet_write_poll fuel s1, packet_write_poll fuel s2 with
  | Ok (_, s1'), Ok (_, s2') =>
      ∃ calls, shape (wire s1') = shape (wire s1) ++ calls ∧ shape (wire s2') = shape (wire s2) ++ calls ∧
        packet_time_to_write s1' = packet_time_to_write s2'
  | Fatal _, Fatal _ | NoFuel, NoFuel => True
  | _, _ => False
  end.
Proof.
  intros Hb1 Hb2 Hw Ew Eworld Eq Ei Et Etau Ht1 Ht2. rewrite Ew in Hb2.
  pose proof (write_poll_paced k1 fuel s1 Hb1 Hw Ht1) as P1.
  pose proof (write_poll_paced k2 fuel s2) as P2. cbv zeta in P1, P2. rewrite Ew, Eworld, Eq, Ei, Et, Etau in P2.
  specialize (P2 Hb2 Hw Ht2). destruct (paced _ _ _ _ _) as [q i calls| |].
  - destruct P1 as (t1 & -> & Hs1 & Ht1' & _), P2 as (t2 & -> & Hs2 & Ht2' & _). exists calls. by rewrite Ht1', Ht2'.
  - destruct P1 as [m1 ->], P2 as [m2 ->]. done.
  - by rewrite P1, P2.
Qed.

Lemma paced_live fuel : ∀ e q i w,
  (∀ n, 0 ≤ e_outq e n < WRITE_LIMIT) → (∀ n, ∃ room cont, e_write e n = Wrote room cont ∧ 0 < room) →
  w ≤ Z.of_nat fuel → ∃ q' i' calls, paced fuel e q i w = Burst q' i' calls.
Proof.
  induction fuel as [|fuel IH]; intros e q i w Hq Hr Hw; cbn [paced]; destruct (Z.ltb_spec 0 w); try lia;
    try by (eexists _, _, _).
  pose proof (Hq q) as Hqq. rewrite (proj2 (Z.leb_gt _ _)) by lia. destruct (Hr i) as (room & cont & -> & Hroom).
  rewrite (proj2 (Z.eqb_neq _ _)) by lia. rewrite andb_false_l.
  destruct (IH e (S q) (S i) (w - Z.max 0 (Z.min room (Z.min w (Z.max 0 (WRITE_LIMIT - e_outq e q)))))) as (q' & i' & c & ->);
    [done|done|lia|]. by eexists _, _, _.
Qed.

(** C37: While the TCP queue stays below its limit and every [write] takes at
    least one byte, a burst of [w] bytes ends within [w] rounds. *)
Theorem supertrace_burst_ends k s :
  let w := w2w (g s) in
  bursting k w s → 0 ≤ w → packet_time_to_write s ≤ u64 (e_time (world s) (n_time s)) →
  (∀ n, 0 ≤ e_outq (world s) n < WRITE_LIMIT) →
  (∀ n, ∃ room cont, e_write (world s) n = Wrote room cont ∧ 0 < room) →
  ∃ s', packet_write_poll (Z.to_nat w) s = Ok (tt, s') ∧ w2w (g s') = 0.
Proof.
  intros w Hb Hw Ht Hq Hr. pose proof (write_poll_paced k (Z.to_nat w) s Hb Hw Ht) as Hp. fold w in Hp.
  destruct (paced_live (Z.to_nat w) (world s) (n_outq s) (n_write s) w Hq Hr) as (q & i & calls & E); [lia|].
  rewrite E in Hp. destruct Hp as (s' & ? & _ & _ & [j Hg] & _). exists s'. by rewrite Hg.
Qed.

(** Outside super-trace mode the next write comes a random time later:
    the sending interval times a factor of 0 to 2 in steps of one hundredth,
    computed in single precision without any rounding error for every interval
    the program uses, so never before now and at most two intervals later. *)
Theorem update_time_random now tau s :
  stmode (g s) ≠ 1 → tau ∈ used_taus → 0 ≤ now < 2 ^ 63 →
  let f := u32 (e_rand (world s) (n_rand s)) mod 201 in
  ∃ s', update_time now tau s = Ok (now + tau * f / 100, s') ∧ now ≤ now + tau * f / 100 ≤ now + 2 * tau.
Proof.
  intros Hm Ht Hn f. assert (Hf : 0 ≤ f < 201) by (apply Z.mod_pos_bound; lia).
  assert (Htau : 0 < tau ≤ 81920).
  { unfold used_taus in Ht. rewrite !elem_of_cons, elem_of_nil in Ht. lia. }
  assert (Hb : 0 ≤ tau * f / 100 ≤ 2 * tau).
  { split; [apply Z.div_pos; nia|]. apply Z.div_le_upper_bound; nia. }
  unfold update_time. mstep. rewrite (proj2 (Z.eqb_neq _ _) Hm). mstep. fold f.
  change (u64_of_f32 _) with (f32_scale tau f). rewrite (f32_scale_exact tau f Ht Hf). mstep.
  eexists. split; [|lia]. rewrite u64_small by lia. done.
Qed.

(** ** Plain mode *)

(** What a write in plain mode asks for, when [len] bytes are in the output and
    [rem] bytes of padding are still owed for the page that was left. *)
Definition plain_write (rem len : Z) : Z :=
  if rem <=? 0 then (if 32 <? len then MINSIZE else len) else MINSIZE.

(** The length of the output after a complete write. *)
Definition plain_next (bs ml rem len : Z) : Z :=
  let aw := plain_write rem len in
  if aw <=? len then len - aw else len + fill_size bs ml (aw - len) - aw.

(** The padding still owed after it. *)
Definition plain_left (rem len : Z) : Z :=
  if 0 <? rem then Z.max 0 (rem - plain_write rem len) else rem.

Lemma plain_write_bounds rem len : 0 < len → 0 < plain_write rem len ≤ 128.
Proof. intros Hl. unfold plain_write, MINSIZE. repeat zcase; lia. Qed.

Lemma plain_next_bounds bs ml rem len :
  good_bs bs → 0 ≤ ml ≤ 64 → 0 < len → 0 ≤ plain_next bs ml rem len ≤ Z.max len 83.
Proof.
  intros Hbs Hml Hl. pose proof (plain_write_bounds rem len Hl). unfold plain_next.
  pose proof (fill_size_bounds bs ml (plain_write rem len - len) Hbs ltac:(lia)). zcase; lia.
Qed.

(** The output of a session in plain mode is far from full. *)
Definition PLAIN_ROOM : Z := 260.
Lemma ready_length k pk s :
  ready k PLAIN_ROOM pk s → Z.of_nat (length (contents (output (st s)))) + 2 * PLAIN_ROOM ≤ ROOM.
Proof. intros [(cc & d & Hs) _ _]. apply (sd_out _ _ _ _ _ Hs). Qed.

(** The book-keeping behind a write of [aw] bytes in plain mode. *)
Lemma after_write_plain s aw w0 :
  let rem := trans_padded_remaining (g s) in
  stmode (g s) = -1 →
  ∃ gl, (gl ← gets g;
         _ ← when (unpaced gl && (0 <? trans_padded_remaining gl)) (modG (decrease_trans_padded_remaining aw));
         gl ← gets g;
         mret (if (stmode gl =? 1) && (0 <? w0) then w0 - aw else w0)) s = Ok (w0, s <| g := gl |>) ∧
    stmode gl = -1 ∧ trans_padded_remaining gl = if 0 <? rem then Z.max 0 (rem - aw) else rem.
Proof.
  intros rem Hm. mstep. assert (unpaced (g s) = true) as -> by (unfold unpaced; by rewrite Hm).
  rewrite andb_true_l. fold rem. destruct (0 <? rem); cbn [when].
  - mstep. mstep. rsimpl. exists (decrease_trans_padded_remaining aw (g s)).
    assert (Hm' : stmode (decrease_trans_padded_remaining aw (g s)) = -1)
      by (unfold decrease_trans_padded_remaining; by destruct (_ <=? _)).
    rewrite Hm'. split_and!; [done|done|]. unfold decrease_trans_padded_remaining. fold rem.
    destruct (Z.leb_spec aw rem); simpl; lia.
  - mstep. mstep. exists (g s). rewrite Hm. split_and!; [by destruct s|done|done].
Qed.

Lemma one_write_plain k pk s w0 room cont :
  let len := Z.of_nat (length (contents (output (st s)))) in
  let rem := trans_padded_remaining (g s) in
  ready k PLAIN_ROOM pk s → 1 ≤ pk → stmode (g s) = -1 → 0 < len →
  e_write (world s) (n_write s) = Wrote room cont → MINSIZE ≤ room →
  ∃ s', packet_write_poll_one_write w0 s = Ok (w0, s') ∧
    Z.of_nat (length (contents (output (st s')))) = plain_next (bs_of k) (maclen_of k) rem len ∧
    ready k PLAIN_ROOM (pk - 1) s' ∧ stmode (g s') = -1 ∧ trans_padded_remaining (g s') = plain_left rem len ∧
    world s' = world s ∧ n_time s' = n_time s ∧ n_write s' = S (n_write s).
Proof.
  intros len rem Hr Hpk Hm Hl Ew Hroom. unfold MINSIZE in Hroom.
  pose proof (ready_length _ _ _ Hr) as Hlen. fold len in Hlen. unfold PLAIN_ROOM in *.
  unfold packet_write_poll_one_write, output_buffer_len. mstep.
  rewrite output_len_spec by eapply ready_wf, Hr. fold len. mstep. mstep. rsimpl.
  set (aw := plain_write rem len).
  assert (Haw : choose_write (g s) (i32 w0) len (i32 (e_outq (world s) (n_outq s))) = aw).
  { unfold choose_write, unpaced. rewrite Hm. change (-1 =? -1) with true. by rewrite orb_true_l. }
  rewrite Haw. pose proof (plain_write_bounds rem len Hl) as Ha. fold aw in Ha. rewrite (proj2 (Z.ltb_lt _ _)) by lia.
  set (s1 := s <| n_outq := S (n_outq s) |>).
  assert (Hr1 : ready k 260 pk s1) by (destruct Hr as [(cc & d & []) ? ?]; split; [exists cc, d; by split|done|done]).
  destruct (prepare_write_gen k 260 pk s1 len aw Hr1 eq_refl ltac:(lia) ltac:(lia)) as (m & x & j & l & E & Hr2 & Cx & Hlx).
  set (fill := if aw <=? len then 0 else _) in *.
  assert (Hwx : Z.of_nat (length (contents (output x))) = len + fill) by (rewrite Cx, length_app; change (output (st s1)) with (output (st s)); lia).
  pose proof (ready_maclen _ _ _ _ Hr) as Hml. pose proof (ready_bs _ _ _ _ Hr) as Hbs.
  assert (Hfill : aw ≤ len + fill ∧ 0 ≤ fill ∧ len + fill - aw = plain_next (bs_of k) (maclen_of k) rem len).
  { pose proof (fill_size_bounds (bs_of k) (maclen_of k) (aw - len) Hbs ltac:(lia)).
    unfold fill, plain_next. fold aw. destruct (Z.leb_spec aw len); lia. }
  mstep_by E. change (stmode (g s1)) with (stmode (g s)). rewrite Hm. cbn [negb orb Z.eqb].
  pose proof (ready_wf _ _ _ _ Hr2) as Wx.
  set (s2 := s1 <| n_rand := m |> <| st := x |> <| g := set_padded_junk j (g s1) |>) in *.
  change (output (st s2)) with (output x) in Wx.
  assert (Er := roaming_write_spec aw s2 Wx ltac:(change (output (st s2)) with (output x); lia)).
  change (world s2) with (world s) in Er. change (n_write s2) with (n_write s) in Er. rewrite Ew in Er.
  replace (Z.max 0 (Z.min room aw)) with aw in Er by lia. cbn [fst snd] in Er. mstep_by Er.
  rewrite (proj2 (Z.eqb_neq aw 0)) by lia. rewrite andb_false_l.
  pose proof (buffer_consume_spec (output x) aw Wx ltac:(lia)) as Hs.
  rewrite (proj2 (Z.leb_le _ _)) in Hs by lia. destruct Hs as (o & Eo & Wo & _ & _ & Co).
  mbuf Eo. set (s3 := s2 <| n_write := _ |> <| wire := _ |> <| st := _ |>).
  destruct (after_write_plain s3 aw w0 Hm) as (gl & Et & Hmg & Hremg). rewrite Et.
  pose proof (plain_next_bounds (bs_of k) (maclen_of k) rem len Hbs Hml Hl) as Hnb.
  assert (Hlo : Z.of_nat (length (contents o)) = plain_next (bs_of k) (maclen_of k) rem len) by (rewrite Co, length_drop; lia).
  eexists. split; [reflexivity|]. split_and!; [exact Hlo| |exact Hmg|exact Hremg|done|done|done].
  apply (ready_weaken k 260 _ (if aw <=? len then pk else pk - 1)); [|lia|zcase; lia].
  destruct Hr2 as [(cc & d & []) ? ?]. split; [exists cc, d; split; try done|done|done].
  split; [done|]. unfold s3. rsimpl. unfold ROOM in *. unfold_consts. lia.
Qed.

(** Plain mode with a network that takes every write: [pk] more packets can be
    sent under the keys, and the clock is in range up to its reading [last]. *)
Record plain (k : option Newkeys) (pk last : Z) (s : ssh) : Prop := {
  pl_ready : ready k PLAIN_ROOM pk s;
  pl_mode : stmode (g s) = -1;
  pl_clock : ∀ i, (n_time s ≤ i)%nat → Z.of_nat i ≤ last → 0 ≤ e_time (world s) i < 2 ^ 62;
  pl_net : ∀ i, ∃ room cont, e_write (world s) i = Wrote room cont ∧ MINSIZE ≤ room
}.

Abbreviation clock s := (e_time (world s) (n_time s)).
Abbreviation out_len s := (Z.of_nat (length (contents (output (st s))))).
Abbreviation owed s := (trans_padded_remaining (g s)).

(** The longest pause between two writes: two intervals. *)
Definition PAUSE : Z := 2 * (10 * INITIAL_TAU).

(** A poll before the time of the next write does nothing. *)
Lemma write_poll_early k pk last s fuel :
  plain k pk last s → Z.of_nat (n_time s) ≤ last → clock s < packet_time_to_write s →
  packet_write_poll fuel s = Ok (tt, s <| n_time := S (n_time s) |>).
Proof.
  intros Hp Hlast Ht. pose proof (pl_clock _ _ _ _ Hp (n_time s) ltac:(lia) Hlast).
  unfold packet_write_poll. mstep. mstep. rsimpl. rewrite u64_small by lia. by rewrite (proj2 (Z.ltb_lt _ _)) by lia.
Qed.

Lemma plain_early k pk last s : plain k pk last s → plain k pk last (s <| n_time := S (n_time s) |>).
Proof.
  intros [Hr Hm Hc Hn]. split; rsimpl; [|done| |done].
  - destruct Hr as [(cc & d & []) ? ?]; split; [exists cc, d; by split|done|done].
  - intros i Hi. apply Hc. lia.
Qed.

Lemma write_poll_plain k pk last s fuel :
  plain k pk last s → 1 ≤ pk → 0 < out_len s → Z.of_nat (n_time s) ≤ last → packet_time_to_write s ≤ clock s →
  ∃ s', packet_write_poll fuel s = Ok (tt, s') ∧ plain k (pk - 1) last s' ∧
    n_time s' = S (n_time s) ∧ n_write s' = S (n_write s) ∧ world s' = world s ∧
    out_len s' = plain_next (bs_of k) (maclen_of k) (owed s) (out_len s) ∧
    owed s' = plain_left (owed s) (out_len s) ∧ packet_time_to_write s' ≤ clock s + PAUSE.
Proof.
  intros [Hr Hm Hclk Hnet] Hpk Hl Hlast Htime. pose proof (Hclk (n_time s) ltac:(lia) Hlast) as Ht0.
  unfold packet_write_poll. mstep. mstep. rsimpl. rewrite u64_small by lia. rewrite (proj2 (Z.ltb_ge _ _)) by lia.
  mstep. mstep. mstep. rsimpl. change (stmode (set_padded_junk 0 (g s))) with (stmode (g s)). rewrite Hm.
  change (-1 =? 1) with false. cbv iota. rewrite <- M_bind_assoc.
  set (s1 := s <| n_time := S (n_time s) |> <| g := set_padded_junk 0 (g s) |>).
  destruct (Hnet (n_write s)) as (room & cont & Ew & Hroom).
  destruct (one_write_plain k pk s1 (w2w (g s)) room cont) as (s2 & E & Hlen & Hr2 & Hm2 & Hrem2 & Hw2 & Hn2 & Hi2); try done.
  { destruct Hr as [(cc & d & []) ? ?]; split; [exists cc, d; by split|done|done]. }
  mstep_by E. mstep. mstep. rewrite Hm2. change (-1 =? -1) with true. cbv iota. mstep.
  unfold update_time. rewrite <- M_bind_assoc. mstep. rewrite Hm2. change (-1 =? 1) with false. cbv iota.
  rewrite <- M_bind_assoc. mstep. set (f := u32 _ mod 201).
  assert (Hf : 0 ≤ f < 201) by (apply Z.mod_pos_bound; lia).
  change (u64_of_f32 _) with (f32_scale (10 * INITIAL_TAU) f).
  rewrite f32_scale_exact; [|unfold used_taus; rewrite !elem_of_cons; do 4 right; by left|done]. unfold PAUSE, INITIAL_TAU in *.
  assert (Hb : 0 ≤ 10 * 8192 * f / 100 ≤ 2 * (10 * 8192)).
  { split; [apply Z.div_pos; lia|]. apply Z.div_le_upper_bound; lia. }
  rewrite <- M_bind_assoc. mstep. mstep. eexists. split; [reflexivity|]. rsimpl.
  split_and!; [|by rewrite Hn2|done|done|exact Hlen|exact Hrem2|rewrite u64_small by lia; lia].
  split; rsimpl; [|done| |by rewrite Hw2].
  - destruct Hr2 as [(cc & d & []) ? ?]; split; [exists cc, d; by split|done|done].
  - rewrite Hw2, Hn2. change (world s1) with (world s). change (n_time s1) with (S (n_time s)).
    intros i Hi Hil. apply Hclk; lia.
Qed.

Lemma have_data s : wf (output (st s)) → packet_have_data_to_write s = negb (Z.of_nat (length (contents (output (st s)))) =? 0).
Proof. intros Hw. unfold packet_have_data_to_write. by rewrite buffer_len_contents. Qed.

(** Writes until the output is empty, when dummy packets are short: one for
    every 128 bytes of the output, one for every 128 bytes of padding that are
    owed, and two more. *)
Definition drain_rounds (rem len : Z) : Z :=
  if len <=? 0 then 0
  else if rem <=? 0 then (if len <=? 32 then 1 else 2 + len / 128)
  else 2 + len / 128 + (rem + 127) / 128.

Lemma drain_rounds_nonneg rem len : 0 ≤ drain_rounds rem len ∧ (0 < len → 1 ≤ drain_rounds rem len).
Proof.
  unfold drain_rounds. destruct (Z.leb_spec len 0); [lia|]. assert (0 ≤ len / 128) by (apply Z.div_pos; lia).
  destruct (Z.leb_spec rem 0); [repeat zcase; lia|]. assert (0 ≤ (rem + 127) / 128) by (apply Z.div_pos; lia). lia.
Qed.

(** Whatever padding is owed: *)
Lemma drain_rounds_le rem len : 0 < len → drain_rounds rem len ≤ 2 + len / 128 + (Z.max 0 rem + 127) / 128.
Proof.
  intros Hl. unfold drain_rounds. assert (0 ≤ len / 128) by (apply Z.div_pos; lia).
  assert (0 ≤ (Z.max 0 rem + 127) / 128) by (apply Z.div_pos; lia).
  destruct (Z.leb_spec len 0), (Z.leb_spec rem 0); try lia; [repeat zcase; lia|]. by rewrite Z.max_r by lia.
Qed.

Lemma drain_rounds_next bs ml rem len :
  good_bs bs → 0 ≤ ml ≤ 13 → 0 < len →
  drain_rounds (plain_left rem len) (plain_next bs ml rem len) < drain_rounds rem len.
Proof.
  intros Hbs Hml Hl. assert (0 ≤ len / 128) by (apply Z.div_pos; lia).
  pose proof (fill_size_bounds bs ml (plain_write rem len - len) Hbs ltac:(lia)) as Hf.
  assert (Hsub : (len - 128) / 128 = len / 128 - 1) by (replace (len - 128) with (len + -1 * 128) by lia; by rewrite Z_div_plus_full).
  unfold plain_next, plain_left. revert Hf. unfold plain_write, MINSIZE.
  destruct (Z.leb_spec rem 0) as [Hr|Hr].
  - rewrite (proj2 (Z.ltb_ge 0 rem)) by lia. unfold drain_rounds. rewrite (proj2 (Z.leb_le rem 0)) by lia.
    destruct (Z.ltb_spec 32 len) as [H32|H32]; intros Hf; [|rewrite (proj2 (Z.leb_le len len)) by lia; repeat zcase; lia].
    destruct (Z.leb_spec 128 len) as [Hge|Hlt]; [repeat zcase; lia|]. specialize (Hf ltac:(lia)). repeat zcase; lia.
  - rewrite (proj2 (Z.ltb_lt 0 rem)) by lia. intros Hf. unfold drain_rounds.
    assert (Hrem : (rem + 127) / 128 = (rem - 128 + 127) / 128 + 1) by (replace (rem + 127) with (rem - 128 + 127 + 1 * 128) by lia; by rewrite Z_div_plus_full).
    assert (1 ≤ (rem + 127) / 128) by (apply Z.div_le_lower_bound; lia).
    assert (Hmax : 0 < Z.max 0 (rem - 128) → Z.max 0 (rem - 128) = rem - 128) by lia.
    assert (Hd : ∀ x, 0 ≤ x ≤ 32 → x / 128 = 0) by (intros; apply Z.div_small; lia).
    destruct (Z.leb_spec 128 len) as [Hge|Hlt].
    + destruct (Z.leb_spec len 0), (Z.leb_spec (Z.max 0 (rem - 128)) 0); try lia; [repeat zcase; lia|].
      rewrite (Hmax ltac:(lia)). repeat zcase; lia.
    + rewrite (Z.div_small len 128) in * by lia. specialize (Hf ltac:(lia)).
      destruct (Z.leb_spec len 0), (Z.leb_spec (Z.max 0 (rem - 128)) 0); try lia; [repeat zcase; lia|].
      rewrite (Hmax ltac:(lia)), (Hd (len + fill_size bs ml (128 - len) - 128)) by lia. repeat zcase; lia.
Qed.

(** The clock advances with every reading. *)
Definition ticking (last : Z) (s : ssh) : Prop :=
  ∀ i, (n_time s ≤ i)%nat → Z.of_nat i < last → e_time (world s) i < e_time (world s) (S i).

(** Polls until the output is empty: every write waits at most [PAUSE] ticks,
    the first one until it is due. *)
Definition drain_polls (s : ssh) : Z :=
  drain_rounds (owed s) (out_len s) * PAUSE + Z.max 0 (packet_time_to_write s - clock s).

Lemma early_polls last s :
  ticking last s → Z.of_nat (n_time s) < last → clock s < packet_time_to_write s →
  drain_polls (s <| n_time := S (n_time s) |>) < drain_polls s.
Proof.
  intros Ht Hl Hearly. pose proof (Ht (n_time s) ltac:(lia) Hl). unfold drain_polls. rsimpl. lia.
Qed.

Lemma write_wait_loop_drains k fuel last N : ∀ s,
  let R := drain_rounds (owed s) (out_len s) in
  plain k R last s → ticking last s → maclen_of k ≤ 13 → drain_polls s ≤ Z.of_nat N ∨ out_len s = 0 →
  Z.of_nat (n_time s) + Z.of_nat N < last →
  ∃ s', write_wait_loop (replicate N true) fuel s = Ok (tt, s') ∧ contents (output (st s')) = [] ∧
    Z.of_nat (n_write s') ≤ Z.of_nat (n_write s) + R.
Proof.
  induction N as [|N IH]; intros s R Hp Htk Hml Hd Hlast; cbn [replicate write_wait_loop]; mstep;
    rewrite (have_data _ (ready_wf _ _ _ _ (pl_ready _ _ _ _ Hp)));
    pose proof (drain_rounds_nonneg (owed s) (out_len s)) as [Hr0 Hr1];
    destruct (Z.eqb_spec (out_len s) 0) as [Hl|Hl]; cbn [negb].
  1, 3: exists s; split_and!; [done|apply nil_length_inv; lia|lia].
  - exfalso. destruct Hd as [Hd|Hd]; [|lia]. specialize (Hr1 ltac:(lia)). unfold drain_polls, PAUSE, INITIAL_TAU in Hd. lia.
  - destruct Hd as [Hd|Hd]; [|lia]. specialize (Hr1 ltac:(lia)).
    destruct (Z.lt_ge_cases (clock s) (packet_time_to_write s)) as [Hearly|Hdue].
    + mstep_by (write_poll_early k _ last s fuel Hp ltac:(lia) Hearly).
      pose proof (early_polls last s Htk ltac:(lia) Hearly).
      destruct (IH (s <| n_time := S (n_time s) |>)) as (s' & E & Ho & Hw);
        [by apply plain_early|intros i Hi; apply Htk; rsimpl_in Hi; lia|done|left; lia|rsimpl; lia|].
      exists s'. done.
    + destruct (write_poll_plain k _ last s fuel Hp) as (s1 & E & Hp1 & Ht1 & Hw1 & Hwd & Hlen1 & Hrem1 & Htw); [lia|lia|lia|lia|].
      mstep_by E. pose proof (ready_maclen _ _ _ _ (pl_ready _ _ _ _ Hp)) as Hml0.
      pose proof (drain_rounds_next (bs_of k) (maclen_of k) (owed s) (out_len s) (ready_bs _ _ _ _ (pl_ready _ _ _ _ Hp)) ltac:(lia) ltac:(lia)) as Hlt.
      rewrite <- Hlen1, <- Hrem1 in Hlt. fold R in Hlt.
      destruct (IH s1) as (s' & E' & Ho & Hw).
      * destruct Hp1 as [Hrd ? ? ?]. split; try done. eapply ready_weaken; [exact Hrd|done|]. fold R. lia.
      * intros i Hi. rewrite Hwd. apply Htk. lia.
      * done.
      * destruct (Z.eq_dec (out_len s1) 0) as [|Hne]; [by right|left].
        assert (Hclk : clock s < clock s1) by (rewrite Ht1, Hwd; apply Htk; lia).
        unfold drain_polls in Hd |- *. fold R in Hd. assert (packet_time_to_write s1 - clock s1 < PAUSE) by lia.
        unfold PAUSE, INITIAL_TAU in *. lia.
      * lia.
      * exists s'. split_and!; [done|done|]. lia.
Qed.

(** With data in the output, the first poll is a round of the loop. *)
Lemma write_wait_unfold k pk last N fuel s :
  plain k pk last s → 0 < out_len s →
  packet_write_wait (replicate N true) fuel s = write_wait_loop (replicate (S N) true) fuel s.
Proof.
  intros Hp Hl. cbn [replicate write_wait_loop]. mstep. rewrite (have_data _ (ready_wf _ _ _ _ (pl_ready _ _ _ _ Hp))).
  by rewrite (proj2 (Z.eqb_neq _ _)) by lia.
Qed.

(** C38: In plain mode [packet_write_wait] writes the whole output.  With a MAC
    of at most 13 bytes (or none), no compression, a network that takes every
    write completely and a clock that advances with every reading, it returns
    with an empty output after at most one write for every 128 bytes of
    output, one for every 128 bytes of padding that are still owed for the
    page that was left ([trans_padded_remaining]), and two more.  Polls that
    come before the time of the next write do nothing; [drain_polls] of them
    are enough, at most 163,840 (two of the longest intervals, in
    microseconds) for each write. *)
Theorem write_wait_drains k fuel last N s :
  let len := Z.of_nat (length (contents (output (st s)))) in
  let rem := trans_padded_remaining (g s) in
  let R := drain_rounds rem len in
  plain k R last s → ticking last s → maclen_of k ≤ 13 → 0 < len →
  drain_polls s ≤ Z.of_nat N + 1 → Z.of_nat (n_time s) + Z.of_nat N + 1 < last →
  R ≤ 2 + len / 128 + (Z.max 0 rem + 127) / 128 ∧
  ∃ s', packet_write_wait (replicate N true) fuel s = Ok (tt, s') ∧ contents (output (st s')) = [] ∧
    Z.of_nat (n_write s') ≤ Z.of_nat (n_write s) + R.
Proof.
  intros len rem R Hp Htk Hml Hl Hd Hlast. split; [by apply drain_rounds_le|].
  rewrite (write_wait_unfold k R last) by done.
  apply (write_wait_loop_drains k fuel last (S N) s Hp Htk Hml); [left|]; lia.
Qed.

Lemma plain_next_stuck bs ml rem len :
  good_bs bs → 29 ≤ ml ≤ 64 → 32 < len < 112 → 32 < plain_next bs ml rem len < 112.
Proof.
  intros Hbs Hml Hl. assert (Haw : plain_write rem len = 128) by (unfold plain_write, MINSIZE; repeat zcase; lia).
  unfold plain_next. rewrite Haw. destruct (Z.leb_spec 128 len); [lia|].
  unfold fill_size, dummy_size. rewrite (proj2 (Z.ltb_lt _ _)) by lia.
  pose proof (base_padlen_spec bs (10 + (128 - len - 10)) Hbs ltac:(lia)) as [Hp _]. destruct Hbs; lia.
Qed.

(** [N] polls. *)
Fixpoint polls (N fuel : nat) : M ssh unit :=
  match N with
  | O => skip
  | S N => _ ← packet_write_poll fuel; polls N fuel
  end.

Lemma write_wait_loop_stuck k fuel last N : ∀ s,
  plain k (Z.of_nat N) last s → 29 ≤ maclen_of k → 32 < out_len s < 112 → Z.of_nat (n_time s) + Z.of_nat N ≤ last →
  write_wait_loop (replicate N true) fuel s = NoFuel ∧
  ∃ s', polls N fuel s = Ok (tt, s') ∧ 32 < out_len s' < 112.
Proof.
  induction N as [|N IH]; intros s Hp Hml Hl Hlast; cbn [replicate write_wait_loop polls]; mstep;
    rewrite (have_data _ (ready_wf _ _ _ _ (pl_ready _ _ _ _ Hp)));
    rewrite (proj2 (Z.eqb_neq _ _)) by lia; cbn [negb]; [split; [done|by exists s]|].
  destruct (Z.lt_ge_cases (clock s) (packet_time_to_write s)) as [Hearly|Hdue].
  - pose proof (write_poll_early k _ last s fuel Hp ltac:(lia) Hearly) as E. mstep_by E. mstep_by E.
    apply IH; [|done|done|rsimpl; lia]. apply plain_early in Hp as [Hr ? ? ?]. split; try done. eapply ready_weaken; [exact Hr|done|lia].
  - destruct (write_poll_plain k _ last s fuel Hp) as (s1 & E & Hp1 & Ht1 & _ & _ & Hlen1 & _); [lia|lia|lia|lia|].
    mstep_by E. mstep_by E. pose proof (ready_maclen _ _ _ _ (pl_ready _ _ _ _ Hp)).
    apply IH; [|done| |lia].
    + destruct Hp1 as [Hr ? ? ?]. split; try done. eapply ready_weaken; [exact Hr|done|lia].
    + rewrite Hlen1. apply plain_next_stuck; [apply (ready_bs _ _ _ _ (pl_ready _ _ _ _ Hp))|lia|lia].
Qed.

(** C39: With a MAC of 29 bytes or more ([hmac-sha2-256] and [hmac-sha2-512]),
    no compression and a network that takes every write completely,
    [packet_write_wait] in plain mode does not return once between 33 and 111
    bytes are in the output: every write of 128 bytes needs a dummy packet
    whose MAC alone leaves more than 32 bytes behind.  After any number [N] of
    further polls, whatever the clock shows and whatever padding is owed, there
    are again between 33 and 111 bytes, and the loop is still waiting; the only
    bound on [N] is that the keys allow [N + 1] more packets ([plain]). *)
Theorem write_wait_never_drains k fuel last N s :
  let len := Z.of_nat (length (contents (output (st s)))) in
  plain k (Z.of_nat N + 1) last s → 29 ≤ maclen_of k → 32 < len < 112 → Z.of_nat (n_time s) + Z.of_nat N + 1 ≤ last →
  packet_write_wait (replicate N true) fuel s = NoFuel ∧
  ∃ s', polls (S N) fuel s = Ok (tt, s') ∧ 32 < Z.of_nat (length (contents (output (st s')))) < 112.
Proof.
  intros len Hp Hml Hl Hlast. rewrite (write_wait_unfold k (Z.of_nat N + 1) last) by (done || lia).
  apply (write_wait_loop_stuck k fuel last (S N) s); [|done|done|lia].
  by replace (Z.of_nat (S N)) with (Z.of_nat N + 1) by lia.
Qed.

End Pacing.

(** ** Sessions at work *)
Module PacingDemo.
Import Toy Demo.

(** An output that holds [l]. *)
Definition holding (l : list Z) : Buffer :=
  mkBuffer (l ++ replicate (4096 - length l) 0) 4096 0 (Z.of_nat (length l)).

Lemma holding_spec l n :
  (length l < 4096)%nat → 2 * n + 40000 ≤ ROOM → roomy (holding l) n ∧ contents (holding l) = l.
Proof.
  intros Hl Hn. assert (Hc : contents (holding l) = l).
  { unfold contents, buffer_ptr, holding. cbn [offset end_ buf]. simpl drop. rewrite drop_0.
    replace (Z.to_nat (Z.of_nat (length l) - 0)) with (length l) by lia. apply take_app_length. }
  split; [|done]. split; [|rewrite Hc; lia].
  split; simpl; [lia|lia|unfold BUFFER_MAX_LEN; lia|]. rewrite length_app, length_replicate. lia.
Qed.

(** A session of the demonstration with other keys, mode, output and network. *)
Definition busy (k : option Newkeys) (cc : CipherContext) (out : list Z) (gl : globals) (e : env) : ssh :=
  (demo 0) <| st := (demo_session 0) <| newkeys_out := k |> <| send_context := Some cc |> <| output := holding out |> |>
    <| g := gl |> <| world := e |> <| packet_tau := INITIAL_TAU |>.

Lemma busy_ready k cc out gl e n :
  keys_good k cc → (length out < 4096)%nat → 2 * n + 40000 ≤ ROOM → n < 2 ^ 32 - 1 →
  ready k n n (busy k cc out gl e).
Proof.
  intros Hg Hl Hn Hp. split; [|apply buffer_init_wf|simpl; lia].
  exists cc, (cc_evp cc). split; try done. by apply holding_spec.
Qed.

Definition burst_globals : globals := globals_init <| stmode := 1 |> <| w2w := 100 |>.
Definition burst_env : env := mkEnv (λ n, Z.of_nat n) (λ n, 7 * Z.of_nat n) (λ _, 1000) (λ _, Wrote 60 false) None None.

Definition none_cc : CipherContext := mkCC true 0 (mkCipher "none" SSH_CIPHER_NONE 8 0 0 0 EVP_enc_null).
Lemma none_good : keys_good None none_cc.
Proof. by split; [left|..]. Qed.

Lemma burst_bursting k cc out : keys_good k cc → (length out < 4096)%nat → bursting k 100 (busy k cc out burst_globals burst_env).
Proof. intros Hg Hl. split; try done. exists 1000. split; [by apply busy_ready|]. cbv zeta. lia. Qed.

Lemma supertrace_burst_shape_witness :
  ∃ s', packet_write_poll 5 (busy (Some demo_keys) demo_cc [1; 2; 3] burst_globals burst_env) = Ok (tt, s') ∧
    shape (wire s') = [(100, 60); (40, 40)].
Proof.
  pose proof (supertrace_burst_shape (Some demo_keys) 5 (busy (Some demo_keys) demo_cc [1; 2; 3] burst_globals burst_env)
    (burst_bursting _ _ [1; 2; 3] demo_good ltac:(simpl; lia)) ltac:(discriminate) ltac:(discriminate)) as Hp.
  change (match paced _ _ _ _ _ with Burst q i calls => _ | BClosed => _ | BUnfinished => _ end) with
    (100 = 100 ∧ Forall (λ c : Z * Z, 0 ≤ c.2 ≤ c.1 ∧ c.1 ≤ WRITE_LIMIT) [(100, 60); (40, 40)] ∧
     ∃ s', packet_write_poll 5 (busy (Some demo_keys) demo_cc [1; 2; 3] burst_globals burst_env) = Ok (tt, s') ∧
      shape (wire s') = [] ++ [(100, 60); (40, 40)] ∧ packet_time_to_write s' = 8192 ∧ w2w (g s') = 0 ∧
      ∃ pad, stream s' = stream (busy (Some demo_keys) demo_cc [1; 2; 3] burst_globals burst_env) ++ pad) in Hp.
  destruct Hp as (_ & _ & s' & E & Hs & _). exists s'. split; [exact E|exact Hs].
Defined.

(** Encrypted data on one side, nothing to send and no encryption on the other. *)
Lemma supertrace_noninterference_witness :
  match packet_write_poll 5 (busy (Some demo_keys) demo_cc [1; 2; 3] burst_globals burst_env),
        packet_write_poll 5 (busy None none_cc [] burst_globals burst_env) with
  | Ok (_, s1'), Ok (_, s2') => ∃ calls, shape (wire s1') = calls ∧ shape (wire s2') = calls ∧
      packet_time_to_write s1' = packet_time_to_write s2'
  | Fatal _, Fatal _ | NoFuel, NoFuel => True
  | _, _ => False
  end.
Proof.
  apply (supertrace_noninterference (Some demo_keys) None 5 (busy (Some demo_keys) demo_cc [1; 2; 3] burst_globals burst_env)
    (busy None none_cc [] burst_globals burst_env)); try reflexivity; try discriminate.
  - apply burst_bursting; [apply demo_good|simpl; lia].
  - apply burst_bursting; [apply none_good|simpl; lia].
Defined.

Lemma supertrace_burst_ends_witness :
  ∃ s', packet_write_poll 100 (busy (Some demo_keys) demo_cc [1; 2; 3] burst_globals burst_env) = Ok (tt, s') ∧ w2w (g s') = 0.
Proof.
  apply (supertrace_burst_ends (Some demo_keys) (busy (Some demo_keys) demo_cc [1; 2; 3] burst_globals burst_env)).
  - apply burst_bursting; [apply demo_good|simpl; lia].
  - discriminate.
  - discriminate.
  - intros n. simpl. unfold WRITE_LIMIT. lia.
  - intros n. exists 60, false. split; [reflexivity|lia].
Defined.

Lemma update_time_random_witness :
  ∃ s', update_time 1000 8192 ((demo 0) <| n_rand := 1%nat |>) = Ok (1000 + 8192 * 84 / 100, s') ∧ 1000 ≤ 1000 + 8192 * 84 / 100 ≤ 1000 + 2 * 8192.
Proof.
  assert (Hf : u32 (e_rand (world ((demo 0) <| n_rand := 1%nat |>)) (n_rand ((demo 0) <| n_rand := 1%nat |>))) mod 201 = 84)
    by (vm_compute; reflexivity).
  rewrite <- Hf. apply (update_time_random 1000 8192 ((demo 0) <| n_rand := 1%nat |>)); [discriminate| |lia].
  right. left.
Defined.

Definition plain_env : env := mkEnv (λ n, 200000 * Z.of_nat n) (λ n, 7 * Z.of_nat n) (λ _, 0) (λ _, Wrote 4096 false) None None.

Lemma busy_plain k cc out gl pk last :
  keys_good k cc → (length out < 4096)%nat → stmode gl = -1 → 0 ≤ pk < 2 ^ 22 → last < 2 ^ 30 →
  plain k pk last (busy k cc out gl plain_env).
Proof.
  intros Hg Hl Hm Hp Hlast.
  assert (Hr : ready k (2 ^ 22) (2 ^ 22) (busy k cc out gl plain_env)) by (by apply busy_ready).
  split; [by eapply ready_weaken; [exact Hr|discriminate|lia]|done| |].
  - intros i Hi Hil. cbn [world plain_env e_time busy]. simpl e_time. lia.
  - intros i. exists 4096, false. split; [reflexivity|unfold MINSIZE; lia].
Qed.

(** 140 bytes to send, and 300 bytes of padding owed. *)
Definition leaving_globals : globals := globals_init <| trans_padded_remaining := 300 |>.

Lemma write_wait_drains_witness :
  drain_rounds 300 140 = 6 ∧
  ∃ s', packet_write_wait (replicate (Z.to_nat 1000000) true) 1 (busy None none_cc (replicate 140 7) leaving_globals plain_env) = Ok (tt, s') ∧
    contents (output (st s')) = [] ∧ Z.of_nat (n_write s') ≤ 6.
Proof.
  split; [reflexivity|].
  destruct (write_wait_drains None 1 2000000 (Z.to_nat 1000000) (busy None none_cc (replicate 140 7) leaving_globals plain_env))
    as (_ & s' & E & Ho & Hw).
  - apply busy_plain; [apply none_good|simpl; lia|reflexivity|vm_compute; split; congruence|lia].
  - intros i Hi Hl. cbn [world plain_env e_time busy]. simpl e_time. lia.
  - vm_compute. discriminate.
  - vm_compute. reflexivity.
  - rewrite Z2Nat.id by lia. vm_compute. discriminate.
  - rewrite Z2Nat.id by lia. vm_compute. reflexivity.
  - exists s'. split; [exact E|]. split; [exact Ho|exact Hw].
Defined.

(** The session of the demonstration with [hmac-sha2-256]. *)
Definition sha2_keys : Newkeys :=
  mkNewkeys (nk_enc demo_keys)
    (mkMac "hmac-sha2-256" 1 32 (Some [1; 2; 3]) 32 SSH_EVP (Some EVP_sha256) (Some (EVP_sha256, [1; 2; 3])) None)
    (mkComp 0 0).
Lemma sha2_good : keys_good (Some sha2_keys) demo_cc.
Proof.
  split; [by right|done|done|]. intros _. split; [split; discriminate|]. left. split; [done|].
  eexists _, _. split; [reflexivity|discriminate].
Qed.

Lemma write_wait_never_drains_witness :
  packet_write_wait (replicate 1000 true) 1 (busy (Some sha2_keys) demo_cc (replicate 48 7) globals_init plain_env) = NoFuel ∧
  ∃ s', polls 1001 1 (busy (Some sha2_keys) demo_cc (replicate 48 7) globals_init plain_env) = Ok (tt, s') ∧
    32 < Z.of_nat (length (contents (output (st s')))) < 112.
Proof.
  apply (write_wait_never_drains (Some sha2_keys) 1 2000 1000
    (busy (Some sha2_keys) demo_cc (replicate 48 7) globals_init plain_env)).
  - apply busy_plain; [apply sha2_good|simpl; lia|reflexivity|lia|lia].
  - vm_compute. discriminate.
  - vm_compute. split; reflexivity.
  - vm_compute. discriminate.
Defined.

End PacingDemo.
