(* ===== verification/Rekey.v ===== *)
(** * Changing keys without losing messages

    While keys are exchanged [packet_send2] holds back all messages that are
    not part of the transport protocol; [SSH2_MSG_NEWKEYS] installs the new
    keys and releases them. *)

From S2P Require Import Prelude ByteOrder Buffer Crc32 Deattack Stdio SuperTrace HashMap Csbuflo.
From S2P Require Import CipherMac Packet PacketRead PacketProofs PacketStream.

Section Rekey.
Context `{CryptoLaws}.

(** A message in the queue. *)
Definition queued (m : message) (p : Z * Buffer) : Prop :=
  p.1 = m.1 ∧ contents p.2 = replicate 5 0 ++ m.1 :: m.2 ∧ roomy p.2 20.

(** Messages that wait for the end of a key exchange. *)
Record waits (srv : Z) (m : message) : Prop := {
  wa_type : is_u8 m.1 ∧ is_transport m.1 = false;
  wa_auth : ~ (m.1 = SSH2_MSG_USERAUTH_SUCCESS ∧ srv ≠ 0);
  wa_bytes : bytes m.2;
  wa_len : Z.of_nat (length m.2) + 262 ≤ PACKET_MAX_SIZE
}.

Lemma waits_types srv m : waits srv m → m.1 ≠ SSH2_MSG_NEWKEYS ∧ m.1 ≠ SSH2_MSG_KEXINIT.
Proof. intros [[_ Ht] _ _ _]. split; intros E; rewrite E in Ht; discriminate. Qed.

(** The parts of a session that do not change while messages are held back. *)
Lemma send_msg_waits s m :
  compat20 s = true → wf (outgoing_packet (st s)) → rekeying (st s) ≠ 0 → waits (server_side (st s)) m →
  ∃ p, send_msg m s = Ok (tt, s <| st := (st s) <| outgoing := outgoing (st s) ++ [p] |>
                                       <| outgoing_packet := buffer_init |> |>) ∧ queued m p.
Proof.
  destruct m as [type payload]. intros Hc Hh Hrk [[Hty Htr] _ _ Hlen]. simpl in *.
  destruct (build_msg_spec s type payload Hc Hh Hlen Hty) as (b & s1 & E & -> & Cb & Rb).
  apply (roomy_weaken _ _ 20) in Rb; [|unfold PACKET_ROOM, PACKET_MAX_SIZE in *; lia].
  exists (type, b). split; [|done].
  unfold send_msg. rewrite M_bind_assoc. cbn [fst snd]. mstep_by E. unfold packet_send. mstep.
  rsimpl. rewrite Hc. cbv iota. unfold packet_send2. mstep.
  assert (Hpeek : peek b 5 = Ok type) by (apply peek_contents; [apply Rb|done|]; by rewrite Cb).
  mlift Hpeek. mstep. rsimpl. rewrite (proj2 (Z.eqb_neq _ _) Hrk), Htr. done.
Qed.

Lemma send_all_waits ms : ∀ s,
  compat20 s = true → wf (outgoing_packet (st s)) → rekeying (st s) ≠ 0 →
  Forall (waits (server_side (st s))) ms →
  ∃ q ob, send_all ms s = Ok (tt, s <| st := (st s) <| outgoing := outgoing (st s) ++ q |> <| outgoing_packet := ob |> |>) ∧
    Forall2 queued ms q ∧ wf ob.
Proof.
  induction ms as [|m ms IH]; intros s Hc Hh Hrk Hw.
  { exists [], (outgoing_packet (st s)). rewrite app_nil_r. split_and!; [by destruct s as [[]]|constructor|done]. }
  apply Forall_cons in Hw as [Hm Hms]. destruct (send_msg_waits s m Hc Hh Hrk Hm) as (p & E & Hp).
  set (s1 := s <| st := _ |>) in *.
  destruct (IH s1) as (q & ob & E' & Hq & Hob); [done|apply buffer_init_wf|done|done|].
  exists (p :: q), ob. split_and!; [|by constructor|done]. cbn [send_all]. mstep_by E.
  etransitivity; [exact E'|]. unfold s1. rsimpl. by rewrite <- app_assoc.
Qed.

(** Releasing the queue. *)
Lemma flush_spec ms : ∀ q k cc d n s,
  Forall2 queued ms q → outgoing (st s) = q → sendable k cc d n s →
  Forall (waits (server_side (st s))) ms → weight ms ≤ n →
  packets (p_send (st s)) + Z.of_nat (length ms) < 2 ^ 32 - 1 →
  ∃ s' w, flush_outgoing (S (length q)) s = Ok (tt, s') ∧ outgoing (st s') = [] ∧ rekeying (st s') = rekeying (st s) ∧
    contents (output (st s')) = contents (output (st s)) ++ w ∧ carries k d (seqnr (p_send (st s))) ms w.
Proof.
  induction ms as [|[type payload] ms IH]; intros q k cc d n s Hq Eq Hs Hw Hn Hpk.
  { apply Forall2_nil_inv_l in Hq as ->. exists s, []. cbn [flush_outgoing]. mstep. rewrite Eq. split_and!; [done..|by rewrite app_nil_r|apply carries_nil]. }
  apply Forall2_cons_inv_l in Hq as (p & q' & Hp & Hq' & ->).
  cbn [flush_outgoing]. mstep. rewrite Eq. destruct p as [ty b]. destruct Hp as (Ety & Cb & Rb). cbn [fst snd] in *.
  apply Forall_cons in Hw as [Hm Hms]. pose proof (waits_types _ _ Hm) as [Hnk _]. simpl in Hnk, Hn, Hpk.
  destruct Hm as [[Hty _] Hau Hby Hlen]. cbn [fst snd] in *. unfold PACKET_MAX_SIZE in Hlen.
  assert (0 ≤ weight ms) by (clear; induction ms; simpl; lia).
  mstep. set (s1 := s <| st := _ |>).
  assert (Hs1 : sendable k cc d n s1) by (destruct Hs; by split).
  destruct (send2_wrapped_spec k cc d n s1 (replicate 5 0) type payload Hs1) as
    (pad & m & c & e' & d' & o' & ob' & Ew & Co & He & Hd & Hlc & Hp' & Hbc & Ro & Bp & Lp & Hm & Cob & Wob);
    [by split_and!|exact Cb|done|done|exact Rb|lia|lia|].
  destruct (frame_size k cc (seqnr (p_send (st s1))) type payload pad (sd_good _ _ _ _ _ Hs) Lp) as (Hf & Hpl & Ht).
  mstep_by Ew. set (s2 := s1 <| n_rand := m |> <| st := _ |>).
  assert (Hs2 : sendable k (mkCC (plaintext cc) e' (cc_cipher cc)) d' (n - (Z.of_nat (length payload) + 128)) s2).
  { destruct Hs. destruct sd_good. split; try done; [eapply roomy_weaken; [exact Ro|lia]|].
    unfold s2, s1. rsimpl. cbn [sent_counters packets]. rewrite u32_small; lia. }
  destruct (IH q' k _ d' _ s2 Hq' eq_refl Hs2) as (s' & w & E & Hout & Hrk & Co' & Hca); [done|lia| |].
  { unfold s2, s1. rsimpl. cbn [sent_counters packets]. destruct Hs. rewrite u32_small; lia. }
  exists s', (c ++ tag k (seqnr (p_send (st s))) (frame (type :: payload) pad) ++ w).
  split_and!; [exact E|done|done| |].
  - rewrite Co'. change (output (st s2)) with o'. rewrite Co. change (output (st s1)) with (output (st s)).
    change (seqnr (p_send (st s1))) with (seqnr (p_send (st s))). by rewrite <- !app_assoc.
  - eapply (carries_cons _ (cc_evp cc)); try done; [apply (sd_pair _ _ _ _ _ Hs)|lia].
Qed.

(** Keys from a key exchange without compression that can be installed for
    sending: [nk'] is what [set_newkeys] makes of [nk]. *)
Record installable (nk nk' : Newkeys) (cc : CipherContext) : Prop := {
  in_mac : ∃ r mac, mac_init (nk_mac nk) = Ok (r, mac) ∧
    nk' = nk <| nk_mac := if r =? 0 then mac <| mac_enabled := 1 |> else mac |>;
  in_cipher : cipher_init (enc_cipher (nk_enc nk)) (enc_key (nk_enc nk)) (enc_key_len (nk_enc nk))
                (Some (enc_iv (nk_enc nk))) (enc_block_size (nk_enc nk)) true = Ok cc;
  in_comp : comp_type (nk_comp nk) ≠ COMP_ZLIB ∧ comp_type (nk_comp nk) ≠ COMP_DELAYED;
  in_good : keys_good (Some nk') cc
}.

Lemma set_newkeys_out_spec nk nk' cc s :
  current_keys_out s = Some nk → installable nk nk' cc →
  ∃ mb, set_newkeys MODE_OUT s =
    Ok (tt, s <| current_keys_out := None |>
              <| st := (st s) <| p_send := (p_send (st s)) <| packets := 0 |> <| blocks := 0 |> |>
                 <| newkeys_out := Some nk' |> <| send_context := Some cc |> <| max_blocks_out := mb |> |>).
Proof.
  intros Hk [(r & mac & Em & ->) Ec [Hz Hd] _]. unfold set_newkeys. mstep. cbn [kex_get_newkeys].
  rewrite <- M_bind_assoc. mstep. rewrite <- M_bind_assoc. mstep. mstep. rsimpl. rewrite Hk. cbv iota zeta.
  mlift Em. mstep. mlift Ec. mstep. mstep.
  change (comp_type (nk_comp (nk <| nk_mac := _ |>))) with (comp_type (nk_comp nk)).
  rewrite (proj2 (Z.eqb_neq _ _) Hz), (proj2 (Z.eqb_neq _ _) Hd). bred.
  mstep. mstep. eexists. unfold modS, modify. unfold set_newkeys_field. rsimpl. reflexivity.
Qed.

(** C6: A key exchange neither loses nor reorders messages: everything that is
    sent while [rekeying] is set and is not a transport message is held back,
    so that nothing of it appears under the old keys; [SSH2_MSG_NEWKEYS] goes
    out under the old keys, and behind it all held back messages in the order
    in which they were sent, under the new keys and with consecutive sequence
    numbers.  The queue is empty and [rekeying] is clear afterwards. *)
Theorem rekey_preserves_order k cc d n s nk nk' cc' d' ms :
  sendable k cc d n s → wf (outgoing_packet (st s)) → rekeying (st s) ≠ 0 → outgoing (st s) = [] →
  current_keys_out s = Some nk → installable nk nk' cc' → paired (bs_of (Some nk')) (cc_evp cc') d' →
  Forall (waits (server_side (st s))) ms → Z.of_nat (length ms) < 2 ^ 32 - 1 → weight ms + 128 ≤ n →
  let sn := seqnr (p_send (st s)) in
  ∃ s1 s2 w1 w2,
    send_all ms s = Ok (tt, s1) ∧ contents (output (st s1)) = contents (output (st s)) ∧
    send_msg (SSH2_MSG_NEWKEYS, []) s1 = Ok (tt, s2) ∧
    outgoing (st s2) = [] ∧ rekeying (st s2) = 0 ∧ newkeys_out (st s1) = k ∧
    contents (output (st s2)) = contents (output (st s)) ++ w1 ++ w2 ∧
    carries k d sn [(SSH2_MSG_NEWKEYS, [])] w1 ∧ carries (Some nk') d' (u32 (sn + 1)) ms w2.
Proof.
  intros Hs Hh Hrk Hq Hck Hin Hpair Hw Hlen Hn sn.
  assert (0 ≤ weight ms) by (clear; induction ms; simpl; lia).
  pose proof Hs as [Hc20 Hk Hg Hcc Hp Hex Hout Hpk].
  destruct (send_all_waits ms s Hc20 Hh Hrk Hw) as (q & ob & E1 & Hqs & Hob). rewrite Hq, app_nil_l in E1.
  set (s1 := s <| st := _ |>) in *.
  destruct (build_msg_spec s1 SSH2_MSG_NEWKEYS [] Hc20 Hob) as (b & sx & E2 & -> & Cb & Rb);
    [unfold PACKET_MAX_SIZE; simpl; lia|done|].
  apply (roomy_weaken _ _ 20) in Rb; [|unfold PACKET_ROOM; simpl; lia].
  set (s2 := s1 <| st := _ |>) in *.
  assert (Hs2 : sendable k cc d n s2) by by split.
  destruct (send2_wrapped_gen k cc d n s2 (replicate 5 0) SSH2_MSG_NEWKEYS [] Hs2) as
    (pad & m & c & e' & d1 & o' & ob' & Ew & Co & He & Hd & Hlc & Hp' & Hbc & Ro & Bp & Lp & Hm & Cob & Wob);
    [done|exact Cb|done|constructor|exact Rb|simpl; lia|simpl; lia|]. cbv zeta in Ew.
  destruct (frame_size k cc (seqnr (p_send (st s2))) SSH2_MSG_NEWKEYS [] pad Hg Lp) as (Hf & Hpl & Ht).
  set (s3 := s2 <| n_rand := m |> <| st := _ |>) in Ew.
  destruct (set_newkeys_out_spec nk nk' cc' s3 Hck Hin) as (mb & En).
  set (s4 := s3 <| current_keys_out := None |> <| st := _ |>) in En.
  assert (Ew' : packet_send2_wrapped s2 = Ok (tt, s4)) by (rewrite Ew; unfold send2_keys; mstep; exact En).
  set (s5 := s4 <| st := (st s4) <| rekeying := 0 |> |>).
  destruct (flush_spec ms q (Some nk') cc' d' (n - 128) s5 Hqs eq_refl) as (s6 & w & Ef & Hq6 & Hrk6 & Co6 & Hca).
  { split; try done; [apply Hin|]. eapply roomy_weaken; [exact Ro|]. simpl in *. lia. }
  { exact Hw. } { lia. } { simpl. lia. }
  eexists s1, s6, _, w. split_and!; [exact E1|done| |exact Hq6|exact Hrk6|exact Hk| | |exact Hca].
  - unfold send_msg. rewrite M_bind_assoc. cbn [fst snd]. mstep_by E2. unfold packet_send. mstep.
    change (compat20 s2) with (compat20 s). rewrite Hc20. cbv iota. unfold packet_send2. mstep.
    assert (Hpeek : peek b 5 = Ok SSH2_MSG_NEWKEYS) by (apply peek_contents; [apply Rb|done|]; by rewrite Cb).
    mlift Hpeek. mstep. change (negb (is_transport SSH2_MSG_NEWKEYS)) with false. rewrite andb_false_r.
    change (SSH2_MSG_NEWKEYS =? SSH2_MSG_KEXINIT) with false. mstep. mstep_by Ew'.
    change (SSH2_MSG_NEWKEYS =? SSH2_MSG_NEWKEYS) with true. cbn [when]. mstep. mstep. exact Ef.
  - rewrite Co6. change (output (st s5)) with o'. rewrite Co. change (output (st s2)) with (output (st s)).
    by rewrite <- app_assoc.
  - rewrite <- (app_nil_r (tag _ _ _)). eapply (carries_cons _ (cc_evp cc)); try done; [lia|apply carries_nil].
Qed.

End Rekey.

(** ** A key exchange with a queue *)
Module RekeyDemo.
Import Toy Demo.

Definition old_session : ssh :=
  (demo 0) <| st := (demo_session 0) <| rekeying := 1 |> |>
    <| current_keys_out := Some (demo_keys <| nk_mac := demo_mac <| mac_enabled := 0 |> <| mac_evp_ctx := None |> |>) |>.

Definition new_keys : Newkeys := demo_keys <| nk_mac := demo_mac |>.
Definition new_cc : CipherContext := mkCC false 12 (enc_cipher (nk_enc demo_keys)).

Lemma rekey_preserves_order_witness :
  ∃ s1 s2 w1 w2,
    send_all demo_messages old_session = Ok (tt, s1) ∧ contents (output (st s1)) = [] ∧
    send_msg (SSH2_MSG_NEWKEYS, []) s1 = Ok (tt, s2) ∧
    outgoing (st s2) = [] ∧ rekeying (st s2) = 0 ∧ newkeys_out (st s1) = Some demo_keys ∧
    contents (output (st s2)) = w1 ++ w2 ∧
    carries (Some demo_keys) (cc_evp demo_cc) 0 [(SSH2_MSG_NEWKEYS, [])] w1 ∧ carries (Some new_keys) (cc_evp new_cc) 1 demo_messages w2.
Proof.
  apply (rekey_preserves_order (Some demo_keys) demo_cc (cc_evp demo_cc) 1000 old_session
    (demo_keys <| nk_mac := demo_mac <| mac_enabled := 0 |> <| mac_evp_ctx := None |> |>) new_keys
    new_cc (cc_evp new_cc) demo_messages).
  - split; [reflexivity|reflexivity|apply demo_good|reflexivity|reflexivity|reflexivity|
      apply buffer_init_roomy; discriminate|split; [discriminate|reflexivity]].
  - apply buffer_init_wf.
  - discriminate.
  - reflexivity.
  - reflexivity.
  - split; [|reflexivity|split; discriminate|].
    { eexists 0, _. split; reflexivity. } { destruct demo_good as [G1 G2 G3 G4]. split; [exact G1|exact G2|exact G3|exact G4]. }
  - reflexivity.
  - repeat (constructor; [split; [split; [split; [discriminate|reflexivity]|reflexivity]|intros [? _]; discriminate
      |repeat constructor; discriminate|discriminate]|]). constructor.
  - reflexivity.
  - discriminate.
Defined.

End RekeyDemo.
