(* ===== verification/Shaper.v ===== *)
(** * The traffic shaper of the main loops ([serverloop.c], [clientloop.c])

    [process_output] of the server and the second half of the body of the
    client's main loop decide, each time the process wakes up, whether and how
    much to write, and switch between the three modes (plain, CS-BuFLO,
    super-trace).  Both are written out here, over the parts that the two
    source files share word for word.  [shaper] holds their static variables;
    the counters that are only ever written ([old_...], [new_...], [pre_rate])
    and the log file are left out.  [writable] is
    [FD_ISSET(connection_out, writeset)]. *)

From S2P Require Import Prelude ByteOrder Buffer Crc32 Deattack Stdio SuperTrace HashMap Csbuflo.
From S2P Require Import CipherMac Packet PacketWrite.

Section Shaper.
Context `{Crypto}.

Record shaper := mkShaper {
  conn : ssh;
  tau : Z;
  truly_idle : Z;
  time_to_write : Z;
  idle_start : Z;
  total_sent_bytes : Z;
  target_sent_bytes : Z;
  outbuf_remain : Z;
  boundary : Z;
  cur_total_realincoming_bytes : Z;
  cur_total_realsent_bytes : Z;
  deadlock_start : Z;
  waiting_for_a_packet : Z;
  last_item : option STPAIR   (* [item] of [client_loop], which outlives a round *)
}.
#[export] Instance eta_shaper : Eta shaper := λ s,
  {| conn := conn s; tau := tau s; truly_idle := truly_idle s; time_to_write := time_to_write s;
     idle_start := idle_start s; total_sent_bytes := total_sent_bytes s;
     target_sent_bytes := target_sent_bytes s; outbuf_remain := outbuf_remain s;
     boundary := boundary s; cur_total_realincoming_bytes := cur_total_realincoming_bytes s;
     cur_total_realsent_bytes := cur_total_realsent_bytes s; deadlock_start := deadlock_start s;
     waiting_for_a_packet := waiting_for_a_packet s; last_item := last_item s |}.

(** ** Access *)

Definition on_conn {A} (m : M ssh A) : M shaper A := λ s,
  '(a, c) ← m (conn s); Ok (a, s <| conn := c |>).
Definition flag {A} (f : globals → A) : M shaper A := gets (λ s, f (g (conn s))).
Definition setg (f : globals → globals) : M shaper unit := on_conn (modG f).
Definition setg_try (f : globals → outcome globals) : M shaper unit :=
  on_conn (gl ← gets g; gl ← liftO (f gl); modify (λ s, s <| g := gl |>)).
Definition clock : M shaper Z := on_conn get_current_time_usecs.
Definition notify (f : notify_flag) : M shaper unit :=
  on_conn (_ ← packet_send_notify 4 f; packet_send).

(** The rate goes back to its initial value. *)
Definition reset_rate : M shaper unit :=
  _ ← modify (λ s, s <| tau := INITIAL_TAU |>);
  on_conn (set_packet_tau INITIAL_TAU).

(** ** Parts that both sides share *)

(** [if (get_unload_flag() == 1) ...] *)
Definition handle_unload (now : Z) : M shaper unit :=
  u ← flag unload_flag;
  when (u =? 1)
    (m ← flag stmode;
     _ ← (if m =? 0 then
            _ ← modify (λ s, s <| time_to_write := now |>);
            _ ← on_conn (set_updated_time now);
            reset_rate
          else setg (set_trans_padded_remaining 2560));
     setg unset_unload_flag).

(** [should_send]. *)
Definition may_send (now : Z) (item : option STPAIR) (writable : bool) : M shaper bool :=
  ttw ← gets time_to_write;
  m ← flag stmode;
  mret (if now <? ttw then (m =? 1) && (if item is Some _ then false else true) && writable else writable).

(** Waiting for the data that the trace expects from the other side: the bytes
    of this item to send now.  [on_deadlock] is what the client does in
    addition when it has waited for five seconds. *)
Definition wait_for_data (on_deadlock : globals → globals) (expected_data cursize : Z) : M shaper Z :=
  cur_received ← flag received_sofar;
  if cur_received <? expected_data then
    deadlock_now ← clock;
    _ ← modify (λ s, s <| waiting_for_a_packet := 1 |>
                       <| deadlock_start := if deadlock_start s =? 0 then deadlock_now else deadlock_start s |>);
    start ← gets deadlock_start;
    _ ← when (u64 (start + 5000000) <=? deadlock_now)
          (_ ← setg on_deadlock;
           modify (λ s, s <| waiting_for_a_packet := 0 |> <| deadlock_start := 0 |>));
    w ← gets waiting_for_a_packet;
    if w =? 1 then _ ← on_conn (set_packet_tau 0); mret 0
    else _ ← modify (λ s, s <| waiting_for_a_packet := 0 |> <| deadlock_start := 0 |>); mret cursize
  else
    _ ← modify (λ s, s <| waiting_for_a_packet := 0 |> <| deadlock_start := 0 |>);
    _ ← when (0 <? expected_data)
          (setg (set_received_sofar (if expected_data <=? cur_received then cur_received - expected_data else 0)));
    mret cursize.

(** [set_w2w(get_w2w() + cursize)] *)
Definition schedule_bytes (cursize : Z) : M shaper unit := setg (λ gl, set_w2w (w2w gl + cursize) gl).

(** The counters start anew when the channel falls idle or the mode changes. *)
Definition reset_counters : M shaper unit :=
  modify (λ s, s <| total_sent_bytes := 0 |> <| cur_total_realincoming_bytes := 0 |>
                 <| cur_total_realsent_bytes := 0 |>).

(** The end of the trace: [go_normal] is what a side does besides changing to
    plain mode. *)
Definition trace_end (go_normal : M shaper unit) (now outbuf_len : Z) : M shaper unit :=
  _ ← modify (λ s, s <| waiting_for_a_packet := 0 |>);
  _ ← on_conn (set_packet_tau (10 * INITIAL_TAU));
  onload ← flag onload_flag;
  tend ← flag sent_tend;
  w ← flag w2w;
  _ ← when ((tend =? 0) && (w =? 0)) (_ ← notify N_tend; setg set_sent_tend);
  te ← flag transcript_end;
  w ← flag w2w;
  when ((te =? 1) && (w =? 0))
    (if negb (onload =? 1) then
       idle ← flag st_idle_start;
       if idle =? 0 then setg (set_st_idle_start now)
       else if 0 <? outbuf_len then
         _ ← modify (λ s, s <| tau := INITIAL_TAU |>);
         _ ← reset_counters;
         _ ← modify (λ s, s <| boundary := INITIAL_BOUNDARY |>);
         _ ← setg (set_stmode 0);
         _ ← modify (λ s, s <| idle_start := now |>);
         on_conn (set_packet_tau INITIAL_TAU)
       else when (2000000 <=? u64 (now - idle)) (_ ← go_normal; setg (set_stmode (-1)))
     else _ ← go_normal; setg (set_stmode (-1))).

(** [(long)pow(2, ceil(log2(v / 1.0)))], 0 for [v = 0].  Floating point is not
    modelled: this takes the ceiling of the double precision logarithm to be
    that of the exact one, which holds for the counts of bytes below 2^48 or so
    and can fail for a larger count just above a power of two. *)
Definition pow_ceil_log2 (v : Z) : outcome Z :=
  if v <? 0 then Fault else if v =? 0 then Ok 0 else Ok (2 ^ Z.log2_up v).

(** [base*(int)ceil(total/1.0/base)]; a quotient that is no [int] has no
    defined conversion. *)
Definition round_up_to (base total : Z) : outcome Z :=
  let q := - ((- total) / base) in
  if (q <? - 2 ^ 31) || (INT_MAX <? q) then Fault else Ok (i64 (base * q)).

(** How many bytes are to be sent in all when the channel is idle, and what to
    write now. *)
Definition set_target (outbuf_len : Z) : M shaper unit :=
  total ← gets total_sent_bytes;
  if total =? 0 then
    _ ← modify (λ s, s <| target_sent_bytes := 0 |>);
    setg (set_w2w 0)
  else
    inc ← gets cur_total_realincoming_bytes;
    base ← liftO (pow_ceil_log2 inc);
    let base := if base =? 0 then 2 else base in
    target ← liftO (round_up_to base total);
    _ ← modify (λ s, s <| target_sent_bytes := target |>);
    when ((total <=? target) && (target - total <? TARGET_QUEUE_LEN)) (setg (set_w2w outbuf_len)).

(** The measurements of the gap are dropped. *)
Definition reset_gap : M shaper unit :=
  _ ← setg (set_tstart_set 0); _ ← setg (set_tend_set 0);
  _ ← setg (set_ts_start 0); setg (set_ts_end 0).

(** Whether the padding goal has been reached. *)
Definition near_target : M shaper bool :=
  target ← gets target_sent_bytes;
  total ← gets total_sent_bytes;
  mret ((total <? target + TARGET_QUEUE_LEN) && (target <? total + TARGET_QUEUE_LEN)).

(** The gap between two real messages, after a write in CS-BuFLO mode. *)
Definition measure_gap (is_client cur_ts sent padded_junk : Z) : M shaper unit :=
  a ← flag tstart_set; b ← flag tend_set; t0 ← flag ts_start; t1 ← flag ts_end;
  _ ← when (negb (a =? 0) && negb (b =? 0) && (t0 <? t1))
        (real ← gets cur_total_realsent_bytes;
         _ ← setg_try (update_tau_interval t0 t1 real is_client);
         _ ← modify (λ s, s <| cur_total_realsent_bytes := 0 |>);
         _ ← setg (set_tstart_set 0);
         setg (set_tend_set 0));
  a ← flag tstart_set;
  _ ← when (a =? 0) (_ ← setg (set_tstart_set 1); setg (set_ts_start cur_ts));
  _ ← when (padded_junk <? sent)
        (modify (λ s, s <| cur_total_realsent_bytes := cur_total_realsent_bytes s + (sent - padded_junk) |>));
  real ← gets cur_total_realsent_bytes;
  when (TARGET_QUEUE_LEN <=? real)
    (_ ← modify (λ s, s <| cur_total_realsent_bytes := real - TARGET_QUEUE_LEN |>);
     setg_try (insert_time cur_ts)).

(** [tau = update_tau_median(tau, &boundary, total_sent_bytes)] *)
Definition adapt_rate : M shaper unit :=
  t ← gets tau; b ← gets boundary; total ← gets total_sent_bytes; gl ← flag id;
  '((t, b), gl) ← liftO (update_tau_median t b total gl);
  _ ← setg (λ _, gl);
  _ ← modify (λ s, s <| tau := t |> <| boundary := b |>);
  on_conn (set_packet_tau t).

(** The write and the accounts. *)
Definition write_and_account (is_client : Z) (fuel : nat) (outbuf_len incoming_real_data : Z) : M shaper unit :=
  rem0 ← on_conn output_buffer_len;
  _ ← on_conn (packet_write_poll fuel);
  ttw ← on_conn (gets packet_time_to_write);
  _ ← modify (λ s, s <| time_to_write := ttw |>);
  junk ← flag padded_junk;
  remain ← on_conn output_buffer_len;
  let sent := i32 (rem0 + junk - remain) in
  _ ← modify (λ s, s <| outbuf_remain := remain |>
                     <| total_sent_bytes := i64 (total_sent_bytes s + sent) |>
                     <| cur_total_realincoming_bytes :=
                          i64 (cur_total_realincoming_bytes s + incoming_real_data) |>);
  cur_ts ← clock;
  m ← flag stmode;
  _ ← when ((m =? 0) && negb (outbuf_len =? 0)) (measure_gap is_client cur_ts sent junk);
  m ← flag stmode;
  when (m =? 0) adapt_rate.

(** Not the time to write: new data ends the idle state. *)
Definition not_sending (outbuf_len : Z) : M shaper unit :=
  modify (λ s, if outbuf_remain s <? outbuf_len then s <| truly_idle := 0 |> else s).

(** ** The server *)

(** An item of the trace in super-trace mode. *)
Definition server_item (item : STPAIR) (outbuf_len : Z) : M shaper unit :=
  let cursize := psize item in
  _ ← on_conn (set_packet_tau (ptime item));
  fc ← flag first_client;
  cursize ← (if fc =? 1
             then _ ← setg unset_first_client;
                  mret (if cursize <? outbuf_len then outbuf_len else cursize)
             else mret cursize);
  n ← wait_for_data id (expected item) cursize;
  schedule_bytes n.

(** [item && (onload == 0 || should_jump_trans_end(arc4random() % 100) == 0)] *)
Definition plays_on (item : option STPAIR) : M shaper bool :=
  onload ← flag onload_flag;
  if item is Some _ then
    if onload =? 0 then mret true
    else
      r ← on_conn arc4random;
      gl ← flag id;
      let '(jump, gl) := should_jump_trans_end (r mod 100) gl in
      _ ← setg (λ _, gl);
      mret (jump =? 0)
  else mret false.

Definition server_normal : M shaper unit := notify N_normal.

Definition server_trace (now outbuf_len : Z) : M shaper unit :=
  w ← gets waiting_for_a_packet;
  _ ← when (w =? 0) (setg_try (move_to_next_st_item 1));
  item ← flag cur_item;
  go ← plays_on item;
  match item, go with
  | Some item, true => server_item item outbuf_len
  | _, _ => trace_end server_normal now outbuf_len
  end.

(** The padding of a page is complete. *)
Definition server_padded : M shaper unit :=
  _ ← reset_counters;
  _ ← modify (λ s, s <| truly_idle := 1 |>);
  _ ← setg unset_paddingdone_flag;
  _ ← modify (λ s, s <| boundary := INITIAL_BOUNDARY |>);
  _ ← modify (λ s, s <| tau := INITIAL_TAU |>);
  _ ← setg (set_w2w TARGET_QUEUE_LEN);
  _ ← on_conn (set_packet_tau INITIAL_TAU);
  _ ← reset_gap;
  _ ← notify N_normal;
  setg (set_stmode (-1)).

(** An idle channel in CS-BuFLO mode. *)
Definition server_idle (outbuf_len : Z) : M shaper unit :=
  near ← near_target;
  _ ← when ((outbuf_len <=? 32) && near) server_padded;
  set_target outbuf_len.

(** [get_stmode() == 0 && channel_idle(...)] *)
Definition csbuflo_step (idle_action : M shaper unit) (outbuf_len : Z) : M shaper unit :=
  m ← flag stmode;
  when (m =? 0)
    (_ ← setg (set_w2w TARGET_QUEUE_LEN);
     now ← clock;
     r ← gets outbuf_remain; i ← gets idle_start; gl ← flag id;
     let '(cidle, i) := channel_idle now outbuf_len r i gl in
     _ ← modify (λ s, s <| idle_start := i |>);
     when (negb (cidle =? 0)) idle_action).

(** The part of [process_output] that writes to the connection. *)
Definition process_output (fuel : nat) (writable : bool) : M shaper unit :=
  now ← clock;
  _ ← handle_unload now;
  outbuf_len ← on_conn output_buffer_len;
  r ← gets outbuf_remain;
  let incoming_real_data := if r <? outbuf_len then i32 (outbuf_len - r) else 0 in
  should_send ← may_send now None writable;
  if should_send : bool then
    m ← flag stmode;
    _ ← when (m =? 1) (server_trace now outbuf_len);
    when writable
      (_ ← modify (λ s, s <| truly_idle := 0 |>);
       _ ← csbuflo_step (server_idle outbuf_len) outbuf_len;
       write_and_account 0 fuel outbuf_len incoming_real_data)
  else not_sending outbuf_len.

(** ** The client *)

(** The lock file that keeps other pages from loading is removed. *)
Definition client_normal : M shaper unit :=
  n ← flag server_entering_normal;
  when (n =? 1) (setg unset_server_entering_normal).

(** The first burst carries the URL, the second waits for its
    acknowledgement. *)
Definition client_item (item : STPAIR) (outbuf_len : Z) : M shaper unit :=
  let cursize := i32 (0 - psize item) in
  _ ← on_conn (set_packet_tau (ptime item));
  fc ← flag first_client;
  sc ← flag second_client;
  ack ← flag urlack;
  '(expected_data, cursize) ←
    (if fc =? 1 then
       _ ← setg unset_first_client;
       _ ← setg set_second_client;
       mret (expected item, if cursize <? outbuf_len then outbuf_len else cursize)
     else if sc =? 1 then
       if ack =? 1 then _ ← setg unset_urlack; _ ← setg unset_second_client; mret (expected item, cursize)
       else mret (INT_MAX, cursize)
     else mret (expected item, cursize));
  n ← wait_for_data unset_second_client expected_data cursize;
  schedule_bytes n.

Definition client_trace (now outbuf_len : Z) : M shaper unit :=
  w ← gets waiting_for_a_packet;
  _ ← when (w =? 0) (setg_try (move_to_next_st_item 0));
  item ← flag cur_item;
  _ ← modify (λ s, s <| last_item := item |>);
  go ← plays_on item;
  match item, go with
  | Some item, true => client_item item outbuf_len
  | _, _ => trace_end client_normal now outbuf_len
  end.

Definition client_padded : M shaper unit :=
  _ ← reset_counters;
  _ ← modify (λ s, s <| truly_idle := 1 |>);
  _ ← notify N_paddingdone;
  _ ← modify (λ s, s <| boundary := INITIAL_BOUNDARY |>);
  _ ← reset_rate;
  _ ← reset_gap;
  _ ← client_normal;
  setg (set_stmode (-1)).

Definition client_idle (outbuf_len : Z) : M shaper unit :=
  near ← near_target;
  _ ← when ((outbuf_len =? 0) && near) client_padded;
  set_target outbuf_len.

Definition client_output (fuel : nat) (writable : bool) : M shaper unit :=
  now ← clock;
  _ ← handle_unload now;
  outbuf_len ← on_conn output_buffer_len;
  r ← gets outbuf_remain;
  let incoming_real_data := if r <? outbuf_len then i32 (outbuf_len - r) else 0 in
  item ← gets last_item;
  should_send ← may_send now item writable;
  if should_send : bool then
    m ← flag stmode;
    _ ← when (m =? 1) (client_trace now outbuf_len);
    _ ← modify (λ s, s <| truly_idle := 0 |>);
    _ ← csbuflo_step (client_idle outbuf_len) outbuf_len;
    write_and_account 1 fuel outbuf_len incoming_real_data
  else not_sending outbuf_len.

End Shaper.
