(* ===== verification/ShaperProofs.v ===== *)
(** * What the traffic shaper guarantees

    Theorems about [Shaper.v]: the modes, the sending rate, the waiting for the
    other side, and the padding goal. *)

From S2P Require Import Prelude ByteOrder Buffer Crc32 Deattack Stdio SuperTrace HashMap Csbuflo.
From S2P Require Import CipherMac Packet PacketWrite PacketRead PacketProofs PacketStream Pacing Shaper.

(** The conversion test opens these before the monad. *)
Strategy expand [server_padded client_padded server_idle client_idle server_trace client_trace trace_end].

Section Frames.
Context `{Crypto}.

(** ** What sending and writing leave alone *)

(** Sending only touches the session. *)
Definition outside (s : ssh) : globals * Z * Z := (g s, packet_tau s, packet_time_to_write s).

Lemma on_buf_outside (p : session_state → Buffer) `{!Updater p} f : keeps outside (on_buf p f).
Proof. unfold on_buf, getS, modS. keep. Qed.
#[local] Hint Resolve on_buf_outside : keeps.

Lemma arc4random_outside : keeps outside arc4random.
Proof. intros s a s' [= <- <-]. done. Qed.
#[local] Hint Resolve arc4random_outside : keeps.

Lemma random_bytes_outside n : ∀ i rnd, keeps outside (random_bytes n i rnd).
Proof. induction n as [|n IH]; intros i rnd; cbn [random_bytes]; keep. Qed.
#[local] Hint Resolve random_bytes_outside : keeps.

Lemma put_chars_outside l : keeps outside (put_chars l).
Proof. induction l as [|c l IH]; cbn [put_chars]; unfold packet_put_char; keep. Qed.
#[local] Hint Resolve put_chars_outside : keeps.

Lemma packet_start_outside t : keeps outside (packet_start t).
Proof. unfold packet_start. keep. Qed.
#[local] Hint Resolve packet_start_outside : keeps.

Lemma packet_send_ignore_outside n : keeps outside (packet_send_ignore n).
Proof. unfold packet_send_ignore, packet_put_int, put_random. keep. Qed.
Lemma packet_send_notify_outside n f : keeps outside (packet_send_notify n f).
Proof. unfold packet_send_notify, packet_put_int, put_random, getG, fault. keep. Qed.
#[local] Hint Resolve packet_send_ignore_outside packet_send_notify_outside : keeps.

Lemma compress_outgoing_outside h p b : keeps outside (compress_outgoing h p b).
Proof. unfold compress_outgoing, getS, modS. keep. Qed.
#[local] Hint Resolve compress_outgoing_outside : keeps.

Lemma set_newkeys_outside m : keeps outside (set_newkeys m).
Proof.
  unfold set_newkeys, kex_get_newkeys, packet_init_compression, init_stream, getS, modS, set_newkeys_field, fatal. keep.
Qed.
Lemma enable_delayed_compress_outside : keeps outside packet_enable_delayed_compress.
Proof.
  unfold packet_enable_delayed_compress, enable_delayed, packet_init_compression, init_stream, getS, modS, set_newkeys_field.
  keep.
Qed.
#[local] Hint Resolve set_newkeys_outside enable_delayed_compress_outside : keeps.

Lemma send2_wrapped_outside : keeps outside packet_send2_wrapped.
Proof.
  unfold packet_send2_wrapped, send2_format, send2_transmit, send2_keys, make_padding, bump_send, getS, modS, fault, fatal. keep.
Qed.
#[local] Hint Resolve send2_wrapped_outside : keeps.

Lemma flush_outgoing_outside n : keeps outside (flush_outgoing n).
Proof.
  induction n as [|n IH]; cbn [flush_outgoing]; unfold getS, modS; keep.
Qed.
#[local] Hint Resolve flush_outgoing_outside : keeps.

Lemma packet_send_outside : keeps outside packet_send.
Proof. unfold packet_send, packet_send2, packet_send1, bump_send, getS, modS, fault. keep. Qed.

#[local] Hint Resolve packet_send_outside : keeps.

(** ** What writing leaves alone *)

(** The part of the state that decides about modes and rates. *)
Definition rview (gl : globals) :=
  (stmode gl, transcript_end gl, unload_flag gl,
   (tau_arr gl, tau_index gl, tau_size gl), (time_arr gl, time_index gl, time_size gl)).
Definition pview (s : ssh) := (rview (g s), packet_tau s).

Lemma outside_pview {A} (m : M ssh A) : keeps outside m → keeps pview m.
Proof. intros Hm s a s' E. injection (Hm s a s' E) as E1 E2 _. unfold pview. by rewrite E1, E2. Qed.
#[local] Hint Resolve outside_pview : keeps.

Lemma set_w2w_rview v gl : rview (set_w2w v gl) = rview gl.
Proof. unfold set_w2w. by destruct (v <? 0). Qed.

Lemma decrease_rview v gl : rview (decrease_trans_padded_remaining v gl) = rview gl.
Proof. unfold decrease_trans_padded_remaining. by destruct (v <=? _). Qed.

Lemma modG_pview f : (∀ gl, rview (f gl) = rview gl) → keeps pview (modG f).
Proof. intros Hf s a s' [= <- <-]. unfold pview. rsimpl. by rewrite Hf. Qed.

Lemma fill_output_pview n a : keeps pview (fill_output n a).
Proof. induction n as [|n IH]; cbn [fill_output]; unfold output_buffer_len, getS; keep. Qed.
#[local] Hint Resolve fill_output_pview : keeps.

Lemma roaming_write_pview n : keeps pview (roaming_write n).
Proof. unfold roaming_write, getS. keep. Qed.
Lemma tcp_queue_len_pview : keeps pview tcp_queue_len.
Proof. intros s a s' [= <- <-]. done. Qed.
#[local] Hint Resolve roaming_write_pview tcp_queue_len_pview : keeps.

Lemma prepare_write_pview l a : keeps pview (prepare_write l a).
Proof.
  unfold prepare_write, pad_output, getG. keep.
Qed.
#[local] Hint Resolve prepare_write_pview : keeps.

Lemma one_write_pview w : keeps pview (packet_write_poll_one_write w).
Proof.
  unfold packet_write_poll_one_write, output_buffer_len, getS, fatal. keep.
  apply modG_pview, decrease_rview.
Qed.
#[local] Hint Resolve one_write_pview : keeps.

Lemma write_burst_pview n : ∀ w, keeps pview (write_burst n w).
Proof. induction n as [|n IH]; intros w; cbn [write_burst]; keep. Qed.
#[local] Hint Resolve write_burst_pview : keeps.

Lemma get_time_pview : keeps pview get_current_time_usecs.
Proof. intros s a s' [= <- <-]. done. Qed.
#[local] Hint Resolve get_time_pview : keeps.

Lemma write_poll_pview n : keeps pview (packet_write_poll n).
Proof.
  unfold packet_write_poll, update_time, set_updated_time, getG. keep.
  all: apply modG_pview; intros gl; first [done|apply set_w2w_rview].
Qed.

#[local] Hint Resolve write_poll_pview : keeps.

(** ** The shaper's own steps *)

Definition sview (s : shaper) := (tau s, packet_tau (conn s), rview (g (conn s))).

Lemma on_conn_inv {A} (m : M ssh A) s a s' :
  on_conn m s = Ok (a, s') → ∃ c, m (conn s) = Ok (a, c) ∧ s' = s <| conn := c |>.
Proof. intros E. apply bind_Ok in E as ([b c] & E & [= <- <-]). eauto. Qed.
Lemma on_conn_sview {A} (m : M ssh A) : keeps pview m → keeps sview (on_conn m).
Proof.
  intros Hm s a s' E. apply on_conn_inv in E as (c & E & ->). apply Hm in E. unfold sview. rsimpl.
  apply (f_equal fst) in E as E1. apply (f_equal snd) in E as E2. simpl in E1, E2. by rewrite E1, E2.
Qed.
Lemma setg_sview f : (∀ gl, rview (f gl) = rview gl) → keeps sview (setg f).
Proof. intros Hf. by apply on_conn_sview, modG_pview. Qed.
#[local] Hint Resolve on_conn_sview : keeps.

Lemma clock_sview : keeps sview clock.
Proof. unfold clock. keep. Qed.
Lemma notify_sview f : keeps sview (notify f).
Proof. apply on_conn_sview. keep. Qed.
Lemma flag_sview {A} (f : globals → A) : keeps sview (flag f).
Proof. apply keeps_gets. Qed.
Lemma schedule_sview n : keeps sview (schedule_bytes n).
Proof. apply setg_sview. intros gl. apply set_w2w_rview. Qed.
#[local] Hint Resolve clock_sview notify_sview flag_sview schedule_sview : keeps.

Lemma setg_set_w2w_sview v : keeps sview (setg (set_w2w v)).
Proof. apply setg_sview. intros gl. apply set_w2w_rview. Qed.
#[local] Hint Resolve setg_set_w2w_sview : keeps.
#[local] Hint Extern 3 (keeps sview (setg _)) => (apply setg_sview; reflexivity) : keeps.
#[local] Hint Extern 3 (keeps sview (modify _)) => (apply keeps_modify; intros; reflexivity) : keeps.

Lemma set_target_sview n : keeps sview (set_target n).
Proof. unfold set_target. keep. Qed.
Lemma near_target_sview : keeps sview near_target.
Proof. unfold near_target. keep. Qed.
Lemma client_normal_sview : keeps sview client_normal.
Proof. unfold client_normal. keep. Qed.
Lemma server_normal_sview : keeps sview server_normal.
Proof. unfold server_normal. keep. Qed.
Lemma reset_gap_sview : keeps sview reset_gap.
Proof. unfold reset_gap. keep. Qed.
Lemma may_send_sview n i w : keeps sview (may_send n i w).
Proof. unfold may_send. keep. Qed.
#[local] Hint Resolve set_target_sview near_target_sview client_normal_sview server_normal_sview
  reset_gap_sview may_send_sview : keeps.

(** The parts of super-trace mode change the packet layer's gap, never the
    mode, the end flag or the samples. *)
Definition tview (s : shaper) := (tau s, rview (g (conn s))).

Lemma sview_tview {A} (m : M shaper A) : keeps sview m → keeps tview m.
Proof. exact (keeps_weaken sview (λ v, (v.1.1, v.2)) m). Qed.
#[local] Hint Resolve sview_tview : keeps.

Lemma set_packet_tau_tview t : keeps tview (on_conn (set_packet_tau t)).
Proof. intros s a s' [= <- <-]. done. Qed.
#[local] Hint Resolve set_packet_tau_tview : keeps.

Lemma wait_for_data_tview f e c : (∀ gl, rview (f gl) = rview gl) → keeps tview (wait_for_data f e c).
Proof. intros Hf. unfold wait_for_data. pose proof (sview_tview _ (setg_sview f Hf)). keep. Qed.

Lemma server_item_tview i n : keeps tview (server_item i n).
Proof. unfold server_item. keep. Qed.
Lemma client_item_tview i n : keeps tview (client_item i n).
Proof. unfold client_item. keep. Qed.

Lemma move_rview is_pos gl gl' : move_to_next_st_item is_pos gl = Ok gl' → rview gl' = rview gl.
Proof.
  unfold move_to_next_st_item. destruct (_ <? 0); [by intros [= <-]|]. intros E.
  apply bind_Ok in E as (t & _ & E). destruct (_ || _); [by injection E as <-|].
  apply bind_Ok in E as (i & _ & E). destruct (_ <? _); [|by injection E as <-].
  by apply bind_Ok in E as (q & _ & [= <-]).
Qed.
Lemma jump_rview r gl : rview (should_jump_trans_end r gl).2 = rview gl.
Proof. unfold should_jump_trans_end. repeat case_match; done. Qed.

Lemma setg_try_sview f : (∀ gl gl', f gl = Ok gl' → rview gl' = rview gl) → keeps sview (setg_try f).
Proof.
  intros Hf. apply on_conn_sview. intros s a s' E. unfold mbind, M_bind, gets, liftO in E. simpl in E.
  destruct (f (g s)) eqn:Ef; try discriminate. injection E as <- <-. unfold pview. rsimpl. by rewrite (Hf _ _ Ef).
Qed.

Lemma plays_on_sview i : keeps sview (plays_on i).
Proof.
  intros s a s' E. unfold plays_on in E. mstep_in E. destruct i as [i|]; [|by injection E as <- <-].
  destruct (_ =? 0); [by injection E as <- <-|]. do 2 mstep_in E. rsimpl_in E.
  match type of E with context [should_jump_trans_end ?r ?gl] =>
    pose proof (jump_rview r gl) as Hj; destruct (should_jump_trans_end r gl) as [j gl'] end.
  injection E as <- <-. unfold sview. rsimpl. simpl in Hj. by rewrite Hj.
Qed.
#[local] Hint Resolve plays_on_sview : keeps.


(** ** Modes *)

Definition the_mode (s : shaper) : Z := stmode (g (conn s)).
Definition the_end (s : shaper) : Z := transcript_end (g (conn s)).

(** The changes of mode that an output step may make; [te] tells that the
    other side has reached the end of its trace. *)
Inductive mode_step (te : Z) : Z → Z → Prop :=
| ms_stay m : mode_step te m m
| ms_leave_trace m : te = 1 → (m = 0 ∨ m = -1) → mode_step te 1 m
| ms_to_plain : mode_step te 0 (-1).

Definition mode_moves (s s' : shaper) : Prop :=
  the_end s' = the_end s ∧ mode_step (the_end s) (the_mode s) (the_mode s').

#[local] Instance mode_moves_preorder : PreOrder mode_moves.
Proof.
  split.
  - intros s. split; [done|constructor].
  - intros s1 s2 s3 [E1 M1] [E2 M2]. split; [congruence|]. rewrite E1 in M2.
    inversion M1 as [m Hm|m Ht [Hm|Hm] Hm'|Hm Hm'] ; subst; inversion M2; subst; try congruence.
    all: try (rewrite <- ?H0, <- ?H1, <- ?H2; constructor; auto; fail).
    all: try congruence.
    all: rewrite <- ?Hm in *; constructor; auto.
Qed.

(** The samples of the gaps. *)
Definition the_samples (s : shaper) := ((rview (g (conn s))).1.2, (rview (g (conn s))).2).

(** What an output step may do to modes and rates: besides the change of mode,
    [tau] is kept or reset, the samples are kept, and a step that ends in
    CS-BuFLO mode leaves the packet layer with the current rate. *)
Record steady (s s' : shaper) : Prop := {
  sd_mode : mode_moves s s';
  sd_samples : the_samples s' = the_samples s;
  sd_tau : tau s' = tau s ∨ tau s' = INITIAL_TAU;
  sd_rate : the_mode s' = 0 →
    packet_tau (conn s') = tau s' ∨ the_mode s = 0 ∧ packet_tau (conn s') = packet_tau (conn s) ∧ tau s' = tau s
}.

#[local] Instance steady_preorder : PreOrder steady.
Proof.
  split.
  - intros s. split; auto. reflexivity.
  - intros s1 s2 s3 [] []. split; [by etransitivity|congruence|intuition congruence|].
    intros E. destruct (sd_rate1 E) as [?|(E2 & H2 & H3)]; [by left|].
    destruct (sd_rate0 E2) as [?|(E1 & ? & ?)]; [left|right]; intuition congruence.
Qed.

Lemma tview_facts s s' : tview s' = tview s →
  the_mode s' = the_mode s ∧ the_end s' = the_end s ∧ the_samples s' = the_samples s ∧ tau s' = tau s.
Proof.
  intros E. pose proof (f_equal fst E) as E1. pose proof (f_equal snd E) as E2. simpl in E1, E2.
  split_and!; [|..|done].
  - exact (f_equal (λ v, v.1.1.1.1) E2).
  - exact (f_equal (λ v, v.1.1.1.2) E2).
  - unfold the_samples. by rewrite E2.
Qed.

Lemma sview_steady s s' : sview s' = sview s → steady s s'.
Proof.
  intros E. destruct (tview_facts s s' (f_equal (λ v, (v.1.1, v.2)) E)) as (E1 & E2 & E3 & E4).
  pose proof (f_equal (λ v, v.1.2) E) as E5. simpl in E5.
  split; [split; [done|rewrite E1; constructor]|done|auto|intros E6; right; split_and!; congruence].
Qed.
(** In super-trace mode the packet layer's gap does not matter. *)
Lemma tview_steady s s' : the_mode s ≠ 0 → tview s' = tview s → steady s s'.
Proof.
  intros H0 E. destruct (tview_facts s s' E) as (E1 & E2 & E3 & E4).
  split; [split; [done|rewrite E1; constructor]|done|auto|congruence].
Qed.

Lemma steady_sview {A} (m : M shaper A) : keeps sview m → moves steady m.
Proof. apply moves_keeps, sview_steady. Qed.

(** The way back to plain mode. *)
Lemma go_plain (go : M shaper unit) s a s' :
  keeps sview go → (_ ← go; setg (set_stmode (-1))) s = Ok (a, s') →
  the_mode s' = -1 ∧ the_end s' = the_end s ∧ the_samples s' = the_samples s ∧ tau s' = tau s.
Proof.
  intros Hgo E. apply M_bind_inv in E as (u & s1 & E1 & E). injection E as <- <-.
  apply (sview_tview _ Hgo) in E1. destruct (tview_facts _ _ E1) as (_ & ? & ? & ?). done.
Qed.

Lemma leave_steady s s' :
  the_mode s = 1 → the_end s = 1 → the_mode s' = -1 ∧ the_end s' = the_end s ∧
  the_samples s' = the_samples s ∧ tau s' = tau s → steady s s'.
Proof.
  intros M E (M' & E' & S' & T'). split; [|done|auto|lia]. split; [done|]. rewrite M, M'. by constructor; auto.
Qed.

Lemma trace_end_steady go now n s a s' :
  keeps sview go → the_mode s = 1 → trace_end go now n s = Ok (a, s') → steady s s'.
Proof.
  intros Hgo Hm E. unfold trace_end in E. do 5 mstep_in E.
  apply M_bind_inv in E as (u & s1 & E1 & E). do 2 mstep_in E.
  assert (T1 : tview s1 = tview s).
  { match type of E1 with _ ?s0 = _ => change (tview s) with (tview s0) end. revert E1. 
    match goal with |- ?m ?s0 = _ → _ => assert (keeps tview m) by keep end. eauto. }
  clear E1. destruct (tview_facts _ _ T1) as (Em & Ee & _). rewrite Hm in Em.
  transitivity s1; [apply tview_steady; [lia|done]|].
  destruct (Z.eqb_spec (transcript_end (g (conn s1))) 1) as [Hte|]; [|by injection E as <- <-].
  destruct (Z.eqb_spec (w2w (g (conn s1))) 0); [|by injection E as <- <-]. cbn [andb when] in E.
  destruct (_ =? 1); cbn [negb] in E; [eapply leave_steady, go_plain; eauto|].
  mstep_in E. destruct (_ =? 0); [injection E as <- <-; by apply tview_steady; [lia|]|].
  destruct (0 <? n).
  - do 5 mstep_in E. injection E as <- <-. split; [|done|by right|by left].
    split; [done|]. rewrite Em. constructor; [done|by left].
  - destruct (_ <=? _); [|by injection E as <- <-]. eapply leave_steady, go_plain; eauto.
Qed.

(** An item of the trace, or its end. *)
Lemma server_trace_steady now n s a s' :
  the_mode s = 1 → server_trace now n s = Ok (a, s') → steady s s'.
Proof.
  intros Hm E. unfold server_trace in E. mstep_in E. apply M_bind_inv in E as (u & s1 & E1 & E).
  assert (T1 : sview s1 = sview s).
  { destruct (_ =? 0); [|by injection E1 as <- <-].
    eapply (setg_try_sview (move_to_next_st_item 1)); eauto. intros. by eapply move_rview. }
  clear E1. apply sview_steady in T1 as S1. mstep_in E. apply M_bind_inv in E as (go & s2 & E2 & E).
  apply plays_on_sview in E2. rewrite T1 in E2. apply sview_steady in E2 as S2.
  assert (M2 : the_mode s2 = 1).
  { destruct (tview_facts s s2 (f_equal (λ v, (v.1.1, v.2)) E2)) as (-> & _). done. }
  transitivity s2; [done|].
  destruct (cur_item _) as [i|]; [destruct go|].
  - apply tview_steady; [lia|]. by eapply server_item_tview.
  - eapply trace_end_steady; eauto. apply server_normal_sview.
  - eapply trace_end_steady; eauto. apply server_normal_sview.
Qed.

Lemma client_trace_steady now n s a s' :
  the_mode s = 1 → client_trace now n s = Ok (a, s') → steady s s'.
Proof.
  intros Hm E. unfold client_trace in E. mstep_in E. apply M_bind_inv in E as (u & s1 & E1 & E).
  assert (T1 : sview s1 = sview s).
  { destruct (_ =? 0); [|by injection E1 as <- <-].
    eapply (setg_try_sview (move_to_next_st_item 0)); eauto. intros. by eapply move_rview. }
  clear E1. do 2 mstep_in E. apply M_bind_inv in E as (go & s2 & E2 & E).
  apply plays_on_sview in E2. change (sview s1 <| last_item := _ |>) with (sview s1) in E2.
  rewrite T1 in E2. apply sview_steady in E2 as S2.
  assert (M2 : the_mode s2 = 1).
  { destruct (tview_facts s s2 (f_equal (λ v, (v.1.1, v.2)) E2)) as (-> & _). done. }
  transitivity s2; [done|].
  destruct (cur_item _) as [i|]; [destruct go|].
  - apply tview_steady; [lia|]. by eapply client_item_tview.
  - eapply trace_end_steady; eauto. apply client_normal_sview.
  - eapply trace_end_steady; eauto. apply client_normal_sview.
Qed.

(** The end of an idle period in CS-BuFLO mode. *)
Lemma to_plain_steady s s' :
  the_mode s = 0 → the_mode s' = -1 → the_end s' = the_end s → the_samples s' = the_samples s →
  tau s' = INITIAL_TAU → steady s s'.
Proof. intros M M' E' S' T'. split; [|done|auto|lia]. split; [done|]. rewrite M, M'. constructor. Qed.

(** Setting [tau] and code that keeps the rest of the view. *)
Definition mview (s : shaper) := rview (g (conn s)).
Lemma tview_mview {A} (m : M shaper A) : keeps tview m → keeps mview m.
Proof. exact (keeps_weaken tview snd m). Qed.

Lemma sview_mview {A} (m : M shaper A) : keeps sview m → keeps mview m.
Proof. exact (keeps_weaken sview snd m). Qed.
#[local] Hint Resolve tview_mview sview_mview : keeps.

(** The next step of [E], with what it keeps. *)
Ltac minv v E :=
  let u := fresh "u" in let s := fresh "s" in let E' := fresh "E" in let K := fresh "K" in
  apply M_bind_inv in E as (u & s & E' & E);
  match type of E' with ?m ?s0 = _ => assert (K : keeps v m) by keep; apply K in E'; clear K end.

Lemma mview_facts s s' : mview s' = mview s → the_mode s' = the_mode s ∧ the_end s' = the_end s ∧ the_samples s' = the_samples s.
Proof.
  intros E. split_and!; [exact (f_equal (λ v, v.1.1.1.1) E) | exact (f_equal (λ v, v.1.1.1.2) E)|].
  exact (f_equal (λ v, (v.1.2, v.2)) E).
Qed.

(** From CS-BuFLO mode back to plain mode with the initial rate. *)
Lemma plain_steady s s1 s2 s' :
  the_mode s = 0 → mview s1 = mview s → tview s2 = tview (s1 <| tau := INITIAL_TAU |>) →
  setg (set_stmode (-1)) s2 = Ok (tt, s') → steady s s'.
Proof.
  intros Hm V T [= <-]. pose proof (f_equal snd T : mview s2 = mview s1) as V2. rewrite V in V2.
  destruct (mview_facts _ _ V2) as (_ & E & C). apply to_plain_steady; try done. exact (f_equal fst T).
Qed.

Lemma server_padded_steady s s' : the_mode s = 0 → server_padded s = Ok (tt, s') → steady s s'.
Proof.
  intros Hm E1. unfold server_padded in E1. do 4 minv mview E1.
  apply M_bind_inv in E1 as (u8 & s7 & [= _ <-] & E1). do 4 minv tview E1.
  refine (plain_steady s s3 _ _ Hm _ _ E1); [rewrite E3, E2, E0, E|rewrite E7, E6, E5, E4]; reflexivity.
Qed.

Lemma client_padded_steady s s' : the_mode s = 0 → client_padded s = Ok (tt, s') → steady s s'.
Proof.
  intros Hm E1. unfold client_padded in E1. do 4 minv mview E1.
  apply M_bind_inv in E1 as (u8 & s7 & [= _ <-] & E1). do 2 minv tview E1.
  refine (plain_steady s s3 _ _ Hm _ _ E1); [rewrite E3, E2, E0, E|rewrite E5, E4]; reflexivity.
Qed.

(** The idle period: the padding may be complete; then the target is set. *)
Lemma idle_steady (m : M shaper unit) c n s a s' :
  (∀ s s', the_mode s = 0 → m s = Ok (tt, s') → steady s s') →
  the_mode s = 0 → (near ← near_target; _ ← when (c && near) m; set_target n) s = Ok (a, s') → steady s s'.
Proof.
  intros Hp Hm E. apply M_bind_inv in E as (b & s0 & E0 & E).
  apply (steady_sview _ near_target_sview) in E0 as S0. apply near_target_sview in E0.
  destruct (tview_facts s s0 (f_equal (λ v, (v.1.1, v.2)) E0)) as (M0 & _). rewrite Hm in M0.
  apply M_bind_inv in E as ([] & s1 & E1 & E). apply (steady_sview _ (set_target_sview n)) in E.
  transitivity s0; [done|]. transitivity s1; [|done].
  destruct (c && b); [by apply Hp|by injection E1 as <-].
Qed.

Lemma csbuflo_steady (m : M shaper unit) n s a s' :
  (∀ s a s', the_mode s = 0 → m s = Ok (a, s') → steady s s') →
  csbuflo_step m n s = Ok (a, s') → steady s s'.
Proof.
  intros Hp E. unfold csbuflo_step in E. mstep_in E.
  destruct (Z.eqb_spec (stmode (g (conn s))) 0) as [Hm|]; [|by injection E as <- <-]. cbn [when] in E.
  do 2 minv sview E. do 3 mstep_in E. destruct (channel_idle _ _ _ _ _) as [c i]. mstep_in E.
  set (s2 := s1 <| idle_start := i |>) in *.
  assert (V : sview s2 = sview s) by (transitivity (sview s0); [exact E1|exact E0]).
  transitivity s2; [by apply sview_steady|].
  destruct (negb _); [|by injection E as <- <-]. eapply Hp; [|exact E].
  destruct (tview_facts s s2 (f_equal (λ v, (v.1.1, v.2)) V)) as (-> & _). exact Hm.
Qed.

(** The request to unload starts CS-BuFLO mode afresh. *)
Definition in_step (s : shaper) : Prop :=
  the_mode s = 0 → packet_tau (conn s) = tau s ∨ unload_flag (g (conn s)) = 1.

Lemma handle_unload_cases now s a s' :
  handle_unload now s = Ok (a, s') →
  the_mode s' = the_mode s ∧ the_end s' = the_end s ∧ the_samples s' = the_samples s ∧
  (tau s' = tau s ∨ tau s' = INITIAL_TAU) ∧
  (in_step s → the_mode s' = 0 → packet_tau (conn s') = tau s').
Proof.
  intros E. unfold handle_unload in E. mstep_in E.
  destruct (Z.eqb_spec (unload_flag (g (conn s))) 1) as [Hu|Hu].
  - cbn [when] in E. mstep_in E. destruct (Z.eqb_spec (stmode (g (conn s))) 0) as [Hm|Hm].
    + mstep_in E. injection E as <- <-. split_and!; try done. by right.
    + mstep_in E. injection E as <- <-. split_and!; try done. by left.
  - injection E as <- <-. split_and!; try done; [by left|]. intros Hs Hm. by destruct (Hs Hm).
Qed.

(** ** The samples *)

Definition cview (s : shaper) := (tau s, packet_tau (conn s), the_mode s, the_end s).
Definition flags2 (gl : globals) := (stmode gl, transcript_end gl).

Lemma push_tau_flags t gl gl' : push_tau t gl = Ok gl' → flags2 gl' = flags2 gl.
Proof. intros E. by apply bind_Ok in E as (x & _ & [= <-]). Qed.
Lemma insert_time_flags t gl gl' : insert_time t gl = Ok gl' → flags2 gl' = flags2 gl.
Proof. intros E. by apply bind_Ok in E as (x & _ & [= <-]). Qed.
Lemma push_intervals_flags a b c l : ∀ gl gl', push_intervals a b c l gl = Ok gl' → flags2 gl' = flags2 gl.
Proof.
  induction l as [|d l IH]; intros gl gl' E; [by injection E as <-|].
  apply bind_Ok in E as (g1 & E1 & E). rewrite (IH _ _ E). by apply push_tau_flags in E1.
Qed.
Lemma update_tau_interval_flags a b c d gl gl' : update_tau_interval a b c d gl = Ok gl' → flags2 gl' = flags2 gl.
Proof.
  unfold update_tau_interval. destruct (b <=? a); [by intros [= <-]|]. intros E.
  apply bind_Ok in E as (g1 & E1 & E). apply bind_Ok in E as (ivs & _ & E).
  assert (F1 : flags2 g1 = flags2 gl).
  { destruct (0 <? c); [by apply insert_time_flags in E1|by injection E1 as <-]. }
  rewrite <- F1. destruct ivs; [apply push_tau_flags in E|apply push_intervals_flags in E]; done.
Qed.

Lemma setg_try_inv f s a s' :
  setg_try f s = Ok (a, s') → ∃ gl, f (g (conn s)) = Ok gl ∧ s' = s <| conn := (conn s) <| g := gl |> |>.
Proof.
  intros E. apply on_conn_inv in E as (c & E & ->). mstep_in E. unfold mbind, M_bind, liftO in E. simpl in E.
  destruct (f (g (conn s))) as [gl| | | | |]; try discriminate. injection E as _ <-. eauto.
Qed.

(** The rate is one of the powers of two, the samples are well formed, and at
    most [k] times are waiting to be turned into samples. *)
Record rate_ok (k : Z) (s : shaper) : Prop := {
  ro_tau : rate (tau s);
  ro_wf : tau_wf (g (conn s));
  ro_count : time_size (g (conn s)) ≤ k
}.

Lemma rate_ok_samples k s s' :
  the_samples s' = the_samples s → rate (tau s') → rate_ok k s → rate_ok k s'.
Proof.
  intros E Ht [_ W Hk].
  pose proof (f_equal (λ v, v.1.1.1) E : tau_arr (g (conn s')) = tau_arr (g (conn s))) as E1.
  pose proof (f_equal (λ v, v.1.1.2) E : tau_index (g (conn s')) = tau_index (g (conn s))) as E2.
  pose proof (f_equal (λ v, v.1.2) E : tau_size (g (conn s')) = tau_size (g (conn s))) as E3.
  pose proof (f_equal (λ v, v.2.1.1) E : time_arr (g (conn s')) = time_arr (g (conn s))) as E4.
  pose proof (f_equal (λ v, v.2.1.2) E : time_index (g (conn s')) = time_index (g (conn s))) as E5.
  pose proof (f_equal (λ v, v.2.2) E : time_size (g (conn s')) = time_size (g (conn s))) as E6.
  split; [done| |by rewrite E6]. destruct W. split; rewrite ?E1, ?E2, ?E3, ?E4, ?E5, ?E6; done.
Qed.

(** A step that uses up at most [d] of the room for times, and leaves modes
    and rates alone. *)
Definition sampling (d : Z) (s s' : shaper) : Prop :=
  cview s' = cview s ∧ ∀ k, k + d < INT_MAX → rate_ok k s → rate_ok (k + d) s'.

Lemma rate_ok_mono k k' s : k ≤ k' → rate_ok k s → rate_ok k' s.
Proof. intros Hk []. split; [done..|lia]. Qed.

Lemma sview_cview s s' : sview s' = sview s → cview s' = cview s.
Proof.
  intros V. exact (f_equal (λ v : Z * Z * _, (v.1.1, v.1.2, v.2.1.1.1.1, v.2.1.1.1.2)) V).
Qed.

Lemma sview_sampled s s' : sview s' = sview s → sampling 0 s s'.
Proof.
  intros E. split; [by apply sview_cview|]. intros k Hk Hr. rewrite Z.add_0_r.
  destruct (tview_facts s s' (f_equal (λ v, (v.1.1, v.2)) E)) as (_ & _ & C & T).
  eapply rate_ok_samples; [done| |done]. rewrite T. apply Hr.
Qed.
Lemma sview_sampling {A} (m : M shaper A) : keeps sview m → moves (sampling 0) m.
Proof. intros Hm s a s' E. by eapply sview_sampled, Hm. Qed.

Lemma sampling_trans d e s1 s2 s3 :
  0 ≤ d → 0 ≤ e → sampling d s1 s2 → sampling e s2 s3 → sampling (d + e) s1 s3.
Proof.
  intros Hd He [E1 H1] [E2 H2]. split; [congruence|]. intros k Hk Hr.
  rewrite Z.add_assoc. apply H2; [lia|]. apply H1; [lia|done].
Qed.

Lemma update_sampling a b c d s u s' :
  setg_try (update_tau_interval a b c d) s = Ok (u, s') → sampling 0 s s'.
Proof.
  intros E. apply setg_try_inv in E as (gl & E & ->). apply update_tau_interval_flags in E as F. split.
  - unfold cview, the_mode, the_end. rsimpl. apply (f_equal fst) in F as F1. apply (f_equal snd) in F as F2.
    simpl in F1, F2. by rewrite F1, F2.
  - intros k Hk [Ht W Hc]. destruct (update_tau_interval_wf _ _ _ _ _ _ E W) as [W' Hc']; [lia|].
    split; rsimpl; [done..|lia].
Qed.

Lemma insert_sampling t s u s' : setg_try (insert_time t) s = Ok (u, s') → sampling 1 s s'.
Proof.
  intros E. apply setg_try_inv in E as (gl & E & ->). apply insert_time_flags in E as F. split.
  - unfold cview, the_mode, the_end. rsimpl. apply (f_equal fst) in F as F1. apply (f_equal snd) in F as F2.
    simpl in F1, F2. by rewrite F1, F2.
  - intros k Hk [Ht W Hc]. destruct (insert_time_wf _ _ _ E W) as [W' Hc']; [lia|].
    split; rsimpl; [done..|lia].
Qed.

#[local] Instance sampling0_preorder : PreOrder (sampling 0).
Proof.
  split.
  - intros s. split; [done|]. intros k _ Hr. by rewrite Z.add_0_r.
  - intros s1 s2 s3 H1 H2. change 0 with (0 + 0). by eapply sampling_trans.
Qed.

Lemma sampling_0_l d s1 s2 s3 : 0 ≤ d → sampling 0 s1 s2 → sampling d s2 s3 → sampling d s1 s3.
Proof. intros Hd H1 H2. change d with (0 + d). by eapply sampling_trans. Qed.

Lemma measure_gap_sampling c ts sent junk s u s' :
  measure_gap c ts sent junk s = Ok (u, s') → sampling 1 s s'.
Proof.
  intros E. unfold measure_gap in E. do 4 mstep_in E.
  apply M_bind_inv in E as (u1 & s1 & E1 & E). apply (sampling_0_l 1 s s1); [done| |].
  { destruct (_ && _); [|by injection E1 as _ <-; reflexivity]. cbn [when] in E1. mstep_in E1.
    apply M_bind_inv in E1 as (u2 & s2 & E2 & E1). transitivity s2; [by eapply update_sampling|].
    revert E1. apply sview_sampling. keep. }
  clear E1. mstep_in E. apply M_bind_inv in E as (u2 & s2 & E2 & E). apply (sampling_0_l 1 s1 s2); [done| |].
  { revert E2. apply sview_sampling. keep. }
  clear E2. apply M_bind_inv in E as (u3 & s3 & E3 & E). apply (sampling_0_l 1 s2 s3); [done| |].
  { revert E3. apply sview_sampling. keep. }
  clear E3. mstep_in E. destruct (_ <=? _).
  - cbn [when] in E. apply M_bind_inv in E as (u4 & s4 & E4 & E). apply (sampling_0_l 1 s3 s4); [done| |].
    { revert E4. apply sview_sampling. keep. }
    by eapply insert_sampling.
  - injection E as _ <-. change 1 with (0 + 1). eapply sampling_trans; [done..|reflexivity|].
    split; [done|]. intros k Hk Hr. by eapply rate_ok_mono, Hr; lia.
Qed.

Lemma adapt_rate_cases s u s' :
  adapt_rate s = Ok (u, s') →
  the_mode s' = the_mode s ∧ the_end s' = the_end s ∧ packet_tau (conn s') = tau s' ∧
  ∀ k, rate_ok k s → rate_ok k s'.
Proof.
  intros E. unfold adapt_rate in E. do 4 mstep_in E.
  apply M_bind_inv in E as ([[t b] gl] & s1 & E1 & E). apply bind_Ok in E1 as (v & E1 & [= Ev Es]). subst v s1.
  injection E as _ <-.
  assert (F : flags2 gl = flags2 (g (conn s))).
  { unfold update_tau_median in E1. destruct (_ <? _); [by injection E1 as _ _ <-|].
    apply bind_Ok in E1 as (m & _ & E1). by apply bind_Ok in E1 as (m' & _ & [= _ _ <-]). }
  split_and!; [exact (f_equal fst F)|exact (f_equal snd F)|done|].
  intros k [Ht W Hk]. destruct (update_tau_median_wf _ _ _ _ _ _ _ E1 W Ht) as (? & ? & Hs).
  split; rsimpl; try done. by rewrite Hs.
Qed.

Lemma output_len_pview : keeps pview output_buffer_len.
Proof. unfold output_buffer_len, getS. keep. Qed.
#[local] Hint Resolve output_len_pview keeps_gets : keeps.

Lemma write_and_account_cases c fuel n inc s u s' :
  write_and_account c fuel n inc s = Ok (u, s') →
  the_mode s' = the_mode s ∧ the_end s' = the_end s ∧ (the_mode s = 0 → packet_tau (conn s') = tau s') ∧
  ∀ k, k + 1 < INT_MAX → rate_ok k s → rate_ok (k + 1) s'.
Proof.
  intros E. unfold write_and_account in E.
  minv sview E. minv sview E. minv sview E. minv sview E. minv sview E. minv sview E. minv sview E. minv sview E.
  assert (V : sview s7 = sview s) by (by rewrite E7, E6, E5, E4, E3, E2, E1, E0).
  clear E7 E6 E5 E4 E3 E2 E1 E0. mstep_in E. apply M_bind_inv in E as (v & s8 & E1 & E).
  assert (S8 : sampling 1 s s8).
  { apply (sampling_0_l 1 s s7); [done| |].
    - by apply sview_sampled.
    - destruct (_ && _); [by eapply measure_gap_sampling|]. injection E1 as _ <-.
      split; [done|]. intros k Hk. apply rate_ok_mono. lia. }
  destruct S8 as [C8 R8]. apply (f_equal (λ v, v.1.2)) in C8 as M8. apply (f_equal snd) in C8 as F8.
  simpl in M8, F8. mstep_in E. fold (the_mode s8) in E. rewrite M8 in E.
  destruct (Z.eqb_spec (the_mode s) 0).
  - apply adapt_rate_cases in E as (M' & F' & P' & R'). split_and!; [congruence..|done|auto].
  - injection E as _ <-. done.
Qed.

(** ** The theorems *)

(** One output step of the server or of the client. *)
Definition output_step (s s' : shaper) : Prop :=
  ∃ fuel writable, process_output fuel writable s = Ok (tt, s') ∨ client_output fuel writable s = Ok (tt, s').

(** Both sides: the request to unload, the choice of what to send, and the
    write unless it is not yet time. *)
Definition phases (s s' : shaper) : Prop :=
  ∃ now s0 s1 s2, sview s0 = sview s ∧ handle_unload now s0 = Ok (tt, s1) ∧ steady s1 s2 ∧
    (s' = s2 ∨ ∃ c fuel n inc, write_and_account c fuel n inc s2 = Ok (tt, s')).

Lemma not_sending_sview n : keeps sview (not_sending n).
Proof. apply keeps_modify. intros s. by destruct (_ <? _). Qed.
#[local] Hint Resolve not_sending_sview : keeps.

(** The step before the choice. *)
Lemma trace_first (m : M shaper unit) s u s' :
  (∀ s a s', the_mode s = 1 → m s = Ok (a, s') → steady s s') →
  (md ← flag stmode; when (md =? 1) m) s = Ok (u, s') → steady s s'.
Proof.
  intros Hm E. mstep_in E. destruct (Z.eqb_spec (stmode (g (conn s))) 1); [by eapply Hm|].
  by injection E as _ <-.
Qed.

Lemma send_phase (idle : M shaper unit) c fuel n inc s s' :
  (∀ s a s', the_mode s = 0 → idle s = Ok (a, s') → steady s s') →
  (_ ← modify (λ s, s <| truly_idle := 0 |>); _ ← csbuflo_step idle n; write_and_account c fuel n inc) s
  = Ok (tt, s') →
  ∃ s2, steady s s2 ∧ write_and_account c fuel n inc s2 = Ok (tt, s').
Proof.
  intros Hi E. minv sview E. apply M_bind_inv in E as (u1 & s2 & E2 & E). exists s2. split; [|done].
  transitivity s0; [by apply sview_steady|]. by eapply csbuflo_steady.
Qed.

Lemma server_idle_steady n s a s' : the_mode s = 0 → server_idle n s = Ok (a, s') → steady s s'.
Proof. intros Hm E. by eapply idle_steady, E; [apply server_padded_steady|]. Qed.
Lemma client_idle_steady n s a s' : the_mode s = 0 → client_idle n s = Ok (a, s') → steady s s'.
Proof. intros Hm E. by eapply idle_steady, E; [apply client_padded_steady|]. Qed.

Lemma server_phases fuel w s s' : process_output fuel w s = Ok (tt, s') → phases s s'.
Proof.
  intros E. unfold process_output in E. minv sview E.
  apply M_bind_inv in E as ([] & s1 & E1 & E). exists u, s0, s1. minv sview E. minv sview E. minv sview E.
  assert (V : sview s4 = sview s1) by (by rewrite E4, E3, E2). apply sview_steady in V.
  destruct u2; [|exists s'; split_and!; [done..| |by left]; transitivity s4; [done|];
                  by apply sview_steady, (not_sending_sview _ _ _ _ E)].
  rewrite M_bind_assoc in E. apply M_bind_inv in E as (u3 & s5 & E5 & E).
  apply trace_first in E5; [|intros; by eapply server_trace_steady].
  destruct w; [|injection E as <-; exists s5; split_and!; [done..|by transitivity s4|by left]].
  apply send_phase in E as (s6 & H6 & E); [|intros; by eapply server_idle_steady].
  exists s6. split_and!; [done..|by transitivity s4; [|transitivity s5]|right; by repeat eexists].
Qed.

Lemma client_phases fuel w s s' : client_output fuel w s = Ok (tt, s') → phases s s'.
Proof.
  intros E. unfold client_output in E. minv sview E.
  apply M_bind_inv in E as ([] & s1 & E1 & E). exists u, s0, s1. do 4 minv sview E.
  assert (V : sview s5 = sview s1) by (by rewrite E5, E4, E3, E2). apply sview_steady in V.
  destruct u3; [|exists s'; split_and!; [done..| |by left]; transitivity s5; [done|];
                  by apply sview_steady, (not_sending_sview _ _ _ _ E)].
  rewrite M_bind_assoc in E. apply M_bind_inv in E as (u4 & s6 & E6 & E).
  apply trace_first in E6; [|intros; by eapply client_trace_steady].
  apply send_phase in E as (s7 & H7 & E); [|intros; by eapply client_idle_steady].
  exists s7. split_and!; [done..|by transitivity s5; [|transitivity s6]|right; by repeat eexists].
Qed.

Lemma output_phases s s' : output_step s s' → phases s s'.
Proof. intros (fuel & w & [E|E]); [by eapply server_phases|by eapply client_phases]. Qed.

(** C7: the modes of an output step, on both sides.  The end flag of the trace
    is left alone.  Plain mode is never left by an output step; CS-BuFLO mode
    is kept or left for plain mode; super-trace mode is left, for one of the
    other two, only if the other side has announced the end of its trace. *)
Theorem output_modes s s' : output_step s s' → mode_moves s s'.
Proof.
  intros E. apply output_phases in E as (now & s0 & s1 & s2 & V & E1 & S2 & E2).
  apply sview_steady in V as [V _ _ _]. apply handle_unload_cases in E1 as (M1 & F1 & _).
  destruct S2 as [S2 _ _ _].
  assert (mode_moves s s2).
  { transitivity s0; [done|]. transitivity s1; [|done]. split; [done|]. rewrite M1. constructor. }
  destruct E2 as [->|(c & fuel & n & inc & E2)]; [done|].
  apply write_and_account_cases in E2 as (M2 & F2 & _). transitivity s2; [done|].
  split; [done|]. rewrite M2. constructor.
Qed.

(** C8: the rate invariant, on both sides.  The sending gap [tau] is one of
    4096, 8192, 16384 and 32768 microseconds and the ring buffers of the
    samples are well formed; in CS-BuFLO mode the packet layer paces with
    exactly this gap when the step returns.  A step needs at most one more
    place for a sending time. *)
Theorem output_rate k s s' :
  rate_ok k s → in_step s → k + 1 < INT_MAX → output_step s s' →
  rate_ok (k + 1) s' ∧ in_step s' ∧ (the_mode s' = 0 → packet_tau (conn s') = tau s').
Proof.
  intros Hr Hi Hk E. apply output_phases in E as (now & s0 & s1 & s2 & V & E1 & S2 & E2).
  assert (R0 : rate_ok k s0).
  { apply sview_sampled in V as [_ V]. rewrite <- (Z.add_0_r k). apply V; [lia|done]. }
  assert (I0 : in_step s0).
  { intros M. destruct (tview_facts s s0 (f_equal (λ v, (v.1.1, v.2)) V)) as (EM & _ & _ & ET).
    pose proof (f_equal (λ v, v.1.2) V) as EP. pose proof (f_equal (λ v, v.2.1.1.2) V) as EU. simpl in EP, EU.
    rewrite EM in M. destruct (Hi M); [left|right]; congruence. }
  apply handle_unload_cases in E1 as (M1 & _ & C1 & T1 & P1).
  assert (initial : rate INITIAL_TAU) by (by exists 13).
  assert (R1 : rate_ok k s1).
  { eapply rate_ok_samples; [done| |done]. destruct T1 as [->| ->]; [apply R0|done]. }
  destruct S2 as [_ C2 T2 P2].
  assert (R2 : rate_ok k s2).
  { eapply rate_ok_samples; [done| |done]. destruct T2 as [->| ->]; [apply R1|done]. }
  assert (I2 : the_mode s2 = 0 → packet_tau (conn s2) = tau s2).
  { intros M2. destruct (P2 M2) as [?|(M & -> & ->)]; [done|]. apply P1; [done|congruence]. }
  assert (Hs : rate_ok (k + 1) s' ∧ (the_mode s' = 0 → packet_tau (conn s') = tau s')).
  { destruct E2 as [->|(c & fuel & n & inc & E2)]; [split; [by eapply rate_ok_mono, R2; lia|done]|].
    apply write_and_account_cases in E2 as (M' & _ & P' & R'). split; [by apply R'|].
    intros M. apply P'. congruence. }
  destruct Hs as [? P']. split_and!; [done| |done]. intros M. left. by apply P'.
Qed.

(** ** Waiting for the other side *)

(** The state in which an item waits, and in which it is released. *)
Definition waits (start : Z) (s : shaper) : shaper :=
  s <| waiting_for_a_packet := 1 |> <| deadlock_start := start |> <| conn := (conn s) <| packet_tau := 0 |> |>.
Definition released (f : globals → globals) (s : shaper) : shaper :=
  s <| conn := (conn s) <| g := f (g (conn s)) |> |> <| waiting_for_a_packet := 0 |> <| deadlock_start := 0 |>.
Definition ticked (s : shaper) : shaper := s <| conn := (conn s) <| n_time := S (n_time (conn s)) |> |>.

(** What the waiting decides: the bytes to send and the next state. *)
Definition wait_result (f : globals → globals) (e c : Z) (s : shaper) : Z * shaper :=
  let got := received_sofar (g (conn s)) in
  if e <=? got then
    (c, released (λ gl, if 0 <? e then gl <| received_sofar := got - e |> else gl) s)
  else
    let now := u64 (e_time (world (conn s)) (n_time (conn s))) in
    let start := if deadlock_start s =? 0 then now else deadlock_start s in
    if u64 (start + 5000000) <=? now then (c, released f (ticked s)) else (0, waits start (ticked s)).

Lemma wait_for_data_spec f e c s : wait_for_data f e c s = Ok ((wait_result f e c s).1, (wait_result f e c s).2).
Proof.
  rewrite <- surjective_pairing. unfold wait_for_data, wait_result. mstep. destruct (Z.ltb_spec (received_sofar (g (conn s))) e).
  - rewrite (proj2 (Z.leb_gt _ _)) by lia. do 3 mstep. rsimpl. set (now := u64 (_ + 5000000)).
    set (start := if _ =? 0 then _ else _). destruct (now <=? _).
    + cbn [when]. mstep. mstep. reflexivity.
    + cbn [when]. mstep. mstep. reflexivity.
  - rewrite (proj2 (Z.leb_le _ _)) by lia. mstep. destruct (0 <? e); cbn [when]; mstep; [reflexivity|by destruct s as [[]]].
Qed.

Lemma set_w2w_nonneg v gl : 0 ≤ v → set_w2w v gl = gl <| w2w := v |>.
Proof. intros Hv. unfold set_w2w. by rewrite (proj2 (Z.ltb_ge v 0)) by lia. Qed.

(** Waiting for the other side.  After the first burst, an item of the
    trace is released, and its bytes are added to what is to be written at the
    item's own gap, as soon as the expected bytes have been received (which
    are then taken off the account) or five seconds after the item first
    waited; until then nothing is added, and the moment from which the five
    seconds count does not move. *)
Theorem server_item_waits item n s :
  let got := received_sofar (g (conn s)) in
  let now := u64 (e_time (world (conn s)) (n_time (conn s))) in
  let start := if deadlock_start s =? 0 then now else deadlock_start s in
  first_client (g (conn s)) ≠ 1 → 0 ≤ psize item → 0 ≤ w2w (g (conn s)) → 0 < expected item →
  0 ≤ start < 2 ^ 64 - 5000000 →
  ∃ s', server_item item n s = Ok (tt, s') ∧
    if (expected item <=? got) || (start + 5000000 <=? now) then
      w2w (g (conn s')) = w2w (g (conn s)) + psize item ∧ packet_tau (conn s') = ptime item ∧
      waiting_for_a_packet s' = 0 ∧ deadlock_start s' = 0 ∧
      received_sofar (g (conn s')) = (if expected item <=? got then got - expected item else got)
    else
      w2w (g (conn s')) = w2w (g (conn s)) ∧ packet_tau (conn s') = 0 ∧
      waiting_for_a_packet s' = 1 ∧ deadlock_start s' = start ∧ received_sofar (g (conn s')) = got.
Proof.
  intros got now start Hf Hp Hw He Hs. unfold server_item. mstep. mstep. rsimpl.
  rewrite (proj2 (Z.eqb_neq _ _) Hf). mstep. rewrite (M_bind_Ok _ _ _ _ _ (wait_for_data_spec _ _ _ _)).
  unfold wait_result. rsimpl. fold got now. fold start. rewrite (proj2 (Z.ltb_lt 0 (expected item))) by done.
  unfold schedule_bytes. destruct (Z.leb_spec (expected item) got).
  - eexists. split; [reflexivity|]. simpl. rsimpl. rewrite set_w2w_nonneg by (rsimpl; lia). by rsimpl.
  - rewrite u64_small by lia. destruct (start + 5000000 <=? now); eexists; (split; [reflexivity|]); simpl; rsimpl.
    + rewrite set_w2w_nonneg by (rsimpl; lia). by rsimpl.
    + rewrite set_w2w_nonneg by (rsimpl; lia). rsimpl. by rewrite Z.add_0_r.
Qed.

(** ** The padding goal *)

(** the padding goal of an idle channel.  The number of bytes to send in
    all is the smallest multiple, no smaller than the number already sent, of
    the smallest power of two no smaller than the amount of real data (2 for
    none): it reveals the amount of data only up to a power of two.  When less
    than a packet is missing, all that is buffered is written at once. *)
Theorem set_target_goal n s :
  let total := total_sent_bytes s in
  let real := cur_total_realincoming_bytes s in
  let base := if real =? 0 then 2 else 2 ^ Z.log2_up real in
  0 < total ≤ INT_MAX → 0 ≤ real ≤ INT_MAX → 0 ≤ n →
  ∃ s', set_target n s = Ok (tt, s') ∧
    (∃ k, target_sent_bytes s' = base * k) ∧ total ≤ target_sent_bytes s' < total + base ∧
    (real ≤ base ∧ (2 < real → base < 2 * real)) ∧
    w2w (g (conn s')) =
      (if target_sent_bytes s' - total <? TARGET_QUEUE_LEN then n else w2w (g (conn s))).
Proof.
  intros total real base Ht Hr Hn.
  assert (Hbase : 0 < base ≤ 2 ^ 31 ∧ real ≤ base ∧ (2 < real → base < 2 * real)).
  { unfold base. destruct (Z.eqb_spec real 0); [lia|].
    assert (Z.log2_up real ≤ 31) by (change 31 with (Z.log2_up (2 ^ 31)); apply Z.log2_up_le_mono; unfold INT_MAX in *; lia).
    pose proof (Z.log2_up_nonneg real). pose proof (Z.pow_le_mono_r 2 (Z.log2_up real) 31 ltac:(lia) ltac:(lia)).
    pose proof (Z.pow_pos_nonneg 2 (Z.log2_up real) ltac:(lia) ltac:(lia)).
    destruct (Z.leb_spec real 1); [replace real with 1 in * by lia; simpl in *; lia|].
    destruct (Z.log2_up_spec real ltac:(lia)) as [Hl Hu].
    assert (2 ^ Z.log2_up real = 2 * 2 ^ Z.pred (Z.log2_up real)).
    { rewrite <- Z.pow_succ_r by (pose proof (Z.log2_up_pos real); lia). f_equal. lia. }
    lia. }
  destruct Hbase as (Hb & Hr1 & Hr2).
  unfold set_target. mstep. fold total. rewrite (proj2 (Z.eqb_neq total 0)) by lia. mstep. fold real.
  assert (Ep : ∃ b0, pow_ceil_log2 real = Ok b0 ∧ (if b0 =? 0 then 2 else b0) = base).
  { unfold pow_ceil_log2, base. rewrite (proj2 (Z.ltb_ge real 0)) by lia. destruct (Z.eqb_spec real 0); [by exists 0|].
    eexists. split; [done|]. rewrite (proj2 (Z.eqb_neq _ _)); [done|].
    apply Z.pow_nonzero; [done|apply Z.log2_up_nonneg]. }
  destruct Ep as (b0 & Ep & Eb). mstep_by (liftO_Ok _ _ s Ep). rewrite Eb.
  set (q := - (- total / base)).
  assert (Hq : total ≤ base * q < total + base).
  { unfold q. pose proof (Z.div_mod (- total) base ltac:(lia)). pose proof (Z.mod_pos_bound (- total) base ltac:(lia)). lia. }
  assert (Hq' : 0 < q ≤ total) by nia.
  assert (Er : round_up_to base total = Ok (base * q)).
  { unfold round_up_to. fold q. rewrite (proj2 (Z.ltb_ge q _)), (proj2 (Z.ltb_ge INT_MAX q)) by lia. simpl.
    rewrite i64_small; [done|]. unfold INT_MAX in *. lia. }
  mstep_by (liftO_Ok _ _ s Er). mstep. rewrite (proj2 (Z.leb_le total (base * q))) by lia. cbn [andb].
  destruct (base * q - total <? TARGET_QUEUE_LEN) eqn:El; (eexists; split; [reflexivity|]); rsimpl.
  - split_and!; try done; [by exists q|lia|lia|]. rewrite El, set_w2w_nonneg by done. by rsimpl.
  - split_and!; try done; [by exists q|lia|lia|]. by rewrite El.
Qed.

End Frames.
