(* ===== verification/ShaperSecurity.v ===== *)
(** * The server's output loop hides the data

    [process_output] of [Shaper.v], from the wake-up to the last [write], in
    super-trace mode: what the network can observe and the state that decides
    about the next round do not depend on the data, the keys or the random
    numbers.  The proof is relational: [uniform m] says that [m] does the same
    to the public state from any two states with the same public part. *)

From S2P Require Import Prelude ByteOrder Buffer Crc32 Deattack Stdio SuperTrace HashMap Csbuflo.
From S2P Require Import CipherMac Packet PacketWrite PacketRead PacketProofs PacketStream Pacing Shaper.
From S2P Require Import ShaperProofs.

Section Uniform.
Context `{Crypto}.

(** The public part of the state: all of the shaper and of the CS-BuFLO
    variables except for the counts of buffered and padded bytes and for
    [truly_idle], which is only looked at in CS-BuFLO mode; the clock, and the
    state of the network. *)
Record public := mkPublic {
  p_g : globals;
  p_packet_tau : Z;
  p_next : Z;
  p_world : env;
  p_time : nat;
  p_outq : nat;
  p_writes : nat;
  p_tau : Z;
  p_ttw : Z;
  p_idle_start : Z;
  p_deadlock : Z;
  p_waiting : Z
}.
#[export] Instance eta_public : Eta public := λ p,
  {| p_g := p_g p; p_packet_tau := p_packet_tau p; p_next := p_next p; p_world := p_world p; p_time := p_time p;
     p_outq := p_outq p; p_writes := p_writes p; p_tau := p_tau p; p_ttw := p_ttw p;
     p_idle_start := p_idle_start p; p_deadlock := p_deadlock p; p_waiting := p_waiting p |}.
Definition pub (s : shaper) : public :=
  {| p_g := set_padded_junk 0 (g (conn s)); p_packet_tau := packet_tau (conn s);
     p_next := packet_time_to_write (conn s); p_world := world (conn s);
     p_time := n_time (conn s); p_outq := n_outq (conn s); p_writes := n_write (conn s);
     p_tau := tau s; p_ttw := time_to_write s; p_idle_start := idle_start s;
     p_deadlock := deadlock_start s; p_waiting := waiting_for_a_packet s |}.

(** What is seen of an outcome. *)
Definition seen {A} (o : outcome (A * shaper)) : outcome (A * public) := '(a, s) ← o; Ok (a, pub s).
Definition uniform {A} (m : M shaper A) : Prop := ∀ s1 s2, pub s1 = pub s2 → seen (m s1) = seen (m s2).

Lemma Ok_pair_inj {A B} (a a' : A) (b b' : B) : Ok (a, b) = Ok (a', b') → a = a' ∧ b = b'.
Proof. by intros [= -> ->]. Qed.

Lemma uniform_bind {A B} (m : M shaper A) (f : A → M shaper B) :
  uniform m → (∀ a, uniform (f a)) → uniform (m ≫= f).
Proof.
  intros Hm Hf s1 s2 E. specialize (Hm s1 s2 E). unfold mbind, M_bind.
  destruct (m s1) as [[a1 t1]| | | | |], (m s2) as [[a2 t2]| | | | |];
    unfold seen in *; cbn [mbind outcome_bind] in *; try congruence.
  apply Ok_pair_inj in Hm as [-> E']. by apply Hf.
Qed.
Lemma uniform_ret {A} (a : A) : uniform (mret a).
Proof. intros s1 s2 E. unfold seen, mret, M_ret. simpl. by rewrite E. Qed.
Lemma uniform_gets {A} (f : shaper → A) (q : public → A) : (∀ s, f s = q (pub s)) → uniform (gets f).
Proof. intros Hf s1 s2 E. unfold seen, gets. simpl. by rewrite !Hf, E. Qed.
(** A step that always returns, with its effect on the public state. *)
Lemma uniform_step {A} (m : M shaper A) (v : public → A) (q : public → public) :
  (∀ s, ∃ s', m s = Ok (v (pub s), s') ∧ pub s' = q (pub s)) → uniform m.
Proof.
  intros Hm s1 s2 E. destruct (Hm s1) as (t1 & -> & E1), (Hm s2) as (t2 & -> & E2). unfold seen. simpl.
  by rewrite E1, E2, E.
Qed.
Lemma uniform_modify f (q : public → public) : (∀ s, pub (f s) = q (pub s)) → uniform (modify f).
Proof. intros Hf. apply (uniform_step _ (λ _, tt) q). intros s. by exists (f s). Qed.
Lemma uniform_when b m : uniform m → uniform (when b m).
Proof. intros Hm. destruct b; [done|apply uniform_ret]. Qed.

(** Reading and writing the CS-BuFLO variables and the packet layer's gap. *)
Lemma uniform_flag {A} (f : globals → A) : (∀ gl, f gl = f (set_padded_junk 0 gl)) → uniform (flag f).
Proof. intros Hf. apply (uniform_gets _ (λ p, f (p_g p))). intros s. apply Hf. Qed.
Lemma uniform_setg f : (∀ gl, set_padded_junk 0 (f gl) = f (set_padded_junk 0 gl)) → uniform (setg f).
Proof.
  intros Hf. apply (uniform_step _ (λ _, tt) (λ p, p <| p_g := f (p_g p) |>)). intros s.
  eexists. split; [reflexivity|]. unfold pub. rsimpl. by rewrite Hf.
Qed.
Lemma uniform_clock : uniform clock.
Proof.
  apply (uniform_step _ (λ p, u64 (e_time (p_world p) (p_time p))) (λ p, p <| p_time := S (p_time p) |>)).
  intros s. by eexists.
Qed.
Lemma uniform_tau t : uniform (on_conn (set_packet_tau t)).
Proof. apply (uniform_step _ (λ _, tt) (λ p, p <| p_packet_tau := t |>)). intros s. by eexists. Qed.

Lemma uniform_schedule n : uniform (schedule_bytes n).
Proof.
  apply (uniform_setg (λ gl, set_w2w (w2w gl + n) gl)). intros gl. unfold set_w2w.
  change (w2w (set_padded_junk 0 gl)) with (w2w gl). by destruct (_ <? 0).
Qed.

Lemma uniform_setg_try f :
  (∀ gl, f (set_padded_junk 0 gl) = set_padded_junk 0 <$> f gl) → uniform (setg_try f).
Proof.
  intros Hf s1 s2 E. pose proof (f_equal p_g E) as Eg. simpl in Eg. apply (f_equal f) in Eg. rewrite !Hf in Eg.
  unfold seen, setg_try, on_conn, mbind, M_bind, gets, liftO. simpl.
  destruct (f (g (conn s1))) as [g1| | | | |], (f (g (conn s2))) as [g2| | | | |]; simpl in *; try congruence.
  assert (Eg' : set_padded_junk 0 g1 = set_padded_junk 0 g2) by congruence.
  f_equal. f_equal. transitivity ((pub s1) <| p_g := set_padded_junk 0 g1 |>); [reflexivity|].
  by rewrite E, Eg'.
Qed.

(** The parts of an item of the trace, for a client that is past its first
    burst. *)
Ltac unif :=
  repeat first
    [ solve [eauto 1 with uniform]
    | apply uniform_bind; [|intros ?] | apply uniform_ret | apply uniform_when
    | apply uniform_flag; reflexivity | apply uniform_setg; reflexivity | case_match ].

Lemma move_junk is_pos gl :
  move_to_next_st_item is_pos (set_padded_junk 0 gl) = set_padded_junk 0 <$> move_to_next_st_item is_pos gl.
Proof.
  unfold move_to_next_st_item, cur_trace. 
  change (cluster_id (set_padded_junk 0 gl)) with (cluster_id gl).
  change (straces (set_padded_junk 0 gl)) with (straces gl).
  change (st_index (set_padded_junk 0 gl)) with (st_index gl).
  destruct (_ <? 0); [done|]. destruct (match straces gl with None => _ | _ => _ end) as [t| | | | |]; try done.
  cbn [mbind outcome_bind]. destruct (_ || _); [done|].
  destruct (if 0 <? is_pos then _ else _) as [i| | | | |]; try done. cbn [mbind outcome_bind].
  destruct (i <? _); [|done]. by destruct (zget (pairs t) i).
Qed.

Lemma uniform_move : uniform (setg_try (move_to_next_st_item 1)).
Proof. apply uniform_setg_try, move_junk. Qed.

Lemma uniform_wait e c : uniform (wait_for_data id e c).
Proof.
  intros s1 s2 E. rewrite !wait_for_data_spec. unfold wait_result.
  pose proof (f_equal (λ p, received_sofar (p_g p)) E) as E1.
  pose proof (f_equal p_world E) as E2. pose proof (f_equal p_time E) as E3. pose proof (f_equal p_deadlock E) as E4.
  simpl in E1, E2, E3, E4. change (received_sofar (set_padded_junk 0 ?gl)) with (received_sofar gl) in E1.
  rewrite E1, E2, E3, E4. set (got := received_sofar _). set (limit := u64 (_ + 5000000)). set (start := if _ =? 0 then _ else _).
  destruct (e <=? got); [|destruct (limit <=? _)]; unfold seen; simpl; do 2 f_equal.
  - set (f := λ gl : globals, if 0 <? e then gl <| received_sofar := got - e |> else gl).
    transitivity ((pub s1) <| p_g := f (p_g (pub s1)) |> <| p_waiting := 0 |> <| p_deadlock := 0 |>).
    + unfold pub, released, f. destruct (0 <? e); reflexivity.
    + rewrite E. unfold pub, released, f. destruct (0 <? e); reflexivity.
  - transitivity ((pub s1) <| p_time := S (p_time (pub s1)) |> <| p_waiting := 0 |> <| p_deadlock := 0 |>);
      [reflexivity|by rewrite E].
  - transitivity ((pub s1) <| p_time := S (p_time (pub s1)) |> <| p_waiting := 1 |> <| p_deadlock := start |>
       <| p_packet_tau := 0 |>); [reflexivity|by rewrite E].
Qed.

(** The trace plays on with [item]. *)
Definition plays (item : STPAIR) : M shaper unit :=
  w ← gets waiting_for_a_packet;
  _ ← when (w =? 0) (setg_try (move_to_next_st_item 1));
  _ ← on_conn (set_packet_tau (ptime item));
  n ← wait_for_data id (expected item) (psize item);
  schedule_bytes n.

Lemma uniform_plays item : uniform (plays item).
Proof.
  unfold plays. apply uniform_bind; [by apply (uniform_gets _ p_waiting)|intros w].
  apply uniform_bind; [apply uniform_when, uniform_move|intros _].
  apply uniform_bind; [apply uniform_tau|intros _].
  apply uniform_bind; [apply uniform_wait|intros n]. apply uniform_schedule.
Qed.

(** The trace is being played: super-trace mode, past the first burst of the
    page ([first_client], whose size follows the data that are buffered, see
    [first_burst_follows_data] below), no load or unload event of the browser
    pending, the end of the trace not yet announced, and [item] the burst that
    the trace has next. *)
Record playing_on (item : STPAIR) (s : shaper) : Prop := {
  po_mode : stmode (g (conn s)) = 1;
  po_first : first_client (g (conn s)) ≠ 1;
  po_onload : onload_flag (g (conn s)) = 0;
  po_unload : unload_flag (g (conn s)) ≠ 1;
  po_tend : sent_tend (g (conn s)) ≠ 1;
  po_next : ∃ gl, (if waiting_for_a_packet s =? 0 then move_to_next_st_item 1 (g (conn s)) else Ok (g (conn s))) = Ok gl ∧
    cur_item gl = Some item
}.

Lemma move_flags is_pos gl gl' : move_to_next_st_item is_pos gl = Ok gl' →
  first_client gl' = first_client gl ∧ onload_flag gl' = onload_flag gl ∧ stmode gl' = stmode gl ∧
  sent_tend gl' = sent_tend gl ∧ w2w gl' = w2w gl.
Proof.
  unfold move_to_next_st_item. destruct (_ <? 0); [by intros [= <-]|]. intros E.
  apply bind_Ok in E as (t & _ & E). destruct (_ || _); [by injection E as <-|].
  apply bind_Ok in E as (i & _ & E). destruct (_ <? _); [|by injection E as <-].
  by apply bind_Ok in E as (q & _ & [= <-]).
Qed.

Lemma setg_try_Ok f gl s : f (g (conn s)) = Ok gl → setg_try f s = Ok (tt, s <| conn := (conn s) <| g := gl |> |>).
Proof. intros E. unfold setg_try, on_conn, mbind, M_bind, gets, liftO. simpl. by rewrite E. Qed.

Lemma server_trace_plays item now n s :
  playing_on item s → server_trace now n s = plays item s.
Proof.
  intros [Hm Hf Ho Hu Ht (gl & Hn & Hi)]. unfold server_trace, plays. mstep. mstep.
  assert (Hw : when (waiting_for_a_packet s =? 0) (setg_try (move_to_next_st_item 1)) s
    = Ok (tt, s <| conn := (conn s) <| g := gl |> |>)).
  { destruct (_ =? 0); [by apply setg_try_Ok|]. injection Hn as <-. by destruct s as [[]]. }
  assert (Hfl : first_client gl ≠ 1 ∧ onload_flag gl = 0).
  { destruct (_ =? 0); [|by injection Hn as <-]. destruct (move_flags _ _ _ Hn) as (-> & -> & _). done. }
  rewrite !(M_bind_Ok _ _ _ _ _ Hw). mstep. rsimpl. rewrite Hi. unfold plays_on at 1. 
  rewrite <- M_bind_assoc. mstep. rsimpl. rewrite (proj2 Hfl). mstep. 
  unfold server_item. mstep. mstep. rsimpl. rewrite (proj2 (Z.eqb_neq _ _) (proj1 Hfl)). by mstep.
Qed.

(** What an item does not touch: the session and the wire. *)
Lemma plays_effect item s :
  playing_on item s → 0 ≤ w2w (g (conn s)) → 0 ≤ psize item →
  ∃ s', plays item s = Ok (tt, s') ∧ st (conn s') = st (conn s) ∧ wire (conn s') = wire (conn s) ∧
    compat20 (conn s') = compat20 (conn s) ∧ world (conn s') = world (conn s) ∧
    stmode (g (conn s')) = 1 ∧ sent_tend (g (conn s')) = sent_tend (g (conn s)) ∧
    (w2w (g (conn s')) = w2w (g (conn s)) ∨ w2w (g (conn s')) = w2w (g (conn s)) + psize item).
Proof.
  intros [Hm Hf Ho Hu Ht (gl & Hn & Hi)] Hw Hp. unfold plays. mstep.
  assert (Hmv : when (waiting_for_a_packet s =? 0) (setg_try (move_to_next_st_item 1)) s
    = Ok (tt, s <| conn := (conn s) <| g := gl |> |>)).
  { destruct (_ =? 0); [by apply setg_try_Ok|]. injection Hn as <-. by destruct s as [[]]. }
  assert (Hfl : stmode gl = stmode (g (conn s)) ∧ sent_tend gl = sent_tend (g (conn s)) ∧ w2w gl = w2w (g (conn s))).
  { destruct (_ =? 0); [|by injection Hn as <-]. by destruct (move_flags _ _ _ Hn) as (_ & _ & -> & -> & ->). }
  destruct Hfl as (Hm' & Ht' & Hw'). mstep_by Hmv. mstep. rewrite (M_bind_Ok _ _ _ _ _ (wait_for_data_spec _ _ _ _)).
  unfold schedule_bytes. eexists. split; [reflexivity|]. unfold wait_result.
  destruct (_ <=? _); [|destruct (_ <=? _)]; simpl; rsimpl;
    [destruct (0 <? expected item)|..]; rsimpl; unfold id; rsimpl;
    rewrite Hw', set_w2w_nonneg by lia; rsimpl; split_and!; congruence || (left; lia) || by right.
Qed.

(** The steps before the write. *)
Definition before_write (item : STPAIR) : M shaper unit :=
  _ ← clock; _ ← plays item; modify (λ s, s <| truly_idle := 0 |>).

Lemma uniform_before item : uniform (before_write item).
Proof.
  apply uniform_bind; [apply uniform_clock|intros _]. apply uniform_bind; [apply uniform_plays|intros _].
  by apply (uniform_modify _ id).
Qed.

Lemma playing_ticked item s : playing_on item s → playing_on item (ticked s).
Proof. intros []. by split. Qed.

Lemma process_output_plays item fuel s :
  playing_on item s → 0 ≤ w2w (g (conn s)) → 0 ≤ psize item →
  ∃ n inc, process_output fuel true s = (_ ← before_write item; write_and_account 0 fuel n inc) s.
Proof.
  intros Hp Hw Hs. eexists _, _. unfold process_output, before_write. rewrite <- M_bind_assoc. do 2 mstep. fold (ticked s).
  set (now := u64 _). 
  assert (Hu : handle_unload now (ticked s) = Ok (tt, ticked s)).
  { unfold handle_unload. mstep. change (unload_flag (g (conn (ticked s)))) with (unload_flag (g (conn s))).
    by rewrite (proj2 (Z.eqb_neq _ _) (po_unload _ _ Hp)). }
  mstep_by Hu. mstep. mstep. set (n := i32 (buffer_len _)).
  set (inc := if _ <? n then _ else 0).
  assert (Hy : may_send now None true (ticked s) = Ok (true, ticked s)).
  { unfold may_send. do 2 mstep. change (stmode (g (conn (ticked s)))) with (stmode (g (conn s))).
    rewrite (po_mode _ _ Hp). destruct (now <? _); reflexivity. }
  mstep_by Hy. mstep. change (stmode (g (conn (ticked s)))) with (stmode (g (conn s))). rewrite (po_mode _ _ Hp).
  change (1 =? 1) with true. cbn [when].
  destruct (plays_effect item (ticked s) (playing_ticked _ _ Hp)) as (s' & E & _ & _ & _ & _ & Hm & _); [done..|].
  rewrite <- (server_trace_plays item now n) in E by (by apply playing_ticked). rewrite (M_bind_Ok _ _ _ _ _ E).
  rewrite (server_trace_plays item now n) in E by (by apply playing_ticked).
  rewrite <- M_bind_assoc. rewrite (M_bind_Ok _ _ _ _ _ E). do 2 mstep.
  unfold csbuflo_step at 1. rewrite <- M_bind_assoc. mstep. rsimpl. rewrite Hm. by mstep.
Qed.

Lemma before_effect item s :
  playing_on item s → 0 ≤ w2w (g (conn s)) → 0 ≤ psize item →
  ∃ s', before_write item s = Ok (tt, s') ∧ st (conn s') = st (conn s) ∧ wire (conn s') = wire (conn s) ∧
    compat20 (conn s') = compat20 (conn s) ∧ world (conn s') = world (conn s) ∧
    stmode (g (conn s')) = 1 ∧ sent_tend (g (conn s')) = sent_tend (g (conn s)) ∧
    (w2w (g (conn s')) = w2w (g (conn s)) ∨ w2w (g (conn s')) = w2w (g (conn s)) + psize item).
Proof.
  intros Hp Hw Hs. unfold before_write. mstep. fold (ticked s).
  destruct (plays_effect item (ticked s) (playing_ticked _ _ Hp) Hw Hs) as (s' & E & R).
  mstep_by E. eexists. split; [reflexivity|]. exact R.
Qed.

(** Nothing happens while the connection does not take data. *)
Lemma process_output_waits item fuel s :
  playing_on item s → ∃ s', process_output fuel false s = Ok (tt, s') ∧ wire (conn s') = wire (conn s) ∧
    pub s' = (pub s) <| p_time := S (p_time (pub s)) |>.
Proof.
  intros Hp. unfold process_output. mstep. fold (ticked s). set (now := u64 _).
  assert (Hu : handle_unload now (ticked s) = Ok (tt, ticked s)).
  { unfold handle_unload. mstep. change (unload_flag (g (conn (ticked s)))) with (unload_flag (g (conn s))).
    by rewrite (proj2 (Z.eqb_neq _ _) (po_unload _ _ Hp)). }
  mstep_by Hu. mstep. mstep.
  assert (Hy : may_send now None false (ticked s) = Ok (false, ticked s)).
  { unfold may_send. do 2 mstep. rewrite andb_false_r. by destruct (now <? _). }
  mstep_by Hy. eexists. split; [reflexivity|]. by destruct (_ <? _).
Qed.

(** The accounts after a write in super-trace mode. *)
Lemma write_and_account_trace fuel n inc s :
  stmode (g (conn s)) = 1 →
  match packet_write_poll fuel (conn s) with
  | Ok (_, c) => ∃ s', write_and_account 0 fuel n inc s = Ok (tt, s') ∧ wire (conn s') = wire c ∧
      pub s' = (pub (s <| conn := c |>)) <| p_ttw := packet_time_to_write c |> <| p_time := S (n_time c) |>
  | Fatal m => write_and_account 0 fuel n inc s = Fatal m
  | NoFuel => write_and_account 0 fuel n inc s = NoFuel
  | _ => True
  end.
Proof.
  intros Hm. unfold write_and_account. mstep. replace (s <| conn := conn s |>) with s by (by destruct s).
  destruct (packet_write_poll fuel (conn s)) as [[[] c]|m| | | |] eqn:E; try done.
  2, 3: unfold mbind at 1, M_bind, on_conn; by rewrite E.
  assert (Ec : on_conn (packet_write_poll fuel) s = Ok (tt, s <| conn := c |>)).
  { unfold on_conn. by rewrite E. }
  assert (Hm' : stmode (g c) = 1).
  { pose proof (f_equal (λ v, v.1.1.1.1.1) (write_poll_pview fuel _ _ _ E)) as Hv. simpl in Hv. by rewrite Hv. }
  mstep_by Ec. do 6 mstep. mstep. rsimpl. rewrite Hm'. cbn [Z.eqb andb when]. mstep. mstep. rsimpl. rewrite Hm'.
  eexists. split; [reflexivity|]. done.
Qed.

End Uniform.

Section Security.
Context `{CryptoLaws}.

(** The session has room for a burst of [w] bytes. *)
Definition roomy_for (k : option Newkeys) (w : Z) (c : ssh) : Prop :=
  (∀ i, 0 ≤ e_outq (world c) i < 2 ^ 31) ∧ w < 2 ^ 31 ∧
  ∃ n, ready k n n c ∧ w - Z.of_nat (length (contents (output (st c)))) + 200 ≤ n.

Lemma roomy_bursting k w w' c c' :
  roomy_for k w c → w' ≤ w → st c' = st c → compat20 c' = compat20 c → world c' = world c →
  stmode (g c') = 1 → sent_tend (g c') ≠ 1 → bursting k w' c'.
Proof.
  intros (Hq & Hw & n & [(cc & d & []) Ho Hp] & Hn) Hle Es Ec Ew Hm Ht. split; [done|done|by rewrite Ew|lia|].
  exists n. split; [|rewrite Es; cbv zeta; lia]. split; rewrite ?Es; [|done|done].
  exists cc, d. split; rewrite ?Es, ?Ec; done.
Qed.

(** The write of a round, from two states that look the same. *)
Lemma write_uniform k1 k2 fuel s1 s2 :
  pub s1 = pub s2 → 0 ≤ w2w (g (conn s1)) →
  bursting k1 (w2w (g (conn s1))) (conn s1) → bursting k2 (w2w (g (conn s2))) (conn s2) →
  match packet_write_poll fuel (conn s1), packet_write_poll fuel (conn s2) with
  | Ok (_, c1), Ok (_, c2) => pub (s1 <| conn := c1 |>) = pub (s2 <| conn := c2 |>) ∧
      ∃ calls, shape (wire c1) = shape (wire (conn s1)) ++ calls ∧ shape (wire c2) = shape (wire (conn s2)) ++ calls
  | Fatal _, Fatal _ | NoFuel, NoFuel => True
  | _, _ => False
  end.
Proof.
  intros E Hw B1 B2.
  pose proof (f_equal (λ p, w2w (p_g p)) E) as Ew. simpl in Ew.
  change (w2w (set_padded_junk 0 ?gl)) with (w2w gl) in Ew. rewrite <- Ew in B2.
  pose proof (f_equal p_world E) as E1. pose proof (f_equal p_time E) as E2. pose proof (f_equal p_outq E) as E3.
  pose proof (f_equal p_writes E) as E4. pose proof (f_equal p_packet_tau E) as E5. pose proof (f_equal p_next E) as E6.
  pose proof (f_equal p_g E) as E7. simpl in E1, E2, E3, E4, E5, E6, E7.
  set (now := u64 (e_time (world (conn s1)) (n_time (conn s1)))).
  destruct (Z.leb_spec (packet_time_to_write (conn s1)) now) as [Hle|Hgt].
  - pose proof (write_poll_paced k1 fuel (conn s1) B1 Hw Hle) as P1.
    pose proof (write_poll_paced k2 fuel (conn s2)) as P2. cbv zeta in P2.
    rewrite <- Ew, <- E1, <- E2, <- E3, <- E4, <- E5, <- E6 in P2. specialize (P2 B2 Hw Hle).
    destruct (paced _ _ _ _ _) as [q i calls| |].
    + destruct P1 as (c1 & -> & Hs1 & Ht1 & [j1 Hg1] & _ & Hta1 & Hwo1 & Hti1 & Hq1 & Hi1).
      destruct P2 as (c2 & -> & Hs2 & Ht2 & [j2 Hg2] & _ & Hta2 & Hwo2 & Hti2 & Hq2 & Hi2).
      split; [|by exists calls]. 
      transitivity ((pub s1) <| p_g := set_w2w 0 (p_g (pub s1)) |> <| p_next := u64 (now + packet_tau (conn s1)) |>
        <| p_time := S (p_time (pub s1)) |> <| p_outq := q |> <| p_writes := i |>).
      * unfold pub. rsimpl. rewrite Hg1, Hta1, Ht1, Hwo1, Hti1, Hq1, Hi1. done.
      * rewrite E. unfold pub. rsimpl. rewrite Hg2, Hta2, Ht2, Hwo2, Hti2, Hq2, Hi2, <- E1, <- E2, <- E5. done.
    + destruct P1 as [m1 ->], P2 as [m2 ->]. done.
    + by rewrite P1, P2.
  - assert (Hskip : ∀ s, packet_time_to_write (conn s) = packet_time_to_write (conn s1) →
      world (conn s) = world (conn s1) → n_time (conn s) = n_time (conn s1) →
      packet_write_poll fuel (conn s) = Ok (tt, (conn s) <| n_time := S (n_time (conn s)) |>)).
    { intros s A1 A2 A3. unfold packet_write_poll. do 2 mstep. rsimpl. rewrite A1.
      replace (u64 (e_time (world (conn s)) (n_time (conn s)))) with now by (unfold now; by rewrite A2, A3).
      by rewrite (proj2 (Z.ltb_lt _ _) Hgt). }
    rewrite (Hskip s1), (Hskip s2) by done. split; [|exists []; by rewrite !app_nil_r].
    transitivity ((pub s1) <| p_time := S (p_time (pub s1)) |>); [done|]. by rewrite E.
Qed.

(** C2: the whole output step of the server hides the data while a trace is
    being played, that is ([playing_on]) in super-trace mode with another burst
    left in the trace, past the first burst of the page, with no load or unload
    event pending and before the end of the trace has been announced.  Two
    servers that are at the same such point of the same trace, at the same
    time, over the same network, with room for the burst in their output, but
    with different data, keys, packet layers and random numbers (without
    compression), make the same calls of [write] with the same lengths when
    they wake up, and are again in states with the same public part, so that
    they also wake up, wait, write and change modes at the same times
    afterwards. *)
Theorem server_round_noninterference k1 k2 item fuel writable s1 s2 :
  pub s1 = pub s2 → playing_on item s1 → playing_on item s2 →
  0 ≤ w2w (g (conn s1)) → 0 ≤ psize item →
  roomy_for k1 (w2w (g (conn s1)) + psize item) (conn s1) →
  roomy_for k2 (w2w (g (conn s1)) + psize item) (conn s2) →
  match process_output fuel writable s1, process_output fuel writable s2 with
  | Ok (_, t1), Ok (_, t2) => pub t1 = pub t2 ∧
      ∃ calls, shape (wire (conn t1)) = shape (wire (conn s1)) ++ calls ∧
               shape (wire (conn t2)) = shape (wire (conn s2)) ++ calls
  | Fatal _, Fatal _ | NoFuel, NoFuel => True
  | _, _ => False
  end.
Proof.
  intros E P1 P2 Hw Hs R1 R2.
  pose proof (f_equal (λ p, w2w (p_g p)) E) as Ew. simpl in Ew.
  change (w2w (set_padded_junk 0 ?gl)) with (w2w gl) in Ew.
  destruct writable.
  2: { destruct (process_output_waits item fuel s1 P1) as (t1 & -> & V1 & Q1).
       destruct (process_output_waits item fuel s2 P2) as (t2 & -> & V2 & Q2).
       split; [by rewrite Q1, Q2, E|]. exists []. by rewrite V1, V2, !app_nil_r. }
  destruct (process_output_plays item fuel s1 P1 Hw Hs) as (n1 & i1 & ->).
  destruct (process_output_plays item fuel s2 P2 ltac:(lia) Hs) as (n2 & i2 & ->).
  destruct (before_effect item s1 P1 Hw Hs) as (t1 & B1 & Es1 & Ewi1 & Ec1 & Ewo1 & Hm1 & Ht1 & Hw1).
  destruct (before_effect item s2 P2 ltac:(lia) Hs) as (t2 & B2 & Es2 & Ewi2 & Ec2 & Ewo2 & Hm2 & Ht2 & Hw2).
  rewrite (M_bind_Ok _ _ _ _ _ B1), (M_bind_Ok _ _ _ _ _ B2).
  pose proof (uniform_before item s1 s2 E) as U. rewrite B1, B2 in U. apply Ok_pair_inj in U as [_ U].
  pose proof (po_tend _ _ P1). pose proof (po_tend _ _ P2).
  assert (D1 : bursting k1 (w2w (g (conn t1))) (conn t1)).
  { eapply roomy_bursting; [exact R1|lia|done..|by rewrite Ht1]. }
  assert (D2 : bursting k2 (w2w (g (conn t2))) (conn t2)).
  { eapply roomy_bursting; [exact R2|lia|done..|by rewrite Ht2]. }
  pose proof (write_uniform k1 k2 fuel t1 t2 U ltac:(lia) D1 D2) as W.
  pose proof (write_and_account_trace fuel n1 i1 t1 Hm1) as A1.
  pose proof (write_and_account_trace fuel n2 i2 t2 Hm2) as A2.
  destruct (packet_write_poll fuel (conn t1)) as [[[] c1]|m1| | | |],
           (packet_write_poll fuel (conn t2)) as [[[] c2]|m2| | | |]; try done.
  - destruct A1 as (r1 & -> & V1 & Q1), A2 as (r2 & -> & V2 & Q2). destruct W as (W & calls & C1 & C2).
    split; [|exists calls; by rewrite V1, V2, C1, C2, Ewi1, Ewi2].
    pose proof (f_equal p_next W) as W1. pose proof (f_equal p_time W) as W2. simpl in W1, W2.
    rewrite Q1, Q2, W, W1, W2. done.
  - by rewrite A1, A2.
  - by rewrite A1, A2.
Qed.

End Security.

(** ** Concrete runs *)

Module ShaperDemo.
Import Toy Demo PacingDemo.

(** A side that wakes up with the given variables and buffered data. *)
Definition woken (k : option Newkeys) (cc : CipherContext) (gl : globals) (out : list Z) : shaper :=
  mkShaper (busy k cc out gl plain_env) INITIAL_TAU 0 0 0 0 0 0 INITIAL_BOUNDARY 0 0 0 0 None.
(** The state after a step that returns. *)
Definition returns {A} (o : outcome A) : bool := match o with Ok _ => true | _ => false end.
Definition after (o : outcome (unit * shaper)) (s : shaper) : shaper := match o with Ok (_, s') => s' | _ => s end.
Lemma returns_after o s : returns o = true → o = Ok (tt, after o s).
Proof. by destruct o as [[[] s']| | | | |]. Qed.

(** The end of a page in super-trace mode. *)
Definition ending : shaper :=
  woken (Some demo_keys) demo_cc
    (globals_init <| stmode := 1 |> <| onload_flag := 1 |> <| transcript_end := 1 |>) [1; 2; 3].

Lemma output_modes_witness :
  let s' := after (process_output 5 true ending) ending in
  mode_moves ending s' ∧ the_mode ending = 1 ∧ the_mode s' = -1.
Proof.
  split; [|split; vm_compute; reflexivity]. apply (output_modes ending (after (process_output 5 true ending) ending)).
  exists 5%nat, true. left. apply returns_after. vm_compute. reflexivity.
Defined.

(** CS-BuFLO mode at the initial rate. *)
Definition padding : shaper :=
  woken (Some demo_keys) demo_cc (globals_init <| stmode := 0 |>) [1; 2; 3].

Lemma output_rate_witness :
  let s' := after (process_output 5 true padding) padding in
  rate_ok 1 s' ∧ packet_tau (conn s') = tau s'.
Proof.
  destruct (output_rate 0 padding (after (process_output 5 true padding) padding)) as (R & _ & P).
  - split; [exists 13; split; [lia|reflexivity]| |discriminate].
    destruct tau_wf_init. split; assumption.
  - intros _. left. reflexivity.
  - reflexivity.
  - exists 5%nat, true. left. apply returns_after. vm_compute. reflexivity.
  - split; [exact R|]. apply P. vm_compute. reflexivity.
Defined.

(** A page with one burst of 300 bytes, 9000 microseconds long. *)
Definition page : ST := mkST 0 1 [mkPair 300 9000 0 100].
Definition on_page : globals :=
  globals_init <| stmode := 1 |> <| first_client := 0 |> <| straces := Some [Some page] |> <| cluster_id := 0 |>
    <| st_index := 0 |> <| received_sofar := 120 |>.
Definition item : STPAIR := mkPair 300 9000 0 100.

Lemma server_item_waits_witness :
  ∃ s', server_item item 3 (woken None none_cc on_page [1; 2; 3]) = Ok (tt, s') ∧
    w2w (g (conn s')) = 300 ∧ packet_tau (conn s') = 9000 ∧ received_sofar (g (conn s')) = 20.
Proof.
  destruct (server_item_waits item 3 (woken None none_cc on_page [1; 2; 3])) as (s' & E & Hc).
  - discriminate.
  - discriminate.
  - discriminate.
  - reflexivity.
  - vm_compute. split; [discriminate|reflexivity].
  - exists s'. destruct Hc as (? & ? & _ & _ & ?). split; [exact E|]. split; [assumption|]. split; assumption.
Defined.

Lemma set_target_goal_witness :
  ∃ s', set_target 40 (padding <| total_sent_bytes := 5000 |> <| cur_total_realincoming_bytes := 3000 |>) = Ok (tt, s') ∧
    5000 ≤ target_sent_bytes s' < 5000 + 4096 ∧ ∃ k, target_sent_bytes s' = 4096 * k.
Proof.
  destruct (set_target_goal 40 (padding <| total_sent_bytes := 5000 |> <| cur_total_realincoming_bytes := 3000 |>))
    as (s' & E & Hk & Ht & _).
  - vm_compute. split; [reflexivity|discriminate].
  - vm_compute. split; discriminate.
  - discriminate.
  - exists s'. split; [exact E|]. split; [exact Ht|exact Hk].
Defined.

Lemma roomy_woken k cc out :
  keys_good k cc → (length out < 4096)%nat → roomy_for k 300 (conn (woken k cc on_page out)).
Proof.
  intros Hg Hl. split; [intros i; change (0 ≤ 0 < 2 ^ 31); lia|]. split; [lia|]. exists 1000. split; [by apply busy_ready|]. lia.
Qed.
Lemma playing_woken k cc out : playing_on item (woken k cc on_page out).
Proof. split; try done. eexists. split; [reflexivity|reflexivity]. Qed.

(** Encrypted data on one side, nothing to send and no encryption on the other. *)
Lemma server_round_noninterference_witness :
  match process_output 9 true (woken (Some demo_keys) demo_cc on_page [1; 2; 3]),
        process_output 9 true (woken None none_cc on_page []) with
  | Ok (_, t1), Ok (_, t2) => pub t1 = pub t2 ∧
      ∃ calls, shape (wire (conn t1)) = [] ++ calls ∧ shape (wire (conn t2)) = [] ++ calls
  | Fatal _, Fatal _ | NoFuel, NoFuel => True
  | _, _ => False
  end.
Proof.
  apply (server_round_noninterference (Some demo_keys) None item 9 true
    (woken (Some demo_keys) demo_cc on_page [1; 2; 3]) (woken None none_cc on_page [])).
  - reflexivity.
  - apply playing_woken.
  - apply playing_woken.
  - discriminate.
  - discriminate.
  - apply roomy_woken; [apply demo_good|simpl; lia].
  - apply roomy_woken; [apply none_good|simpl; lia].
Defined.

(** The first burst of a page is excluded with reason: its size follows the
    data that are buffered.  With 400 bytes buffered it has 400 bytes, without
    data the 300 bytes of the trace. *)
Definition first_page : globals := on_page <| first_client := 1 |>.
Definition first_writes (out : list Z) : list (Z * Z) :=
  let s := woken None none_cc first_page out in shape (wire (conn (after (process_output 9 true s) s))).
Example first_burst_follows_data :
  first_writes (replicate 400 7) = [(400, 400)] ∧ first_writes [] = [(300, 300)].
Proof. split; vm_compute; reflexivity. Qed.

(** The burst is really sent. *)
Example round_sends :
  returns (process_output 9 true (woken None none_cc on_page [])) = true ∧
  shape (wire (conn (after (process_output 9 true (woken None none_cc on_page [])) (woken None none_cc on_page [])))) = [(300, 300)].
Proof. split; vm_compute; reflexivity. Qed.

End ShaperDemo.
