(* ===== verification/Dispatch.v ===== *)
(** * Dispatch tables ([dispatch.c])

    The table holds names of handlers; [handler] says what a name does.  A
    handler may change the table, so the state of [dispatch_run] is the
    connection together with the table. *)

From S2P Require Import Prelude ByteOrder Buffer Crc32 Deattack Stdio SuperTrace HashMap Csbuflo.
From S2P Require Import CipherMac Packet PacketWrite PacketRead.

Definition DISPATCH_MAX : nat := 255.
Definition SSH2_MSG_UNIMPLEMENTED : Z := 3.
Inductive dispatch_mode := DISPATCH_BLOCK | DISPATCH_NONBLOCK.

Section Table.
Context {fn : Type}.

(** A NULL entry is [None]. *)
Definition dispatch_init (dflt : option fn) : list (option fn) := replicate DISPATCH_MAX dflt.

(** [for (i = from; i <= to; i++) { if (i >= DISPATCH_MAX) break; ... }]; [i] is
    an unsigned int. *)
Fixpoint range_loop (fuel : nat) (i to : Z) (f : option fn) (t : list (option fn)) : outcome (list (option fn)) :=
  if i <=? to then
    if Z.of_nat DISPATCH_MAX <=? i then Ok t
    else
      match fuel with
      | O => NoFuel
      | S fuel => t ← zset t i f; range_loop fuel (u32 (i + 1)) to f t
      end
  else Ok t.
Definition dispatch_range (from to : Z) (f : option fn) (t : list (option fn)) : outcome (list (option fn)) :=
  range_loop DISPATCH_MAX from to f t.

Definition dispatch_set (type : Z) (f : option fn) (t : list (option fn)) : outcome (list (option fn)) := zset t type f.

(** The handler that [dispatch_run] calls for a type. *)
Definition dispatch_lookup (type : Z) (t : list (option fn)) : option fn :=
  if (0 <? type) && (type <? Z.of_nat DISPATCH_MAX) then mjoin (t !! Z.to_nat type) else None.

Lemma range_loop_spec f to : ∀ fuel i t,
  length t = DISPATCH_MAX → 0 ≤ i → Z.of_nat DISPATCH_MAX - i ≤ Z.of_nat fuel →
  ∃ t', range_loop fuel i to f t = Ok t' ∧ length t' = DISPATCH_MAX ∧
    ∀ k, t' !! k = if (i <=? Z.of_nat k) && (Z.of_nat k <=? to) && (k <? DISPATCH_MAX)%nat then Some f else t !! k.
Proof.
  induction fuel as [|fuel IH]; intros i t Ht Hi Hf; cbn [range_loop].
  - destruct (Z.leb_spec i to).
    + zdec. exists t. split_and!; [done..|]. intros k. destruct (Nat.ltb_spec k DISPATCH_MAX); [|by rewrite andb_false_r]. zdec. done.
    + exists t. split_and!; [done..|]. intros k. destruct (Z.leb_spec i (Z.of_nat k)); [|done]. zdec. done.
  - destruct (Z.leb_spec i to) as [Hto|Hto].
    2: { exists t. split_and!; [done..|]. intros k. destruct (Z.leb_spec i (Z.of_nat k)); [|done]. zdec. done. }
    destruct (Z.leb_spec (Z.of_nat DISPATCH_MAX) i) as [Hm|Hm].
    { exists t. split_and!; [done..|]. intros k. destruct (Nat.ltb_spec k DISPATCH_MAX); [|by rewrite andb_false_r]. zdec. done. }
    unfold zset. rewrite Ht. zdec. cbn [orb mbind outcome_bind].
    assert (DISPATCH_MAX = 255%nat) as Hd by done.
    rewrite u32_small by lia.
    destruct (IH (i + 1) (<[Z.to_nat i:=f]> t)) as (t' & -> & Hl & Hk); [by rewrite length_insert|lia|lia|].
    exists t'. split_and!; [done..|]. intros k. rewrite Hk. rewrite list_lookup_insert, Ht.
    destruct (decide (Z.to_nat i = k)) as [<-|Hne].
    + rewrite (proj2 (Z.leb_gt (i + 1) _)) by lia. cbn [andb]. rewrite decide_True by lia.
      rewrite (proj2 (Z.leb_le i _)), (proj2 (Z.leb_le _ to)), (proj2 (Nat.ltb_lt _ _)) by lia. done.
    + destruct (Z.leb_spec i (Z.of_nat k)).
      * rewrite (proj2 (Z.leb_le (i + 1) _)) by lia. rewrite decide_False by tauto. done.
      * rewrite (proj2 (Z.leb_gt (i + 1) _)) by lia. rewrite decide_False by tauto. done.
Qed.

(** C40: For every range of unsigned integers, also one that reaches beyond the
    table, [dispatch_range] terminates without leaving the table, and changes
    exactly the entries of the range. *)
Theorem dispatch_range_table from to f t :
  length t = DISPATCH_MAX → 0 ≤ from →
  ∃ t', dispatch_range from to f t = Ok t' ∧ length t' = DISPATCH_MAX ∧
    ∀ type, dispatch_lookup type t' =
      if (from <=? type) && (type <=? to) && (0 <? type) && (type <? Z.of_nat DISPATCH_MAX) then f else dispatch_lookup type t.
Proof.
  intros Ht Hf. destruct (range_loop_spec f to DISPATCH_MAX from t Ht Hf) as (t' & E & Hl & Hk); [lia|].
  exists t'. split_and!; [exact E|done|]. intros type. unfold dispatch_lookup.
  destruct (Z.ltb_spec 0 type); [|by rewrite andb_false_r; cbn [andb]].
  destruct (Z.ltb_spec type (Z.of_nat DISPATCH_MAX)); [|by rewrite !andb_false_r].
  cbn [andb]. rewrite !andb_true_r. rewrite Hk, Z2Nat.id by lia. rewrite (proj2 (Nat.ltb_lt _ _)) by lia.
  rewrite andb_true_r. by destruct ((from <=? type) && (type <=? to)).
Qed.
End Table.

Lemma dispatch_range_table_witness :
  ∃ t', dispatch_range 1 (2 ^ 32 - 1) (Some 7%nat) (dispatch_init (Some 0%nat)) = Ok t' ∧ length t' = DISPATCH_MAX ∧
    dispatch_lookup 254 t' = Some 7%nat.
Proof.
  destruct (dispatch_range_table 1 (2 ^ 32 - 1) (Some 7%nat) (dispatch_init (Some 0%nat))) as (t' & E & Hl & Hk);
    [reflexivity|lia|]. exists t'. split_and!; [exact E|exact Hl|]. rewrite (Hk 254). reflexivity.
Defined.

Section Dispatch.
Context `{Crypto} {fn : Type}.

Record dstate := mkDstate { d_ssh : ssh; d_table : list (option fn); d_net : list recv }.

(** Code of the packet layer, with the answers of the network that it uses. *)
Definition on_ssh {A} (m : M ssh A) : M dstate A :=
  λ s, '(a, ss) ← m (d_ssh s); Ok (a, mkDstate ss (d_table s) (d_net s)).
Definition on_net {A} (m : list recv → M ssh (A * list recv)) : M dstate A :=
  λ s, '(a, net, ss) ← m (d_net s) (d_ssh s); Ok (a, mkDstate ss (d_table s) net).

(** What a handler does with the type and the sequence number of a packet. *)
Context (handler : fn → Z → Z → M dstate unit).

Definition dispatch_protocol_error (sel : list bool) (fuel : nat) (type seq : Z) : M dstate unit :=
  on_ssh (
    c20 ← gets compat20;
    if negb c20 then fatal "protocol error"
    else
      _ ← packet_start SSH2_MSG_UNIMPLEMENTED;
      _ ← packet_put_int seq;
      _ ← packet_send;
      packet_write_wait sel fuel).
Definition dispatch_protocol_ignore (type seq : Z) : M dstate unit := skip.

(** [done] is [None] for a NULL pointer; [sel] and [write_fuel] are for the
    writes of [packet_read_seqnr]. *)
Fixpoint dispatch_run (fuel : nat) (sel : list bool) (write_fuel : nat) (mode : dispatch_mode)
    (done : option (dstate → bool)) : M dstate unit :=
  match fuel with
  | O => λ _, NoFuel
  | S fuel =>
      '(type, seqnr) ← (match mode with
                        | DISPATCH_BLOCK => on_net (packet_read_seqnr sel write_fuel)
                        | DISPATCH_NONBLOCK => on_ssh packet_read_poll_seqnr
                        end);
      if (match mode with DISPATCH_NONBLOCK => type =? SSH_MSG_NONE | DISPATCH_BLOCK => false end) then skip
      else
        t ← gets d_table;
        _ ← match dispatch_lookup type t with
            | Some f => handler f type seqnr
            | None => on_ssh (packet_disconnect "protocol error")
            end;
        stop ← gets (λ s, match done with Some d => d s | None => false end);
        if stop : bool then skip else dispatch_run fuel sel write_fuel mode done
  end.

End Dispatch.
