(* ===== verification/Nchan.v ===== *)
(** * Closing channels ([nchan.c])

    A channel ([struct Channel] of [channels.h]) has a half for each direction
    with a state of its own; the functions of [nchan.c] react to events of the
    local end and to messages of the other side, and send messages themselves.
    The state of a function here is the channel, the messages it has sent, the
    system calls on its descriptors, and the calls of [error()].

    What these functions send goes through [packet_start], [packet_put_*] and
    [packet_send]; a message is its type and the items put, see [send_msg]. *)

From S2P Require Import Prelude ByteOrder Buffer Crc32 Deattack Stdio SuperTrace HashMap Csbuflo.
From S2P Require Import CipherMac Packet.

Definition SSH_CHANNEL_X11_LISTENER : Z := 1.
Definition SSH_CHANNEL_PORT_LISTENER : Z := 2.
Definition SSH_CHANNEL_OPENING : Z := 3.
Definition SSH_CHANNEL_OPEN : Z := 4.
Definition SSH_CHANNEL_CLOSED : Z := 5.
Definition SSH_CHANNEL_AUTH_SOCKET : Z := 6.
Definition SSH_CHANNEL_X11_OPEN : Z := 7.
Definition SSH_CHANNEL_INPUT_DRAINING : Z := 8.
Definition SSH_CHANNEL_OUTPUT_DRAINING : Z := 9.
Definition SSH_CHANNEL_LARVAL : Z := 10.
Definition SSH_CHANNEL_RPORT_LISTENER : Z := 11.
Definition SSH_CHANNEL_CONNECTING : Z := 12.
Definition SSH_CHANNEL_DYNAMIC : Z := 13.
Definition SSH_CHANNEL_ZOMBIE : Z := 14.
Definition SSH_CHANNEL_MUX_LISTENER : Z := 15.
Definition SSH_CHANNEL_MUX_CLIENT : Z := 16.
Definition SSH_CHANNEL_MAX_TYPE : Z := 17.

Definition CHAN_EXTENDED_IGNORE : Z := 0.
Definition CHAN_EXTENDED_READ : Z := 1.
Definition CHAN_EXTENDED_WRITE : Z := 2.

Definition CHAN_INPUT_OPEN : Z := 0.
Definition CHAN_INPUT_WAIT_DRAIN : Z := 1.
Definition CHAN_INPUT_WAIT_OCLOSE : Z := 2.
Definition CHAN_INPUT_CLOSED : Z := 3.
Definition CHAN_OUTPUT_OPEN : Z := 0.
Definition CHAN_OUTPUT_WAIT_DRAIN : Z := 1.
Definition CHAN_OUTPUT_WAIT_IEOF : Z := 2.
Definition CHAN_OUTPUT_CLOSED : Z := 3.

(** The positions of the bits 0x01 to 0x10 of [flags]. *)
Definition CHAN_CLOSE_SENT : Z := 0.
Definition CHAN_CLOSE_RCVD : Z := 1.
Definition CHAN_EOF_SENT : Z := 2.
Definition CHAN_EOF_RCVD : Z := 3.
Definition CHAN_LOCAL : Z := 4.

Definition SSH_MSG_CHANNEL_INPUT_EOF : Z := 24.
Definition SSH_MSG_CHANNEL_OUTPUT_CLOSE : Z := 25.
Definition SSH2_MSG_CHANNEL_EOF : Z := 96.
Definition SSH2_MSG_CHANNEL_CLOSE : Z := 97.
Definition SSH2_MSG_CHANNEL_REQUEST : Z := 98.
Definition SSH_BUG_EXTEOF : Z := 0x200000.
Definition SSH_NEW_OPENSSH : Z := 0x4000000.

(** [struct Channel], without the fields for names, filters, callbacks, X11 and
    multiplexing that the modelled code does not read. *)
Record Channel := mkChannel {
  c_type : Z;
  c_self : Z;
  c_remote_id : Z;
  c_istate : Z;
  c_ostate : Z;
  c_flags : Z;
  c_rfd : Z;
  c_wfd : Z;
  c_efd : Z;
  c_sock : Z;
  c_isatty : Z;
  c_force_drain : Z;
  c_delayed : Z;
  c_input : Buffer;
  c_output : Buffer;
  c_extended : Buffer;
  c_remote_window : Z;
  c_remote_maxpacket : Z;
  c_local_window : Z;
  c_local_window_max : Z;
  c_local_consumed : Z;
  c_local_maxpacket : Z;
  c_extended_usage : Z;
  c_ctype : list Z;
  c_datagram : Z;
  c_detach_user : bool;        (* a callback is registered *)
  c_detach_close : Z
}.
#[export] Instance eta_Channel : Eta Channel := λ c,
  {| c_type := c_type c; c_self := c_self c; c_remote_id := c_remote_id c; c_istate := c_istate c; c_ostate := c_ostate c;
     c_flags := c_flags c; c_rfd := c_rfd c; c_wfd := c_wfd c; c_efd := c_efd c; c_sock := c_sock c; c_isatty := c_isatty c;
     c_force_drain := c_force_drain c; c_delayed := c_delayed c; c_input := c_input c; c_output := c_output c;
     c_extended := c_extended c; c_remote_window := c_remote_window c; c_remote_maxpacket := c_remote_maxpacket c;
     c_local_window := c_local_window c; c_local_window_max := c_local_window_max c; c_local_consumed := c_local_consumed c;
     c_local_maxpacket := c_local_maxpacket c; c_extended_usage := c_extended_usage c; c_ctype := c_ctype c;
     c_datagram := c_datagram c; c_detach_user := c_detach_user c; c_detach_close := c_detach_close c |}.

(** A message: its type and what is put into it. *)
Record msg := mkMsg { m_type_of : Z; m_items : list Items.item }.

(** System calls on the descriptors, and [packet_send_ignore(n); packet_send()]. *)
Inductive syscall := Shutdown_read (fd : Z) | Shutdown_write (fd : Z) | Shutdown_both (fd : Z) | Close_fd (fd : Z) | Send_ignore (n : Z).

(** The state of the functions on one channel. *)
Record cstate := mkCstate { ch : Channel; sent : list msg; calls : list syscall; errors : list string }.
#[export] Instance eta_cstate : Eta cstate := λ s,
  {| ch := ch s; sent := sent s; calls := calls s; errors := errors s |}.

Definition getC {A} (f : Channel → A) : M cstate A := gets (λ s, f (ch s)).
Definition modC (f : Channel → Channel) : M cstate unit := modify (λ s, s <| ch := f (ch s) |>).
Definition send (type : Z) (items : list Items.item) : M cstate unit :=
  modify (λ s, s <| sent := sent s ++ [mkMsg type items] |>).
Definition call (x : syscall) : M cstate unit := modify (λ s, s <| calls := calls s ++ [x] |>).
Definition error (e : string) : M cstate unit := modify (λ s, s <| errors := errors s ++ [e] |>).

Definition fatalC {A} (e : string) : M cstate A := λ _, Fatal e.

Definition flag (bit : Z) (c : Channel) : bool := Z.testbit (c_flags c) bit.
Definition set_flag (bit : Z) (c : Channel) : Channel := c <| c_flags := Z.setbit (c_flags c) bit |>.

Section Nchan.
Context (compat20 : bool) (datafellows : Z).

Definition chan_set_istate (next : Z) : M cstate unit :=
  i ← getC c_istate;
  if (CHAN_INPUT_CLOSED <? i) || (CHAN_INPUT_CLOSED <? next) then fatalC "chan_set_istate: bad state"
  else modC (λ c, c <| c_istate := next |>).
Definition chan_set_ostate (next : Z) : M cstate unit :=
  o ← getC c_ostate;
  if (CHAN_OUTPUT_CLOSED <? o) || (CHAN_OUTPUT_CLOSED <? next) then fatalC "chan_set_ostate: bad state"
  else modC (λ c, c <| c_ostate := next |>).

(** ** Helpers *)

(** [channel_close_fd(&c->fd)]; the upper bound [channel_max_fd] for [select] is
    not kept. *)
Definition channel_close_fd (fd : Z) (clear : Channel → Channel) : M cstate unit :=
  if negb (fd =? -1) then _ ← call (Close_fd fd); modC clear else skip.

(** The results of [shutdown] and [close] are only logged. *)
Definition chan_shutdown_write : M cstate unit :=
  _ ← modC (λ c, c <| c_output := buffer_clear (c_output c) |>);
  type ← getC c_type;
  if compat20 && (type =? SSH_CHANNEL_LARVAL) then skip
  else
    sock ← getC c_sock;
    if negb (sock =? -1) then call (Shutdown_write sock)
    else wfd ← getC c_wfd; channel_close_fd wfd (λ c, c <| c_wfd := -1 |>).
Definition chan_shutdown_read : M cstate unit :=
  type ← getC c_type;
  if compat20 && (type =? SSH_CHANNEL_LARVAL) then skip
  else
    sock ← getC c_sock;
    if negb (sock =? -1) then call (Shutdown_read sock)
    else rfd ← getC c_rfd; channel_close_fd rfd (λ c, c <| c_rfd := -1 |>).

(** ** Actions *)

Definition chan_send_ieof1 : M cstate unit :=
  i ← getC c_istate;
  if (i =? CHAN_INPUT_OPEN) || (i =? CHAN_INPUT_WAIT_DRAIN)
  then r ← getC c_remote_id; send SSH_MSG_CHANNEL_INPUT_EOF [Items.Int r]
  else error "cannot send ieof".
Definition chan_send_oclose1 : M cstate unit :=
  o ← getC c_ostate;
  if (o =? CHAN_OUTPUT_OPEN) || (o =? CHAN_OUTPUT_WAIT_DRAIN) then
    _ ← modC (λ c, c <| c_output := buffer_clear (c_output c) |>);
    r ← getC c_remote_id; send SSH_MSG_CHANNEL_OUTPUT_CLOSE [Items.Int r]
  else error "cannot send oclose".
Definition chan_send_eof2 : M cstate unit :=
  i ← getC c_istate;
  if i =? CHAN_INPUT_WAIT_DRAIN then
    r ← getC c_remote_id;
    _ ← send SSH2_MSG_CHANNEL_EOF [Items.Int r];
    modC (set_flag CHAN_EOF_SENT)
  else error "cannot send eof".
Definition chan_send_close2 : M cstate unit :=
  c ← getC id;
  if negb (c_ostate c =? CHAN_OUTPUT_CLOSED) || negb (c_istate c =? CHAN_INPUT_CLOSED) then error "cannot send close"
  else if flag CHAN_CLOSE_SENT c then error "already sent close"
  else
    _ ← send SSH2_MSG_CHANNEL_CLOSE [Items.Int (c_remote_id c)];
    modC (set_flag CHAN_CLOSE_SENT).

(** "eow@openssh.com" and "session" *)
Definition EOW : list Z := [101; 111; 119; 64; 111; 112; 101; 110; 115; 115; 104; 46; 99; 111; 109].
Definition SESSION : list Z := [115; 101; 115; 115; 105; 111; 110].

Definition chan_send_eow2 : M cstate unit :=
  c ← getC id;
  if c_ostate c =? CHAN_OUTPUT_CLOSED then error "must not sent eow on closed output"
  else if Z.land datafellows SSH_NEW_OPENSSH =? 0 then skip
  else send SSH2_MSG_CHANNEL_REQUEST [Items.Int (c_remote_id c); Items.CString EOW; Items.Char 0].

(** ** Events, protocol 1 *)

Definition chan_rcvd_oclose1 : M cstate unit :=
  i ← getC c_istate;
  if i =? CHAN_INPUT_WAIT_OCLOSE then chan_set_istate CHAN_INPUT_CLOSED
  else if i =? CHAN_INPUT_OPEN then
    _ ← chan_shutdown_read; _ ← chan_send_ieof1; chan_set_istate CHAN_INPUT_CLOSED
  else if i =? CHAN_INPUT_WAIT_DRAIN then _ ← chan_send_ieof1; chan_set_istate CHAN_INPUT_CLOSED
  else error "protocol error: rcvd_oclose".
Definition chan_rcvd_ieof1 : M cstate unit :=
  o ← getC c_ostate;
  if o =? CHAN_OUTPUT_OPEN then chan_set_ostate CHAN_OUTPUT_WAIT_DRAIN
  else if o =? CHAN_OUTPUT_WAIT_IEOF then chan_set_ostate CHAN_OUTPUT_CLOSED
  else error "protocol error: rcvd_ieof".
Definition chan_write_failed1 : M cstate unit :=
  o ← getC c_ostate;
  if o =? CHAN_OUTPUT_OPEN then
    _ ← chan_shutdown_write; _ ← chan_send_oclose1; chan_set_ostate CHAN_OUTPUT_WAIT_IEOF
  else if o =? CHAN_OUTPUT_WAIT_DRAIN then
    _ ← chan_shutdown_write; _ ← chan_send_oclose1; chan_set_ostate CHAN_OUTPUT_CLOSED
  else error "chan_write_failed".

(** ** Events, protocol 2 *)

Definition chan_rcvd_close2 : M cstate unit :=
  l ← getC (flag CHAN_LOCAL);
  _ ← when (negb l) (
    r ← getC (flag CHAN_CLOSE_RCVD);
    _ ← when r (error "protocol error: close rcvd twice");
    modC (set_flag CHAN_CLOSE_RCVD));
  type ← getC c_type;
  if type =? SSH_CHANNEL_LARVAL then
    _ ← chan_set_ostate CHAN_OUTPUT_CLOSED; chan_set_istate CHAN_INPUT_CLOSED
  else
    o ← getC c_ostate;
    _ ← when (o =? CHAN_OUTPUT_OPEN) (chan_set_ostate CHAN_OUTPUT_WAIT_DRAIN);
    i ← getC c_istate;
    if i =? CHAN_INPUT_OPEN then _ ← chan_shutdown_read; chan_set_istate CHAN_INPUT_CLOSED
    else if i =? CHAN_INPUT_WAIT_DRAIN then
      l ← getC (flag CHAN_LOCAL);
      _ ← when (negb l) chan_send_eof2;
      chan_set_istate CHAN_INPUT_CLOSED
    else skip.
Definition chan_rcvd_eow : M cstate unit :=
  i ← getC c_istate;
  when (i =? CHAN_INPUT_OPEN) (_ ← chan_shutdown_read; chan_set_istate CHAN_INPUT_CLOSED).
Definition chan_rcvd_eof2 : M cstate unit :=
  _ ← modC (set_flag CHAN_EOF_RCVD);
  o ← getC c_ostate;
  when (o =? CHAN_OUTPUT_OPEN) (chan_set_ostate CHAN_OUTPUT_WAIT_DRAIN).
Definition chan_write_failed2 : M cstate unit :=
  o ← getC c_ostate;
  if (o =? CHAN_OUTPUT_OPEN) || (o =? CHAN_OUTPUT_WAIT_DRAIN) then
    _ ← chan_shutdown_write;
    t ← getC c_ctype;
    _ ← when (bool_decide (t = SESSION)) chan_send_eow2;
    chan_set_ostate CHAN_OUTPUT_CLOSED
  else error "chan_write_failed".

(** ** Events of both protocols *)

Definition chan_read_failed : M cstate unit :=
  i ← getC c_istate;
  if i =? CHAN_INPUT_OPEN then _ ← chan_shutdown_read; chan_set_istate CHAN_INPUT_WAIT_DRAIN
  else error "chan_read_failed".
Definition chan_ibuf_empty : M cstate unit :=
  b ← getC c_input;
  if negb (buffer_len b =? 0) then error "chan_ibuf_empty for non empty buffer"
  else
    i ← getC c_istate;
    if i =? CHAN_INPUT_WAIT_DRAIN then
      if compat20 then
        c ← getC id;
        _ ← when (negb (flag CHAN_CLOSE_SENT c || flag CHAN_LOCAL c)) chan_send_eof2;
        chan_set_istate CHAN_INPUT_CLOSED
      else _ ← chan_send_ieof1; chan_set_istate CHAN_INPUT_WAIT_OCLOSE
    else error "chan_ibuf_empty".
Definition chan_obuf_empty : M cstate unit :=
  b ← getC c_output;
  if negb (buffer_len b =? 0) then error "chan_obuf_empty for non empty buffer"
  else
    o ← getC c_ostate;
    if o =? CHAN_OUTPUT_WAIT_DRAIN then
      _ ← chan_shutdown_write;
      _ ← when (negb compat20) chan_send_oclose1;
      chan_set_ostate CHAN_OUTPUT_CLOSED
    else error "internal error: obuf_empty".

(** The macros [CHANNEL_EFD_INPUT_ACTIVE] and [CHANNEL_EFD_OUTPUT_ACTIVE]. *)
Definition efd_input_active (c : Channel) : bool :=
  compat20 && (c_extended_usage c =? CHAN_EXTENDED_READ) &&
  (negb (c_efd c =? -1) || (0 <? buffer_len (c_extended c))).
Definition efd_output_active (c : Channel) : bool :=
  compat20 && (c_extended_usage c =? CHAN_EXTENDED_WRITE) && negb (c_efd c =? -1) &&
  (negb (flag CHAN_EOF_RCVD c || flag CHAN_CLOSE_RCVD c) || (0 <? buffer_len (c_extended c))).

Definition chan_rcvd_ieof : M cstate unit :=
  _ ← (if compat20 then chan_rcvd_eof2 else chan_rcvd_ieof1);
  c ← getC id;
  when ((c_ostate c =? CHAN_OUTPUT_WAIT_DRAIN) && (buffer_len (c_output c) =? 0) && negb (efd_output_active c)) chan_obuf_empty.
Definition chan_rcvd_oclose : M cstate unit := if compat20 then chan_rcvd_close2 else chan_rcvd_oclose1.
Definition chan_write_failed : M cstate unit := if compat20 then chan_write_failed2 else chan_write_failed1.
Definition chan_mark_dead : M cstate unit := modC (λ c, c <| c_type := SSH_CHANNEL_ZOMBIE |>).

Definition chan_is_dead (do_send : bool) : M cstate bool :=
  c ← getC id;
  if c_type c =? SSH_CHANNEL_ZOMBIE then mret true
  else if negb (c_istate c =? CHAN_INPUT_CLOSED) || negb (c_ostate c =? CHAN_OUTPUT_CLOSED) then mret false
  else if negb compat20 then mret true
  else if negb (Z.land datafellows SSH_BUG_EXTEOF =? 0) && (c_extended_usage c =? CHAN_EXTENDED_WRITE) &&
          negb (c_efd c =? -1) && (0 <? buffer_len (c_extended c)) then mret false
  else if flag CHAN_LOCAL c then mret true
  else if negb (flag CHAN_CLOSE_SENT c) && negb do_send && flag CHAN_CLOSE_RCVD c then mret true
  else
    _ ← when (negb (flag CHAN_CLOSE_SENT c) && do_send) chan_send_close2;
    c ← getC id;
    mret (flag CHAN_CLOSE_SENT c && flag CHAN_CLOSE_RCVD c).

End Nchan.

(** A message through the packet layer. *)
Section Send.
Context `{Crypto}.
Definition put_item (i : Items.item) : M ssh unit :=
  match i with
  | Items.Int v => packet_put_int v
  | Items.Char v => packet_put_char v
  | Items.String s => packet_put_string s
  | Items.CString s => packet_put_cstring (Some s)
  | Items.Int64 v => packet_put_int64 v
  | Items.Short _ => skip    (* the packet layer has no such function *)
  end.
Fixpoint put_items (l : list Items.item) : M ssh unit :=
  match l with [] => skip | i :: l => _ ← put_item i; put_items l end.
Definition send_msg (m : msg) : M ssh unit :=
  _ ← packet_start (m_type_of m); _ ← put_items (m_items m); packet_send.
End Send.
