(* ===== verification/NchanProofs.v ===== *)
(** * Closing channels: theorems

    What one end of a channel may send while it is closed, whatever happens to
    it; and that two ends that follow [nchan.c] never run into a protocol error
    and both come to the conclusion that the channel is dead. *)

From stdpp Require Import relations.
From S2P Require Import Prelude ByteOrder Buffer Crc32 Deattack Stdio SuperTrace HashMap Csbuflo.
From S2P Require Import CipherMac Packet Nchan.

(** ** Events *)

Inductive event :=
| Read_failed | Ibuf_empty | Obuf_empty | Write_failed
| Rcvd_ieof | Rcvd_oclose
| Rcvd_eow                       (* a request of protocol 2 *)
| Collect (do_send : bool)       (* chan_is_dead *)
| Mark_dead
| Force_drain                    (* channel_input_ieof, client_simple_escape_filter: c->istate = CHAN_INPUT_WAIT_DRAIN *)
| Traffic (input output extended : Buffer) (efd : Z).

Section Events.
Context (compat20 : bool) (datafellows : Z).

Definition step (e : event) : M cstate unit :=
  match e with
  | Read_failed => chan_read_failed compat20
  | Ibuf_empty => chan_ibuf_empty compat20
  | Obuf_empty => chan_obuf_empty compat20
  | Write_failed => chan_write_failed compat20 datafellows
  | Rcvd_ieof => chan_rcvd_ieof compat20
  | Rcvd_oclose => chan_rcvd_oclose compat20
  | Rcvd_eow => when compat20 (chan_rcvd_eow compat20)
  | Collect do_send => _ ← chan_is_dead compat20 datafellows do_send; skip
  | Mark_dead => chan_mark_dead
  | Force_drain => i ← getC c_istate; when (i =? CHAN_INPUT_OPEN) (modC (λ c, c <| c_istate := CHAN_INPUT_WAIT_DRAIN |>))
  | Traffic a b x efd =>
      modC (λ c, c <| c_input := a |> <| c_output := b |> <| c_extended := x |> <| c_efd := efd |>)
  end.
Fixpoint steps (es : list event) : M cstate unit :=
  match es with [] => skip | e :: es => _ ← step e; steps es end.
End Events.

(** ** What the helpers leave alone *)

Record same (s s' : cstate) : Prop := {
  sm_type : c_type (ch s') = c_type (ch s);
  sm_rid : c_remote_id (ch s') = c_remote_id (ch s);
  sm_i : c_istate (ch s') = c_istate (ch s);
  sm_o : c_ostate (ch s') = c_ostate (ch s);
  sm_flags : c_flags (ch s') = c_flags (ch s);
  sm_ctype : c_ctype (ch s') = c_ctype (ch s);
  sm_sent : sent s' = sent s;
  sm_err : errors s' = errors s
}.

Lemma chan_shutdown_read_same c20 s : ∃ s', chan_shutdown_read c20 s = Ok (tt, s') ∧ same s s'.
Proof.
  unfold chan_shutdown_read. mstep. destruct (_ && _); [by eexists|]. mstep. destruct (negb _); [by eexists|].
  mstep. unfold channel_close_fd. destruct (negb _); [mstep|]; by eexists.
Qed.
Lemma chan_shutdown_write_same c20 s : ∃ s', chan_shutdown_write c20 s = Ok (tt, s') ∧ same s s'.
Proof.
  unfold chan_shutdown_write. mstep. mstep. destruct (_ && _); [by eexists|]. mstep. destruct (negb _); [by eexists|].
  mstep. unfold channel_close_fd. destruct (negb _); [mstep|]; by eexists.
Qed.

Definition in_range (s : cstate) : Prop := 0 ≤ c_istate (ch s) ≤ 3 ∧ 0 ≤ c_ostate (ch s) ≤ 3.

Lemma set_istate_ok n s :
  c_istate (ch s) ≤ 3 → n ≤ 3 → chan_set_istate n s = Ok (tt, s <| ch := (ch s) <| c_istate := n |> |>).
Proof. intros Hi Hn. unfold chan_set_istate. mstep. unfold CHAN_INPUT_CLOSED. zdec. done. Qed.
Lemma set_ostate_ok n s :
  c_ostate (ch s) ≤ 3 → n ≤ 3 → chan_set_ostate n s = Ok (tt, s <| ch := (ch s) <| c_ostate := n |> |>).
Proof. intros Hi Hn. unfold chan_set_ostate. mstep. unfold CHAN_OUTPUT_CLOSED. zdec. done. Qed.

(** ** The two protocols, as transitions of one end

    The states of the two halves, the messages sent and the complaints, with
    what the end has received as parameters. *)

Definition ieof1 (r : Z) : msg := mkMsg SSH_MSG_CHANNEL_INPUT_EOF [Items.Int r].
Definition oclose1 (r : Z) : msg := mkMsg SSH_MSG_CHANNEL_OUTPUT_CLOSE [Items.Int r].
Definition eof2 (r : Z) : msg := mkMsg SSH2_MSG_CHANNEL_EOF [Items.Int r].
Definition close2 (r : Z) : msg := mkMsg SSH2_MSG_CHANNEL_CLOSE [Items.Int r].
Definition eow2 (r : Z) : msg := mkMsg SSH2_MSG_CHANNEL_REQUEST [Items.Int r; Items.CString EOW; Items.Char 0].

(** The halves afterwards, what was sent and complained about. *)
Record result (s s' : cstate) (i o : Z) (new : list msg) (errs : list string) : Prop := {
  rs_i : c_istate (ch s') = i;
  rs_o : c_ostate (ch s') = o;
  rs_sent : sent s' = sent s ++ new;
  rs_err : errors s' = errors s ++ errs;
  rs_rid : c_remote_id (ch s') = c_remote_id (ch s);
  rs_ctype : c_ctype (ch s') = c_ctype (ch s);
  rs_flags : c_flags (ch s') = c_flags (ch s)
}.

Ltac same_in H := destruct H as [?Hty ?Hrid ?Hi ?Ho ?Hfl ?Hct ?Hse ?Her].
(** The result of a straight piece of code. *)
Ltac res := split; cbv beta; rsimpl; rewrite ?app_nil_r in *; first [done|congruence].
Ltac finish := eexists; split; [reflexivity|]; res.

Section Protocol1.
Abbreviation I s := (c_istate (ch s)).
Abbreviation O s := (c_ostate (ch s)).
Abbreviation rid s := (c_remote_id (ch s)).

Lemma read_failed_result c20 s :
  in_range s → ∃ s', chan_read_failed c20 s = Ok (tt, s') ∧
    if I s =? 0 then result s s' 1 (O s) [] [] else result s s' (I s) (O s) [] ["chan_read_failed"%string].
Proof.
  intros [Hi Ho]. unfold chan_read_failed. mstep. unfold CHAN_INPUT_OPEN. destruct (I s =? 0) eqn:E; [|finish].
  destruct (chan_shutdown_read_same c20 s) as (s1 & E1 & Hs). mstep_by E1. same_in Hs.
  rewrite set_istate_ok by (unfold CHAN_INPUT_WAIT_DRAIN; lia). finish.
Qed.

Lemma send_ieof1_ok s :
  I s = 0 ∨ I s = 1 → chan_send_ieof1 s = Ok (tt, s <| sent := sent s ++ [ieof1 (rid s)] |>).
Proof. intros [E|E]; unfold chan_send_ieof1; mstep; rewrite E; reflexivity. Qed.
Lemma send_oclose1_ok s :
  O s = 0 ∨ O s = 1 → ∃ s', chan_send_oclose1 s = Ok (tt, s') ∧ result s s' (I s) (O s) [oclose1 (rid s)] [].
Proof. intros [E|E]; unfold chan_send_oclose1, CHAN_OUTPUT_OPEN, CHAN_OUTPUT_WAIT_DRAIN; mstep; rewrite E; cbn [Z.eqb Pos.eqb orb]; mstep; mstep; finish. Qed.

Lemma ibuf_empty_result1 s :
  in_range s → ∃ s', chan_ibuf_empty false s = Ok (tt, s') ∧
    (I s = 1 ∧ result s s' 2 (O s) [ieof1 (rid s)] [] ∨
     ∃ x, String.prefix "protocol error" x = false ∧ result s s' (I s) (O s) [] [x]).
Proof.
  intros [Hi Ho]. unfold chan_ibuf_empty. mstep. destruct (negb _).
  { eexists. split; [reflexivity|]. right. exists "chan_ibuf_empty for non empty buffer"%string. split; [done|]. res. }
  mstep. destruct (Z.eqb_spec (I s) CHAN_INPUT_WAIT_DRAIN) as [E|E].
  - mstep_by (send_ieof1_ok s (or_intror E)). rewrite set_istate_ok by (rsimpl; unfold CHAN_INPUT_WAIT_OCLOSE; lia).
    eexists. split; [reflexivity|]. left. split; [done|]. res.
  - eexists. split; [reflexivity|]. right. exists "chan_ibuf_empty"%string. split; [done|]. res.
Qed.

Lemma obuf_empty_result1 s :
  in_range s → ∃ s', chan_obuf_empty false s = Ok (tt, s') ∧
    (O s = 1 ∧ result s s' (I s) 3 [oclose1 (rid s)] [] ∨
     ∃ x, String.prefix "protocol error" x = false ∧ result s s' (I s) (O s) [] [x]).
Proof.
  intros [Hi Ho]. unfold chan_obuf_empty. mstep. destruct (negb _).
  { eexists. split; [reflexivity|]. right. exists "chan_obuf_empty for non empty buffer"%string. split; [done|]. res. }
  mstep. destruct (Z.eqb_spec (O s) CHAN_OUTPUT_WAIT_DRAIN) as [E|E].
  - destruct (chan_shutdown_write_same false s) as (s1 & E1 & Hs). mstep_by E1. same_in Hs.
    destruct (send_oclose1_ok s1) as (s2 & E2 & [? ? ? ? ? ? ?]); [right; by rewrite Ho0|]. cbn [negb when].
    mstep_by E2. rewrite set_ostate_ok by (unfold CHAN_OUTPUT_CLOSED; lia).
    eexists. split; [reflexivity|]. left. split; [done|]. res.
  - eexists. split; [reflexivity|]. right. exists "internal error: obuf_empty"%string. split; [done|]. res.
Qed.

Lemma write_failed_result1 s :
  in_range s → ∃ s', chan_write_failed1 false s = Ok (tt, s') ∧
    (O s = 0 ∧ result s s' (I s) 2 [oclose1 (rid s)] [] ∨ O s = 1 ∧ result s s' (I s) 3 [oclose1 (rid s)] [] ∨
     result s s' (I s) (O s) [] ["chan_write_failed"%string]).
Proof.
  intros [Hi Ho]. unfold chan_write_failed1. mstep.
  destruct (chan_shutdown_write_same false s) as (s1 & E1 & Hs). same_in Hs.
  destruct (Z.eqb_spec (O s) CHAN_OUTPUT_OPEN) as [E|E].
  - mstep_by E1. destruct (send_oclose1_ok s1) as (s2 & E2 & [? ? ? ? ? ? ?]); [left; by rewrite Ho0|].
    mstep_by E2. rewrite set_ostate_ok by (unfold CHAN_OUTPUT_WAIT_IEOF; lia).
    eexists. split; [reflexivity|]. left. split; [done|]. res.
  - destruct (Z.eqb_spec (O s) CHAN_OUTPUT_WAIT_DRAIN) as [E'|E'].
    + mstep_by E1. destruct (send_oclose1_ok s1) as (s2 & E2 & [? ? ? ? ? ? ?]); [right; by rewrite Ho0|].
      mstep_by E2. rewrite set_ostate_ok by (unfold CHAN_OUTPUT_CLOSED; lia).
      eexists. split; [reflexivity|]. right; left. split; [done|]. res.
    + eexists. split; [reflexivity|]. right; right. res.
Qed.

Lemma rcvd_ieof1_result s :
  in_range s → ∃ s' o' errs, chan_rcvd_ieof1 s = Ok (tt, s') ∧ result s s' (I s) o' [] errs ∧
    (O s = 0 ∧ o' = 1 ∧ errs = [] ∨ O s = 2 ∧ o' = 3 ∧ errs = [] ∨
     (O s = 1 ∨ O s = 3) ∧ o' = O s ∧ errs = ["protocol error: rcvd_ieof"%string]).
Proof.
  intros [Hi Ho]. unfold chan_rcvd_ieof1, CHAN_OUTPUT_OPEN, CHAN_OUTPUT_WAIT_IEOF. mstep.
  destruct (Z.eqb_spec (O s) 0) as [E|E]; [|destruct (Z.eqb_spec (O s) 2) as [E'|E']].
  - rewrite set_ostate_ok by (unfold CHAN_OUTPUT_WAIT_DRAIN; lia). eexists _, 1, []. split; [reflexivity|]. split; [res|auto].
  - rewrite set_ostate_ok by (unfold CHAN_OUTPUT_CLOSED; lia). eexists _, 3, []. split; [reflexivity|]. split; [res|auto].
  - eexists _, (O s), ["protocol error: rcvd_ieof"%string]. split; [reflexivity|]. split; [res|]. right; right. split_and!; [lia|done..].
Qed.

Lemma rcvd_oclose1_result s :
  in_range s → ∃ s' new errs, chan_rcvd_oclose1 false s = Ok (tt, s') ∧ result s s' 3 (O s) new errs ∧
    ((I s = 0 ∨ I s = 1) ∧ new = [ieof1 (rid s)] ∧ errs = [] ∨ I s = 2 ∧ new = [] ∧ errs = [] ∨
     I s = 3 ∧ new = [] ∧ errs = ["protocol error: rcvd_oclose"%string]).
Proof.
  intros [Hi Ho]. unfold chan_rcvd_oclose1, CHAN_INPUT_WAIT_OCLOSE, CHAN_INPUT_OPEN, CHAN_INPUT_WAIT_DRAIN. mstep.
  destruct (Z.eqb_spec (I s) 2) as [E|E]; [|destruct (Z.eqb_spec (I s) 0) as [E'|E']; [|destruct (Z.eqb_spec (I s) 1) as [E''|E'']]].
  - rewrite set_istate_ok by (unfold CHAN_INPUT_CLOSED; lia). eexists _, [], []. split; [reflexivity|]. split; [res|auto].
  - destruct (chan_shutdown_read_same false s) as (s1 & E1 & Hs). mstep_by E1. same_in Hs.
    mstep_by (send_ieof1_ok s1 (or_introl (eq_trans Hi0 E'))).
    rewrite set_istate_ok by (rsimpl; unfold CHAN_INPUT_CLOSED; lia). eexists _, [ieof1 (rid s)], []. split; [reflexivity|]. split; [res|]. auto.
  - mstep_by (send_ieof1_ok s (or_intror E'')).
    rewrite set_istate_ok by (rsimpl; unfold CHAN_INPUT_CLOSED; lia). eexists _, [ieof1 (rid s)], []. split; [reflexivity|]. split; [res|auto].
  - assert (E3 : I s = 3) by lia. eexists _, [], ["protocol error: rcvd_oclose"%string]. split; [reflexivity|]. split; [res|]. right; right. done.
Qed.

Lemma is_dead_result1 df b s : ∃ d, chan_is_dead false df b s = Ok (d, s).
Proof.
  unfold chan_is_dead. mstep. destruct (_ =? _); [by eexists|]. destruct (_ || _); by eexists.
Qed.

Lemma result_refl s : result s s (I s) (O s) [] [].
Proof. res. Qed.
Lemma result_trans s s1 s2 i1 o1 n1 e1 i2 o2 n2 e2 :
  result s s1 i1 o1 n1 e1 → result s1 s2 i2 o2 n2 e2 → result s s2 i2 o2 (n1 ++ n2) (e1 ++ e2).
Proof.
  intros [? ? Hs1 He1 ? ? ?] [? ? Hs2 He2 ? ? ?]. split; try congruence; [by rewrite Hs2, Hs1, app_assoc|by rewrite He2, He1, app_assoc].
Qed.

(** No complaint about the other side. *)
Definition honest (errs : list string) : Prop := Forall (λ x, String.prefix "protocol error" x = false) errs.

(** A transition of one end in protocol 1, from the halves [i] and [o] to [i']
    and [o'], sending [new]; [ieof] and [oclose] tell that this message has been
    received. *)
Inductive trans1 (r i o : Z) (ieof oclose : bool) (i' o' : Z) (new : list msg) (errs : list string) : Prop :=
| t1_quiet : ieof = false → oclose = false → i' = i → o' = o → new = [] → honest errs → trans1 r i o ieof oclose i' o' new errs
| t1_read : ieof = false → oclose = false → i = 0 → i' = 1 → o' = o → new = [] → errs = [] → trans1 r i o ieof oclose i' o' new errs
| t1_drained : ieof = false → oclose = false → i = 1 → i' = 2 → o' = o → new = [ieof1 r] → errs = [] → trans1 r i o ieof oclose i' o' new errs
| t1_write : ieof = false → oclose = false → i' = i → o = 0 ∧ o' = 2 ∨ o = 1 ∧ o' = 3 → new = [oclose1 r] → errs = [] →
    trans1 r i o ieof oclose i' o' new errs
| t1_ieof : ieof = true → oclose = false → i' = i → o = 0 ∧ o' = 1 ∧ new = [] ∨ o = 0 ∧ o' = 3 ∧ new = [oclose1 r] ∨ o = 2 ∧ o' = 3 ∧ new = [] →
    honest errs → trans1 r i o ieof oclose i' o' new errs
| t1_ieof_again : ieof = true → oclose = false → i' = i → o = 1 ∨ o = 3 → o' = o ∧ new = [] ∨ o = 1 ∧ o' = 3 ∧ new = [oclose1 r] →
    trans1 r i o ieof oclose i' o' new errs
| t1_oclose : ieof = false → oclose = true → i' = 3 → o' = o → (i = 0 ∨ i = 1) ∧ new = [ieof1 r] ∨ i = 2 ∧ new = [] → errs = [] →
    trans1 r i o ieof oclose i' o' new errs
| t1_oclose_again : ieof = false → oclose = true → i = 3 → i' = 3 → o' = o → new = [] → trans1 r i o ieof oclose i' o' new errs.

Definition is_ieof (e : event) : bool := match e with Rcvd_ieof => true | _ => false end.
Definition is_oclose (e : event) : bool := match e with Rcvd_oclose => true | _ => false end.

Lemma honest_nil : honest [].
Proof. constructor. Qed.
Lemma honest_one x : String.prefix "protocol error" x = false → honest [x].
Proof. intros Hx. by repeat constructor. Qed.
Hint Resolve honest_nil honest_one : core.

Lemma in_range_result s s' i o n e : result s s' i o n e → 0 ≤ i ≤ 3 → 0 ≤ o ≤ 3 → in_range s'.
Proof. intros [? ? _ _ _ _ _] ? ?. split; lia. Qed.

Lemma step1 df e s :
  in_range s → ∃ s' i' o' new errs, step false df e s = Ok (tt, s') ∧ result s s' i' o' new errs ∧
    trans1 (rid s) (I s) (O s) (is_ieof e) (is_oclose e) i' o' new errs.
Proof.
  intros Hr. pose proof Hr as [Hi Ho].
  destruct e as [| | | | | | |b| | |a b x efd]; cbn [step is_ieof is_oclose].
  - destruct (read_failed_result false s Hr) as (s' & E & Hs). destruct (Z.eqb_spec (I s) 0);
      eexists _, _, _, _, _; (split; [exact E|]); (split; [exact Hs|]); [by apply t1_read|apply t1_quiet; auto].
  - destruct (ibuf_empty_result1 s Hr) as (s' & E & [[? Hs]|(x & Hx & Hs)]);
      eexists _, _, _, _, _; (split; [exact E|]); (split; [exact Hs|]); [by apply t1_drained|apply t1_quiet; auto].
  - destruct (obuf_empty_result1 s Hr) as (s' & E & [[? Hs]|(x & Hx & Hs)]);
      eexists _, _, _, _, _; (split; [exact E|]); (split; [exact Hs|]); [apply t1_write; auto|apply t1_quiet; auto].
  - destruct (write_failed_result1 s Hr) as (s' & E & [[? Hs]|[[? Hs]|Hs]]);
      eexists _, _, _, _, _; (split; [exact E|]); (split; [exact Hs|]); [apply t1_write; auto..|apply t1_quiet; auto].
  - unfold chan_rcvd_ieof. destruct (rcvd_ieof1_result s Hr) as (s1 & o1 & errs & E & Hs & Hcase). mstep_by E. mstep.
    set (b := _ && _). destruct b eqn:Eb.
    2: { cbn [when]. eexists _, _, _, _, _. split; [reflexivity|]. split; [exact Hs|].
         destruct Hcase as [(? & -> & ->)|[(? & -> & ->)|(? & -> & ->)]]; [apply t1_ieof; auto..|apply t1_ieof_again; auto]. }
    assert (Hd : O s1 = 1). { unfold b in Eb. rewrite !andb_true_iff, Z.eqb_eq in Eb. apply Eb. }
    pose proof (rs_o _ _ _ _ _ _ Hs) as Ho1.
    destruct (obuf_empty_result1 s1) as (s2 & E2 & Hs2). { eapply in_range_result; [exact Hs|lia|lia]. }
    assert (Hrid : rid s1 = rid s) by apply (rs_rid _ _ _ _ _ _ Hs).
    pose proof (rs_i _ _ _ _ _ _ Hs) as Hi1.
    destruct Hs2 as [[_ Hs2]|(x & Hx & Hs2)].
    + rewrite Hi1, Hrid in Hs2. pose proof (result_trans _ _ _ _ _ _ _ _ _ _ _ Hs Hs2) as Ht. cbn [app] in Ht.
      rewrite app_nil_r in Ht. eexists _, _, _, _, _. split; [exact E2|]. split; [exact Ht|].
      destruct Hcase as [(? & ? & ->)|[(? & ? & ->)|(? & ? & ->)]]; [apply t1_ieof; auto|lia|apply t1_ieof_again; [auto..|right; split_and!; auto; lia]].
    + rewrite Hi1 in Hs2. pose proof (result_trans _ _ _ _ _ _ _ _ _ _ _ Hs Hs2) as Ht. cbn [app] in Ht.
      eexists _, _, _, _, _. split; [exact E2|]. split; [exact Ht|]. rewrite Hd.
      destruct Hcase as [(? & ? & ->)|[(? & ? & ->)|(? & ? & ->)]]; cbn [app];
        [apply t1_ieof; auto|lia|apply t1_ieof_again; [auto..|left; split; auto; lia]].
  - destruct (rcvd_oclose1_result s Hr) as (s' & new & errs & E & Hs & Hc).
    eexists _, _, _, _, _. split; [exact E|]. split; [exact Hs|].
    destruct Hc as [(? & -> & ->)|[(? & -> & ->)|(? & -> & ->)]]; [apply t1_oclose; auto..|by apply t1_oclose_again].
  - eexists _, _, _, _, _. split; [reflexivity|]. split; [apply result_refl|]. apply t1_quiet; auto.
  - destruct (is_dead_result1 df b s) as [d E]. mstep_by E.
    eexists _, _, _, _, _. split; [reflexivity|]. split; [apply result_refl|]. apply t1_quiet; auto.
  - eexists _, (I s), (O s), [], []. split; [reflexivity|]. split; [res|]. apply t1_quiet; auto.
  - mstep. unfold CHAN_INPUT_OPEN. destruct (Z.eqb_spec (I s) 0) as [E|E]; cbn [when].
    + eexists _, 1, (O s), [], []. split; [reflexivity|]. split; [res|]. by apply t1_read.
    + eexists _, _, _, _, _. split; [reflexivity|]. split; [apply result_refl|]. apply t1_quiet; auto.
  - eexists _, (I s), (O s), [], []. split; [reflexivity|]. split; [res|]. apply t1_quiet; auto.
Qed.
End Protocol1.

Section Protocol2.
Abbreviation I s := (c_istate (ch s)).
Abbreviation O s := (c_ostate (ch s)).
Abbreviation rid s := (c_remote_id (ch s)).
Abbreviation F b s := (flag b (ch s)).

(** In protocol 2 the halves are open, draining or closed. *)
Definition half (x : Z) : Prop := x = 0 ∨ x = 1 ∨ x = 3.
Definition halves (s : cstate) : Prop := half (I s) ∧ half (O s).

Lemma halves_range s : halves s → in_range s.
Proof. intros [[?|[?|?]] [?|[?|?]]]; split; lia. Qed.

(** What a transition of one end in protocol 2 sends. *)
Inductive sends2 (s s' : cstate) : list msg → Prop :=
| s2_nothing : F CHAN_EOF_SENT s' = F CHAN_EOF_SENT s → F CHAN_CLOSE_SENT s' = F CHAN_CLOSE_SENT s → sends2 s s' []
| s2_eof : I s = 1 → I s' = 3 → F CHAN_LOCAL s = false → F CHAN_EOF_SENT s' = true → F CHAN_CLOSE_SENT s' = F CHAN_CLOSE_SENT s →
    sends2 s s' [eof2 (rid s)]
| s2_eow : O s ≠ 3 → O s' = 3 → F CHAN_EOF_SENT s' = F CHAN_EOF_SENT s → F CHAN_CLOSE_SENT s' = F CHAN_CLOSE_SENT s →
    sends2 s s' [eow2 (rid s)]
| s2_close : I s = 3 → O s = 3 → F CHAN_LOCAL s = false → F CHAN_CLOSE_SENT s = false → F CHAN_CLOSE_SENT s' = true →
    F CHAN_EOF_SENT s' = F CHAN_EOF_SENT s → sends2 s s' [close2 (rid s)].

(** A transition of one end; [close] tells that a CLOSE has been received. *)
Record trans2 (close : bool) (s s' : cstate) : Prop := {
  t2_halves : halves s';
  t2_i : I s ≤ I s';
  t2_o : O s ≤ O s';
  t2_local : F CHAN_LOCAL s' = F CHAN_LOCAL s;
  t2_rid : rid s' = rid s;
  t2_rcvd : F CHAN_CLOSE_RCVD s' = F CHAN_CLOSE_RCVD s || (close && negb (F CHAN_LOCAL s));
  t2_sent : ∃ new, sent s' = sent s ++ new ∧ sends2 s s' new;
  t2_err : ∃ errs, errors s' = errors s ++ errs ∧
    ((close = true → F CHAN_CLOSE_RCVD s = false) → honest errs)
}.

Lemma flag_set b b' c : 0 ≤ b' → flag b (set_flag b' c) = (b' =? b) || flag b c.
Proof. intros Hb. unfold flag, set_flag. rsimpl. by rewrite Z.setbit_eqb. Qed.
Lemma flag_same b c c' : c_flags c' = c_flags c → flag b c' = flag b c.
Proof. unfold flag. by intros ->. Qed.

(** A step that keeps the flags and sends nothing. *)
Lemma trans2_quiet close s s' errs :
  halves s' → I s ≤ I s' → O s ≤ O s' → c_flags (ch s') = c_flags (ch s) → rid s' = rid s →
  close && negb (F CHAN_LOCAL s) = false → sent s' = sent s → errors s' = errors s ++ errs → honest errs → trans2 close s s'.
Proof.
  intros Hh Hi Ho Hf Hr Hc Hs He Hn. split; try done.
  - by apply flag_same.
  - rewrite Hc, orb_false_r. by apply flag_same.
  - exists []. rewrite app_nil_r. split; [done|]. apply s2_nothing; by apply flag_same.
  - exists errs. split; [done|]. by intros _.
Qed.
Ltac quiet2 errs := eapply (trans2_quiet _ _ _ errs); rsimpl; rewrite ?app_nil_r in *;
  first [done | lia | congruence | apply honest_nil | apply honest_one; done | unfold halves, half in *; rsimpl; intuition (lia || congruence) | idtac].

Lemma read_failed2 s : halves s → ∃ s', chan_read_failed true s = Ok (tt, s') ∧ trans2 false s s'.
Proof.
  intros Hh. pose proof (halves_range s Hh) as Hr. destruct (read_failed_result true s Hr) as (s' & E & Hs).
  exists s'. split; [exact E|]. destruct (Z.eqb_spec (I s) 0) as [E0|E0]; destruct Hs as [Hi Ho Hse He Hrid Hct Hf].
  - quiet2 (@nil string).
  - quiet2 ["chan_read_failed"%string].
Qed.

Lemma same_flags s s' b : same s s' → F b s' = F b s.
Proof. intros Hs. apply flag_same, (sm_flags _ _ Hs). Qed.

(** The states of a half after a bounded move. *)
Ltac halfs := unfold halves, half in *; rsimpl; intuition (lia || congruence).

Lemma send_eof2_ok s :
  I s = 1 → chan_send_eof2 s =
    Ok (tt, s <| sent := sent s ++ [eof2 (rid s)] |> <| ch := set_flag CHAN_EOF_SENT (ch s) |>).
Proof. intros E. unfold chan_send_eof2. mstep. rewrite E. reflexivity. Qed.

(** The end of the data of the input half: EOF, then closed. *)
Lemma eof_then_closed s :
  halves s → I s = 1 → F CHAN_LOCAL s = false →
  ∃ s', (chan_send_eof2 ≫= λ _, chan_set_istate CHAN_INPUT_CLOSED) s = Ok (tt, s') ∧ trans2 false s s'.
Proof.
  intros Hh Hi Hl. mstep_by (send_eof2_ok s Hi). rewrite set_istate_ok by (rsimpl; unfold set_flag; rsimpl; unfold CHAN_INPUT_CLOSED; lia).
  eexists. split; [reflexivity|].
  set (s' := _ <| ch := _ |>).
  assert (Hf : ∀ b, F b s' = (CHAN_EOF_SENT =? b) || F b s) by (intros b; by rewrite <- (flag_set b CHAN_EOF_SENT (ch s))).
  assert (Hi' : I s' = 3) by done. assert (Ho' : O s' = O s) by done.
  split; rewrite ?Hf; try done; try lia.
  - unfold halves. rewrite Hi', Ho'. split; [unfold half; auto|apply Hh].
  - by rewrite orb_false_r.
  - exists [eof2 (rid s)]. split; [done|]. apply s2_eof; rewrite ?Hf; done.
  - exists []. rewrite app_nil_r. split; [done|]. intros _. apply honest_nil.
Qed.

Lemma ibuf_empty2 s : halves s → ∃ s', chan_ibuf_empty true s = Ok (tt, s') ∧ trans2 false s s'.
Proof.
  intros Hh. unfold chan_ibuf_empty. mstep. destruct (negb _).
  { eexists. split; [reflexivity|]. quiet2 ["chan_ibuf_empty for non empty buffer"%string]. }
  mstep. destruct (Z.eqb_spec (I s) CHAN_INPUT_WAIT_DRAIN) as [E|E].
  2: { eexists. split; [reflexivity|]. quiet2 ["chan_ibuf_empty"%string]. }
  mstep. unfold id. destruct (F CHAN_LOCAL s) eqn:El.
  - rewrite orb_true_r. cbn [negb when]. mstep. pose proof (halves_range s Hh) as [? ?].
    rewrite set_istate_ok by (unfold CHAN_INPUT_CLOSED; lia). eexists. split; [reflexivity|]. quiet2 (@nil string).
  - rewrite orb_false_r. destruct (F CHAN_CLOSE_SENT s) eqn:Ec; cbn [negb when].
    + mstep. pose proof (halves_range s Hh) as [? ?].
      rewrite set_istate_ok by (unfold CHAN_INPUT_CLOSED; lia). eexists. split; [reflexivity|]. quiet2 (@nil string).
    + by apply eof_then_closed.
Qed.

Lemma obuf_empty2 s : halves s → ∃ s', chan_obuf_empty true s = Ok (tt, s') ∧ trans2 false s s'.
Proof.
  intros Hh. pose proof (halves_range s Hh) as [Hi Ho]. unfold chan_obuf_empty. mstep. destruct (negb _).
  { eexists. split; [reflexivity|]. quiet2 ["chan_obuf_empty for non empty buffer"%string]. }
  mstep. destruct (Z.eqb_spec (O s) CHAN_OUTPUT_WAIT_DRAIN) as [E|E].
  2: { eexists. split; [reflexivity|]. quiet2 ["internal error: obuf_empty"%string]. }
  destruct (chan_shutdown_write_same true s) as (s1 & E1 & Hs). mstep_by E1. same_in Hs. cbn [negb when]. mstep.
  rewrite set_ostate_ok by (unfold CHAN_OUTPUT_CLOSED; lia). eexists. split; [reflexivity|]. quiet2 (@nil string).
Qed.

Lemma write_failed2_ok df s : halves s → ∃ s', chan_write_failed2 true df s = Ok (tt, s') ∧ trans2 false s s'.
Proof.
  intros Hh. pose proof (halves_range s Hh) as [Hi Ho]. unfold chan_write_failed2. mstep.
  unfold CHAN_OUTPUT_OPEN, CHAN_OUTPUT_WAIT_DRAIN. destruct ((O s =? 0) || (O s =? 1)) eqn:Eo.
  2: { eexists. split; [reflexivity|]. quiet2 ["chan_write_failed"%string]. }
  destruct (chan_shutdown_write_same true s) as (s1 & E1 & Hs). mstep_by E1. pose proof (same_flags _ _ CHAN_EOF_SENT Hs) as Hf1.
  same_in Hs. mstep.
  assert (Hno : O s ≠ 3) by (rewrite orb_true_iff, !Z.eqb_eq in Eo; lia).
  destruct (bool_decide _); cbn [when].
  2: { mstep. rewrite set_ostate_ok by (unfold CHAN_OUTPUT_CLOSED; lia). eexists. split; [reflexivity|]. quiet2 (@nil string). }
  unfold chan_send_eow2. rewrite <- M_bind_assoc. mstep. unfold id. rewrite (proj2 (Z.eqb_neq (O s1) CHAN_OUTPUT_CLOSED)) by (unfold CHAN_OUTPUT_CLOSED; lia).
  destruct (Z.land df SSH_NEW_OPENSSH =? 0); mstep.
  { rewrite set_ostate_ok by (unfold CHAN_OUTPUT_CLOSED; lia). eexists. split; [reflexivity|]. quiet2 (@nil string). }
  rewrite set_ostate_ok by (rsimpl; unfold CHAN_OUTPUT_CLOSED; lia). eexists. split; [reflexivity|].
  set (s' := _ <| ch := _ |>).
  assert (Hf : ∀ b, F b s' = F b s) by (intros b; apply flag_same; exact Hfl).
  assert (Hi' : I s' = I s) by exact Hi0. assert (Ho' : O s' = 3) by done.
  split; rewrite ?Hf; try done; try lia.
  - unfold halves. rewrite Hi', Ho'. split; [apply Hh|unfold half; auto].
  - by rewrite orb_false_r.
  - exists [eow2 (rid s)]. split; [unfold s'; rsimpl; by rewrite Hse, Hrid|]. by apply s2_eow.
  - exists []. rewrite app_nil_r. split; [exact Her|]. intros _. apply honest_nil.
Qed.

(** Marking what was received, before the halves react. *)
Record marked (close : bool) (s s2 : cstate) : Prop := {
  mk_i : I s2 = I s;
  mk_o : O s ≤ O s2;
  mk_o3 : O s2 = 3 → O s = 3;
  mk_type : c_type (ch s2) = c_type (ch s);
  mk_local : F CHAN_LOCAL s2 = F CHAN_LOCAL s;
  mk_eof : F CHAN_EOF_SENT s2 = F CHAN_EOF_SENT s;
  mk_close : F CHAN_CLOSE_SENT s2 = F CHAN_CLOSE_SENT s;
  mk_rcvd : F CHAN_CLOSE_RCVD s2 = F CHAN_CLOSE_RCVD s || (close && negb (F CHAN_LOCAL s));
  mk_rid : rid s2 = rid s;
  mk_sent : sent s2 = sent s;
  mk_err : ∃ errs, errors s2 = errors s ++ errs ∧ ((close = true → F CHAN_CLOSE_RCVD s = false) → honest errs)
}.

Lemma honest_app a b : honest a → honest b → honest (a ++ b).
Proof. apply Forall_app_2. Qed.

Lemma marked_then close s s2 s' : marked close s s2 → trans2 false s2 s' → trans2 close s s'.
Proof.
  intros [Hi Ho Ho3 Hty Hl He Hc Hr Hrid Hs (e1 & Ee1 & He1)] [Hh Hi' Ho' Hl' Hrid' Hr' (new & Hn & Hsend) (e2 & Ee2 & He2)].
  split; try congruence; try lia; try done.
  - rewrite Hr', orb_false_r. exact Hr.
  - exists new. split; [congruence|]. destruct Hsend; rewrite ?Hrid; [apply s2_nothing|apply s2_eof|apply s2_eow|apply s2_close]; try congruence; auto; lia.
  - exists (e1 ++ e2). split; [by rewrite Ee2, Ee1, app_assoc|]. intros Hh'. apply honest_app; [by apply He1|by apply He2].
Qed.

Lemma calm_trans2 s : halves s → trans2 false s s.
Proof. intros Hh. quiet2 (@nil string). Qed.

(** The receipt of EOF opens the way to closing the output half. *)
Lemma eof2_marked s :
  halves s → ∃ s2, chan_rcvd_eof2 s = Ok (tt, s2) ∧ marked false s s2 ∧ halves s2.
Proof.
  intros Hh. pose proof (halves_range s Hh) as [Hi Ho]. unfold chan_rcvd_eof2. mstep. mstep. rsimpl. unfold set_flag at 1. rsimpl.
  assert (Hf : ∀ b c, c_flags c = c_flags (set_flag CHAN_EOF_RCVD (ch s)) → b ≠ CHAN_EOF_RCVD → flag b c = F b s).
  { intros b c Hc Hb. rewrite (flag_same b _ _ Hc), flag_set by (unfold CHAN_EOF_RCVD; lia).
    by rewrite (proj2 (Z.eqb_neq CHAN_EOF_RCVD b)). }
  unfold CHAN_OUTPUT_OPEN. destruct (Z.eqb_spec (O s) 0) as [E|E]; cbn [when].
  - rewrite set_ostate_ok by (rsimpl; unfold set_flag; rsimpl; unfold CHAN_OUTPUT_WAIT_DRAIN; lia).
    eexists. split; [reflexivity|]. split.
    + split; try (apply Hf; done); try done.
      * unfold CHAN_OUTPUT_WAIT_DRAIN. rsimpl. lia.
      * rewrite orb_false_r. apply Hf; done.
      * exists []. rewrite app_nil_r. split; [done|]. intros _. apply honest_nil.
    + split; [apply Hh|]. right; left. done.
  - eexists. split; [reflexivity|]. split.
    + split; try (apply Hf; done); try done.
      * rewrite orb_false_r. apply Hf; done.
      * exists []. rewrite app_nil_r. split; [done|]. intros _. apply honest_nil.
    + exact Hh.
Qed.

Lemma rcvd_ieof2 s : halves s → ∃ s', chan_rcvd_ieof true s = Ok (tt, s') ∧ trans2 false s s'.
Proof.
  intros Hh. unfold chan_rcvd_ieof. destruct (eof2_marked s Hh) as (s2 & E2 & Hm & Hh2). mstep_by E2. mstep.
  destruct (_ && _); cbn [when].
  - destruct (obuf_empty2 s2 Hh2) as (s' & E' & Ht). exists s'. split; [exact E'|]. by eapply marked_then.
  - exists s2. split; [reflexivity|]. eapply marked_then; [exact Hm|by apply calm_trans2].
Qed.

(** The receipt of CLOSE: the mark, and the output half. *)
Lemma close2_marked s :
  halves s → ∃ s1, (l ← getC (flag CHAN_LOCAL);
    when (negb l) (
      r ← getC (flag CHAN_CLOSE_RCVD);
      _ ← when r (error "protocol error: close rcvd twice");
      modC (set_flag CHAN_CLOSE_RCVD))) s = Ok (tt, s1) ∧ marked true s s1 ∧ O s1 = O s.
Proof.
  intros Hh. mstep. destruct (F CHAN_LOCAL s) eqn:El; cbn [negb when].
  { exists s. split; [reflexivity|]. split; [|done]. split; try done.
    - by rewrite El, orb_false_r.
    - exists []. rewrite app_nil_r. split; [done|]. intros _. apply honest_nil. }
  mstep. destruct (F CHAN_CLOSE_RCVD s) eqn:Er; cbn [when]; mstep; (eexists; split; [reflexivity|]); (split; [|done]).
  all: split; rsimpl; rewrite ?flag_set by (unfold CHAN_CLOSE_RCVD; lia); rewrite ?El, ?Er; try done.
  - eexists. split; [reflexivity|]. intros Hx. discriminate (Hx eq_refl).
  - exists []. rewrite app_nil_r. split; [done|]. intros _. apply honest_nil.
Qed.

Lemma marked_ostate close s s1 n :
  marked close s s1 → O s1 = O s → O s = 0 → n = 1 → marked close s (s1 <| ch := (ch s1) <| c_ostate := n |> |>).
Proof. intros [? ? ? ? ? ? ? ? ? ? ?] Ho H0 ->. split; try done; rsimpl; lia. Qed.

(** The reaction of the halves to CLOSE. *)
Lemma close2_halves s :
  halves s → ∃ s', (
    o ← getC c_ostate;
    _ ← when (o =? CHAN_OUTPUT_OPEN) (chan_set_ostate CHAN_OUTPUT_WAIT_DRAIN);
    i ← getC c_istate;
    if i =? CHAN_INPUT_OPEN then _ ← chan_shutdown_read true; chan_set_istate CHAN_INPUT_CLOSED
    else if i =? CHAN_INPUT_WAIT_DRAIN then
      l ← getC (flag CHAN_LOCAL);
      _ ← when (negb l) chan_send_eof2;
      chan_set_istate CHAN_INPUT_CLOSED
    else skip) s = Ok (tt, s') ∧ trans2 false s s'.
Proof.
  intros Hh. pose proof (halves_range s Hh) as [Hi Ho]. mstep.
  assert (Hmark : marked false s s).
  { split; try done. - by rewrite orb_false_r. - exists []. rewrite app_nil_r. split; [done|]. intros _. apply honest_nil. }
  assert (∃ s2, when (O s =? CHAN_OUTPUT_OPEN) (chan_set_ostate CHAN_OUTPUT_WAIT_DRAIN) s = Ok (tt, s2) ∧ marked false s s2 ∧ halves s2)
    as (s2 & E2 & Hm & Hh2).
  { destruct (Z.eqb_spec (O s) CHAN_OUTPUT_OPEN) as [E|E]; cbn [when]; [|by exists s].
    rewrite set_ostate_ok by (unfold CHAN_OUTPUT_WAIT_DRAIN; lia). eexists. split; [reflexivity|].
    split; [by apply marked_ostate|]. split; [apply Hh|]. by right; left. }
  mstep_by E2. mstep. pose proof (halves_range s2 Hh2) as [Hi2 Ho2].
  destruct (Z.eqb_spec (I s2) CHAN_INPUT_OPEN) as [E|E].
  - destruct (chan_shutdown_read_same true s2) as (s3 & E3 & Hs3). mstep_by E3. same_in Hs3.
    rewrite set_istate_ok by (unfold CHAN_INPUT_CLOSED; lia). eexists. split; [reflexivity|]. eapply marked_then; [exact Hm|].
    quiet2 (@nil string).
  - destruct (Z.eqb_spec (I s2) CHAN_INPUT_WAIT_DRAIN) as [E'|E'].
    2: { exists s2. split; [reflexivity|]. eapply marked_then; [exact Hm|by apply calm_trans2]. }
    mstep. destruct (F CHAN_LOCAL s2) eqn:El; cbn [negb when].
    + mstep. rewrite set_istate_ok by (unfold CHAN_INPUT_CLOSED; lia). eexists. split; [reflexivity|]. eapply marked_then; [exact Hm|].
      quiet2 (@nil string).
    + destruct (eof_then_closed s2 Hh2 E' El) as (s' & E3 & Ht). exists s'. split; [exact E3|]. by eapply marked_then.
Qed.

Lemma rcvd_close2_ok s : halves s → ∃ s', chan_rcvd_close2 true s = Ok (tt, s') ∧ trans2 true s s'.
Proof.
  intros Hh. destruct (close2_marked s Hh) as (s1 & E1 & Hm & Ho1). unfold chan_rcvd_close2. rewrite M_bind_assoc. mstep_by E1. mstep.
  assert (Hh1 : halves s1). { unfold halves. rewrite (mk_i _ _ _ Hm), Ho1. exact Hh. }
  destruct (_ =? SSH_CHANNEL_LARVAL).
  - pose proof (halves_range s1 Hh1) as [? ?]. rewrite (M_bind_Ok _ _ _ _ _ (set_ostate_ok CHAN_OUTPUT_CLOSED s1 ltac:(lia) ltac:(unfold CHAN_OUTPUT_CLOSED; lia))).
    rewrite set_istate_ok by (rsimpl; unfold CHAN_INPUT_CLOSED; lia). eexists. split; [reflexivity|].
    eapply marked_then; [exact Hm|]. quiet2 (@nil string).
  - destruct (close2_halves s1 Hh1) as (s' & E' & Ht). exists s'. split; [exact E'|]. by eapply marked_then.
Qed.

Lemma rcvd_eow2 s : halves s → ∃ s', chan_rcvd_eow true s = Ok (tt, s') ∧ trans2 false s s'.
Proof.
  intros Hh. pose proof (halves_range s Hh) as [Hi Ho]. unfold chan_rcvd_eow. mstep.
  destruct (Z.eqb_spec (I s) CHAN_INPUT_OPEN) as [E|E]; cbn [when].
  - destruct (chan_shutdown_read_same true s) as (s1 & E1 & Hs). mstep_by E1. same_in Hs.
    rewrite set_istate_ok by (unfold CHAN_INPUT_CLOSED; lia). eexists. split; [reflexivity|]. quiet2 (@nil string).
  - exists s. split; [reflexivity|]. by apply calm_trans2.
Qed.

Lemma is_dead2 df b s : halves s → ∃ d s', chan_is_dead true df b s = Ok (d, s') ∧ trans2 false s s'.
Proof.
  intros Hh. pose proof (calm_trans2 s Hh) as Hc. unfold chan_is_dead. mstep. unfold id. cbn [negb].
  destruct (_ =? SSH_CHANNEL_ZOMBIE); [by eexists _, s|].
  destruct (Z.eqb_spec (I s) CHAN_INPUT_CLOSED) as [Ei|]; [|by eexists _, s].
  destruct (Z.eqb_spec (O s) CHAN_OUTPUT_CLOSED) as [Eo|]; [|by eexists _, s]. cbn [negb orb].
  destruct (_ && _ && _ && _); [by eexists _, s|]. destruct (F CHAN_LOCAL s) eqn:El; [by eexists _, s|].
  destruct (F CHAN_CLOSE_SENT s) eqn:Ecs; cbn [negb andb when]; [mstep; mstep; by eexists _, s|].
  destruct b; cbn [negb andb when].
  2: { destruct (F CHAN_CLOSE_RCVD s); [by eexists _, s|]. mstep. mstep. by eexists _, s. }
  unfold chan_send_close2. rewrite <- M_bind_assoc. mstep. unfold id. rewrite Ei, Eo, Ecs. cbn [Z.eqb Pos.eqb negb orb CHAN_OUTPUT_CLOSED CHAN_INPUT_CLOSED].
  rewrite <- M_bind_assoc. mstep. mstep. mstep. eexists _, _. split; [reflexivity|].
  set (s' := _ <| ch := _ |>).
  assert (Hf : ∀ b, F b s' = (CHAN_CLOSE_SENT =? b) || F b s) by (intros b; by rewrite <- (flag_set b CHAN_CLOSE_SENT (ch s))).
  assert (Hi' : I s' = I s) by done. assert (Ho' : O s' = O s) by done.
  split; rewrite ?Hf; try done; try lia.
  - by rewrite orb_false_r.
  - exists [close2 (rid s)]. split; [done|]. apply s2_close; rewrite ?Hf; done.
  - exists []. rewrite app_nil_r. split; [done|]. intros _. apply honest_nil.
Qed.

Lemma step2 df e s :
  halves s → ∃ s', step true df e s = Ok (tt, s') ∧ trans2 (is_oclose e) s s'.
Proof.
  intros Hh. destruct e as [| | | | | | |b| | |a b x efd]; cbn [step is_oclose when].
  - by apply read_failed2.
  - by apply ibuf_empty2.
  - by apply obuf_empty2.
  - by apply write_failed2_ok.
  - by apply rcvd_ieof2.
  - by apply rcvd_close2_ok.
  - by apply rcvd_eow2.
  - destruct (is_dead2 df b s Hh) as (d & s' & E & Ht). mstep_by E. by exists s'.
  - eexists. split; [reflexivity|]. quiet2 (@nil string).
  - mstep. destruct (Z.eqb_spec (I s) CHAN_INPUT_OPEN) as [E|E]; cbn [when].
    + eexists. split; [reflexivity|]. quiet2 (@nil string). by rewrite E.
    + exists s. split; [reflexivity|]. by apply calm_trans2.
  - eexists. split; [reflexivity|]. quiet2 (@nil string).
Qed.
End Protocol2.

(** ** One end, whatever happens *)

Abbreviation I s := (c_istate (ch s)).
Abbreviation O s := (c_ostate (ch s)).
Abbreviation rid s := (c_remote_id (ch s)).

(** A channel as [channel_new] makes it. *)
Definition fresh (s : cstate) : Prop := I s = CHAN_INPUT_OPEN ∧ O s = CHAN_OUTPUT_OPEN ∧ Z.land (c_flags (ch s)) 31 = 0 ∧ sent s = [] ∧ errors s = [].

(** Protocol 1: IEOF is sent with the end of the input half and OCLOSE with the
    end of the output half, each once. *)
Record sent1 (s : cstate) : Prop := {
  o1_range : in_range s;
  o1_nodup : NoDup (sent s);
  o1_only : ∀ m, m ∈ sent s → m = ieof1 (rid s) ∨ m = oclose1 (rid s);
  o1_ieof : ieof1 (rid s) ∈ sent s ↔ 2 ≤ I s;
  o1_oclose : oclose1 (rid s) ∈ sent s ↔ 2 ≤ O s
}.

(** Protocol 2: EOF and the end-of-write request at most once each, and CLOSE
    once and last, when both halves are closed. *)
Record sent2 (s : cstate) : Prop := {
  o2_halves : halves s;
  o2_sent : ∃ pre, sent s = pre ++ (if flag CHAN_CLOSE_SENT (ch s) then [close2 (rid s)] else []) ∧
    NoDup pre ∧ (∀ m, m ∈ pre → m = eof2 (rid s) ∨ m = eow2 (rid s)) ∧
    (eof2 (rid s) ∈ pre ↔ flag CHAN_EOF_SENT (ch s) = true) ∧ (eow2 (rid s) ∈ pre → O s = 3);
  o2_eof : flag CHAN_EOF_SENT (ch s) = true → I s = 3;
  o2_close : flag CHAN_CLOSE_SENT (ch s) = true → I s = 3 ∧ O s = 3;
  o2_local : flag CHAN_LOCAL (ch s) = true → flag CHAN_CLOSE_SENT (ch s) = false ∧ flag CHAN_EOF_SENT (ch s) = false
}.

Lemma NoDup_snoc {A} (l : list A) x : NoDup l → x ∉ l → NoDup (l ++ [x]).
Proof. intros Hl Hx. apply NoDup_app. split_and!; [done| |apply NoDup_singleton]. by intros y Hy ->%list_elem_of_singleton. Qed.

(** Appending a message other than [m] says nothing about [m]. *)
Lemma elem_snoc {A} (l : list A) x y : x ∈ l ++ [y] ↔ x ∈ l ∨ x = y.
Proof. by rewrite elem_of_app, list_elem_of_singleton. Qed.

Lemma sent1_step df e s :
  sent1 s → ∃ s', step false df e s = Ok (tt, s') ∧ sent1 s' ∧ I s ≤ I s' ∧ O s ≤ O s'.
Proof.
  intros [Hr Hn Ho Hi1 Ho1]. destruct (step1 df e s Hr) as (s' & i' & o' & new & errs & E & [Ri Ro Rs Re Rr Rc Rf] & Ht).
  exists s'. split; [exact E|]. destruct Hr as [Hi Hoo].
  assert (Hdiff : ieof1 (rid s) ≠ oclose1 (rid s)) by done.
  assert (Hni : I s < 2 → ieof1 (rid s) ∉ sent s) by (intros Hlt Hin; apply Hi1 in Hin; lia).
  assert (Hno : O s < 2 → oclose1 (rid s) ∉ sent s) by (intros Hlt Hin; apply Ho1 in Hin; lia).
  assert (Hcase : (new = [] ∧ (2 ≤ i' ↔ 2 ≤ I s) ∧ (2 ≤ o' ↔ 2 ≤ O s) ∨
     new = [ieof1 (rid s)] ∧ I s < 2 ∧ 2 ≤ i' ∧ o' = O s ∨ new = [oclose1 (rid s)] ∧ O s < 2 ∧ 2 ≤ o' ∧ i' = I s) ∧
     I s ≤ i' ≤ 3 ∧ O s ≤ o' ≤ 3).
  { destruct Ht; subst; repeat match goal with H : _ ∨ _ |- _ => destruct H | H : _ ∧ _ |- _ => destruct H end; subst;
      (split; [|lia]); first [left; split; [done|lia] | right; left; split; [done|lia] | right; right; split; [done|lia]]. }
  destruct Hcase as [Hcase Hmono]. rewrite Ri, Ro. split; [|lia].
  destruct Hcase as [(-> & ? & ?)|[(-> & ? & ? & ->)|(-> & ? & ? & ->)]]; rewrite ?app_nil_r in Rs.
  - split; [split; lia|rewrite Rs; auto..]; rewrite Rr; [exact Ho|rewrite Hi1; lia|rewrite Ho1; lia].
  - split; [split; lia|rewrite Rs, ?Rr..]; [apply NoDup_snoc; auto| | |].
    + intros m [Hm| ->]%elem_snoc; auto.
    + rewrite elem_snoc, Hi1. split; [lia|auto].
    + rewrite elem_snoc, Ho1, Ro. split; [intros [?|?]; [lia|done]|auto].
  - split; [split; lia|rewrite Rs, ?Rr..]; [apply NoDup_snoc; auto| | |].
    + intros m [Hm| ->]%elem_snoc; auto.
    + rewrite elem_snoc, Hi1, Ri. split; [intros [?|?]; [lia|done]|auto].
    + rewrite elem_snoc, Ho1. split; [lia|auto].
Qed.

Lemma sent2_step df e s :
  sent2 s → ∃ s', step true df e s = Ok (tt, s') ∧ sent2 s' ∧ I s ≤ I s' ∧ O s ≤ O s'.
Proof.
  intros [Hh (pre & Hs & Hn & Honly & Heof & Heow) He Hc Hl].
  destruct (step2 df e s Hh) as (s' & E & [Hh' Hi Ho Hl' Hr' _ (new & Hs' & Hsend) _]). exists s'. split; [exact E|]. split; [|done].
  pose proof (halves_range _ Hh') as [? ?].
  destruct Hsend as [Fe Fc|Ei Ei' El Fe Fc|Eo Eo' Fe Fc|Ei Eo El Fc0 Fc Fe].
  - rewrite app_nil_r in Hs'. split; [done| |rewrite Fe; intros H'; apply He in H'; lia|rewrite Fc; intros H'; apply Hc in H'; lia|rewrite Hl', Fc, Fe; exact Hl].
    exists pre. rewrite Hs', Hr', Fc, Fe. split_and!; try done. intros Hin. apply Heow in Hin. lia.
  - assert (Hcs : flag CHAN_CLOSE_SENT (ch s) = false) by (destruct (flag CHAN_CLOSE_SENT (ch s)); [destruct (Hc eq_refl); lia|done]).
    assert (Hes : flag CHAN_EOF_SENT (ch s) = false) by (destruct (flag CHAN_EOF_SENT (ch s)); [specialize (He eq_refl); lia|done]).
    rewrite Hcs, app_nil_r in Hs. rewrite Hcs in Fc.
    split; [done| |done|rewrite Fc; done|rewrite Hl', El; done].
    exists (pre ++ [eof2 (rid s)]). rewrite Hs', Hs, Hr', Fc, Fe, app_nil_r. split_and!; [done| | | |].
    + apply NoDup_snoc; [done|]. intros Hin. apply Heof in Hin. congruence.
    + intros m [Hm| ->]%elem_snoc; auto.
    + rewrite elem_snoc. split; [done|auto].
    + intros [Hin|?]%elem_snoc; [|done]. apply Heow in Hin. lia.
  - assert (Hcs : flag CHAN_CLOSE_SENT (ch s) = false) by (destruct (flag CHAN_CLOSE_SENT (ch s)); [destruct (Hc eq_refl); lia|done]).
    rewrite Hcs, app_nil_r in Hs. rewrite Hcs in Fc.
    split; [done| |rewrite Fe; intros H'; apply He in H'; lia|rewrite Fc; done|rewrite Hl', Fc, Fe; intros H'; split; [done|by apply Hl]].
    exists (pre ++ [eow2 (rid s)]). rewrite Hs', Hs, Hr', Fc, Fe, app_nil_r. split_and!; [done| | | |].
    + apply NoDup_snoc; [done|]. intros Hin. apply Heow in Hin. lia.
    + intros m [Hm| ->]%elem_snoc; auto.
    + rewrite elem_snoc, Heof. split; [intros [?|?]; done|auto].
    + done.
  - rewrite Fc0, app_nil_r in Hs.
    split; [done| |rewrite Fe; intros H'; apply He in H'; lia|intros _; lia|rewrite Hl', El; done].
    exists pre. rewrite Hs', Hs, Hr', Fc, Fe. split_and!; try done. intros Hin. apply Heow in Hin. lia.
Qed.

Lemma fresh_sent1 s : fresh s → sent1 s.
Proof.
  intros (Hi & Ho & Hf & Hs & He). split; rewrite ?Hs, ?Hi, ?Ho; [| | |split; [by intros ?%elem_of_nil|done]..].
  - unfold in_range. rewrite Hi, Ho. done.
  - constructor.
  - by intros m ?%elem_of_nil.
Qed.
Lemma fresh_flags s b : fresh s → 0 ≤ b < 5 → flag b (ch s) = false.
Proof.
  intros (_ & _ & Hf & _) Hb. unfold flag. pose proof (Z.land_spec (c_flags (ch s)) 31 b) as Hspec. rewrite Hf, Z.bits_0 in Hspec.
  assert (b = 0 ∨ b = 1 ∨ b = 2 ∨ b = 3 ∨ b = 4) as Hb' by lia.
  destruct Hb' as [->|[->|[->|[->| ->]]]]; cbn [Z.testbit Pos.testbit] in Hspec; by rewrite andb_true_r in Hspec.
Qed.
Lemma fresh_sent2 s : fresh s → sent2 s.
Proof.
  intros Hfr. pose proof (fresh_flags s CHAN_CLOSE_SENT Hfr ltac:(unfold CHAN_CLOSE_SENT; lia)) as Fc.
  pose proof (fresh_flags s CHAN_EOF_SENT Hfr ltac:(unfold CHAN_EOF_SENT; lia)) as Fe. destruct Hfr as (Hi & Ho & Hf & Hs & He).
  split; rewrite ?Fc, ?Fe; try done.
  - unfold halves, half. rewrite Hi, Ho. auto.
  - exists []. rewrite Hs. split_and!; [by rewrite app_nil_r|constructor|by intros m ?%elem_of_nil|split; [by intros ?%elem_of_nil|done]|by intros ?%elem_of_nil].
Qed.

Definition disciplined (compat20 : bool) (s : cstate) : Prop := if compat20 then sent2 s else sent1 s.

Lemma disciplined_step c20 df e s :
  disciplined c20 s → ∃ s', step c20 df e s = Ok (tt, s') ∧ disciplined c20 s' ∧ I s ≤ I s' ∧ O s ≤ O s'.
Proof. destruct c20; [apply sent2_step|apply sent1_step]. Qed.
Lemma disciplined_steps c20 df es : ∀ s,
  disciplined c20 s → ∃ s', steps c20 df es s = Ok (tt, s') ∧ disciplined c20 s' ∧ I s ≤ I s' ∧ O s ≤ O s'.
Proof.
  induction es as [|e es IH]; intros s Hs; cbn [steps]; [exists s; split_and!; (done || lia)|].
  destruct (disciplined_step c20 df e s Hs) as (s1 & E & Hs1 & ? & ?). mstep_by E.
  destruct (IH s1 Hs1) as (s' & E' & Hs' & ? & ?). exists s'. split_and!; (done || lia).
Qed.

(** C31: Whatever happens to one end of a new channel (reads and writes fail,
    buffers drain, the other side sends whatever it likes, also out of turn),
    the functions of [nchan.c] never call [fatal], the states of the two halves
    only advance, and the end keeps the rules of the protocol at all times: with
    protocol 1 it has sent IEOF once exactly if its input half waits for OCLOSE
    or is closed, OCLOSE once exactly if its output half waits for IEOF or is
    closed, and nothing else; with protocol 2 it has sent EOF and the
    end-of-write request at most once, CLOSE at most once, only with both
    halves closed, and nothing after it. *)
Theorem nchan_discipline compat20 df es1 es2 s :
  fresh s →
  ∃ s1 s2, steps compat20 df es1 s = Ok (tt, s1) ∧ steps compat20 df es2 s1 = Ok (tt, s2) ∧
    disciplined compat20 s1 ∧ disciplined compat20 s2 ∧
    c_istate (ch s1) ≤ c_istate (ch s2) ∧ c_ostate (ch s1) ≤ c_ostate (ch s2).
Proof.
  intros Hf. assert (Hd : disciplined compat20 s) by (destruct compat20; [by apply fresh_sent2|by apply fresh_sent1]).
  destruct (disciplined_steps compat20 df es1 s Hd) as (s1 & E1 & Hd1 & _).
  destruct (disciplined_steps compat20 df es2 s1 Hd1) as (s2 & E2 & Hd2 & ? & ?). by exists s1, s2.
Qed.

(** ** Two ends

    Each end's messages arrive at the other in order; [rcvd] counts how many
    have. *)

Record pair := mkPair { end_a : cstate; end_b : cstate; rcvd_a : nat; rcvd_b : nat }.

(** The dispatch of a message of the close protocol. *)
Definition receive (m : msg) : event :=
  if m_type_of m =? SSH_MSG_CHANNEL_INPUT_EOF then Rcvd_ieof
  else if m_type_of m =? SSH2_MSG_CHANNEL_EOF then Rcvd_ieof
  else if m_type_of m =? SSH_MSG_CHANNEL_OUTPUT_CLOSE then Rcvd_oclose
  else if m_type_of m =? SSH2_MSG_CHANNEL_CLOSE then Rcvd_oclose
  else Rcvd_eow.
Definition local (e : event) : Prop := match e with Rcvd_ieof | Rcvd_oclose | Rcvd_eow => False | _ => True end.

Section Two.
Context (compat20 : bool) (dfa dfb : Z).

Inductive moves2 : pair → pair → Prop :=
| m_local_a e p s : local e → step compat20 dfa e (end_a p) = Ok (tt, s) → moves2 p (mkPair s (end_b p) (rcvd_a p) (rcvd_b p))
| m_local_b e p s : local e → step compat20 dfb e (end_b p) = Ok (tt, s) → moves2 p (mkPair (end_a p) s (rcvd_a p) (rcvd_b p))
| m_recv_a p m s : sent (end_b p) !! rcvd_a p = Some m → step compat20 dfa (receive m) (end_a p) = Ok (tt, s) →
    moves2 p (mkPair s (end_b p) (S (rcvd_a p)) (rcvd_b p))
| m_recv_b p m s : sent (end_a p) !! rcvd_b p = Some m → step compat20 dfb (receive m) (end_b p) = Ok (tt, s) →
    moves2 p (mkPair (end_a p) s (rcvd_a p) (S (rcvd_b p))).

Definition started (p : pair) : Prop :=
  fresh (end_a p) ∧ fresh (end_b p) ∧ rcvd_a p = 0%nat ∧ rcvd_b p = 0%nat.

(** What an end knows of the other, whose first [n] messages it has received. *)
Record informed (n : nat) (other s : cstate) : Prop := {
  in_n : (n ≤ length (sent other))%nat;
  in_1 : compat20 = false →
    (ieof1 (rid other) ∈ take n (sent other) ↔ O s = 1 ∨ O s = 3) ∧
    (oclose1 (rid other) ∈ take n (sent other) ↔ I s = 3);
  in_2 : compat20 = true → flag CHAN_LOCAL (ch s) = false ∧
    (close2 (rid other) ∈ take n (sent other) ↔ flag CHAN_CLOSE_RCVD (ch s) = true);
  in_honest : honest (errors s)
}.

Lemma sent2_nodup s : sent2 s → NoDup (sent s) ∧ ∀ m, m ∈ sent s → m = eof2 (rid s) ∨ m = eow2 (rid s) ∨ m = close2 (rid s).
Proof.
  intros [_ (pre & -> & Hn & Ho & _) _ _ _]. destruct (flag _ _).
  - split.
    + apply NoDup_snoc; [done|]. intros Hin. by destruct (Ho _ Hin).
    + intros m [Hm| ->]%elem_snoc; [destruct (Ho _ Hm)|]; auto.
  - rewrite app_nil_r. split; [done|]. intros m Hm. destruct (Ho _ Hm); auto.
Qed.

Lemma step_appends df e s s' :
  disciplined compat20 s → step compat20 df e s = Ok (tt, s') → (∃ new, sent s' = sent s ++ new) ∧ rid s' = rid s.
Proof.
  unfold disciplined. destruct compat20; intros Hd E.
  - destruct (step2 df e s (o2_halves _ Hd)) as (s1 & E1 & Ht). rewrite E1 in E. injection E as <-.
    destruct (t2_sent _ _ _ Ht) as (new & ? & _). split; [by exists new|apply (t2_rid _ _ _ Ht)].
  - destruct (step1 df e s (o1_range _ Hd)) as (s1 & i' & o' & new & errs & E1 & Hr & _). rewrite E1 in E. injection E as <-.
    split; [exists new; apply (rs_sent _ _ _ _ _ _ Hr)|apply (rs_rid _ _ _ _ _ _ Hr)].
Qed.

(** What an end knows stays true while the other end goes on. *)
Lemma informed_other df e n s s' k :
  disciplined compat20 s → step compat20 df e s = Ok (tt, s') → informed n s k → informed n s' k.
Proof.
  intros Hd E [Hn H1 H2 Hh]. destruct (step_appends df e s s' Hd E) as [[new Hs] Hr].
  split; rewrite ?Hr, ?Hs; [rewrite length_app; lia|rewrite take_app_le by done; assumption..|done].
Qed.

Lemma informed_local df e n other s s' :
  disciplined compat20 s → local e → step compat20 df e s = Ok (tt, s') → informed n other s → informed n other s'.
Proof.
  intros Hd Hl E [Hn H1 H2 Hh]. unfold disciplined in Hd. destruct compat20 eqn:E20.
  - destruct (step2 df e s (o2_halves _ Hd)) as (s1 & E1 & [_ _ _ Tl _ Tr _ (errs & Te & Th)]). rewrite E1 in E. injection E as <-.
    assert (is_oclose e = false) as Eo by (by destruct e). rewrite Eo in *. cbn [andb] in Tr. rewrite orb_false_r in Tr.
    split; [done|congruence|intros _; rewrite Tl, Tr; by apply H2|rewrite Te; apply honest_app; [done|by apply Th]].
  - destruct (step1 df e s (o1_range _ Hd)) as (s1 & i' & o' & new & errs & E1 & [Ri Ro _ Re _ _ _] & Ht). rewrite E1 in E. injection E as <-.
    assert (is_oclose e = false ∧ is_ieof e = false) as [Eo Ei] by (by destruct e). rewrite Eo, Ei in Ht.
    destruct (H1 eq_refl) as [Hi Ho].
    assert (honest errs ∧ (O s = 1 ∨ O s = 3 ↔ o' = 1 ∨ o' = 3) ∧ (I s = 3 ↔ i' = 3)) as (He & Hoo & Hii).
    { destruct Ht; try done; subst; (split; [first [done|apply honest_nil]|lia]). }
    split; [done|intros _; by rewrite Ri, Ro, <- Hoo, <- Hii|congruence|rewrite Re; by apply honest_app].
Qed.

Lemma informed_receive df n m other s s' :
  disciplined compat20 other → disciplined compat20 s → sent other !! n = Some m →
  step compat20 df (receive m) s = Ok (tt, s') → informed n other s → informed (S n) other s'.
Proof.
  intros Hdo Hd Hm E [Hn H1 H2 Hh]. unfold disciplined in Hd, Hdo. pose proof (list_elem_of_lookup_2 _ _ _ Hm) as Hin.
  assert (Hlt : (n < length (sent other))%nat) by (apply lookup_lt_is_Some; eauto).
  assert (Htake : ∀ x, x ∈ take (S n) (sent other) ↔ x ∈ take n (sent other) ∨ x = m).
  { intros x. rewrite (take_S_r _ _ _ Hm). apply elem_snoc. }
  assert (Hnew : NoDup (sent other) → m ∉ take n (sent other)).
  { intros Hnd (j & Hj)%list_elem_of_lookup. pose proof (lookup_lt_Some _ _ _ Hj) as Hl. rewrite length_take in Hl.
    rewrite lookup_take_lt in Hj by lia. pose proof (NoDup_lookup _ _ _ _ Hnd Hj Hm). lia. }
  destruct compat20 eqn:E20.
  - destruct (sent2_nodup _ Hdo) as [Hnd Honly]. specialize (Hnew Hnd). destruct (H2 eq_refl) as [Hl Hc].
    destruct (step2 df (receive m) s (o2_halves _ Hd)) as (s1 & E1 & [_ _ _ Tl _ Tr _ (errs & Te & Th)]). rewrite E1 in E. injection E as <-.
    destruct (Honly m Hin) as [->|[->| ->]]; cbn [receive] in *; change (is_oclose (receive (eof2 (rid other)))) with false in *;
      change (is_oclose (receive (eow2 (rid other)))) with false in *; change (is_oclose (receive (close2 (rid other)))) with true in *.
    all: split; [done|congruence| |rewrite Te; apply honest_app; [done|apply Th]].
    all: try (intros _; rewrite Tl, Htake, Tr, Hl; split; [done|]; cbn [negb andb]; rewrite ?orb_false_r, ?orb_true_r).
    + rewrite Hc. split; [intros [?|?]; done|auto].
    + done.
    + rewrite Hc. split; [intros [?|?]; done|auto].
    + done.
    + split; auto.
    + intros _. destruct (flag CHAN_CLOSE_RCVD (ch s)) eqn:Er; [|done]. by destruct (Hnew (proj2 Hc eq_refl)).
  - destruct Hdo as [_ Hnd Honly _ _]. specialize (Hnew Hnd). destruct (H1 eq_refl) as [Hi Ho]. destruct (o1_range _ Hd) as [? ?].
    destruct (step1 df (receive m) s (o1_range _ Hd)) as (s1 & i' & o' & new & errs & E1 & [Ri Ro _ Re _ _ _] & Ht). rewrite E1 in E. injection E as <-.
    destruct (Honly m Hin) as [-> | ->].
    + change (is_ieof (receive (ieof1 (rid other)))) with true in Ht. change (is_oclose (receive (ieof1 (rid other)))) with false in Ht.
      assert (O s ≠ 1 ∧ O s ≠ 3) by tauto.
      assert (honest errs ∧ (o' = 1 ∨ o' = 3) ∧ i' = I s) as (He & Hoo & ->) by (destruct Ht; try done; try lia; (split; [done|split; [lia|done]])).
      split; [done| |congruence|rewrite Re; by apply honest_app].
      intros _. rewrite !Htake, Ri, Ro. split; [split; auto|]. rewrite Ho. split; [intros [?|?]; done|auto].
    + change (is_ieof (receive (oclose1 (rid other)))) with false in Ht. change (is_oclose (receive (oclose1 (rid other)))) with true in Ht.
      assert (I s ≠ 3) by tauto.
      assert (errs = [] ∧ o' = O s ∧ i' = 3) as (-> & -> & ->) by (destruct Ht; try done; lia).
      split; [done| |congruence|rewrite Re, app_nil_r; done].
      intros _. rewrite !Htake, Ri, Ro. split; [rewrite Hi; split; [intros [?|?]; done|auto]|split; auto].
Qed.

Record pair_inv (p : pair) : Prop := {
  pi_a : disciplined compat20 (end_a p);
  pi_b : disciplined compat20 (end_b p);
  pi_ab : informed (rcvd_a p) (end_b p) (end_a p);
  pi_ba : informed (rcvd_b p) (end_a p) (end_b p)
}.

Lemma step_disciplined df e s s' : disciplined compat20 s → step compat20 df e s = Ok (tt, s') → disciplined compat20 s'.
Proof. intros Hd E. destruct (disciplined_step compat20 df e s Hd) as (s1 & E1 & ? & _). rewrite E1 in E. by injection E as <-. Qed.

Lemma pair_inv_step p p' : moves2 p p' → pair_inv p → pair_inv p'.
Proof.
  intros [e q s Hl E|e q s Hl E|q m s Hm E|q m s Hm E] [Ha Hb Hab Hba]; split; cbn [end_a end_b rcvd_a rcvd_b];
    eauto using step_disciplined, informed_local, informed_other, informed_receive.
Qed.

Lemma fresh_informed s other : fresh s → fresh other → informed 0 other s.
Proof.
  intros Hs Ho. pose proof (fresh_flags s CHAN_LOCAL Hs ltac:(unfold CHAN_LOCAL; lia)) as Fl.
  pose proof (fresh_flags s CHAN_CLOSE_RCVD Hs ltac:(unfold CHAN_CLOSE_RCVD; lia)) as Fr.
  destruct Hs as (Hi & Hoo & _ & _ & He). split; [lia| | |rewrite He; apply honest_nil].
  - intros _. rewrite Hi, Hoo, take_0. unfold CHAN_INPUT_OPEN, CHAN_OUTPUT_OPEN. split; (split; [by intros ?%elem_of_nil|lia]).
  - intros _. rewrite Fl, Fr, take_0. split; [done|]. split; [by intros ?%elem_of_nil|done].
Qed.

Lemma started_inv p : started p → pair_inv p.
Proof.
  intros (Ha & Hb & Ea & Eb). split; rewrite ?Ea, ?Eb; try (by apply fresh_informed); unfold disciplined;
    destruct compat20; auto using fresh_sent1, fresh_sent2.
Qed.

(** An end that has sent all it will ever send on the channel. *)
Definition finished (s : cstate) : Prop :=
  if compat20 then flag CHAN_CLOSE_SENT (ch s) = true else 2 ≤ I s ∧ 2 ≤ O s.

Lemma informed_dead df n b other s :
  disciplined compat20 other → disciplined compat20 s → informed n other s → n = length (sent other) →
  finished other → finished s → Z.land df SSH_BUG_EXTEOF = 0 → chan_is_dead compat20 df b s = Ok (true, s).
Proof.
  intros Hdo Hd [_ H1 H2 _] -> Hfo Hfs Hdf. rewrite firstn_all in H1, H2. unfold finished, disciplined in *.
  unfold chan_is_dead. mstep. unfold id. destruct (_ =? SSH_CHANNEL_ZOMBIE); [done|]. destruct compat20; cbn [negb].
  - destruct (o2_close _ Hd Hfs) as [-> ->]. cbn [Z.eqb Pos.eqb negb orb CHAN_INPUT_CLOSED CHAN_OUTPUT_CLOSED].
    rewrite Hdf. cbn [Z.eqb negb andb]. destruct (H2 eq_refl) as [-> Hc]. rewrite Hfs. cbn [negb andb when]. mstep. mstep.
    assert (flag CHAN_CLOSE_RCVD (ch s) = true) as Hr.
    { apply Hc. destruct (o2_sent _ Hdo) as (pre & -> & _). rewrite Hfo. apply elem_snoc. auto. }
    unfold id. by rewrite Hfs, Hr.
  - destruct (H1 eq_refl) as [Hi Ho]. destruct (o1_range _ Hd).
    assert (I s = 3) as -> by (apply Ho, (o1_oclose _ Hdo), Hfo).
    assert (O s = 3) as -> by (destruct (proj1 Hi) as [?|?]; [apply (o1_ieof _ Hdo), Hfo|lia|done]). done.
Qed.

(** C30: Two ends of a channel that follow [nchan.c], with messages that arrive
    in order and at any time, and anything happening locally, never take the
    other for faulty; and once both have sent everything that the protocol
    lets them send (both closing messages of protocol 1, CLOSE of protocol 2)
    and it has arrived, both see that the channel is dead. *)
Theorem close_handshake p0 p :
  started p0 → rtc moves2 p0 p →
  honest (errors (end_a p)) ∧ honest (errors (end_b p)) ∧
  (finished (end_a p) → finished (end_b p) → rcvd_a p = length (sent (end_b p)) → rcvd_b p = length (sent (end_a p)) →
   Z.land dfa SSH_BUG_EXTEOF = 0 → Z.land dfb SSH_BUG_EXTEOF = 0 → ∀ b,
   chan_is_dead compat20 dfa b (end_a p) = Ok (true, end_a p) ∧ chan_is_dead compat20 dfb b (end_b p) = Ok (true, end_b p)).
Proof.
  intros H0%started_inv Hr. assert (pair_inv p) as [Ha Hb Hab Hba].
  { revert H0. induction Hr as [|x y z Hxy _ IH]; [done|]. intros Hx. by apply IH, (pair_inv_step x y). }
  split_and!; [apply (in_honest _ _ _ Hab)|apply (in_honest _ _ _ Hba)|].
  intros Fa Fb Ea Eb Da Db b. split; [exact (informed_dead _ _ _ _ _ Hb Ha Hab Ea Fb Fa Da)|exact (informed_dead _ _ _ _ _ Ha Hb Hba Eb Fa Fb Db)].
Qed.
End Two.

(** ** Concrete inputs *)

Module NchanDemo.
Definition empty : Buffer := mkBuffer [] 0 0 0.
Definition channel (id : Z) : Channel :=
  mkChannel SSH_CHANNEL_OPEN id 5 0 0 0 7 7 (-1) 7 0 0 0 empty empty empty 100 100 100 100 0 100 0 SESSION 0 false 0.
Definition start (id : Z) : cstate := mkCstate (channel id) [] [] [].

Lemma nchan_discipline_witness :
  ∃ s1 s2, steps true 0 [Rcvd_ieof; Read_failed; Ibuf_empty] (start 0) = Ok (tt, s1) ∧
    steps true 0 [Collect true; Collect true; Rcvd_oclose; Rcvd_oclose] s1 = Ok (tt, s2) ∧
    disciplined true s1 ∧ disciplined true s2 ∧ c_istate (ch s1) ≤ c_istate (ch s2) ∧ c_ostate (ch s1) ≤ c_ostate (ch s2).
Proof.
  apply (nchan_discipline true 0 [Rcvd_ieof; Read_failed; Ibuf_empty] [Collect true; Collect true; Rcvd_oclose; Rcvd_oclose] (start 0)).
  split_and!; reflexivity.
Defined.

(** One end reads the end of its input, the other answers. *)
Definition result_of (c20 : bool) (es : list event) (s : cstate) : cstate :=
  match steps c20 0 es s with Ok (_, s') => s' | _ => s end.
Definition at_ (a b : list event) (ra rb : nat) : pair :=
  mkPair (result_of false a (start 0)) (result_of false b (start 1)) ra rb.

Definition ended : pair :=
  at_ [Read_failed; Ibuf_empty; Rcvd_oclose; Rcvd_ieof] [Rcvd_ieof; Read_failed; Ibuf_empty; Rcvd_oclose] 2 2.

Lemma local_a e a b ra rb : local e → step false 0 e (result_of false a (start 0)) = Ok (tt, result_of false (a ++ [e]) (start 0)) →
  moves2 false 0 0 (at_ a b ra rb) (at_ (a ++ [e]) b ra rb).
Proof. apply (m_local_a false 0 0 e (at_ a b ra rb)). Qed.
Lemma local_b e a b ra rb : local e → step false 0 e (result_of false b (start 1)) = Ok (tt, result_of false (b ++ [e]) (start 1)) →
  moves2 false 0 0 (at_ a b ra rb) (at_ a (b ++ [e]) ra rb).
Proof. apply (m_local_b false 0 0 e (at_ a b ra rb)). Qed.
Lemma recv_a e m a b ra rb :
  sent (result_of false b (start 1)) !! ra = Some m → receive m = e →
  step false 0 e (result_of false a (start 0)) = Ok (tt, result_of false (a ++ [e]) (start 0)) →
  moves2 false 0 0 (at_ a b ra rb) (at_ (a ++ [e]) b (S ra) rb).
Proof. intros Hm <-. by apply (m_recv_a false 0 0 (at_ a b ra rb) m). Qed.
Lemma recv_b e m a b ra rb :
  sent (result_of false a (start 0)) !! rb = Some m → receive m = e →
  step false 0 e (result_of false b (start 1)) = Ok (tt, result_of false (b ++ [e]) (start 1)) →
  moves2 false 0 0 (at_ a b ra rb) (at_ a (b ++ [e]) ra (S rb)).
Proof. intros Hm <-. by apply (m_recv_b false 0 0 (at_ a b ra rb) m). Qed.

Lemma ended_reached : rtc (moves2 false 0 0) (at_ [] [] 0 0) ended.
Proof.
  apply (rtc_l _ _ (at_ [Read_failed] [] 0 0)); [apply (local_a Read_failed [] [] 0 0); vm_compute; first [exact Logic.I|reflexivity]|].
  apply (rtc_l _ _ (at_ [Read_failed; Ibuf_empty] [] 0 0)); [apply (local_a Ibuf_empty [Read_failed] [] 0 0); vm_compute; first [exact Logic.I|reflexivity]|].
  apply (rtc_l _ _ (at_ [Read_failed; Ibuf_empty] [Rcvd_ieof] 0 1)); [apply (recv_b Rcvd_ieof (ieof1 5) [Read_failed; Ibuf_empty] [] 0 0); vm_compute; first [exact Logic.I|reflexivity]|].
  apply (rtc_l _ _ (at_ [Read_failed; Ibuf_empty; Rcvd_oclose] [Rcvd_ieof] 1 1)); [apply (recv_a Rcvd_oclose (oclose1 5) [Read_failed; Ibuf_empty] [Rcvd_ieof] 0 1); vm_compute; first [exact Logic.I|reflexivity]|].
  apply (rtc_l _ _ (at_ [Read_failed; Ibuf_empty; Rcvd_oclose] [Rcvd_ieof; Read_failed] 1 1)); [apply (local_b Read_failed [Read_failed; Ibuf_empty; Rcvd_oclose] [Rcvd_ieof] 1 1); vm_compute; first [exact Logic.I|reflexivity]|].
  apply (rtc_l _ _ (at_ [Read_failed; Ibuf_empty; Rcvd_oclose] [Rcvd_ieof; Read_failed; Ibuf_empty] 1 1)); [apply (local_b Ibuf_empty [Read_failed; Ibuf_empty; Rcvd_oclose] [Rcvd_ieof; Read_failed] 1 1); vm_compute; first [exact Logic.I|reflexivity]|].
  apply (rtc_l _ _ (at_ [Read_failed; Ibuf_empty; Rcvd_oclose; Rcvd_ieof] [Rcvd_ieof; Read_failed; Ibuf_empty] 2 1)); [apply (recv_a Rcvd_ieof (ieof1 5) [Read_failed; Ibuf_empty; Rcvd_oclose] [Rcvd_ieof; Read_failed; Ibuf_empty] 1 1); vm_compute; first [exact Logic.I|reflexivity]|].
  apply (rtc_l _ _ (at_ [Read_failed; Ibuf_empty; Rcvd_oclose; Rcvd_ieof] [Rcvd_ieof; Read_failed; Ibuf_empty; Rcvd_oclose] 2 2)); [apply (recv_b Rcvd_oclose (oclose1 5) [Read_failed; Ibuf_empty; Rcvd_oclose; Rcvd_ieof] [Rcvd_ieof; Read_failed; Ibuf_empty] 2 1); vm_compute; first [exact Logic.I|reflexivity]|].
  apply rtc_refl.
Qed.

Lemma close_handshake_witness :
  chan_is_dead false 0 true (end_a ended) = Ok (true, end_a ended) ∧ chan_is_dead false 0 true (end_b ended) = Ok (true, end_b ended).
Proof.
  apply (close_handshake false 0 0 (at_ [] [] 0 0) ended).
  - unfold started, fresh. split_and!; reflexivity.
  - apply ended_reached.
  - split; vm_compute; discriminate.
  - split; vm_compute; discriminate.
  - reflexivity.
  - reflexivity.
  - reflexivity.
  - reflexivity.
Defined.
End NchanDemo.
