(* ===== verification/Channels.v ===== *)
(** * Channels ([channels.c])

    The table of channels, the flow control of protocol 2, the handlers of the
    channel messages and the reading and writing of the descriptors.  The
    functions that work on one channel have the state of [Nchan.v]; those on
    the table also have the packet that is being read.  What [read], [write],
    [select] and [tcgetattr] return are arguments. *)

From S2P Require Import Prelude ByteOrder Buffer Crc32 Deattack Stdio SuperTrace HashMap Csbuflo.
From S2P Require Import CipherMac Packet Nchan.

Definition SSH_MSG_CHANNEL_OPEN_CONFIRMATION : Z := 21.
Definition SSH_MSG_CHANNEL_DATA : Z := 23.
Definition SSH_MSG_CHANNEL_CLOSE : Z := 24.
Definition SSH_MSG_CHANNEL_CLOSE_CONFIRMATION : Z := 25.
Definition SSH2_MSG_CHANNEL_OPEN : Z := 90.
Definition SSH2_MSG_CHANNEL_WINDOW_ADJUST : Z := 93.
Definition SSH2_MSG_CHANNEL_DATA : Z := 94.
Definition SSH2_MSG_CHANNEL_EXTENDED_DATA : Z := 95.
Definition SSH2_EXTENDED_DATA_STDERR : Z := 1.
Definition SSH_BUG_OPENFAILURE : Z := 0x20000.
Definition CHAN_RBUF : Z := 16 * 1024.

(** Results of [read] and [write]: interrupted, nothing available (EAGAIN),
    failed or end of file, or bytes. *)
Inductive read_result := Rd_intr | Rd_again | Rd_end | Rd_data (l : list Z).
Inductive write_result := Wr_again | Wr_fail | Wr_done (n : Z).

Record chans := mkChans {
  channels : list (option Channel);
  outbox : list msg;
  syscalls : list syscall;
  complaints : list string;
  packet : Buffer
}.
#[export] Instance eta_chans : Eta chans := λ s,
  {| channels := channels s; outbox := outbox s; syscalls := syscalls s; complaints := complaints s; packet := packet s |}.

Section Channels.
Context (compat13 compat20 : bool) (datafellows : Z) (maxsize : Z) (interactive : bool).

Definition liftC {A} (m : outcome A) : M cstate A := liftO m.

(** ** Data from the channel to the connection *)

(** The part for extended data of [channel_output_poll]. *)
Definition poll_extended : M cstate unit :=
  c ← getC id;
  let len := buffer_len (c_extended c) in
  if compat20 && negb (flag CHAN_EOF_SENT c) && (0 <? c_remote_window c) && (0 <? len) &&
     (c_extended_usage c =? CHAN_EXTENDED_READ) then
    let len := if c_remote_window c <? len then c_remote_window c else len in
    let len := if c_remote_maxpacket c <? len then c_remote_maxpacket c else len in
    data ← liftC (peek_bytes (c_extended c) len);
    _ ← send SSH2_MSG_CHANNEL_EXTENDED_DATA
          [Items.Int (c_remote_id c); Items.Int SSH2_EXTENDED_DATA_STDERR; Items.String data];
    b ← liftC (buffer_consume (c_extended c) len);
    modC (λ c, c <| c_extended := b |> <| c_remote_window := u32 (c_remote_window c - len) |>)
  else skip.

(** How much of [len] bytes of a stream goes into one message. *)
Definition poll_len (c : Channel) (len : Z) : Z :=
  if compat20 then
    let len := if c_remote_window c <? len then c_remote_window c else len in
    if c_remote_maxpacket c <? len then c_remote_maxpacket c else len
  else if interactive then if 1024 <? len then 512 else len
  else if maxsize / 2 <? len then maxsize / 2 else len.

Definition poll_datagram : M cstate unit :=
  c ← getC id;
  '(data, b) ← liftC (buffer_get_string (c_input c));
  _ ← modC (λ c, c <| c_input := b |>);
  let dlen := Z.of_nat (length data) in
  if (c_remote_window c <? dlen) || (c_remote_maxpacket c <? dlen) then skip
  else
    _ ← send SSH2_MSG_CHANNEL_DATA [Items.Int (c_remote_id c); Items.String data];
    modC (λ c, c <| c_remote_window := u32 (c_remote_window c - (dlen + 4)) |>).

Definition poll_stream : M cstate unit :=
  c ← getC id;
  let len := poll_len c (buffer_len (c_input c)) in
  if 0 <? len then
    data ← liftC (peek_bytes (c_input c) len);
    _ ← send (if compat20 then SSH2_MSG_CHANNEL_DATA else SSH_MSG_CHANNEL_DATA) [Items.Int (c_remote_id c); Items.String data];
    b ← liftC (buffer_consume (c_input c) len);
    modC (λ c, c <| c_input := b |> <| c_remote_window := u32 (c_remote_window c - len) |>)
  else skip.

(** The body of the loop of [channel_output_poll]. *)
Definition output_poll_one : M cstate unit :=
  c ← getC id;
  if (if compat13 then negb (c_type c =? SSH_CHANNEL_OPEN) && negb (c_type c =? SSH_CHANNEL_INPUT_DRAINING)
      else negb (c_type c =? SSH_CHANNEL_OPEN)) then skip
  else if compat20 && (flag CHAN_CLOSE_SENT c || flag CHAN_CLOSE_RCVD c) then skip
  else if ((c_istate c =? CHAN_INPUT_OPEN) || (c_istate c =? CHAN_INPUT_WAIT_DRAIN)) && (0 <? buffer_len (c_input c)) then
    if negb (c_datagram c =? 0) then poll_datagram else _ ← poll_stream; poll_extended
  else
    _ ← (if c_istate c =? CHAN_INPUT_WAIT_DRAIN then
           if compat13 then fatalC "cannot happen: istate == INPUT_WAIT_DRAIN for proto 1.3"
           else if efd_input_active compat20 c then skip
           else chan_ibuf_empty compat20
         else skip);
    poll_extended.

(** ** Data from the connection to the channel *)

(** [channel_input_data] after the data has been read; the result tells whether
    [packet_check_eom] is reached. *)
Definition input_data (data : list Z) : M cstate bool :=
  c ← getC id;
  let data_len := Z.of_nat (length data) in
  let win_len := if c_datagram c =? 0 then data_len else u32 (data_len + 4) in
  if negb compat13 && negb (c_ostate c =? CHAN_OUTPUT_OPEN) then
    _ ← when compat20 (modC (λ c, c <| c_local_window := u32 (c_local_window c - win_len) |>
                                    <| c_local_consumed := u32 (c_local_consumed c + win_len) |>));
    mret false
  else if compat20 && (c_local_window c <? win_len) then _ ← error "rcvd too much data"; mret false
  else
    _ ← when compat20 (modC (λ c, c <| c_local_window := u32 (c_local_window c - win_len) |>));
    b ← liftC (if c_datagram c =? 0 then buffer_append (c_output c) data else buffer_put_string (c_output c) data);
    _ ← modC (λ c, c <| c_output := b |>);
    mret true.

(** The same for extended data, after [packet_check_eom]. *)
Definition input_extended (data : list Z) : M cstate unit :=
  c ← getC id;
  let data_len := Z.of_nat (length data) in
  if c_local_window c <? data_len then error "rcvd too much extended_data"
  else
    _ ← modC (λ c, c <| c_local_window := u32 (c_local_window c - data_len) |>);
    b ← liftC (buffer_append (c_extended c) data);
    modC (λ c, c <| c_extended := b |>).

Definition window_adjust (adjust : Z) : M cstate unit :=
  modC (λ c, c <| c_remote_window := u32 (c_remote_window c + adjust) |>).

Definition channel_check_window : M cstate unit :=
  c ← getC id;
  if (c_type c =? SSH_CHANNEL_OPEN) && negb (flag CHAN_CLOSE_SENT c || flag CHAN_CLOSE_RCVD c) &&
     ((u32 (c_local_maxpacket c * 3) <? u32 (c_local_window_max c - c_local_window c)) ||
      (c_local_window c <? c_local_window_max c / 2)) && (0 <? c_local_consumed c) then
    _ ← send SSH2_MSG_CHANNEL_WINDOW_ADJUST [Items.Int (c_remote_id c); Items.Int (c_local_consumed c)];
    modC (λ c, c <| c_local_window := u32 (c_local_window c + c_local_consumed c) |> <| c_local_consumed := 0 |>)
  else skip.

(** ** The descriptors *)

(** What the channel does when its descriptor is at an end. *)
Definition not_open_or (failed : M cstate unit) : M cstate unit :=
  c ← getC id;
  if negb (c_type c =? SSH_CHANNEL_OPEN) then chan_mark_dead
  else if compat13 then
    modC (λ c, c <| c_output := buffer_clear (c_output c) |> <| c_type := SSH_CHANNEL_INPUT_DRAINING |>)
  else failed.

(** Without [input_filter]. *)
Definition channel_handle_rfd (readable : bool) (r : read_result) : M cstate Z :=
  c ← getC id;
  let force := negb (c_isatty c =? 0) && negb (c_detach_close c =? 0) && negb (c_istate c =? CHAN_INPUT_CLOSED) in
  if negb (c_rfd c =? -1) && (force || readable) then
    match r with
    | Rd_intr => mret 1
    | Rd_again => if force then _ ← not_open_or (chan_read_failed compat20); mret (-1) else mret 1
    | Rd_end => _ ← not_open_or (chan_read_failed compat20); mret (-1)
    | Rd_data data =>
        b ← liftC (if negb (c_datagram c =? 0) then buffer_put_string (c_input c) data else buffer_append (c_input c) data);
        _ ← modC (λ c, c <| c_input := b |>);
        mret 1
    end
  else mret 1.

(** [out:] the part of the output that has been consumed. *)
Definition wfd_out (olen : Z) : M cstate Z :=
  _ ← when (compat20 && (0 <? olen))
        (modC (λ c, c <| c_local_consumed := u32 (c_local_consumed c + (olen - buffer_len (c_output c))) |>));
  mret 1.

(** Without [output_filter]; [noecho] is the answer of [tcgetattr]. *)
Definition channel_handle_wfd (writable noecho : bool) (w : write_result) : M cstate Z :=
  c ← getC id;
  let olen := buffer_len (c_output c) in
  if negb (c_wfd c =? -1) && writable && (0 <? olen) then
    if negb (c_datagram c =? 0) then
      '(data, b) ← liftC (buffer_get_string (c_output c));
      _ ← modC (λ c, c <| c_output := b |>);
      match w with
      | Wr_again => mret 1
      | Wr_fail =>
          _ ← (if negb (c_type c =? SSH_CHANNEL_OPEN) then chan_mark_dead else chan_write_failed compat20 datafellows);
          mret (-1)
      | Wr_done _ => wfd_out olen
      end
    else
      match w with
      | Wr_again => mret 1
      | Wr_fail => _ ← not_open_or (chan_write_failed compat20 datafellows); mret (-1)
      | Wr_done len =>
          first ← liftC (peek (c_output c) 0);
          _ ← when (compat20 && negb (c_isatty c =? 0) && negb (first =? 13) && noecho) (call (Send_ignore (4 + len)));
          b ← liftC (buffer_consume (c_output c) len);
          _ ← modC (λ c, c <| c_output := b |>);
          wfd_out olen
      end
  else wfd_out 0.

Definition channel_handle_efd (writable readable : bool) (w : write_result) (r : read_result) : M cstate Z :=
  c ← getC id;
  let close := channel_close_fd (c_efd c) (λ c, c <| c_efd := -1 |>) in
  if c_efd c =? -1 then mret 1
  else if (c_extended_usage c =? CHAN_EXTENDED_WRITE) && writable && (0 <? buffer_len (c_extended c)) then
    match w with
    | Wr_again => mret 1
    | Wr_fail => _ ← close; mret 1
    | Wr_done len =>
        b ← liftC (buffer_consume (c_extended c) len);
        _ ← modC (λ c, c <| c_extended := b |> <| c_local_consumed := u32 (c_local_consumed c + len) |>);
        mret 1
    end
  else if ((c_extended_usage c =? CHAN_EXTENDED_READ) || (c_extended_usage c =? CHAN_EXTENDED_IGNORE)) &&
          (negb (c_detach_close c =? 0) || readable) then
    match r with
    | Rd_intr => mret 1
    | Rd_again => if negb (c_detach_close c =? 0) then _ ← close; mret 1 else mret 1
    | Rd_end => _ ← close; mret 1
    | Rd_data data =>
        if c_extended_usage c =? CHAN_EXTENDED_IGNORE then mret 1
        else b ← liftC (buffer_append (c_extended c) data); _ ← modC (λ c, c <| c_extended := b |>); mret 1
    end
  else mret 1.

(** The answers for the three descriptors of a channel. *)
Record io := mkIo {
  rfd_set : bool; rfd_read : read_result;
  wfd_set : bool; wfd_noecho : bool; wfd_written : write_result;
  efd_wset : bool; efd_rset : bool; efd_written : write_result; efd_read : read_result
}.

Definition channel_post_open (x : io) : M cstate unit :=
  _ ← channel_handle_rfd (rfd_set x) (rfd_read x);
  _ ← channel_handle_wfd (wfd_set x) (wfd_noecho x) (wfd_written x);
  if negb compat20 then skip
  else
    _ ← channel_handle_efd (efd_wset x) (efd_rset x) (efd_written x) (efd_read x);
    channel_check_window.

(** The bits that a [channel_pre] function sets in the two sets. *)
Record bits := mkBits { for_read : list Z; for_write : list Z }.

Definition channel_pre_open : M cstate bits :=
  c ← getC id;
  let limit := if compat20 then c_remote_window c else maxsize in
  r ← (if (c_istate c =? CHAN_INPUT_OPEN) && (0 <? limit) && (buffer_len (c_input c) <? limit) then
         '(ok, b) ← liftC (buffer_check_alloc (c_input c) CHAN_RBUF);
         _ ← modC (λ c, c <| c_input := b |>);
         mret (if ok =? 0 then [] else [c_rfd c])
       else mret []);
  w ← (if (c_ostate c =? CHAN_OUTPUT_OPEN) || (c_ostate c =? CHAN_OUTPUT_WAIT_DRAIN) then
         if 0 <? buffer_len (c_output c) then mret [c_wfd c]
         else
           _ ← when ((c_ostate c =? CHAN_OUTPUT_WAIT_DRAIN) && negb (efd_output_active compat20 c)) (chan_obuf_empty compat20);
           mret []
       else mret []);
  c ← getC id;
  if compat20 && negb (c_efd c =? -1) && negb ((c_istate c =? CHAN_INPUT_CLOSED) && (c_ostate c =? CHAN_OUTPUT_CLOSED)) then
    if (c_extended_usage c =? CHAN_EXTENDED_WRITE) && (0 <? buffer_len (c_extended c)) then mret (mkBits r (w ++ [c_efd c]))
    else if negb (flag CHAN_EOF_SENT c) &&
            ((c_extended_usage c =? CHAN_EXTENDED_READ) || (c_extended_usage c =? CHAN_EXTENDED_IGNORE)) &&
            (buffer_len (c_extended c) <? c_remote_window c) then mret (mkBits (r ++ [c_efd c]) w)
    else mret (mkBits r w)
  else mret (mkBits r w).

Definition channel_pre_open_13 : M cstate bits :=
  c ← getC id;
  mret (mkBits (if buffer_len (c_input c) <? maxsize then [c_sock c] else [])
               (if 0 <? buffer_len (c_output c) then [c_sock c] else [])).
Definition channel_pre_listener : M cstate bits := s ← getC c_sock; mret (mkBits [s] []).
Definition channel_pre_connecting : M cstate bits := s ← getC c_sock; mret (mkBits [] [s]).
Definition channel_pre_input_draining : M cstate bits :=
  c ← getC id;
  _ ← when (buffer_len (c_input c) =? 0) (
    _ ← send SSH_MSG_CHANNEL_CLOSE [Items.Int (c_remote_id c)];
    modC (λ c, c <| c_type := SSH_CHANNEL_CLOSED |>));
  mret (mkBits [] []).
Definition channel_pre_output_draining : M cstate bits :=
  c ← getC id;
  if buffer_len (c_output c) =? 0 then _ ← chan_mark_dead; mret (mkBits [] []) else mret (mkBits [] [c_sock c]).
Definition channel_post_output_drain_13 (writable : bool) (w : write_result) : M cstate unit :=
  c ← getC id;
  if writable && (0 <? buffer_len (c_output c)) then
    match w with
    | Wr_done len => b ← liftC (buffer_consume (c_output c) len); modC (λ c, c <| c_output := b |>)
    | Wr_again | Wr_fail => modC (λ c, c <| c_output := buffer_clear (c_output c) |>)
    end
  else skip.

(** ** The table *)

Definition faultT {A} : M chans A := λ _, Fault.
Definition fatalT {A} (e : string) : M chans A := λ _, Fatal e.

Definition channel_by_id (id : Z) (l : list (option Channel)) : option Channel :=
  if (id <? 0) || (Z.of_nat (length l) <=? id) then None else mjoin (l !! Z.to_nat id).

(** Channels that may receive messages. *)
Definition is_public (type : Z) : bool :=
  (type =? SSH_CHANNEL_X11_OPEN) || (type =? SSH_CHANNEL_LARVAL) || (type =? SSH_CHANNEL_CONNECTING) ||
  (type =? SSH_CHANNEL_DYNAMIC) || (type =? SSH_CHANNEL_OPENING) || (type =? SSH_CHANNEL_OPEN) ||
  (type =? SSH_CHANNEL_INPUT_DRAINING) || (type =? SSH_CHANNEL_OUTPUT_DRAINING).
Definition channel_lookup (id : Z) (l : list (option Channel)) : option Channel :=
  match channel_by_id id l with
  | Some c => if is_public (c_type c) then Some c else None
  | None => None
  end.

(** Code on the channel [c] of the table, with the rest of the state. *)
Definition with_chan {A} (c : Channel) (m : M cstate A) : M chans A := λ s,
  '(a, cs) ← m (mkCstate c (outbox s) (syscalls s) (complaints s));
  Ok (a, s <| channels := <[Z.to_nat (c_self c) := Some (ch cs)]> (channels s) |> <| outbox := sent cs |>
           <| syscalls := calls cs |> <| complaints := errors cs |>).

(** [channel_register_fds], without [fcntl], [set_nonblock] and [channel_max_fd]. *)
Definition channel_register_fds (rfd wfd efd extusage is_tty : Z) (c : Channel) : Channel :=
  c <| c_rfd := rfd |> <| c_wfd := wfd |> <| c_sock := if rfd =? wfd then rfd else -1 |> <| c_efd := efd |>
    <| c_extended_usage := extusage |> <| c_isatty := is_tty |>.

Fixpoint free_slot (i : Z) (l : list (option Channel)) : Z :=
  match l with
  | [] => -1
  | None :: _ => i
  | Some _ :: l => free_slot (i + 1) l
  end.

Definition channel_new (ctype : list Z) (type rfd wfd efd window maxpack extusage : Z) : M chans Channel :=
  l ← gets channels;
  let l := match l with [] => replicate 10 None | _ => l end in
  let found := free_slot 0 l in
  '(found, l) ← (if found <? 0 then
                   if 10000 <? Z.of_nat (length l) then fatalT "channel_new: internal error: channels_alloc too big."
                   else mret (Z.of_nat (length l), l ++ replicate 10 None)
                 else mret (found, l));
  let c := channel_register_fds rfd wfd efd extusage 0
             (mkChannel type found (-1) CHAN_INPUT_OPEN CHAN_OUTPUT_OPEN 0 (-1) (-1) (-1) (-1) 0 0 1
                buffer_init buffer_init buffer_init 0 0 window window 0 maxpack 0 ctype 0 false 0) in
  _ ← modify (λ s, s <| channels := <[Z.to_nat found := Some c]> l |>);
  mret c.

Definition close_fds : M cstate unit :=
  c ← getC id;
  _ ← channel_close_fd (c_sock c) (λ c, c <| c_sock := -1 |>);
  _ ← channel_close_fd (c_rfd c) (λ c, c <| c_rfd := -1 |>);
  _ ← channel_close_fd (c_wfd c) (λ c, c <| c_wfd := -1 |>);
  channel_close_fd (c_efd c) (λ c, c <| c_efd := -1 |>).

(** Without the callbacks of [status_confirms] and [filter_cleanup]. *)
Definition channel_free (c : Channel) : M chans unit :=
  _ ← with_chan c (_ ← when (negb (c_sock c =? -1)) (call (Shutdown_both (c_sock c))); close_fds);
  modify (λ s, s <| channels := <[Z.to_nat (c_self c) := None]> (channels s) |>).

(** [for (i = 0; i < channels_alloc; i++) if (channels[i] != NULL) f(channels[i])],
    with the table as it was at the start of the round. *)
Fixpoint each (n : nat) (i : nat) (f : Channel → M chans unit) : M chans unit :=
  match n with
  | O => skip
  | S n =>
      l ← gets channels;
      _ ← (match mjoin (l !! i) with Some c => f c | None => skip end);
      each n (S i) f
  end.
Definition for_channels (f : Channel → M chans unit) : M chans unit :=
  l ← gets channels; each (length l) 0 f.

Definition channel_free_all : M chans unit := for_channels channel_free.
Definition channel_close_all : M chans unit := for_channels (λ c, with_chan c close_fds).
Definition channel_stop_listening : M chans unit :=
  for_channels (λ c,
    let t := c_type c in
    if (t =? SSH_CHANNEL_AUTH_SOCKET) || (t =? SSH_CHANNEL_PORT_LISTENER) || (t =? SSH_CHANNEL_RPORT_LISTENER) ||
       (t =? SSH_CHANNEL_X11_LISTENER) then
      _ ← with_chan c (channel_close_fd (c_sock c) (λ c, c <| c_sock := -1 |>));
      channel_free (c <| c_sock := -1 |>)
    else skip).
Definition channel_output_poll : M chans unit := for_channels (λ c, with_chan c output_poll_one).

Definition channel_not_very_much_buffered_data (l : list (option Channel)) : bool :=
  forallb (λ o, match o with
                | Some c => negb ((c_type c =? SSH_CHANNEL_OPEN) && (maxsize <? buffer_len (c_output c)))
                | None => true
                end) l.

Fixpoint channel_still_open (l : list (option Channel)) : outcome Z :=
  match l with
  | [] => Ok 0
  | None :: l => channel_still_open l
  | Some c :: l =>
      let t := c_type c in
      if (t =? SSH_CHANNEL_X11_LISTENER) || (t =? SSH_CHANNEL_PORT_LISTENER) || (t =? SSH_CHANNEL_RPORT_LISTENER) ||
         (t =? SSH_CHANNEL_MUX_LISTENER) || (t =? SSH_CHANNEL_CLOSED) || (t =? SSH_CHANNEL_AUTH_SOCKET) ||
         (t =? SSH_CHANNEL_DYNAMIC) || (t =? SSH_CHANNEL_CONNECTING) || (t =? SSH_CHANNEL_ZOMBIE) then channel_still_open l
      else if t =? SSH_CHANNEL_LARVAL then
        if compat20 then channel_still_open l else Fatal "cannot happen: SSH_CHANNEL_LARVAL"
      else if (t =? SSH_CHANNEL_OPENING) || (t =? SSH_CHANNEL_OPEN) || (t =? SSH_CHANNEL_X11_OPEN) || (t =? SSH_CHANNEL_MUX_CLIENT)
      then Ok 1
      else if (t =? SSH_CHANNEL_INPUT_DRAINING) || (t =? SSH_CHANNEL_OUTPUT_DRAINING) then
        if compat13 then Ok 1 else Fatal "cannot happen: OUT_DRAIN"
      else Fatal "channel_still_open: bad channel type"
  end.

Fixpoint find_open (i : Z) (l : list (option Channel)) : outcome Z :=
  match l with
  | [] => Ok (-1)
  | None :: l => find_open (i + 1) l
  | Some c :: l =>
      let t := c_type c in
      if c_remote_id c <? 0 then find_open (i + 1) l
      else if (t =? SSH_CHANNEL_CLOSED) || (t =? SSH_CHANNEL_DYNAMIC) || (t =? SSH_CHANNEL_X11_LISTENER) ||
              (t =? SSH_CHANNEL_PORT_LISTENER) || (t =? SSH_CHANNEL_RPORT_LISTENER) || (t =? SSH_CHANNEL_MUX_LISTENER) ||
              (t =? SSH_CHANNEL_MUX_CLIENT) || (t =? SSH_CHANNEL_OPENING) || (t =? SSH_CHANNEL_CONNECTING) ||
              (t =? SSH_CHANNEL_ZOMBIE) then find_open (i + 1) l
      else if (t =? SSH_CHANNEL_LARVAL) || (t =? SSH_CHANNEL_AUTH_SOCKET) || (t =? SSH_CHANNEL_OPEN) || (t =? SSH_CHANNEL_X11_OPEN)
      then Ok i
      else if (t =? SSH_CHANNEL_INPUT_DRAINING) || (t =? SSH_CHANNEL_OUTPUT_DRAINING) then
        if compat13 then Ok i else Fatal "cannot happen: OUT_DRAIN"
      else Fatal "channel_find_open: bad channel type"
  end.
Definition channel_find_open (l : list (option Channel)) : outcome Z := find_open 0 l.

(** ** Messages about a channel *)

Definition channel_send_open (id : Z) : M chans unit :=
  l ← gets channels;
  match channel_lookup id l with
  | None => skip
  | Some c =>
      with_chan c (send SSH2_MSG_CHANNEL_OPEN
        [Items.CString (c_ctype c); Items.Int (c_self c); Items.Int (c_local_window c); Items.Int (c_local_maxpacket c)])
  end.

Definition channel_set_fds (id rfd wfd efd extusage is_tty window_max : Z) : M chans unit :=
  l ← gets channels;
  match channel_lookup id l with
  | Some c =>
      if negb (c_type c =? SSH_CHANNEL_LARVAL) then fatalT "channel_activate for non-larval channel"
      else
        with_chan c (
          _ ← modC (channel_register_fds rfd wfd efd extusage is_tty);
          _ ← modC (λ c, c <| c_type := SSH_CHANNEL_OPEN |> <| c_local_window := window_max |> <| c_local_window_max := window_max |>);
          send SSH2_MSG_CHANNEL_WINDOW_ADJUST [Items.Int (c_remote_id c); Items.Int window_max])
  | None => fatalT "channel_activate for non-larval channel"
  end.

(** The fields of the packet that is being read. *)
Definition get_from {A} (f : Buffer → outcome (A * Buffer)) : M chans A :=
  b ← gets packet;
  '(a, b) ← liftO (f b);
  _ ← modify (λ s, s <| packet := b |>);
  mret a.
Definition get_int : M chans Z := get_from buffer_get_int.
Definition get_id : M chans Z := v ← get_int; mret (i32 v).
Definition disconnect {A} (e : string) : M chans A := λ _, Disconnect e.
Definition check_eom : M chans unit :=
  b ← gets packet; if 0 <? i32 (buffer_len b) then disconnect "Packet integrity error." else skip.

Definition channel_input_data : M chans unit :=
  id ← get_id;
  l ← gets channels;
  match channel_lookup id l with
  | None => disconnect "Received data for nonexistent channel"
  | Some c =>
      if negb (c_type c =? SSH_CHANNEL_OPEN) && negb (c_type c =? SSH_CHANNEL_X11_OPEN) then skip
      else
        data ← get_from buffer_get_string_ptr;
        stored ← with_chan c (input_data data);
        when stored check_eom
  end.

Definition channel_input_extended_data : M chans unit :=
  id ← get_id;
  l ← gets channels;
  match channel_lookup id l with
  | None => disconnect "Received extended_data for bad channel"
  | Some c =>
      if negb (c_type c =? SSH_CHANNEL_OPEN) then skip
      else if flag CHAN_EOF_RCVD c && (Z.land datafellows SSH_BUG_EXTEOF =? 0) then disconnect "Received extended_data after EOF"
      else
        tcode ← get_int;
        if (c_efd c =? -1) || negb (c_extended_usage c =? CHAN_EXTENDED_WRITE) || negb (tcode =? SSH2_EXTENDED_DATA_STDERR) then skip
        else
          data ← get_from buffer_get_string;
          _ ← check_eom;
          with_chan c (input_extended data)
  end.

Definition input_ieof : M cstate unit :=
  _ ← chan_rcvd_ieof compat20;
  c ← getC id;
  if negb (c_force_drain c =? 0) && (c_istate c =? CHAN_INPUT_OPEN) then
    _ ← modC (λ c, c <| c_istate := CHAN_INPUT_WAIT_DRAIN |>);
    when (buffer_len (c_input c) =? 0) (chan_ibuf_empty compat20)
  else skip.
Definition channel_input_ieof : M chans unit :=
  id ← get_id;
  _ ← check_eom;
  l ← gets channels;
  match channel_lookup id l with
  | None => disconnect "Received ieof for nonexistent channel"
  | Some c => with_chan c input_ieof
  end.

Definition channel_input_close : M chans unit :=
  id ← get_id;
  _ ← check_eom;
  l ← gets channels;
  match channel_lookup id l with
  | None => disconnect "Received close for nonexistent channel"
  | Some c =>
      with_chan c (
        _ ← send SSH_MSG_CHANNEL_CLOSE_CONFIRMATION [Items.Int (c_remote_id c)];
        when (negb (c_type c =? SSH_CHANNEL_CLOSED))
          (modC (λ c, c <| c_input := buffer_clear (c_input c) |> <| c_type := SSH_CHANNEL_OUTPUT_DRAINING |>)))
  end.

Definition channel_input_oclose : M chans unit :=
  id ← get_id;
  l ← gets channels;
  _ ← check_eom;
  match channel_lookup id l with
  | None => disconnect "Received oclose for nonexistent channel"
  | Some c => with_chan c (chan_rcvd_oclose compat20)
  end.

Definition channel_input_close_confirmation : M chans unit :=
  id ← get_id;
  l ← gets channels;
  _ ← check_eom;
  match channel_lookup id l with
  | None => disconnect "Received close confirmation for out-of-range channel"
  | Some c =>
      if negb (c_type c =? SSH_CHANNEL_CLOSED) then disconnect "Received close confirmation for non-closed channel"
      else channel_free c
  end.

(** [open_confirm] is the callback of the channel, if it has one. *)
Definition channel_input_open_confirmation (open_confirm : Z → Z → M chans unit) : M chans unit :=
  id ← get_id;
  l ← gets channels;
  match channel_lookup id l with
  | None => disconnect "Received open confirmation for non-opening channel"
  | Some c =>
      if negb (c_type c =? SSH_CHANNEL_OPENING) then disconnect "Received open confirmation for non-opening channel"
      else
        remote_id ← get_id;
        _ ← with_chan c (modC (λ c, c <| c_remote_id := remote_id |> <| c_type := SSH_CHANNEL_OPEN |>));
        let c := c <| c_remote_id := remote_id |> <| c_type := SSH_CHANNEL_OPEN |> in
        _ ← when compat20 (
          window ← get_int;
          maxpacket ← get_int;
          _ ← with_chan c (modC (λ c, c <| c_remote_window := window |> <| c_remote_maxpacket := maxpacket |>));
          open_confirm (c_self c) 1);
        check_eom
  end.

Definition channel_input_open_failure (open_confirm : Z → Z → M chans unit) : M chans unit :=
  id ← get_id;
  l ← gets channels;
  match channel_lookup id l with
  | None => disconnect "Received open failure for non-opening channel"
  | Some c =>
      if negb (c_type c =? SSH_CHANNEL_OPENING) then disconnect "Received open failure for non-opening channel"
      else
        _ ← when compat20 (
          _ ← get_int;
          _ ← when (Z.land datafellows SSH_BUG_OPENFAILURE =? 0) (_ ← get_from buffer_get_string; _ ← get_from buffer_get_string; skip);
          open_confirm (c_self c) 0);
        _ ← check_eom;
        l ← gets channels;
        match channel_by_id id l with Some c => with_chan c chan_mark_dead | None => faultT end
  end.

Definition channel_input_window_adjust : M chans unit :=
  if negb compat20 then skip
  else
    id ← get_id;
    l ← gets channels;
    match channel_lookup id l with
    | None => skip
    | Some c =>
        adjust ← get_int;
        _ ← check_eom;
        with_chan c (window_adjust adjust)
    end.

(** ** The loop over the channels *)

(** [detach_user] is the callback; it may cancel itself. *)
Definition channel_garbage_collect (detach_user : Z → M chans unit) (c : Channel) : M chans unit :=
  let dead c do_send := with_chan c (chan_is_dead compat20 datafellows do_send) in
  let collect := (
    l ← gets channels;
    match channel_by_id (c_self c) l with
    | None => faultT
    | Some c =>
        d ← dead c true;
        if negb d then skip
        else
          l ← gets channels;
          match channel_by_id (c_self c) l with Some c => channel_free c | None => faultT end
    end) in
  if c_detach_user c then
    d ← dead c (negb (c_detach_close c =? 0));
    if negb d then skip
    else
      _ ← detach_user (c_self c);
      l ← gets channels;
      match channel_by_id (c_self c) l with
      | None => faultT
      | Some c => if c_detach_user c then skip else collect
      end
  else collect.

(** [channel_handler]: [pre] tells which of the two tables is used; [f] is what
    the table has for a type. *)
Definition channel_handler (pre : bool) (f : Z → option (Channel → M chans unit)) (detach_user : Z → M chans unit) : M chans unit :=
  for_channels (λ c,
    if negb (c_delayed c =? 0) && negb pre then skip
    else
      _ ← when (negb (c_delayed c =? 0)) (with_chan c (modC (λ c, c <| c_delayed := 0 |>)));
      let c := if c_delayed c =? 0 then c else c <| c_delayed := 0 |> in
      _ ← match f (c_type c) with Some g => g c | None => skip end;
      l ← gets channels;
      match channel_by_id (c_self c) l with Some c => channel_garbage_collect detach_user c | None => faultT end).

End Channels.
