(* ===== verification/ChannelsProofs.v ===== *)
(** * Flow control: theorems

    The accounts of a channel of protocol 2: the window the other side has left
    ([remote_window]), the window this side has granted ([local_window]), and
    what it has taken in. *)

From stdpp Require Import relations.
From S2P Require Import Prelude ByteOrder Buffer Crc32 Deattack Stdio SuperTrace HashMap Csbuflo.
From S2P Require Import CipherMac Packet PacketProofs Nchan Channels.

(** ** Messages *)

Definition data_of (m : msg) : Z :=
  if m_type_of m =? SSH2_MSG_CHANNEL_DATA then
    match m_items m with [_; Items.String s] => Z.of_nat (length s) | _ => 0 end
  else if m_type_of m =? SSH2_MSG_CHANNEL_EXTENDED_DATA then
    match m_items m with [_; _; Items.String s] => Z.of_nat (length s) | _ => 0 end
  else 0.
Definition adjust_of (m : msg) : Z :=
  if m_type_of m =? SSH2_MSG_CHANNEL_WINDOW_ADJUST then
    match m_items m with [_; Items.Int v] => v | _ => 0 end
  else 0.
Definition total (f : msg → Z) (l : list msg) : Z := foldr (λ m n, f m + n) 0 l.

Lemma total_app f l k : total f (l ++ k) = total f l + total f k.
Proof. induction l as [|m l IH]; [done|]. unfold total in *. cbn [app foldr]. rewrite IH. lia. Qed.
Lemma total_one f m : total f [m] = f m.
Proof. unfold total. cbn. lia. Qed.

(** ** The account of one end *)

(** What has been taken in and not been passed on. *)
Definition taken (c : Channel) : Z :=
  Z.of_nat (length (contents (c_output c))) +
  (if c_extended_usage c =? CHAN_EXTENDED_WRITE then Z.of_nat (length (contents (c_extended c))) else 0).

(** A stream channel whose grants are covered by [local_window_max]. *)
Record ok (c : Channel) : Prop := {
  ok_in : wf (c_input c);
  ok_out : wf (c_output c);
  ok_ext : wf (c_extended c);
  ok_rw : is_u32 (c_remote_window c);
  ok_mp : 0 ≤ c_remote_maxpacket c;
  ok_lw : 0 ≤ c_local_window c;
  ok_lc : 0 ≤ c_local_consumed c;
  ok_max : c_local_window_max c < 2 ^ 32;
  ok_sum : c_local_window c + c_local_consumed c + taken c ≤ c_local_window_max c;
  ok_stream : c_datagram c = 0
}.

Definition fair (errs : list string) : Prop :=
  Forall (λ e, e ≠ "rcvd too much data"%string ∧ e ≠ "rcvd too much extended_data"%string) errs.

Record account (s s' : cstate) : Prop := {
  ac_ok : ok (ch s');
  ac_max : c_local_window_max (ch s') = c_local_window_max (ch s);
  ac_sent : ∃ new, sent s' = sent s ++ new ∧ Forall (λ m, 0 ≤ adjust_of m) new ∧
    c_remote_window (ch s') + total data_of new = c_remote_window (ch s) ∧
    c_local_window (ch s') = c_local_window (ch s) + total adjust_of new;
  ac_err : ∃ errs, errors s' = errors s ++ errs ∧ fair errs
}.
(** Code that keeps the accounts. *)
Definition books (s s' : cstate) : Prop := ok (ch s) → account s s'.

Lemma fair_nil : fair [].
Proof. constructor. Qed.
Lemma fair_app a b : fair a → fair b → fair (a ++ b).
Proof. apply Forall_app_2. Qed.

Lemma account_refl s : ok (ch s) → account s s.
Proof.
  intros Hs. split; [done..| |].
  - exists []. rewrite app_nil_r. cbn. split_and!; (done || lia || constructor).
  - exists []. rewrite app_nil_r. split; [done|apply fair_nil].
Qed.
Lemma account_trans s s1 s2 : account s s1 → account s1 s2 → account s s2.
Proof.
  intros [H1 M1 (n1 & S1 & A1 & R1 & L1) (e1 & E1 & F1)] [H2 M2 (n2 & S2 & A2 & R2 & L2) (e2 & E2 & F2)].
  split; [done|congruence| |].
  - exists (n1 ++ n2). rewrite !total_app, S2, S1, app_assoc. split_and!; (done || lia || by apply Forall_app_2).
  - exists (e1 ++ e2). rewrite E2, E1, app_assoc. split; [done|by apply fair_app].
Qed.
#[export] Instance books_preorder : PreOrder books.
Proof.
  split.
  - intros s Hs. by apply account_refl.
  - intros s s1 s2 H1 H2 Hs. specialize (H1 Hs). eapply account_trans; [exact H1|]. apply H2, (ac_ok _ _ H1).
Qed.

(** ** Code that touches no account *)

Record view_same (c c' : Channel) : Prop := {
  vs_in : c_input c' = c_input c;
  vs_out : c_output c' = c_output c;
  vs_ext : c_extended c' = c_extended c;
  vs_rw : c_remote_window c' = c_remote_window c;
  vs_mp : c_remote_maxpacket c' = c_remote_maxpacket c;
  vs_lw : c_local_window c' = c_local_window c;
  vs_lc : c_local_consumed c' = c_local_consumed c;
  vs_max : c_local_window_max c' = c_local_window_max c;
  vs_usage : c_extended_usage c' = c_extended_usage c;
  vs_dg : c_datagram c' = c_datagram c
}.

Lemma ok_view c c' : view_same c c' → ok c → ok c'.
Proof.
  intros [Vi Vo Ve Vr Vp Vl Vc Vm Vu Vd] [? ? ? ? ? ? ? ? ? ?]. unfold taken in *.
  split; unfold taken; rewrite ?Vi, ?Vo, ?Ve, ?Vr, ?Vp, ?Vl, ?Vc, ?Vm, ?Vu, ?Vd; done.
Qed.

(** Nothing is sent. *)
Lemma account_quiet s s' errs :
  ok (ch s') → c_local_window_max (ch s') = c_local_window_max (ch s) → sent s' = sent s →
  c_remote_window (ch s') = c_remote_window (ch s) → c_local_window (ch s') = c_local_window (ch s) →
  errors s' = errors s ++ errs → fair errs → account s s'.
Proof.
  intros Ho Hm Hs Hr Hl He Hf. split; [done..| |by exists errs].
  exists []. rewrite app_nil_r. cbn. split_and!; (done || lia || constructor).
Qed.

Lemma books_modC f : (∀ c, view_same c (f c)) → moves books (modC f).
Proof.
  intros Hf s a s' [= <- <-] Hs. pose proof (Hf (ch s)) as Hv. apply (account_quiet _ _ []); rsimpl.
  - by eapply ok_view.
  - apply Hv.
  - done.
  - apply Hv.
  - apply Hv.
  - by rewrite app_nil_r.
  - apply fair_nil.
Qed.
Lemma books_error e : fair [e] → moves books (error e).
Proof. intros Hf s a s' [= <- <-] Hs. by apply (account_quiet _ _ [e]). Qed.
Lemma books_call x : moves books (call x).
Proof. intros s a s' [= <- <-] Hs. apply (account_quiet _ _ []); rsimpl; rewrite ?app_nil_r; try done. apply fair_nil. Qed.
Lemma books_send t items : data_of (mkMsg t items) = 0 → adjust_of (mkMsg t items) = 0 → moves books (send t items).
Proof.
  intros Hd Ha s a s' [= <- <-] Hs. split; rsimpl; [done..| |].
  - exists [mkMsg t items]. rewrite !total_one, Hd, Ha. split_and!; (done || lia || (constructor; [lia|constructor])).
  - exists []. rewrite app_nil_r. split; [done|apply fair_nil].
Qed.
Lemma books_getC {A} (f : Channel → A) : moves books (getC f).
Proof. apply moves_gets. apply _. Qed.
Lemma books_fatal {A} e : moves books (fatalC (A := A) e).
Proof. by intros s a s' E. Qed.

(** Clearing the output. *)
Lemma books_clear f :
  (∀ c, view_same (c <| c_output := buffer_clear (c_output c) |>) (f c)) → moves books (modC f).
Proof.
  intros Hf s a s' [= <- <-] Hs. pose proof (Hf (ch s)) as Hv.
  assert (Ho : ok ((ch s) <| c_output := buffer_clear (c_output (ch s)) |>)).
  { destruct (buffer_clear_spec _ (ok_out _ Hs)) as [Hw Hc]. destruct Hs as [? ? ? ? ? ? ? ? Hsum ?]. unfold taken in Hsum.
    split; try done. unfold taken. rsimpl. rewrite Hc. cbn [length]. lia. }
  apply (account_quiet _ _ []); rsimpl; try apply Hv; try done; [by eapply ok_view|by rewrite app_nil_r|apply fair_nil].
Qed.

Create HintDb books.
Ltac book :=
  repeat first
    [ solve [eauto 2 with books]
    | apply (moves_bind books); [|intros ?]
    | apply books_getC | apply (moves_ret books) | apply books_call | apply books_fatal
    | apply (moves_lift books)
    | apply books_send; done
    | apply books_error; repeat constructor; discriminate
    | apply (moves_when books); intros _
    | apply books_modC; intros ?; solve [split; done]
    | apply books_clear; intros ?; solve [split; done]
    | progress unfold skip | progress unfold liftC | case_match ].

Lemma set_flag_view b c : view_same c (set_flag b c).
Proof. by split. Qed.
Lemma books_set_flag b : moves books (modC (set_flag b)).
Proof. apply books_modC, set_flag_view. Qed.
#[local] Hint Resolve books_set_flag : books.

Section Close.
Context (c20 : bool) (df : Z).
Lemma books_istate n : moves books (chan_set_istate n).
Proof. unfold chan_set_istate. book. Qed.
Lemma books_ostate n : moves books (chan_set_ostate n).
Proof. unfold chan_set_ostate. book. Qed.
Lemma books_close_fd fd f : (∀ c, view_same c (f c)) → moves books (channel_close_fd fd f).
Proof. intros Hf. unfold channel_close_fd. destruct (negb _); [|book]. apply (moves_bind books); [book|intros _]. by apply books_modC. Qed.
Lemma books_shutdown_write : moves books (chan_shutdown_write c20).
Proof.
  unfold chan_shutdown_write. book.
Qed.
Lemma books_shutdown_read : moves books (chan_shutdown_read c20).
Proof. unfold chan_shutdown_read. book. Qed.
#[local] Hint Resolve books_istate books_ostate books_shutdown_write books_shutdown_read : books.
Lemma books_send_ieof1 : moves books chan_send_ieof1.
Proof. unfold chan_send_ieof1. book. Qed.
Lemma books_send_oclose1 : moves books chan_send_oclose1.
Proof. unfold chan_send_oclose1. book. Qed.
Lemma books_send_eof2 : moves books chan_send_eof2.
Proof. unfold chan_send_eof2. book. Qed.
Lemma books_send_close2 : moves books chan_send_close2.
Proof. unfold chan_send_close2. book. Qed.
Lemma books_send_eow2 : moves books (chan_send_eow2 df).
Proof. unfold chan_send_eow2. book. Qed.
#[local] Hint Resolve books_send_ieof1 books_send_oclose1 books_send_eof2 books_send_close2 books_send_eow2 : books.
Lemma books_read_failed : moves books (chan_read_failed c20).
Proof. unfold chan_read_failed. book. Qed.
Lemma books_ibuf_empty : moves books (chan_ibuf_empty c20).
Proof. unfold chan_ibuf_empty. book. Qed.
Lemma books_obuf_empty : moves books (chan_obuf_empty c20).
Proof. unfold chan_obuf_empty. book. Qed.
#[local] Hint Resolve books_obuf_empty : books.
Lemma books_write_failed : moves books (chan_write_failed c20 df).
Proof. unfold chan_write_failed, chan_write_failed1, chan_write_failed2. book. Qed.
Lemma books_rcvd_ieof : moves books (chan_rcvd_ieof c20).
Proof. unfold chan_rcvd_ieof, chan_rcvd_ieof1, chan_rcvd_eof2. book. Qed.
Lemma books_rcvd_oclose : moves books (chan_rcvd_oclose c20).
Proof. unfold chan_rcvd_oclose, chan_rcvd_oclose1, chan_rcvd_close2. book. Qed.
Lemma books_rcvd_eow : moves books (chan_rcvd_eow c20).
Proof. unfold chan_rcvd_eow. book. Qed.
Lemma books_mark_dead : moves books chan_mark_dead.
Proof. unfold chan_mark_dead. book. Qed.
Lemma books_is_dead b : moves books (chan_is_dead c20 df b).
Proof. unfold chan_is_dead. book. Qed.
End Close.
#[export] Hint Resolve books_read_failed books_ibuf_empty books_obuf_empty books_write_failed books_rcvd_ieof books_rcvd_oclose
  books_rcvd_eow books_mark_dead books_is_dead books_set_flag : books.

(** ** Buffers *)

Lemma append_bound_inv b data b' :
  wf b → buffer_append b data = Ok b' → wf b' ∧ contents b' = contents b ++ data.
Proof.
  intros Hb E. destruct (Z.leb_spec (Z.of_nat (length data)) BUFFER_MAX_CHUNK) as [Hl|Hl].
  - pose proof (buffer_append_spec b data Hb Hl) as Hs. destruct (append_fits _ _).
    + destruct Hs as (b1 & E1 & ? & ? & _). rewrite E1 in E. by injection E as <-.
    + destruct Hs as [m Em]. congruence.
  - unfold buffer_append, buffer_append_space in E. rewrite (proj2 (Z.ltb_lt _ _)) in E by lia. discriminate.
Qed.
Lemma consume_inv b n b' :
  wf b → 0 ≤ n → buffer_consume b n = Ok b' →
  wf b' ∧ n ≤ Z.of_nat (length (contents b)) ∧ contents b' = drop (Z.to_nat n) (contents b).
Proof.
  intros Hb Hn E. pose proof (buffer_consume_spec b n Hb Hn) as Hs. destruct (Z.leb_spec n (Z.of_nat (length (contents b)))).
  - destruct Hs as (b1 & E1 & ? & _ & _ & ?). rewrite E1 in E. by injection E as <-.
  - destruct Hs as [m Em]. congruence.
Qed.

(** ** The connection's side *)

Lemma account_send s s' m :
  ok (ch s') → c_local_window_max (ch s') = c_local_window_max (ch s) → sent s' = sent s ++ [m] → errors s' = errors s →
  0 ≤ adjust_of m → c_remote_window (ch s') = c_remote_window (ch s) - data_of m →
  c_local_window (ch s') = c_local_window (ch s) + adjust_of m → account s s'.
Proof.
  intros Ho Hm Hs He Ha Hr Hl. split; [done..| |].
  - exists [m]. rewrite !total_one. split_and!; (done || lia || (constructor; [lia|constructor])).
  - exists []. rewrite app_nil_r. split; [done|apply fair_nil].
Qed.

Section Poll.
Context (maxsize : Z) (interactive : bool).

Lemma clamp_le a b : (if a <? b then a else b) = Z.min a b.
Proof. zcase; lia. Qed.

Lemma books_poll_stream : moves books (poll_stream true maxsize interactive).
Proof.
  intros s a s' E Hs. unfold poll_stream in E. mstep_in E. unfold id in E. cbn [poll_len] in E. rewrite !clamp_le in E.
  set (c := ch s) in *. pose proof (buffer_len_contents _ (ok_in _ Hs)) as Hbl. rewrite Hbl in E.
  pose proof (ok_rw _ Hs) as Hrw. unfold is_u32 in Hrw.
  set (len := Z.min (c_remote_maxpacket c) _) in E. destruct (Z.ltb_spec 0 len) as [Hlen|]; [|injection E as _ <-; by apply account_refl].
  rewrite (M_bind_Ok _ _ _ _ _ (liftO_Ok _ _ s (peek_bytes_contents (c_input c) len (ok_in _ Hs) ltac:(lia)))) in E. cbv beta in E.
  mstep_in E. apply M_bind_inv in E as (b & s2 & E1 & E2). apply bind_Ok in E1 as (b1 & Ec & [= -> <-]).
  apply consume_inv in Ec as (Hwb & _ & Hcb); [|apply Hs|lia]. injection E2 as _ <-.
  assert (Hd : data_of (mkMsg SSH2_MSG_CHANNEL_DATA [Items.Int (c_remote_id c); Items.String (take (Z.to_nat len) (contents (c_input c)))]) = len).
  { unfold data_of. cbn [m_type_of m_items Z.eqb Pos.eqb SSH2_MSG_CHANNEL_DATA]. rewrite length_take. lia. }
  eapply account_send; rsimpl; fold c; [|done|reflexivity|done|done|rewrite Hd, u32_small by lia; reflexivity|unfold adjust_of; cbn; lia].
  destruct Hs as [? ? ? ? ? ? ? ? ? ?]. split; try done; rsimpl; fold c. unfold is_u32. rewrite u32_small by lia. lia.
Qed.

Lemma books_poll_extended : moves books (poll_extended true).
Proof.
  intros s a s' E Hs. unfold poll_extended in E. mstep_in E. unfold id in E. rewrite !clamp_le in E.
  set (c := ch s) in *. pose proof (buffer_len_contents _ (ok_ext _ Hs)) as Hbl. rewrite Hbl in E.
  pose proof (ok_rw _ Hs) as Hrw. unfold is_u32 in Hrw.
  destruct (_ && _) eqn:Hg; [|injection E as _ <-; by apply account_refl].
  apply andb_true_iff in Hg as [Hg Hu]. rewrite !andb_true_iff, !Z.ltb_lt in Hg. apply Z.eqb_eq in Hu.
  set (len := Z.min (c_remote_maxpacket c) _) in E.
  assert (Hlen : 0 ≤ len) by (pose proof (ok_mp _ Hs); lia).
  rewrite (M_bind_Ok _ _ _ _ _ (liftO_Ok _ _ s (peek_bytes_contents (c_extended c) len (ok_ext _ Hs) ltac:(lia)))) in E. cbv beta in E.
  mstep_in E. apply M_bind_inv in E as (b & s2 & E1 & E2). apply bind_Ok in E1 as (b1 & Ec & [= -> <-]).
  apply consume_inv in Ec as (Hwb & _ & Hcb); [|apply Hs|lia]. injection E2 as _ <-.
  assert (Hd : data_of (mkMsg SSH2_MSG_CHANNEL_EXTENDED_DATA
    [Items.Int (c_remote_id c); Items.Int SSH2_EXTENDED_DATA_STDERR; Items.String (take (Z.to_nat len) (contents (c_extended c)))]) = len).
  { unfold data_of. cbn [m_type_of m_items Z.eqb Pos.eqb SSH2_MSG_CHANNEL_DATA SSH2_MSG_CHANNEL_EXTENDED_DATA]. rewrite length_take. lia. }
  eapply account_send; rsimpl; fold c; [|done|reflexivity|done|done|rewrite Hd, u32_small by lia; reflexivity|unfold adjust_of; cbn; lia].
  destruct Hs as [? ? ? ? ? ? ? ? Hsum ?]. fold c in Hsum. unfold taken in Hsum. rewrite Hu in Hsum.
  split; try done; rsimpl; fold c; [unfold is_u32; rewrite u32_small by lia; lia|]. unfold taken. rsimpl. by rewrite Hu.
Qed.

Lemma books_output_poll : moves books (output_poll_one false true maxsize interactive).
Proof.
  intros s a s' E Hs. pose proof (ok_stream _ Hs) as Hdg. unfold output_poll_one in E. mstep_in E. unfold id in E.
  rewrite Hdg in E. cbn [Z.eqb negb] in E. revert s a s' E Hs Hdg.
  enough (Hm : ∀ c, moves books (
    if negb (c_type c =? SSH_CHANNEL_OPEN) then skip
    else if true && (flag CHAN_CLOSE_SENT c || flag CHAN_CLOSE_RCVD c) then skip
    else if ((c_istate c =? CHAN_INPUT_OPEN) || (c_istate c =? CHAN_INPUT_WAIT_DRAIN)) && (0 <? buffer_len (c_input c))
    then _ ← poll_stream true maxsize interactive; poll_extended true
    else
      _ ← (if c_istate c =? CHAN_INPUT_WAIT_DRAIN then if efd_input_active true c then skip else chan_ibuf_empty true else skip);
      poll_extended true)).
  { intros s a s' E Hs _. exact (Hm (ch s) s a s' E Hs). }
  intros c. pose proof books_poll_stream. pose proof books_poll_extended. book.
Qed.

Lemma account_drain s s' n :
  ok (ch s) → 0 ≤ n → sent s' = sent s → errors s' = errors s →
  c_remote_window (ch s') = c_remote_window (ch s) → c_remote_maxpacket (ch s') = c_remote_maxpacket (ch s) →
  c_local_window (ch s') = c_local_window (ch s) → c_local_window_max (ch s') = c_local_window_max (ch s) →
  c_local_consumed (ch s') = u32 (c_local_consumed (ch s) + n) → taken (ch s') + n = taken (ch s) →
  wf (c_input (ch s')) → wf (c_output (ch s')) → wf (c_extended (ch s')) → c_datagram (ch s') = c_datagram (ch s) →
  account s s'.
Proof.
  intros [? ? ? ? ? ? ? ? Hsum ?] Hn Hs He Hr Hp Hl Hm Hc Ht Hwi Hwo Hwe Hd.
  assert (Ht0 : 0 ≤ taken (ch s')) by (unfold taken; case_match; lia).
  assert (Hc' : c_local_consumed (ch s') = c_local_consumed (ch s) + n) by (rewrite Hc, u32_small by lia; done).
  apply (account_quiet _ _ []); rewrite ?app_nil_r; try done; [|apply fair_nil].
  split; rewrite ?Hr, ?Hp, ?Hl, ?Hm, ?Hc', ?Hd; try done; lia.
Qed.
End Poll.

(** ** The descriptors' side *)

Section Descriptors.
Context (df : Z).

Lemma books_not_open_or m : moves books m → moves books (not_open_or false m).
Proof. intros Hm. unfold not_open_or. book. Qed.

(** A new input buffer. *)
Lemma books_input b : wf b → moves books (modC (λ c, c <| c_input := b |>)).
Proof.
  intros Hb s a s' [= <- <-] Hs. apply (account_quiet _ _ []); rsimpl; rewrite ?app_nil_r; try done; [|apply fair_nil].
  destruct Hs as [? ? ? ? ? ? ? ? ? ?]. by split.
Qed.

Lemma books_handle_rfd b r : moves books (channel_handle_rfd false true b r).
Proof.
  pose proof (books_not_open_or _ (books_read_failed true)) as Hno.
  intros s a s' E Hs. unfold channel_handle_rfd in E. mstep_in E. unfold id in E. rewrite (ok_stream _ Hs) in E. cbn [Z.eqb negb] in E.
  destruct (_ && _) in E; [|injection E as _ <-; by apply account_refl].
  assert (Hr : ∀ k : Z, moves books (_ ← not_open_or false (chan_read_failed true); mret k)) by (intros k; book).
  destruct r as [| | |data].
  - injection E as _ <-. by apply account_refl.
  - destruct (_ && _) in E; [exact (Hr _ _ _ _ E Hs)|injection E as _ <-; by apply account_refl].
  - exact (Hr _ _ _ _ E Hs).
  - apply M_bind_inv in E as (b1 & s2 & E1 & E2). apply bind_Ok in E1 as (b2 & Ea & [= -> <-]).
    apply append_bound_inv in Ea as [Hwb _]; [|apply Hs]. mstep_in E2. injection E2 as _ <-.
    by apply (books_input b1 Hwb s tt _ eq_refl Hs).
Qed.

(** A successful [write] has written something. *)
Definition written (w : write_result) : Prop := match w with Wr_done n => 0 < n | _ => True end.

Lemma books_handle_wfd b n w : written w → moves books (channel_handle_wfd false true df b n w).
Proof.
  intros Hw. pose proof (books_not_open_or _ (books_write_failed true df)) as Hno.
  intros s a s' E Hs. unfold channel_handle_wfd in E. mstep_in E. unfold id in E. rewrite (ok_stream _ Hs) in E. cbn [Z.eqb negb] in E.
  destruct (_ && _) eqn:Hg in E.
  2: { unfold wfd_out in E. cbn in E. injection E as _ <-. by apply account_refl. }
  destruct w as [| |len].
  - injection E as _ <-. by apply account_refl.
  - assert (Hr : ∀ k : Z, moves books (_ ← not_open_or false (chan_write_failed true df); mret k)) by (intros k; book).
    exact (Hr _ _ _ _ E Hs).
  - apply M_bind_inv in E as (x & s1 & E1 & E). apply bind_Ok in E1 as (x' & _ & [= -> <-]).
    apply M_bind_inv in E as ([] & s2 & E1 & E).
    assert (Hs2 : account s s2 ∧ ch s2 = ch s).
    { unfold when in E1. destruct (_ && _) in E1; injection E1 as <-; (split; [|done]); [|by apply account_refl].
      by apply (books_call (Send_ignore (4 + len)) s tt _ eq_refl Hs). }
    destruct Hs2 as [Ha2 Hc2]. eapply account_trans; [exact Ha2|].
    apply M_bind_inv in E as (b1 & s3 & E3 & E). apply bind_Ok in E3 as (b2 & Ec & [= -> <-]).
    cbn [written] in Hw. apply consume_inv in Ec as (Hwb & Hle & Hcb); [|apply Hs|lia].
    mstep_in E. unfold wfd_out in E. rewrite !andb_true_iff in Hg. destruct Hg as [_ Hol]. rewrite Hol in E. cbn [andb when] in E.
    mstep_in E. injection E as _ <-. rsimpl. rewrite Hc2.
    pose proof (buffer_len_contents _ (ok_out _ Hs)) as Hbl. pose proof (buffer_len_contents _ Hwb) as Hbl1.
    apply (account_drain _ _ len); rsimpl; rewrite ?Hc2; try done; try apply Hs; try lia.
    + rewrite Hbl, Hbl1, Hcb, length_drop. f_equal. lia.
    + unfold taken. rsimpl. rewrite Hcb, length_drop. case_match; lia.
Qed.

Lemma books_handle_efd b1 b2 w r : written w → moves books (channel_handle_efd b1 b2 w r).
Proof.
  intros Hw s a s' E Hs. unfold channel_handle_efd in E. mstep_in E. unfold id in E.
  destruct (c_efd (ch s) =? -1); [injection E as _ <-; by apply account_refl|].
  assert (Hclose : moves books (_ ← channel_close_fd (c_efd (ch s)) (λ c, c <| c_efd := -1 |>); mret 1)).
  { apply (moves_bind books); [|intros _; apply (moves_ret books)]. apply books_close_fd. by split. }
  destruct (_ && _) eqn:Hg in E.
  - rewrite !andb_true_iff, Z.eqb_eq in Hg. destruct Hg as [[Hu _] _]. destruct w as [| |len].
    + injection E as _ <-. by apply account_refl.
    + exact (Hclose _ _ _ E Hs).
    + apply M_bind_inv in E as (b & s3 & E3 & E). apply bind_Ok in E3 as (b' & Ec & [= -> <-]). cbn [written] in Hw.
      apply consume_inv in Ec as (Hwb & Hle & Hcb); [|apply Hs|lia]. mstep_in E. injection E as _ <-.
      apply (account_drain _ _ len); rsimpl; try done; try apply Hs; try lia.
      unfold taken. rsimpl. rewrite Hu, Hcb, length_drop. cbn. lia.
  - destruct (_ && _) eqn:Hr in E; [|injection E as _ <-; by apply account_refl].
    destruct r as [| | |data].
    + injection E as _ <-. by apply account_refl.
    + destruct (negb _) in E; [exact (Hclose _ _ _ E Hs)|injection E as _ <-; by apply account_refl].
    + exact (Hclose _ _ _ E Hs).
    + rewrite andb_true_iff in Hr. destruct Hr as [Hu _].
      destruct (c_extended_usage (ch s) =? CHAN_EXTENDED_IGNORE); [injection E as _ <-; by apply account_refl|].
      apply M_bind_inv in E as (b & s3 & E3 & E). apply bind_Ok in E3 as (b' & Ea & [= -> <-]).
      apply append_bound_inv in Ea as [Hwb _]; [|apply Hs]. mstep_in E. injection E as _ <-.
      assert (Hne : (c_extended_usage (ch s) =? CHAN_EXTENDED_WRITE) = false).
      { rewrite orb_true_iff, !Z.eqb_eq in Hu. apply Z.eqb_neq. unfold CHAN_EXTENDED_READ, CHAN_EXTENDED_IGNORE, CHAN_EXTENDED_WRITE in *. lia. }
      apply (account_quiet _ _ []); rsimpl; rewrite ?app_nil_r; try done; [|apply fair_nil].
      destruct Hs as [? ? ? ? ? ? ? ? Hsum ?]. split; try done. unfold taken in *. rsimpl. by rewrite Hne in *.
Qed.

Lemma books_check_window : moves books channel_check_window.
Proof.
  intros s a s' E Hs. unfold channel_check_window in E. mstep_in E. unfold id in E.
  destruct (_ && _) in E; [|injection E as _ <-; by apply account_refl]. mstep_in E. injection E as _ <-.
  assert (0 ≤ taken (ch s)) by (unfold taken; case_match; lia). pose proof Hs as [? ? ? ? ? ? ? ? Hsum ?].
  eapply account_send; rsimpl; [|done|reflexivity|done|done| |].
  - split; try done; rsimpl; unfold taken in *; rsimpl; rewrite ?u32_small by lia; lia.
  - cbn [data_of m_type_of Z.eqb Pos.eqb SSH2_MSG_CHANNEL_WINDOW_ADJUST SSH2_MSG_CHANNEL_DATA SSH2_MSG_CHANNEL_EXTENDED_DATA]. lia.
  - rewrite u32_small by lia. reflexivity.
Qed.

Definition io_ok (x : io) : Prop := written (wfd_written x) ∧ written (efd_written x).

Lemma books_post_open x : io_ok x → moves books (channel_post_open false true df x).
Proof.
  intros [Hw He]. unfold channel_post_open. pose proof (books_handle_rfd (rfd_set x) (rfd_read x)).
  pose proof (books_handle_wfd (wfd_set x) (wfd_noecho x) (wfd_written x) Hw).
  pose proof (books_handle_efd (efd_wset x) (efd_rset x) (efd_written x) (efd_read x) He). pose proof books_check_window.
  cbn [negb]. book.
Qed.
End Descriptors.

(** ** Two ends *)

Section Flow.
Context (maxsize : Z) (interactive : bool).

Inductive wevent :=
| Poll | Post (x : io) | Pre | Dead (do_send : bool) | Mark.

(** What an end does by itself. *)
Definition wstep (df : Z) (e : wevent) : M cstate unit :=
  match e with
  | Poll => output_poll_one false true maxsize interactive
  | Post x => channel_post_open false true df x
  | Pre => _ ← channel_pre_open true maxsize; skip
  | Dead do_send => _ ← chan_is_dead true df do_send; skip
  | Mark => chan_mark_dead
  end.
Definition wevent_ok (e : wevent) : Prop := match e with Post x => io_ok x | _ => True end.

(** What the handlers do with a message, after the channel has been found: the
    two sides have one channel each, so the lookup of the channel by its id in
    the message and the dispatch by type are restated here, and the operations
    on the channel are those of [Channels.v] and [Nchan.v]. *)
Definition deliver (df : Z) (m : msg) : M cstate unit :=
  c ← getC id;
  let t := m_type_of m in
  if t =? SSH2_MSG_CHANNEL_DATA then
    match m_items m with
    | [_; Items.String data] =>
        if negb (c_type c =? SSH_CHANNEL_OPEN) && negb (c_type c =? SSH_CHANNEL_X11_OPEN) then skip
        else _ ← input_data false true data; skip
    | _ => skip
    end
  else if t =? SSH2_MSG_CHANNEL_EXTENDED_DATA then
    match m_items m with
    | [_; Items.Int tcode; Items.String data] =>
        if negb (c_type c =? SSH_CHANNEL_OPEN) then skip
        else if flag CHAN_EOF_RCVD c && (Z.land df SSH_BUG_EXTEOF =? 0) then fatalC "Received extended_data after EOF"
        else if (c_efd c =? -1) || negb (c_extended_usage c =? CHAN_EXTENDED_WRITE) || negb (tcode =? SSH2_EXTENDED_DATA_STDERR) then skip
        else input_extended data
    | _ => skip
    end
  else if t =? SSH2_MSG_CHANNEL_WINDOW_ADJUST then
    match m_items m with [_; Items.Int adjust] => window_adjust adjust | _ => skip end
  else if t =? SSH2_MSG_CHANNEL_EOF then input_ieof true
  else if t =? SSH2_MSG_CHANNEL_CLOSE then chan_rcvd_oclose true
  else chan_rcvd_eow true.

Lemma books_pre_open : moves books (channel_pre_open true maxsize).
Proof.
  intros s a s' E Hs. unfold channel_pre_open in E. mstep_in E. unfold id in E.
  apply M_bind_inv in E as (r & s1 & E1 & E).
  assert (Ha : account s s1).
  { destruct (_ && _) in E1; [|injection E1 as _ <-; by apply account_refl].
    destruct (check_alloc_spec (c_input (ch s)) CHAN_RBUF (ok_in _ Hs)) as (b & Eb & Hwb & _); [unfold CHAN_RBUF, BUFFER_MAX_CHUNK; lia|].
    rewrite (M_bind_Ok _ _ _ _ _ (liftO_Ok _ _ s Eb)) in E1. cbv beta iota in E1. mstep_in E1. injection E1 as _ <-.
    by apply (books_input b Hwb s tt _ eq_refl Hs). }
  eapply account_trans; [exact Ha|]. pose proof (ac_ok _ _ Ha) as Hs1. clear Ha E1 Hs. revert E Hs1. generalize (ch s) as c. intros c.
  enough (Hm : moves books (w ← (if (c_ostate c =? CHAN_OUTPUT_OPEN) || (c_ostate c =? CHAN_OUTPUT_WAIT_DRAIN) then
         if 0 <? buffer_len (c_output c) then mret [c_wfd c]
         else
           _ ← when ((c_ostate c =? CHAN_OUTPUT_WAIT_DRAIN) && negb (efd_output_active true c)) (chan_obuf_empty true);
           mret []
       else mret []);
    c ← getC id;
    if true && negb (c_efd c =? -1) && negb ((c_istate c =? CHAN_INPUT_CLOSED) && (c_ostate c =? CHAN_OUTPUT_CLOSED)) then
      if (c_extended_usage c =? CHAN_EXTENDED_WRITE) && (0 <? buffer_len (c_extended c)) then mret (mkBits r (w ++ [c_efd c]))
      else if negb (flag CHAN_EOF_SENT c) &&
            ((c_extended_usage c =? CHAN_EXTENDED_READ) || (c_extended_usage c =? CHAN_EXTENDED_IGNORE)) &&
            (buffer_len (c_extended c) <? c_remote_window c) then mret (mkBits (r ++ [c_efd c]) w)
      else mret (mkBits r w)
    else mret (mkBits r w))) by (intros E Hs1; exact (Hm _ _ _ E Hs1)).
  book.
Qed.

Lemma books_wstep df e : wevent_ok e → moves books (wstep df e).
Proof.
  intros He. destruct e as [|x| |b|]; cbn [wstep wevent_ok] in *.
  - apply books_output_poll.
  - by apply books_post_open.
  - apply (moves_bind books); [apply books_pre_open|intros _; apply (moves_ret books)].
  - book.
  - book.
Qed.

Lemma books_input_ieof : moves books (input_ieof true).
Proof. unfold input_ieof. book. Qed.

(** The account of an end that receives [m]. *)
Record receipt (m : msg) (s s' : cstate) : Prop := {
  rc_ok : ok (ch s');
  rc_max : c_local_window_max (ch s') = c_local_window_max (ch s);
  rc_sent : ∃ new, sent s' = sent s ++ new ∧ Forall (λ m, 0 ≤ adjust_of m) new ∧
    c_remote_window (ch s') + total data_of new = c_remote_window (ch s) + adjust_of m ∧
    c_local_window (ch s) + total adjust_of new ≤ c_local_window (ch s') + data_of m;
  rc_err : ∃ errs, errors s' = errors s ++ errs ∧ fair errs
}.

Lemma account_receipt m s s' : adjust_of m = 0 → 0 ≤ data_of m → account s s' → receipt m s s'.
Proof.
  intros Ha Hd [Ho Hm (new & Hs & Hn & Hr & Hl) He]. split; [done..| |done].
  exists new. split_and!; [done|done|lia|lia].
Qed.

Lemma data_of_nonneg m : 0 ≤ data_of m.
Proof. unfold data_of. repeat case_match; lia. Qed.

Lemma receipt_data m data s s' :
  ok (ch s) → m_type_of m = SSH2_MSG_CHANNEL_DATA → data_of m = Z.of_nat (length data) → data_of m ≤ c_local_window (ch s) →
  (_ ← input_data false true data; skip) s = Ok (tt, s') → receipt m s s'.
Proof.
  intros Hs Ht Hd Hle E. assert (Ha : adjust_of m = 0) by (unfold adjust_of; by rewrite Ht).
  assert (Ht0 : 0 ≤ taken (ch s)) by (unfold taken; case_match; lia). pose proof Hs as [? ? ? ? ? ? ? ? Hsum Hdg].
  unfold input_data in E. apply M_bind_inv in E as (bb & s1 & E & [= <-]). mstep_in E. unfold id in E. rewrite Hdg in E.
  cbn [Z.eqb negb andb] in E. rewrite <- Hd in E.
  assert (Hfin : ok (ch s1) → sent s1 = sent s → errors s1 = errors s → c_local_window_max (ch s1) = c_local_window_max (ch s) →
    c_remote_window (ch s1) = c_remote_window (ch s) → c_local_window (ch s1) = c_local_window (ch s) - data_of m → receipt m s s1).
  { intros H1 H2 H3 H4 H5 H6. split; [done..| |].
    - exists []. rewrite app_nil_r. cbn. split_and!; (done || lia || constructor).
    - exists []. rewrite app_nil_r. split; [done|apply fair_nil]. }
  pose proof (data_of_nonneg m) as Hn.
  destruct (negb (c_ostate (ch s) =? CHAN_OUTPUT_OPEN)).
  - cbn [when] in E. mstep_in E. injection E as _ <-.
    apply Hfin; rsimpl; try done; [|by rewrite u32_small by lia].
    split; try done; unfold taken in *; rsimpl; rewrite ?u32_small by lia; lia.
  - rewrite (proj2 (Z.ltb_ge _ _)) in E by lia. cbn [when] in E. mstep_in E.
    apply M_bind_inv in E as (b & s2 & E1 & E2). apply bind_Ok in E1 as (b' & Eb & [= -> <-]).
    apply append_bound_inv in Eb as [Hwb Hcb]; [|done]. mstep_in E2. injection E2 as _ <-.
    apply Hfin; rsimpl; try done; [|by rewrite u32_small by lia].
    split; try done; unfold taken in *; rsimpl; rewrite ?u32_small by lia; rewrite ?Hcb, ?length_app; lia.
Qed.

Lemma receipt_extended m data s s' :
  ok (ch s) → m_type_of m = SSH2_MSG_CHANNEL_EXTENDED_DATA → data_of m = Z.of_nat (length data) → data_of m ≤ c_local_window (ch s) →
  c_extended_usage (ch s) = CHAN_EXTENDED_WRITE → input_extended data s = Ok (tt, s') → receipt m s s'.
Proof.
  intros Hs Ht Hd Hle Hu E. assert (Ha : adjust_of m = 0) by (unfold adjust_of; by rewrite Ht).
  assert (Ht0 : 0 ≤ taken (ch s)) by (unfold taken; case_match; lia). pose proof Hs as [? ? ? ? ? ? ? ? Hsum Hdg].
  unfold input_extended in E. mstep_in E. unfold id in E. rewrite <- Hd in E. pose proof (data_of_nonneg m) as Hn.
  rewrite (proj2 (Z.ltb_ge _ _)) in E by lia. mstep_in E.
  apply M_bind_inv in E as (b & s2 & E1 & E2). apply bind_Ok in E1 as (b' & Eb & [= -> <-]).
  apply append_bound_inv in Eb as [Hwb Hcb]; [|done]. injection E2 as <-.
  split; rsimpl; [|done| |].
  - unfold taken in Hsum. rewrite Hu in Hsum. cbn [Z.eqb Pos.eqb CHAN_EXTENDED_WRITE] in Hsum.
    split; try done; unfold taken; rsimpl; rewrite ?u32_small by lia; rewrite ?Hu; cbn [Z.eqb Pos.eqb CHAN_EXTENDED_WRITE];
      rewrite ?Hcb, ?length_app; lia.
  - exists []. rewrite app_nil_r. cbn. rewrite u32_small by lia. split_and!; (done || lia || constructor).
  - exists []. rewrite app_nil_r. split; [done|apply fair_nil].
Qed.

Lemma receipt_of df m s s' :
  ok (ch s) → data_of m ≤ c_local_window (ch s) → 0 ≤ adjust_of m → c_remote_window (ch s) + adjust_of m < 2 ^ 32 →
  deliver df m s = Ok (tt, s') → receipt m s s'.
Proof.
  intros Hs Hd Ha0 Ha E. pose proof (data_of_nonneg m) as Hdn. pose proof (ok_rw _ Hs) as [? ?].
  assert (Hnone : adjust_of m = 0 → receipt m s s) by (intros Ha'; apply account_receipt; [done..|by apply account_refl]).
  assert (Hbooks : ∀ p : M cstate unit, adjust_of m = 0 → moves books p → p s = Ok (tt, s') → receipt m s s').
  { intros p Ha' Hp Ep. apply account_receipt; [done..|]. exact (Hp _ _ _ Ep Hs). }
  unfold deliver in E. mstep_in E. unfold id in E.
  destruct (Z.eqb_spec (m_type_of m) SSH2_MSG_CHANNEL_DATA) as [Ht|_].
  { assert (Ha' : adjust_of m = 0) by (unfold adjust_of; by rewrite Ht).
    assert (Hdef : data_of m = match m_items m with [_; Items.String x] => Z.of_nat (length x) | _ => 0 end)
      by (unfold data_of; by rewrite Ht).
    repeat case_match; try (injection E as <-; by apply Hnone). eapply receipt_data; eauto. }
  destruct (Z.eqb_spec (m_type_of m) SSH2_MSG_CHANNEL_EXTENDED_DATA) as [Ht|_].
  { assert (Ha' : adjust_of m = 0) by (unfold adjust_of; by rewrite Ht).
    assert (Hdef : data_of m = match m_items m with [_; _; Items.String x] => Z.of_nat (length x) | _ => 0 end)
      by (unfold data_of; by rewrite Ht).
    destruct (m_items m) as [|? [|[] [|[] [|? ?]]]]; try (injection E as <-; by apply Hnone).
    destruct (negb _) in E; [injection E as <-; by apply Hnone|]. destruct (_ && _) in E; [discriminate E|].
    destruct (_ || _) eqn:Hg in E; [injection E as <-; by apply Hnone|].
    rewrite !orb_false_iff, !negb_false_iff, Z.eqb_eq in Hg. eapply receipt_extended; eauto. apply Hg. }
  destruct (Z.eqb_spec (m_type_of m) SSH2_MSG_CHANNEL_WINDOW_ADJUST) as [Ht|Hna].
  { assert (Hdef : adjust_of m = match m_items m with [_; Items.Int v] => v | _ => 0 end) by (unfold adjust_of; by rewrite Ht).
    destruct (m_items m) as [|? [|[] [|? ?]]]; try (injection E as <-; by apply Hnone).
    injection E as <-. split; rsimpl; [|done| |].
    - destruct Hs as [? ? ? ? ? ? ? ? ? ?]. split; try done. rsimpl. rewrite u32_small by lia. split; lia.
    - exists []. rewrite app_nil_r. cbn. rewrite u32_small by lia. split_and!; (done || lia || constructor).
    - exists []. rewrite app_nil_r. split; [done|apply fair_nil]. }
  assert (Ha' : adjust_of m = 0) by (unfold adjust_of; by rewrite (proj2 (Z.eqb_neq _ _) Hna)).
  pose proof books_input_ieof. repeat case_match; (eapply Hbooks; [done| |exact E]); book.
Qed.

(** Each end's messages arrive at the other in order; [rcvd] counts them. *)
Record link := mkLink { l_a : cstate; l_b : cstate; l_ra : nat; l_rb : nat }.
Context (dfa dfb : Z).

Inductive lmoves : link → link → Prop :=
| lm_local_a e p s : wevent_ok e → wstep dfa e (l_a p) = Ok (tt, s) → lmoves p (mkLink s (l_b p) (l_ra p) (l_rb p))
| lm_local_b e p s : wevent_ok e → wstep dfb e (l_b p) = Ok (tt, s) → lmoves p (mkLink (l_a p) s (l_ra p) (l_rb p))
| lm_recv_a p m s : sent (l_b p) !! l_ra p = Some m → deliver dfa m (l_a p) = Ok (tt, s) →
    lmoves p (mkLink s (l_b p) (S (l_ra p)) (l_rb p))
| lm_recv_b p m s : sent (l_a p) !! l_rb p = Some m → deliver dfb m (l_b p) = Ok (tt, s) →
    lmoves p (mkLink (l_a p) s (l_ra p) (S (l_rb p))).

(** The credit of [s] and everything in flight is covered by the window of [r],
    when [n] messages of [s] and [k] messages of [r] have arrived. *)
Definition covered (s r : cstate) (n k : nat) : Prop :=
  c_remote_window (ch s) + total data_of (drop n (sent s)) + total adjust_of (drop k (sent r)) ≤ c_local_window (ch r).

Record end_ok (s : cstate) (n : nat) : Prop := {
  eo_ok : ok (ch s);
  eo_adj : Forall (λ m, 0 ≤ adjust_of m) (sent s);
  eo_n : (n ≤ length (sent s))%nat;
  eo_err : fair (errors s)
}.

Record linked (p : link) : Prop := {
  ld_a : end_ok (l_a p) (l_rb p);
  ld_b : end_ok (l_b p) (l_ra p);
  ld_ab : covered (l_a p) (l_b p) (l_rb p) (l_ra p);
  ld_ba : covered (l_b p) (l_a p) (l_ra p) (l_rb p)
}.

Lemma total_nonneg f l : Forall (λ m, 0 ≤ f m) l → 0 ≤ total f l.
Proof. induction 1 as [|m l Hm Hl IH]; unfold total in *; cbn; lia. Qed.
Lemma total_data_nonneg l : 0 ≤ total data_of l.
Proof. apply total_nonneg, Forall_forall. intros m _. apply data_of_nonneg. Qed.
Lemma total_drop_cons f l n m : l !! n = Some m → total f (drop n l) = f m + total f (drop (S n) l).
Proof. intros Hm. by rewrite (drop_S _ _ _ Hm). Qed.

(** An end moves by itself. *)
Lemma local_covered df e s s' r n k :
  wevent_ok e → wstep df e s = Ok (tt, s') → end_ok s n → covered s r n k → covered r s k n →
  end_ok s' n ∧ covered s' r n k ∧ covered r s' k n.
Proof.
  intros He E [Hs Ha Hn Hf] Hc Hc'. destruct (books_wstep df e He s tt s' E Hs) as [Ho Hm (new & Es & Hna & Hr & Hl) (errs & Ee & Hfe)].
  assert (Hd : ∀ f, total f (drop n (sent s')) = total f (drop n (sent s)) + total f new).
  { intros f. rewrite Es, drop_app_le by done. apply total_app. }
  unfold covered in *. rewrite !Hd. split_and!; [|lia|lia].
  split; [done|rewrite Es; by apply Forall_app_2|rewrite Es, length_app; lia|rewrite Ee; by apply fair_app].
Qed.

(** An end receives the next message of the other. *)
Lemma receive_covered df m s s' r n k :
  sent r !! k = Some m → deliver df m s = Ok (tt, s') → end_ok s n → end_ok r k → covered s r n k → covered r s k n →
  end_ok s' n ∧ end_ok r (S k) ∧ covered s' r n (S k) ∧ covered r s' (S k) n.
Proof.
  intros Em E [Hs Ha Hn Hf] [Hsr Har Hk Hfr] Hc Hc'. unfold covered in Hc, Hc'.
  rewrite (total_drop_cons adjust_of _ _ _ Em) in Hc. rewrite (total_drop_cons data_of _ _ _ Em) in Hc'.
  pose proof (total_data_nonneg (drop n (sent s))). pose proof (total_data_nonneg (drop (S k) (sent r))).
  pose proof (total_nonneg adjust_of _ (Forall_drop _ n _ Ha)). pose proof (total_nonneg adjust_of _ (Forall_drop _ (S k) _ Har)).
  assert (Ham : 0 ≤ adjust_of m) by (rewrite Forall_forall in Har; by apply Har, (list_elem_of_lookup_2 _ k)).
  pose proof (ok_rw _ Hsr) as [? ?]. pose proof (ok_rw _ Hs) as [? ?].
  assert (Hmax : c_local_window (ch r) < 2 ^ 32).
  { destruct Hsr as [? ? ? ? ? ? ? ? Hsum ?]. unfold taken in Hsum. case_match; lia. }
  destruct (receipt_of df m s s' Hs ltac:(lia) Ham ltac:(lia) E) as [Ho Hm (new & Es & Hna & Hr & Hl) (errs & Ee & Hfe)].
  assert (Hd : ∀ f, total f (drop n (sent s')) = total f (drop n (sent s)) + total f new).
  { intros f. rewrite Es, drop_app_le by done. apply total_app. }
  unfold covered. rewrite !Hd. split_and!; [| |lia|lia].
  - split; [done|rewrite Es; by apply Forall_app_2|rewrite Es, length_app; lia|rewrite Ee; by apply fair_app].
  - split; [done..| |done]. apply lookup_lt_Some in Em. lia.
Qed.

Lemma linked_step p q : lmoves p q → linked p → linked q.
Proof.
  intros [e x s He E|e x s He E|x m s Em E|x m s Em E] [Ha Hb Hab Hba].
  - destruct (local_covered _ _ _ _ _ _ _ He E Ha Hab Hba) as (? & ? & ?). by split.
  - destruct (local_covered _ _ _ _ _ _ _ He E Hb Hba Hab) as (? & ? & ?). by split.
  - destruct (receive_covered _ _ _ _ _ _ _ Em E Ha Hb Hab Hba) as (? & ? & ? & ?). by split.
  - destruct (receive_covered _ _ _ _ _ _ _ Em E Hb Ha Hba Hab) as (? & ? & ? & ?). by split.
Qed.

(** Two ends whose windows were agreed when the channel was opened. *)
Definition opened (p : link) : Prop :=
  ok (ch (l_a p)) ∧ ok (ch (l_b p)) ∧ sent (l_a p) = [] ∧ sent (l_b p) = [] ∧ errors (l_a p) = [] ∧ errors (l_b p) = [] ∧
  l_ra p = 0%nat ∧ l_rb p = 0%nat ∧
  c_remote_window (ch (l_a p)) ≤ c_local_window (ch (l_b p)) ∧ c_remote_window (ch (l_b p)) ≤ c_local_window (ch (l_a p)).

Lemma opened_linked p : opened p → linked p.
Proof.
  intros (Ha & Hb & Sa & Sb & Ea & Eb & Ra & Rb & Wa & Wb).
  split; rewrite ?Ra, ?Rb; unfold covered; rewrite ?Sa, ?Sb; cbn; try lia.
  - split; rewrite ?Sa, ?Ea; [done|constructor|lia|apply fair_nil].
  - split; rewrite ?Sb, ?Eb; [done|constructor|lia|apply fair_nil].
Qed.

(** C9: Flow control of protocol 2: two ends of a stream channel, each reading
    and writing its descriptors, sending data, extended data and window
    adjustments and closing the channel in any order, with messages that
    arrive in order and at any time.  At all times what an end may still send,
    together with the data and the adjustments in flight, is covered by the
    window that the other end has granted; so no end ever receives "too much
    data", no 32-bit counter wraps, and the data an end has taken in and not
    yet passed on fits into its initial window. *)
Theorem window_respected p0 p :
  opened p0 → rtc lmoves p0 p →
  fair (errors (l_a p)) ∧ fair (errors (l_b p)) ∧
  covered (l_a p) (l_b p) (l_rb p) (l_ra p) ∧ covered (l_b p) (l_a p) (l_ra p) (l_rb p) ∧
  taken (ch (l_a p)) ≤ c_local_window_max (ch (l_a p)) ∧ taken (ch (l_b p)) ≤ c_local_window_max (ch (l_b p)).
Proof.
  intros H0%opened_linked Hr. assert (linked p) as [[Ha _ _ Fa] [Hb _ _ Fb] Hab Hba].
  { revert H0. induction Hr as [|x y z Hxy _ IH]; [done|]. intros Hx. by apply IH, (linked_step x y). }
  destruct Ha as [? ? ? ? ? ? ? ? ? ?], Hb as [? ? ? ? ? ? ? ? ? ?]. split_and!; [done|done|done|done|lia|lia].
Qed.
End Flow.

(** ** Datagrams

    For a channel that keeps the boundaries of datagrams the test of
    [channel_output_poll] leaves out the four bytes that it then subtracts. *)

Module FlowDemo.
Definition empty : Buffer := mkBuffer (replicate 64 0) 64 0 0.
Definition filled (l : list Z) : Buffer := mkBuffer (l ++ replicate 64 0) (Z.of_nat (length l) + 64) 0 (Z.of_nat (length l)).
Definition channel (id datagram window : Z) (input : Buffer) : Channel :=
  mkChannel SSH_CHANNEL_OPEN id 5 0 0 0 7 7 (-1) 7 0 0 0 input empty empty window 100 100 100 0 100 0 SESSION datagram false 0.

Example datagram_window_wraps :
  ∃ s', output_poll_one false true 32768 false (mkCstate (channel 0 1 5 (filled [0; 0; 0; 5; 1; 2; 3; 4; 5])) [] [] []) = Ok (tt, s') ∧
    c_remote_window (ch s') = 2 ^ 32 - 4.
Proof. eexists. split; [vm_compute; reflexivity|reflexivity]. Qed.

Definition sender : cstate := mkCstate (channel 0 0 100 (filled [1; 2; 3])) [] [] [].
Definition receiver : cstate := mkCstate (channel 1 0 100 empty) [] [] [].
Definition after (m : M cstate unit) (s : cstate) : cstate := match m s with Ok (_, s') => s' | _ => s end.

(** The sender polls once, and the data arrives. *)
Definition sender1 : cstate := after (output_poll_one false true 32768 false) sender.
Definition data3 : msg := mkMsg SSH2_MSG_CHANNEL_DATA [Items.Int 5; Items.String [1; 2; 3]].
Definition receiver1 : cstate := after (deliver 0 data3) receiver.

Lemma demo_reached : rtc (lmoves 32768 false 0 0) (mkLink sender receiver 0 0) (mkLink sender1 receiver1 0 1).
Proof.
  apply (rtc_l _ _ (mkLink sender1 receiver 0 0)).
  - apply (lm_local_a 32768 false 0 0 Poll (mkLink sender receiver 0 0)); [exact Logic.I|vm_compute; reflexivity].
  - apply rtc_once. apply (lm_recv_b 32768 false 0 0 (mkLink sender1 receiver 0 0) data3); vm_compute; reflexivity.
Qed.

Lemma window_respected_witness :
  covered sender1 receiver1 1 0 ∧ c_remote_window (ch sender1) = 97 ∧ c_local_window (ch receiver1) = 97.
Proof.
  split; [|split; vm_compute; reflexivity].
  apply (window_respected 32768 false 0 0 (mkLink sender receiver 0 0) (mkLink sender1 receiver1 0 1)); [|apply demo_reached].
  unfold opened. cbn [l_a l_b l_ra l_rb]. split_and!; try reflexivity; try (vm_compute; discriminate).
  - split; try (vm_compute; split; discriminate); try (vm_compute; discriminate); try reflexivity; split; vm_compute; (reflexivity || discriminate || split; discriminate).
  - split; try (vm_compute; split; discriminate); try (vm_compute; discriminate); try reflexivity; split; vm_compute; (reflexivity || discriminate || split; discriminate).
Defined.
End FlowDemo.
