(* ===== verification/Match.v ===== *)
(** * Pattern matching ([match.c])

    C strings are lists of character codes without the terminating NUL.
    [glob] is what the comments of [match.c] promise; the theorems compare the
    functions with it. *)

From S2P Require Import Prelude.

Definition C_star : Z := 42.
Definition C_quest : Z := 63.
Definition C_comma : Z := 44.
Definition C_bang : Z := 33.
Definition C_at : Z := 64.

(** ** [match_pattern] *)

(** [for (; *s; s++) if (test(s)) return 1; return 0;] *)
Fixpoint scan (test : list Z → bool) (s : list Z) : bool :=
  match s with
  | [] => false
  | _ :: s' => if test s then true else scan test s'
  end.

Fixpoint match_pattern (s pattern : list Z) {struct pattern} : bool :=
  match pattern with
  | [] => match s with [] => true | _ => false end
  | c :: pattern =>
      if c =? C_star then
        match pattern with
        | [] => true
        | p :: pattern' =>
            if negb (p =? C_quest) && negb (p =? C_star) then
              scan (λ s, match s with [] => false | x :: s' => (x =? p) && match_pattern s' pattern' end) s
            else scan (λ s, match_pattern s pattern) s
        end
      else
        match s with
        | [] => false
        | x :: s' => if negb (c =? C_quest) && negb (c =? x) then false else match_pattern s' pattern
        end
  end.

(** The strings that a pattern stands for: [*] is any string, [?] any
    character, everything else itself. *)
Inductive glob : list Z → list Z → Prop :=
| glob_nil : glob [] []
| glob_star p s1 s2 : glob p s2 → glob (C_star :: p) (s1 ++ s2)
| glob_quest p x s : glob p s → glob (C_quest :: p) (x :: s)
| glob_char p c s : c ≠ C_star → c ≠ C_quest → glob p s → glob (c :: p) (c :: s).

Lemma scan_true test s : scan test s = true ↔ ∃ s1 s2, s = s1 ++ s2 ∧ s2 ≠ [] ∧ test s2 = true.
Proof.
  split.
  - induction s as [|x s IH]; [done|]. cbn [scan]. destruct (test (x :: s)) eqn:E.
    + intros _. by exists [], (x :: s).
    + intros Hs. apply IH in Hs as (s1 & s2 & -> & ? & ?). by exists (x :: s1), s2.
  - intros (s1 & s2 & -> & Hne & Ht). induction s1 as [|x s1 IH]; cbn [app scan].
    + destruct s2 as [|x s2]; [done|]. cbn [scan]. by rewrite Ht.
    + destruct (test (x :: s1 ++ s2)); [done|exact IH].
Qed.

(** How the code reads a pattern: a run of two or more asterisks at its end
    wants at least one character. *)
Fixpoint as_read (p : list Z) : list Z :=
  match p with
  | c :: (d :: p') as q => if (c =? C_star) && (d =? C_star) && forallb (Z.eqb C_star) p' then [C_quest; C_star] else c :: as_read q
  | _ => p
  end.

Lemma as_read_cons c p : c ≠ C_star → as_read (c :: p) = c :: as_read p.
Proof. intros Hc. destruct p as [|d p]; [done|]. cbn [as_read]. by rewrite (proj2 (Z.eqb_neq c _) Hc). Qed.
Lemma as_read_star c p : c ≠ C_star → as_read (C_star :: c :: p) = C_star :: as_read (c :: p).
Proof. intros Hc. cbn [as_read]. by rewrite (proj2 (Z.eqb_neq c _) Hc), andb_false_r. Qed.

Definition stars (p : list Z) : bool := forallb (Z.eqb C_star) p.

(** Only stars: one or more of them after the first want a character. *)
Lemma as_read_stars p : stars p = true → p ≠ [] → as_read (C_star :: p) = [C_quest; C_star].
Proof.
  destruct p as [|d p]; [done|]. unfold stars. cbn [as_read forallb]. intros [Hd Hp]%andb_true_iff _.
  apply Z.eqb_eq in Hd as <-. by rewrite Hp, Z.eqb_refl.
Qed.

Lemma glob_star_all s : glob [C_star] s.
Proof. rewrite <- (app_nil_r s). apply glob_star, glob_nil. Qed.
Lemma glob_star_inv p s : glob (C_star :: p) s → ∃ s1 s2, s = s1 ++ s2 ∧ glob p s2.
Proof. inversion 1; subst; [eauto|done..]. Qed.

(** A pattern with a character other than the asterisk needs one. *)
Lemma glob_nonempty p s : stars p = false → glob (as_read p) s → s ≠ [].
Proof.
  revert s. induction p as [|c p IH]; intros s Hs Hg; [done|].
  destruct (Z.eqb_spec c C_star) as [->|Hc].
  2: { rewrite as_read_cons in Hg by done. by inversion Hg; subst. }
  destruct p as [|d p]; [done|]. change (stars (d :: p) = false) in Hs.
  assert (as_read (C_star :: d :: p) = C_star :: as_read (d :: p)) as E.
  { cbn [as_read]. rewrite Z.eqb_refl. destruct (Z.eqb_spec d C_star) as [->|]; [|done].
    unfold stars in Hs. cbn [forallb] in Hs. rewrite Z.eqb_refl in Hs. cbn [andb] in *. by rewrite Hs. }
  rewrite E in Hg. apply glob_star_inv in Hg as (s1 & s2 & -> & Hg). specialize (IH s2 Hs Hg). by destruct s1.
Qed.

(** [match_pattern] terminates on every input and accepts exactly the
    strings that the pattern, read by [as_read], stands for: [*] any string
    and [?] any character, except that two or more asterisks at the end of the
    pattern want at least one character. *)
Theorem match_pattern_glob s p : match_pattern s p = true ↔ glob (as_read p) s.
Proof.
  remember (length p) as n eqn:En. assert (Hn : (length p ≤ n)%nat) by lia. clear En.
  revert s p Hn. induction n as [|n IH]; intros s p Hn.
  { destruct p; [|simpl in Hn; lia]. cbn [match_pattern as_read]. destruct s; split; try done; [constructor|inversion 1]. }
  destruct p as [|c p]; [cbn [match_pattern as_read]; destruct s; split; try done; [constructor|inversion 1]|].
  simpl in Hn. cbn [match_pattern]. destruct (Z.eqb_spec c C_star) as [->|Hc].
  - destruct p as [|d p].
    { split; [intros _; apply glob_star_all|done]. }
    destruct (Z.eqb_spec d C_star) as [->|Hd]; [|destruct (Z.eqb_spec d C_quest) as [->|Hq]]; cbn [negb andb].
    + rewrite andb_false_r. rewrite scan_true. setoid_rewrite IH; [|simpl in *; lia].
      destruct (stars p) eqn:Hs.
      * rewrite (as_read_stars (C_star :: p)) by done. split.
        -- intros (s1 & s2 & -> & Hne & _). destruct s1 as [|x s1].
           ++ destruct s2; [done|]. apply glob_quest, glob_star_all.
           ++ apply glob_quest, glob_star_all.
        -- intros Hg. inversion Hg as [| |? x s' ?|]; subst; [|done]. exists [], (x :: s'). split_and!; [done..|].
           destruct p as [|e p]; [apply glob_star_all|]. rewrite (as_read_stars (e :: p)) by done. apply glob_quest, glob_star_all.
      * assert (as_read (C_star :: C_star :: p) = C_star :: as_read (C_star :: p)) as ->.
        { unfold stars in Hs. cbn [as_read]. rewrite Z.eqb_refl, Hs. done. }
        split.
        -- intros (s1 & s2 & -> & Hne & Hg). by apply glob_star.
        -- intros (s1 & s2 & -> & Hg)%glob_star_inv. exists s1, s2. split_and!; [done| |done].
           eapply glob_nonempty, Hg. unfold stars in *. cbn [forallb]. by rewrite Z.eqb_refl.
    + rewrite scan_true, as_read_star by done. setoid_rewrite IH; [|simpl in *; lia]. split.
      * intros (s1 & s2 & -> & Hne & Hg). by apply glob_star.
      * intros (s1 & s2 & -> & Hg)%glob_star_inv. exists s1, s2. split_and!; [done| |done].
        rewrite as_read_cons in Hg by done. by inversion Hg.
    + rewrite scan_true, as_read_star, as_read_cons by done. split.
      * intros (s1 & [|x s2] & -> & Hne & Hg); [done|]. apply andb_true_iff in Hg as [<-%Z.eqb_eq Hg].
        apply IH in Hg; [|simpl in *; lia]. apply glob_star. by constructor.
      * intros (s1 & s2 & -> & Hg)%glob_star_inv. inversion Hg as [| | |? ? s' ? ? Hg']; subst; [done|done|].
        exists s1, (d :: s'). split_and!; [done..|]. rewrite Z.eqb_refl. apply IH; [simpl in *; lia|done].
  - rewrite as_read_cons by done. destruct s as [|x s]; [split; [done|inversion 1; subst; done]|].
    destruct (Z.eqb_spec c C_quest) as [->|Hq]; cbn [negb andb].
    + rewrite IH by lia. split; [by constructor|]. by inversion 1; subst.
    + destruct (Z.eqb_spec c x) as [->|Hx]; cbn [negb].
      * rewrite IH by lia. split; [by constructor|]. by inversion 1; subst.
      * split; [done|]. inversion 1; subst; done.
Qed.

(** Two asterisks do not match the empty string; the pattern language does. *)
Example two_stars : match_pattern [] [C_star; C_star] = false ∧ glob [C_star; C_star] [].
Proof. split; [done|]. apply (glob_star _ []), (glob_star _ []), glob_nil. Qed.

(** ** [match_pattern_list] *)

Definition isupper (c : Z) : bool := (65 <=? c) && (c <=? 90).
Definition tolower (c : Z) : Z := if isupper c then c + 32 else c.

(** [sizeof(sub) - 1] *)
Definition SUB_MAX : nat := 1023.

(** The copy of a subpattern: at most [n] characters up to a comma, and what is
    left of the pattern. *)
Fixpoint extract (dolower : bool) (n : nat) (p : list Z) : list Z * list Z :=
  match n, p with
  | S n, c :: p' =>
      if c =? C_comma then ([], p)
      else
        let '(sub, rest) := extract dolower n p' in
        ((if dolower && isupper c then tolower c else c) :: sub, rest)
  | _, _ => ([], p)
  end.

(** The loop over the subpatterns; [p] is the rest of the pattern. *)
Fixpoint mpl_loop (fuel : nat) (string : list Z) (dolower got_positive : bool) (p : list Z) : outcome Z :=
  match p with
  | [] => Ok (b2z got_positive)
  | c :: p' =>
      match fuel with
      | O => NoFuel
      | S fuel =>
          let '(negated, p) := if c =? C_bang then (true, p') else (false, p) in
          let '(sub, p) := extract dolower SUB_MAX p in
          if (SUB_MAX <=? length sub)%nat then Ok 0
          else
            let p := match p with d :: p' => if d =? C_comma then p' else p | [] => [] end in
            if match_pattern string sub then
              if negated then Ok (-1) else mpl_loop fuel string dolower true p
            else mpl_loop fuel string dolower got_positive p
      end
  end.

(** [pattern] has at least [len] characters. *)
Definition match_pattern_list (string pattern : list Z) (len : Z) (dolower : bool) : outcome Z :=
  let p := take (Z.to_nat len) pattern in mpl_loop (length p) string dolower false p.

Definition match_hostname (host pattern : list Z) (len : Z) : outcome Z :=
  match_pattern_list host pattern len true.

(** The reference: the pieces between the commas, each with its sign. *)
Fixpoint before (p : list Z) : list Z :=
  match p with c :: p => if c =? C_comma then [] else c :: before p | [] => [] end.
Fixpoint after (p : list Z) : list Z :=
  match p with c :: p => if c =? C_comma then p else after p | [] => [] end.
Fixpoint pieces_n (n : nat) (p : list Z) : list (list Z) :=
  match n, p with S n, _ :: _ => before p :: pieces_n n (after p) | _, _ => [] end.
Definition pieces (p : list Z) : list (list Z) := pieces_n (length p) p.

Definition body (dolower : bool) (q : list Z) : bool * list Z :=
  let '(neg, q) := match q with c :: q' => if c =? C_bang then (true, q') else (false, q) | [] => (false, []) end in
  (neg, if dolower then map tolower q else q).
(** Some piece of the given sign matches. *)
Definition some_piece (sign : bool) (string : list Z) (dolower : bool) (qs : list (list Z)) : bool :=
  existsb (λ q, Bool.eqb (body dolower q).1 sign && match_pattern string (body dolower q).2) qs.

Lemma extract_spec dolower n p :
  if (length (before p) <? n)%nat
  then extract dolower n p = (if dolower then map tolower (before p) else before p, drop (length (before p)) p)
  else length (extract dolower n p).1 = n.
Proof.
  revert p. induction n as [|n IH]; intros p; [by destruct p|]. destruct p as [|c p]; [by destruct dolower|].
  cbn [extract before]. destruct (c =? C_comma); [by destruct dolower|].
  specialize (IH p). change (length (c :: before p)) with (S (length (before p))).
  destruct (Nat.ltb_spec (length (before p)) n), (Nat.ltb_spec (S (length (before p))) (S n)); try lia.
  - rewrite IH. destruct dolower; cbn [andb map drop]; [|done]. unfold tolower at 1.
    unfold tolower at 2. by destruct (isupper c).
  - destruct (extract dolower n p) as [sub rest]. simpl in *. by rewrite IH.
Qed.

Lemma drop_before p : match drop (length (before p)) p with d :: q => if d =? C_comma then q else d :: q | [] => [] end = after p.
Proof.
  induction p as [|c p IH]; [done|]. cbn [before after]. destruct (c =? C_comma) eqn:E; simpl; [by rewrite E|done].
Qed.
Lemma after_length c p : (length (after (c :: p)) ≤ length p)%nat.
Proof.
  revert c. induction p as [|d p IH]; intros c; cbn [after]; destruct (c =? C_comma); simpl; try lia.
  specialize (IH d). cbn [after] in IH. lia.
Qed.

Lemma mpl_round fuel string dl got c p :
  mpl_loop (S fuel) string dl got (c :: p) =
  let '(neg, b) := body dl (before (c :: p)) in
  if (SUB_MAX <=? length b)%nat then Ok 0
  else if match_pattern string b then
    if neg then Ok (-1) else mpl_loop fuel string dl true (after (c :: p))
  else mpl_loop fuel string dl got (after (c :: p)).
Proof.
  assert (Hx : ∀ neg q, before (c :: p) = (if neg : bool then c :: before q else before q) → after (c :: p) = after q →
    body dl (before (c :: p)) = (neg, if dl then map tolower (before q) else before q) →
    (let '(sub, q') := extract dl SUB_MAX q in
     if (SUB_MAX <=? length sub)%nat then Ok 0
     else
       let q' := match q' with d :: p' => if d =? C_comma then p' else q' | [] => [] end in
       if match_pattern string sub then
         if neg then Ok (-1) else mpl_loop fuel string dl true q'
       else mpl_loop fuel string dl got q') =
    let '(neg, b) := body dl (before (c :: p)) in
    if (SUB_MAX <=? length b)%nat then Ok 0
    else if match_pattern string b then
      if neg then Ok (-1) else mpl_loop fuel string dl true (after (c :: p))
    else mpl_loop fuel string dl got (after (c :: p))).
  { intros neg q Hb Ha ->. rewrite Ha. pose proof (extract_spec dl SUB_MAX q) as He.
    assert (Hl : length (if dl then map tolower (before q) else before q) = length (before q))
      by (destruct dl; [apply length_map|done]).
    rewrite Hl. destruct (Nat.ltb_spec (length (before q)) SUB_MAX).
    - rewrite He. cbn beta iota zeta. rewrite Hl. rewrite (proj2 (Nat.leb_gt _ _)) by done.
      pose proof (drop_before q) as Hd. destruct (drop _ q) as [|d r]; [by rewrite <- Hd|]. by rewrite <- Hd.
    - destruct (extract dl SUB_MAX q) as [sub r]. simpl in He. rewrite He, Nat.leb_refl.
      by rewrite (proj2 (Nat.leb_le _ _)) by done. }
  cbn [mpl_loop]. destruct (Z.eqb_spec c C_bang) as [->|Hb].
  - apply (Hx true p); done.
  - apply (Hx false (c :: p)); [done..|]. unfold body. destruct (before (c :: p)) as [|d q] eqn:E; [by destruct dl|].
    cbn [before] in E. destruct (c =? C_comma); [done|]. injection E as <- <-.
    rewrite (proj2 (Z.eqb_neq _ _) Hb). done.
Qed.

(** [match_pattern_list] does what its comment says, for subpatterns that
    fit into its buffer: -1 if a negated subpattern matches, wherever it
    stands; otherwise 1 if a positive one does; otherwise 0.  The loop always
    ends. *)
Theorem match_pattern_list_verdict string pattern len dl :
  let qs := pieces (take (Z.to_nat len) pattern) in
  Forall (λ q, (length (body dl q).2 < SUB_MAX)%nat) qs →
  match_pattern_list string pattern len dl =
    Ok (if some_piece true string dl qs then -1 else b2z (some_piece false string dl qs)).
Proof.
  intros qs. unfold match_pattern_list. unfold qs. clear qs. set (p := take _ pattern). clearbody p.
  unfold pieces.
  enough (Hg : ∀ n p got, (length p ≤ n)%nat → Forall (λ q, (length (body dl q).2 < SUB_MAX)%nat) (pieces_n n p) →
    mpl_loop n string dl got p =
      Ok (if some_piece true string dl (pieces_n n p) then -1 else b2z (got || some_piece false string dl (pieces_n n p)))).
  { intros Hf. by rewrite Hg. }
  clear p. induction n as [|n IH]; intros p got Hn Hf.
  { destruct p; [|simpl in Hn; lia]. simpl. by rewrite orb_false_r. }
  destruct p as [|c p]; [simpl; by rewrite orb_false_r|].
  rewrite mpl_round. change (pieces_n (S n) (c :: p)) with (before (c :: p) :: pieces_n n (after (c :: p))) in *.
  apply Forall_cons in Hf as [Hb Hf]. unfold some_piece. cbn [existsb].
  change (existsb _ (pieces_n n (after (c :: p)))) with (some_piece true string dl (pieces_n n (after (c :: p)))) at 1.
  change (existsb (λ q, Bool.eqb (body dl q).1 false && _) (pieces_n n (after (c :: p))))
    with (some_piece false string dl (pieces_n n (after (c :: p)))).
  pose proof (after_length c p). simpl in Hn.
  destruct (body dl (before (c :: p))) as [neg b]. cbn [fst snd] in *.
  rewrite (proj2 (Nat.leb_gt _ _)) by done. rewrite !IH by (done || lia).
  destruct (match_pattern string b), neg; cbn [Bool.eqb andb orb]; try done.
  all: destruct got, (some_piece true string dl (pieces_n n (after (c :: p)))), (some_piece false string dl (pieces_n n (after (c :: p)))); done.
Qed.

(** ** [match_list] *)

Definition MAX_PROP : nat := 40.

(** [strsep(&s, ",")]: the token and the rest; no rest after the last token. *)
Fixpoint strsep (s : list Z) : list Z * option (list Z) :=
  match s with
  | [] => ([], None)
  | c :: s' =>
      if c =? C_comma then ([], Some s') else let '(p, r) := strsep s' in (c :: p, r)
  end.

(** [sproposals]: the tokens up to an empty one, at most [n] of them. *)
Fixpoint sproposals (n : nat) (sp : option (list Z)) : list (list Z) :=
  match n, sp with
  | S n, Some s =>
      let '(p, sp) := strsep s in
      match p with [] => [] | _ => p :: sproposals n sp end
  | _, _ => []
  end.

(** The loop over the client's names; [pos] is the offset of [cp] in [c]. *)
Fixpoint client_scan (fuel : nat) (sprops : list (list Z)) (clen pos : Z) (cp : option (list Z))
    : outcome (option (list Z) * Z) :=
  match cp with
  | None => Ok (None, clen)
  | Some s =>
      match fuel with
      | O => NoFuel
      | S fuel =>
          let '(p, cp) := strsep s in
          match p with
          | [] => Ok (None, clen)
          | _ =>
              let pos := pos + Z.of_nat (length p) + 1 in
              if existsb (λ q, bool_decide (p = q)) sprops
              then Ok (Some p, match cp with None => clen | Some _ => pos end)
              else client_scan fuel sprops clen pos cp
          end
      end
  end.

(** The name, and [*next]. *)
Definition match_list (client server : list Z) : outcome (option (list Z) * Z) :=
  client_scan (S (length client)) (sproposals MAX_PROP (Some server)) (Z.of_nat (length client)) 0 (Some client).

(** A list of names, as the protocol writes it. *)
Fixpoint namelist (l : list (list Z)) : list Z :=
  match l with
  | [] => []
  | [n] => n
  | n :: l => n ++ C_comma :: namelist l
  end.
Definition name (n : list Z) : Prop := n ≠ [] ∧ Forall (λ c, c ≠ C_comma) n.

Lemma strsep_end n : Forall (λ c, c ≠ C_comma) n → strsep n = (n, None).
Proof.
  induction 1 as [|c n Hc Hn IH]; [done|]. cbn [strsep]. by rewrite (proj2 (Z.eqb_neq _ _) Hc), IH.
Qed.
Lemma strsep_comma n r : Forall (λ c, c ≠ C_comma) n → strsep (n ++ C_comma :: r) = (n, Some r).
Proof.
  induction 1 as [|c n Hc Hn IH]; [done|]. cbn [app strsep]. by rewrite (proj2 (Z.eqb_neq _ _) Hc), IH.
Qed.
Lemma strsep_names n l :
  Forall (λ c, c ≠ C_comma) n → strsep (namelist (n :: l)) = (n, match l with [] => None | _ => Some (namelist l) end).
Proof. intros Hn. destruct l; [by apply strsep_end|by apply strsep_comma]. Qed.
Lemma namelist_length n l :
  length (namelist (n :: l)) = (length n + match l with [] => 0 | _ => S (length (namelist l)) end)%nat.
Proof. destruct l; [simpl; lia|]. cbn [namelist]. rewrite length_app. done. Qed.

Lemma sproposals_names n l : Forall name l → sproposals n (Some (namelist l)) = take n l.
Proof.
  revert l. induction n as [|n IH]; intros l Hl; [by destruct l|]. destruct Hl as [|p l [Hne Hp] Hl]; [done|].
  cbn [sproposals]. rewrite strsep_names by done. destruct p as [|c p]; [done|]. cbn [take]. f_equal.
  destruct l; [by destruct n|by apply IH].
Qed.

Lemma client_scan_names sprops l : ∀ fuel clen pos,
  Forall name l → (length l < fuel)%nat → clen = pos + Z.of_nat (length (namelist l)) →
  ∃ r next, client_scan fuel sprops clen pos (Some (namelist l)) = Ok (r, next) ∧
    match r with
    | Some c => ∃ l1 l2, l = l1 ++ c :: l2 ∧ c ∈ sprops ∧ Forall (λ n, n ∉ sprops) l1 ∧
        drop (Z.to_nat (next - pos)) (namelist l) = namelist l2 ∧ 0 ≤ next - pos
    | None => Forall (λ n, n ∉ sprops) l ∧ next = clen
    end.
Proof.
  induction l as [|p l IH]; intros [|fuel] clen pos Hl Hf Hc; try (simpl in Hf; lia).
  { exists None, clen. done. }
  apply Forall_cons in Hl as [[Hne Hp] Hl]. cbn [client_scan]. rewrite strsep_names by done.
  destruct p as [|x p0] eqn:Ep; [done|]. rewrite <- Ep in *. clear x p0 Ep Hne.
  rewrite namelist_length in Hc.
  destruct (existsb _ sprops) eqn:Ex.
  - apply existsb_exists in Ex as (q & Hq & ->%bool_decide_eq_true). apply list_elem_of_In in Hq.
    eexists (Some q), _. split; [reflexivity|]. exists [], l. split_and!; [done|done|constructor| |].
    + destruct l as [|p' l]; [simpl; apply drop_ge; simpl in *; lia|].
      change (namelist (q :: p' :: l)) with (q ++ C_comma :: namelist (p' :: l)).
      replace (Z.to_nat _) with (length q + 1)%nat by lia. rewrite <- drop_drop, drop_app_length. done.
    + destruct l; lia.
  - assert (Hp' : p ∉ sprops).
    { intros Hin. apply list_elem_of_In in Hin. rewrite <- not_true_iff_false in Ex. apply Ex, existsb_exists.
      exists p. by rewrite bool_decide_eq_true. }
    destruct l as [|p' l]; [exists None, clen; split; [by destruct fuel|by split; [repeat constructor|]]|].
    destruct (IH fuel clen (pos + Z.of_nat (length p) + 1)) as (r & next & E & Hr); [done|simpl in *; lia|lia|].
    exists r, next. split; [exact E|]. destruct r as [c|].
    + destruct Hr as (l1 & l2 & El & Hin & Hn & Hd & Hpos). exists (p :: l1), l2. rewrite El.
      split_and!; [done|done|by constructor| |lia]. rewrite <- El.
      change (namelist (p :: p' :: l)) with (p ++ C_comma :: namelist (p' :: l)).
      replace (Z.to_nat (next - pos)) with (length p + (1 + Z.to_nat (next - (pos + Z.of_nat (length p) + 1))))%nat by lia.
      rewrite <- !drop_drop, drop_app_length. exact Hd.
    + destruct Hr as [Hr ->]. split; [by constructor|done].
Qed.

(** [match_list] returns the first of the client's names that is among the
    first [MAX_PROP] of the server's, with the offset of the rest of the
    client's list, and nothing, with the length of the list, exactly if there
    is none. *)
Theorem match_list_first cs ss :
  Forall name cs → Forall name ss →
  ∃ r next, match_list (namelist cs) (namelist ss) = Ok (r, next) ∧
    match r with
    | Some c => ∃ cs1 cs2, cs = cs1 ++ c :: cs2 ∧ c ∈ take MAX_PROP ss ∧
        Forall (λ n, n ∉ take MAX_PROP ss) cs1 ∧ drop (Z.to_nat next) (namelist cs) = namelist cs2
    | None => Forall (λ n, n ∉ take MAX_PROP ss) cs ∧ next = Z.of_nat (length (namelist cs))
    end.
Proof.
  intros Hc Hs. unfold match_list. rewrite sproposals_names by done.
  assert (Hl : (length cs ≤ length (namelist cs))%nat).
  { clear Hs. induction Hc as [|p l [Hne Hp] Hl IH]; [done|]. rewrite namelist_length.
    destruct p; [done|]. destruct l; simpl in *; lia. }
  destruct (client_scan_names (take MAX_PROP ss) cs (S (length (namelist cs))) (Z.of_nat (length (namelist cs))) 0)
    as (r & next & E & Hr); [done|lia|lia|].
  exists r, next. split; [exact E|]. destruct r as [c|]; [|done].
  destruct Hr as (l1 & l2 & ? & ? & ? & Hd & _). exists l1, l2. by rewrite Z.sub_0_r in Hd.
Qed.

(** ** Concrete inputs *)

(** The codes of a text. *)
Definition codes (s : String.string) : list Z := map (λ a, Z.of_nat (Ascii.nat_of_ascii a)) (String.list_ascii_of_string s).

Lemma match_pattern_list_verdict_witness :
  match_pattern_list (codes "www.example.org") (codes "*.COM,!mail.*,*.Example.org") 27 true = Ok 1.
Proof.
  apply (match_pattern_list_verdict (codes "www.example.org") (codes "*.COM,!mail.*,*.Example.org") 27 true).
  repeat (constructor; [apply Nat.ltb_lt; vm_compute; reflexivity|]). constructor.
Defined.

Lemma match_list_first_witness :
  ∃ r next, match_list (codes "aes256-ctr,aes128-ctr,none") (codes "none,aes128-ctr") = Ok (r, next) ∧
    r = Some (codes "aes128-ctr").
Proof.
  destruct (match_list_first [codes "aes256-ctr"; codes "aes128-ctr"; codes "none"] [codes "none"; codes "aes128-ctr"])
    as (r & next & E & _).
  - repeat (constructor; [split; [discriminate|repeat (constructor; [discriminate|]); constructor]|]). constructor.
  - repeat (constructor; [split; [discriminate|repeat (constructor; [discriminate|]); constructor]|]). constructor.
  - exists r, next. split; [exact E|]. vm_compute in E. injection E as <- _. reflexivity.
Defined.
