(* ===== verification/KexProofs.v ===== *)
(** * Key exchange: theorems

    The proposals survive the KEXINIT message, the two sides agree on the
    algorithms and the keys, and the derived keys are those of RFC 4253. *)

From S2P Require Import Prelude ByteOrder Buffer Crc32 Deattack Stdio SuperTrace HashMap Csbuflo.
From S2P Require Import CipherMac Packet PacketWrite PacketRead PacketProofs Dispatch Match Kex.

(** ** The KEXINIT message *)

Section Kexinit.
Import Buffer.Items.

Lemma puts_app b l1 l2 : puts b (l1 ++ l2) = b ← puts b l1; puts b l2.
Proof.
  revert b. induction l1 as [|i l1 IH]; intros b; [done|]. cbn [app puts]. destruct (put b i); cbn [mbind outcome_bind]; auto.
Qed.
Lemma put_cookie_puts n b : put_cookie n b = puts b (replicate n (Char 0)).
Proof. revert b. induction n as [|n IH]; intros b; [done|]. cbn. destruct (buffer_put_char b 0); cbn; auto. Qed.
Lemma put_cstrings_puts l b : put_cstrings l b = puts b (map CString l).
Proof. revert b. induction l as [|s l IH]; intros b; [done|]. cbn. destruct (buffer_put_string b s); cbn; auto. Qed.

(** The items of a KEXINIT message with a given cookie. *)
Definition kexinit_items (cookie : list Z) (props : list (list Z)) : list item :=
  map Char cookie ++ map CString props ++ [Char 0; Int 0].
Definition kexinit_wire (cookie : list Z) (props : list (list Z)) : list Z :=
  concat (map wire (kexinit_items cookie props)).

(** Proposals that fit into a packet. *)
Record proposals (props : list (list Z)) : Prop := {
  pr_max : length props = PROPOSAL_MAX;
  pr_nul : Forall (λ s, 0 ∉ s) props;
  pr_size : Z.of_nat (length (concat props)) ≤ 2 ^ 17
}.

Lemma concat_le {A} (l : list (list A)) x : x ∈ l → (length x ≤ length (concat l))%nat.
Proof. induction 1; cbn [concat]; rewrite length_app; lia. Qed.

Lemma kexinit_items_ok cookie props :
  bytes cookie → proposals props → Forall ok (kexinit_items cookie props).
Proof.
  intros Hc [Hm Hn Hs]. unfold kexinit_items. rewrite !Forall_app. split_and!.
  - apply Forall_map. eapply Forall_impl; [exact Hc|]. done.
  - apply Forall_map, Forall_forall. intros s Hin. rewrite Forall_forall in Hn. split; [|by apply Hn].
    pose proof (concat_le _ _ Hin). lia.
  - repeat constructor; cbn; unfold is_u8, is_u32; lia.
Qed.

Lemma concat_wire_length_chars cookie : concat (map wire (map Char cookie)) = cookie.
Proof. induction cookie as [|c l IH]; [done|]. cbn. by rewrite IH. Qed.
Lemma length_wire_cstrings props :
  length (concat (map wire (map CString props))) = (4 * length props + length (concat props))%nat.
Proof.
  induction props as [|s l IH]; [done|]. cbn [map concat length]. rewrite !length_app, IH.
  cbn [wire]. rewrite length_app. change (length (put_u32 _)) with 4%nat. lia.
Qed.

Lemma kexinit_wire_split cookie props :
  kexinit_wire cookie props = cookie ++ concat (map wire (map CString props ++ [Char 0; Int 0])).
Proof. unfold kexinit_wire, kexinit_items. by rewrite map_app, concat_app, concat_wire_length_chars. Qed.
Lemma kexinit_wire_length cookie props :
  length (kexinit_wire cookie props) = (length cookie + 4 * length props + length (concat props) + 5)%nat.
Proof.
  rewrite kexinit_wire_split, map_app, concat_app, !length_app, length_wire_cstrings.
  change (length (concat (map wire [Char 0; Int 0]))) with 5%nat. lia.
Qed.

Lemma room_app l1 l2 : room (l1 ++ l2) = room l1 + room l2.
Proof. induction l1 as [|i l IH]; [done|]. cbn [app]. unfold room in *. cbn [foldr]. rewrite IH. lia. Qed.
Lemma room_wire l : room l = 2 * Z.of_nat (length (concat (map wire l))) + 2 * BUFFER_ALLOCSZ * Z.of_nat (length l).
Proof.
  induction l as [|i l IH]; [done|]. unfold room in *. cbn [foldr map concat length]. rewrite IH, length_app.
  unfold size. lia.
Qed.

Lemma kex_prop2buf_spec props :
  proposals props →
  ∃ b, kex_prop2buf buffer_init props = Ok b ∧ wf b ∧ contents b = kexinit_wire (replicate KEX_COOKIE_LEN 0) props.
Proof.
  intros Hp. unfold kex_prop2buf.
  assert (Hb : buffer_clear buffer_init = buffer_init) by done. rewrite Hb.
  assert (E : ∀ b, (b ← put_cookie KEX_COOKIE_LEN b; b ← put_cstrings (take PROPOSAL_MAX props) b;
     b ← buffer_put_char b 0; buffer_put_int b 0) = puts b (kexinit_items (replicate KEX_COOKIE_LEN 0) props)).
  { intros b. unfold kexinit_items. rewrite puts_app, put_cookie_puts, fmap_replicate.
    destruct (puts b _) as [b1| | | | |]; [|done..]. cbn [mbind outcome_bind].
    rewrite puts_app, put_cstrings_puts. rewrite take_ge by (rewrite (pr_max _ Hp); done).
    destruct (puts b1 _) as [b2| | | | |]; [|done..]. cbn.
    destruct (buffer_put_char b2 0); [|done..]. cbn. by destruct (buffer_put_int _ 0). }
  rewrite E. destruct buffer_init_wf as [Hw Hc].
  destruct (puts_spec buffer_init (kexinit_items (replicate KEX_COOKIE_LEN 0) props) Hw) as (b & Eb & Hwb & Hcb).
  - apply kexinit_items_ok; [|done]. by repeat constructor.
  - rewrite room_wire. fold (kexinit_wire (replicate KEX_COOKIE_LEN 0) props). rewrite kexinit_wire_length.
    unfold kexinit_items. rewrite !length_app, !length_map, !length_replicate. pose proof (pr_size _ Hp).
    rewrite (pr_max _ Hp). unfold PROPOSAL_MAX, KEX_COOKIE_LEN. cbn [length]. change (alloc buffer_init) with 4096.
    unfold BUFFER_ALLOCSZ, BUFFER_MAX_LEN. lia.
  - exists b. rewrite Hc in Hcb. split; [exact Eb|]. split; [exact Hwb|exact Hcb].
Qed.

(** Reading it back. *)

Definition str_of (i : item) : list Z := match i with CString s => cstr s | _ => [] end.

Lemma skip_cookie_gets b b' l k :
  gets b (replicate k KChar) = Ok (l, b') → skip_cookie k b = Ok b'.
Proof.
  revert b l. induction k as [|k IH]; intros b l E; [by injection E as _ <-|].
  cbn [replicate gets get skip_cookie] in *. destruct (buffer_get_char b) as [[v b1]| | | | |]; try done.
  cbn [mbind outcome_bind] in *. destruct (gets b1 _) as [[its b2]| | | | |] eqn:E2; try done.
  cbn in E. injection E as _ <-. by eapply IH.
Qed.
Lemma get_cstrings_gets b b' l k :
  gets b (replicate k KCString) = Ok (l, b') → get_cstrings k b = Ok (map str_of l, b').
Proof.
  revert b l. induction k as [|k IH]; intros b l E; [by injection E as <- <-|].
  cbn [replicate gets get get_cstrings] in *. destruct (buffer_get_cstring b) as [[v b1]| | | | |]; try done.
  cbn [mbind outcome_bind] in *. destruct (gets b1 _) as [[its b2]| | | | |] eqn:E2; try done.
  cbn in E. injection E as <- <-. by rewrite (IH _ _ E2).
Qed.

Lemma cstr_clean s : 0 ∉ s → cstr s = s.
Proof.
  induction s as [|c s IH]; intros Hn; [done|]. rewrite not_elem_of_cons in Hn. destruct Hn as [Hc Hn].
  cbn [cstr]. rewrite (proj2 (Z.eqb_neq c 0)) by done. by rewrite IH.
Qed.
Lemma str_of_clean props : Forall (λ s, 0 ∉ s) props → map str_of (map CString props) = props.
Proof. induction 1 as [|s l Hs Hl IH]; [done|]. cbn. by rewrite cstr_clean, IH. Qed.

(** A copy of a buffer's contents in a fresh buffer. *)
Lemma fresh_copy raw :
  wf raw → Z.of_nat (length (contents raw)) ≤ BUFFER_MAX_CHUNK →
  peek_bytes raw (buffer_len raw) = Ok (contents raw) ∧
  ∃ b, buffer_append buffer_init (contents raw) = Ok b ∧ wf b ∧ contents b = contents raw.
Proof.
  intros Hw Hl. split.
  - rewrite peek_bytes_contents by (rewrite ?buffer_len_contents by done; lia || done).
    by rewrite buffer_len_contents, Nat2Z.id, firstn_all by done.
  - destruct buffer_init_wf as [Hi Hc]. destruct (append_small buffer_init (contents raw)) as (b & E & Hwb & Hcb & _);
      [done|done| |].
    + change (alloc buffer_init) with 4096. unfold BUFFER_MAX_CHUNK, BUFFER_ALLOCSZ, BUFFER_MAX_LEN in *. lia.
    + exists b. rewrite Hc in Hcb. done.
Qed.

Lemma kex_buf2prop_spec raw cookie props :
  wf raw → proposals props → length cookie = KEX_COOKIE_LEN → bytes cookie →
  contents raw = kexinit_wire cookie props →
  kex_buf2prop raw = Ok (props, 0).
Proof.
  intros Hw Hp Hl Hb Hc. pose proof (pr_size _ Hp) as Hs. pose proof (pr_max _ Hp) as Hm.
  pose proof (kexinit_items_ok _ _ Hb Hp) as Hok. unfold kexinit_items in Hok. rewrite !Forall_app in Hok.
  destruct Hok as (Hk1 & Hk2 & Hk3).
  destruct (fresh_copy raw Hw) as (Ep & b & Eb & Hwb & Hcb).
  { rewrite Hc, kexinit_wire_length, Hl, Hm. unfold KEX_COOKIE_LEN, PROPOSAL_MAX, BUFFER_MAX_CHUNK. lia. }
  unfold kex_buf2prop. rewrite Ep. cbn [mbind outcome_bind]. rewrite Eb. cbn [mbind outcome_bind].
  rewrite Hc in Hcb. unfold kexinit_wire, kexinit_items in Hcb. rewrite !map_app, !concat_app in Hcb.
  destruct (gets_spec b _ _ Hwb Hk1 Hcb) as (b1 & E1 & Hw1 & Hc1).
  destruct (gets_spec b1 _ _ Hw1 Hk2 Hc1) as (b2 & E2 & Hw2 & Hc2).
  rewrite <- (app_nil_r (concat _)) in Hc2. destruct (gets_spec b2 _ _ Hw2 Hk3 Hc2) as (b3 & E3 & _).
  assert (Hk : ∀ {A} (l : list A) (f : A → kind) k, (∀ x, f x = k) → map f l = replicate (length l) k).
  { intros A l f k Hf. induction l as [|x l IH]; [done|]. cbn. by rewrite Hf, IH. }
  rewrite map_map, (Hk _ _ _ KChar), Hl in E1 by done. rewrite map_map, (Hk _ _ _ KCString), Hm in E2 by done.
  rewrite (skip_cookie_gets _ _ _ _ E1). cbn [mbind outcome_bind].
  rewrite (get_cstrings_gets _ _ _ _ E2). cbn [mbind outcome_bind].
  rewrite str_of_clean by apply (pr_nul _ Hp). cbn [map gets get kind_of] in E3.
  destruct (buffer_get_char b2) as [[v b4]| | | | |]; try done. cbn [mbind outcome_bind] in E3 |- *.
  destruct (buffer_get_int b4) as [[w b5]| | | | |]; try done. cbn in E3 |- *. by injection E3 as -> _ _.
Qed.

(** The KEXINIT message carries the proposals: whatever cookie
    [kex_send_kexinit] stores into the message that [kex_prop2buf] builds, the
    other side's [kex_buf2prop] returns the ten name lists unchanged, and no
    guessed packet is announced. *)
Theorem kex_prop_roundtrip props cookie :
  proposals props → length cookie = KEX_COOKIE_LEN → bytes cookie →
  ∃ b b', kex_prop2buf buffer_init props = Ok b ∧ poke b 0 cookie = Ok b' ∧ kex_buf2prop b' = Ok (props, 0).
Proof.
  intros Hp Hl Hb. destruct (kex_prop2buf_spec props Hp) as (b & E & Hw & Hc).
  rewrite kexinit_wire_split in Hc.
  destruct (poke_head b _ _ cookie Hw Hc) as (b' & Ep & Hw' & Hc' & _); [by rewrite Hl|].
  exists b, b'. split_and!; [exact E|exact Ep|]. eapply kex_buf2prop_spec; [exact Hw'|exact Hp|exact Hl|exact Hb|].
  by rewrite kexinit_wire_split.
Qed.

End Kexinit.

(** ** Key derivation *)

Section Derive.
Context `{Crypto} `{!CryptoLaws} (digest : evp_md_type → list Z → list Z).
Hypothesis digest_size : ∀ md m, Z.of_nat (length (digest md m)) = EVP_MD_size md.

(** RFC 4253, section 7.2: K1 = HASH(K || H || X || session_id) and
    Kn+1 = HASH(K || H || K1 || ... || Kn); [rfc_key n] is K1 || ... || Kn. *)
Fixpoint rfc_key (md : evp_md_type) (secret hash : list Z) (x : Z) (sid : list Z) (n : nat) : list Z :=
  match n with
  | O => []
  | S n =>
      let K := rfc_key md secret hash x sid n in
      K ++ digest md (secret ++ hash ++ (match n with O => x :: sid | _ => K end))
  end.

Lemma rfc_key_length md secret hash x sid n :
  Z.of_nat (length (rfc_key md secret hash x sid n)) = Z.of_nat n * EVP_MD_size md.
Proof. induction n as [|n IH]; [done|]. cbn [rfc_key]. rewrite length_app, Nat2Z.inj_add, digest_size, IH. lia. Qed.

Lemma expand_key_rfc md secret hash x sid need n : ∀ fuel k,
  let mdsz := EVP_MD_size md in
  0 < need → (Z.of_nat n - 1) * mdsz < need ≤ Z.of_nat n * mdsz → Z.of_nat n * mdsz < 2 ^ 32 →
  (0 < k ≤ n)%nat → (n - k ≤ fuel)%nat →
  expand_key digest fuel md (Z.of_nat n * mdsz) need mdsz (Z.of_nat k * mdsz) secret hash (rfc_key md secret hash x sid k)
  = Ok (rfc_key md secret hash x sid n).
Proof.
  intros fuel k mdsz Hneed Hn H32 Hk Hf. pose proof (md_size_pos md) as Hmd. fold mdsz in Hmd.
  revert k Hk Hf. induction fuel as [|fuel IH]; intros k Hk Hf; cbn [expand_key].
  - assert (k = n) as -> by lia. rewrite (proj2 (Z.ltb_ge _ _)) by lia. done.
  - destruct (Z.ltb_spec (Z.of_nat k * mdsz) need) as [Hlt|Hge].
    + assert (k < n)%nat by nia. unfold digest_final. rewrite rfc_key_length, digest_size.
      fold mdsz. rewrite (proj2 (Z.ltb_ge _ _)) by nia. cbn [mbind outcome_bind].
      rewrite u32_small by nia. replace (Z.of_nat k * mdsz + mdsz) with (Z.of_nat (S k) * mdsz) by lia.
      assert (Hrfc : rfc_key md secret hash x sid k ++
        digest md (secret ++ hash ++ take (Z.to_nat (Z.of_nat k * mdsz)) (rfc_key md secret hash x sid k))
        = rfc_key md secret hash x sid (S k)).
      { cbn [rfc_key]. rewrite take_ge. 2: { pose proof (rfc_key_length md secret hash x sid k) as Hl. fold mdsz in Hl. lia. }
        destruct k; [lia|done]. }
      rewrite Hrfc. apply IH; lia.
    + assert (k = n) as -> by nia. done.
Qed.

(** The number of blocks that hold [need] bytes. *)
Definition blocks_for (need mdsz : Z) : nat := Z.to_nat ((need + mdsz - 1) / mdsz).

Lemma blocks_for_bounds need mdsz :
  0 < need → 0 < mdsz → (Z.of_nat (blocks_for need mdsz) - 1) * mdsz < need ≤ Z.of_nat (blocks_for need mdsz) * mdsz.
Proof.
  intros Hn Hm. unfold blocks_for. pose proof (Z.div_mod (need + mdsz - 1) mdsz ltac:(lia)).
  pose proof (Z.mod_pos_bound (need + mdsz - 1) mdsz Hm). assert (0 ≤ (need + mdsz - 1) / mdsz) by (apply Z.div_pos; lia).
  rewrite Z2Nat.id by lia. nia.
Qed.

Lemma derive_key_ok df kex md id need hash secret :
  kx_evp_md kex = Some md → 0 < need < 2 ^ 31 →
  derive_key digest df kex id need hash secret =
    Ok (rfc_key md (if has_bug df SSH_BUG_DERIVEKEY then [] else secret) hash (u8 id) (session_id kex)
          (blocks_for need (EVP_MD_size md))).
Proof.
  intros Hmd Hneed. pose proof (md_size_pos md) as Hsz.
  set (n := blocks_for need (EVP_MD_size md)). set (secret' := if has_bug df SSH_BUG_DERIVEKEY then [] else secret).
  pose proof (blocks_for_bounds need (EVP_MD_size md)) as Hb. fold n in Hb.
  assert (EVP_MAX_MD_SIZE < 2 ^ 10) by done.
  unfold derive_key. rewrite Hmd. zdec.
  assert (Hr : roundup need (EVP_MD_size md) = Z.of_nat n * EVP_MD_size md).
  { unfold roundup. rewrite (u32_small (need + _)) by lia. replace (need + (EVP_MD_size md - 1)) with (need + EVP_MD_size md - 1) by lia.
    assert (0 ≤ (need + EVP_MD_size md - 1) / EVP_MD_size md) by (apply Z.div_pos; lia).
    unfold n, blocks_for in *. rewrite Z2Nat.id in * by lia. rewrite (u32_small (_ / _)) by nia. apply u32_small. nia. }
  rewrite Hr. assert (0 < n)%nat by nia. rewrite (proj2 (Z.eqb_neq _ _)) by nia.
  fold secret'. unfold digest_final at 1. rewrite digest_size. cbn [length]. rewrite (proj2 (Z.ltb_ge _ _)) by nia.
  cbn [mbind outcome_bind app].
  change (digest md (secret' ++ hash ++ u8 id :: session_id kex)) with (rfc_key md secret' hash (u8 id) (session_id kex) 1).
  replace (EVP_MD_size md) with (Z.of_nat 1 * EVP_MD_size md) at 3 by lia. apply expand_key_rfc; try lia; nia.
Qed.

(** [derive_key] computes the key of RFC 4253, section 7.2, with as many
    blocks as [need] bytes take, and no digest is written outside the area that
    [xmalloc(roundup(need, mdsz))] returns (with the compatibility flag
    [SSH_BUG_DERIVEKEY] the shared secret is left out). *)
Theorem derive_key_rfc df kex md id need hash secret :
  kx_evp_md kex = Some md → 0 < need < 2 ^ 31 →
  let n := blocks_for need (EVP_MD_size md) in
  let secret' := if has_bug df SSH_BUG_DERIVEKEY then [] else secret in
  derive_key digest df kex id need hash secret = Ok (rfc_key md secret' hash (u8 id) (session_id kex) n) ∧
  need ≤ Z.of_nat (length (rfc_key md secret' hash (u8 id) (session_id kex) n)) < need + EVP_MD_size md.
Proof.
  intros Hmd Hneed n secret'. pose proof (md_size_pos md) as Hsz.
  pose proof (blocks_for_bounds need (EVP_MD_size md)) as Hb. fold n in Hb.
  split; [by apply derive_key_ok|rewrite rfc_key_length; lia].
Qed.
End Derive.

(** ** Agreement *)

Lemma strsep_shorter s p r : strsep s = (p, Some r) → (length r < length s)%nat.
Proof.
  revert p r. induction s as [|c s IH]; intros p r; cbn [strsep]; [done|].
  destruct (c =? C_comma); [intros [= _ <-]; simpl; lia|].
  destruct (strsep s) as [p' [r'|]]; [|done]. intros [= _ <-]. specialize (IH _ _ eq_refl). simpl. lia.
Qed.

Lemma client_scan_total sprops clen : ∀ fuel pos cp,
  match cp with Some s => (length s < fuel)%nat | None => True end → is_Ok (client_scan fuel sprops clen pos cp).
Proof.
  induction fuel as [|fuel IH]; intros pos [s|] Hf; cbn [client_scan]; try lia; try by eexists.
  destruct (strsep s) as [p cp] eqn:E. destruct p as [|c p]; [by eexists|].
  destruct (existsb _ sprops); [by eexists|]. apply IH. destruct cp as [r|]; [|done]. apply strsep_shorter in E. lia.
Qed.
Lemma match_list_total c s : is_Ok (match_list c s).
Proof. apply client_scan_total. simpl. lia. Qed.

Lemma kex_buf2prop_contents a b : wf a → wf b → contents a = contents b → kex_buf2prop a = kex_buf2prop b.
Proof.
  intros Ha Hb E. unfold kex_buf2prop.
  assert (Hp : ∀ x, wf x → peek_bytes x (buffer_len x) = Ok (contents x)).
  { intros x Hx. rewrite peek_bytes_contents by (rewrite ?buffer_len_contents by done; lia || done).
    by rewrite buffer_len_contents, Nat2Z.id, firstn_all by done. }
  rewrite !Hp by done. by rewrite E.
Qed.

Section Agreement.
Context `{Crypto} `{!CryptoLaws} (digest : evp_md_type → list Z → list Z).
Hypothesis digest_size : ∀ md m, Z.of_nat (length (digest md m)) = EVP_MD_size md.

(** The flags for bugs of the other side that change the algorithms. *)
Definition same_bugs (dfc dfs : Z) : Prop :=
  has_bug dfc SSH_BUG_HMAC = has_bug dfs SSH_BUG_HMAC ∧ has_bug dfc SSH_BUG_DERIVEKEY = has_bug dfs SSH_BUG_DERIVEKEY.

(** A client and a server that have received each other's proposals. *)
Record exchanged (kc ks : Kex) : Prop := {
  ex_client : kx_server kc = 0;
  ex_server : kx_server ks ≠ 0;
  ex_wf : wf (kx_my kc) ∧ wf (kx_peer kc) ∧ wf (kx_my ks) ∧ wf (kx_peer ks);
  ex_ctos : contents (kx_peer ks) = contents (kx_my kc);
  ex_stoc : contents (kx_peer kc) = contents (kx_my ks)
}.

Record agreed (kc ks : Kex) : Prop := {
  ag_ctos : kx_out kc = kx_in ks;
  ag_stoc : kx_in kc = kx_out ks;
  ag_name : kx_name kc = kx_name ks;
  ag_type : kex_type kc = kex_type ks;
  ag_hostkey : hostkey_type kc = hostkey_type ks;
  ag_md : kx_evp_md kc = kx_evp_md ks;
  ag_need : we_need kc = we_need ks
}.

Lemma choose_kex_uniform c s :
  ∃ o : outcome (list Z * Z * evp_md_type), ∀ k, choose_kex k c s =
    '(n, t, m) ← o; Ok (k <| kx_name := Some n |> <| kex_type := t |> <| kx_evp_md := Some m |>).
Proof.
  unfold choose_kex. destruct (negotiated _ c s) as [n|m|m|m| |]; cbn [mbind outcome_bind].
  2: exists (Fatal m); done. 2: exists (Disconnect m); done. 2: exists (Exit m); done. 2: exists Fault; done. 2: exists NoFuel; done.
  destruct (strcmp_is n KEX_DH1); [by exists (Ok (n, KEX_DH_GRP1_SHA1, EVP_sha1))|].
  destruct (strcmp_is n KEX_DH14); [by exists (Ok (n, KEX_DH_GRP14_SHA1, EVP_sha1))|].
  destruct (strcmp_is n KEX_DHGEX_SHA1); [by exists (Ok (n, KEX_DH_GEX_SHA1, EVP_sha1))|].
  destruct (strcmp_is n KEX_DHGEX_SHA256); [by exists (Ok (n, KEX_DH_GEX_SHA256, EVP_sha256))|].
  destruct (is_ecdh n); [|by exists (Fatal "bad kex alg")].
  exists (md ← kex_ecdh_name_to_evpmd n; Ok (n, KEX_ECDH_SHA2, md)). intros k. by destruct (kex_ecdh_name_to_evpmd n).
Qed.
Lemma choose_hostkeyalg_uniform c s :
  ∃ o : outcome Z, ∀ k, choose_hostkeyalg k c s = t ← o; Ok (k <| hostkey_type := t |>).
Proof.
  exists (hostkeyalg ← negotiated "no hostkey alg" c s;
          if key_type_from_name hostkeyalg =? KEY_UNSPEC then Fatal "bad hostkey alg" else Ok (key_type_from_name hostkeyalg)).
  intros k. unfold choose_hostkeyalg. destruct (negotiated _ c s); [|done..]. cbn [mbind outcome_bind]. by case_match.
Qed.

(** The algorithms of a direction depend on the direction only. *)
Lemma choose_mode_ctos dfc dfs server cprop sprop :
  same_bugs dfc dfs → server ≠ 0 →
  choose_mode dfs server MODE_IN cprop sprop = choose_mode dfc 0 MODE_OUT cprop sprop ∧
  choose_mode dfs server MODE_OUT cprop sprop = choose_mode dfc 0 MODE_IN cprop sprop.
Proof.
  intros [Hb _] Hs. unfold choose_mode, choose_mac. rewrite (proj2 (Z.eqb_neq _ _) Hs), Hb. done.
Qed.

Lemma more_need_max need nk :
  more_need need nk = Z.max (Z.max (Z.max need (enc_key_len (nk_enc nk))) (enc_block_size (nk_enc nk))) (mac_key_len (nk_mac nk)).
Proof.
  assert (Hm : ∀ a b, (if a <? b then b else a) = Z.max a b) by (intros a b; zcase; lia).
  unfold more_need. by rewrite !Hm.
Qed.

(** Every cipher has blocks and every key a bounded length. *)
Lemma first_such_elem {A} (f : A → bool) l x : first_such f l = Some x → x ∈ l.
Proof. induction l as [|y l IH]; [done|]. cbn [first_such]. case_match; [intros [= ->]; left|right; auto]. Qed.

Lemma choose_enc_bounds c s e :
  choose_enc c s = Ok e → 0 < enc_block_size e ≤ 64 ∧ 0 ≤ enc_key_len e ≤ 64.
Proof.
  unfold choose_enc. intros (n & _ & E)%bind_Ok. destruct (cipher_by_name (to_string n)) as [x|] eqn:Ec; [|done].
  injection E as <-. apply first_such_elem in Ec. cbn [enc_block_size enc_key_len].
  assert (Hall : Forall (λ x, (0 < c_block_size x ≤ 64) ∧ (0 ≤ c_key_len x ≤ 64)) ciphers) by (apply (bool_decide_unpack _); vm_compute; exact I).
  rewrite Forall_forall in Hall. by apply Hall.
Qed.

Lemma choose_mac_bounds df c s m : choose_mac df c s = Ok m → mac_key_len m ≤ 1024.
Proof.
  unfold choose_mac. intros (n & _ & E)%bind_Ok. apply bind_Ok in E as ([r om] & E1 & E).
  destruct om as [m0|]; [|done]. destruct (r <? 0) eqn:Er; [done|]. injection E as <-. rsimpl.
  destruct (has_bug df SSH_BUG_HMAC); rsimpl; [lia|].
  unfold mac_setup in E1. destruct (first_such _ macs) as [e|] eqn:Ee; [|by injection E1 as <- _].
  apply bind_Ok in E1 as (m1 & E1 & [= <- <-]). unfold mac_setup_by_id in E1. apply bind_Ok in E1 as (m2 & E1 & [= <-]).
  assert (Hm2 : mac_key_len m2 ≤ 1024).
  { apply first_such_elem in Ee. assert (Hall : Forall (λ e, m_key_len e / 8 ≤ 64) macs) by (apply (bool_decide_unpack _); vm_compute; exact I).
    rewrite Forall_forall in Hall. specialize (Hall _ Ee). assert (EVP_MAX_MD_SIZE < 1024) by done.
    destruct (m_type e =? SSH_EVP); [|injection E1 as <-; rsimpl; lia].
    destruct (m_mdfunc e) as [md|]; [|done]. destruct (EVP_MD_size md <=? 0); [done|]. injection E1 as <-. rsimpl.
    pose proof (md_size_pos md). lia. }
  by destruct (negb _).
Qed.

Lemma choose_mode_bounds df srv mode cprop sprop nk need :
  choose_mode df srv mode cprop sprop = Ok nk → 0 ≤ need ≤ 1024 → 0 < more_need need nk ≤ 1024.
Proof.
  unfold choose_mode. intros (e & E1 & E)%bind_Ok Hn. apply bind_Ok in E as (m & E2 & E). apply bind_Ok in E as (co & _ & [= <-]).
  rewrite more_need_max. cbn [nk_enc nk_mac]. apply choose_enc_bounds in E1. apply choose_mac_bounds in E2. lia.
Qed.

(** What the keys of the two sides depend on. *)
Lemma derive_all_same n : ∀ dfc dfs kc ks id need hash secret,
  has_bug dfc SSH_BUG_DERIVEKEY = has_bug dfs SSH_BUG_DERIVEKEY →
  kx_evp_md kc = kx_evp_md ks → session_id kc = session_id ks →
  derive_all digest n dfc kc id need hash secret = derive_all digest n dfs ks id need hash secret.
Proof.
  induction n as [|n IH]; intros dfc dfs kc ks id need hash secret Hb Hm Hs; [done|]. cbn [derive_all].
  assert (derive_key digest dfc kc id need hash secret = derive_key digest dfs ks id need hash secret) as ->.
  { unfold derive_key. by rewrite Hm, Hs, Hb. }
  by rewrite (IH dfc dfs kc ks).
Qed.


Lemma derive_all_ok n : ∀ df k md id need hash secret,
  kx_evp_md k = Some md → 0 < need < 2 ^ 31 → is_Ok (derive_all digest n df k id need hash secret).
Proof.
  induction n as [|n IH]; intros df k md id need hash secret Hm Hn; [by eexists|]. cbn [derive_all].
  rewrite (derive_key_ok _ digest_size _ _ _ _ _ _ _ Hm Hn). cbn [mbind outcome_bind].
  destruct (IH df k md (id + 1) need hash secret Hm Hn) as [ks ->]. by eexists.
Qed.

Lemma kex_derive_keys_ok k md nk_in nk_out hash secret s :
  kx_evp_md k = Some md → 0 < we_need k < 2 ^ 31 → kx_in k = Some nk_in → kx_out k = Some nk_out →
  ∃ keys, derive_all digest NKEYS (datafellows s) k 65 (we_need k) hash secret = Ok keys ∧
    let srv := negb (kx_server k =? 0) in
    kex_derive_keys digest k hash secret s =
      Ok (k <| kx_in := None |> <| kx_out := None |>,
          s <| current_keys_in := Some (with_keys srv keys nk_in) |> <| current_keys_out := Some (with_keys (negb srv) keys nk_out) |>).
Proof.
  intros Hm Hn Hi Ho. destruct (derive_all_ok NKEYS (datafellows s) k md 65 (we_need k) hash secret Hm Hn) as [keys E].
  exists keys. split; [done|]. unfold kex_derive_keys. mstep. mstep_by (liftO_Ok _ _ s E). by rewrite Hi, Ho.
Qed.

(** C10: A client and a server that have received each other's KEXINIT messages
    either both find algorithms or both give up.  If they do, they agree on the
    cipher, MAC and compression of each direction, the key exchange method, its
    hash, the type of the host key and the amount of key material; and whatever
    session id, hash and shared secret the method yields, both derive keys, and
    the client's keys for sending are the server's for receiving and the other
    way around. *)
Theorem kex_agreement dfc dfs kc ks :
  exchanged kc ks → same_bugs dfc dfs →
  match kex_choose_conf dfc kc, kex_choose_conf dfs ks with
  | Ok (kc', _), Ok (ks', _) =>
      agreed kc' ks' ∧
      ∀ sid hash secret sc ss, datafellows sc = dfc → datafellows ss = dfs →
        ∃ kc2 sc2 ks2 ss2 nk_ctos nk_stoc,
          kex_derive_keys digest (kc' <| session_id := sid |>) hash secret sc = Ok (kc2, sc2) ∧
          kex_derive_keys digest (ks' <| session_id := sid |>) hash secret ss = Ok (ks2, ss2) ∧
          current_keys_out sc2 = Some nk_ctos ∧ current_keys_in ss2 = Some nk_ctos ∧
          current_keys_in sc2 = Some nk_stoc ∧ current_keys_out ss2 = Some nk_stoc
  | Ok _, _ | _, Ok _ => False
  | _, _ => True
  end.
Proof.
  intros [Hc Hs (Hw1 & Hw2 & Hw3 & Hw4) Hcs Hsc] Hb. unfold kex_choose_conf.
  rewrite (kex_buf2prop_contents (kx_peer ks) (kx_my kc)), (kex_buf2prop_contents (kx_peer kc) (kx_my ks)) by done.
  rewrite Hc, (proj2 (Z.eqb_neq _ _) Hs), Z.eqb_refl. cbn [negb].
  destruct (kex_buf2prop (kx_my kc)) as [[cprop fc]| | | | |] eqn:Ec, (kex_buf2prop (kx_my ks)) as [[sprop fs]| | | | |] eqn:Es; try done.
  cbn [mbind outcome_bind]. destruct (match_list_total KEX_RESUME (prop sprop PROPOSAL_KEX_ALGS)) as [[r nx] ->].
  cbn [mbind outcome_bind]. set (kc1 := match r with Some _ => _ | None => _ end).
  assert (Hc1 : kx_server kc1 = 0) by (unfold kc1; by destruct r). clearbody kc1. rewrite Hc1.
  destruct (choose_mode_ctos dfc dfs (kx_server ks) cprop sprop Hb Hs) as [Hm1 Hm2]. rewrite Hm1.
  destruct (choose_mode dfc 0 MODE_IN cprop sprop) as [stoc| | | | |] eqn:Estoc,
    (choose_mode dfc 0 MODE_OUT cprop sprop) as [ctos| | | | |] eqn:Ectos; cbn [mbind outcome_bind]; rsimpl;
    rewrite ?Hc1, ?Ectos, ?Hm2; try done. cbn [mbind outcome_bind].
  destruct (choose_kex_uniform (prop cprop PROPOSAL_KEX_ALGS) (prop sprop PROPOSAL_KEX_ALGS)) as [ok Hok]. rewrite !Hok.
  destruct ok as [[[n t] m]| | | | |]; try done. cbn [mbind outcome_bind].
  destruct (choose_hostkeyalg_uniform (prop cprop PROPOSAL_SERVER_HOST_KEY_ALGS) (prop sprop PROPOSAL_SERVER_HOST_KEY_ALGS)) as [oh Hoh].
  rewrite !Hoh. destruct oh as [ht| | | | |]; try done. cbn [mbind outcome_bind].
  pose proof (choose_mode_bounds _ _ _ _ _ _ 0 Estoc ltac:(lia)) as Hn1.
  pose proof (choose_mode_bounds _ _ _ _ _ _ _ Ectos ltac:(split; [apply Z.lt_le_incl|]; apply Hn1)) as Hn.
  assert (Hneed : more_need (more_need 0 stoc) ctos = more_need (more_need 0 ctos) stoc) by (rewrite !more_need_max; lia).
  split; [split; rsimpl; done|].
  intros sid hash secret sc ss Hdc Hds.
  match goal with |- context [kex_derive_keys digest ?k hash secret sc] => set (kcl := k) end.
  match goal with |- context [kex_derive_keys digest ?k hash secret ss] => set (ksv := k) end.
  destruct (kex_derive_keys_ok kcl m stoc ctos hash secret sc) as (keys & Ek & Ed); [done|unfold kcl; rsimpl; lia|done|done|].
  destruct (kex_derive_keys_ok ksv m ctos stoc hash secret ss) as (keys' & Ek' & Ed'); [done|unfold ksv; rsimpl; rewrite <- Hneed; lia|done|done|].
  assert (keys' = keys) as ->.
  { rewrite Hds, (derive_all_same NKEYS dfs dfc ksv kcl) in Ek' by (done || symmetry; apply Hb).
    rewrite Hdc in Ek. unfold ksv, kcl in *. rsimpl_in Ek'. rsimpl_in Ek. rewrite Hneed in Ek. congruence. }
  do 4 eexists. exists (with_keys true keys ctos), (with_keys false keys stoc).
  split; [exact Ed|]. split; [exact Ed'|]. unfold kcl, ksv. rsimpl. rewrite Hc1, (proj2 (Z.eqb_neq _ _) Hs). done.
Qed.
End Agreement.

(** ** Concrete inputs *)

Module KexDemo.
Import Toy.

Definition toy_digest (md : evp_md_type) (m : list Z) : list Z := HMAC md [] m.
Lemma toy_digest_size md m : Z.of_nat (length (toy_digest md m)) = EVP_MD_size md.
Proof. apply hmac_digest. Qed.

Definition client_props : list (list Z) := map codes
  ["diffie-hellman-group-exchange-sha256,diffie-hellman-group14-sha1"; "ssh-rsa,ssh-dss"; "aes128-ctr,aes256-ctr"; "aes128-ctr,3des-cbc";
   "hmac-md5,hmac-sha1"; "hmac-sha1"; "none,zlib"; "none,zlib"; ""; ""]%string.
Definition server_props : list (list Z) := map codes
  ["diffie-hellman-group14-sha1,diffie-hellman-group1-sha1"; "ssh-dss"; "aes256-ctr"; "3des-cbc,aes128-ctr";
   "hmac-sha1,hmac-md5"; "hmac-sha1,umac-64@openssh.com"; "none"; "zlib,none"; ""; ""]%string.

Lemma demo_proposals : proposals client_props ∧ proposals server_props.
Proof. split; split; try (vm_compute; (reflexivity || discriminate)); apply (bool_decide_unpack _); vm_compute; exact I. Qed.

Definition message (props : list (list Z)) : Buffer :=
  match kex_prop2buf buffer_init props with Ok b => b | _ => buffer_init end.
Lemma message_wf props : proposals props → wf (message props).
Proof. intros Hp. unfold message. destruct (kex_prop2buf_spec props Hp) as (b & -> & Hw & _). done. Qed.

Definition kex_of (server : Z) (my peer : list (list Z)) : Kex :=
  mkKex [] None None 0 server None 0 0 0 (message my) (message peer) 0 0 None.
Definition demo_client : Kex := kex_of 0 client_props server_props.
Definition demo_server : Kex := kex_of 1 server_props client_props.

Lemma kex_prop_roundtrip_witness :
  ∃ b b', kex_prop2buf buffer_init client_props = Ok b ∧ poke b 0 (replicate 16 7) = Ok b' ∧ kex_buf2prop b' = Ok (client_props, 0).
Proof.
  apply (kex_prop_roundtrip client_props (replicate 16 7)).
  - apply demo_proposals.
  - reflexivity.
  - apply (bool_decide_unpack _). vm_compute. exact I.
Defined.

Lemma derive_key_rfc_witness :
  derive_key toy_digest 0 (demo_client <| kx_evp_md := Some EVP_sha1 |>) 65 32 [1; 2] [3] =
    Ok (rfc_key toy_digest EVP_sha1 [3] [1; 2] 65 [] 2).
Proof.
  destruct (derive_key_rfc toy_digest toy_digest_size 0 (demo_client <| kx_evp_md := Some EVP_sha1 |>) EVP_sha1 65 32 [1; 2] [3])
    as [E _]; [reflexivity|lia|]. exact E.
Defined.

Definition succeeds {A} (o : outcome A) : bool := match o with Ok _ => true | _ => false end.

Lemma kex_agreement_witness :
  ∃ kc' ks' b1 b2, kex_choose_conf 0 demo_client = Ok (kc', b1) ∧ kex_choose_conf 0 demo_server = Ok (ks', b2) ∧ agreed kc' ks'.
Proof.
  assert (Hc : succeeds (kex_choose_conf 0 demo_client) = true) by (vm_compute; reflexivity).
  pose proof (kex_agreement toy_digest toy_digest_size 0 0 demo_client demo_server) as Ha.
  assert (He : exchanged demo_client demo_server).
  { destruct demo_proposals as [Hp1 Hp2]. unfold demo_client, demo_server, kex_of.
    split; cbn [kx_server kx_peer kx_my]; [reflexivity|discriminate| |reflexivity|reflexivity].
    split_and!; apply message_wf; assumption. }
  specialize (Ha He (conj eq_refl eq_refl)).
  destruct (kex_choose_conf 0 demo_client) as [[kc' b1]| | | | |]; try discriminate Hc.
  destruct (kex_choose_conf 0 demo_server) as [[ks' b2]| | | | |]; try contradiction.
  exists kc', ks', b1, b2. split_and!; [reflexivity..|apply Ha].
Defined.
End KexDemo.
