(* ===== verification/AddrMatch.v ===== *)
(** * Matching of addresses and of users ([addrmatch.c], [match.c])

    An address is the sixteen bytes of the union of [struct xaddr], in network
    order.  [getaddrinfo] with [AI_NUMERICHOST] is a parameter.  The theorems
    compare the byte and mask arithmetic with containment of integers in
    aligned ranges, and give the verdict of a list of networks and patterns. *)

From S2P Require Import Prelude ByteOrder Stdio Match.

(** [match_pattern_list] always returns. *)
Lemma match_pattern_list_total string pattern len dl : ∃ r, match_pattern_list string pattern len dl = Ok r.
Proof.
  unfold match_pattern_list. set (p := take _ pattern). clearbody p.
  enough (Hg : ∀ n p got, (length p ≤ n)%nat → ∃ r, mpl_loop n string dl got p = Ok r) by by apply Hg.
  clear p. induction n as [|n IH]; intros p got Hn; [destruct p; [eexists; reflexivity|simpl in Hn; lia]|].
  destruct p as [|c p]; [eexists; reflexivity|]. rewrite mpl_round. pose proof (after_length c p). simpl in Hn.
  destruct (body dl (before (c :: p))) as [neg b]. destruct (_ <=? _)%nat; [eauto|].
  destruct (match_pattern string b); [destruct neg; [eauto|]|]; apply IH; lia.
Qed.

Inductive family := AF_INET | AF_INET6 | AF_OTHER.
#[export] Instance family_eq_dec : EqDecision family.
Proof. solve_decision. Defined.

Record xaddr := mkXaddr { af : family; addr8 : list Z; scope_id : Z }.
#[export] Instance eta_xaddr : Eta xaddr := λ x, {| af := af x; addr8 := addr8 x; scope_id := scope_id x |}.

(** What [getaddrinfo] stores: family, length of the structure, the bytes of
    the address and the scope. *)
Record sockaddr := mkSockaddr { sa_family : family; sa_len : Z; sin_addr : list Z; sin6_scope_id : Z }.
Definition sizeof_sockaddr_in : Z := 16.
Definition sizeof_sockaddr_in6 : Z := 28.

Definition addr_unicast_masklen (f : family) : Z :=
  match f with AF_INET => 32 | AF_INET6 => 128 | AF_OTHER => -1 end.
Definition masklen_valid (f : family) (masklen : Z) : bool :=
  match f with AF_INET => masklen <=? 32 | AF_INET6 => masklen <=? 128 | AF_OTHER => false end.

Definition zero_addr : list Z := replicate 16 0.

Definition addr_sa_to_xaddr (sa : sockaddr) : option xaddr :=
  match sa_family sa with
  | AF_INET =>
      if sa_len sa <? sizeof_sockaddr_in then None
      else Some (mkXaddr AF_INET (take 4 (sin_addr sa) ++ replicate 12 0) 0)
  | AF_INET6 =>
      if sa_len sa <? sizeof_sockaddr_in6 then None
      else Some (mkXaddr AF_INET6 (take 16 (sin_addr sa)) (sin6_scope_id sa))
  | AF_OTHER => None
  end.

(** [htonl((0xffffffff << (32 - l)) & 0xffffffff)] *)
Definition mask_word (l : Z) : list Z := put_u32 (Z.land (u32 (Z.shiftl 0xffffffff (32 - l))) 0xffffffff).

(** The words of an IPv6 mask: full ones, one partial word, zeros. *)
Fixpoint mask_words (n : nat) (l : Z) : list Z :=
  match n with
  | O => []
  | S n =>
      if 32 <=? l then put_u32 0xffffffff ++ mask_words n (l - 32)
      else (if l =? 0 then put_u32 0 else mask_word l) ++ replicate (4 * n) 0
  end.

Definition addr_netmask (f : family) (l : Z) : option xaddr :=
  if negb (masklen_valid f l) then None
  else
    match f with
    | AF_INET => Some (mkXaddr AF_INET ((if l =? 0 then put_u32 0 else mask_word l) ++ replicate 12 0) 0)
    | AF_INET6 => Some (mkXaddr AF_INET6 (mask_words 4 l) 0)
    | AF_OTHER => None
    end.

Definition addr_and (a b : xaddr) : option xaddr :=
  if negb (bool_decide (af a = af b)) then None
  else
    match af a with
    | AF_INET => Some (a <| addr8 := zip_with Z.land (take 4 (addr8 a)) (take 4 (addr8 b)) ++ drop 4 (addr8 a) |>)
    | AF_INET6 => Some (a <| addr8 := zip_with Z.land (addr8 a) (addr8 b) |>)
    | AF_OTHER => None
    end.

(** The loop over the bytes of [addr_cmp]. *)
Fixpoint bytes_cmp (a b : list Z) : Z :=
  match a, b with
  | x :: a, y :: b => if negb (x - y =? 0) then if y <? x then 1 else -1 else bytes_cmp a b
  | _, _ => 0
  end.

Definition addr_cmp (a b : xaddr) : Z :=
  if negb (bool_decide (af a = af b)) then if bool_decide (af a = AF_INET6) then 1 else -1
  else
    match af a with
    | AF_INET =>
        if bool_decide (take 4 (addr8 a) = take 4 (addr8 b)) then 0
        else if get_u32 (addr8 b) <? get_u32 (addr8 a) then 1 else -1
    | AF_INET6 =>
        let c := bytes_cmp (take 16 (addr8 a)) (take 16 (addr8 b)) in
        if negb (c =? 0) then c
        else if scope_id a =? scope_id b then 0
        else if scope_id b <? scope_id a then 1 else -1
    | AF_OTHER => -1
    end.

(** [~] on the bytes. *)
Definition addr_invert (n : xaddr) : option xaddr :=
  match af n with
  | AF_INET => Some (n <| addr8 := map (λ b, u8 (Z.lnot b)) (take 4 (addr8 n)) ++ drop 4 (addr8 n) |>)
  | AF_INET6 => Some (n <| addr8 := map (λ b, u8 (Z.lnot b)) (addr8 n) |>)
  | AF_OTHER => None
  end.
Definition addr_hostmask (f : family) (l : Z) : option xaddr := addr_netmask f l ≫= addr_invert.

Definition addr_is_all0s (a : xaddr) : bool :=
  match af a with
  | AF_INET => forallb (Z.eqb 0) (take 4 (addr8 a))
  | AF_INET6 => forallb (Z.eqb 0) (take 16 (addr8 a))
  | AF_OTHER => false
  end.
Definition addr_host_is_all0s (a : xaddr) (masklen : Z) : bool :=
  match addr_hostmask (af a) masklen with
  | None => false
  | Some mask => match addr_and a mask with None => false | Some r => addr_is_all0s r end
  end.

(** [strtoul(s, &end, 10)]: the value and what follows; no digits is no
    conversion, a value that does not fit is [ULONG_MAX]. *)
Definition strtoul (s : list Z) : Z * list Z :=
  let s0 := Scanf.skip_ws s in
  let '(neg, s1) := match s0 with 45 :: r => (true, r) | 43 :: r => (false, r) | _ => (false, s0) end in
  match s1 with
  | c :: _ =>
      if Scanf.is_digit c then
        let '(v, r) := Scanf.digits s1 0 in
        (if 2 ^ 64 <=? v then 2 ^ 64 - 1 else if neg : bool then u64 (- v) else v, r)
      else (0, s)
  | [] => (0, s)
  end.

(** [strchr(s, c)]: what precedes and what follows the character. *)
Fixpoint strchr (c : Z) (s : list Z) : option (list Z * list Z) :=
  match s with
  | [] => None
  | x :: s' => if x =? c then Some ([], s') else '(a, b) ← strchr c s'; Some (x :: a, b)
  end.

(** Results 0, -1 and -2 of [addr_pton_cidr]. *)
Inductive cidr := CidrOk (net : xaddr) (masklen : Z) | CidrError | CidrInconsistent.

Definition ADDRBUF : nat := 64.
Definition C_slash : Z := 47.

(** The tokens of the [strsep] loops. *)
Fixpoint tokens (s : list Z) : list (list Z) :=
  match s with
  | [] => [[]]
  | c :: s' =>
      if c =? C_comma then [] :: tokens s'
      else match tokens s' with t :: ts => (c :: t) :: ts | [] => [[c]] end
  end.

Lemma tokens_strsep s : tokens s = match strsep s with (t, None) => [t] | (t, Some r) => t :: tokens r end.
Proof.
  induction s as [|c s IH]; [done|]. cbn [tokens strsep]. destruct (c =? C_comma); [done|].
  rewrite IH. by destruct (strsep s) as [t [r|]].
Qed.

Definition INET6_ADDRSTRLEN : Z := 46.
Definition VALID_CIDR_CHARS : list Z := Eval vm_compute in codes "0123456789abcdefABCDEF.:/".

Section AddrMatch.
(** [None]: an error; [Some None]: no address in the result. *)
Context (getaddrinfo : list Z → option (option sockaddr)).

Definition addr_pton (p : list Z) : option xaddr :=
  match getaddrinfo p with
  | Some (Some sa) => addr_sa_to_xaddr sa
  | _ => None
  end.

Definition addr_pton_cidr (p : list Z) : cidr :=
  if (ADDRBUF <? length p)%nat then CidrError
  else
    let addrbuf := take (ADDRBUF - 1) p in
    let parsed :=
      match strchr C_slash addrbuf with
      | None => Some (addrbuf, None)
      | Some (a, mp) =>
          let '(masklen, cp) := strtoul mp in
          if (match mp with [] => true | _ => false end) || (match cp with [] => false | _ => true end) || (128 <? masklen)
          then None else Some (a, Some masklen)
      end in
    match parsed with
    | None => CidrError
    | Some (a, m) =>
        match addr_pton a with
        | None => CidrError
        | Some tmp =>
            let masklen := u32 (match m with None => addr_unicast_masklen (af tmp) | Some m => m end) in
            if negb (masklen_valid (af tmp) masklen) then CidrInconsistent
            else if negb (addr_host_is_all0s tmp masklen) then CidrInconsistent
            else CidrOk tmp masklen
        end
    end.

Definition addr_netmatch (host net : xaddr) (masklen : Z) : Z :=
  if negb (bool_decide (af host = af net)) then -1
  else
    match addr_netmask (af host) masklen with
    | None => -1
    | Some mask =>
        match addr_and host mask with
        | None => -1
        | Some r => addr_cmp r net
        end
    end.

(** The sign of an entry. *)
Definition split_neg (cp : list Z) : bool * list Z :=
  match cp with c :: r => if c =? C_bang then (true, r) else (false, cp) | [] => (false, []) end.

(** The loop of [addr_match_list]; [addr] is the text and the parsed form of
    the address, if there is one. *)
Fixpoint match_list_loop (addr : option (list Z * xaddr)) (ret : Z) (toks : list (list Z)) : Z :=
  match toks with
  | [] => ret
  | cp :: toks =>
      let '(neg, cp) := split_neg cp in
      match cp with
      | [] => -2
      | _ =>
          match addr_pton_cidr cp with
          | CidrInconsistent => -2
          | CidrOk net masklen =>
              if (match addr with Some (_, try_addr) => addr_netmatch try_addr net masklen =? 0 | None => false end)
              then if neg : bool then -1 else match_list_loop addr 1 toks
              else match_list_loop addr ret toks
          | CidrError =>
              if (match addr with Some (text, _) => match_pattern text cp | None => false end)
              then if neg : bool then -1 else match_list_loop addr 1 toks
              else match_list_loop addr ret toks
          end
      end
  end.

Definition addr_match_list (addr : option (list Z)) (_list : list Z) : Z :=
  match addr with
  | None => match_list_loop None 0 (tokens _list)
  | Some text =>
      match addr_pton text with
      | None => 0
      | Some try_addr => match_list_loop (Some (text, try_addr)) 0 (tokens _list)
      end
  end.

(** The loop of [addr_match_cidr_list]. *)
Fixpoint cidr_list_loop (addr : option xaddr) (ret : Z) (toks : list (list Z)) : Z :=
  match toks with
  | [] => ret
  | cp :: toks =>
      if bool_decide (cp = []) then -1
      else if INET6_ADDRSTRLEN + 3 <? Z.of_nat (length cp) then -1
      else
        let ret := if forallb (λ c, bool_decide (c ∈ VALID_CIDR_CHARS)) cp then ret else -1 in
        match addr_pton_cidr cp with
        | CidrError => -1
        | CidrInconsistent => -1
        | CidrOk net masklen =>
            match addr with
            | Some try_addr => cidr_list_loop addr (if addr_netmatch try_addr net masklen =? 0 then 1 else ret) toks
            | None => cidr_list_loop addr ret toks
            end
        end
  end.
Definition addr_match_cidr_list (addr : option (list Z)) (_list : list Z) : Z :=
  match addr with
  | None => cidr_list_loop None 0 (tokens _list)
  | Some text =>
      match addr_pton text with
      | None => 0
      | Some try_addr => cidr_list_loop (Some try_addr) 0 (tokens _list)
      end
  end.

(** ** [match_host_and_ip] and [match_user] of [match.c] *)

Definition match_host_and_ip (host ipaddr patterns : list Z) : outcome Z :=
  let mip := addr_match_list (Some ipaddr) patterns in
  if mip =? -2 then Ok (-1)
  else if mip =? -1 then Ok 0
  else
    mhost ← match_hostname host patterns (Z.of_nat (length patterns));
    if mhost =? -1 then Ok 0
    else if (mhost =? 0) && (mip =? 0) then Ok 0 else Ok 1.

Definition match_user (user host ipaddr pattern : list Z) : outcome Z :=
  match strchr C_at pattern with
  | None => Ok (b2z (match_pattern user pattern))
  | Some (pat, p) => if match_pattern user pat then match_host_and_ip host ipaddr p else Ok 0
  end.

End AddrMatch.

(** ** Addresses as integers *)

Definition nbits (f : family) : Z := match f with AF_INET => 32 | AF_INET6 => 128 | AF_OTHER => 0 end.
Definition nbytes (f : family) : nat := match f with AF_INET => 4 | AF_INET6 => 16 | AF_OTHER => 0 end.

(** The integer of a list of bytes in network order. *)
Definition be (l : list Z) : Z := foldl (λ v b, v * 256 + b) 0 l.
Definition ip (x : xaddr) : Z := be (take (nbytes (af x)) (addr8 x)).

Record wf_addr (x : xaddr) : Prop := {
  wa_family : af x ≠ AF_OTHER;
  wa_length : length (addr8 x) = 16%nat;
  wa_bytes : bytes (addr8 x)
}.

(** [host] is in the network of the first [l] bits of [net]. *)
Definition in_net (host net : xaddr) (l : Z) : Prop :=
  af host = af net ∧ ip host / 2 ^ (nbits (af net) - l) = ip net / 2 ^ (nbits (af net) - l) ∧
  (af net = AF_INET6 → scope_id host = scope_id net).

Lemma be_from_app v l : foldl (λ v b, v * 256 + b) v l = v * 256 ^ Z.of_nat (length l) + be l.
Proof.
  unfold be. revert v. induction l as [|b l IH]; intros v; [simpl; lia|].
  cbn [foldl length]. rewrite IH, (IH (0 * 256 + b)). rewrite Nat2Z.inj_succ, Z.pow_succ_r by lia. ring.
Qed.
Lemma be_cons b l : be (b :: l) = b * 256 ^ Z.of_nat (length l) + be l.
Proof. unfold be. cbn [foldl]. rewrite be_from_app. unfold be. lia. Qed.
Lemma be_range l : bytes l → 0 ≤ be l < 256 ^ Z.of_nat (length l).
Proof.
  induction 1 as [|b l Hb Hl IH]; [done|]. rewrite be_cons. cbn [length]. rewrite Nat2Z.inj_succ, Z.pow_succ_r by lia.
  unfold is_u8 in Hb. nia.
Qed.
Lemma pow256 n : 256 ^ Z.of_nat n = 2 ^ (8 * Z.of_nat n).
Proof. change 256 with (2 ^ 8). by rewrite <- Z.pow_mul_r by lia. Qed.

Lemma land_add_shift a b x y n :
  0 ≤ n → 0 ≤ x < 2 ^ n → 0 ≤ y < 2 ^ n →
  Z.land (a * 2 ^ n + x) (b * 2 ^ n + y) = Z.land a b * 2 ^ n + Z.land x y.
Proof.
  intros Hn Hx Hy. rewrite <- !Z.shiftl_mul_pow2 by done.
  assert (0 ≤ Z.land x y < 2 ^ n) as Hl.
  { split; [apply Z.land_nonneg; lia|]. destruct (Z.eq_dec (Z.land x y) 0) as [->|]; [lia|].
    apply Z.log2_lt_cancel. rewrite Z.log2_pow2 by done.
    eapply Z.le_lt_trans; [apply Z.log2_land; lia|].
    destruct (Z.eq_dec x 0) as [->|]; [rewrite Z.land_0_l in *; done|].
    apply Z.min_lt_iff. left. apply Z.log2_lt_pow2; lia. }
  rewrite <- !lor_shiftl_add by done. apply Z.bits_inj'. intros i Hi.
  rewrite Z.land_spec, !Z.lor_spec, !Z.shiftl_spec, !Z.land_spec by done.
  destruct (Z.ltb_spec i n).
  - rewrite !(Z.testbit_neg_r _ (i - n)) by lia. done.
  - rewrite (testbit_small x n), (testbit_small y n) by lia. by rewrite !orb_false_r.
Qed.

Lemma be_land a b :
  bytes a → bytes b → length a = length b → be (zip_with Z.land a b) = Z.land (be a) (be b).
Proof.
  intros Ha. revert b. induction Ha as [|x a Hx Ha IH]; intros [|y b] Hb Hl; try done.
  apply Forall_cons in Hb as [Hy Hb]. injection Hl as Hl. cbn [zip_with].
  rewrite !be_cons, length_zip_with_l_eq, IH by done. rewrite <- Hl, pow256.
  pose proof (be_range a Ha). pose proof (be_range b Hb). rewrite <- Hl in *. rewrite pow256 in *.
  rewrite land_add_shift by lia. done.
Qed.

Lemma be_inj a b : bytes a → bytes b → length a = length b → be a = be b → a = b.
Proof.
  intros Ha. revert b. induction Ha as [|x a Hx Ha IH]; intros [|y b] Hb Hl E; try done.
  apply Forall_cons in Hb as [Hy Hb]. injection Hl as Hl. rewrite !be_cons, <- Hl in E.
  pose proof (be_range a Ha). pose proof (be_range b Hb). rewrite <- Hl in *.
  set (P := 256 ^ Z.of_nat (length a)) in *.
  destruct (Z.div_mod_unique P x y (be a) (be b)) as [-> Eb]; [lia..|]. f_equal. by apply IH.
Qed.

Lemma land_bytes a b : bytes a → bytes b → bytes (zip_with Z.land a b).
Proof.
  intros Ha. revert b. induction Ha as [|x a Hx Ha IH]; intros [|y b] Hb; try by constructor.
  apply Forall_cons in Hb as [Hy Hb]. constructor; [|by apply IH].
  unfold is_u8 in *. assert (H0 : 0 ≤ Z.land x y) by (apply Z.land_nonneg; lia). split; [done|].
  apply Z.le_lt_trans with x; [|lia]. apply Z.ldiff_le; [lia|]. apply Z.bits_inj'. intros i Hi.
  rewrite Z.ldiff_spec, Z.land_spec, Z.bits_0. by destruct (Z.testbit x i), (Z.testbit y i).
Qed.

(** Masking with the first [n - k] of [n] bits. *)
Lemma land_prefix x n k : 0 ≤ k ≤ n → 0 ≤ x < 2 ^ n → Z.land x (2 ^ n - 2 ^ k) = x / 2 ^ k * 2 ^ k.
Proof.
  intros Hk Hx.
  assert (2 ^ n - 2 ^ k = Z.shiftl (Z.ones (n - k)) k) as ->.
  { rewrite Z.shiftl_mul_pow2, Z.ones_equiv by lia. unfold Z.pred. rewrite Z.mul_add_distr_r, <- Z.pow_add_r by lia.
    replace (n - k + k) with n by lia. lia. }
  rewrite <- Z.shiftl_mul_pow2, <- Z.shiftr_div_pow2 by lia. apply Z.bits_inj'. intros i Hi.
  rewrite Z.land_spec, !Z.shiftl_spec by done. destruct (Z.ltb_spec i k).
  - rewrite !(Z.testbit_neg_r _ (i - k)) by lia. apply andb_false_r.
  - rewrite Z.shiftr_spec by lia. replace (i - k + k) with i by lia.
    destruct (Z.ltb_spec i n).
    + rewrite Z.ones_spec_low by lia. apply andb_true_r.
    + rewrite (testbit_small x n) by lia. done.
Qed.

(** ** The masks *)

(** A property of every mask, decided by evaluation. *)
Definition mask_ok (f : family) (l : Z) : bool :=
  match addr_netmask f l with
  | None => false
  | Some m =>
      bool_decide (af m = f) && bool_decide (length (addr8 m) = 16%nat) &&
      forallb (λ b, (0 <=? b) && (b <? 256)) (addr8 m) && (ip m =? 2 ^ nbits f - 2 ^ (nbits f - l))
  end.
Lemma masks_ok : forallb (mask_ok AF_INET) (seqZ 0 33) && forallb (mask_ok AF_INET6) (seqZ 0 129) = true.
Proof. vm_compute. reflexivity. Qed.

Lemma bytes_forallb l : forallb (λ b, (0 <=? b) && (b <? 256)) l = true ↔ bytes l.
Proof.
  rewrite forallb_forall. unfold bytes. rewrite Forall_forall. unfold is_u8.
  split; intros Hl b Hb; [apply list_elem_of_In in Hb|apply list_elem_of_In in Hb]; specialize (Hl b Hb).
  - apply andb_true_iff in Hl as [H1 H2]. lia.
  - apply andb_true_iff. lia.
Qed.

Lemma addr_netmask_spec f l :
  f ≠ AF_OTHER → 0 ≤ l ≤ nbits f →
  ∃ m, addr_netmask f l = Some m ∧ af m = f ∧ wf_addr m ∧ ip m = 2 ^ nbits f - 2 ^ (nbits f - l).
Proof.
  intros Hf Hl. assert (Hm : mask_ok f l = true).
  { destruct (proj1 (andb_true_iff _ _) masks_ok) as [H4 H6]. rewrite forallb_forall in H4, H6.
    destruct f; [apply H4|apply H6|done]; apply list_elem_of_In, elem_of_seqZ; simpl in Hl; lia. }
  unfold mask_ok in Hm. destruct (addr_netmask f l) as [m|]; [|done].
  rewrite !andb_true_iff, bytes_forallb, Z.eqb_eq, !bool_decide_eq_true in Hm. destruct Hm as [[[? ?] ?] ?].
  exists m. split_and!; [done..| |done]. split; [congruence|done..].
Qed.

Lemma bytes_app a b : bytes (a ++ b) ↔ bytes a ∧ bytes b.
Proof. apply Forall_app. Qed.
Lemma bytes_take n l : bytes l → bytes (take n l).
Proof. apply Forall_take. Qed.
Lemma bytes_drop n l : bytes l → bytes (drop n l).
Proof. apply Forall_drop. Qed.
#[local] Hint Resolve bytes_take bytes_drop land_bytes : core.

Lemma ip_range x : wf_addr x → 0 ≤ ip x < 2 ^ nbits (af x).
Proof.
  intros [Hf Hl Hb]. unfold ip. pose proof (be_range _ (bytes_take (nbytes (af x)) _ Hb)) as Hr.
  rewrite length_take, Hl, pow256 in Hr. by destruct (af x).
Qed.

(** The conjunction with an address of the same family. *)
Lemma addr_and_spec a b :
  wf_addr a → wf_addr b → af b = af a →
  ∃ r, addr_and a b = Some r ∧ af r = af a ∧ scope_id r = scope_id a ∧ wf_addr r ∧ ip r = Z.land (ip a) (ip b).
Proof.
  intros [Haf Hal Hab] [_ Hbl Hbb] Hab'. unfold addr_and, ip. rewrite Hab', bool_decide_true by done. cbn [negb].
  destruct (af a) eqn:Ea; [| |done]; eexists; (split; [done|]); rsimpl; rewrite ?Ea; cbn [nbytes].
  - split_and!; [done..| |].
    + split; rsimpl; [congruence| |apply bytes_app; auto].
      rewrite length_app, length_zip_with, !length_take, length_drop, Hal, Hbl. done.
    + rewrite take_app_length'; [|rewrite length_zip_with, !length_take, Hal, Hbl; done].
      apply be_land; auto. rewrite !length_take. lia.
  - split_and!; [done..| |].
    + split; rsimpl; [congruence| |auto]. rewrite length_zip_with, Hal, Hbl. done.
    + rewrite !take_ge by (rewrite ?length_zip_with; lia). apply be_land; auto. lia.
Qed.

Lemma bytes_cmp_0 a b : length a = length b → bytes_cmp a b = 0 ↔ a = b.
Proof.
  revert b. induction a as [|x a IH]; intros [|y b] Hl; try done. injection Hl as Hl. cbn [bytes_cmp].
  destruct (Z.eqb_spec (x - y) 0) as [E|E]; cbn [negb].
  - rewrite IH by done. replace x with y by lia. split; [by intros ->|by intros [= ->]].
  - split; [destruct (y <? x); done|intros [= -> ->]; lia].
Qed.

Lemma addr_cmp_spec a b :
  wf_addr a → wf_addr b →
  addr_cmp a b = 0 ↔ af a = af b ∧ ip a = ip b ∧ (af b = AF_INET6 → scope_id a = scope_id b).
Proof.
  intros [Haf Hal Hab] [Hbf Hbl Hbb]. unfold addr_cmp, ip. destruct (decide (af a = af b)) as [E|E].
  2: { rewrite bool_decide_false by done. cbn [negb]. split; [by case_bool_decide|by intros [? _]]. }
  rewrite bool_decide_true by done. cbn [negb]. rewrite <- E.
  assert (Hinj : ∀ n, be (take n (addr8 a)) = be (take n (addr8 b)) ↔ take n (addr8 a) = take n (addr8 b)).
  { intros n. split; [|by intros ->]. apply be_inj; auto. rewrite !length_take. lia. }
  destruct (af a); [| |done]; cbn [nbytes]; rewrite Hinj.
  - case_bool_decide as Hx; [split; [by intros _; split_and!|done]|]. split; [|by intros (_ & ? & _)]. by destruct (_ <? _).
  - destruct (Z.eqb_spec (bytes_cmp (take 16 (addr8 a)) (take 16 (addr8 b))) 0) as [Hx|Hx]; cbn [negb].
    + apply bytes_cmp_0 in Hx; [|rewrite !length_take; lia].
      destruct (Z.eqb_spec (scope_id a) (scope_id b)); [tauto|]. split; [by destruct (_ <? _)|]. intros (_ & _ & Hs). tauto.
    + split; [done|]. intros (_ & Hy & _). rewrite Hy in Hx. destruct Hx. by apply bytes_cmp_0.
Qed.

Lemma be_lnot l : bytes l → be (map (λ b, u8 (Z.lnot b)) l) = 256 ^ Z.of_nat (length l) - 1 - be l.
Proof.
  induction 1 as [|b l Hb Hl IH]; [done|]. cbn [map]. rewrite !be_cons, length_map, IH. cbn [length].
  rewrite Nat2Z.inj_succ, Z.pow_succ_r by lia. unfold is_u8 in Hb.
  assert (u8 (Z.lnot b) = 255 - b) as ->.
  { unfold u8, Z.lnot, Z.pred. change (2 ^ 8) with 256. rewrite <- (Z_mod_plus_full _ 1), Z.mod_small; lia. }
  ring.
Qed.
Lemma be_0 l : bytes l → be l = 0 ↔ forallb (Z.eqb 0) l = true.
Proof.
  induction 1 as [|b l Hb Hl IH]; [done|]. rewrite be_cons. cbn [forallb]. rewrite andb_true_iff, <- IH.
  pose proof (be_range l Hl). unfold is_u8 in Hb. rewrite Z.eqb_eq. nia.
Qed.

Lemma addr_invert_spec a :
  wf_addr a → ∃ r, addr_invert a = Some r ∧ af r = af a ∧ wf_addr r ∧ ip r = 2 ^ nbits (af a) - 1 - ip a.
Proof.
  intros [Haf Hal Hab]. unfold addr_invert, ip.
  assert (Hn : ∀ l, bytes (map (λ b, u8 (Z.lnot b)) l)).
  { intros l. apply Forall_map, Forall_true. intros b. apply u8_range. }
  destruct (af a) eqn:Ea; [| |done]; eexists; (split; [done|]); rsimpl; rewrite ?Ea; cbn [nbytes];
    (split_and!; [done| |]).
  - split; rsimpl; [congruence| |apply bytes_app; auto].
    rewrite length_app, length_map, length_take, length_drop, Hal. done.
  - rewrite take_app_length'; [|rewrite length_map, length_take, Hal; done].
    rewrite be_lnot by auto. rewrite length_take, Hal, pow256. done.
  - split; rsimpl; [congruence| |auto]. by rewrite length_map.
  - rewrite !take_ge by (rewrite ?length_map; lia). rewrite be_lnot, Hal, pow256 by auto. done.
Qed.

Lemma land_suffix x k : 0 ≤ k → Z.land x (2 ^ k - 1) = x mod 2 ^ k.
Proof. intros Hk. rewrite <- Z.land_ones by done. f_equal. rewrite Z.ones_equiv. lia. Qed.

Lemma addr_host_is_all0s_spec a l :
  wf_addr a → 0 ≤ l ≤ nbits (af a) →
  addr_host_is_all0s a l = true ↔ ip a mod 2 ^ (nbits (af a) - l) = 0.
Proof.
  intros Ha Hl. unfold addr_host_is_all0s, addr_hostmask.
  destruct (addr_netmask_spec (af a) l (wa_family _ Ha) Hl) as (m & -> & Hmf & Hm & Em). cbn [mbind option_bind].
  destruct (addr_invert_spec m Hm) as (h & -> & Hhf & Hh & Eh).
  destruct (addr_and_spec a h Ha Hh) as (r & -> & Hrf & _ & Hr & Er); [congruence|].
  rewrite Eh, Em, Hmf in Er.
  replace (2 ^ nbits (af a) - 1 - _) with (2 ^ (nbits (af a) - l) - 1) in Er by lia.
  rewrite land_suffix in Er by lia. rewrite <- Er. unfold addr_is_all0s, ip.
  pose proof (wa_bytes _ Hr). pose proof (wa_family _ Hr).
  destruct (af r) eqn:Erf; [| |done]; cbn [nbytes]; symmetry; apply be_0; auto.
Qed.

(** [addr_netmatch] is containment in the network, for a network whose host
    part is zero, as [addr_pton_cidr] requires. *)
Lemma addr_netmatch_spec host net l :
  wf_addr host → wf_addr net → 0 ≤ l ≤ nbits (af net) → addr_host_is_all0s net l = true →
  addr_netmatch host net l = 0 ↔ in_net host net l.
Proof.
  intros Hh Hn Hl H0. apply addr_host_is_all0s_spec in H0; [|done..]. unfold addr_netmatch, in_net.
  destruct (decide (af host = af net)) as [E|E]; [|rewrite bool_decide_false by done; split; [done|by intros [? _]]].
  rewrite bool_decide_true by done. cbn [negb].
  destruct (addr_netmask_spec (af host) l (wa_family _ Hh)) as (m & -> & Hmf & Hm & Em); [congruence|].
  destruct (addr_and_spec host m Hh Hm) as (r & -> & Hrf & Hs & Hr & Er); [congruence|].
  rewrite addr_cmp_spec by done. pose proof (ip_range host Hh) as Hrange.
  rewrite Er, Em, E, Hs, Hrf, land_prefix by (rewrite <- ?E; try done; rewrite E; lia).
  set (P := 2 ^ (nbits (af net) - l)) in *. assert (0 < P) by (apply Z.pow_pos_nonneg; lia).
  assert (ip net = ip net / P * P) as Hd by (pose proof (Z.div_mod (ip net) P); lia).
  assert (ip host / P * P = ip net ↔ ip host / P = ip net / P) as ->; [|tauto].
  rewrite Hd at 1. rewrite Z.mul_cancel_r by lia. done.
Qed.

(** ** The verdict of a list *)

Section Verdict.
Context (getaddrinfo : list Z → option (option sockaddr)).

(** [getaddrinfo] fills in the bytes of an address of the family it names. *)
Definition numeric_host : Prop :=
  ∀ p sa, getaddrinfo p = Some (Some sa) →
    bytes (sin_addr sa) ∧ length (sin_addr sa) = nbytes (sa_family sa).
Context (Hgai : numeric_host).

Lemma addr_pton_wf p x : addr_pton getaddrinfo p = Some x → wf_addr x.
Proof.
  unfold addr_pton. destruct (getaddrinfo p) as [[sa|]|] eqn:E; try done. apply Hgai in E as [Hb Hl].
  unfold addr_sa_to_xaddr. destruct (sa_family sa); [| |done]; destruct (_ <? _); try done; intros [= <-];
    cbn [nbytes] in Hl; (split; cbn [af addr8]; [done| |]).
  - rewrite length_app, length_take, Hl. done.
  - apply bytes_app. split; [auto|]. repeat constructor; done.
  - rewrite length_take, Hl. done.
  - auto.
Qed.

Lemma addr_pton_cidr_ok p net l :
  addr_pton_cidr getaddrinfo p = CidrOk net l →
  wf_addr net ∧ 0 ≤ l ≤ nbits (af net) ∧ addr_host_is_all0s net l = true.
Proof.
  unfold addr_pton_cidr. destruct (_ <? _)%nat; [done|].
  destruct (match strchr _ _ with None => _ | _ => _ end) as [[a m]|]; [|done].
  destruct (addr_pton getaddrinfo a) as [tmp|] eqn:E; [|done]. apply addr_pton_wf in E.
  set (masklen := u32 _). assert (0 ≤ masklen) by apply u32_range.
  destruct (masklen_valid (af tmp) masklen) eqn:Ev; [|done]. destruct (addr_host_is_all0s tmp masklen) eqn:E0; [|done].
  intros [= <- <-]. split_and!; [done|done| |done]. unfold masklen_valid in Ev. destruct (af tmp); cbn [nbits]; lia.
Qed.

Context (text : list Z) (x : xaddr).

(** An entry that is not well formed: nothing after the sign, or a network
    with a wrong mask length or a host part. *)
Definition invalid (cp : list Z) : Prop :=
  (split_neg cp).2 = [] ∨ addr_pton_cidr getaddrinfo (split_neg cp).2 = CidrInconsistent.
(** The entry, without its sign, is a network that contains the address, or is
    not a network and is a pattern that matches its text. *)
Definition covers (cp : list Z) : Prop :=
  match addr_pton_cidr getaddrinfo (split_neg cp).2 with
  | CidrOk net l => in_net x net l
  | CidrError => match_pattern text (split_neg cp).2 = true
  | CidrInconsistent => False
  end.
Definition negated (cp : list Z) : Prop := (split_neg cp).1 = true.
(** Entries that are passed over. *)
Definition passed (cp : list Z) : Prop := ¬ invalid cp ∧ ¬ (negated cp ∧ covers cp).

Lemma match_list_loop_step ret cp toks :
  wf_addr x →
  (invalid cp ∧ match_list_loop getaddrinfo (Some (text, x)) ret (cp :: toks) = -2) ∨
  (¬ invalid cp ∧ negated cp ∧ covers cp ∧ match_list_loop getaddrinfo (Some (text, x)) ret (cp :: toks) = -1) ∨
  (passed cp ∧ covers cp ∧
    match_list_loop getaddrinfo (Some (text, x)) ret (cp :: toks) = match_list_loop getaddrinfo (Some (text, x)) 1 toks) ∨
  (passed cp ∧ ¬ covers cp ∧
    match_list_loop getaddrinfo (Some (text, x)) ret (cp :: toks) = match_list_loop getaddrinfo (Some (text, x)) ret toks).
Proof.
  intros Hx. cbn [match_list_loop]. unfold passed, invalid, covers, negated.
  destruct (split_neg cp) as [neg body]. cbn [fst snd].
  destruct body as [|c body]; [by left; split; [left|]|].
  destruct (addr_pton_cidr getaddrinfo (c :: body)) as [net l| |] eqn:E.
  - apply addr_pton_cidr_ok in E as (Hn & Hl & H0).
    pose proof (addr_netmatch_spec x net l Hx Hn Hl H0) as Hm.
    destruct (Z.eqb_spec (addr_netmatch x net l) 0) as [Hz|Hz].
    + apply Hm in Hz. destruct neg; [right; left|right; right; left]; naive_solver.
    + right; right; right. assert (¬ in_net x net l) by tauto. naive_solver.
  - destruct (match_pattern text (c :: body)).
    + destruct neg; [right; left|right; right; left]; naive_solver.
    + right; right; right. naive_solver.
  - left. auto.
Qed.

Lemma match_list_loop_verdict toks : ∀ ret,
  wf_addr x →
  let r := match_list_loop getaddrinfo (Some (text, x)) ret toks in
  (∃ pre cp post, toks = pre ++ cp :: post ∧ Forall passed pre ∧
     ((r = -2 ∧ invalid cp) ∨ (r = -1 ∧ ¬ invalid cp ∧ negated cp ∧ covers cp))) ∨
  (Forall passed toks ∧ ((r = 1 ∧ Exists covers toks) ∨ (r = ret ∧ Forall (λ cp, ¬ covers cp) toks))).
Proof.
  induction toks as [|cp toks IH]; intros ret Hx r.
  { right. split; [constructor|]. right. by split. }
  destruct (match_list_loop_step ret cp toks Hx) as [[Hi E]|[(Hi & Hn & Hc & E)|[(Hp & Hc & E)|(Hp & Hc & E)]]];
    unfold r; rewrite E.
  - left. exists [], cp, toks. auto.
  - left. exists [], cp, toks. split_and!; [done|done|]. right. auto.
  - destruct (IH 1 Hx) as [(pre & cp' & post & -> & Hpre & Hr)|[Hpass Hr]].
    + left. exists (cp :: pre), cp', post. split_and!; [done|by constructor|exact Hr].
    + right. split; [by constructor|]. left. split; [|by left]. destruct Hr as [[-> _]|[-> _]]; done.
  - destruct (IH ret Hx) as [(pre & cp' & post & -> & Hpre & Hr)|[Hpass Hr]].
    + left. exists (cp :: pre), cp', post. split_and!; [done|by constructor|exact Hr].
    + right. split; [by constructor|]. destruct Hr as [[-> ?]|[-> ?]]; [left|right]; split; auto.
Qed.

(** The verdict of [addr_match_list] on an address: the first entry that
    is malformed, or negated and covering the address, decides (-2 or -1);
    without such an entry the result is 1 if some entry covers the address and
    0 if none does.  A network covers an address if the first [masklen] bits
    are equal as integers (and the scopes of IPv6 addresses are). *)
Theorem addr_match_list_verdict list :
  addr_pton getaddrinfo text = Some x →
  let r := addr_match_list getaddrinfo (Some text) list in
  (∃ pre cp post, tokens list = pre ++ cp :: post ∧ Forall passed pre ∧
     ((r = -2 ∧ invalid cp) ∨ (r = -1 ∧ ¬ invalid cp ∧ negated cp ∧ covers cp))) ∨
  (Forall passed (tokens list) ∧
     ((r = 1 ∧ Exists covers (tokens list)) ∨ (r = 0 ∧ Forall (λ cp, ¬ covers cp) (tokens list)))).
Proof.
  intros Hx r. unfold r, addr_match_list. rewrite Hx. apply match_list_loop_verdict. by eapply addr_pton_wf.
Qed.
End Verdict.

(** ** A concrete [getaddrinfo], for dotted quads *)

Module Quads.
Fixpoint quad (n : nat) (s : list Z) : option (list Z) :=
  match s with
  | c :: _ =>
      if Scanf.is_digit c then
        let '(v, r) := Scanf.digits s 0 in
        if v <? 256 then
          match n, r with
          | O, [] => Some [v]
          | S n, 46 :: r => (cons v) <$> quad n r
          | _, _ => None
          end
        else None
      else None
  | [] => None
  end.
Definition getaddrinfo (s : list Z) : option (option sockaddr) :=
  a ← quad 3 s; Some (Some (mkSockaddr AF_INET 16 a 0)).

Lemma digits_nonneg s a : 0 ≤ a → 0 ≤ (Scanf.digits s a).1.
Proof.
  revert a. induction s as [|c s IH]; intros a Ha; [done|]. cbn [Scanf.digits].
  destruct (Scanf.is_digit c) eqn:E; [|done]. apply IH. unfold Scanf.is_digit in E. lia.
Qed.
Lemma quad_wf n s a : quad n s = Some a → bytes a ∧ length a = S n.
Proof.
  revert s a. induction n as [|n IH]; intros s a; destruct s as [|c s]; try done; cbn [quad];
    destruct (Scanf.is_digit c); try done; pose proof (digits_nonneg (c :: s) 0 ltac:(done)) as Hv;
    destruct (Scanf.digits (c :: s) 0) as [v r]; cbn [fst] in Hv; destruct (Z.ltb_spec v 256); try done.
  - destruct r; [|by repeat case_match]. intros [= <-]. split; [|done]. repeat constructor; done.
  - destruct r as [|p r]; [done|]. intros E.
    destruct (quad n r) as [b|] eqn:Eq; [|by repeat case_match]. apply IH in Eq as [Hb Hl].
    assert (a = v :: b) as -> by (repeat case_match; simplify_eq/=; done).
    split; [constructor; done|]. simpl. by rewrite Hl.
Qed.
Lemma numeric : numeric_host getaddrinfo.
Proof.
  intros p sa. unfold getaddrinfo. destruct (quad 3 p) as [a|] eqn:E; [|done]. intros [= <-].
  by apply quad_wf in E as [? ?].
Qed.

Lemma addr_match_list_verdict_witness :
  ∃ pre cp post, tokens (codes "192.168.0.0/16,!10.1.0.0/16,10.0.0.0/8") = pre ++ cp :: post ∧
    negated cp ∧ covers getaddrinfo (codes "10.1.2.3") (mkXaddr AF_INET ([10; 1; 2; 3] ++ replicate 12 0) 0) cp.
Proof.
  destruct (addr_match_list_verdict getaddrinfo numeric (codes "10.1.2.3")
    (mkXaddr AF_INET ([10; 1; 2; 3] ++ replicate 12 0) 0)
    (codes "192.168.0.0/16,!10.1.0.0/16,10.0.0.0/8") eq_refl)
    as [(pre & cp & post & E & _ & [[Hr _]|(_ & _ & Hn & Hc)])|[_ [[Hr _]|[Hr _]]]].
  - vm_compute in Hr. discriminate.
  - exists pre, cp, post. split_and!; [exact E|exact Hn|exact Hc].
  - vm_compute in Hr. discriminate.
  - vm_compute in Hr. discriminate.
Defined.

(** An entry of 64 characters passes the length check and is then cut to 63:
    the last digit of this mask length is lost. *)
Example long_entry_is_cut :
  let p := codes "10.0.0.0/" ++ replicate 53 48 ++ codes "81" in
  length p = 64%nat ∧
  addr_pton_cidr getaddrinfo p = CidrOk (mkXaddr AF_INET ([10; 0; 0; 0] ++ replicate 12 0) 0) 8.
Proof. split; reflexivity. Qed.

(** A network with bits behind its mask is an error of the list, and
    [match_user] hands the error on as -1, which is not 0. *)
Example match_user_error :
  match_user getaddrinfo (codes "alice") (codes "evil.example") (codes "203.0.113.9") (codes "alice@10.0.0.1/8") = Ok (-1).
Proof. reflexivity. Qed.
End Quads.
