(* ===== verification/Auth.v ===== *)
(** * Who may log in ([auth.c], [groupaccess.c], [auth-shadow.c], [auth-passwd.c])

    The account data base, the shadow file, the groups, the file system, the
    clock and [crypt] are the class [System].  The build is the one without
    PAM, Kerberos and BSD authentication; the forms of a locked password, which
    differ between platforms, are the record [platform].  The contents of
    [loginmsg] stand for the buffer. *)

From S2P Require Import Prelude ByteOrder Buffer Stdio Match AddrMatch.

Record passwd := mkPasswd {
  pw_name : list Z;
  pw_passwd : list Z;
  pw_uid : Z;
  pw_gid : Z;
  pw_gecos : list Z;
  pw_dir : list Z;
  pw_shell : list Z
}.
#[export] Instance passwd_eq_dec : EqDecision passwd.
Proof. solve_decision. Defined.

Record spwd := mkSpwd { sp_pwdp : list Z; sp_lstchg : Z; sp_max : Z; sp_warn : Z; sp_expire : Z }.

Inductive permit_root := PERMIT_NO | PERMIT_FORCED_ONLY | PERMIT_NO_PASSWD | PERMIT_YES.

(** The options of [servconf.h] that authentication looks at. *)
Record ServerOptions := mkServerOptions {
  permit_root_login : permit_root;
  chroot_directory : option (list Z);
  deny_users : list (list Z);
  allow_users : list (list Z);
  deny_groups : list (list Z);
  allow_groups : list (list Z);
  max_authtries : Z;
  permit_empty_passwd : bool;
  password_authentication : bool;
  pubkey_authentication : bool;
  hostbased_authentication : bool;
  kbd_interactive_authentication : bool;
  challenge_response_authentication : bool;
  rsa_authentication : bool;
  rhosts_rsa_authentication : bool;
  banner : option (list Z)
}.

Record platform := mkPlatform {
  locked_passwd_string : option (list Z);
  locked_passwd_prefix : option (list Z);
  locked_passwd_substr : option (list Z)
}.

(** The operating system and the connection. *)
Class System := {
  getpwnam : list Z → option passwd;
  getspnam : list Z → option spwd;
  stat_mode : list Z → option Z;
  getgrouplist : list Z → Z → list Z;
  getgrgid : Z → option (list Z);
  ngroups_max : Z;
  time_now : Z;
  crypt : list Z → list Z → list Z;
  getaddrinfo_numeric : list Z → option (option sockaddr);
  canonical_hostname : list Z;
  remote_ipaddr : list Z;
  privsep_pw : option passwd
}.

(** The global variables of these files. *)
Record authg := mkAuthg {
  loginmsg : list Z;
  groups_byname : list (list Z);
  expire_checked : bool;
  force_pwchange : bool;
  no_forwarding_flags : bool
}.
#[export] Instance eta_authg : Eta authg := λ s,
  {| loginmsg := loginmsg s; groups_byname := groups_byname s; expire_checked := expire_checked s;
     force_pwchange := force_pwchange s; no_forwarding_flags := no_forwarding_flags s |}.

Definition DAY : Z := 24 * 60 * 60.
Definition S_IFMT : Z := 0xf000.
Definition S_IFREG : Z := 0x8000.
Definition S_ISREG (mode : Z) : bool := Z.land mode S_IFMT =? S_IFREG.
Definition S_IXALL : Z := 0x49.
Definition _PATH_BSHELL : list Z := Eval vm_compute in codes "/bin/sh".

(** [strncmp(s, p, strlen(p)) == 0], [strstr(s, p) != NULL], [strcasecmp]. *)
Definition has_prefix (p s : list Z) : bool := bool_decide (take (length p) s = p).
Fixpoint has_substr (p s : list Z) : bool :=
  has_prefix p s || match s with [] => false | _ :: s' => has_substr p s' end.
Definition strcasecmp_is (a b : list Z) : bool := bool_decide (map tolower a = map tolower b).

Section Auth.
Context `{System} (plat : platform) (options : ServerOptions).

Definition days_text (what : list Z) (daysleft : Z) : list Z :=
  codes "Your " ++ what ++ codes " will expire in " ++ Scanf.dec daysleft ++ codes " day" ++
  (if daysleft =? 1 then [] else codes "s") ++ codes "." ++ [10].

Definition auth_shadow_acctexpired (spw : spwd) : M authg bool :=
  let today := Z.quot time_now DAY in
  let daysleft := i32 (sp_expire spw - today) in
  if sp_expire spw =? -1 then mret false
  else if daysleft <? 0 then mret true
  else if daysleft <=? sp_warn spw then
    _ ← modify (λ s, s <| loginmsg := loginmsg s ++ days_text (codes "account") daysleft |>);
    mret false
  else mret false.

Definition auth_shadow_pwexpired (user : list Z) : M authg bool :=
  match getspnam user with
  | None => mret false
  | Some spw =>
      let today := Z.quot time_now DAY in
      let daysleft := i32 (sp_lstchg spw + sp_max spw - today) in
      if sp_lstchg spw =? 0 then mret true
      else if sp_max spw =? -1 then mret false
      else if daysleft <? 0 then mret true
      else if daysleft <=? sp_warn spw then
        _ ← modify (λ s, s <| loginmsg := loginmsg s ++ days_text (codes "password") daysleft |>);
        mret false
      else mret false
  end.

(** ** Groups *)

Definition ga_free : M authg unit := modify (λ s, s <| groups_byname := [] |>).

(** [getgrouplist] stores as many groups as there is room for but reports how
    many there are; the loop goes up to the reported number. *)
Definition ga_init (user : list Z) (base : Z) : M authg Z :=
  let gs := getgrouplist user base in
  if ngroups_max <? Z.of_nat (length gs) then λ _, Fault
  else
    let names := omap getgrgid gs in
    _ ← modify (λ s, s <| groups_byname := names |>);
    mret (Z.of_nat (length names)).

Definition ga_match (groups : list (list Z)) : M authg bool :=
  gets (λ s, existsb (λ name, existsb (λ g, match_pattern name g) groups) (groups_byname s)).

(** The result -1 is returned at once, 1 is remembered. *)
Fixpoint ga_mpl_loop (names : list (list Z)) (pattern : list Z) (found : bool) : outcome bool :=
  match names with
  | [] => Ok found
  | n :: names =>
      r ← match_pattern_list n pattern (Z.of_nat (length pattern)) false;
      if r =? -1 then Ok false
      else if r =? 1 then ga_mpl_loop names pattern true else ga_mpl_loop names pattern found
  end.
Definition ga_match_pattern_list (pattern : list Z) : M authg bool :=
  names ← gets groups_byname; liftO (ga_mpl_loop names pattern false).

(** ** [allowed_user] *)

Definition is_locked (p : list Z) : bool :=
  (match locked_passwd_string plat with Some l => bool_decide (p = l) | None => false end) ||
  (match locked_passwd_prefix plat with Some l => has_prefix l p | None => false end) ||
  (match locked_passwd_substr plat with Some l => has_substr l p | None => false end).

Definition shell_ok (pw : passwd) : bool :=
  match stat_mode (match pw_shell pw with [] => _PATH_BSHELL | s => s end) with
  | None => false
  | Some mode => S_ISREG mode && negb (Z.land mode S_IXALL =? 0)
  end.

(** Some pattern of the list gives a value other than 0. *)
Fixpoint user_listed (name : list Z) (l : list (list Z)) : outcome bool :=
  match l with
  | [] => Ok false
  | p :: l =>
      r ← match_user getaddrinfo_numeric name canonical_hostname remote_ipaddr p;
      if negb (r =? 0) then Ok true else user_listed name l
  end.

Definition not_chrooting : bool :=
  match chroot_directory options with None => true | Some d => strcasecmp_is d (codes "none") end.

(** The checks of the groups, at the end of [allowed_user]. *)
Definition allowed_groups (pw : passwd) : M authg bool :=
  if bool_decide (deny_groups options = []) && bool_decide (allow_groups options = []) then mret true
  else
    n ← ga_init (pw_name pw) (pw_gid pw);
    if n =? 0 then mret false
    else
      denied ← (if bool_decide (deny_groups options = []) then mret false else ga_match (deny_groups options));
      if denied : bool then _ ← ga_free; mret false
      else
        ok ← (if bool_decide (allow_groups options = []) then mret true else ga_match (allow_groups options));
        _ ← ga_free; mret ok.

Definition allowed_user (pw : passwd) : M authg bool :=
  let spw := getspnam (pw_name pw) in
  expired ← (match spw with Some spw => auth_shadow_acctexpired spw | None => mret false end);
  if expired : bool then mret false
  else
    let p := match spw with Some spw => sp_pwdp spw | None => pw_passwd pw end in
    if negb (bool_decide (p = [])) && is_locked p then mret false
    else if not_chrooting && negb (shell_ok pw) then mret false
    else
      denied ← liftO (user_listed (pw_name pw) (deny_users options));
      if denied : bool then mret false
      else
        listed ← liftO (if bool_decide (allow_users options = []) then Ok true
                        else user_listed (pw_name pw) (allow_users options));
        if negb listed then mret false else allowed_groups pw.

Definition auth_root_allowed (forced_command : bool) (method : list Z) : bool :=
  match permit_root_login options with
  | PERMIT_YES => true
  | PERMIT_NO_PASSWD => negb (bool_decide (method = codes "password"))
  | PERMIT_FORCED_ONLY => forced_command
  | PERMIT_NO => false
  end.

(** [getpwnamallow] after the options have been set for the user. *)
Definition getpwnamallow (user : list Z) : M authg (option passwd) :=
  match getpwnam user with
  | None => mret None
  | Some pw => ok ← allowed_user pw; mret (if ok : bool then Some pw else None)
  end.

Definition fakepw : passwd :=
  {| pw_name := codes "NOUSER"; pw_passwd := codes "$2a$06$r3.juUaHZDlIbQaO2dS9FuYxL1W9M81R1Tc92PoSNmzvpEqLkLGrK";
     pw_uid := match privsep_pw with None => 2 ^ 32 - 1 | Some p => pw_uid p end;
     pw_gid := match privsep_pw with None => 2 ^ 32 - 1 | Some p => pw_gid p end;
     pw_gecos := codes "NOUSER"; pw_dir := codes "/nonexist"; pw_shell := codes "/nonexist" |}.

(** ** Passwords *)

Definition shadow_pw (pw : passwd) : list Z :=
  match getspnam (pw_name pw) with Some spw => sp_pwdp spw | None => pw_passwd pw end.

(** Two characters of salt are wanted. *)
Definition has_salt (p : list Z) : bool := match p with _ :: _ :: _ => true | _ => false end.

Definition sys_auth_passwd (valid : bool) (pw : passwd) (password : list Z) : bool :=
  let pw_password := if valid then shadow_pw pw else pw_passwd pw in
  if bool_decide (pw_password = []) && bool_decide (password = []) then true
  else bool_decide (crypt password (if has_salt pw_password then pw_password else codes "xx") = pw_password).

Definition disable_forwarding : M authg unit := modify (λ s, s <| no_forwarding_flags := true |>).

Definition auth_password (valid : bool) (pw : passwd) (password : list Z) : M authg bool :=
  let ok := if (pw_uid pw =? 0) && (match permit_root_login options with PERMIT_YES => false | _ => true end)
            then false else valid in
  if bool_decide (password = []) && negb (permit_empty_passwd options) then mret false
  else
    checked ← gets expire_checked;
    _ ← when (negb checked) (
          _ ← modify (λ s, s <| expire_checked := true |>);
          expired ← auth_shadow_pwexpired (pw_name pw);
          when expired (modify (λ s, s <| force_pwchange := true |>)));
    let result := sys_auth_passwd valid pw password in
    force ← gets force_pwchange;
    _ ← when force disable_forwarding;
    mret (result && ok).

(** ** The policy *)

(** The verdict of one pattern of [AllowUsers] or [DenyUsers]: anything but 0,
    the value -1 for a malformed list of addresses included. *)
Definition listed (name : list Z) (p : list Z) : Prop :=
  ∃ r, match_user getaddrinfo_numeric name canonical_hostname remote_ipaddr p = Ok r ∧ r ≠ 0.
Definition in_group (pw : passwd) (patterns : list (list Z)) : Prop :=
  ∃ gid name p, gid ∈ getgrouplist (pw_name pw) (pw_gid pw) ∧ getgrgid gid = Some name ∧ p ∈ patterns ∧
    match_pattern name p = true.
Definition has_group (pw : passwd) : Prop :=
  ∃ gid name, gid ∈ getgrouplist (pw_name pw) (pw_gid pw) ∧ getgrgid gid = Some name.

Definition password_field (pw : passwd) : list Z := shadow_pw pw.

(** What the manual page says about who may log in. *)
Record permitted (pw : passwd) : Prop := {
  pe_expiry : ∀ spw, getspnam (pw_name pw) = Some spw →
    sp_expire spw = -1 ∨ 0 ≤ i32 (sp_expire spw - Z.quot time_now DAY);
  pe_locked : password_field pw ≠ [] → is_locked (password_field pw) = false;
  pe_shell : not_chrooting = true → shell_ok pw = true;
  pe_deny : ∀ p, p ∈ deny_users options → ¬ listed (pw_name pw) p;
  pe_allow : allow_users options ≠ [] → ∃ p, p ∈ allow_users options ∧ listed (pw_name pw) p;
  pe_group : deny_groups options ≠ [] ∨ allow_groups options ≠ [] → has_group pw;
  pe_deny_group : ¬ in_group pw (deny_groups options);
  pe_allow_group : allow_groups options ≠ [] → in_group pw (allow_groups options)
}.

Lemma match_user_total name p : ∃ r, match_user getaddrinfo_numeric name canonical_hostname remote_ipaddr p = Ok r.
Proof.
  unfold match_user, match_host_and_ip, match_hostname. destruct (strchr C_at p) as [[a b]|]; [|eauto].
  destruct (match_pattern name a); [|eauto]. destruct (_ =? -2); [eauto|]. destruct (_ =? -1); [eauto|].
  destruct (match_pattern_list_total canonical_hostname b (Z.of_nat (length b)) true) as [r ->].
  cbn [mbind outcome_bind]. repeat case_match; eauto.
Qed.

Lemma user_listed_spec name l :
  ∃ b, user_listed name l = Ok b ∧ (b = true ↔ ∃ p, p ∈ l ∧ listed name p).
Proof.
  induction l as [|p l (b & E & Hb)]; cbn [user_listed].
  - exists false. split; [done|]. split; [done|]. intros (p & Hp & _). by apply elem_of_nil in Hp.
  - destruct (match_user_total name p) as [r Er]. rewrite Er. cbn [mbind outcome_bind].
    destruct (Z.eqb_spec r 0) as [->|Hr]; cbn [negb].
    + exists b. split; [done|]. rewrite Hb. setoid_rewrite elem_of_cons. split; [naive_solver|].
      intros (q & [->|Hq] & Hl); [|eauto]. destruct Hl as (r & Er2 & Hr). congruence.
    + exists true. split; [done|]. split; [|done]. intros _. exists p. split; [by left|]. by exists r.
Qed.

Lemma acctexpired_spec spw s :
  ∃ b s', auth_shadow_acctexpired spw s = Ok (b, s') ∧
    (b = false ↔ sp_expire spw = -1 ∨ 0 ≤ i32 (sp_expire spw - Z.quot time_now DAY)).
Proof.
  unfold auth_shadow_acctexpired. destruct (Z.eqb_spec (sp_expire spw) (-1)); [by exists false, s; split; [|tauto]|].
  destruct (Z.ltb_spec (i32 (sp_expire spw - Z.quot time_now DAY)) 0); [exists true, s; split; [done|]; split; [done|lia]|].
  destruct (_ <=? _); eexists false, _; (split; [reflexivity|]; split; [by right|done]).
Qed.

Definition groups_of (pw : passwd) : list (list Z) := omap getgrgid (getgrouplist (pw_name pw) (pw_gid pw)).

Lemma ga_match_spec pw patterns s :
  groups_byname s = groups_of pw →
  ∃ b, ga_match patterns s = Ok (b, s) ∧ (b = true ↔ in_group pw patterns).
Proof.
  intros E. eexists. split; [reflexivity|]. rewrite E. rewrite existsb_exists. unfold in_group, groups_of.
  split.
  - intros (name & Hn & Hp). apply list_elem_of_In, list_elem_of_omap in Hn as (gid & Hg & Hn).
    apply existsb_exists in Hp as (p & Hp & Hm). apply list_elem_of_In in Hp. eauto 10.
  - intros (gid & name & p & Hg & Hn & Hp & Hm). exists name. split.
    + apply list_elem_of_In, list_elem_of_omap. eauto.
    + apply existsb_exists. exists p. by rewrite <- list_elem_of_In.
Qed.

Lemma in_group_nil pw : ¬ in_group pw [].
Proof. intros (? & ? & p & _ & _ & Hp & _). by apply elem_of_nil in Hp. Qed.

Lemma allowed_groups_spec pw s :
  Z.of_nat (length (getgrouplist (pw_name pw) (pw_gid pw))) ≤ ngroups_max →
  ∃ b s', allowed_groups pw s = Ok (b, s') ∧
    (b = true ↔ (deny_groups options ≠ [] ∨ allow_groups options ≠ [] → has_group pw) ∧
                ¬ in_group pw (deny_groups options) ∧
                (allow_groups options ≠ [] → in_group pw (allow_groups options))).
Proof.
  intros Hn. unfold allowed_groups.
  destruct (decide (deny_groups options = [] ∧ allow_groups options = [])) as [[-> ->]|Hne].
  { exists true, s. split; [done|]. split; [|done]. intros _. split_and!; [naive_solver|apply in_group_nil|done]. }
  assert (bool_decide (deny_groups options = []) && bool_decide (allow_groups options = []) = false) as ->.
  { do 2 case_bool_decide; try done. tauto. }
  unfold ga_init. zdec. mstep. fold (groups_of pw).
  assert (Hg : has_group pw ↔ groups_of pw ≠ []).
  { unfold has_group, groups_of. split.
    - intros (gid & name & Hg & Hnm) Ho. assert (name ∈ omap getgrgid (getgrouplist (pw_name pw) (pw_gid pw))) as Hx
        by (apply list_elem_of_omap; eauto). rewrite Ho in Hx. by apply elem_of_nil in Hx.
    - destruct (omap getgrgid _) as [|name names] eqn:Eo; [done|]. intros _.
      assert (name ∈ omap getgrgid (getgrouplist (pw_name pw) (pw_gid pw))) as Hx by (rewrite Eo; by left).
      apply list_elem_of_omap in Hx as (gid & ? & ?). eauto. }
  destruct (Z.eqb_spec (Z.of_nat (length (groups_of pw))) 0) as [H0|H0].
  { exists false, (s <| groups_byname := groups_of pw |>). split; [done|]. split; [done|]. intros (Hh & _).
    destruct (proj1 Hg); [|by destruct (groups_of pw)]. apply Hh. destruct (deny_groups options); [right|by left].
    intros Ha. tauto. }
  assert (has_group pw) as Hh by (apply Hg; by intros E; rewrite E in H0).
  set (s1 := s <| groups_byname := groups_of pw |>). assert (Hs1 : groups_byname s1 = groups_of pw) by done.
  assert (∃ d, (if bool_decide (deny_groups options = []) then mret false else ga_match (deny_groups options)) s1 = Ok (d, s1) ∧
               (d = true ↔ in_group pw (deny_groups options))) as (d & Ed & Hd).
  { case_bool_decide as Hde; [|by apply ga_match_spec]. exists false. split; [done|]. rewrite Hde. split; [done|].
    by intros ?%in_group_nil. }
  mstep_by Ed. clear Ed. destruct d.
  { mstep. eexists false, _. split; [done|]. split; [done|]. intros (_ & Hnd & _). tauto. }
  assert (∃ a, (if bool_decide (allow_groups options = []) then mret true else ga_match (allow_groups options)) s1 = Ok (a, s1) ∧
               (a = true ↔ (allow_groups options ≠ [] → in_group pw (allow_groups options)))) as (a & Ea & Ha).
  { case_bool_decide as Hae.
    - by exists true.
    - destruct (ga_match_spec pw (allow_groups options) s1 Hs1) as (a & Ea & Ha). exists a. split; [done|]. tauto. }
  mstep_by Ea. mstep. eexists a, _. split; [done|]. rewrite Ha. split; [|tauto]. intros Hal. split_and!; [done| |done].
  intros Hx. by apply Hd in Hx.
Qed.

(** C25: [allowed_user] always gives an answer, if the groups of the user fit
    into their array, and lets a user in exactly if the account has not
    expired and is not locked, the shell can be executed (unless the session
    is in a chroot), and the lists of denied and allowed users and groups
    permit it, where a malformed address list counts as a match. *)
Theorem allowed_user_policy pw s :
  Z.of_nat (length (getgrouplist (pw_name pw) (pw_gid pw))) ≤ ngroups_max →
  ∃ b s', allowed_user pw s = Ok (b, s') ∧ (b = true ↔ permitted pw).
Proof.
  intros Hn. unfold allowed_user.
  assert (∃ e s1, (match getspnam (pw_name pw) with Some spw => auth_shadow_acctexpired spw | None => mret false end) s = Ok (e, s1) ∧
    (e = false ↔ ∀ spw, getspnam (pw_name pw) = Some spw → sp_expire spw = -1 ∨ 0 ≤ i32 (sp_expire spw - Z.quot time_now DAY)))
    as (e & s1 & Ee & He).
  { destruct (getspnam (pw_name pw)) as [spw|].
    - destruct (acctexpired_spec spw s) as (b & s' & E & Hb). exists b, s'. split; [done|]. rewrite Hb. naive_solver.
    - exists false, s. by split. }
  mstep_by Ee. destruct e.
  { exists false, s1. split; [done|]. split; [done|]. intros Hp. by discriminate (proj2 He (pe_expiry _ Hp)). }
  change (match getspnam (pw_name pw) with Some spw => sp_pwdp spw | None => pw_passwd pw end) with (password_field pw).
  destruct (negb (bool_decide (password_field pw = [])) && is_locked (password_field pw)) eqn:Hl.
  { exists false, s1. split; [done|]. split; [done|]. intros Hp. apply andb_true_iff in Hl as [Hl1 Hl2].
    rewrite (pe_locked _ Hp) in Hl2; [done|]. by case_bool_decide. }
  destruct (not_chrooting && negb (shell_ok pw)) eqn:Hsh.
  { exists false, s1. split; [done|]. split; [done|]. intros Hp. apply andb_true_iff in Hsh as [Hc Hs].
    by rewrite (pe_shell _ Hp) in Hs. }
  destruct (user_listed_spec (pw_name pw) (deny_users options)) as (d & Ed & Hd).
  mstep_by (liftO_Ok _ _ s1 Ed). destruct d.
  { exists false, s1. split; [done|]. split; [done|]. intros Hpe. destruct (proj1 Hd eq_refl) as (p & Hp & Hx).
    by destruct (pe_deny _ Hpe p Hp). }
  assert (∃ a, (if bool_decide (allow_users options = []) then Ok true else user_listed (pw_name pw) (allow_users options)) = Ok a ∧
    (a = true ↔ (allow_users options ≠ [] → ∃ p, p ∈ allow_users options ∧ listed (pw_name pw) p))) as (a & Ea & Ha).
  { destruct (decide (allow_users options = [])) as [Hae|Hae]; [rewrite bool_decide_true by done; by exists true|].
    rewrite bool_decide_false by done. destruct (user_listed_spec (pw_name pw) (allow_users options)) as (a & Ea & Ha). exists a. split; [done|]. tauto. }
  mstep_by (liftO_Ok _ _ s1 Ea). destruct a; cbn [negb].
  2: { exists false, s1. split; [done|]. split; [done|]. intros Hp. by discriminate (proj2 Ha (pe_allow _ Hp)). }
  destruct (allowed_groups_spec pw s1 Hn) as (b & s2 & E & Hb). exists b, s2. split; [done|]. rewrite Hb.
  split; [intros (Hg1 & Hg2 & Hg3)|by intros []]. split; [by apply He| | | |by apply Ha|done..].
  - intros Hne. destruct (is_locked (password_field pw)); [|done]. by rewrite bool_decide_false in Hl.
  - intros Hc. rewrite Hc in Hsh. by destruct (shell_ok pw).
  - intros p Hp Hx. assert (false = true) as Hf; [|done]. apply Hd. eauto.
Qed.

(** A password is accepted only for a valid user, for root only where the
    configuration lets root use passwords, an empty one only where these are
    permitted, and only if its encryption is the one on record (or the record
    and the password are both empty). *)
Theorem auth_password_sound valid pw password s s' :
  auth_password valid pw password s = Ok (true, s') →
  valid = true ∧ (pw_uid pw = 0 → permit_root_login options = PERMIT_YES) ∧
  (password = [] → permit_empty_passwd options = true) ∧
  (crypt password (if has_salt (shadow_pw pw) then shadow_pw pw else codes "xx") = shadow_pw pw ∨
   (shadow_pw pw = [] ∧ password = [])).
Proof.
  unfold auth_password. destruct (bool_decide (password = []) && negb (permit_empty_passwd options)) eqn:Hp; [done|].
  intros E. apply M_bind_inv in E as (c & s1 & _ & E). apply M_bind_inv in E as (u & s2 & _ & E).
  apply M_bind_inv in E as (f & s3 & _ & E). apply M_bind_inv in E as (u' & s4 & _ & E).
  injection E as E _. apply andb_true_iff in E as [Er Eo].
  assert (valid = true) as -> by (destruct valid; [done|]; by destruct (pw_uid pw =? 0), (permit_root_login options)). split_and!; [done| | |].
  - intros Hu. rewrite Hu in Eo. by destruct (permit_root_login options).
  - intros ->. rewrite bool_decide_true in Hp by done. by destruct (permit_empty_passwd options).
  - unfold sys_auth_passwd in Er. destruct (bool_decide (shadow_pw pw = []) && bool_decide (password = [])) eqn:E2.
    + apply andb_true_iff in E2 as [H1%bool_decide_eq_true H2%bool_decide_eq_true]. by right.
    + apply bool_decide_eq_true in Er. by left.
Qed.
End Auth.

Module AuthDemo.
Definition alice : passwd := mkPasswd (codes "alice") (codes "x") 1000 100 [] (codes "/home/alice") [].
Definition demo : System := {|
  getpwnam := λ n, if bool_decide (n = codes "alice") then Some alice else None;
  getspnam := λ _, Some (mkSpwd (codes "ab#secret") 17000 99999 7 (-1));
  stat_mode := λ _, Some 0x81ed;
  getgrouplist := λ _ g, [g; 27];
  getgrgid := λ g, if g =? 100 then Some (codes "users") else if g =? 27 then Some (codes "sudo") else None;
  ngroups_max := 65536;
  time_now := 1500000000;
  crypt := λ p salt, take 2 salt ++ codes "#" ++ p;
  getaddrinfo_numeric := Quads.getaddrinfo;
  canonical_hostname := codes "evil.example";
  remote_ipaddr := codes "203.0.113.9";
  privsep_pw := None
|}.
Definition plat : platform := mkPlatform None (Some (codes "!")) None.
Definition opts (allow : list (list Z)) : ServerOptions :=
  mkServerOptions PERMIT_NO_PASSWD None [] allow [] [codes "users"] 6 false true true false true true true false None.
Definition g0 : authg := mkAuthg [] [] false false false.

Lemma allowed_user_policy_witness :
  ∃ b s', @allowed_user demo plat (opts [codes "a*"]) alice g0 = Ok (b, s') ∧ (b = true ↔ @permitted demo plat (opts [codes "a*"]) alice).
Proof. apply (@allowed_user_policy demo plat (opts [codes "a*"]) alice g0). apply Z.leb_le. vm_compute. reflexivity. Defined.

Lemma auth_password_sound_witness :
  @auth_password demo (opts []) true alice (codes "secret") g0 = Ok (true, g0 <| expire_checked := true |>) ∧
  @crypt demo (codes "secret") (codes "ab#secret") = codes "ab#secret".
Proof.
  assert (E : @auth_password demo (opts []) true alice (codes "secret") g0 = Ok (true, g0 <| expire_checked := true |>))
    by (vm_compute; reflexivity).
  split; [exact E|].
  destruct (@auth_password_sound demo (opts []) true alice (codes "secret") g0 _ E) as (_ & _ & _ & [Hc|[_ Hc]]);
    [exact Hc|discriminate Hc].
Defined.

(** The entry of [AllowUsers] is malformed (the network has bits behind its
    mask); [match_user] returns -1, which [allowed_user] takes for a match, so
    the user may come from any address. *)
Example malformed_allow_users_admits :
  @match_user Quads.getaddrinfo (codes "alice") (codes "evil.example") (codes "203.0.113.9") (codes "alice@10.0.0.1/8") = Ok (-1) ∧
  @allowed_user demo plat (opts [codes "alice@10.0.0.1/8"]) alice g0 = Ok (true, g0) ∧
  @allowed_user demo plat (opts [codes "alice@10.0.0.0/8"]) alice g0 = Ok (false, g0).
Proof. split_and!; vm_compute; reflexivity. Qed.
End AuthDemo.
