(* ===== verification/Auth2.v ===== *)
(** * User authentication of protocol 2 ([auth2.c] and its methods)

    The dispatch table of the authentication phase, the request handler, the
    methods none, password, publickey, hostbased and keyboard-interactive, and
    the accounting of failures.  What decides about passwords, keys and
    responses is the class [Backend]: its answers may depend on the number of
    the message that is being handled.  The theorems: a connection that is let
    in has shown evidence for its user, and the number of failures is limited
    ([Auth2Proofs.v]). *)

From S2P Require Import Prelude ByteOrder Buffer Crc32 Deattack Stdio SuperTrace HashMap Csbuflo.
From S2P Require Import CipherMac Packet PacketWrite PacketRead Dispatch Match Nchan Kex AddrMatch Auth.

Definition SSH2_MSG_SERVICE_REQUEST : Z := 5.
Definition SSH2_MSG_SERVICE_ACCEPT : Z := 6.
Definition SSH2_MSG_USERAUTH_REQUEST : Z := 50.
Definition SSH2_MSG_USERAUTH_FAILURE : Z := 51.
Definition SSH2_MSG_USERAUTH_SUCCESS : Z := 52.
Definition SSH2_MSG_USERAUTH_BANNER : Z := 53.
Definition SSH2_MSG_USERAUTH_PK_OK : Z := 60.
Definition SSH2_MSG_USERAUTH_INFO_REQUEST : Z := 60.
Definition SSH2_MSG_USERAUTH_INFO_RESPONSE : Z := 61.
Definition SSH_BUG_PKSERVICE : Z := 0x2.
Definition SSH_OLD_SESSIONID : Z := 0x10.
Definition SSH_BUG_PKAUTH : Z := 0x20.
Definition SSH_BUG_BANNER : Z := 0x80.
Definition SSH_BUG_HBSERVICE : Z := 0x10000.

(** What the methods ask: the account data base, password checking, the
    authorized keys, signatures, and the keyboard-interactive devices.  The
    first argument is the number of the message.  These are total functions:
    the ends of the process inside of [key_from_blob] and [key_verify] (modelled
    in [Keys.v]) and of the reading of [authorized_keys] are not followed here,
    where such an end would only cut the dialogue short. *)
Class Backend := {
  key : Type;
  key_type_of : key → Z;
  key_from_blob : list Z → option key;
  b_getpwnamallow : nat → list Z → option passwd;
  b_fakepw : passwd;
  b_auth_password : nat → bool → passwd → option (list Z) → list Z → Z;
  (* the second component: the key has a forced command *)
  b_user_key_allowed : nat → passwd → key → Z * bool;
  b_hostbased_key_allowed : nat → passwd → list Z → list Z → key → Z;
  b_key_verify : nat → key → list Z → list Z → Z;
  b_read_banner : option (list Z);
  device : Type;
  devices : list device;
  dev_name : device → list Z;
  dev_ctx : Type;
  dev_init_ctx : nat → device → bool → list Z → option dev_ctx;
  (* name, instruction and the prompts with their echo flags *)
  dev_query : nat → device → dev_ctx → option (list Z * list Z * list (list Z * Z)) * dev_ctx;
  dev_respond : nat → device → dev_ctx → list (list Z) → Z * dev_ctx
}.

Inductive handler := input_service_request_h | input_userauth_request_h | input_info_response_h
  | protocol_error_h | protocol_ignore_h.

Section Auth2.
Context `{Backend}.

Record KbdintAuthctxt := mkKbdint { kd_devices : option (list Z); kd_ctxt : option dev_ctx; kd_device : option device; kd_nreq : Z }.

Record Authctxt := mkAuthctxt {
  success : bool;
  postponed : bool;
  valid : bool;
  attempt : Z;
  failures : Z;
  server_caused_failure : bool;
  user : option (list Z);
  service : option (list Z);
  pw : option passwd;
  style : option (list Z);
  kbdintctxt : option KbdintAuthctxt
}.

(** The connection in the authentication phase; [now] counts its messages. *)
Record auth := mkAuth {
  authctxt : Authctxt;
  none_enabled : bool;
  forced_command : bool;
  table : list (option handler);
  packet : Buffer;
  outbox : list msg;
  informed : list (list Z * option (list Z));    (* mm_inform_authserv *)
  now : nat
}.
#[export] Instance eta_KbdintAuthctxt : Eta KbdintAuthctxt := λ k,
  {| kd_devices := kd_devices k; kd_ctxt := kd_ctxt k; kd_device := kd_device k; kd_nreq := kd_nreq k |}.
#[export] Instance eta_Authctxt : Eta Authctxt := λ a,
  {| success := success a; postponed := postponed a; valid := valid a; attempt := attempt a; failures := failures a;
     server_caused_failure := server_caused_failure a; user := user a; service := service a; pw := pw a;
     style := style a; kbdintctxt := kbdintctxt a |}.
#[export] Instance eta_auth : Eta auth := λ s,
  {| authctxt := authctxt s; none_enabled := none_enabled s; forced_command := forced_command s; table := table s;
     packet := packet s; outbox := outbox s; informed := informed s; now := now s |}.

Context (options : ServerOptions) (datafellows : Z) (session_id2 : list Z) (use_privsep : bool).

Definition getA {A} (f : Authctxt → A) : M auth A := gets (λ s, f (authctxt s)).
Definition modA (f : Authctxt → Authctxt) : M auth unit := modify (λ s, s <| authctxt := f (authctxt s) |>).
Definition fatalA {A} (e : string) : M auth A := λ _, Fatal e.
Definition disconnectA {A} (e : string) : M auth A := λ _, Disconnect e.
Definition faultA {A} : M auth A := λ _, Fault.
(** A pointer that is used without a check. *)
Definition derefA {A} (f : Authctxt → option A) : M auth A :=
  o ← getA f; match o with Some a => mret a | None => faultA end.
Definition sendA (type : Z) (items : list Items.item) : M auth unit :=
  modify (λ s, s <| outbox := outbox s ++ [mkMsg type items] |>).
Definition set_handler (type : Z) (f : option handler) : M auth unit :=
  t ← gets table; t ← liftO (dispatch_set type f t); modify (λ s, s <| table := t |>).

(** Reading the packet; strings are also used as C strings. *)
Definition get_packet {A} (f : Buffer → outcome (A * Buffer)) : M auth A :=
  b ← gets packet; '(a, b) ← liftO (f b); _ ← modify (λ s, s <| packet := b |>); mret a.
Definition get_string : M auth (list Z) := get_packet buffer_get_string.
Definition get_cstring : M auth (list Z) := s ← get_packet buffer_get_cstring; mret (cstr s).
Definition get_char : M auth Z := get_packet buffer_get_char.
Definition get_int : M auth Z := get_packet buffer_get_int.
Definition check_eom : M auth unit :=
  b ← gets packet; if 0 <? i32 (buffer_len b) then disconnectA "Packet integrity error." else skip.

(** [PRIVSEP(...)]: the question and the number of the message. *)
Definition ask {A} (f : nat → A) : M auth A := t ← gets now; mret (f t).

(** ** Banner *)

Definition userauth_send_banner (m : list Z) : M auth unit :=
  if has_bug datafellows SSH_BUG_BANNER then skip
  else sendA SSH2_MSG_USERAUTH_BANNER [Items.CString m; Items.CString []].
Definition userauth_banner : M auth unit :=
  match banner options with
  | None => skip
  | Some b =>
      if strcasecmp_is b (codes "none") || has_bug datafellows SSH_BUG_BANNER then skip
      else match b_read_banner with None => skip | Some m => userauth_send_banner m end
  end.

(** ** The methods *)

Inductive method := m_none | m_pubkey | m_passwd | m_kbdint | m_hostbased.
Definition authmethods : list method := [m_none; m_pubkey; m_passwd; m_kbdint; m_hostbased].
Definition method_name (m : method) : list Z :=
  match m with
  | m_none => codes "none" | m_pubkey => codes "publickey" | m_passwd => codes "password"
  | m_kbdint => codes "keyboard-interactive" | m_hostbased => codes "hostbased"
  end.
Definition method_enabled (none_enabled : bool) (m : method) : bool :=
  match m with
  | m_none => none_enabled
  | m_pubkey => pubkey_authentication options
  | m_passwd => password_authentication options
  | m_kbdint => kbd_interactive_authentication options
  | m_hostbased => hostbased_authentication options
  end.

(** The names of the enabled methods but none, with commas. *)
Definition authmethods_get : M auth (list Z) :=
  ne ← gets none_enabled;
  mret (namelist (map method_name
    (filter (λ m, negb (bool_decide (method_name m = codes "none")) && method_enabled ne m) authmethods))).

Definition authmethod_lookup (name : list Z) : M auth (option method) :=
  ne ← gets none_enabled;
  mret (List.find (λ m, method_enabled ne m && bool_decide (name = method_name m)) authmethods).

Definition auth_clear_options : M auth unit := modify (λ s, s <| forced_command := false |>).

Definition auth_password_m (password : list Z) : M auth Z :=
  v ← getA valid; p ← derefA pw; st ← getA style;
  ask (λ t, b_auth_password t v p st password).

Definition userauth_none : M auth Z :=
  _ ← modify (λ s, s <| none_enabled := false |>);
  _ ← check_eom;
  if permit_empty_passwd options && password_authentication options then auth_password_m [] else mret 0.

Definition userauth_passwd : M auth Z :=
  change ← get_char;
  password ← get_string;
  _ ← when (negb (change =? 0)) (_ ← get_string; skip);
  _ ← check_eom;
  if negb (change =? 0) then mret 0
  else r ← auth_password_m (cstr password); mret (b2z (r =? 1)).

(** The data that a signature covers: the session and the request. *)
Definition session_items : list Items.item := [Items.String session_id2].
Definition signed_pubkey (u sv : list Z) (have_sig : Z) (pkalg pkblob : list Z) : outcome Buffer :=
  b ← (if has_bug datafellows SSH_OLD_SESSIONID then buffer_append buffer_init session_id2
       else Items.puts buffer_init session_items);
  Items.puts b (
    [Items.Char SSH2_MSG_USERAUTH_REQUEST; Items.CString u;
     Items.CString (if has_bug datafellows SSH_BUG_PKSERVICE then codes "ssh-userauth" else sv)] ++
    (if has_bug datafellows SSH_BUG_PKAUTH then [Items.Char have_sig]
     else [Items.CString (codes "publickey"); Items.Char have_sig; Items.CString (cstr pkalg)]) ++
    [Items.String pkblob]).
Definition signed_hostbased (u sv pkalg pkblob chost cuser : list Z) : outcome Buffer :=
  Items.puts buffer_init (session_items ++
    [Items.Char SSH2_MSG_USERAUTH_REQUEST; Items.CString u; Items.CString sv; Items.CString (codes "hostbased");
     Items.String pkalg; Items.String pkblob; Items.CString (cstr chost); Items.CString (cstr cuser)]).

(** The decoded key, if it is of the announced type. *)
Definition decode_key (pkalg pkblob : list Z) : option key :=
  let pktype := key_type_from_name (cstr pkalg) in
  if pktype =? KEY_UNSPEC then None
  else k ← key_from_blob pkblob; if key_type_of k =? pktype then Some k else None.

Definition user_key_allowed_m (k : key) : M auth bool :=
  p ← derefA pw;
  '(r, forced) ← ask (λ t, b_user_key_allowed t p k);
  _ ← modify (λ s, s <| forced_command := forced |>);
  mret (negb (r =? 0)).
Definition key_verify_m (k : key) (sig : list Z) (b : Buffer) : M auth bool :=
  data ← liftO (peek_bytes b (buffer_len b));
  r ← ask (λ t, b_key_verify t k sig data);
  mret (r =? 1).

Definition userauth_pubkey : M auth Z :=
  v ← getA valid;
  if negb v then mret 0
  else
    have_sig ← get_char;
    '(pkalg, pkblob) ← (if has_bug datafellows SSH_BUG_PKAUTH then
        pkblob ← get_string;
        b ← liftO (buffer_append buffer_init pkblob);
        '(pkalg, _) ← liftO (buffer_get_string b);
        mret (pkalg, pkblob)
      else pkalg ← get_string; pkblob ← get_string; mret (pkalg, pkblob));
    match decode_key pkalg pkblob with
    | None => mret 0
    | Some k =>
        authenticated ← (if negb (have_sig =? 0) then
            sig ← get_string;
            _ ← check_eom;
            u ← derefA user; sv ← derefA service;
            b ← liftO (signed_pubkey u sv have_sig pkalg pkblob);
            allowed ← user_key_allowed_m k;
            if allowed : bool then ok ← key_verify_m k sig b; mret (b2z ok) else mret 0
          else
            _ ← check_eom;
            allowed ← user_key_allowed_m k;
            _ ← when allowed (
                  _ ← sendA SSH2_MSG_USERAUTH_PK_OK [Items.String pkalg; Items.String pkblob];
                  modA (λ a, a <| postponed := true |>));
            mret 0);
        _ ← when (negb (authenticated =? 1)) auth_clear_options;
        mret authenticated
    end.

Definition userauth_hostbased : M auth Z :=
  v ← getA valid;
  if negb v then mret 0
  else
    pkalg ← get_string;
    pkblob ← get_string;
    chost ← get_string;
    cuser ← get_string;
    sig ← get_string;
    match decode_key pkalg pkblob with
    | None => mret 0
    | Some k =>
        u ← derefA user; sv ← derefA service;
        b ← liftO (signed_hostbased u (if has_bug datafellows SSH_BUG_HBSERVICE then codes "ssh-userauth" else sv)
                     pkalg pkblob chost cuser);
        p ← derefA pw;
        allowed ← ask (λ t, b_hostbased_key_allowed t p (cstr cuser) (cstr chost) k);
        if negb (allowed =? 0) then ok ← key_verify_m k sig b; mret (b2z ok) else mret 0
    end.

(** ** Keyboard-interactive ([auth2-chall.c]) *)

Definition kbdint_alloc (devs : list Z) : KbdintAuthctxt :=
  mkKbdint (Some (match devs with [] => namelist (map dev_name devices) | _ => devs end)) None None 0.

(** [kbdint_reset_device] *)
Definition kbdint_reset_device (k : KbdintAuthctxt) : KbdintAuthctxt := k <| kd_ctxt := None |> <| kd_device := None |>.

(** [strncmp(devs, name, len) == 0] for the characters before the comma. *)
Definition dev_matches (tok : list Z) (d : device) : bool := bool_decide (tok = take (length tok) (dev_name d)).

(** The loop of [kbdint_next_device]: the last device that matches wins. *)
Fixpoint next_device (fuel : nat) (k : KbdintAuthctxt) : outcome KbdintAuthctxt :=
  match fuel with
  | O => NoFuel
  | S fuel =>
      match kd_devices k with
      | None => Ok k
      | Some devs =>
          let '(tok, rest) := strsep devs in
          match tok with
          | [] => Ok k
          | _ =>
              let d := match List.find (dev_matches tok) (rev devices) with Some d => Some d | None => kd_device k end in
              let k := k <| kd_device := d |> <| kd_devices := rest |> in
              match rest, d with
              | Some _, None => next_device fuel k
              | _, _ => Ok k
              end
          end
      end
  end.
Definition kbdint_next_device (k : KbdintAuthctxt) : outcome KbdintAuthctxt :=
  let k := match kd_device k with Some _ => kbdint_reset_device k | None => k end in
  next_device (S (match kd_devices k with Some d => length d | None => 0 end)) k.

Definition auth2_challenge_stop : M auth unit :=
  _ ← set_handler SSH2_MSG_USERAUTH_INFO_RESPONSE None;
  modA (λ a, a <| kbdintctxt := None |>).

(** The context, the device and the context of the device in use. *)
Definition kbdint_in_use : M auth (KbdintAuthctxt * device * dev_ctx) :=
  k ← derefA kbdintctxt;
  match kd_device k, kd_ctxt k with
  | Some d, Some c => mret (k, d, c)
  | _, _ => faultA
  end.

Definition send_userauth_info_request : M auth bool :=
  '(k, d, c) ← kbdint_in_use;
  '(q, c) ← ask (λ t, dev_query t d c);
  match q with
  | None => _ ← modA (λ a, a <| kbdintctxt := Some (k <| kd_ctxt := Some c |>) |>); mret false
  | Some (name, instr, prompts) =>
      let nreq := u32 (Z.of_nat (length prompts)) in
      _ ← modA (λ a, a <| kbdintctxt := Some (k <| kd_ctxt := Some c |> <| kd_nreq := nreq |>) |>);
      _ ← sendA SSH2_MSG_USERAUTH_INFO_REQUEST
            ([Items.CString name; Items.CString instr; Items.CString []; Items.Int nreq] ++
             concat (map (λ '(p, e), [Items.CString p; Items.Char e]) prompts));
      mret true
  end.

Definition auth2_challenge_start : M auth unit :=
  k ← derefA kbdintctxt;
  k ← liftO (kbdint_next_device k);
  match kd_device k with
  | None => auth2_challenge_stop
  | Some d =>
      u ← derefA user; v ← getA valid;
      c ← ask (λ t, dev_init_ctx t d v u);
      _ ← modA (λ a, a <| kbdintctxt := Some (k <| kd_ctxt := c |>) |>);
      match c with
      | None => auth2_challenge_stop
      | Some _ =>
          ok ← send_userauth_info_request;
          if negb ok then auth2_challenge_stop
          else
            _ ← set_handler SSH2_MSG_USERAUTH_INFO_RESPONSE (Some input_info_response_h);
            modA (λ a, a <| postponed := true |>)
      end
  end.

(** [auth2_challenge] returns 0 in every case. *)
Definition auth2_challenge (devs : list Z) : M auth Z :=
  u ← getA user;
  match u with
  | None => mret 0
  | Some _ =>
      k ← getA kbdintctxt;
      _ ← when (match k with None => true | Some _ => false end) (modA (λ a, a <| kbdintctxt := Some (kbdint_alloc devs) |>));
      _ ← auth2_challenge_start;
      mret 0
  end.

Definition userauth_kbdint : M auth Z :=
  _ ← get_string;
  devs ← get_string;
  _ ← check_eom;
  if challenge_response_authentication options then auth2_challenge (cstr devs) else mret 0.

Definition userauth (m : method) : M auth Z :=
  match m with
  | m_none => userauth_none
  | m_pubkey => userauth_pubkey
  | m_passwd => userauth_passwd
  | m_kbdint => userauth_kbdint
  | m_hostbased => userauth_hostbased
  end.

(** ** The result of a request *)

Definition root_refused (authenticated : Z) (name : list Z) : M auth bool :=
  if authenticated =? 0 then mret false
  else
    p ← derefA pw;
    f ← gets forced_command;
    mret ((pw_uid p =? 0) && negb (auth_root_allowed options f name)).

Definition userauth_finish (authenticated : Z) (name : list Z) : M auth unit :=
  v ← getA valid;
  if negb v && negb (authenticated =? 0) then fatalA "INTERNAL ERROR: authenticated invalid user"
  else
    refused ← root_refused authenticated name;
    let authenticated := if refused : bool then 0 else authenticated in
    p ← getA postponed;
    if p : bool then skip
    else if authenticated =? 1 then
      _ ← set_handler SSH2_MSG_USERAUTH_REQUEST (Some protocol_ignore_h);
      _ ← sendA SSH2_MSG_USERAUTH_SUCCESS [];
      modA (λ a, a <| success := true |>)
    else
      _ ← modA (λ a, if negb (server_caused_failure a) && ((1 <? attempt a) || negb (bool_decide (name = codes "none")))
                     then a <| failures := i32 (failures a + 1) |> else a);
      f ← getA failures;
      if max_authtries options <=? f then disconnectA "Too many authentication failures"
      else
        methods ← authmethods_get;
        sendA SSH2_MSG_USERAUTH_FAILURE [Items.CString methods; Items.Char 0].

(** ** The handlers *)

Definition input_service_request : M auth unit :=
  sv ← get_cstring;
  _ ← check_eom;
  succ ← getA success;
  if bool_decide (sv = codes "ssh-userauth") && negb succ then
    _ ← set_handler SSH2_MSG_USERAUTH_REQUEST (Some input_userauth_request_h);
    sendA SSH2_MSG_SERVICE_ACCEPT [Items.CString sv]
  else disconnectA "bad service request".

(** [strchr(user, ':')]: user and style. *)
Definition split_style (u : list Z) : list Z * option (list Z) :=
  match strchr 58 u with None => (u, None) | Some (a, b) => (a, Some b) end.

(** The first request sets up the context, the others have to agree with it. *)
Definition setup_authctxt (u sv : list Z) (st : option (list Z)) : M auth unit :=
  p ← ask (λ t, b_getpwnamallow t u);
  _ ← modA (λ a, a <| user := Some u |>);
  _ ← match p with
      | Some p =>
          if bool_decide (sv = codes "ssh-connection")
          then modA (λ a, a <| pw := Some p |> <| valid := true |>)
          else modA (λ a, a <| pw := Some b_fakepw |>)
      | None => modA (λ a, a <| pw := Some b_fakepw |>)
      end;
  _ ← modA (λ a, a <| service := Some sv |> <| style := st |>);
  _ ← when use_privsep (modify (λ s, s <| informed := informed s ++ [(sv, st)] |>));
  userauth_banner.
Definition same_authctxt (u sv : list Z) : M auth unit :=
  u0 ← derefA user; sv0 ← derefA service;
  if bool_decide (u = u0) && bool_decide (sv = sv0) then skip
  else disconnectA "Change of username or service not allowed".

Definition input_userauth_request : M auth unit :=
  us ← get_cstring;
  sv ← get_cstring;
  name ← get_cstring;
  let '(u, st) := split_style us in
  n ← getA attempt;
  _ ← modA (λ a, a <| attempt := i32 (attempt a + 1) |>);
  _ ← (if n =? 0 then setup_authctxt u sv st else same_authctxt u sv);
  _ ← auth2_challenge_stop;
  _ ← modA (λ a, a <| postponed := false |> <| server_caused_failure := false |>);
  m ← authmethod_lookup name;
  f ← getA failures;
  authenticated ← (match m with
                   | Some m => if f <? max_authtries options then userauth m else mret 0
                   | None => mret 0
                   end);
  userauth_finish authenticated name.

(** The responses of [input_userauth_info_response]. *)
Fixpoint get_responses (n : nat) : M auth (list (list Z)) :=
  match n with
  | O => mret []
  | S n => r ← get_string; rs ← get_responses n; mret (cstr r :: rs)
  end.

Definition input_userauth_info_response : M auth unit :=
  k ← getA kbdintctxt;
  match k with
  | None => fatalA "input_userauth_info_response: no kbdintctxt"
  | Some k =>
      match kd_ctxt k, kd_device k with
      | None, _ => fatalA "input_userauth_info_response: no kbdintctxt"
      | _, None => fatalA "input_userauth_info_response: no device"
      | Some c, Some d =>
          _ ← modA (λ a, a <| postponed := false |>);
          nresp ← get_int;
          if negb (nresp =? kd_nreq k) then fatalA "input_userauth_info_response: wrong number of replies"
          else if 100 <? nresp then fatalA "input_userauth_info_response: too many replies"
          else
            rs ← get_responses (Z.to_nat nresp);
            _ ← check_eom;
            '(res, c) ← ask (λ t, dev_respond t d c rs);
            _ ← modA (λ a, a <| kbdintctxt := Some (k <| kd_ctxt := Some c |>) |>);
            v ← getA valid;
            let authenticated := if res =? 0 then b2z v else 0 in
            _ ← when (res =? 1) (
                  ok ← send_userauth_info_request;
                  when ok (modA (λ a, a <| postponed := true |>)));
            p ← getA postponed;
            _ ← when (negb p) (if negb (authenticated =? 0) then auth2_challenge_stop else auth2_challenge_start);
            userauth_finish authenticated (codes "keyboard-interactive/" ++ dev_name d)
      end
  end.

(** ** The loop *)

Definition run_handler (h : handler) (seq : Z) : M auth unit :=
  match h with
  | input_service_request_h => input_service_request
  | input_userauth_request_h => input_userauth_request
  | input_info_response_h => input_userauth_info_response
  | protocol_error_h => sendA SSH2_MSG_UNIMPLEMENTED [Items.Int seq]
  | protocol_ignore_h => skip
  end.

(** One round of [dispatch_run] on a message: its type, sequence number and
    payload. *)
Definition message : Type := Z * Z * list Z.
Definition round (m : message) : M auth unit :=
  let '(type, seq, payload) := m in
  b ← liftO (buffer_append buffer_init payload);
  _ ← modify (λ s, s <| packet := b |> <| now := S (now s) |>);
  t ← gets table;
  match dispatch_lookup type t with
  | Some h => run_handler h seq
  | None => disconnectA "protocol error"
  end.

(** [do_authentication2]: rounds until [success]; the state when the messages
    are used up is the state of the waiting server. *)
Fixpoint rounds (ms : list message) : M auth unit :=
  match ms with
  | [] => skip
  | m :: ms => s ← getA success; if s : bool then skip else _ ← round m; rounds ms
  end.
Definition auth_init : auth :=
  mkAuth (mkAuthctxt false false false 0 0 false None None None None None) true false
    (<[Z.to_nat SSH2_MSG_SERVICE_REQUEST := Some input_service_request_h]> (dispatch_init (Some protocol_error_h)))
    buffer_init [] [] 0.
Definition do_authentication2 (ms : list message) : outcome auth := '(_, s) ← rounds ms auth_init; Ok s.
End Auth2.
