(* ===== verification/Auth2Proofs.v ===== *)
(** * User authentication of protocol 2: theorems

    [evidence] is what a client has to show under a method.  An invariant of
    the authentication phase connects the context with the account data base;
    from it and from the methods it follows that a connection is let in only on
    evidence.  The other theorems count the failures. *)

From S2P Require Import Prelude ByteOrder Buffer Crc32 Deattack Stdio SuperTrace HashMap Csbuflo.
From S2P Require Import CipherMac Packet PacketWrite PacketRead Dispatch Match Nchan Kex AddrMatch Auth Auth2.

Section Proofs.
Context `{Backend} (options : ServerOptions) (datafellows : Z) (session_id2 : list Z) (use_privsep : bool).

(** ** What the methods leave alone *)

Definition failures_sent (l : list msg) : nat := length (filter (λ m, m_type_of m = SSH2_MSG_USERAUTH_FAILURE) l).

(** The part of the state that only the request handler changes. *)
Definition core (s : auth) :=
  let a := authctxt s in
  (success a, valid a, attempt a, failures a, server_caused_failure a, user a, service a, pw a, style a, now s,
   length (table s), failures_sent (outbox s)).

Lemma failures_sent_app l k : failures_sent (l ++ k) = (failures_sent l + failures_sent k)%nat.
Proof. unfold failures_sent. by rewrite filter_app, length_app. Qed.

Lemma sendA_core type items : type ≠ SSH2_MSG_USERAUTH_FAILURE → keeps core (sendA type items).
Proof.
  intros Ht. apply keeps_modify. intros s. unfold core. rsimpl. rewrite failures_sent_app. unfold failures_sent at 2.
  rewrite filter_cons_False, filter_nil by done. cbn [length]. by rewrite Nat.add_0_r.
Qed.
Lemma set_handler_core type f : keeps core (set_handler type f).
Proof.
  intros s a s' E. apply M_bind_inv in E as (t & s1 & [= <- <-] & E). apply M_bind_inv in E as (t' & s2 & E2 & [= <- <-]).
  apply bind_Ok in E2 as (t1 & E2 & [= -> <-]). unfold core. rsimpl. f_equal. f_equal.
  unfold dispatch_set, zset in E2. destruct (_ || _); [done|]. injection E2 as <-. apply length_insert.
Qed.
Lemma modA_core f : (∀ a, success (f a) = success a ∧ valid (f a) = valid a ∧ attempt (f a) = attempt a ∧ failures (f a) = failures a ∧
    server_caused_failure (f a) = server_caused_failure a ∧ user (f a) = user a ∧ service (f a) = service a ∧ pw (f a) = pw a ∧
    style (f a) = style a) → keeps core (modA f).
Proof.
  intros Hf. apply keeps_modify. intros s. unfold core. rsimpl. destruct (Hf (authctxt s)) as (-> & -> & -> & -> & -> & -> & -> & -> & ->). done.
Qed.
#[local] Hint Resolve set_handler_core : keeps.
#[local] Hint Extern 1 (keeps core (sendA _ _)) => (apply sendA_core; discriminate) : keeps.
#[local] Hint Extern 1 (keeps core (modA _)) => (apply modA_core; intros ?; done) : keeps.

Ltac core_of f := unfold f; keep.
Lemma get_packet_core {A} (f : Buffer → outcome (A * Buffer)) : keeps core (get_packet f).
Proof. core_of @get_packet. Qed.
#[local] Hint Resolve get_packet_core : keeps.
Lemma get_string_core : keeps core get_string.
Proof. apply get_packet_core. Qed.
Lemma check_eom_core : keeps core check_eom.
Proof. core_of @check_eom. Qed.
Lemma derefA_core {A} (f : Authctxt → option A) : keeps core (derefA f).
Proof. unfold derefA, getA, faultA. keep. Qed.
Lemma ask_core {A} (f : nat → A) : keeps core (ask f).
Proof. core_of @ask. Qed.
#[local] Hint Resolve get_string_core check_eom_core (@derefA_core) (@ask_core) : keeps.
Lemma stop_core : keeps core auth2_challenge_stop.
Proof. core_of @auth2_challenge_stop. Qed.
Lemma info_request_core : keeps core send_userauth_info_request.
Proof. unfold send_userauth_info_request, kbdint_in_use, faultA. keep. Qed.
#[local] Hint Resolve stop_core info_request_core : keeps.
Lemma start_core : keeps core auth2_challenge_start.
Proof. unfold auth2_challenge_start, getA. keep. Qed.
#[local] Hint Resolve start_core : keeps.
Lemma auth_password_core pwd : keeps core (auth_password_m pwd).
Proof. unfold auth_password_m, getA. keep. Qed.
Lemma user_key_core k : keeps core (user_key_allowed_m k).
Proof. core_of @user_key_allowed_m. Qed.
Lemma key_verify_core k sig b : keeps core (key_verify_m k sig b).
Proof. core_of @key_verify_m. Qed.
#[local] Hint Resolve auth_password_core user_key_core key_verify_core : keeps.

Lemma userauth_core m : keeps core (userauth options datafellows session_id2 m).
Proof.
  destruct m; unfold userauth, userauth_none, userauth_passwd, userauth_pubkey, userauth_hostbased, userauth_kbdint,
    auth2_challenge, get_char, auth_clear_options, getA; keep.
Qed.

(** ** The keyboard-interactive context *)

(** A context exists only if the configuration has the method, and its device
    is one of the table. *)
Definition kbd_ok (s : auth) : Prop :=
  ∀ k, kbdintctxt (authctxt s) = Some k →
    kbd_interactive_authentication options = true ∧ challenge_response_authentication options = true ∧
    ∀ d, kd_device k = Some d → d ∈ devices.

Definition kbd (s : auth) := kbdintctxt (authctxt s).

Lemma set_handler_kbd type f : keeps kbd (set_handler type f).
Proof. unfold set_handler. keep. Qed.
Lemma get_packet_kbd {A} (f : Buffer → outcome (A * Buffer)) : keeps kbd (get_packet f).
Proof. unfold get_packet. keep. Qed.
Lemma check_eom_kbd : keeps kbd check_eom.
Proof. unfold check_eom. keep. Qed.
Lemma derefA_kbd {A} (f : Authctxt → option A) : keeps kbd (derefA f).
Proof. unfold derefA, getA, faultA. keep. Qed.
Lemma ask_kbd {A} (f : nat → A) : keeps kbd (ask f).
Proof. unfold ask. keep. Qed.
Lemma sendA_kbd type items : keeps kbd (sendA type items).
Proof. unfold sendA. keep. Qed.
#[local] Hint Resolve set_handler_kbd (@get_packet_kbd) check_eom_kbd (@derefA_kbd) (@ask_kbd) sendA_kbd : keeps.
Lemma modA_kbd f : (∀ a, kbdintctxt (f a) = kbdintctxt a) → keeps kbd (modA f).
Proof. intros Hf. apply keeps_modify. intros s. apply Hf. Qed.
#[local] Hint Extern 1 (keeps kbd (modA _)) => (apply modA_kbd; intros ?; done) : keeps.

Lemma userauth_kbd m : m ≠ m_kbdint → keeps kbd (userauth options datafellows session_id2 m).
Proof.
  intros Hm. destruct m; try done; unfold userauth, userauth_none, userauth_passwd, userauth_pubkey, userauth_hostbased,
    auth_password_m, user_key_allowed_m, key_verify_m, get_char, get_string, auth_clear_options, getA; keep.
Qed.

Definition kbd_moves {A} (m : M auth A) : Prop := moves (λ s s', kbd_ok s → kbd_ok s') m.
#[local] Instance kbd_preorder : PreOrder (λ s s', kbd_ok s → kbd_ok s').
Proof. split; [by intros s|intros ???; tauto]. Qed.

Lemma kbd_moves_keeps {A} (m : M auth A) : keeps kbd m → kbd_moves m.
Proof. apply moves_keeps. intros s s' E Hs k Hk. apply Hs. unfold kbd in E. by rewrite <- E. Qed.
Lemma kbd_moves_stop : kbd_moves auth2_challenge_stop.
Proof.
  intros s a s' E _. apply M_bind_inv in E as (? & s1 & _ & [= _ <-]). intros k Hk. unfold kbdintctxt in Hk. done.
Qed.

Lemma next_device_devices fuel k k' :
  next_device fuel k = Ok k' → (∀ d, kd_device k = Some d → d ∈ devices) → (∀ d, kd_device k' = Some d → d ∈ devices).
Proof.
  revert k. induction fuel as [|fuel IH]; intros k; cbn [next_device]; [done|].
  destruct (kd_devices k) as [devs|]; [|by intros [= <-]].
  destruct (strsep devs) as [tok rest]. destruct tok as [|c tok]; [by intros [= <-]|].
  set (d := match List.find _ _ with Some d => _ | None => _ end).
  intros E Hk. assert (Hd : ∀ x, d = Some x → x ∈ devices).
  { unfold d. destruct (List.find _ _) as [y|] eqn:Ef; [|exact Hk]. intros x [= <-].
    apply find_some in Ef as [Hin _]. by apply in_rev, list_elem_of_In in Hin. }
  destruct rest, d; try (injection E as <-; rsimpl; exact Hd). exact (IH _ E Hd).
Qed.
Lemma kbdint_next_devices k k' :
  kbdint_next_device k = Ok k' → (∀ d, kd_device k = Some d → d ∈ devices) → (∀ d, kd_device k' = Some d → d ∈ devices).
Proof.
  unfold kbdint_next_device. intros E Hk. eapply next_device_devices; [exact E|]. intros d.
  destruct (kd_device k) eqn:Ed; [done|]. by rewrite Ed.
Qed.

(** Replacing the context by one with a device of the table. *)
Lemma kbd_moves_set k :
  (∀ d, kd_device k = Some d → d ∈ devices) →
  kbd_interactive_authentication options = true → challenge_response_authentication options = true →
  kbd_moves (modA (λ a, a <| kbdintctxt := Some k |>)).
Proof. intros Hk H1 H2 s a s' [= _ <-] _ k' Hk'. rsimpl_in Hk'. injection Hk' as <-. auto. Qed.

Lemma derefA_inv {A} (f : Authctxt → option A) s a s' : derefA f s = Ok (a, s') → s' = s ∧ f (authctxt s) = Some a.
Proof.
  intros E. apply M_bind_inv in E as (o & s1 & [= <- <-] & E). destruct (f (authctxt s)); [|done].
  injection E as <- <-. done.
Qed.
Lemma ask_inv {A} (f : nat → A) s a s' : ask f s = Ok (a, s') → s' = s ∧ a = f (now s).
Proof. by intros [= <- <-]. Qed.
Lemma kbdint_in_use_inv s k d c s' :
  kbdint_in_use s = Ok (k, d, c, s') → s' = s ∧ kbdintctxt (authctxt s) = Some k ∧ kd_device k = Some d.
Proof.
  intros E. apply M_bind_inv in E as (k1 & s1 & [-> Ek]%derefA_inv & E).
  destruct (kd_device k1) eqn:Ed; [|done]. destruct (kd_ctxt k1); [|done]. by injection E as <- <- <- <-.
Qed.

Lemma kbd_moves_info_request : kbd_moves send_userauth_info_request.
Proof.
  intros s r s' E Hs. apply M_bind_inv in E as ([[k d] c] & s1 & (-> & Ek & Ed)%kbdint_in_use_inv & E).
  destruct (Hs k Ek) as (H1 & H2 & Hd).
  apply M_bind_inv in E as ([q c'] & s1 & [-> Eq]%ask_inv & E). destruct q as [[[name instr] prompts]|].
  - apply M_bind_inv in E as ([] & s1 & E1 & E). eapply (kbd_moves_keeps (sendA _ _ ≫= λ _, mret true));
      [apply keeps_bind; [apply sendA_kbd|intros; apply keeps_ret]|exact E|].
    eapply kbd_moves_set; [|exact H1|exact H2|exact E1|exact Hs]. exact Hd.
  - apply M_bind_inv in E as ([] & s1 & E1 & [= <- <-]).
    eapply kbd_moves_set; [|exact H1|exact H2|exact E1|exact Hs]. exact Hd.
Qed.

Lemma kbd_moves_start : kbd_moves auth2_challenge_start.
Proof.
  intros s r s' E Hs. apply M_bind_inv in E as (k & s1 & [-> Ek]%derefA_inv & E).
  destruct (Hs k Ek) as (H1 & H2 & Hd).
  apply M_bind_inv in E as (k' & s1 & E1 & E). apply bind_Ok in E1 as (k1 & Ek' & [= -> <-]).
  pose proof (kbdint_next_devices _ _ Ek' Hd) as Hd'.
  destruct (kd_device k') as [d|] eqn:Ed; [|by eapply kbd_moves_stop].
  apply M_bind_inv in E as (u & s1 & [-> _]%derefA_inv & E). apply M_bind_inv in E as (v & s1 & [= <- <-] & E).
  apply M_bind_inv in E as (c & s1 & [-> Ec]%ask_inv & E). apply M_bind_inv in E as ([] & s1 & E1 & E).
  assert (kbd_ok s1) as Hs1.
  { eapply kbd_moves_set; [|exact H1|exact H2|exact E1|exact Hs]. rsimpl. by rewrite Ed. }
  destruct c; [|by eapply kbd_moves_stop]. apply M_bind_inv in E as (ok & s2 & E2 & E).
  assert (kbd_ok s2) as Hs2 by (by eapply kbd_moves_info_request). destruct ok; cbn [negb] in E; [|by eapply kbd_moves_stop].
  eapply kbd_moves_keeps; [|exact E|exact Hs2]. keep.
Qed.

Lemma kbd_moves_userauth m :
  method_enabled options true m = true → kbd_moves (userauth options datafellows session_id2 m).
Proof.
  intros Hm. destruct m; try (apply kbd_moves_keeps, userauth_kbd; done).
  unfold userauth, userauth_kbdint, kbd_moves.
  apply moves_bind; [apply _|apply kbd_moves_keeps; apply get_packet_kbd|intros _].
  apply moves_bind; [apply _|apply kbd_moves_keeps; apply get_packet_kbd|intros devs].
  apply moves_bind; [apply _|apply kbd_moves_keeps; apply check_eom_kbd|intros _].
  destruct (challenge_response_authentication options) eqn:Hc; [|apply moves_ret, _].
  unfold auth2_challenge. apply moves_bind; [apply _|apply moves_gets, _|intros u].
  destruct u; [|apply moves_ret, _]. apply moves_bind; [apply _|apply moves_gets, _|intros k].
  apply moves_bind; [apply _| |intros _].
  - apply moves_when; [apply _|]. intros _. by apply kbd_moves_set.
  - apply moves_bind; [apply _|apply kbd_moves_start|intros _]. apply moves_ret, _.
Qed.

(** ** Evidence *)

(** What a client has to have shown under the method [name], for the context
    [a] that its first request set up. *)
Inductive evidence (a : Authctxt) : list Z → Prop :=
| ev_password name t p password :
    name = codes "password" ∨ (name = codes "none" ∧ password = [] ∧ permit_empty_passwd options = true) →
    password_authentication options = true → pw a = Some p →
    b_auth_password t (valid a) p (style a) password = 1 → evidence a name
| ev_pubkey t p u sv k sig have_sig pkalg pkblob b data :
    pubkey_authentication options = true → pw a = Some p → user a = Some u → service a = Some sv →
    key_from_blob pkblob = Some k → (b_user_key_allowed t p k).1 ≠ 0 →
    signed_pubkey datafellows session_id2 u sv have_sig pkalg pkblob = Ok b →
    peek_bytes b (buffer_len b) = Ok data → b_key_verify t k sig data = 1 → evidence a (codes "publickey")
| ev_hostbased t p u sv k sig pkalg pkblob chost cuser b data :
    hostbased_authentication options = true → pw a = Some p → user a = Some u → service a = Some sv →
    key_from_blob pkblob = Some k → b_hostbased_key_allowed t p (cstr cuser) (cstr chost) k ≠ 0 →
    signed_hostbased session_id2 u (if has_bug datafellows SSH_BUG_HBSERVICE then codes "ssh-userauth" else sv)
      pkalg pkblob chost cuser = Ok b →
    peek_bytes b (buffer_len b) = Ok data → b_key_verify t k sig data = 1 → evidence a (codes "hostbased")
| ev_kbdint t d c responses :
    kbd_interactive_authentication options = true → challenge_response_authentication options = true →
    d ∈ devices → (dev_respond t d c responses).1 = 0 → evidence a (codes "keyboard-interactive/" ++ dev_name d).

(** The context of the user in [core]. *)
Definition ident (s : auth) := (user (authctxt s), service (authctxt s), pw (authctxt s), valid (authctxt s), style (authctxt s)).
Lemma ident_core {A} (m : M auth A) : keeps core m → keeps ident m.
Proof.
  intros Hm s a s' E. apply Hm in E. unfold core in E. unfold ident. injection E. intros. congruence.
Qed.
Ltac same_ident E := match type of E with
  | ?m ?s = Ok (_, ?s') => let K := fresh "K" in assert (K : ident s' = ident s) by
      (eapply (ident_core m); [solve [keep]|exact E]) end.
(** One statement of the code, with the context kept. *)
Ltac run E := let x := fresh "x" in let s1 := fresh "s1" in let E1 := fresh "E" in
  apply M_bind_inv in E as (x & s1 & E1 & E); cbv beta iota in E; same_ident E1;
  try match goal with K : ident ?p = ident _, K' : ident _ = ident ?p |- _ => rewrite K in K'; clear K; rename K' into K end.

Lemma ident_fields s s' : ident s' = ident s →
  user (authctxt s') = user (authctxt s) ∧ service (authctxt s') = service (authctxt s) ∧ pw (authctxt s') = pw (authctxt s) ∧
  valid (authctxt s') = valid (authctxt s) ∧ style (authctxt s') = style (authctxt s).
Proof. unfold ident. by intros [= -> -> -> -> ->]. Qed.

Lemma auth_password_evidence password s r s' :
  auth_password_m password s = Ok (r, s') →
  ∃ t p, pw (authctxt s) = Some p ∧ r = b_auth_password t (valid (authctxt s)) p (style (authctxt s)) password.
Proof.
  intros E. apply M_bind_inv in E as (v & s1 & [= <- <-] & E). apply M_bind_inv in E as (p & s1 & [-> Ep]%derefA_inv & E).
  apply M_bind_inv in E as (st & s1 & [= <- <-] & E). apply ask_inv in E as [-> ->]. eauto.
Qed.
Lemma key_verify_evidence k sig b s ok s' :
  key_verify_m k sig b s = Ok (ok, s') →
  ∃ t data, s' = s ∧ t = now s ∧ peek_bytes b (buffer_len b) = Ok data ∧ ok = (b_key_verify t k sig data =? 1).
Proof.
  intros E. apply M_bind_inv in E as (data & s1 & E1 & E). apply bind_Ok in E1 as (d & Ed & [= -> <-]).
  apply M_bind_inv in E as (r & s1 & [-> ->]%ask_inv & [= <- <-]). eauto 10.
Qed.
Lemma user_key_evidence k s r s' :
  user_key_allowed_m k s = Ok (r, s') →
  ∃ p, pw (authctxt s) = Some p ∧ r = negb ((b_user_key_allowed (now s) p k).1 =? 0) ∧ now s' = now s.
Proof.
  intros E. apply M_bind_inv in E as (p & s1 & [-> Ep]%derefA_inv & E).
  apply M_bind_inv in E as ([x f] & s1 & [-> Ex]%ask_inv & E). apply M_bind_inv in E as ([] & s1 & [= <-] & [= <- <-]).
  exists p. rewrite <- Ex. done.
Qed.

Lemma decode_key_blob pkalg pkblob k : decode_key pkalg pkblob = Some k → key_from_blob pkblob = Some k.
Proof.
  unfold decode_key. destruct (_ =? _); [done|]. destruct (key_from_blob pkblob) as [k'|]; [|done].
  cbn [mbind option_bind]. destruct (_ =? _); [|done]. by intros [= ->].
Qed.

Lemma userauth_none_evidence s s' :
  userauth_none options s = Ok (1, s') → evidence (authctxt s) (codes "none").
Proof.
  intros E. unfold userauth_none in E. apply M_bind_inv in E as ([] & s1 & [= <-] & E). run E.
  destruct (permit_empty_passwd options) eqn:Hp; [|done]. destruct (password_authentication options) eqn:Ha; [|done].
  apply auth_password_evidence in E as (t & p & Ep & Er). apply ident_fields in K as (_ & _ & Kp & Kv & Ks).
  rewrite Kp in Ep. rewrite Kv, Ks in Er. eapply ev_password; [|done|exact Ep|by symmetry]. right. done.
Qed.
Lemma userauth_passwd_evidence s s' :
  password_authentication options = true → userauth_passwd s = Ok (1, s') → evidence (authctxt s) (codes "password").
Proof.
  intros Ha E. unfold userauth_passwd, get_char in E. run E. run E. run E. run E. destruct (negb (x =? 0)); [done|].
  apply M_bind_inv in E as (r & s5 & E5 & [= Er _]). apply auth_password_evidence in E5 as (t & p & Ep & ->).
  apply ident_fields in K as (_ & _ & Kp & Kv & Ks). rewrite Kp in Ep. rewrite Kv, Ks in Er.
  eapply ev_password; [by left|done|exact Ep|]. destruct (Z.eqb_spec (b_auth_password t (valid (authctxt s)) p (style (authctxt s)) (cstr x0)) 1); [done|].
  discriminate Er.
Qed.

Lemma userauth_pubkey_evidence s s' :
  pubkey_authentication options = true → userauth_pubkey datafellows session_id2 s = Ok (1, s') →
  evidence (authctxt s) (codes "publickey").
Proof.
  intros Ha E. unfold userauth_pubkey, get_char in E. apply M_bind_inv in E as (v & s1 & [= <- <-] & E).
  destruct (valid (authctxt s)); [|done]. cbn [negb] in E. run E. run E. destruct x0 as [pkalg pkblob].
  destruct (decode_key pkalg pkblob) as [k|] eqn:Ek; [|done]. apply decode_key_blob in Ek.
  apply M_bind_inv in E as (r & s5 & E5 & E). apply M_bind_inv in E as ([] & s6 & _ & [= -> ->]).
  destruct (negb (x =? 0)).
  2: { apply M_bind_inv in E5 as (? & ? & _ & E5). apply M_bind_inv in E5 as (? & ? & _ & E5).
       apply M_bind_inv in E5 as (? & ? & _ & E5). discriminate E5. }
  run E5. run E5. apply M_bind_inv in E5 as (u & s7 & [-> Eu]%derefA_inv & E5).
  apply M_bind_inv in E5 as (sv & s7 & [-> Esv]%derefA_inv & E5).
  apply M_bind_inv in E5 as (b & s7 & E7 & E5). apply bind_Ok in E7 as (b' & Eb & [= -> <-]).
  apply M_bind_inv in E5 as (al & s7 & (p & Ep & -> & En)%user_key_evidence & E5).
  match type of E5 with context [negb (?z =? 0)] => destruct (Z.eqb_spec z 0) as [H0|H0] end; [done|]. cbn [negb] in E5.
  apply M_bind_inv in E5 as (ok & s8 & (t & data & -> & -> & Ed & ->)%key_verify_evidence & [= E5 _]).
  apply ident_fields in K as (Ku & Ks & Kp & _). rewrite Ku in Eu. rewrite Ks in Esv. rewrite Kp in Ep. rewrite En in *.
  eapply ev_pubkey; try done.
  by match type of E5 with context [?z =? 1] => destruct (Z.eqb_spec z 1) end.
Qed.

Lemma userauth_hostbased_evidence s s' :
  hostbased_authentication options = true → userauth_hostbased datafellows session_id2 s = Ok (1, s') →
  evidence (authctxt s) (codes "hostbased").
Proof.
  intros Ha E. unfold userauth_hostbased in E. apply M_bind_inv in E as (v & s1 & [= <- <-] & E).
  destruct (valid (authctxt s)); [|done]. cbn [negb] in E. run E. run E. run E. run E. run E.
  destruct (decode_key x x0) as [k|] eqn:Ek; [|done]. apply decode_key_blob in Ek.
  apply M_bind_inv in E as (u & s7 & [-> Eu]%derefA_inv & E).
  apply M_bind_inv in E as (sv & s7 & [-> Esv]%derefA_inv & E).
  apply M_bind_inv in E as (b & s7 & E7 & E). apply bind_Ok in E7 as (b' & Eb & [= -> <-]).
  apply M_bind_inv in E as (p & s7 & [-> Ep]%derefA_inv & E).
  apply M_bind_inv in E as (al & s7 & [-> ->]%ask_inv & E).
  match type of E with context [negb (?z =? 0)] => destruct (Z.eqb_spec z 0) as [H0|H0] end; [done|]. cbn [negb] in E.
  apply M_bind_inv in E as (ok & s8 & (t & data & -> & -> & Ed & ->)%key_verify_evidence & [= E _]).
  apply ident_fields in K as (Ku & Ks & Kp & _). rewrite Ku in Eu. rewrite Ks in Esv. rewrite Kp in Ep.
  eapply ev_hostbased; try done.
  by match type of E with context [?z =? 1] => destruct (Z.eqb_spec z 1) end.
Qed.

Lemma userauth_kbdint_zero s r s' : userauth_kbdint options s = Ok (r, s') → r = 0.
Proof.
  intros E. unfold userauth_kbdint in E. do 3 (apply M_bind_inv in E as (? & ? & _ & E)).
  destruct (challenge_response_authentication options); [|by injection E].
  unfold auth2_challenge in E. apply M_bind_inv in E as (u & ? & _ & E). destruct u; [|by injection E].
  do 3 (apply M_bind_inv in E as (? & ? & _ & E)). by injection E.
Qed.

Lemma userauth_evidence m ne s s' :
  method_enabled options ne m = true → userauth options datafellows session_id2 m s = Ok (1, s') →
  evidence (authctxt s) (method_name m).
Proof.
  destruct m; cbn [method_enabled userauth method_name]; intros Hm E.
  - by eapply userauth_none_evidence.
  - by eapply userauth_pubkey_evidence.
  - by eapply userauth_passwd_evidence.
  - by apply userauth_kbdint_zero in E.
  - by eapply userauth_hostbased_evidence.
Qed.

(** ** The invariant of the authentication phase *)

(** The connection has been let in on evidence. *)
Definition granted (s : auth) : Prop :=
  ∃ name t u p, valid (authctxt s) = true ∧ user (authctxt s) = Some u ∧ service (authctxt s) = Some (codes "ssh-connection") ∧
    pw (authctxt s) = Some p ∧ b_getpwnamallow t u = Some p ∧ evidence (authctxt s) name ∧
    (pw_uid p = 0 → auth_root_allowed options (forced_command s) name = true).

Record inv (s : auth) : Prop := {
  in_attempt : 0 ≤ attempt (authctxt s) ≤ Z.of_nat (now s);
  in_fresh : attempt (authctxt s) = 0 → failures_sent (outbox s) = 0%nat ∧ kbdintctxt (authctxt s) = None;
  in_ctx : attempt (authctxt s) ≠ 0 → ∃ t u sv p, user (authctxt s) = Some u ∧ service (authctxt s) = Some sv ∧
    pw (authctxt s) = Some p ∧ (valid (authctxt s) = true → b_getpwnamallow t u = Some p ∧ sv = codes "ssh-connection");
  in_valid : attempt (authctxt s) = 0 → valid (authctxt s) = false;
  in_kbd : kbd_ok s;
  in_cause : server_caused_failure (authctxt s) = false;
  in_failures : 0 ≤ failures (authctxt s) < max_authtries options;
  in_sent : Z.of_nat (failures_sent (outbox s)) ≤ failures (authctxt s) + 1;
  in_success : success (authctxt s) = true → granted s
}.

(** How a request that is not postponed ends. *)
Lemma userauth_finish_cases r name s s' :
  max_authtries options < 2 ^ 31 → 0 ≤ failures (authctxt s) < max_authtries options → server_caused_failure (authctxt s) = false →
  userauth_finish options r name s = Ok (tt, s') →
  (postponed (authctxt s) = true ∧ s' = s) ∨
  (r = 1 ∧ valid (authctxt s) = true ∧
     (∀ p, pw (authctxt s) = Some p → pw_uid p = 0 → auth_root_allowed options (forced_command s) name = true) ∧
     authctxt s' = (authctxt s) <| success := true |> ∧ forced_command s' = forced_command s ∧ now s' = now s ∧
     failures_sent (outbox s') = failures_sent (outbox s)) ∨
  (∃ f, authctxt s' = (authctxt s) <| failures := f |> ∧ now s' = now s ∧ failures (authctxt s) ≤ f < max_authtries options ∧
     (1 < attempt (authctxt s) ∨ name ≠ codes "none" → f = failures (authctxt s) + 1) ∧
     failures_sent (outbox s') = S (failures_sent (outbox s))).
Proof.
  intros Hmax Hf Hc E. unfold userauth_finish in E. apply M_bind_inv in E as (v & s1 & [= <- <-] & E).
  destruct (negb (valid (authctxt s)) && negb (r =? 0)) eqn:Hv; [done|].
  apply M_bind_inv in E as (refused & s1 & E1 & E).
  assert (s1 = s ∧ (refused = false → r ≠ 0 → ∀ p, pw (authctxt s) = Some p → pw_uid p = 0 →
            auth_root_allowed options (forced_command s) name = true)) as [-> Hroot].
  { unfold root_refused in E1. destruct (Z.eqb_spec r 0) as [Hr|Hr]; [injection E1 as <- <-; done|].
    apply M_bind_inv in E1 as (p & s2 & [-> Ep]%derefA_inv & E1). apply M_bind_inv in E1 as (f & s2 & [= <- <-] & E1).
    injection E1 as <- <-. split; [done|]. intros Hb _ p' Hp' H0. rewrite Ep in Hp'. injection Hp' as <-.
    rewrite H0 in Hb. by destruct (auth_root_allowed _ _ _). }
  apply M_bind_inv in E as (p & s1 & [= <- <-] & E). destruct (postponed (authctxt s)); [left; split; [done|by injection E]|right].
  destruct (Z.eqb_spec (if refused then 0 else r) 1) as [H1|H1].
  - left. destruct refused; [done|]. subst r. apply M_bind_inv in E as ([] & s1 & E2 & E).
    assert (authctxt s1 = authctxt s ∧ forced_command s1 = forced_command s) as [Ha Hfc].
    { apply M_bind_inv in E2 as (? & ? & [= <- <-] & E2). apply M_bind_inv in E2 as (? & ? & E3 & [= <-]).
      apply bind_Ok in E3 as (? & _ & [= _ <-]). done. }
    pose proof (set_handler_core _ _ _ _ _ E2) as Hcore. unfold core in Hcore.
    apply M_bind_inv in E as ([] & s2 & [= <-] & [= <-]). rsimpl. rewrite Ha, Hfc. split_and!; try done.
    + by destruct (valid (authctxt s)).
    + eauto.
    + congruence.
    + rewrite failures_sent_app. change (failures_sent [_]) with 0%nat. rewrite Nat.add_0_r. congruence.
  - right. apply M_bind_inv in E as ([] & s1 & [= <-] & E). apply M_bind_inv in E as (f & s1 & [= <- <-] & E).
    match type of E with context [?m <=? ?f] => destruct (Z.leb_spec m f) as [Hm|Hm] end; [done|].
    apply M_bind_inv in E as (ms & s2 & E2 & E). apply M_bind_inv in E2 as (ne & ? & [= <- <-] & [= <- <-]).
    injection E as <-. rsimpl. rsimpl_in Hm. rewrite Hc in *. cbn [negb andb] in *.
    exists (if (1 <? attempt (authctxt s)) || negb (bool_decide (name = codes "none"))
            then i32 (failures (authctxt s) + 1) else failures (authctxt s)).
    rewrite failures_sent_app. change (failures_sent [_]) with 1%nat. rewrite Nat.add_1_r.
    destruct ((1 <? attempt (authctxt s)) || negb (bool_decide (name = codes "none"))) eqn:Hn.
    + rsimpl_in Hm. rewrite i32_small in * by lia. split_and!; try done; lia.
    + split_and!; try done; try lia; [by destruct (authctxt s)|]. apply orb_false_iff in Hn as [H2 H3].
      intros [Ha|Ha]; [lia|]. by rewrite bool_decide_false in H3.
Qed.

Lemma evidence_ext a a' name :
  user a' = user a → service a' = service a → pw a' = pw a → valid a' = valid a → style a' = style a →
  evidence a name → evidence a' name.
Proof.
  intros Hu Hs Hp Hv Hst [].
  - eapply ev_password; rewrite ?Hp, ?Hv, ?Hst; eassumption.
  - eapply ev_pubkey; rewrite ?Hp, ?Hu, ?Hs; eassumption.
  - eapply ev_hostbased; rewrite ?Hp, ?Hu, ?Hs; eassumption.
  - by eapply ev_kbdint.
Qed.

Lemma core_fields s s' : core s' = core s →
  success (authctxt s') = success (authctxt s) ∧ valid (authctxt s') = valid (authctxt s) ∧
  attempt (authctxt s') = attempt (authctxt s) ∧ failures (authctxt s') = failures (authctxt s) ∧
  server_caused_failure (authctxt s') = server_caused_failure (authctxt s) ∧ user (authctxt s') = user (authctxt s) ∧
  service (authctxt s') = service (authctxt s) ∧ pw (authctxt s') = pw (authctxt s) ∧ now s' = now s ∧
  failures_sent (outbox s') = failures_sent (outbox s).
Proof. unfold core. intros E. injection E. intros. split_and!; done. Qed.

(** Code that keeps [core] and the keyboard-interactive context in order keeps
    the invariant, as long as nobody is let in. *)
Lemma inv_core s s' :
  inv s → success (authctxt s) = false → core s' = core s → kbd_ok s' → attempt (authctxt s) ≠ 0 → inv s'.
Proof.
  intros [H1 H2 H3 H4 H5 H6 H7 H8 H9] Hs (E1 & E2 & E3 & E4 & E5 & E6 & E7 & E8 & E9 & E10)%core_fields Hk Ha.
  split; rewrite ?E1, ?E2, ?E3, ?E4, ?E5, ?E6, ?E7, ?E8, ?E9, ?E10; try done. by rewrite Hs.
Qed.

Lemma keeps_run {A B} (p : auth → B) (m : M auth A) s a s' : keeps p m → m s = Ok (a, s') → p s' = p s.
Proof. intros Hm. apply Hm. Qed.

Section Limits.
Context (Hmax : 0 < max_authtries options < 2 ^ 31).

Lemma finish_inv r name s s' :
  inv s → success (authctxt s) = false → attempt (authctxt s) ≠ 0 → (r = 1 → evidence (authctxt s) name) →
  (attempt (authctxt s) ≤ 1 → name = codes "none" → failures_sent (outbox s) = 0%nat) →
  userauth_finish options r name s = Ok (tt, s') → inv s'.
Proof.
  intros Hi Hs Ha Hev Hnone E. pose proof Hi as [H1 H2 H3 H4 H5 H6 H7 H8 H9].
  apply userauth_finish_cases in E as [[_ ->]|[(-> & Hv & Hroot & Ea & Ef & En & Et)|(f & Ea & En & Hf & Hf1 & Et)]];
    [done| | |lia|done|done]; split; rewrite ?Ea, ?En, ?Et; rsimpl; try done.
  - unfold kbd_ok. rewrite Ea. exact H5.
  - intros _. destruct (H3 Ha) as (t & u & sv & p & Eu & Esv & Ep & Hctx). destruct (Hctx Hv) as [Hg ->].
    exists name, t, u, p. rewrite Ea, Ef. rsimpl. split_and!; try done.
    + by eapply evidence_ext, Hev.
    + by apply Hroot.
  - unfold kbd_ok. rewrite Ea. exact H5.
  - lia.
  - destruct (decide (name = codes "none")) as [->|Hne].
    + destruct (Z.leb_spec (attempt (authctxt s)) 1); [rewrite Hnone by done; lia|]. rewrite Hf1 by lia. lia.
    + rewrite Hf1 by auto. lia.
  - intros Hz. by rewrite Hs in Hz.
Qed.

Lemma setup_spec u sv st s s' :
  setup_authctxt options datafellows use_privsep u sv st s = Ok (tt, s') →
  let a := authctxt s in let a' := authctxt s' in
  success a' = success a ∧ attempt a' = attempt a ∧ failures a' = failures a ∧ server_caused_failure a' = server_caused_failure a ∧
  kbdintctxt a' = kbdintctxt a ∧ now s' = now s ∧ failures_sent (outbox s') = failures_sent (outbox s) ∧
  user a' = Some u ∧ service a' = Some sv ∧
  (∃ p, pw a' = Some p ∧
     (valid a' = true → valid a = true ∨ (b_getpwnamallow (now s) u = Some p ∧ sv = codes "ssh-connection"))).
Proof.
  intros E a a'. unfold a, a'. clear a a'. unfold setup_authctxt in E.
  apply M_bind_inv in E as (p & s1 & [-> ->]%ask_inv & E). apply M_bind_inv in E as ([] & s1 & [= <-] & E).
  apply M_bind_inv in E as ([] & s2 & E2 & E). apply M_bind_inv in E as ([] & s3 & [= <-] & E).
  apply M_bind_inv in E as ([] & s4 & E4 & E).
  assert (Hb : keeps core (userauth_banner options datafellows) ∧ keeps kbd (userauth_banner options datafellows)).
  { split; unfold userauth_banner, userauth_send_banner; keep. }
  destruct Hb as [Hb1 Hb2]. apply Hb1 in E as Hc. apply Hb2 in E as Hk. clear E Hb1 Hb2.
  assert (Hw : ∃ i, s4 = s2 <| authctxt := (authctxt s2) <| service := Some sv |> <| style := st |> |> <| informed := i |>).
  { destruct use_privsep; injection E4 as <-; eexists; [reflexivity|]. by destruct s2. }
  destruct Hw as [i ->]. clear E4.
  unfold kbd in Hk. rsimpl_in Hk. apply core_fields in Hc as (-> & -> & -> & -> & -> & -> & -> & -> & -> & ->).
  rewrite Hk. rsimpl.
  destruct (b_getpwnamallow (now s) u) as [p|] eqn:Eg; [case_bool_decide|]; injection E2 as <-; rsimpl;
    (split_and!; [done..|]); eexists; (split; [reflexivity|]); auto.
Qed.

Lemma core_evidence s s' name : core s' = core s → evidence (authctxt s) name → evidence (authctxt s') name.
Proof. unfold core. intros E. injection E. intros. by eapply evidence_ext. Qed.

Lemma lookup_inv name s m s' :
  authmethod_lookup options name s = Ok (Some m, s') → name = method_name m ∧ method_enabled options (none_enabled s) m = true.
Proof.
  unfold authmethod_lookup. intros E. apply M_bind_inv in E as (ne & s1 & [= <- <-] & E).
  assert (List.find (λ m, method_enabled options (none_enabled s) m && bool_decide (name = method_name m)) authmethods = Some m) as Em.
  { injection E. done. }
  apply find_some in Em as [_ [He Hn]%andb_true_iff]. by apply bool_decide_eq_true in Hn.
Qed.
Lemma lookup_state name s m s' : authmethod_lookup options name s = Ok (m, s') → s' = s.
Proof. unfold authmethod_lookup. intros E. apply M_bind_inv in E as (ne & s1 & [= <- <-] & E). by injection E. Qed.

(** The part of the handler that sets up or checks the context. *)
Lemma context_inv u sv st s s' :
  inv s → success (authctxt s) = false → attempt (authctxt s) < Z.of_nat (now s) → Z.of_nat (now s) < 2 ^ 31 →
  (let n := attempt (authctxt s) in
   _ ← modA (λ a, a <| attempt := i32 (attempt a + 1) |>);
   _ ← (if n =? 0 then setup_authctxt options datafellows use_privsep u sv st else same_authctxt u sv);
   _ ← auth2_challenge_stop;
   modA (λ a, a <| postponed := false |> <| server_caused_failure := false |>)) s = Ok (tt, s') →
  inv s' ∧ success (authctxt s') = false ∧ attempt (authctxt s') ≠ 0 ∧
  (attempt (authctxt s') ≤ 1 → failures_sent (outbox s') = 0%nat).
Proof.
  intros [H1 H2 H3 H4 H5 H6 H7 H8 H9] Hs Hlt Hb E. cbv zeta in E.
  apply M_bind_inv in E as ([] & s1 & [= <-] & E). apply M_bind_inv in E as ([] & s2 & E2 & E).
  apply M_bind_inv in E as ([] & s3 & E3 & [= <-]).
  apply stop_core in E3 as Hc. assert (Hk : kbdintctxt (authctxt s3) = None).
  { apply M_bind_inv in E3 as ([] & s4 & _ & [= <-]). done. }
  apply core_fields in Hc as (C1 & C2 & C3 & C4 & C5 & C6 & C7 & C8 & C9 & C10). clear E3.
  assert (Hatt : i32 (attempt (authctxt s) + 1) = attempt (authctxt s) + 1) by (apply i32_small; lia).
  set (s1 := s <| authctxt := (authctxt s) <| attempt := i32 (attempt (authctxt s) + 1) |> |>) in E2.
  assert (success (authctxt s2) = false ∧ attempt (authctxt s2) = attempt (authctxt s) + 1 ∧
    failures (authctxt s2) = failures (authctxt s) ∧ now s2 = now s ∧ failures_sent (outbox s2) = failures_sent (outbox s) ∧
    ∃ t u sv p, user (authctxt s2) = Some u ∧ service (authctxt s2) = Some sv ∧ pw (authctxt s2) = Some p ∧
      (valid (authctxt s2) = true → b_getpwnamallow t u = Some p ∧ sv = codes "ssh-connection"))
    as (D1 & D2 & D3 & D4 & D5 & t' & u' & sv' & p' & D6 & D7 & D8 & D9).
  { destruct (Z.eqb_spec (attempt (authctxt s)) 0) as [H0|H0].
    - apply setup_spec in E2 as (F1 & F2 & F3 & F4 & F5 & F6 & F7 & F8 & F9 & p & F10 & F11). unfold s1 in *.
      rsimpl_in F1. rsimpl_in F2. rsimpl_in F3. rsimpl_in F6. rsimpl_in F7. rsimpl_in F11.
      rewrite F1, F2, F3, F6, F7, Hatt. split_and!; try done. exists (now s), u, sv, p. split_and!; try done.
      intros Hv. destruct (F11 Hv) as [Hv'|?]; [|done]. by rewrite H4 in Hv'.
    - unfold same_authctxt in E2. apply M_bind_inv in E2 as (u0 & s4 & [-> _]%derefA_inv & E2).
      apply M_bind_inv in E2 as (sv0 & s4 & [-> _]%derefA_inv & E2). destruct (_ && _); [|done]. injection E2 as <-.
      unfold s1. rsimpl. rewrite Hatt. split_and!; try done. exact (H3 H0). }
  split_and!; rsimpl; rewrite ?C1, ?C3, ?C10, ?D2; [|done|lia|].
  2: { intros Hle. rewrite D5. apply H2. lia. }
  split; unfold kbd_ok; rsimpl; rewrite ?C1, ?C2, ?C3, ?C4, ?C6, ?C7, ?C8, ?C9, ?C10, ?Hk, ?D1, ?D2, ?D3, ?D4, ?D5; try done; try lia.
  eauto 10.
Qed.

Lemma request_inv s s' :
  inv s → success (authctxt s) = false → attempt (authctxt s) < Z.of_nat (now s) → Z.of_nat (now s) < 2 ^ 31 →
  input_userauth_request options datafellows session_id2 use_privsep s = Ok (tt, s') → inv s'.
Proof.
  intros Hi Hs Hlt Hb E. unfold input_userauth_request, get_cstring in E.
  assert (Hg : ∀ s c s', (s0 ← get_packet buffer_get_cstring; mret (cstr s0)) s = Ok (c, s') →
            core s' = core s ∧ kbd s' = kbd s).
  { intros s1 c s2 E1.
    assert (keeps core (s0 ← get_packet buffer_get_cstring; mret (cstr s0)) ∧ keeps kbd (s0 ← get_packet buffer_get_cstring; mret (cstr s0)))
      as [Kc Kk] by (split; keep). split; [exact (Kc _ _ _ E1)|exact (Kk _ _ _ E1)]. }
  apply M_bind_inv in E as (us & s1 & [C1 K1]%Hg & E). apply M_bind_inv in E as (sv & s2 & [C2 K2]%Hg & E).
  apply M_bind_inv in E as (name & s3 & [C3 K3]%Hg & E). destruct (split_style us) as [u st].
  rewrite C2, C1 in C3. rewrite K2, K1 in K3. clear C1 C2 K1 K2 Hg.
  assert (inv s3 ∧ success (authctxt s3) = false ∧ attempt (authctxt s3) < Z.of_nat (now s3) ∧ now s3 = now s) as (Hi3 & Hs3 & Hlt3 & Hn3).
  { pose proof Hi as [H1 H2 H3 H4 H5 H6 H7 H8 H9]. unfold kbd in K3.
    apply core_fields in C3 as (E1 & E2 & E3 & E4 & E5 & E6 & E7 & E8 & E9 & E10).
    rewrite E1, E3, E9. split_and!; try done.
    split; unfold kbd_ok; rewrite ?E1, ?E2, ?E3, ?E4, ?E5, ?E6, ?E7, ?E8, ?E9, ?E10, ?K3; try done. by rewrite Hs. }
  apply M_bind_inv in E as (n & s4 & [= <- <-] & E).
  rewrite <- Hn3 in Hb. clear s s1 s2 C3 K3 Hi Hs Hlt Hn3.
  apply M_bind_inv in E as ([] & t1 & T1 & E). apply M_bind_inv in E as ([] & t2 & T2 & E).
  apply M_bind_inv in E as ([] & t3 & T3 & E). apply M_bind_inv in E as ([] & s5 & T4 & E).
  destruct (context_inv u sv st s3 s5 Hi3 Hs3 Hlt3 Hb) as (Hi5 & Hs5 & Ha5 & Hn5).
  { cbv zeta. mstep_by T1. mstep_by T2. mstep_by T3. exact T4. }
  clear T1 T2 T3 T4 t1 t2 t3.
  apply M_bind_inv in E as (m & s6 & Em & E). pose proof (lookup_state _ _ _ _ Em) as ->.
  apply M_bind_inv in E as (f & s6 & [= <- <-] & E). apply M_bind_inv in E as (r & s6 & E6 & E).
  destruct m as [m|].
  - apply lookup_inv in Em as [-> He].
    assert (core s6 = core s5 ∧ kbd_ok s6 ∧ (r = 1 → evidence (authctxt s6) (method_name m))) as (Hc6 & Hk6 & Hev).
    { destruct (_ <? _); [|injection E6 as <- <-; split_and!; [done|apply Hi5|done]].
      apply userauth_core in E6 as Hc. split_and!; [done| |].
      - eapply kbd_moves_userauth; [|exact E6|apply Hi5]. by destruct m.
      - intros ->. eapply core_evidence; [exact Hc|]. by eapply userauth_evidence. }
    pose proof Hc6 as (Q1 & _ & Q3 & _ & _ & _ & _ & _ & _ & Q10)%core_fields.
    eapply finish_inv; [by eapply inv_core| | |exact Hev| |exact E]; rewrite ?Q1, ?Q3, ?Q10; try done. auto.
  - injection E6 as <- <-. eapply (finish_inv 0); [exact Hi5|exact Hs5|exact Ha5|discriminate| |exact E]. auto.
Qed.

Lemma get_responses_core n : keeps core (get_responses n).
Proof. induction n as [|n IH]; cbn [get_responses]; keep. Qed.
Lemma get_responses_kbd n : keeps kbd (get_responses n).
Proof. induction n as [|n IH]; cbn [get_responses]; unfold get_string; keep. Qed.

(** The name that [input_userauth_info_response] gives to the method. *)
Lemma kbdint_name_not_none d : codes "keyboard-interactive/" ++ dev_name d ≠ codes "none".
Proof. intros E. by apply (f_equal head) in E. Qed.

Lemma info_response_inv s s' :
  inv s → success (authctxt s) = false → input_userauth_info_response options s = Ok (tt, s') → inv s'.
Proof.
  intros Hi Hs E. unfold input_userauth_info_response in E. apply M_bind_inv in E as (k & s1 & [= <- <-] & E).
  destruct (kbdintctxt (authctxt s)) as [k|] eqn:Ek; [|done]. destruct (kd_ctxt k) as [c|]; [|done].
  destruct (kd_device k) as [d|] eqn:Ed; [|done]. destruct (in_kbd _ Hi k Ek) as (Ho1 & Ho2 & Hdev).
  assert (Ha : attempt (authctxt s) ≠ 0).
  { intros H0. apply (in_fresh _ Hi) in H0 as [_ H0]. congruence. }
  apply M_bind_inv in E as ([] & s1 & E1 & E). apply M_bind_inv in E as (nresp & s2 & E2 & E).
  destruct (negb (nresp =? kd_nreq k)); [done|]. destruct (100 <? nresp); [done|].
  apply M_bind_inv in E as (rs & s3 & E3 & E). apply M_bind_inv in E as ([] & s4 & E4 & E).
  apply M_bind_inv in E as ([res c'] & s5 & [-> Er]%ask_inv & E). apply M_bind_inv in E as ([] & s5 & E5 & E).
  apply M_bind_inv in E as (v & s6 & [= <- <-] & E).
  assert (core s5 = core s ∧ kbd_ok s5) as [C5 K5].
  { split.
    - transitivity (core s4); [eapply (keeps_run core); [|exact E5]; keep|].
      transitivity (core s3); [by eapply check_eom_core|]. transitivity (core s2); [by eapply get_responses_core|].
      transitivity (core s1); [by eapply get_packet_core|]. eapply (keeps_run core); [|exact E1]; keep.
    - eapply kbd_moves_set; [|exact Ho1|exact Ho2|exact E5|].
      + rsimpl. rewrite Ed. intros ? [= <-]. auto.
      + intros k' Hk'. apply (in_kbd _ Hi k'). rewrite <- Hk'. symmetry.
        transitivity (kbd s3); [by eapply check_eom_kbd|]. transitivity (kbd s2); [by eapply get_responses_kbd|].
        transitivity (kbd s1); [by eapply get_packet_kbd|]. eapply (keeps_run kbd); [|exact E1]; keep. }
  clear E1 E2 E3 E4 E5 s1 s2 s3.
  apply M_bind_inv in E as ([] & s6 & E6 & E). apply M_bind_inv in E as (p & s7 & [= <- <-] & E).
  apply M_bind_inv in E as ([] & s7 & E7 & E).
  assert (core s6 = core s5 ∧ kbd_ok s6) as [C6 K6].
  { destruct (res =? 1); [|by injection E6 as <-]. apply M_bind_inv in E6 as (ok & s8 & E8 & E6).
    apply info_request_core in E8 as C8. pose proof (kbd_moves_info_request _ _ _ E8 K5) as K8. destruct ok; [|by injection E6 as <-].
    split; [rewrite <- C8; eapply (keeps_run core); [|exact E6]; keep|].
    eapply kbd_moves_keeps; [|exact E6|exact K8]. keep. }
  assert (core s7 = core s6 ∧ kbd_ok s7) as [C7 K7].
  { destruct (negb (postponed (authctxt s6))); [|by injection E7 as <-].
    match type of E7 with when true (if ?b then _ else _) _ = _ => destruct b end.
    - split; [by eapply stop_core|by eapply kbd_moves_stop].
    - split; [by eapply start_core|by eapply kbd_moves_start]. }
  rewrite C6, C5 in C7. pose proof C7 as (Q1 & Q2 & Q3 & _)%core_fields.
  eapply finish_inv; [by eapply inv_core|by rewrite Q1|by rewrite Q3| |intros _ Hn; by apply kbdint_name_not_none in Hn|exact E].
  destruct (Z.eqb_spec res 0) as [->|]; [|done]. intros _. eapply ev_kbdint; [done|done|by apply Hdev|].
  by rewrite <- Er.
Qed.

Lemma inv_same s s' :
  inv s → success (authctxt s) = false → core s' = core s → kbd s' = kbd s → inv s'.
Proof.
  intros [H1 H2 H3 H4 H5 H6 H7 H8 H9] Hs (E1 & E2 & E3 & E4 & E5 & E6 & E7 & E8 & E9 & E10)%core_fields K. unfold kbd in K.
  split; unfold kbd_ok; rewrite ?E1, ?E2, ?E3, ?E4, ?E5, ?E6, ?E7, ?E8, ?E9, ?E10, ?K; try done. by rewrite Hs.
Qed.
Lemma service_keeps s s' : input_service_request s = Ok (tt, s') → core s' = core s ∧ kbd s' = kbd s.
Proof.
  assert (Hk : keeps core input_service_request ∧ keeps kbd input_service_request).
  { unfold input_service_request, get_cstring, getA, disconnectA. split; keep. }
  destruct Hk as [Hc Hk]. intros E. split; [by eapply Hc|by eapply Hk].
Qed.
Lemma service_inv s s' :
  inv s → success (authctxt s) = false → input_service_request s = Ok (tt, s') → inv s'.
Proof. intros Hi Hs [Hc Hk]%service_keeps. by eapply inv_same. Qed.

(** The clock is only set by [round]. *)
Lemma core_now {A} (m : M auth A) : keeps core m → keeps now m.
Proof. intros Hm s a s' E. by apply Hm, core_fields in E as (_ & _ & _ & _ & _ & _ & _ & _ & ? & _). Qed.
Lemma modA_now f : keeps now (modA f).
Proof. by apply keeps_modify. Qed.
Lemma sendA_now type items : keeps now (sendA type items).
Proof. by apply keeps_modify. Qed.
#[local] Hint Resolve modA_now sendA_now : keeps.
#[local] Hint Extern 2 (keeps now _) => (apply core_now; solve [eauto 2 with keeps]) : keeps.
Lemma finish_now r name : keeps now (userauth_finish options r name).
Proof. unfold userauth_finish, root_refused, authmethods_get, getA, fatalA, disconnectA. keep. Qed.
#[local] Hint Resolve finish_now userauth_core get_responses_core : keeps.
Lemma request_now s s' :
  input_userauth_request options datafellows session_id2 use_privsep s = Ok (tt, s') → now s' = now s.
Proof.
  assert (Hk : keeps now (input_userauth_request options datafellows session_id2 use_privsep)).
  { unfold input_userauth_request, get_cstring, setup_authctxt, same_authctxt, userauth_banner, userauth_send_banner,
      authmethod_lookup, getA, disconnectA. keep. }
  apply Hk.
Qed.
Lemma info_response_now s s' : input_userauth_info_response options s = Ok (tt, s') → now s' = now s.
Proof.
  assert (Hk : keeps now (input_userauth_info_response options)).
  { unfold input_userauth_info_response, get_int, getA, fatalA. keep. }
  apply Hk.
Qed.

(** A whole round. *)
Lemma round_inv m s s' :
  inv s → success (authctxt s) = false → Z.of_nat (now s) + 1 < 2 ^ 31 →
  round options datafellows session_id2 use_privsep m s = Ok (tt, s') → inv s' ∧ now s' = S (now s).
Proof.
  intros Hi Hs Hb E. destruct m as [[type seq] payload]. unfold round in E.
  apply M_bind_inv in E as (b & s1 & E1 & E). apply bind_Ok in E1 as (b' & _ & [= -> <-]).
  apply M_bind_inv in E as ([] & s1 & [= <-] & E). apply M_bind_inv in E as (t & s1 & [= <- <-] & E).
  destruct (dispatch_lookup type _) as [h|]; [|done].
  set (s1 := s <| packet := b |> <| now := S (now s) |>) in E.
  assert (inv s1 ∧ success (authctxt s1) = false ∧ attempt (authctxt s1) < Z.of_nat (now s1)) as (Hi1 & Hs1 & Ha1).
  { pose proof Hi as [H1 H2 H3 H4 H5 H6 H7 H8 H9]. unfold s1. rsimpl. split_and!; [|done|lia].
    split; rsimpl; try done; lia. }
  assert (now s' = now s1) as ->; [|split; [|done]].
  { destruct h; cbn [run_handler] in E.
    - apply service_keeps in E as [(_ & _ & _ & _ & _ & _ & _ & _ & E9 & _)%core_fields _]. done.
    - by eapply request_now.
    - by eapply info_response_now.
    - by injection E as <-.
    - by injection E as <-. }
  destruct h; cbn [run_handler] in E.
  - by eapply service_inv.
  - eapply request_inv; try done. unfold s1. rsimpl. lia.
  - by eapply info_response_inv.
  - eapply inv_same; [exact Hi1|exact Hs1| |]; [eapply (keeps_run core); [|exact E]; keep|by eapply sendA_kbd].
  - by injection E as <-.
Qed.

Lemma auth_init_inv : inv auth_init.
Proof. split; unfold auth_init; cbn; try done; lia. Qed.

Lemma rounds_inv ms : ∀ s s',
  inv s → Z.of_nat (now s) + Z.of_nat (length ms) < 2 ^ 31 →
  rounds options datafellows session_id2 use_privsep ms s = Ok (tt, s') → inv s'.
Proof.
  induction ms as [|m ms IH]; intros s s' Hi Hb E; cbn [rounds] in E; [by injection E as <-|].
  apply M_bind_inv in E as (b & s1 & [= <- <-] & E). destruct (success (authctxt s)) eqn:Hs; [by injection E as <-|].
  apply M_bind_inv in E as ([] & s1 & E1 & E). simpl length in Hb.
  destruct (round_inv m s s1 Hi Hs) as [Hi1 Hn1]; [lia|done|]. eapply IH; [exact Hi1|lia|exact E].
Qed.

(** C11: Whatever messages a client sends (fewer than 2^31), it is let in only
    if its first request named a user and the service ssh-connection for which
    the account data base allows a login, and it then showed evidence for this
    user under an enabled method (a password that was accepted, a signature over
    this session and this user by an accepted key, or responses accepted by a
    device); root only under a method and with a command restriction that the
    configuration allows. *)
Theorem authentication_sound ms s :
  Z.of_nat (length ms) < 2 ^ 31 →
  do_authentication2 options datafellows session_id2 use_privsep ms = Ok s → success (authctxt s) = true →
  ∃ name t u p, user (authctxt s) = Some u ∧ service (authctxt s) = Some (codes "ssh-connection") ∧
    pw (authctxt s) = Some p ∧ b_getpwnamallow t u = Some p ∧ evidence (authctxt s) name ∧
    (pw_uid p = 0 → auth_root_allowed options (forced_command s) name = true).
Proof.
  intros Hl E Hs. unfold do_authentication2 in E. apply bind_Ok in E as ([[] s1] & E & [= ->]).
  assert (inv s) as Hi. { eapply rounds_inv; [apply auth_init_inv| |exact E]. exact Hl. }
  destruct (in_success _ Hi Hs) as (name & t & u & p & _ & Hg). eauto 10.
Qed.

(** C24: The server sends at most [MaxAuthTries] failure messages on a
    connection, and never counts to the limit without disconnecting. *)
Theorem failures_bounded ms s :
  Z.of_nat (length ms) < 2 ^ 31 →
  do_authentication2 options datafellows session_id2 use_privsep ms = Ok s →
  failures (authctxt s) < max_authtries options ∧ Z.of_nat (failures_sent (outbox s)) ≤ max_authtries options.
Proof.
  intros Hl E. unfold do_authentication2 in E. apply bind_Ok in E as ([[] s1] & E & [= ->]).
  assert (inv s) as Hi. { eapply rounds_inv; [apply auth_init_inv| |exact E]. exact Hl. }
  destruct Hi as [_ _ _ _ _ _ H7 H8 _]. lia.
Qed.
End Limits.
End Proofs.

(** ** What a signature covers *)

(** The strings of a request: what [packet_get_string] returns. *)
Definition short (s : list Z) : Prop := Z.of_nat (length s) ≤ 256 * 1024.
Definition cshort (s : list Z) : Prop := short s ∧ 0 ∉ s.

(** The data are the session id, as a string or, for old clients, as its bytes
    alone, and the encoding of the request. *)
Definition signed_items (datafellows : Z) (u sv : list Z) (h : Z) (alg blob : list Z) : list Items.item :=
  [Items.Char SSH2_MSG_USERAUTH_REQUEST; Items.CString u;
   Items.CString (if has_bug datafellows SSH_BUG_PKSERVICE then codes "ssh-userauth" else sv)] ++
  (if has_bug datafellows SSH_BUG_PKAUTH then [Items.Char h]
   else [Items.CString (codes "publickey"); Items.Char h; Items.CString (cstr alg)]) ++
  [Items.String blob].

Lemma signed_items_ok df u sv h alg blob :
  Forall cshort [u; sv; cstr alg] → short blob → is_u8 h → Forall Items.ok (signed_items df u sv h alg blob).
Proof.
  rewrite !Forall_cons. intros (Hu & Hsv & Ha & _) Hb Hh.
  assert (Hc : Forall cshort [codes "publickey"; codes "ssh-userauth"]).
  { repeat constructor; try (apply Z.leb_le; vm_compute; reflexivity); apply (bool_decide_unpack _); vm_compute; exact I. }
  rewrite !Forall_cons in Hc. destruct Hc as (Hpk & Hua & _). unfold signed_items.
  destruct (has_bug df SSH_BUG_PKSERVICE), (has_bug df SSH_BUG_PKAUTH); cbn [app];
    repeat apply Forall_cons_2; try apply Forall_nil_2; cbn [Items.ok]; done.
Qed.

Lemma signed_pubkey_wire df sid u sv h alg blob b :
  short sid → Forall cshort [u; sv; cstr alg] → short blob → is_u8 h →
  signed_pubkey df sid u sv h alg blob = Ok b →
  wf b ∧ contents b = (if has_bug df SSH_OLD_SESSIONID then sid else Items.wire (Items.String sid)) ++
                      concat (map Items.wire (signed_items df u sv h alg blob)).
Proof.
  intros Hs Hc Hb Hh E. unfold signed_pubkey in E. apply bind_Ok in E as (b0 & E0 & E).
  destruct buffer_init_wf as [Hw0 H0].
  assert (wf b0 ∧ contents b0 = if has_bug df SSH_OLD_SESSIONID then sid else Items.wire (Items.String sid)) as [Wb0 Cb0].
  { destruct (has_bug df SSH_OLD_SESSIONID).
    - apply Items.append_inv in E0 as [? Hc0]; [|done|unfold short in Hs; unfold_consts; lia]. by rewrite H0 in Hc0.
    - apply Items.puts_inv in E0 as [? Hc0]; [|done|by repeat constructor]. rewrite H0 in Hc0. cbn [app session_items map concat] in Hc0.
      by rewrite app_nil_r in Hc0. }
  apply Items.puts_inv in E as [Wb Cb]; [|done|by apply (signed_items_ok df u sv h alg blob)]. split; [done|]. by rewrite Cb, Cb0.
Qed.

(** C15: The data under a public key signature determine the session, the user
    and the key, and the service and the algorithm as far as they are part of
    the data: a signature made for one of them is not one for another.  The
    clients of the compatibility list change the data.  With
    [SSH_BUG_PKSERVICE] they hold a constant in place of the service, which is
    then not determined; with [SSH_BUG_PKAUTH] they hold no algorithm (it is
    the one named in the key); with [SSH_OLD_SESSIONID] they hold the bytes of
    the session id without its length, and two session ids of the same length
    are told apart.  Both requests are from clients with the same flags. *)
Theorem signature_binds datafellows sid sid' u u' sv sv' h h' alg alg' blob blob' b b' :
  short sid → short sid' → (has_bug datafellows SSH_OLD_SESSIONID = true → length sid = length sid') →
  Forall cshort [u; u'; sv; sv'; cstr alg; cstr alg'] → short blob → short blob' → is_u8 h → is_u8 h' →
  signed_pubkey datafellows sid u sv h alg blob = Ok b → signed_pubkey datafellows sid' u' sv' h' alg' blob' = Ok b' →
  contents b = contents b' →
  sid = sid' ∧ u = u' ∧ blob = blob' ∧
  (has_bug datafellows SSH_BUG_PKSERVICE = false → sv = sv') ∧
  (has_bug datafellows SSH_BUG_PKAUTH = false → cstr alg = cstr alg').
Proof.
  intros Hs Hs' Hlen Hstr Hb Hb' Hh Hh' E E' Hc.
  rewrite !Forall_cons in Hstr. destruct Hstr as (S1 & S2 & S3 & S4 & S5 & S6 & _).
  assert (F : Forall cshort [u; sv; cstr alg]) by (by repeat apply Forall_cons_2).
  assert (F' : Forall cshort [u'; sv'; cstr alg']) by (by repeat apply Forall_cons_2).
  apply signed_pubkey_wire in E as [Wb Cb]; [|done..]. apply signed_pubkey_wire in E' as [Wb' Cb']; [|done..].
  assert (sid = sid' ∧ signed_items datafellows u sv h alg blob = signed_items datafellows u' sv' h' alg' blob') as [-> Hit].
  { pose proof (signed_items_ok datafellows _ _ _ _ _ F Hb Hh). pose proof (signed_items_ok datafellows _ _ _ _ _ F' Hb' Hh').
    rewrite <- Hc in Cb'. destruct (has_bug datafellows SSH_OLD_SESSIONID).
    - apply (Items.wire_inj_behind b); auto. unfold signed_items. by destruct (has_bug _ SSH_BUG_PKAUTH).
    - assert (Items.String sid :: signed_items datafellows u sv h alg blob
        = Items.String sid' :: signed_items datafellows u' sv' h' alg' blob') as Heq; [|split; [by injection Heq|exact (f_equal tail Heq)]].
      apply (Items.wire_inj_behind b [] []); [done|by apply Forall_cons_2..| |done|done|done]. cbn [map]. f_equal.
      unfold signed_items. by destruct (has_bug _ SSH_BUG_PKAUTH). }
  unfold signed_items in Hit.
  destruct (has_bug datafellows SSH_BUG_PKSERVICE), (has_bug datafellows SSH_BUG_PKAUTH); cbn [app] in Hit; injection Hit; intros; by split_and!.
Qed.

(** ** A server with one account and one device *)

Module Auth2Demo.
Definition toy : Backend := {|
  key := list Z; key_type_of := λ _, KEY_RSA; key_from_blob := Some;
  b_getpwnamallow := λ _ n, if bool_decide (n = codes "alice") then Some AuthDemo.alice else None;
  b_fakepw := AuthDemo.alice;
  b_auth_password := λ _ v _ _ p, if v && bool_decide (p = codes "secret") then 1 else 0;
  b_user_key_allowed := λ _ _ k, (if bool_decide (k = codes "alice's key") then 1 else 0, false);
  b_hostbased_key_allowed := λ _ _ _ _ _, 0;
  b_key_verify := λ _ k sig data, if bool_decide (sig = k ++ data) then 1 else 0;
  b_read_banner := None;
  device := unit; devices := [tt]; dev_name := λ _, codes "pam"; dev_ctx := unit;
  dev_init_ctx := λ _ _ _ _, Some tt;
  dev_query := λ _ _ _, (Some ([], [], [(codes "Password: ", 0)]), tt);
  dev_respond := λ _ _ _ rs, (if bool_decide (rs = [codes "secret"]) then 0 else -1, tt)
|}.
#[local] Existing Instance toy.
Definition opts : ServerOptions := AuthDemo.opts [].

Definition payload (its : list Items.item) : list Z := concat (map Items.wire its).
Definition service : message := (SSH2_MSG_SERVICE_REQUEST, 0, payload [Items.CString (codes "ssh-userauth")]).
Definition request (u name : String.string) (rest : list Items.item) : message :=
  (SSH2_MSG_USERAUTH_REQUEST, 0, payload ([Items.CString (codes u); Items.CString (codes "ssh-connection"); Items.CString (codes name)] ++ rest)).
Definition with_password (p : String.string) : message := request "alice" "password" [Items.Char 0; Items.String (codes p)].
Abbreviation run ms := (do_authentication2 opts 0 (codes "session") false ms).

Definition session : list message := [service; request "alice" "none" []; with_password "guess"; with_password "secret"].
Definition let_in (o : outcome auth) : bool := match o with Ok s => success (authctxt s) | _ => false end.
Definition returns (o : outcome auth) : bool := match o with Ok _ => true | _ => false end.
Lemma returns_inv o : returns o = true → ∃ s, o = Ok s.
Proof. destruct o; try done. eauto. Qed.

Lemma authentication_sound_witness :
  ∃ s, run session = Ok s ∧ ∃ name u p, user (authctxt s) = Some u ∧ pw (authctxt s) = Some p ∧
    evidence opts 0 (codes "session") (authctxt s) name.
Proof.
  assert (B : let_in (run session) = true) by (vm_compute; reflexivity).
  destruct (run session) as [s| | | | |] eqn:E; try discriminate B. exists s. split; [reflexivity|].
  destruct (authentication_sound opts 0 (codes "session") false ltac:(vm_compute; split; reflexivity) session s
    ltac:(vm_compute; reflexivity) E B) as (name & t & u & p & Hu & _ & Hp & _ & Hev & _).
  exists name, u, p. split; [exact Hu|]. split; [exact Hp|exact Hev].
Defined.

Lemma failures_bounded_witness :
  ∃ s, run [service; with_password "guess"] = Ok s ∧ failures (authctxt s) < 6.
Proof.
  assert (B : returns (run [service; with_password "guess"]) = true) by (vm_compute; reflexivity).
  destruct (returns_inv _ B) as [s E]. exists s. split; [exact E|].
  destruct (failures_bounded opts 0 (codes "session") false ltac:(vm_compute; split; reflexivity) [service; with_password "guess"] s
    ltac:(vm_compute; reflexivity) E) as [Hf _]. exact Hf.
Defined.

(** One request that names the device a hundred times (a prefix of its name is
    enough) gets a hundred prompts; the wrong responses are not counted, and
    the connection with [MaxAuthTries] 6 goes on. *)
Definition respond (p : String.string) : message :=
  (SSH2_MSG_USERAUTH_INFO_RESPONSE, 0, payload [Items.Int 1; Items.String (codes p)]).
Definition many_guesses : list message :=
  [service; request "alice" "keyboard-interactive"
     [Items.CString []; Items.CString (namelist (replicate 101 (codes "p")))]] ++ replicate 100 (respond "guess").
Example keyboard_interactive_unlimited :
  max_authtries opts = 6 ∧
  match run many_guesses with
  | Ok s => failures (authctxt s) = 0 ∧ failures_sent (outbox s) = 0%nat ∧ success (authctxt s) = false ∧
            postponed (authctxt s) = true
  | _ => False
  end ∧
  let_in (run (many_guesses ++ [respond "secret"])) = true.
Proof. split; [reflexivity|]. split; [vm_compute; repeat split|vm_compute; reflexivity]. Qed.

Lemma signature_binds_witness :
  ∃ b b', signed_pubkey 0 (codes "session") (codes "alice") (codes "ssh-connection") 1 (codes "ssh-rsa") (codes "blob") = Ok b ∧
    signed_pubkey 0 (codes "session") (codes "bob") (codes "ssh-connection") 1 (codes "ssh-rsa") (codes "blob") = Ok b' ∧
    contents b ≠ contents b'.
Proof.
  assert (B : ∀ u, In u [codes "alice"; codes "bob"] → match signed_pubkey 0 (codes "session") u (codes "ssh-connection") 1 (codes "ssh-rsa") (codes "blob")
              with Ok _ => true | _ => false end = true) by (intros u [<-|[<-|[]]]; vm_compute; reflexivity).
  pose proof (B (codes "alice") ltac:(left; reflexivity)) as B1. pose proof (B (codes "bob") ltac:(right; left; reflexivity)) as B2.
  clear B. destruct (signed_pubkey 0 _ (codes "alice") _ _ _ _) as [b| | | | |] eqn:E1; try discriminate B1.
  destruct (signed_pubkey 0 _ (codes "bob") _ _ _ _) as [b'| | | | |] eqn:E2; try discriminate B2.
  exists b, b'. split; [reflexivity|]. split; [reflexivity|]. intros Hc.
  destruct (signature_binds 0 (codes "session") (codes "session") (codes "alice") (codes "bob") (codes "ssh-connection")
    (codes "ssh-connection") 1 1 (codes "ssh-rsa") (codes "ssh-rsa") (codes "blob") (codes "blob") b b')
    as (_ & Hu & _); [ | |reflexivity| | | | | |exact E1|exact E2|exact Hc|discriminate Hu];
    try (apply Z.leb_le; vm_compute; reflexivity); try (unfold is_u8; lia).
  repeat constructor; try (apply Z.leb_le; vm_compute; reflexivity);
    (apply (bool_decide_unpack _); vm_compute; exact I).
Defined.
End Auth2Demo.
