(* ===== verification/Session.v ===== *)
(** * Sessions ([session.c])

    The table of sessions with its free list, the requests on the channel of a
    session, and the ways a session ends.  What [pty_allocate], [do_exec],
    [session_setup_x11fwd] and the functions of the operating system answer are
    arguments; calls into other parts are recorded as [event]s. *)

From S2P Require Import Prelude ByteOrder Buffer Crc32 Deattack Stdio SuperTrace HashMap Csbuflo.
From S2P Require Import CipherMac Packet Match Nchan AddrMatch Auth.

Record Session := mkSession {
  used : bool;
  self : Z;
  next_unused : Z;
  s_pw : option passwd;
  s_pid : Z;
  s_term : option (list Z);
  ptyfd : Z;
  ttyfd : Z;
  ptymaster : Z;
  row : Z;
  col : Z;
  xpixel : Z;
  ypixel : Z;
  tty : list Z;
  display : option (list Z);
  screen : Z;
  auth_display : option (list Z);
  auth_proto : option (list Z);
  auth_data : option (list Z);
  single_connection : Z;
  chanid : Z;
  x11_chanids : option (list Z);      (* without the final -1 *)
  is_subsystem : Z;
  s_env : list (list Z * list Z)
}.
#[export] Instance eta_Session : Eta Session := λ s,
  {| used := used s; self := self s; next_unused := next_unused s; s_pw := s_pw s; s_pid := s_pid s; s_term := s_term s;
     ptyfd := ptyfd s; ttyfd := ttyfd s; ptymaster := ptymaster s; row := row s; col := col s; xpixel := xpixel s;
     ypixel := ypixel s; tty := tty s; display := display s; screen := screen s; auth_display := auth_display s;
     auth_proto := auth_proto s; auth_data := auth_data s; single_connection := single_connection s; chanid := chanid s;
     x11_chanids := x11_chanids s; is_subsystem := is_subsystem s; s_env := s_env s |}.

(** Calls of other parts of the program and of the system. *)
Inductive event :=
| Ev_record_logout (pid : Z) (tty name : list Z)
| Ev_pty_release (tty : list Z)
| Ev_pty_setowner (tty : list Z)
| Ev_close (fd : Z)
| Ev_window_size (fd row col xpixel ypixel : Z)
| Ev_parse_modes (fd : Z)
| Ev_send_break (fd : Z)
| Ev_exec (command : option (list Z))
| Ev_setup_x11 (session : Z)
| Ev_close_x11 (channel : Z)
| Ev_request (channel : Z) (rtype : list Z) (items : list Items.item)
| Ev_register_cleanup (channel : Z)
| Ev_cancel_cleanup (channel : Z)
| Ev_write_failed (channel : Z)
| Ev_set_fds (channel fdin fdout fderr usage is_tty : Z)
| Ev_agent_forwarding
| Ev_record_login (pid : Z) (tty : list Z).

(** The file's variables and the packet that is being read. *)
Record sess := mkSess {
  sessions : list Session;
  sessions_first_unused : Z;
  agent_called : bool;
  s_packet : Buffer;
  events : list event
}.
#[export] Instance eta_sess : Eta sess := λ s,
  {| sessions := sessions s; sessions_first_unused := sessions_first_unused s; agent_called := agent_called s;
     s_packet := s_packet s; events := events s |}.

(** The options, the account and the rest of the process. *)
Record senv := mkSenv {
  max_sessions : Z;
  accept_env : list (list Z);
  subsystems : list (list Z * list Z * list Z);      (* name, command, arguments *)
  allow_agent_forwarding : bool;
  no_agent_forwarding_flag : bool;
  no_pty_flag : bool;
  se_compat20 : bool;
  se_privsep : bool;
  is_root : bool;
  (* name and descriptors of a new pty *)
  pty_allocate : nat → option (Z * Z * list Z);
  do_exec : nat → option (list Z) → Z;
  setup_x11fwd : nat → bool;
  agent_request : nat → bool;
  send_break_ok : nat → bool;
  channel_exists : Z → bool;
  channel_output_closed : Z → bool
}.

Definition SUBSYSTEM_EXT : Z := 1.
Definition SUBSYSTEM_INT_SFTP : Z := 2.
Definition INTERNAL_SFTP_NAME : list Z := Eval vm_compute in codes "internal-sftp".
Definition LARVAL : Z := SSH_CHANNEL_LARVAL.

(** [bzero] and the assignments of [session_unused]. *)
Definition empty_session (id next : Z) : Session :=
  mkSession false id next None 0 None (-1) (-1) (-1) 0 0 0 0 [] None 0 None None None 0 (-1) None 0 [].

Section Session.
Context (E : senv).

Definition nalloc (s : sess) : Z := Z.of_nat (length (sessions s)).
Definition fatalS {A} (e : string) : M sess A := λ _, Fatal e.
Definition disconnectS {A} (e : string) : M sess A := λ _, Disconnect e.
Definition emit (e : event) : M sess unit := modify (λ s, s <| events := events s ++ [e] |>).
(** An answer of the environment may depend on everything that was done. *)
Definition answer {A} (f : nat → A) : M sess A := gets (λ s, f (length (events s))).

(** A pointer to a session is its index. *)
Definition get_session (i : Z) : M sess Session := l ← gets sessions; liftO (zget l i).
Definition mod_session (i : Z) (f : Session → Session) : M sess unit :=
  l ← gets sessions; x ← liftO (zget l i); l ← liftO (zset l i (f x)); modify (λ s, s <| sessions := l |>).

(** ** The table *)

Definition session_unused (id : Z) : M sess unit :=
  n ← gets nalloc;
  if (max_sessions E <=? id) || (n <=? id) then fatalS "session_unused: insane session id"
  else
    next ← gets sessions_first_unused;
    _ ← mod_session id (λ _, empty_session id next);
    modify (λ s, s <| sessions_first_unused := id |>).

Definition session_new : M sess (option Z) :=
  fu ← gets sessions_first_unused;
  n ← gets nalloc;
  if (fu =? -1) && (max_sessions E <=? n) then mret None
  else
    _ ← when (fu =? -1) (
          (* fresh memory, filled by session_unused *)
          _ ← modify (λ s, s <| sessions := sessions s ++ [empty_session n (-1)] |>);
          session_unused n);
    fu ← gets sessions_first_unused;
    n ← gets nalloc;
    if (n <=? fu) || (fu <? 0) then fatalS "session_new: insane first_unused"
    else
      x ← get_session fu;
      if used x then fatalS "session_new: session already used"
      else
        _ ← modify (λ s, s <| sessions_first_unused := next_unused x |>);
        _ ← mod_session fu (λ x, x <| used := true |> <| next_unused := -1 |>);
        mret (Some fu).

Definition session_open (a_pw : option passwd) (a_valid : bool) (ch : Z) : M sess bool :=
  o ← session_new;
  match o with
  | None => mret false
  | Some i =>
      _ ← mod_session i (λ x, x <| s_pw := a_pw |>);
      if bool_decide (a_pw = None) || negb a_valid then fatalS "no user for session"
      else _ ← mod_session i (λ x, x <| chanid := ch |>); mret true
  end.

(** The loops of [session_by_...]: the first session with a property. *)
Fixpoint find_session (p : Session → bool) (l : list Session) (i : Z) : option Z :=
  match l with
  | [] => None
  | x :: l => if p x then Some i else find_session p l (i + 1)
  end.
Definition session_by_tty (t : list Z) : M sess (option Z) :=
  gets (λ s, find_session (λ x, used x && negb (ttyfd x =? -1) && bool_decide (tty x = t)) (sessions s) 0).
Definition session_by_channel (id : Z) : M sess (option Z) :=
  gets (λ s, find_session (λ x, used x && (chanid x =? id)) (sessions s) 0).
Definition session_by_x11_channel (id : Z) : M sess (option Z) :=
  gets (λ s, find_session (λ x, match x11_chanids x with None => false | Some l => used x && existsb (Z.eqb id) l end) (sessions s) 0).
Definition session_by_pid (pid : Z) : M sess (option Z) :=
  gets (λ s, find_session (λ x, used x && (s_pid x =? pid)) (sessions s) 0).

(** ** Requests *)

Definition sp_get {A} (f : Buffer → outcome (A * Buffer)) : M sess A :=
  b ← gets s_packet; '(a, b) ← liftO (f b); _ ← modify (λ s, s <| s_packet := b |>); mret a.
Definition sp_eom : M sess unit :=
  b ← gets s_packet; if 0 <? i32 (buffer_len b) then disconnectS "Packet integrity error." else skip.

Definition session_window_change_req (i : Z) : M sess bool :=
  c ← sp_get buffer_get_int; _ ← mod_session i (λ x, x <| col := c |>);
  r ← sp_get buffer_get_int; _ ← mod_session i (λ x, x <| row := r |>);
  xp ← sp_get buffer_get_int; _ ← mod_session i (λ x, x <| xpixel := xp |>);
  yp ← sp_get buffer_get_int; _ ← mod_session i (λ x, x <| ypixel := yp |>);
  _ ← sp_eom;
  x ← get_session i;
  _ ← emit (Ev_window_size (ptyfd x) (row x) (col x) (xpixel x) (ypixel x));
  mret true.

Definition session_pty_req (i : Z) : M sess bool :=
  x ← get_session i;
  if no_pty_flag E then mret false
  else if negb (ttyfd x =? -1) then disconnectS "Protocol error: you already have a pty."
  else
    term ← sp_get buffer_get_string;
    '(c, r) ← (if se_compat20 E then c ← sp_get buffer_get_int; r ← sp_get buffer_get_int; mret (c, r)
               else r ← sp_get buffer_get_int; c ← sp_get buffer_get_int; mret (c, r));
    xp ← sp_get buffer_get_int;
    yp ← sp_get buffer_get_int;
    _ ← mod_session i (λ x, x <| s_term := if bool_decide (cstr term = []) then None else Some (cstr term) |>
                              <| col := c |> <| row := r |> <| xpixel := xp |> <| ypixel := yp |>);
    p ← answer (pty_allocate E);
    match p with
    | None => _ ← mod_session i (λ x, x <| s_term := None |> <| ptyfd := -1 |> <| ttyfd := -1 |>); mret false
    | Some (pfd, tfd, name) =>
        _ ← mod_session i (λ x, x <| ptyfd := pfd |> <| ttyfd := tfd |> <| tty := name |>);
        _ ← emit (Ev_parse_modes tfd);
        _ ← when (negb (se_privsep E)) (emit (Ev_pty_setowner name));
        _ ← emit (Ev_window_size pfd r c xp yp);
        _ ← sp_eom;
        mret true
    end.

Definition exec (i : Z) (command : option (list Z)) : M sess bool :=
  r ← answer (λ t, do_exec E t command); _ ← emit (Ev_exec command); mret (r =? 0).

Fixpoint find_subsystem (name : list Z) (l : list (list Z * list Z * list Z)) : option (list Z * list Z) :=
  match l with
  | [] => None
  | (n, prog, args) :: l => if bool_decide (name = n) then Some (prog, args) else find_subsystem name l
  end.
Definition session_subsystem_req (i : Z) : M sess bool :=
  subsys ← sp_get buffer_get_string;
  _ ← sp_eom;
  match find_subsystem (cstr subsys) (subsystems E) with
  | None => mret false
  | Some (prog, cmd) =>
      _ ← mod_session i (λ x, x <| is_subsystem := if bool_decide (prog = INTERNAL_SFTP_NAME) then SUBSYSTEM_INT_SFTP else SUBSYSTEM_EXT |>);
      exec i (Some cmd)
  end.

Definition session_x11_req (i : Z) : M sess bool :=
  x ← get_session i;
  if negb (bool_decide (auth_proto x = None) && bool_decide (auth_data x = None)) then mret false
  else
    sc ← sp_get buffer_get_char;
    ap ← sp_get buffer_get_string;
    ad ← sp_get buffer_get_string;
    scr ← sp_get buffer_get_int;
    _ ← mod_session i (λ x, x <| single_connection := sc |> <| auth_proto := Some ap |> <| auth_data := Some ad |> <| screen := scr |>);
    _ ← sp_eom;
    ok ← answer (setup_x11fwd E);
    _ ← emit (Ev_setup_x11 i);
    _ ← when (negb ok) (mod_session i (λ x, x <| auth_proto := None |> <| auth_data := None |>));
    mret ok.

Definition session_shell_req (i : Z) : M sess bool := _ ← sp_eom; exec i None.
Definition session_exec_req (i : Z) : M sess bool :=
  command ← sp_get buffer_get_string; _ ← sp_eom; exec i (Some (cstr command)).
Definition session_break_req (i : Z) : M sess bool :=
  _ ← sp_get buffer_get_int;
  _ ← sp_eom;
  x ← get_session i;
  if ttyfd x =? -1 then mret false
  else ok ← answer (send_break_ok E); _ ← emit (Ev_send_break (ttyfd x)); mret ok.

Definition session_env_req (i : Z) : M sess bool :=
  name ← sp_get buffer_get_string;
  val ← sp_get buffer_get_string;
  _ ← sp_eom;
  x ← get_session i;
  if 128 <? Z.of_nat (length (s_env x)) then mret false
  else if existsb (match_pattern (cstr name)) (accept_env E) then
    _ ← mod_session i (λ x, x <| s_env := s_env x ++ [(cstr name, cstr val)] |>); mret true
  else mret false.

Definition session_auth_agent_req (i : Z) : M sess bool :=
  _ ← sp_eom;
  if no_agent_forwarding_flag E || negb (allow_agent_forwarding E) then mret false
  else
    c ← gets agent_called;
    if c : bool then mret false
    else
      _ ← modify (λ s, s <| agent_called := true |>);
      ok ← answer (agent_request E); _ ← emit Ev_agent_forwarding; mret ok.

Definition session_input_channel_req (c_self c_type : Z) (rtype : list Z) : M sess bool :=
  o ← session_by_channel c_self;
  match o with
  | None => mret false
  | Some i =>
      let named s := bool_decide (rtype = codes s) in
      success ← (if c_type =? LARVAL then
          if named "shell" then session_shell_req i
          else if named "exec" then session_exec_req i
          else if named "pty-req" then session_pty_req i
          else if named "x11-req" then session_x11_req i
          else if named "auth-agent-req@openssh.com" then session_auth_agent_req i
          else if named "subsystem" then session_subsystem_req i
          else if named "env" then session_env_req i
          else mret false
        else mret false);
      if named "window-change" then session_window_change_req i
      else if named "break" then session_break_req i
      else mret success
  end.

Definition session_set_fds (i fdin fdout fderr : Z) (ignore_fderr : bool) (is_tty : Z) : M sess unit :=
  if negb (se_compat20 E) then fatalS "session_set_fds: called for proto != 2.0"
  else
    x ← get_session i;
    if chanid x =? -1 then fatalS "no channel for session"
    else emit (Ev_set_fds (chanid x) fdout fdin fderr (if ignore_fderr then CHAN_EXTENDED_IGNORE else CHAN_EXTENDED_READ) is_tty).

(** ** The end of a session *)

Definition session_pty_cleanup2 (i : Z) : M sess unit :=
  x ← get_session i;
  if ttyfd x =? -1 then skip
  else
    _ ← (if s_pid x =? 0 then skip
         else match s_pw x with Some p => emit (Ev_record_logout (s_pid x) (tty x) (pw_name p)) | None => λ _, Fault end);
    _ ← when (is_root E) (emit (Ev_pty_release (tty x)));
    _ ← when (negb (ptymaster x =? -1)) (emit (Ev_close (ptymaster x)));
    mod_session i (λ x, x <| ttyfd := -1 |>).

(** [WIFEXITED] and the other macros, as Linux defines them. *)
Definition WTERMSIG (status : Z) : Z := Z.land status 0x7f.
Definition WIFEXITED (status : Z) : bool := WTERMSIG status =? 0.
Definition WEXITSTATUS (status : Z) : Z := Z.shiftr (Z.land status 0xff00) 8.
Definition WIFSIGNALED (status : Z) : bool := negb (WTERMSIG status =? 0) && negb (WTERMSIG status =? 0x7f).
Definition WCOREDUMP (status : Z) : bool := negb (Z.land status 0x80 =? 0).

(** The numbers of the signals on Linux. *)
Definition sig2name (sig : Z) : list Z :=
  if sig =? 6 then codes "ABRT" else if sig =? 14 then codes "ALRM" else if sig =? 8 then codes "FPE"
  else if sig =? 1 then codes "HUP" else if sig =? 4 then codes "ILL" else if sig =? 2 then codes "INT"
  else if sig =? 9 then codes "KILL" else if sig =? 13 then codes "PIPE" else if sig =? 3 then codes "QUIT"
  else if sig =? 11 then codes "SEGV" else if sig =? 15 then codes "TERM" else if sig =? 10 then codes "USR1"
  else if sig =? 12 then codes "USR2" else codes "SIG@openssh.com".

Definition session_exit_message (i status : Z) : M sess unit :=
  x ← get_session i;
  if negb (channel_exists E (chanid x)) then fatalS "session_exit_message: no channel"
  else
    _ ← (if WIFEXITED status then emit (Ev_request (chanid x) (codes "exit-status") [Items.Int (WEXITSTATUS status)])
         else if WIFSIGNALED status then
           emit (Ev_request (chanid x) (codes "exit-signal")
             [Items.CString (sig2name (WTERMSIG status)); Items.Char (b2z (WCOREDUMP status)); Items.CString []; Items.CString []])
         else disconnectS "wait returned status");
    _ ← emit (Ev_register_cleanup (chanid x));
    when (negb (channel_output_closed E (chanid x))) (emit (Ev_write_failed (chanid x))).

Definition session_close (i : Z) : M sess unit :=
  x ← get_session i;
  _ ← when (negb (ttyfd x =? -1)) (session_pty_cleanup2 i);
  session_unused (self x).

Definition session_close_by_pid (pid status : Z) : M sess unit :=
  o ← session_by_pid pid;
  match o with
  | None => skip
  | Some i =>
      x ← get_session i;
      _ ← when (negb (chanid x =? -1)) (session_exit_message i status);
      _ ← when (negb (ttyfd x =? -1)) (session_pty_cleanup2 i);
      mod_session i (λ x, x <| s_pid := 0 |>)
  end.

Fixpoint close_x11_channels (l : list Z) : M sess unit :=
  match l with [] => skip | c :: l => _ ← emit (Ev_close_x11 c); close_x11_channels l end.

Definition session_close_single_x11 (id : Z) : M sess unit :=
  _ ← emit (Ev_cancel_cleanup id);
  o ← session_by_x11_channel id;
  match o with
  | None => fatalS "session_close_single_x11: no x11 channel"
  | Some i =>
      x ← get_session i;
      _ ← close_x11_channels (filter (λ c, c ≠ id) (default [] (x11_chanids x)));
      mod_session i (λ x, x <| x11_chanids := None |> <| display := None |> <| auth_proto := None |>
                            <| auth_data := None |> <| auth_display := None |>)
  end.

Definition session_close_by_channel (id : Z) : M sess unit :=
  o ← session_by_channel id;
  match o with
  | None => skip
  | Some i =>
      x ← get_session i;
      if negb (s_pid x =? 0) then when (negb (ttyfd x =? -1)) (session_pty_cleanup2 i)
      else
        _ ← emit (Ev_cancel_cleanup (chanid x));
        _ ← close_x11_channels (default [] (x11_chanids x));
        _ ← mod_session i (λ x, x <| x11_chanids := (λ _, []) <$> x11_chanids x |> <| chanid := -1 |>);
        session_close i
  end.

(** The loop of [session_destroy_all] over the indices. *)
Fixpoint destroy_loop (close : Z → M sess unit) (n : nat) (i : Z) : M sess unit :=
  match n with
  | O => skip
  | S n =>
      x ← get_session i;
      _ ← when (used x) (close i);
      destroy_loop close n (i + 1)
  end.
Definition session_destroy_all (close : Z → M sess unit) : M sess unit :=
  n ← gets (λ s, length (sessions s)); destroy_loop close n 0.

(** The name of a terminal as [session_tty_list] shows it. *)
Fixpoint after_last_slash (s : list Z) : option (list Z) :=
  match s with
  | [] => None
  | c :: s => match after_last_slash s with Some r => Some r | None => if c =? 47 then Some s else None end
  end.
Definition tty_short (t : list Z) : list Z :=
  if has_prefix (codes "/dev/") t then drop 5 t else default t (after_last_slash t).
(** [strlcat(buf, s, 1024)] *)
Definition strlcat1024 (buf s : list Z) : list Z := take (Nat.max (length buf) 1023) (buf ++ s).
Definition session_tty_list (l : list Session) : list Z :=
  let buf := foldl (λ buf x, if used x && negb (ttyfd x =? -1) then
      strlcat1024 (if bool_decide (buf = []) then buf else strlcat1024 buf (codes ",")) (tty_short (tty x)) else buf) [] l in
  if bool_decide (buf = []) then codes "notty" else buf.

End Session.
