(* ===== verification/SessionProofs.v ===== *)
(** * Sessions: the free list of the table

    The sessions that are not in use form a list through [next_unused] that
    starts at [sessions_first_unused]; every request keeps this, so the
    consistency checks of [session_new] never fail. *)

From S2P Require Import Prelude ByteOrder Buffer Crc32 Deattack Stdio SuperTrace HashMap Csbuflo.
From S2P Require Import CipherMac Packet Match Nchan AddrMatch Auth Session.

Section Proofs.
Context (E : senv).

(** The fields that make up the free list. *)
Definition link (x : Session) : bool * Z * Z := (used x, self x, next_unused x).
Definition skel (s : sess) := (map link (sessions s), sessions_first_unused s).

(** The chain from an index. *)
Inductive chain (l : list (bool * Z * Z)) : Z → list Z → Prop :=
| chain_nil : chain l (-1) []
| chain_cons i sf next fr : 0 ≤ i → l !! Z.to_nat i = Some (false, sf, next) → chain l next fr → chain l i (i :: fr).

Record pool_of (l : list (bool * Z * Z)) (first : Z) : Prop := {
  po_free : ∃ fr, chain l first fr ∧ NoDup fr ∧
    ∀ i u sf next, l !! i = Some (u, sf, next) → sf = Z.of_nat i ∧ (u = false ↔ Z.of_nat i ∈ fr);
  po_max : Z.of_nat (length l) ≤ max_sessions E
}.
Definition pool (s : sess) : Prop := pool_of (skel s).1 (skel s).2.

(** ** Operations that leave the links alone *)

Lemma zget_inv {A} (l : list A) i x : zget l i = Ok x → 0 ≤ i ∧ l !! Z.to_nat i = Some x.
Proof. unfold zget. destruct (Z.ltb_spec i 0); [done|]. destruct (l !! Z.to_nat i); [|done]. by intros [= ->]. Qed.
Lemma zset_inv {A} (l : list A) i v l' : zset l i v = Ok l' → 0 ≤ i < Z.of_nat (length l) ∧ l' = <[Z.to_nat i := v]> l.
Proof.
  unfold zset. destruct (Z.ltb_spec i 0); [done|]. destruct (Z.leb_spec (Z.of_nat (length l)) i); [done|].
  cbn [orb]. intros [= <-]. split; [lia|done].
Qed.
Lemma mod_session_inv i f s s' :
  mod_session i f s = Ok (tt, s') → ∃ x, 0 ≤ i ∧ sessions s !! Z.to_nat i = Some x ∧
    s' = s <| sessions := <[Z.to_nat i := f x]> (sessions s) |>.
Proof.
  intros H. apply M_bind_inv in H as (l & s1 & [= <- <-] & H). apply M_bind_inv in H as (x & s1 & H1 & H).
  apply bind_Ok in H1 as (x' & [Hi Hx]%zget_inv & [= -> <-]). apply M_bind_inv in H as (l' & s1 & H1 & [= <-]).
  apply bind_Ok in H1 as (l2 & [_ ->]%zset_inv & [= <- <-]). eauto.
Qed.
Lemma get_session_inv i s x s' :
  get_session i s = Ok (x, s') → s' = s ∧ 0 ≤ i ∧ sessions s !! Z.to_nat i = Some x.
Proof.
  intros H. apply M_bind_inv in H as (l & s1 & [= <- <-] & H). apply bind_Ok in H as (x' & [Hi Hx]%zget_inv & [= -> <-]). done.
Qed.

Lemma mod_session_skel i f : (∀ x, link (f x) = link x) → keeps skel (mod_session i f).
Proof.
  intros Hf s [] s' (x & Hi & Hx & ->)%mod_session_inv. unfold skel. rsimpl. f_equal.
  rewrite list_fmap_insert, Hf. apply list_insert_id. by rewrite list_lookup_fmap, Hx.
Qed.
#[local] Hint Extern 1 (keeps skel (mod_session _ _)) => (apply mod_session_skel; intros ?; done) : keeps.
Lemma emit_skel e : keeps skel (emit e).
Proof. by apply keeps_modify. Qed.
Lemma sp_get_skel {A} (f : Buffer → outcome (A * Buffer)) : keeps skel (sp_get f).
Proof. unfold sp_get. keep. Qed.
Lemma sp_eom_skel : keeps skel sp_eom.
Proof. unfold sp_eom, disconnectS. keep. Qed.
Lemma get_session_skel i : keeps skel (get_session i).
Proof. unfold get_session. keep. Qed.
#[local] Hint Resolve emit_skel (@sp_get_skel) sp_eom_skel get_session_skel : keeps.
Lemma pty_cleanup_skel i : keeps skel (session_pty_cleanup2 E i).
Proof. unfold session_pty_cleanup2. keep. Qed.
Lemma close_x11_skel l : keeps skel (close_x11_channels l).
Proof. induction l; cbn [close_x11_channels]; keep. Qed.
#[local] Hint Resolve pty_cleanup_skel close_x11_skel : keeps.
Lemma exec_skel i c : keeps skel (exec E i c).
Proof. unfold exec, answer. keep. Qed.
#[local] Hint Resolve exec_skel : keeps.

Lemma requests_skel c_self c_type rtype : keeps skel (session_input_channel_req E c_self c_type rtype).
Proof.
  unfold session_input_channel_req, session_by_channel, session_shell_req, session_exec_req, session_pty_req, session_x11_req,
    session_auth_agent_req, session_subsystem_req, session_env_req, session_window_change_req, session_break_req, answer, disconnectS.
  keep.
Qed.
Lemma close_by_pid_skel pid status : keeps skel (session_close_by_pid E pid status).
Proof. unfold session_close_by_pid, session_by_pid, session_exit_message, fatalS, disconnectS. keep. Qed.
Lemma single_x11_skel id : keeps skel (session_close_single_x11 id).
Proof. unfold session_close_single_x11, session_by_x11_channel, fatalS. keep. Qed.

(** ** Operations on the free list *)

Lemma chain_insert l i v first fr : chain l first fr → i ∉ (Z.to_nat <$> fr) → chain (<[i := v]> l) first fr.
Proof.
  induction 1 as [|j sf next fr Hj Hl Hc IH]; intros Hi; [constructor|].
  rewrite fmap_cons, elem_of_cons in Hi. apply chain_cons with sf next; [done| |apply IH; tauto].
  rewrite list_lookup_insert_ne; [done|]. intros ->. tauto.
Qed.
Lemma chain_app l k first fr : chain l first fr → chain (l ++ k) first fr.
Proof. induction 1; econstructor; try done. by apply lookup_app_l_Some. Qed.
Lemma chain_bounds l first fr : chain l first fr → Forall (λ i, 0 ≤ i < Z.of_nat (length l)) fr.
Proof. induction 1 as [|i sf next fr Hi Hl Hc IH]; constructor; [|done]. apply lookup_lt_Some in Hl. lia. Qed.

Lemma fmap_to_nat (i : nat) fr : Forall (λ i, 0 ≤ i) fr → i ∈ (Z.to_nat <$> fr) ↔ Z.of_nat i ∈ fr.
Proof.
  intros Hf. rewrite list_elem_of_fmap. split.
  - intros (j & -> & Hj). rewrite Forall_forall in Hf. rewrite Z2Nat.id; [done|]. by apply Hf.
  - intros Hi. exists (Z.of_nat i). by rewrite Nat2Z.id.
Qed.

(** Putting a used session in front of the free list. *)
Lemma pool_push l first i sf next :
  pool_of l first → 0 ≤ i → l !! Z.to_nat i = Some (true, sf, next) → pool_of (<[Z.to_nat i := (false, i, first)]> l) i.
Proof.
  intros [(fr & Hc & Hnd & Hl) Hm] Hi Hx. pose proof (chain_bounds _ _ _ Hc) as Hb.
  assert (Hb' : Forall (λ i, 0 ≤ i) fr) by (eapply Forall_impl; [exact Hb|]; simpl; lia).
  destruct (Hl _ _ _ _ Hx) as [_ Hu]. rewrite Z2Nat.id in Hu by done.
  assert (i ∉ fr) as Hn by (intros Hin; by apply Hu in Hin).
  apply lookup_lt_Some in Hx as Hlt. split; [|by rewrite length_insert].
  exists (i :: fr). split_and!.
  - apply chain_cons with i first; [done|by rewrite list_lookup_insert_eq|]. apply chain_insert; [done|].
    rewrite fmap_to_nat, Z2Nat.id by done. done.
  - by constructor.
  - intros j u sf' next' Hj. destruct (decide (j = Z.to_nat i)) as [->|Hne].
    + rewrite list_lookup_insert_eq in Hj by done. injection Hj as <- <- <-. rewrite Z2Nat.id by done.
      split; [done|]. split; [by left|done].
    + rewrite list_lookup_insert_ne in Hj by done. destruct (Hl _ _ _ _ Hj) as [-> Hu']. split; [done|].
      rewrite Hu', elem_of_cons. split; [by right|]. intros [<-|?]; [|done]. by rewrite Nat2Z.id in Hne.
Qed.
(** Taking the first session of the free list. *)
Lemma pool_pop l first sf next :
  pool_of l first → 0 ≤ first → l !! Z.to_nat first = Some (false, sf, next) →
  pool_of (<[Z.to_nat first := (true, sf, -1)]> l) next.
Proof.
  intros [(fr & Hc & Hnd & Hl) Hm] Hi Hx. pose proof (chain_bounds _ _ _ Hc) as Hb.
  inversion Hc as [|? sf' next' fr' _ Hx' Hc']; subst; [lia|]. rewrite Hx in Hx'. injection Hx' as <- <-.
  apply NoDup_cons in Hnd as [Hn Hnd]. apply Forall_cons in Hb as [_ Hb].
  assert (Hb' : Forall (λ i, 0 ≤ i) fr') by (eapply Forall_impl; [exact Hb|]; simpl; lia).
  apply lookup_lt_Some in Hx as Hlt. split; [|by rewrite length_insert]. exists fr'. split_and!; [|done|].
  - apply chain_insert; [done|]. by rewrite fmap_to_nat, Z2Nat.id by done.
  - intros j u sf' next' Hj. destruct (decide (j = Z.to_nat first)) as [->|Hne].
    + rewrite list_lookup_insert_eq in Hj by done. injection Hj as <- <- <-. destruct (Hl _ _ _ _ Hx) as [-> _].
      rewrite Z2Nat.id by done. done.
    + rewrite list_lookup_insert_ne in Hj by done. destruct (Hl _ _ _ _ Hj) as [-> Hu]. split; [done|].
      rewrite Hu, elem_of_cons. split; [|by right]. intros [Hf|?]; [|done]. destruct Hne. lia.
Qed.
(** A new session at the end of a table without free ones. *)
Lemma pool_grow l :
  pool_of l (-1) → Z.of_nat (length l) < max_sessions E →
  pool_of (l ++ [(false, Z.of_nat (length l), -1)]) (Z.of_nat (length l)).
Proof.
  intros [(fr & Hc & Hnd & Hl) Hm] Hlt. inversion Hc; subst; [|lia]. split; [|rewrite length_app; simpl; lia].
  exists [Z.of_nat (length l)]. split_and!.
  - apply chain_cons with (Z.of_nat (length l)) (-1); [lia| |constructor].
    rewrite Nat2Z.id. by rewrite list_lookup_middle.
  - apply NoDup_singleton.
  - intros j u sf next Hj. rewrite list_elem_of_singleton. destruct (decide (j < length l)%nat) as [Hj'|Hj'].
    + rewrite lookup_app_l in Hj by done. destruct (Hl _ _ _ _ Hj) as [-> Hu]. split; [done|].
      rewrite Hu. split; [by intros ?%elem_of_nil|]. intros Heq. lia.
    + rewrite lookup_app_r in Hj by lia. destruct (j - length l)%nat eqn:Ej; [|done]. injection Hj as <- <- <-.
      split; [lia|]. split; [|done]. lia.
Qed.

Lemma skel_lookup s i x : sessions s !! i = Some x → (skel s).1 !! i = Some (link x).
Proof. intros Hx. unfold skel. cbn [fst]. by rewrite list_lookup_fmap, Hx. Qed.
Lemma skel_length s : length (skel s).1 = length (sessions s).
Proof. apply length_map. Qed.

(** Overwriting a session whose index is in range. *)
Lemma mod_session_ok i f s x :
  0 ≤ i → sessions s !! Z.to_nat i = Some x →
  mod_session i f s = Ok (tt, s <| sessions := <[Z.to_nat i := f x]> (sessions s) |>).
Proof.
  intros Hi Hx. apply lookup_lt_Some in Hx as Hlt. unfold mod_session. mstep.
  mstep_by (liftO_Ok _ _ s (zget_lookup _ _ _ Hi Hx)). unfold zset. zdec. mstep. done.
Qed.

(** [session_unused] on a session in use gives it back. *)
Lemma session_unused_pool id s x :
  pool s → 0 ≤ id → sessions s !! Z.to_nat id = Some x → used x = true →
  ∃ s', session_unused E id s = Ok (tt, s') ∧ pool s' ∧ length (sessions s') = length (sessions s) ∧
    ∀ j, j ≠ Z.to_nat id → sessions s' !! j = sessions s !! j.
Proof.
  intros Hp Hi Hx Hu. apply lookup_lt_Some in Hx as Hlt. pose proof (po_max _ _ Hp) as Hm. rewrite skel_length in Hm.
  unfold session_unused, nalloc. mstep. zdec. cbn [orb]. mstep. mstep_by (mod_session_ok id (λ _, empty_session id (sessions_first_unused s)) s x Hi Hx).
  eexists. split; [reflexivity|]. split_and!.
  - unfold pool, skel. rsimpl. cbn [fst snd]. rewrite list_fmap_insert.
    apply (pool_push _ _ _ (self x) (next_unused x)); [exact Hp|done|]. apply skel_lookup in Hx. unfold link in Hx. by rewrite Hu in Hx.
  - rsimpl. by rewrite length_insert.
  - intros j Hj. rsimpl. by rewrite list_lookup_insert_ne.
Qed.

Lemma full_pool l first : pool_of l first → first = -1 → ∀ i u sf next, l !! i = Some (u, sf, next) → u = true.
Proof.
  intros [(fr & Hc & _ & Hl) _] -> i u sf next Hi. inversion Hc; subst; [|lia].
  destruct (Hl _ _ _ _ Hi) as [_ Hu]. destruct u; [done|]. exfalso. exact (proj1 (elem_of_nil _) (proj1 Hu eq_refl)).
Qed.
Lemma first_free l first : pool_of l first → first ≠ -1 →
  0 ≤ first < Z.of_nat (length l) ∧ ∃ sf next, l !! Z.to_nat first = Some (false, sf, next).
Proof.
  intros [(fr & Hc & _) _] Hf. pose proof (chain_bounds _ _ _ Hc) as Hb. inversion Hc; subst; [done|].
  apply Forall_cons in Hb as [Hb _]. eauto.
Qed.

(** Taking the first free session, the second half of [session_new]. *)
Lemma session_take s :
  pool s → sessions_first_unused s ≠ -1 →
  ∃ i x s', (fu ← gets sessions_first_unused;
         n ← gets nalloc;
         if (n <=? fu) || (fu <? 0) then fatalS "session_new: insane first_unused"
         else
           x ← get_session fu;
           if used x then fatalS "session_new: session already used"
           else
             _ ← modify (λ s, s <| sessions_first_unused := next_unused x |>);
             _ ← mod_session fu (λ x, x <| used := true |> <| next_unused := -1 |>);
             mret (Some fu)) s = Ok (Some i, s') ∧ pool s' ∧ 0 ≤ i ∧
    sessions s !! Z.to_nat i = Some x ∧ used x = false ∧
    sessions s' = <[Z.to_nat i := x <| used := true |> <| next_unused := -1 |>]> (sessions s) ∧ i = sessions_first_unused s.
Proof.
  intros Hp Hf. destruct (first_free _ _ Hp Hf) as ([Hf0 Hf1] & sf & next & Hl). rewrite skel_length in Hf1.
  cbn [skel snd] in Hf0, Hf1, Hl. unfold skel in Hl. cbn [fst] in Hl. rewrite list_lookup_fmap in Hl.
  destruct (sessions s !! Z.to_nat (sessions_first_unused s)) as [x|] eqn:Hx; [|done].
  cbn [fmap option_fmap option_map] in Hl. injection Hl as Hu Hs Hn. unfold nalloc.
  exists (sessions_first_unused s), x. mstep. mstep. zdec. cbn [orb].
  assert (get_session (sessions_first_unused s) s = Ok (x, s)) as Hg.
  { unfold get_session. mstep. apply liftO_Ok, zget_lookup; [done|exact Hx]. }
  mstep_by Hg. rewrite Hu. mstep.
  set (s1 := s <| sessions_first_unused := next_unused x |>).
  mstep_by (mod_session_ok (sessions_first_unused s) (λ x, x <| used := true |> <| next_unused := -1 |>) s1 x Hf0 Hx).
  eexists. split; [reflexivity|]. split_and!; try done.
  unfold pool, skel, s1. rsimpl. cbn [fst snd]. rewrite list_fmap_insert.
  change (link (x <| used := true |> <| next_unused := -1 |>)) with (true, self x, -1).
  apply (pool_pop _ _ (self x) (next_unused x)); [exact Hp|exact Hf0|].
  apply skel_lookup in Hx. unfold link in Hx. by rewrite Hu in Hx.
Qed.

(** A session of a well formed table: none if all [MaxSessions] are in use,
    else one that was not in use. *)
Lemma session_new_pool s :
  pool s → 0 ≤ max_sessions E →
  ∃ o s', session_new E s = Ok (o, s') ∧ pool s' ∧
  match o with
  | None => s' = s ∧ nalloc s = max_sessions E ∧ Forall (λ x, used x = true) (sessions s)
  | Some i =>
      0 ≤ i ∧ (∃ x, sessions s' !! Z.to_nat i = Some x ∧ used x = true) ∧
      (∀ x, sessions s !! Z.to_nat i = Some x → used x = false) ∧
      (∀ j x, j ≠ Z.to_nat i → sessions s !! j = Some x → sessions s' !! j = Some x)
  end.
Proof.
  intros Hp Hm. unfold session_new. mstep. mstep.
  destruct (Z.eqb_spec (sessions_first_unused s) (-1)) as [Hf|Hf]; cbn [andb].
  - destruct (Z.leb_spec (max_sessions E) (nalloc s)) as [Hn|Hn].
    { exists None, s. split_and!; try done.
      - pose proof (po_max _ _ Hp) as Hx. rewrite skel_length in Hx. unfold nalloc in *. lia.
      - apply Forall_lookup. intros i x Hx. apply skel_lookup in Hx. by eapply (full_pool _ _ Hp Hf). }
    set (s1 := s <| sessions := sessions s ++ [empty_session (nalloc s) (-1)] |>).
    assert (session_unused E (nalloc s) s1 = Ok (tt, s1 <| sessions_first_unused := nalloc s |>)) as Hun.
    { assert (Hx : sessions s1 !! Z.to_nat (nalloc s) = Some (empty_session (nalloc s) (-1))).
      { unfold s1, nalloc. rsimpl. rewrite Nat2Z.id. by apply list_lookup_middle. }
      assert (Hn1 : nalloc s1 = nalloc s + 1) by (unfold nalloc, s1; rsimpl; rewrite length_app; simpl; lia).
      assert (Hn0 : 0 ≤ nalloc s) by (unfold nalloc; lia).
      unfold session_unused. mstep. rewrite Hn1. zdec. cbn [orb]. mstep.
      mstep_by (mod_session_ok (nalloc s) (λ _, empty_session (nalloc s) (sessions_first_unused s1)) s1 _ Hn0 Hx).
      unfold s1. rsimpl. rewrite Hf. unfold nalloc. rewrite Nat2Z.id.
      by rewrite insert_app_r_alt, Nat.sub_diag by lia. }
    assert (Hp1 : pool (s1 <| sessions_first_unused := nalloc s |>)).
    { unfold pool, skel, s1. rsimpl. cbn [fst snd]. rewrite map_app. cbn [map].
      change (link (empty_session (nalloc s) (-1))) with (false, nalloc s, -1). unfold nalloc in *.
      rewrite <- (length_map link (sessions s)). apply pool_grow; [|by rewrite length_map].
      unfold pool, skel in Hp. cbn [fst snd] in Hp. by rewrite Hf in Hp. }
    destruct (session_take _ Hp1) as (i & x & s' & Hi & Hps & Hi0 & Hx & Hu & Hs' & Hie).
    { rsimpl. unfold nalloc. lia. }
    unfold when. rewrite (M_bind_Ok _ _ s tt (s1 <| sessions_first_unused := nalloc s |>)) by (mstep; exact Hun).
    rsimpl_in Hie. rsimpl_in Hs'. rsimpl_in Hx. subst i. apply lookup_lt_Some in Hx as Hlt.
    exists (Some (nalloc s)), s'. split_and!; [exact Hi|done|done| | |].
    + eexists. rewrite Hs', list_lookup_insert_eq by done. split; [reflexivity|done].
    + intros y Hy. apply lookup_lt_Some in Hy. unfold nalloc in Hy. lia.
    + intros j y Hj Hy. rewrite Hs', list_lookup_insert_ne by done. unfold s1. rsimpl. by apply lookup_app_l_Some.
  - destruct (session_take s Hp Hf) as (i & x & s' & Hi & Hps & Hi0 & Hx & Hu & Hs' & Hie).
    rewrite (M_bind_Ok _ _ s tt s) by done. exists (Some i), s'. apply lookup_lt_Some in Hx as Hlt.
    split_and!; [exact Hi|done|done| | |].
    + eexists. rewrite Hs', list_lookup_insert_eq by done. split; [reflexivity|done].
    + intros y Hy. congruence.
    + intros j y Hj Hy. by rewrite Hs', list_lookup_insert_ne.
Qed.

(** ** All operations *)

Lemma pool_skel s s' : skel s' = skel s → pool s → pool s'.
Proof. unfold pool. by intros ->. Qed.

Lemma find_session_inv p l : ∀ i j, find_session p l i = Some j →
  i ≤ j ∧ ∃ x, l !! Z.to_nat (j - i) = Some x ∧ p x = true.
Proof.
  induction l as [|x l IH]; intros i j; cbn [find_session]; [done|]. destruct (p x) eqn:Ep.
  - intros [= <-]. split; [lia|]. rewrite Z.sub_diag. eauto.
  - intros (Hij & y & Hy & Hp)%IH. split; [lia|]. exists y. split; [|done].
    replace (Z.to_nat (j - i)) with (S (Z.to_nat (j - (i + 1)))) by lia. done.
Qed.

(** Closing a session that is in use. *)
Lemma session_close_pool i s s' :
  pool s → (∃ x, sessions s !! Z.to_nat i = Some x ∧ used x = true) → session_close E i s = Ok (tt, s') →
  pool s' ∧ length (sessions s') = length (sessions s) ∧
  ∀ j, j ≠ Z.to_nat i → (skel s').1 !! j = (skel s).1 !! j.
Proof.
  intros Hp (x & Hx & Hu) H. apply M_bind_inv in H as (x' & s1 & (-> & Hi & Hx')%get_session_inv & H).
  rewrite Hx in Hx'. injection Hx' as <-. apply M_bind_inv in H as ([] & s1 & H1 & H).
  assert (skel s1 = skel s) as Hsk.
  { destruct (negb (ttyfd x =? -1)); [|by injection H1 as <-]. by eapply pty_cleanup_skel. }
  destruct (po_free _ _ Hp) as (fr & _ & _ & Hl). destruct (Hl _ _ _ _ (skel_lookup _ _ _ Hx)) as [Hself _].
  rewrite Z2Nat.id in Hself by done. rewrite Hself in H.
  assert (Hx1 : (skel s1).1 !! Z.to_nat i = Some (link x)) by (rewrite Hsk; by apply skel_lookup).
  unfold skel in Hx1. cbn [fst] in Hx1. rewrite list_lookup_fmap in Hx1.
  destruct (sessions s1 !! Z.to_nat i) as [x1|] eqn:Ex1; [|done]. cbn [fmap option_fmap option_map] in Hx1. injection Hx1 as Hu1 _ _.
  destruct (session_unused_pool i s1 x1 (pool_skel _ _ Hsk Hp) Hi Ex1 ltac:(congruence)) as (s2 & H2 & Hp2 & Hl2 & Ho2).
  rewrite H in H2. injection H2 as <-. split_and!; [done| |].
  - rewrite Hl2, <- skel_length, Hsk. apply skel_length.
  - intros j Hj. rewrite <- Hsk. unfold skel. cbn [fst]. rewrite !list_lookup_fmap. by rewrite Ho2.
Qed.

Definition pool_moves {A} (m : M sess A) : Prop := moves (λ s s', pool s → pool s') m.
#[local] Instance pool_preorder : PreOrder (λ s s', pool s → pool s').
Proof. split; [by intros s|intros ???; tauto]. Qed.
Lemma pool_keeps {A} (m : M sess A) : keeps skel m → pool_moves m.
Proof. apply moves_keeps. intros ? ? ?. by apply pool_skel. Qed.


Lemma close_by_channel_pool id : pool_moves (session_close_by_channel E id).
Proof.
  intros s [] s' H Hp. apply M_bind_inv in H as (o & s1 & [= <- <-] & H).
  destruct (find_session _ (sessions s) 0) as [i|] eqn:Hf; [|by injection H as <-].
  apply find_session_inv in Hf as (Hi & x & Hx & [Hu _]%andb_true_iff). rewrite Z.sub_0_r in Hx.
  apply M_bind_inv in H as (x' & s1 & (-> & _ & Hx')%get_session_inv & H). rewrite Hx in Hx'. injection Hx' as <-.
  destruct (negb (s_pid x =? 0)).
  { destruct (negb (ttyfd x =? -1)); [|by injection H as <-]. eapply pool_skel; [|exact Hp]. by eapply pty_cleanup_skel. }
  apply M_bind_inv in H as ([] & s1 & H1 & H). apply M_bind_inv in H as ([] & s2 & H2 & H).
  apply M_bind_inv in H as ([] & s3 & H3 & H).
  assert (skel s3 = skel s) as Hsk.
  { transitivity (skel s2); [|transitivity (skel s1)].
    - eapply (mod_session_skel i); [|exact H3]. done.
    - by eapply close_x11_skel.
    - by eapply emit_skel. }
  eapply session_close_pool; [by eapply pool_skel| |exact H].
  assert (Hx3 : (skel s3).1 !! Z.to_nat i = Some (link x)) by (rewrite Hsk; by apply skel_lookup).
  unfold skel in Hx3. cbn [fst] in Hx3. rewrite list_lookup_fmap in Hx3.
  destruct (sessions s3 !! Z.to_nat i) as [x3|]; [|done]. cbn [fmap option_fmap option_map] in Hx3. injection Hx3 as Hu3 _ _.
  exists x3. split; [done|congruence].
Qed.

Lemma destroy_loop_pool n : ∀ i, pool_moves (destroy_loop (session_close E) n i).
Proof.
  induction n as [|n IH]; intros i s [] s' H Hp; cbn [destroy_loop] in H; [by injection H as <-|].
  apply M_bind_inv in H as (x & s1 & (-> & Hi & Hx)%get_session_inv & H). apply M_bind_inv in H as ([] & s1 & H1 & H).
  eapply IH; [exact H|]. destruct (used x) eqn:Hu; [|by injection H1 as <-].
  eapply session_close_pool; [exact Hp|by eauto|exact H1].
Qed.

Lemma session_open_pool p v ch : 0 ≤ max_sessions E → pool_moves (session_open E p v ch).
Proof.
  intros Hm s b s' H Hp. apply M_bind_inv in H as (o & s1 & H1 & H).
  destruct (session_new_pool s Hp Hm) as (o' & s2 & H2 & Hp2 & _). rewrite H1 in H2. injection H2 as <- <-.
  destruct o as [i|]; [|by injection H as <- <-]. revert H Hp2. apply pool_keeps. unfold fatalS. keep.
Qed.

(** What happens to the sessions of a connection. *)
Inductive sop :=
| Op_open (a_pw : option passwd) (a_valid : bool) (ch : Z)
| Op_new
| Op_request (c_self c_type : Z) (rtype payload : list Z)
| Op_close_by_pid (pid status : Z)
| Op_close_by_channel (id : Z)
| Op_close_single_x11 (id : Z)
| Op_destroy_all.
Definition run_sop (o : sop) : M sess unit :=
  match o with
  | Op_open p v ch => _ ← session_open E p v ch; skip
  | Op_new => _ ← session_new E; skip
  | Op_request cs ct r payload =>
      b ← liftO (buffer_append buffer_init payload);
      _ ← modify (λ s, s <| s_packet := b |>);
      _ ← session_input_channel_req E cs ct r; skip
  | Op_close_by_pid pid st => session_close_by_pid E pid st
  | Op_close_by_channel id => session_close_by_channel E id
  | Op_close_single_x11 id => session_close_single_x11 id
  | Op_destroy_all => session_destroy_all (session_close E)
  end.
Fixpoint run_sops (l : list sop) : M sess unit :=
  match l with [] => skip | o :: l => _ ← run_sop o; run_sops l end.
Definition sess_init : sess := mkSess [] (-1) false buffer_init [].

Lemma run_sop_pool o : 0 ≤ max_sessions E → pool_moves (run_sop o).
Proof.
  intros Hm. destruct o; cbn [run_sop].
  - apply moves_bind; [apply _|by apply session_open_pool|intros _; apply moves_ret, _].
  - apply moves_bind; [apply _| |intros _; apply moves_ret, _].
    intros s o s' H Hp. destruct (session_new_pool s Hp Hm) as (o' & s2 & H2 & Hp2 & _). rewrite H in H2. by injection H2 as <- <-.
  - apply pool_keeps. pose proof (requests_skel c_self c_type rtype). keep.
  - apply pool_keeps, close_by_pid_skel.
  - apply close_by_channel_pool.
  - apply pool_keeps, single_x11_skel.
  - apply moves_bind; [apply _|apply moves_gets, _|intros n; apply destroy_loop_pool].
Qed.
Lemma run_sops_pool l : 0 ≤ max_sessions E → pool_moves (run_sops l).
Proof.
  intros Hm. induction l as [|o l IH]; cbn [run_sops]; [apply moves_ret, _|].
  apply moves_bind; [apply _|by apply run_sop_pool|intros _; apply IH].
Qed.

Lemma pool_init : 0 ≤ max_sessions E → pool sess_init.
Proof.
  intros Hm. split; [|exact Hm]. exists []. split_and!; [constructor|constructor|]. intros i u sf next Hi. done.
Qed.

(** C26: After any sequence of requests, exits and closings on a connection,
    [session_new] passes its consistency checks: it returns a session that
    nobody uses and leaves the others alone, or none, and this only if all
    [MaxSessions] sessions are in use. *)
Theorem session_table_sound ops s :
  0 ≤ max_sessions E → run_sops ops sess_init = Ok (tt, s) →
  ∃ o s', session_new E s = Ok (o, s') ∧
  match o with
  | None => s' = s ∧ nalloc s = max_sessions E ∧ Forall (λ x, used x = true) (sessions s)
  | Some i =>
      0 ≤ i < max_sessions E ∧ (∀ x, sessions s !! Z.to_nat i = Some x → used x = false) ∧
      (∀ j x, j ≠ Z.to_nat i → sessions s !! j = Some x → sessions s' !! j = Some x)
  end.
Proof.
  intros Hm H. pose proof (run_sops_pool ops Hm _ _ _ H (pool_init Hm)) as Hp.
  destruct (session_new_pool s Hp Hm) as (o & s' & Hn & Hp' & Ho). exists o, s'. split; [done|].
  destruct o as [i|]; [|done]. destruct Ho as (Hi & (x & Hx & _) & Ho). split; [|done]. split; [done|].
  apply lookup_lt_Some in Hx. pose proof (po_max _ _ Hp') as Hmax. rewrite skel_length in Hmax. lia.
Qed.
End Proofs.

Module SessionDemo.
Definition E : senv := mkSenv 2 [codes "LANG"] [] false false false true false true
  (λ _, Some (5, 6, codes "/dev/pts/1")) (λ _ _, 0) (λ _, false) (λ _, false) (λ _, true) (λ _, true) (λ _, false).
Definition ops : list sop :=
  [Op_open (Some AuthDemo.alice) true 0; Op_open (Some AuthDemo.alice) true 1; Op_close_by_channel 0; Op_open (Some AuthDemo.alice) true 2].
Lemma session_table_sound_witness :
  ∃ s, run_sops E ops sess_init = Ok (tt, s) ∧ nalloc s = 2 ∧ session_new E s = Ok (None, s).
Proof.
  assert (B : match run_sops E ops sess_init with
              | Ok (_, s) => match session_new E s with Ok (None, _) => true | _ => false end | _ => false end = true)
    by (vm_compute; reflexivity).
  destruct (run_sops E ops sess_init) as [[[] s]| | | | |] eqn:R; try discriminate B.
  exists s. split; [reflexivity|].
  destruct (session_table_sound E ops s ltac:(vm_compute; discriminate) R) as (o & s' & Hn & Ho).
  rewrite Hn in B. destruct o as [i|]; [discriminate B|]. destruct Ho as (-> & Hm & _). split; [exact Hm|exact Hn].
Defined.
End SessionDemo.
