(* ===== verification/BufBn.v ===== *)
(** * Big numbers and curve points in buffers ([bufbn.c], [bufec.c])

    The two encodings of big numbers (with a bit count for protocol 1, as a
    string with the sign bit clear for protocol 2) and of points of an elliptic
    curve.  [BIGNUM] and [EC_POINT] belong to OpenSSL: the classes [Bignum] and
    [Curve] have the functions that are used, [BignumOk] and [CurveOk] what
    their documentation says.  The theorem: what is put is what is got. *)

From S2P Require Import Prelude ByteOrder Buffer.

(** ** Big-endian digits *)

Definition be_val (l : list Z) : Z := foldl (λ v b, v * 256 + b) 0 l.
Fixpoint be_digits (n : nat) (v : Z) : list Z :=
  match n with O => [] | S n => be_digits n (v / 256) ++ [v mod 256] end.
Definition nbits (v : Z) : Z := if v =? 0 then 0 else Z.log2 v + 1.
Definition be_bytes (v : Z) : list Z := be_digits (Z.to_nat ((nbits v + 7) / 8)) v.

Class Bignum := {
  bn : Type;
  BN_num_bits : bn → Z;
  BN_bn2bin : bn → list Z;
  BN_bin2bn : list Z → option bn;
  BN_is_zero : bn → bool;
  bn_neg : bn → bool
}.

(** A number is written without leading zeros and read with them. *)
Class BignumOk `{Bignum} := {
  bn_val : bn → Z;
  bn_val_inj : ∀ a b, bn_val a = bn_val b → a = b;
  num_bits_ok : ∀ a, BN_num_bits a = nbits (Z.abs (bn_val a));
  bn2bin_ok : ∀ a, BN_bn2bin a = be_bytes (Z.abs (bn_val a));
  bin2bn_ok : ∀ l, bytes l → ∃ a, BN_bin2bn l = Some a ∧ bn_val a = be_val l;
  is_zero_ok : ∀ a, BN_is_zero a = (bn_val a =? 0);
  neg_ok : ∀ a, bn_neg a = (bn_val a <? 0)
}.

Class Curve := {
  ec_group : Type;
  ec_point : Type;
  EC_POINT_point2oct : ec_group → ec_point → list Z;
  EC_POINT_oct2point : ec_group → list Z → option ec_point
}.
(** The uncompressed form of a point starts with a byte 4. *)
Class CurveOk `{Curve} := {
  point2oct_ok : ∀ g p, ∃ l, EC_POINT_point2oct g p = 4 :: l;
  oct2point_ok : ∀ g p, EC_POINT_oct2point g (EC_POINT_point2oct g p) = Some p
}.

(** ** bufbn.c *)

Section BufBn.
Context `{Bignum}.

Definition BN_num_bytes (a : bn) : Z := (BN_num_bits a + 7) / 8.

(** [xmalloc] of no bytes does not return. *)
Definition buffer_put_bignum_ret (b : Buffer) (value : bn) : outcome (Z * Buffer) :=
  let bits := BN_num_bits value in
  let bin_size := (bits + 7) / 8 in
  if bin_size =? 0 then Fatal "xmalloc: zero size"
  else
    let buf := BN_bn2bin value in
    if negb (Z.of_nat (length buf) =? bin_size) then Ok (-1, b)
    else
      b ← buffer_append b (put_u16 bits);
      b ← buffer_append b buf;
      Ok (0, b).
Definition buffer_put_bignum (b : Buffer) (value : bn) : outcome Buffer :=
  '(r, b) ← buffer_put_bignum_ret b value;
  if r =? -1 then Fatal "buffer_put_bignum: buffer error" else Ok b.

Definition buffer_get_bignum_ret (b : Buffer) : option bn * Buffer :=
  match buffer_get_ret b 2 with
  | (None, b) => (None, b)
  | (Some buf, b) =>
      let bits := get_u16 buf in
      let bytes := (bits + 7) / 8 in
      if 8 * 1024 <? bytes then (None, b)
      else if buffer_len b <? bytes then (None, b)
      else match BN_bin2bn (take (Z.to_nat bytes) (buffer_ptr b)) with
           | None => (None, b)
           | Some value =>
               match buffer_consume_ret b bytes with
               | (r, b) => if r =? -1 then (None, b) else (Some value, b)
               end
           end
  end.
Definition buffer_get_bignum (b : Buffer) : outcome (bn * Buffer) :=
  or_fatal "buffer_get_bignum: buffer error" (buffer_get_bignum_ret b).

Definition buffer_put_bignum2_ret (b : Buffer) (value : bn) : outcome (Z * Buffer) :=
  if BN_is_zero value then b ← buffer_put_int b 0; Ok (0, b)
  else if bn_neg value then Ok (-1, b)
  else
    let bytes := BN_num_bytes value + 1 in
    if bytes <? 2 then Ok (-1, b)
    else
      let bin := BN_bn2bin value in
      let buf := 0 :: bin in
      if negb (Z.of_nat (length bin) =? bytes - 1) then Ok (-1, b)
      else
        let hasnohigh := if negb (Z.land (byte_at buf 1) 0x80 =? 0) then 0%nat else 1%nat in
        b ← buffer_put_string b (drop hasnohigh buf);
        Ok (0, b).
Definition buffer_put_bignum2 (b : Buffer) (value : bn) : outcome Buffer :=
  '(r, b) ← buffer_put_bignum2_ret b value;
  if r =? -1 then Fatal "buffer_put_bignum2: buffer error" else Ok b.

Definition buffer_get_bignum2_ret (b : Buffer) : option bn * Buffer :=
  match buffer_get_string_ret b with
  | (None, b) => (None, b)
  | (Some bin, b) =>
      let len := Z.of_nat (length bin) in
      if (0 <? len) && negb (Z.land (byte_at bin 0) 0x80 =? 0) then (None, b)
      else if 8 * 1024 <? len then (None, b)
      else match BN_bin2bn bin with None => (None, b) | Some value => (Some value, b) end
  end.
Definition buffer_get_bignum2 (b : Buffer) : outcome (bn * Buffer) :=
  or_fatal "buffer_get_bignum2: buffer error" (buffer_get_bignum2_ret b).
End BufBn.

(** ** bufec.c *)

Definition BUFFER_MAX_ECPOINT_LEN : Z := 528 * 2 / 8 + 1.
Definition POINT_CONVERSION_UNCOMPRESSED : Z := 4.

Section BufEc.
Context `{Curve}.

Definition buffer_put_ecpoint_ret (b : Buffer) (curve : ec_group) (point : ec_point) : outcome (Z * Buffer) :=
  let buf := EC_POINT_point2oct curve point in
  let len := Z.of_nat (length buf) in
  if BUFFER_MAX_ECPOINT_LEN <? len then Ok (-1, b)
  else if len =? 0 then Fatal "xmalloc: zero size"
  else b ← buffer_put_string b buf; Ok (0, b).
Definition buffer_put_ecpoint (b : Buffer) (curve : ec_group) (point : ec_point) : outcome Buffer :=
  '(r, b) ← buffer_put_ecpoint_ret b curve point;
  if r =? -1 then Fatal "buffer_put_ecpoint: buffer error" else Ok b.

Definition buffer_get_ecpoint_ret (b : Buffer) (curve : ec_group) : option ec_point * Buffer :=
  match buffer_get_string_ret b with
  | (None, b) => (None, b)
  | (Some buf, b) =>
      let len := Z.of_nat (length buf) in
      if BUFFER_MAX_ECPOINT_LEN <? len then (None, b)
      else if len =? 0 then (None, b)
      else if negb (byte_at buf 0 =? POINT_CONVERSION_UNCOMPRESSED) then (None, b)
      else (EC_POINT_oct2point curve buf, b)
  end.
Definition buffer_get_ecpoint (b : Buffer) (curve : ec_group) : outcome (ec_point * Buffer) :=
  or_fatal "buffer_get_ecpoint: buffer error" (buffer_get_ecpoint_ret b curve).
End BufEc.

(** ** Facts on digits *)

Lemma be_val_app l k : be_val (l ++ k) = be_val l * 256 ^ Z.of_nat (length k) + be_val k.
Proof.
  unfold be_val. rewrite foldl_app. generalize (foldl (λ v b, v * 256 + b) 0 l). clear l.
  induction k as [|b k IH] using rev_ind; intros v; [simpl; lia|].
  rewrite !foldl_app, length_app, Nat2Z.inj_add. simpl length. cbn [foldl]. rewrite IH, Z.pow_add_r by lia. lia.
Qed.
Lemma be_digits_length n v : length (be_digits n v) = n.
Proof. revert v. induction n as [|n IH]; intros v; [done|]. cbn [be_digits]. rewrite length_app, IH. simpl. lia. Qed.
Lemma be_digits_bytes n v : bytes (be_digits n v).
Proof.
  revert v. induction n as [|n IH]; intros v; [constructor|]. cbn [be_digits]. apply Forall_app. split; [apply IH|].
  constructor; [|constructor]. apply Z.mod_pos_bound. lia.
Qed.
Lemma be_val_digits n v : 0 ≤ v < 256 ^ Z.of_nat n → be_val (be_digits n v) = v.
Proof.
  revert v. induction n as [|n IH]; intros v Hv; [simpl in *; unfold be_val; simpl; lia|].
  cbn [be_digits]. rewrite Nat2Z.inj_succ, Z.pow_succ_r in Hv by lia. rewrite be_val_app, IH.
  - unfold be_val. simpl length. cbn [foldl]. change (256 ^ Z.of_nat 1) with 256. pose proof (Z.div_mod v 256). lia.
  - split; [apply Z.div_pos; lia|]. apply Z.div_lt_upper_bound; lia.
Qed.

Lemma nbits_bound v : 0 ≤ v → v < 2 ^ nbits v ∧ 0 ≤ nbits v.
Proof.
  intros Hv. unfold nbits. destruct (Z.eqb_spec v 0) as [->|]; [simpl; lia|].
  pose proof (Z.log2_nonneg v). split; [|lia]. apply Z.log2_spec. lia.
Qed.
Lemma nbits_le v n : 0 ≤ v < 2 ^ n → 0 ≤ n → nbits v ≤ n.
Proof.
  intros Hv Hn. unfold nbits. destruct (Z.eqb_spec v 0) as [->|]; [done|].
  assert (Z.log2 v < n) by (apply Z.log2_lt_pow2; lia). lia.
Qed.
Lemma be_bytes_length v : 0 ≤ v → Z.of_nat (length (be_bytes v)) = (nbits v + 7) / 8.
Proof.
  intros Hv. unfold be_bytes. rewrite be_digits_length. destruct (nbits_bound v Hv) as [_ Hn].
  rewrite Z2Nat.id; [done|]. apply Z.div_pos; lia.
Qed.
Lemma be_bytes_bytes v : bytes (be_bytes v).
Proof. apply be_digits_bytes. Qed.
Lemma be_bytes_val v : 0 ≤ v → be_val (be_bytes v) = v.
Proof.
  intros Hv. destruct (nbits_bound v Hv) as [Hb Hn]. pose proof (Z.div_mod (nbits v + 7) 8) as Hd.
  pose proof (Z.mod_pos_bound (nbits v + 7) 8). apply be_val_digits. split; [done|].
  rewrite Z2Nat.id by (apply Z.div_pos; lia). change 256 with (2 ^ 8). rewrite <- Z.pow_mul_r by lia.
  eapply Z.lt_le_trans; [exact Hb|]. apply Z.pow_le_mono_r; lia.
Qed.
Lemma be_val_zero l : be_val (0 :: l) = be_val l.
Proof. change (0 :: l) with ([0] ++ l). rewrite be_val_app. done. Qed.

(** ** What is written *)

Section Roundtrip.
Context `{BignumOk}.

(** The string for a number of protocol 2. *)
Definition mpint (v : Z) : list Z :=
  if v =? 0 then []
  else let bin := be_bytes v in if negb (Z.land (byte_at bin 0) 0x80 =? 0) then 0 :: bin else bin.

Lemma mpint_bytes v : bytes (mpint v).
Proof.
  unfold mpint. destruct (v =? 0); [constructor|]. destruct (negb _); [constructor; [unfold is_u8; lia|]|]; apply be_bytes_bytes.
Qed.
Lemma mpint_val v : 0 ≤ v → be_val (mpint v) = v.
Proof.
  intros Hv. unfold mpint. destruct (Z.eqb_spec v 0) as [->|]; [done|].
  destruct (negb _); [rewrite be_val_zero|]; by apply be_bytes_val.
Qed.
Lemma mpint_positive v : (0 <? Z.of_nat (length (mpint v))) = true → Z.land (byte_at (mpint v) 0) 0x80 = 0.
Proof.
  unfold mpint. destruct (v =? 0); [done|]. intros _.
  destruct (Z.eqb_spec (Z.land (byte_at (be_bytes v) 0) 0x80) 0) as [E|E]; cbn [negb]; [exact E|done].
Qed.

(** The first byte of a number that leaves its highest bit unused. *)
Lemma be_bytes_high v n c l :
  0 ≤ v < 2 ^ (8 * n - 1) → be_bytes v = c :: l → Z.of_nat (length l) = n - 1 → Z.land c 0x80 = 0.
Proof.
  intros Hv E Hl. pose proof (be_bytes_val v ltac:(lia)) as Hval. pose proof (be_bytes_bytes v) as Hb. rewrite E in Hval, Hb.
  change (c :: l) with ([c] ++ l) in Hval. rewrite be_val_app in Hval. unfold be_val at 1 in Hval. cbn [foldl] in Hval.
  apply Forall_cons in Hb as [Hc Hb]. unfold is_u8 in Hc. rewrite Hl in Hval.
  assert (0 ≤ be_val l) as Hl0.
  { clear -Hb. induction l as [|d l IH] using rev_ind; [done|]. apply Forall_app in Hb as [Hb Hd].
    apply Forall_cons in Hd as [Hd _]. rewrite be_val_app. unfold is_u8 in Hd. specialize (IH Hb).
    unfold be_val at 2. cbn [foldl]. change (256 ^ Z.of_nat (length [d])) with 256. lia. }
  assert (c < 128) as Hc'.
  { destruct (Z.lt_ge_cases c 128); [done|]. exfalso.
    assert (128 * 256 ^ (n - 1) = 2 ^ (8 * n - 1)) as Hp.
    { change 256 with (2 ^ 8). change 128 with (2 ^ 7). rewrite <- Z.pow_mul_r, <- Z.pow_add_r by lia. f_equal. lia. }
    assert (128 * 256 ^ (n - 1) ≤ c * 256 ^ (n - 1)) by (apply Z.mul_le_mono_nonneg_r; [apply Z.pow_nonneg; lia|lia]). lia. }
  apply Z.bits_inj'. intros i Hi. rewrite Z.land_spec, Z.bits_0.
  destruct (Z.eq_dec i 7) as [->|Hi7]; [rewrite (testbit_small c 7) by lia; done|].
  change 0x80 with (2 ^ 7). rewrite (Z.pow2_bits_false 7 i) by lia. apply andb_false_r.
Qed.
Lemma mpint_length_gen v n : 0 < n → 0 ≤ v < 2 ^ (8 * n - 1) → Z.of_nat (length (mpint v)) ≤ n.
Proof.
  intros Hn0 Hv. unfold mpint. destruct (Z.eqb_spec v 0) as [->|Hv0]; [simpl; lia|].
  pose proof (be_bytes_length v ltac:(lia)) as Hl. pose proof (nbits_le v _ Hv ltac:(lia)) as Hn.
  assert ((nbits v + 7) / 8 < n + 1) as Hq by (apply Z.div_lt_upper_bound; lia).
  destruct (Z.eqb_spec (Z.land (byte_at (be_bytes v) 0) 0x80) 0) as [E|E]; cbn [negb]; [lia|].
  cbn [length]. rewrite Nat2Z.inj_succ. destruct (Z.eq_dec ((nbits v + 7) / 8) n) as [Hq'|]; [|lia].
  exfalso. apply E. clear E. destruct (be_bytes v) as [|c l] eqn:E; [done|]. cbn [length] in Hl.
  unfold byte_at. cbn [nth]. apply (be_bytes_high v n c l Hv E). lia.
Qed.

(** Numbers of fewer than [8 * 8192] bits. *)
Definition BN_MAX_BYTES : Z := 8 * 1024.
Definition BN_MAX : Z := 2 ^ (8 * BN_MAX_BYTES - 1).
Lemma mpint_length v : 0 ≤ v < BN_MAX → Z.of_nat (length (mpint v)) ≤ 8192.
Proof. unfold BN_MAX. change 8192 with BN_MAX_BYTES. intros Hv. apply mpint_length_gen; [done|exact Hv]. Qed.
#[local] Opaque BN_MAX.

Lemma put_bignum2_spec b a :
  wf b → 0 ≤ bn_val a < BN_MAX → alloc b + 2 * (4 + 8192) + 2 * BUFFER_ALLOCSZ ≤ BUFFER_MAX_LEN →
  ∃ b', buffer_put_bignum2 b a = Ok b' ∧ wf b' ∧ contents b' = contents b ++ Items.wire (Items.String (mpint (bn_val a))) ∧
        alloc b ≤ alloc b' ≤ alloc b + 2 * (4 + 8192) + 2 * BUFFER_ALLOCSZ.
Proof.
  intros Hb Ha Hr. pose proof (mpint_length _ Ha) as Hml. unfold buffer_put_bignum2, buffer_put_bignum2_ret.
  rewrite is_zero_ok, neg_ok. destruct (Z.eqb_spec (bn_val a) 0) as [Hz|Hz].
  { rewrite Hz. destruct (Items.append_small b (put_u32 0)) as (b' & Hp & Hw & Hc & Hal);
      [done|simpl; unfold_consts; lia|simpl; unfold_consts; lia|]. simpl length in Hal. unfold buffer_put_int.
    rewrite Hp. exists b'. split_and!; try done; unfold_consts; lia. }
  zdec. unfold BN_num_bytes. rewrite num_bits_ok, bn2bin_ok, Z.abs_eq by lia.
  rewrite be_bytes_length by lia. assert (0 ≤ bn_val a) as Ha0 by lia. pose proof (be_bytes_length _ Ha0) as Hl.
  assert (1 ≤ (nbits (bn_val a) + 7) / 8) as H1.
  { unfold nbits. rewrite (proj2 (Z.eqb_neq _ _) Hz). pose proof (Z.log2_nonneg (bn_val a)). apply Z.div_le_lower_bound; lia. }
  rewrite Z.add_simpl_r, Z.eqb_refl, (proj2 (Z.ltb_ge _ _)) by lia. cbn [negb]. cbv zeta.
  change (byte_at (0 :: be_bytes (bn_val a)) 1) with (byte_at (be_bytes (bn_val a)) 0).
  assert (∀ n, n = (if negb (Z.land (byte_at (be_bytes (bn_val a)) 0) 0x80 =? 0) then 0%nat else 1%nat) →
    drop n (0 :: be_bytes (bn_val a)) = mpint (bn_val a)) as Hd.
  { intros n ->. unfold mpint. rewrite (proj2 (Z.eqb_neq _ _) Hz). cbv zeta. by destruct (negb _). }
  rewrite (Hd _ eq_refl). destruct (Items.put_string_spec b (mpint (bn_val a))) as (b' & Hp & Hw & Hc & Hal);
    [done|lia|lia|]. rewrite Hp. exists b'. split_and!; try done; lia.
Qed.

Lemma get_bignum2_spec b v k :
  wf b → 0 ≤ v < BN_MAX → contents b = Items.wire (Items.String (mpint v)) ++ k →
  ∃ a b', buffer_get_bignum2 b = Ok (a, b') ∧ bn_val a = v ∧ wf b' ∧ contents b' = k.
Proof.
  intros Hb Hv Hc. pose proof (mpint_length _ Hv) as Hml. cbn [Items.wire] in Hc. rewrite <- app_assoc in Hc.
  destruct (Items.get_string_ret_app b (mpint v) k Hb ltac:(lia) Hc) as (b' & Hg & Hw & Hk).
  unfold buffer_get_bignum2, buffer_get_bignum2_ret. rewrite Hg.
  destruct (bin2bn_ok (mpint v) (mpint_bytes v)) as (a & Ha & Hav).
  assert ((0 <? Z.of_nat (length (mpint v))) && negb (Z.land (byte_at (mpint v) 0) 0x80 =? 0) = false) as ->.
  { destruct (0 <? Z.of_nat (length (mpint v))) eqn:E; [|done]. by rewrite mpint_positive. }
  zdec. rewrite Ha. exists a, b'. rewrite Hav, mpint_val by lia. done.
Qed.

(** A non-negative number of at most [8 * 8192 - 1] bits that is put into
    a buffer in the format of protocol 2 is what the other side gets, and the
    bytes around it are not touched. *)
Theorem bignum2_roundtrip b a :
  wf b → 0 ≤ bn_val a < BN_MAX → alloc b + 2 * (4 + 8192) + 2 * BUFFER_ALLOCSZ ≤ BUFFER_MAX_LEN →
  ∃ w b', buffer_put_bignum2 b a = Ok b' ∧ wf b' ∧ contents b' = contents b ++ w ∧
    ∀ c k, wf c → contents c = w ++ k →
      ∃ c', buffer_get_bignum2 c = Ok (a, c') ∧ wf c' ∧ contents c' = k.
Proof.
  intros Hb Ha Hr. destruct (put_bignum2_spec b a Hb Ha Hr) as (b' & Hp & Hw & Hc & _).
  eexists _, b'. split_and!; [done..|]. intros c k Hwc Hcc.
  destruct (get_bignum2_spec c _ k Hwc Ha Hcc) as (a' & c' & Hg & Hv & ?).
  rewrite (bn_val_inj _ _ Hv) in Hg. eauto.
Qed.

(** The format of protocol 1: a positive number of at most 65535 bits. *)
Theorem bignum1_roundtrip b a n :
  n = 65535 → wf b → 0 < bn_val a < 2 ^ n → alloc b + 2 * (2 + 8192) + 2 * BUFFER_ALLOCSZ ≤ BUFFER_MAX_LEN →
  ∃ w b', buffer_put_bignum b a = Ok b' ∧ wf b' ∧ contents b' = contents b ++ w ∧
    ∀ c k, wf c → contents c = w ++ k →
      ∃ c', buffer_get_bignum c = Ok (a, c') ∧ wf c' ∧ contents c' = k.
Proof.
  intros Hn Hb Ha Hr. assert (0 ≤ bn_val a) as Ha0 by lia.
  assert (nbits (bn_val a) ≤ n) as Hna by (apply nbits_le; lia). destruct Ha as [Ha _].
  set (q := (nbits (bn_val a) + 7) / 8). pose proof (be_bytes_length _ Ha0) as Hl. fold q in Hl.
  assert (1 ≤ nbits (bn_val a) ≤ 65535) as Hnb.
  { split; [|lia]. unfold nbits. rewrite (proj2 (Z.eqb_neq _ _)) by lia.
    pose proof (Z.log2_nonneg (bn_val a)). lia. }
  assert (1 ≤ q ≤ 8192) as Hq.
  { unfold q. split; [apply Z.div_le_lower_bound; lia|]. apply Zlt_succ_le, Z.div_lt_upper_bound; lia. }
  destruct (Items.append_small b (put_u16 (nbits (bn_val a)))) as (b1 & Hp1 & Hw1 & Hc1 & Hal1);
    [done|simpl; unfold_consts; lia|simpl; unfold_consts; lia|]. simpl length in Hal1.
  destruct (Items.append_small b1 (be_bytes (bn_val a))) as (b' & Hp & Hw & Hc & Hal);
    [done|unfold_consts; lia|unfold_consts; lia|].
  exists (put_u16 (nbits (bn_val a)) ++ be_bytes (bn_val a)), b'. split_and!; [|done|by rewrite Hc, Hc1, app_assoc|].
  - unfold buffer_put_bignum, buffer_put_bignum_ret. rewrite num_bits_ok, bn2bin_ok, Z.abs_eq by lia. fold q.
    rewrite Hl, Z.eqb_refl, (proj2 (Z.eqb_neq _ _)) by lia. cbn [negb]. rewrite Hp1. cbn [mbind outcome_bind]. by rewrite Hp.
  - intros c k Hwc Hcc. rewrite <- app_assoc in Hcc.
    destruct (Items.get_ret_app c _ _ Hwc Hcc) as (c1 & Hg1 & Hwc1 & Hcc1). simpl length in Hg1. change (Z.of_nat 2) with 2 in Hg1.
    unfold buffer_get_bignum, buffer_get_bignum_ret. rewrite Hg1, get_put_u16 by lia. fold q. cbv zeta.
    rewrite (buffer_len_contents _ Hwc1), Hcc1, length_app, (proj2 (Z.ltb_ge _ _)), (proj2 (Z.ltb_ge _ _)) by lia.
    assert (take (Z.to_nat q) (buffer_ptr c1) = be_bytes (bn_val a)) as ->.
    { assert (take (Z.to_nat q) (contents c1) = be_bytes (bn_val a)) as <-.
      { rewrite Hcc1, <- Hl, Nat2Z.id. apply take_app_length. }
      unfold contents. rewrite take_take. f_equal. pose proof (contents_length _ Hwc1) as Hcl.
      rewrite Hcc1, length_app in Hcl. lia. }
    destruct (bin2bn_ok _ (be_bytes_bytes (bn_val a))) as (a' & Ha' & Hv). rewrite Ha'. rewrite be_bytes_val in Hv by lia.
    apply bn_val_inj in Hv as ->. pose proof (buffer_consume_spec c1 q Hwc1 ltac:(lia)) as Hs.
    rewrite Hcc1, length_app, (proj2 (Z.leb_le _ _)) in Hs by lia. unfold buffer_consume in Hs.
    destruct (buffer_consume_ret c1 q) as [r c2]. destruct (r =? -1); destruct Hs as (c' & He & Hwc' & Hs); [done|].
    injection He as <-. exists c2. split_and!; [done..|]. destruct Hs as (_ & _ & ->). rewrite <- Hl, Nat2Z.id. apply drop_app_length.
Qed.
End Roundtrip.

Lemma ecpoint_roundtrip `{CurveOk} b g p :
  wf b → Z.of_nat (length (EC_POINT_point2oct g p)) ≤ BUFFER_MAX_ECPOINT_LEN →
  alloc b + 2 * (4 + BUFFER_MAX_ECPOINT_LEN) + 2 * BUFFER_ALLOCSZ ≤ BUFFER_MAX_LEN →
  ∃ w b', buffer_put_ecpoint b g p = Ok b' ∧ wf b' ∧ contents b' = contents b ++ w ∧
    ∀ c k, wf c → contents c = w ++ k →
      ∃ c', buffer_get_ecpoint c g = Ok (p, c') ∧ wf c' ∧ contents c' = k.
Proof.
  unfold BUFFER_MAX_ECPOINT_LEN. intros Hb Hl Hr. destruct (point2oct_ok g p) as [l Hp].
  change (528 * 2 / 8 + 1) with 133 in *. pose proof (oct2point_ok g p) as Ho. rewrite Hp in *. cbn [length] in Hl.
  destruct (Items.put_string_spec b (4 :: l)) as (b' & Hput & Hw & Hc & _); [done|simpl length; lia|simpl length; unfold_consts; lia|].
  eexists _, b'. split_and!; [|done|exact Hc|].
  - unfold buffer_put_ecpoint, buffer_put_ecpoint_ret, BUFFER_MAX_ECPOINT_LEN. change (528 * 2 / 8 + 1) with 133.
    rewrite Hp. cbn [length]. rewrite (proj2 (Z.ltb_ge _ _)), (proj2 (Z.eqb_neq _ _)) by lia. by rewrite Hput.
  - intros c k Hwc Hcc. rewrite <- app_assoc in Hcc.
    destruct (Items.get_string_ret_app c (4 :: l) k Hwc ltac:(simpl length; lia) Hcc) as (c' & Hg & ? & ?).
    unfold buffer_get_ecpoint, buffer_get_ecpoint_ret, BUFFER_MAX_ECPOINT_LEN. change (528 * 2 / 8 + 1) with 133.
    rewrite Hg. cbn [length]. rewrite (proj2 (Z.ltb_ge _ _)), (proj2 (Z.eqb_neq _ _)) by lia.
    cbn [byte_at nth]. change (negb (4 =? POINT_CONVERSION_UNCOMPRESSED)) with false. cbn iota. rewrite Ho. exists c'. done.
Qed.

(** ** Big numbers as integers *)

Module ZBignum.
#[export] Instance z_bignum : Bignum := {|
  bn := Z;
  BN_num_bits := λ a, nbits (Z.abs a);
  BN_bn2bin := λ a, be_bytes (Z.abs a);
  BN_bin2bn := λ l, Some (be_val l);
  BN_is_zero := λ a, a =? 0;
  bn_neg := λ a, a <? 0
|}.
#[export] Instance z_bignum_ok : BignumOk.
Proof. exists (λ a : Z, a); try done. intros l _. exists (be_val l). done. Defined.

Lemma bignum2_roundtrip_witness :
  ∃ b' c', buffer_put_bignum2 (H:=z_bignum) buffer_init 0xff00ff = Ok b' ∧
    contents b' = [0; 0; 0; 4; 0; 255; 0; 255] ∧
    buffer_get_bignum2 (H:=z_bignum) b' = Ok (0xff00ff, c') ∧ contents c' = [].
Proof.
  destruct buffer_init_wf as [Hw Hc].
  destruct (bignum2_roundtrip (H0:=z_bignum_ok) buffer_init 0xff00ff Hw) as (w & b' & Hp & Hw' & Hc' & Hg).
  - split; [done|]. apply Z.lt_le_trans with (2 ^ 24); [done|]. apply Z.pow_le_mono_r; done.
  - done.
  - destruct (Hg b' [] Hw') as (c' & Hg' & _ & Hk); [by rewrite app_nil_r, Hc', Hc|].
    exists b', c'. split_and!; try done. vm_compute in Hp. by injection Hp as <-.
Defined.
End ZBignum.
