(* ===== verification/KeyState.v ===== *)
(** * The state of the transport across the privilege boundary

    After authentication the unprivileged process hands its keys, sequence
    numbers, cipher and compression state and its network buffers to the
    monitor ([mm_send_keystate] of [monitor_wrap.c]), which reads them with
    [mm_get_keystate] ([monitor.c]).  The values that are copied as raw memory
    (pointers to the table of ciphers, [z_stream]s) are byte strings whose form
    is an argument.  The theorem: the monitor ends up with what was sent. *)

From S2P Require Import Prelude ByteOrder Buffer Crc32 Deattack Stdio SuperTrace HashMap Csbuflo.
From S2P Require Import CipherMac Packet Match Nchan Kex KexProofs.

(** [struct Enc] and [struct Comp] of [kex.h]; the length of the key is that of
    the list. *)
Record xEnc := mkXEnc {
  x_name : list Z;
  x_cipher : option Cipher;
  x_enabled : Z;
  x_block_size : Z;
  x_key : list Z;
  x_iv : list Z
}.
Record xComp := mkXComp { xc_type : Z; xc_enabled : Z; xc_name : list Z }.
Record xNewkeys := mkXNewkeys { xk_enc : xEnc; xk_mac_name : list Z; xk_mac : Mac; xk_comp : xComp }.

(** What goes over the boundary. *)
Record netstate := mkNet {
  n_kex : Kex;
  n_client_version : list Z;
  n_server_version : list Z;
  n_keys_out : xNewkeys;
  n_keys_in : xNewkeys;
  n_send : packet_state;
  n_read : packet_state;
  (* protocol 1 *)
  n_protoflags : Z;
  n_ssh1cipher : Z;
  n_ssh1key : list Z;
  n_ivout : list Z;
  n_ivin : list Z;
  n_keyout : list Z;
  n_keyin : list Z;
  n_outgoing : list Z;
  n_incoming : list Z;
  n_input : list Z;
  n_output : list Z;
  n_sent_bytes : Z;
  n_recv_bytes : Z
}.

Section KeyState.
Context `{Crypto} (ptr_bytes : option Cipher → list Z) (sizeof_ptr sizeof_zstream : Z).

(** ** The child *)

(** [None] is a process without keys; the IV is that of the cipher context. *)
Definition mm_newkeys_to_blob (newkey : option xNewkeys) (iv_now : list Z) : outcome (option (list Z)) :=
  match newkey with
  | None => Ok None
  | Some k =>
      let enc := xk_enc k in
      b ← buffer_put_cstring buffer_init (Some (x_name enc));
      b ← buffer_append b (ptr_bytes (x_cipher enc));
      b ← Items.puts b [Items.Int (x_enabled enc); Items.Int (x_block_size enc); Items.String (x_key enc);
            Items.String (take (Z.to_nat (x_block_size enc)) iv_now);
            Items.CString (xk_mac_name k); Items.Int (mac_enabled (xk_mac k));
            Items.String (take (Z.to_nat (mac_key_len (xk_mac k))) (default [] (mac_key (xk_mac k))));
            Items.Int (xc_type (xk_comp k)); Items.Int (xc_enabled (xk_comp k)); Items.CString (xc_name (xk_comp k))];
      Ok (Some (contents b))
  end.

Definition kex_items (kex : Kex) (cvs svs : list Z) : list Items.item :=
  [Items.String (session_id kex); Items.Int (we_need kex); Items.Int (hostkey_type kex); Items.Int (kex_type kex);
   Items.String (contents (kx_my kex)); Items.String (contents (kx_peer kex)); Items.Int (kx_flags kex);
   Items.CString cvs; Items.CString svs].
Definition mm_send_kex (m : Buffer) (kex : Kex) (cvs svs : list Z) : outcome Buffer := Items.puts m (kex_items kex cvs svs).

Definition state_items (p : packet_state) : list Items.item :=
  [Items.Int (seqnr p); Items.Int64 (blocks p); Items.Int (packets p); Items.Int64 (pbytes p)].

(** The request; [iv_out] and [iv_in] are the IVs of the two contexts. *)
Definition mm_send_keystate (compat20 : bool) (n : netstate) (iv_out iv_in : list Z) : outcome Buffer :=
  m ← (if compat20 then
         m ← mm_send_kex buffer_init (n_kex n) (n_client_version n) (n_server_version n);
         o ← mm_newkeys_to_blob (Some (n_keys_out n)) iv_out;
         match o with
         | None => Fatal "mm_send_keystate: conversion of newkeys failed"
         | Some blob =>
             m ← buffer_put_string m blob;
             o ← mm_newkeys_to_blob (Some (n_keys_in n)) iv_in;
             match o with
             | None => Fatal "mm_send_keystate: conversion of newkeys failed"
             | Some blob =>
                 m ← buffer_put_string m blob;
                 Items.puts m (state_items (n_send n) ++ state_items (n_read n))
             end
         end
       else
         Items.puts buffer_init [Items.Int (n_protoflags n); Items.Int (n_ssh1cipher n); Items.String (n_ssh1key n);
           Items.String (n_ivout n); Items.String (n_ivin n)]);
  m ← Items.puts m [Items.String (n_keyout n); Items.String (n_keyin n); Items.String (n_outgoing n); Items.String (n_incoming n);
        Items.String (n_input n); Items.String (n_output n)];
  if compat20 then Items.puts m [Items.Int64 (n_sent_bytes n); Items.Int64 (n_recv_bytes n)] else Ok m.

(** ** The monitor *)

(** The pointer is compared with what the name designates; NULL is what an
    unknown name gives. *)
Definition cipher_of (name ptr : list Z) : option (option Cipher) :=
  let c := cipher_by_name (to_string (cstr name)) in
  if bool_decide (ptr_bytes c = ptr) then Some c else None.

Definition mm_newkeys_from_blob (blob : list Z) : outcome xNewkeys :=
  b ← buffer_append buffer_init blob;
  '(name, b) ← buffer_get_string b;
  '(ptr, b) ← buffer_get b sizeof_ptr;
  '(enabled, b) ← buffer_get_int b;
  '(block_size, b) ← buffer_get_int b;
  '(key, b) ← buffer_get_string b;
  '(iv, b) ← buffer_get_string b;
  if negb (Z.of_nat (length iv) =? block_size) then Fatal "mm_newkeys_from_blob: bad ivlen"
  else match cipher_of name ptr with
  | None => Fatal "mm_newkeys_from_blob: bad cipher name or pointer"
  | Some c =>
      '(mname, b) ← buffer_get_string b;
      '(r, mac) ← mac_setup (Some mac_zero) (to_string (cstr mname));
      match mac with
      | None => Fault
      | Some mac =>
          if r =? -1 then Fatal "mm_newkeys_from_blob: can not setup mac"
          else
            '(menabled, b) ← buffer_get_int b;
            '(mkey, b) ← buffer_get_string b;
            if mac_key_len mac <? Z.of_nat (length mkey) then Fatal "mm_newkeys_from_blob: bad mac key length"
            else
              '(ctype, b) ← buffer_get_int b;
              '(cenabled, b) ← buffer_get_int b;
              '(cname, b) ← buffer_get_string b;
              Ok (mkXNewkeys (mkXEnc (cstr name) c (i32 enabled) block_size key iv) (cstr mname)
                    (mac <| mac_name := to_string (cstr mname) |> <| mac_enabled := i32 menabled |>
                         <| mac_key := Some mkey |> <| mac_key_len := Z.of_nat (length mkey) |>)
                    (mkXComp (i32 ctype) (i32 cenabled) (cstr cname)))
      end
  end.

Definition mm_get_kex (session_id2 : option (list Z)) (m : Buffer) : outcome (Kex * list Z * list Z * Buffer) :=
  '(sid, m) ← buffer_get_string m;
  if negb (bool_decide (session_id2 = Some sid)) then Fatal "mm_get_get: internal error: bad session id"
  else
    '(need, m) ← buffer_get_int m;
    '(htype, m) ← buffer_get_int m;
    '(ktype, m) ← buffer_get_int m;
    '(blob, m) ← buffer_get_string m;
    my ← buffer_append buffer_init blob;
    '(blob, m) ← buffer_get_string m;
    peer ← buffer_append buffer_init blob;
    '(flags, m) ← buffer_get_int m;
    '(cvs, m) ← buffer_get_string m;
    '(svs, m) ← buffer_get_string m;
    Ok (mkKex sid None None need 1 None (i32 htype) (i32 ktype) 0 my peer 1 (i32 flags) None, cstr cvs, cstr svs, m).

Definition get_state (m : Buffer) : outcome (packet_state * Buffer) :=
  '(sn, m) ← buffer_get_int m;
  '(bl, m) ← buffer_get_int64 m;
  '(pk, m) ← buffer_get_int m;
  '(by_, m) ← buffer_get_int64 m;
  Ok (mkPS sn pk bl by_, m).

(** Everything after the label [skip]. *)
Definition get_rest (compat20 : bool) (n : netstate) (m : Buffer) : outcome netstate :=
  '(keyout, m) ← buffer_get_string m;
  '(keyin, m) ← buffer_get_string m;
  '(p, m) ← buffer_get_string m;
  if negb (Z.of_nat (length p) =? sizeof_zstream) then Fatal "mm_get_keystate: bad request size"
  else
    '(q, m) ← buffer_get_string m;
    if negb (Z.of_nat (length q) =? sizeof_zstream) then Fatal "mm_get_keystate: bad request size"
    else
      '(inp, m) ← buffer_get_string m;
      '(out, m) ← buffer_get_string m;
      '(sent, recv) ← (if compat20 then '(s, m) ← buffer_get_int64 m; '(r, _) ← buffer_get_int64 m; Ok (s, r)
                       else Ok (n_sent_bytes n, n_recv_bytes n));
      Ok (mkNet (n_kex n) (n_client_version n) (n_server_version n) (n_keys_out n) (n_keys_in n) (n_send n) (n_read n)
            (n_protoflags n) (n_ssh1cipher n) (n_ssh1key n) (n_ivout n) (n_ivin n) keyout keyin p q inp out sent recv).

(** [n0] is what the monitor has in its variables; the payload comes after the
    type byte of the request.  The limit of 256 KB that [mm_request_receive] has
    for the whole message is not part of this function: it is in [Monitor.v]. *)
Definition mm_get_keystate (compat20 : bool) (session_id2 : option (list Z)) (n0 : netstate) (m : Buffer) : outcome netstate :=
  if compat20 then
    '(kex, cvs, svs, m) ← mm_get_kex session_id2 m;
    '(blob, m) ← buffer_get_string m;
    ko ← mm_newkeys_from_blob blob;
    '(blob, m) ← buffer_get_string m;
    ki ← mm_newkeys_from_blob blob;
    '(send, m) ← get_state m;
    '(read, m) ← get_state m;
    get_rest true (mkNet kex cvs svs ko ki send read (n_protoflags n0) (n_ssh1cipher n0) (n_ssh1key n0) (n_ivout n0) (n_ivin n0)
      [] [] [] [] [] [] 0 0) m
  else
    '(flags, m) ← buffer_get_int m;
    '(cipher, m) ← buffer_get_int m;
    '(key, m) ← buffer_get_string m;
    '(ivout, m) ← buffer_get_string m;
    '(ivin, m) ← buffer_get_string m;
    get_rest false (mkNet (n_kex n0) (n_client_version n0) (n_server_version n0) (n_keys_out n0) (n_keys_in n0) (n_send n0) (n_read n0)
      (i32 flags) (i32 cipher) key ivout ivin [] [] [] [] [] [] (n_sent_bytes n0) (n_recv_bytes n0)) m.

(** ** What arrives *)

Definition short (s : list Z) : Prop := Z.of_nat (length s) ≤ 256 * 1024.
Definition small (s : list Z) : Prop := Z.of_nat (length s) ≤ 1024.
Definition is_i31 (v : Z) : Prop := 0 ≤ v < 2 ^ 31.

(** The keys as the monitor has them: with the current IV, and a MAC that is not
    set up yet. *)
Definition imported (k : xNewkeys) (iv_now : list Z) : xNewkeys :=
  let e := xk_enc k in
  mkXNewkeys (mkXEnc (x_name e) (x_cipher e) (x_enabled e) (x_block_size e) (x_key e) (take (Z.to_nat (x_block_size e)) iv_now))
    (xk_mac_name k)
    ((xk_mac k) <| mac_evp_ctx := None |> <| mac_umac_ctx := None |>
       <| mac_key := Some (take (Z.to_nat (mac_key_len (xk_mac k))) (default [] (mac_key (xk_mac k)))) |>)
    (xk_comp k).

(** Keys that [kex_choose_conf] and [kex_derive_keys] set up. *)
Record keys_ok (k : xNewkeys) (iv_now : list Z) : Prop := {
  ko_name : small (x_name (xk_enc k)) ∧ 0 ∉ x_name (xk_enc k);
  ko_cipher : cipher_by_name (to_string (x_name (xk_enc k))) = x_cipher (xk_enc k);
  ko_ptr : Z.of_nat (length (ptr_bytes (x_cipher (xk_enc k)))) = sizeof_ptr ∧ sizeof_ptr ≤ 64;
  ko_enabled : is_i31 (x_enabled (xk_enc k));
  ko_block : 0 ≤ x_block_size (xk_enc k) ≤ 64 ∧ x_block_size (xk_enc k) ≤ Z.of_nat (length iv_now);
  ko_key : small (x_key (xk_enc k));
  ko_mac_name : small (xk_mac_name k) ∧ 0 ∉ xk_mac_name k;
  ko_mac : ∃ m0 mk, mac_setup (Some mac_zero) (to_string (xk_mac_name k)) = Ok (0, Some m0) ∧
     mac_key (xk_mac k) = Some mk ∧ 0 ≤ mac_key_len (xk_mac k) ≤ Z.of_nat (length mk) ∧
     mac_key_len (xk_mac k) ≤ mac_key_len m0 ∧ mac_key_len m0 ≤ 1024 ∧ is_i31 (mac_enabled (xk_mac k)) ∧
     (xk_mac k) <| mac_evp_ctx := None |> <| mac_umac_ctx := None |> =
       m0 <| mac_name := to_string (xk_mac_name k) |> <| mac_enabled := mac_enabled (xk_mac k) |>
          <| mac_key := Some mk |> <| mac_key_len := mac_key_len (xk_mac k) |>;
  ko_comp : is_i31 (xc_type (xk_comp k)) ∧ is_i31 (xc_enabled (xk_comp k)) ∧ small (xc_name (xk_comp k)) ∧ 0 ∉ xc_name (xk_comp k)
}.

Definition state_ok (p : packet_state) : Prop :=
  is_u32 (seqnr p) ∧ is_u64 (blocks p) ∧ is_u32 (packets p) ∧ is_u64 (pbytes p).

Record net_ok (n : netstate) (iv_out iv_in : list Z) : Prop := {
  no_kex : Forall Items.ok (kex_items (n_kex n) (n_client_version n) (n_server_version n));
  no_kex_int : is_i31 (hostkey_type (n_kex n)) ∧ is_i31 (kex_type (n_kex n)) ∧ is_i31 (kx_flags (n_kex n));
  no_out : keys_ok (n_keys_out n) iv_out;
  no_in : keys_ok (n_keys_in n) iv_in;
  no_send : state_ok (n_send n);
  no_read : state_ok (n_read n);
  no_ssh1 : is_i31 (n_protoflags n) ∧ is_i31 (n_ssh1cipher n) ∧ short (n_ssh1key n) ∧ short (n_ivout n) ∧ short (n_ivin n);
  no_ctx : short (n_keyout n) ∧ short (n_keyin n);
  no_z : Z.of_nat (length (n_outgoing n)) = sizeof_zstream ∧ Z.of_nat (length (n_incoming n)) = sizeof_zstream ∧ sizeof_zstream ≤ 256 * 1024;
  no_buffers : short (n_input n) ∧ short (n_output n);
  no_roaming : is_u64 (n_sent_bytes n) ∧ is_u64 (n_recv_bytes n)
}.

Definition same_kex (k k' : Kex) : Prop :=
  session_id k' = session_id k ∧ we_need k' = we_need k ∧ hostkey_type k' = hostkey_type k ∧ kex_type k' = kex_type k ∧
  contents (kx_my k') = contents (kx_my k) ∧ contents (kx_peer k') = contents (kx_peer k) ∧ kx_flags k' = kx_flags k ∧
  kx_server k' = 1 ∧ kx_done k' = 1.

(** The state of the child [n] in the monitor's variables. *)
Definition transferred (compat20 : bool) (n : netstate) (iv_out iv_in : list Z) (n' : netstate) : Prop :=
  (if compat20 then
     same_kex (n_kex n) (n_kex n') ∧ n_client_version n' = n_client_version n ∧ n_server_version n' = n_server_version n ∧
     n_keys_out n' = imported (n_keys_out n) iv_out ∧ n_keys_in n' = imported (n_keys_in n) iv_in ∧
     n_send n' = n_send n ∧ n_read n' = n_read n ∧ n_sent_bytes n' = n_sent_bytes n ∧ n_recv_bytes n' = n_recv_bytes n
   else
     n_protoflags n' = n_protoflags n ∧ n_ssh1cipher n' = n_ssh1cipher n ∧ n_ssh1key n' = n_ssh1key n ∧
     n_ivout n' = n_ivout n ∧ n_ivin n' = n_ivin n) ∧
  n_keyout n' = n_keyout n ∧ n_keyin n' = n_keyin n ∧ n_outgoing n' = n_outgoing n ∧ n_incoming n' = n_incoming n ∧
  n_input n' = n_input n ∧ n_output n' = n_output n.

(** ** Proofs *)

(** The next item of a buffer whose contents are known. *)
Ltac got_with lem b tac :=
  let b' := fresh "b" in let E := fresh "E" in
  match goal with
  | Hw : wf b, Hc : contents b = Items.wire (_ ?v) ++ ?k |- _ =>
      destruct (lem b v k Hw) as (b' & E & ? & ?);
      [|exact Hc|rewrite E; clear E Hw Hc; cbn [mbind outcome_bind]]; [tac|]
  end.
Ltac got tac :=
  match goal with
  | |- context [buffer_get_int ?b] => got_with Items.got_int b tac
  | |- context [buffer_get_int64 ?b] => got_with Items.got_int64 b tac
  | |- context [buffer_get_string ?b] => got_with Items.got_string b tac
  end.
Ltac fits := unfold short, small, is_i31, is_u32, is_u64 in *; (eassumption || lia || (split; [lia|eassumption])).

Lemma got_raw b l k : wf b → contents b = l ++ k →
  ∃ b', buffer_get b (Z.of_nat (length l)) = Ok (l, b') ∧ wf b' ∧ contents b' = k.
Proof.
  intros Hw Hc. destruct (Items.get_ret_app b l k Hw Hc) as (b' & Hg & ?). exists b'. unfold buffer_get. by rewrite Hg.
Qed.

Definition keys_items (k : xNewkeys) (iv_now : list Z) : list Items.item :=
  [Items.Int (x_enabled (xk_enc k)); Items.Int (x_block_size (xk_enc k)); Items.String (x_key (xk_enc k));
   Items.String (take (Z.to_nat (x_block_size (xk_enc k))) iv_now);
   Items.CString (xk_mac_name k); Items.Int (mac_enabled (xk_mac k));
   Items.String (take (Z.to_nat (mac_key_len (xk_mac k))) (default [] (mac_key (xk_mac k))));
   Items.Int (xc_type (xk_comp k)); Items.Int (xc_enabled (xk_comp k)); Items.CString (xc_name (xk_comp k))].

Lemma keys_items_ok k iv : keys_ok k iv → Forall Items.ok (keys_items k iv).
Proof.
  intros [Hn Hc Hp He Hb Hk Hmn (m0 & mk & Hm & Hmk & Hml & Hml0 & Hm0 & Hme & _) (Hct & Hce & Hcn & Hcn0)].
  unfold keys_items, small, is_i31 in *. rewrite Hmk. cbn [default]. pose proof (length_take_le iv (Z.to_nat (x_block_size (xk_enc k)))) as Ht.
  repeat (apply Forall_cons; split); [..|constructor]; cbn [Items.ok]; unfold is_u32; rewrite ?length_take; try lia; try tauto.
  - split; [lia|tauto].
  - split; [lia|tauto].
Qed.

Lemma newkeys_to_blob_inv k iv o :
  keys_ok k iv → mm_newkeys_to_blob (Some k) iv = Ok o →
  o = Some (Items.wire (Items.CString (x_name (xk_enc k))) ++ ptr_bytes (x_cipher (xk_enc k)) ++ concat (map Items.wire (keys_items k iv))).
Proof.
  intros Hk. pose proof (keys_items_ok k iv Hk) as Hok. unfold mm_newkeys_to_blob. intros E.
  apply bind_Ok in E as (b & E1 & E). apply bind_Ok in E as (b1 & E2 & E). apply bind_Ok in E as (b2 & E3 & [= <-]).
  destruct buffer_init_wf as [Hw H0]. destruct Hk as [[Hn Hn0] _ [Hp Hp'] _ _ _ _ _ _]. unfold small in Hn.
  apply (Items.put_inv buffer_init (Items.CString (x_name (xk_enc k)))) in E1 as [Hw1 Hc1]; [|done|split; [lia|done]].
  apply Items.append_inv in E2 as [Hw2 Hc2]; [|done|unfold_consts; lia].
  apply (Items.puts_inv (keys_items k iv)) in E3 as [Hw3 Hc3]; [|done..].
  rewrite Hc3, Hc2, Hc1, H0. by rewrite <- !app_assoc.
Qed.

Lemma to_name s : 0 ∉ s → to_string (cstr s) = to_string s.
Proof. intros Hs. by rewrite cstr_clean. Qed.
Lemma i32_i31 v : is_i31 v → i32 v = v.
Proof. unfold is_i31. intros Hv. apply i32_small. lia. Qed.

Lemma newkeys_roundtrip k iv o :
  keys_ok k iv → mm_newkeys_to_blob (Some k) iv = Ok o →
  ∃ blob, o = Some blob ∧ short blob ∧ mm_newkeys_from_blob blob = Ok (imported k iv).
Proof.
  intros Hk E. pose proof (newkeys_to_blob_inv k iv o Hk E) as ->. eexists. split; [reflexivity|].
  pose proof (keys_items_ok k iv Hk) as Hok.
  destruct Hk as [[Hn Hn0] Hc [Hp Hp'] He Hb Hk [Hmn Hmn0] (m0 & mk & Hm & Hmk & Hml & Hml0 & Hm0 & Hme & Hmac) (Hct & Hce & Hcn & Hcn0)].
  assert (Z.of_nat (length (take (Z.to_nat (x_block_size (xk_enc k))) iv)) = x_block_size (xk_enc k)) as Hiv by (rewrite length_take; lia).
  assert (Z.of_nat (length (take (Z.to_nat (mac_key_len (xk_mac k))) mk)) = mac_key_len (xk_mac k)) as Hmkl by (rewrite length_take; lia).
  unfold keys_items. rewrite Hmk. cbn [default map concat id]. unfold small in *.
  set (blob := Items.wire _ ++ _ ++ _).
  assert (Hs : short blob).
  { unfold short, blob. cbn [Items.wire]. rewrite !length_app. cbn [put_u32 length]. lia. }
  split; [exact Hs|]. unfold mm_newkeys_from_blob.
  destruct (Items.append_small buffer_init blob) as (b & -> & Hw & Hcb & _);
    [apply buffer_init_wf|unfold short in Hs; unfold_consts; lia|unfold short in Hs; change (alloc buffer_init) with 4096; unfold_consts; lia|].
  rewrite (proj2 buffer_init_wf) in Hcb. cbn [app] in Hcb. unfold blob in Hcb. clear Hs. clearbody blob. cbn [mbind outcome_bind].
  change (Items.wire (Items.CString (x_name (xk_enc k)))) with (Items.wire (Items.String (x_name (xk_enc k)))) in Hcb.
  change (Items.wire (Items.CString (xk_mac_name k))) with (Items.wire (Items.String (xk_mac_name k))) in Hcb.
  change (Items.wire (Items.CString (xc_name (xk_comp k)))) with (Items.wire (Items.String (xc_name (xk_comp k)))) in Hcb.
  got fits.
  match goal with Hw : wf ?b, Hc : contents ?b = _ |- _ => destruct (got_raw b _ _ Hw Hc) as (b1 & E1 & Hw1 & Hc1); rewrite Hp in E1; rewrite E1; clear Hw Hc end.
  cbn [mbind outcome_bind]. do 4 got fits. rewrite Hiv, Z.eqb_refl. cbn [negb].
  unfold cipher_of. rewrite to_name, Hc by done. rewrite bool_decide_true by done.
  got fits. rewrite to_name, Hm by done. cbn [mbind outcome_bind]. change (0 =? -1) with false. cbv iota.
  do 2 got fits. rewrite Hmkl, (proj2 (Z.ltb_ge _ _)) by lia. do 3 got fits.
  rewrite !cstr_clean, !i32_i31 by done. unfold imported. rewrite Hmac, Hmk. cbn [default id]. rsimpl.
  destruct (xk_comp k). done.
Qed.

Lemma got_state b p k : wf b → state_ok p → contents b = concat (map Items.wire (state_items p)) ++ k →
  ∃ b', get_state b = Ok (p, b') ∧ wf b' ∧ contents b' = k.
Proof.
  intros Hw (H1 & H2 & H3 & H4) Hc. unfold state_items in Hc. cbn [map concat] in Hc. rewrite <- !app_assoc in Hc. cbn [app] in Hc.
  unfold get_state. do 4 got assumption. destruct p. eauto.
Qed.

Lemma appended blob : short blob → ∃ b, buffer_append buffer_init blob = Ok b ∧ contents b = blob.
Proof.
  intros Hs. unfold short in Hs. destruct buffer_init_wf as [Hw H0].
  destruct (Items.append_small buffer_init blob) as (b & E & _ & Hc & _);
    [done|unfold_consts; lia|change (alloc buffer_init) with 4096; unfold_consts; lia|].
  exists b. by rewrite Hc, H0.
Qed.

Lemma got_kex b kex cvs svs k :
  wf b → Forall Items.ok (kex_items kex cvs svs) → is_i31 (hostkey_type kex) ∧ is_i31 (kex_type kex) ∧ is_i31 (kx_flags kex) →
  contents b = concat (map Items.wire (kex_items kex cvs svs)) ++ k →
  ∃ kex' b', mm_get_kex (Some (session_id kex)) b = Ok (kex', cvs, svs, b') ∧ same_kex kex kex' ∧ wf b' ∧ contents b' = k.
Proof.
  intros Hw Hok (Hi1 & Hi2 & Hi3) Hc. unfold kex_items in *. cbn [map concat] in Hc. rewrite <- !app_assoc in Hc. cbn [app] in Hc.
  change (Items.wire (Items.CString cvs)) with (Items.wire (Items.String cvs)) in Hc.
  change (Items.wire (Items.CString svs)) with (Items.wire (Items.String svs)) in Hc.
  repeat (apply Forall_cons in Hok as [? Hok]). cbn [Items.ok] in *.
  destruct (appended (contents (kx_my kex))) as (my & Emy & Hmy); [done|].
  destruct (appended (contents (kx_peer kex))) as (peer & Epeer & Hpeer); [done|].
  unfold mm_get_kex. got assumption. rewrite bool_decide_true by done. cbn [negb]. do 3 got assumption.
  got assumption. rewrite Emy. cbn [mbind outcome_bind]. got assumption. rewrite Epeer. cbn [mbind outcome_bind].
  got assumption. do 2 got tauto. rewrite !i32_i31, !cstr_clean by tauto. eexists _, _. split; [reflexivity|]. done.
Qed.

Definition rest_items (n : netstate) : list Items.item :=
  [Items.String (n_keyout n); Items.String (n_keyin n); Items.String (n_outgoing n); Items.String (n_incoming n);
   Items.String (n_input n); Items.String (n_output n)].
Definition roaming_items (compat20 : bool) (n : netstate) : list Items.item :=
  if compat20 then [Items.Int64 (n_sent_bytes n); Items.Int64 (n_recv_bytes n)] else [].

Lemma got_rest compat20 n iv_out iv_in n1 b :
  wf b → net_ok n iv_out iv_in →
  contents b = concat (map Items.wire (rest_items n)) ++ concat (map Items.wire (roaming_items compat20 n)) →
  get_rest compat20 n1 b =
    Ok (mkNet (n_kex n1) (n_client_version n1) (n_server_version n1) (n_keys_out n1) (n_keys_in n1) (n_send n1) (n_read n1)
          (n_protoflags n1) (n_ssh1cipher n1) (n_ssh1key n1) (n_ivout n1) (n_ivin n1)
          (n_keyout n) (n_keyin n) (n_outgoing n) (n_incoming n) (n_input n) (n_output n)
          (if compat20 then n_sent_bytes n else n_sent_bytes n1) (if compat20 then n_recv_bytes n else n_recv_bytes n1)).
Proof.
  intros Hw [_ _ _ _ _ _ _ [Hk1 Hk2] (Hz1 & Hz2 & Hz) [Hb1 Hb2] [Hr1 Hr2]] Hc.
  unfold rest_items in Hc. cbn [map concat] in Hc. rewrite <- !app_assoc in Hc. cbn [app] in Hc.
  unfold get_rest, short in *. do 3 got lia. rewrite Hz1, Z.eqb_refl. cbn [negb].
  got lia. rewrite Hz2, Z.eqb_refl. cbn [negb]. do 2 got lia.
  destruct compat20; [|done]. cbn [roaming_items map concat] in *. do 2 got assumption. done.
Qed.

(** What the child writes. *)
Lemma send_keystate_inv compat20 n iv_out iv_in m :
  net_ok n iv_out iv_in → mm_send_keystate compat20 n iv_out iv_in = Ok m →
  wf m ∧ ∃ first,
    contents m = first ++ concat (map Items.wire (rest_items n)) ++ concat (map Items.wire (roaming_items compat20 n)) ∧
    if compat20 then ∃ ko ki, mm_newkeys_to_blob (Some (n_keys_out n)) iv_out = Ok (Some ko) ∧
         mm_newkeys_to_blob (Some (n_keys_in n)) iv_in = Ok (Some ki) ∧
         first = concat (map Items.wire (kex_items (n_kex n) (n_client_version n) (n_server_version n))) ++
           Items.wire (Items.String ko) ++ Items.wire (Items.String ki) ++
           concat (map Items.wire (state_items (n_send n))) ++ concat (map Items.wire (state_items (n_read n)))
    else first = concat (map Items.wire [Items.Int (n_protoflags n); Items.Int (n_ssh1cipher n); Items.String (n_ssh1key n);
           Items.String (n_ivout n); Items.String (n_ivin n)]).
Proof.
  intros Hn E. destruct buffer_init_wf as [Hw H0].
  destruct Hn as [Hk Hki Ho Hi Hs Hr (Hp1 & Hp2 & Hp3 & Hp4 & Hp5) [Hc1 Hc2] (Hz1 & Hz2 & Hz) [Hb1 Hb2] [Hr1 Hr2]].
  assert (Hrest : Forall Items.ok (rest_items n)).
  { unfold short in *. repeat (apply Forall_cons; split); [..|constructor]; cbn [Items.ok]; lia. }
  assert (Hst : ∀ p, state_ok p → Forall Items.ok (state_items p)).
  { intros p (?&?&?&?). repeat (apply Forall_cons; split); [..|constructor]; done. }
  unfold mm_send_keystate in E. apply bind_Ok in E as (m1 & E1 & E). apply bind_Ok in E as (m2 & E2 & E).
  assert (wf m1 → wf m ∧ contents m = contents m1 ++ concat (map Items.wire (rest_items n)) ++ concat (map Items.wire (roaming_items compat20 n))) as Hfin.
  { intros Hw1. apply (Items.puts_inv (rest_items n)) in E2 as [Hw2 Hcm2]; [|done..]. destruct compat20; cbn [roaming_items].
    - apply Items.puts_inv in E as [Hw3 Hc3]; [|done|repeat constructor; apply Hr1 || apply Hr2]. split; [done|]. by rewrite Hc3, Hcm2, app_assoc.
    - injection E as <-. split; [done|]. by rewrite Hcm2, app_nil_r. }
  destruct compat20.
  - apply bind_Ok in E1 as (a & Ea & E1). apply Items.puts_inv in Ea as [Hwa Hca]; [|done..]. rewrite H0 in Hca.
    apply bind_Ok in E1 as (o & Eo & E1). destruct (newkeys_roundtrip _ _ _ Ho Eo) as (ko & -> & Hso & _).
    apply bind_Ok in E1 as (a2 & Ea2 & E1). apply (Items.put_inv a (Items.String ko)) in Ea2 as [Hwa2 Hca2]; [|done..].
    apply bind_Ok in E1 as (o & Ei & E1). destruct (newkeys_roundtrip _ _ _ Hi Ei) as (ki & -> & Hsi & _).
    apply bind_Ok in E1 as (a3 & Ea3 & E1). apply (Items.put_inv a2 (Items.String ki)) in Ea3 as [Hwa3 Hca3]; [|done..].
    apply Items.puts_inv in E1 as [Hw1 Hc1']; [|done|apply Forall_app; auto]. destruct (Hfin Hw1) as [Hwm Hcm].
    split; [done|]. eexists. split; [exact Hcm|]. exists ko, ki. split_and!; [done..|].
    rewrite Hc1', Hca3, Hca2, Hca, map_app, concat_app, <- !app_assoc. done.
  - apply Items.puts_inv in E1 as [Hw1 Hc1']; [|done|].
    + destruct (Hfin Hw1) as [Hwm Hcm]. split; [done|]. eexists. split; [exact Hcm|]. by rewrite Hc1', H0.
    + unfold short, is_i31 in *. repeat (apply Forall_cons; split); [..|constructor]; cbn [Items.ok]; unfold is_u32; lia.
Qed.

(** C27: The state that the unprivileged process sends after authentication
    (key exchange, keys, sequence numbers, contexts, buffers) is what the
    monitor, which knows the same session id, has afterwards, in both
    protocols. *)
Theorem keystate_roundtrip compat20 n iv_out iv_in n0 m :
  net_ok n iv_out iv_in → mm_send_keystate compat20 n iv_out iv_in = Ok m →
  ∃ n', mm_get_keystate compat20 (Some (session_id (n_kex n))) n0 m = Ok n' ∧ transferred compat20 n iv_out iv_in n'.
Proof.
  intros Hn E. destruct (send_keystate_inv _ _ _ _ _ Hn E) as (Hw & first & Hc & Hf).
  pose proof Hn as [Hk Hki Ho Hi Hs Hr (Hp1 & Hp2 & Hp3 & Hp4 & Hp5) _ _ _ _]. unfold mm_get_keystate. destruct compat20.
  - destruct Hf as (ko & ki & Eo & Ei & ->). rewrite <- !app_assoc in Hc.
    destruct (got_kex m _ _ _ _ Hw Hk Hki Hc) as (kex' & m1 & Eg & Hsame & Hw1 & Hc1). rewrite Eg. cbn [mbind outcome_bind].
    destruct (newkeys_roundtrip _ _ _ Ho Eo) as (ko' & [= <-] & Hso & Fo).
    destruct (newkeys_roundtrip _ _ _ Hi Ei) as (ki' & [= <-] & Hsi & Fi). clear Hw Hc.
    got assumption. rewrite Fo. cbn [mbind outcome_bind]. got assumption. rewrite Fi. cbn [mbind outcome_bind].
    edestruct got_state as (m2 & Es & Hw2 & Hc2); [done|exact Hs|eassumption|]. rewrite Es. cbn [mbind outcome_bind].
    edestruct got_state as (m3 & Er & Hw3 & Hc3); [exact Hw2|exact Hr|exact Hc2|]. rewrite Er. cbn [mbind outcome_bind].
    rewrite (got_rest true n iv_out iv_in _ m3 Hw3 Hn Hc3). eexists. split; [reflexivity|]. done.
  - rewrite Hf in Hc. cbn [map concat] in Hc. rewrite <- !app_assoc in Hc. cbn [app] in Hc.
    unfold is_i31, short in *. do 2 got ltac:(unfold is_u32; lia). do 3 got lia. rewrite !i32_small by lia.
    erewrite (got_rest false n iv_out iv_in); [|done|exact Hn|done]. eexists. split; [reflexivity|]. done.
Qed.
End KeyState.

(** ** A transfer *)

Module KeyStateDemo.
Import Toy.

(** Addresses of the entries of the table. *)
Definition ptrs (c : option Cipher) : list Z :=
  match c with None => [0; 0; 0; 0; 0; 0; 0; 0] | Some c => [127; 85; 0; 0; c_key_len c; c_block_size c; c_cbc_mode c; 8] end.
Definition demo_mac : Mac := mkMac "hmac-md5" 1 16 (Some (replicate 20 7)) 16 SSH_EVP (Some EVP_md5) (Some (EVP_md5, replicate 16 7)) None.
Definition demo_keys : xNewkeys :=
  mkXNewkeys (mkXEnc (codes "aes128-cbc") (cipher_by_name "aes128-cbc") 1 16 (replicate 16 5) (replicate 16 0)) (codes "hmac-md5") demo_mac
    (mkXComp 0 0 (codes "none")).
Definition demo_kex : Kex := mkKex (replicate 20 9) None None 16 1 None KEY_RSA KEX_DH_GRP14_SHA1 0 buffer_init buffer_init 1 1 None.
Definition demo_net : netstate :=
  mkNet demo_kex (codes "SSH-2.0-client") (codes "SSH-2.0-server") demo_keys demo_keys (mkPS 7 7 30 480) (mkPS 9 9 40 640)
    0 0 [] [] [] [] [] (replicate 112 0) (replicate 112 1) [1; 2; 3] [] 4242 2424.
Abbreviation demo_n0 := (mkNet demo_kex [] [] demo_keys demo_keys (mkPS 0 0 0 0) (mkPS 0 0 0 0) 0 0 [] [] [] [] [] [] [] [] [] 0 0).

Lemma demo_keys_ok iv : length iv = 16%nat → keys_ok ptrs 8 demo_keys iv.
Proof.
  intros Hl. split.
  - apply (bool_decide_unpack _). vm_compute. exact I.
  - vm_compute. reflexivity.
  - split; done.
  - done.
  - split; [done|]. rewrite Hl. done.
  - done.
  - apply (bool_decide_unpack _). vm_compute. exact I.
  - eexists _, (replicate 20 7). split; [vm_compute; reflexivity|]. split_and!; done.
  - apply (bool_decide_unpack _). vm_compute. exact I.
Qed.

Lemma keystate_roundtrip_witness :
  ∃ m n', mm_send_keystate ptrs true demo_net (replicate 16 1) (replicate 16 2) = Ok m ∧
    mm_get_keystate ptrs 8 112 true (Some (replicate 20 9)) demo_n0 m = Ok n' ∧
    n_send n' = mkPS 7 7 30 480 ∧ n_input n' = [1; 2; 3] ∧ x_iv (xk_enc (n_keys_out n')) = replicate 16 1.
Proof.
  destruct (mm_send_keystate ptrs true demo_net (replicate 16 1) (replicate 16 2)) as [m| | | | |] eqn:E;
    [|vm_compute in E; discriminate..].
  destruct (keystate_roundtrip ptrs 8 112 true demo_net (replicate 16 1) (replicate 16 2) demo_n0 m) as (n' & Hg & Ht & Hr).
  - split; try (by apply demo_keys_ok).
    { repeat (apply Forall_cons; split); [..|constructor]; apply (bool_decide_unpack _); vm_compute; exact I. }
    all: apply (bool_decide_unpack _); vm_compute; exact I.
  - exact E.
  - exists m, n'. split; [done|]. split; [exact Hg|]. cbn in Ht.
    destruct Ht as (_ & _ & _ & Ho & _ & Hs & _). destruct Hr as (_ & _ & _ & _ & Hi & _).
    rewrite Hs, Hi, Ho. vm_compute. auto.
Defined.

(** A name that is in no table and a null pointer pass the check of the cipher. *)
Definition null_blob : list Z :=
  concat (map Items.wire [Items.String (codes "nothing")]) ++ ptrs None ++
  concat (map Items.wire [Items.Int 1; Items.Int 0; Items.String []; Items.String []; Items.CString (codes "hmac-md5"); Items.Int 1;
    Items.String []; Items.Int 0; Items.Int 0; Items.String []]).
Example null_cipher_accepted :
  match mm_newkeys_from_blob ptrs 8 null_blob with Ok k => bool_decide (x_cipher (xk_enc k) = None) | _ => false end = true.
Proof. vm_compute. reflexivity. Qed.
End KeyStateDemo.
