(* ===== verification/Monitor.v ===== *)
(** * The monitor of privilege separation ([monitor.c], [monitor_wrap.c])

    The privileged process serves the requests of the unprivileged one: the
    tables of requests with their permissions, the handlers, the loops before
    and after authentication, and the framing of the messages.  The build is
    the one without PAM, BSD authentication, S/Key, GSSAPI, JPAKE and audit.
    The child is arbitrary: the bytes it writes to the socket and to the log
    pipe, and the order in which [poll] reports them, are arguments.  Writes to
    the child succeed.  Questions to the rest of the system are the classes
    [Backend] and [Privileged]; their answers may depend on the number of the
    request.  The options are those after the [Match] blocks for the user,
    none is looked at before the user is known. *)

From S2P Require Import Prelude ByteOrder Buffer Crc32 Deattack Stdio SuperTrace HashMap Csbuflo.
From S2P Require Import CipherMac Packet PacketWrite PacketRead Dispatch Match Nchan Kex AddrMatch Auth Auth2 Session BufBn KeyState.

(** [enum monitor_reqtype] *)
Definition MONITOR_REQ_MODULI : Z := 0.
Definition MONITOR_ANS_MODULI : Z := 1.
Definition MONITOR_REQ_AUTHSERV : Z := 3.
Definition MONITOR_REQ_SIGN : Z := 4.
Definition MONITOR_ANS_SIGN : Z := 5.
Definition MONITOR_REQ_PWNAM : Z := 6.
Definition MONITOR_ANS_PWNAM : Z := 7.
Definition MONITOR_REQ_AUTH2_READ_BANNER : Z := 8.
Definition MONITOR_ANS_AUTH2_READ_BANNER : Z := 9.
Definition MONITOR_REQ_AUTHPASSWORD : Z := 10.
Definition MONITOR_ANS_AUTHPASSWORD : Z := 11.
Definition MONITOR_REQ_KEYALLOWED : Z := 20.
Definition MONITOR_ANS_KEYALLOWED : Z := 21.
Definition MONITOR_REQ_KEYVERIFY : Z := 22.
Definition MONITOR_ANS_KEYVERIFY : Z := 23.
Definition MONITOR_REQ_KEYEXPORT : Z := 24.
Definition MONITOR_REQ_PTY : Z := 25.
Definition MONITOR_ANS_PTY : Z := 26.
Definition MONITOR_REQ_PTYCLEANUP : Z := 27.
Definition MONITOR_REQ_SESSKEY : Z := 28.
Definition MONITOR_ANS_SESSKEY : Z := 29.
Definition MONITOR_REQ_SESSID : Z := 30.
Definition MONITOR_REQ_RSAKEYALLOWED : Z := 31.
Definition MONITOR_ANS_RSAKEYALLOWED : Z := 32.
Definition MONITOR_REQ_RSACHALLENGE : Z := 33.
Definition MONITOR_ANS_RSACHALLENGE : Z := 34.
Definition MONITOR_REQ_RSARESPONSE : Z := 35.
Definition MONITOR_ANS_RSARESPONSE : Z := 36.
Definition MONITOR_REQ_TERM : Z := 58.

Definition MON_ISAUTH : Z := 0x4.
Definition MON_AUTHDECIDE : Z := 0x8.
Definition MON_ONCE : Z := 0x10.
Definition MON_ALOG : Z := 0x20.
Definition MON_AUTH : Z := Z.lor MON_ISAUTH MON_AUTHDECIDE.
Definition MON_PERMIT : Z := 0x1000.

Definition MM_NOKEY : Z := 0.
Definition MM_HOSTKEY : Z := 1.
Definition MM_USERKEY : Z := 2.
Definition MM_RSAHOSTKEY : Z := 3.
Definition MM_RSAUSERKEY : Z := 4.
Definition SSH_RSA_MINIMUM_MODULUS_SIZE : Z := 768.

(** The functions the tables point to. *)
Inductive mm_answer :=
| mm_answer_moduli_f | mm_answer_sign_f | mm_answer_pwnamallow_f | mm_answer_auth2_read_banner_f | mm_answer_authserv_f
| mm_answer_authpassword_f | mm_answer_keyallowed_f | mm_answer_keyverify_f | mm_answer_pty_f | mm_answer_pty_cleanup_f
| mm_answer_term_f | mm_answer_rsa_keyallowed_f | mm_answer_rsa_challenge_f | mm_answer_rsa_response_f | mm_answer_sesskey_f
| mm_answer_sessid_f.

(** A table without its last entry, whose function is NULL. *)
Record mon_entry := mkEnt { m_reqtype : Z; m_flags : Z; m_f : mm_answer }.

Definition mon_dispatch_proto20 : list mon_entry := [
  mkEnt MONITOR_REQ_MODULI MON_ONCE mm_answer_moduli_f;
  mkEnt MONITOR_REQ_SIGN MON_ONCE mm_answer_sign_f;
  mkEnt MONITOR_REQ_PWNAM MON_ONCE mm_answer_pwnamallow_f;
  mkEnt MONITOR_REQ_AUTHSERV MON_ONCE mm_answer_authserv_f;
  mkEnt MONITOR_REQ_AUTH2_READ_BANNER MON_ONCE mm_answer_auth2_read_banner_f;
  mkEnt MONITOR_REQ_AUTHPASSWORD MON_AUTH mm_answer_authpassword_f;
  mkEnt MONITOR_REQ_KEYALLOWED MON_ISAUTH mm_answer_keyallowed_f;
  mkEnt MONITOR_REQ_KEYVERIFY MON_AUTH mm_answer_keyverify_f ].
Definition mon_dispatch_postauth20 : list mon_entry := [
  mkEnt MONITOR_REQ_MODULI 0 mm_answer_moduli_f;
  mkEnt MONITOR_REQ_SIGN 0 mm_answer_sign_f;
  mkEnt MONITOR_REQ_PTY 0 mm_answer_pty_f;
  mkEnt MONITOR_REQ_PTYCLEANUP 0 mm_answer_pty_cleanup_f;
  mkEnt MONITOR_REQ_TERM 0 mm_answer_term_f ].
Definition mon_dispatch_proto15 : list mon_entry := [
  mkEnt MONITOR_REQ_PWNAM MON_ONCE mm_answer_pwnamallow_f;
  mkEnt MONITOR_REQ_SESSKEY MON_ONCE mm_answer_sesskey_f;
  mkEnt MONITOR_REQ_SESSID MON_ONCE mm_answer_sessid_f;
  mkEnt MONITOR_REQ_AUTHPASSWORD MON_AUTH mm_answer_authpassword_f;
  mkEnt MONITOR_REQ_RSAKEYALLOWED (Z.lor MON_ISAUTH MON_ALOG) mm_answer_rsa_keyallowed_f;
  mkEnt MONITOR_REQ_KEYALLOWED (Z.lor MON_ISAUTH MON_ALOG) mm_answer_keyallowed_f;
  mkEnt MONITOR_REQ_RSACHALLENGE MON_ONCE mm_answer_rsa_challenge_f;
  mkEnt MONITOR_REQ_RSARESPONSE (Z.lor MON_ONCE MON_AUTHDECIDE) mm_answer_rsa_response_f ].
Definition mon_dispatch_postauth15 : list mon_entry := [
  mkEnt MONITOR_REQ_PTY MON_ONCE mm_answer_pty_f;
  mkEnt MONITOR_REQ_PTYCLEANUP MON_ONCE mm_answer_pty_cleanup_f;
  mkEnt MONITOR_REQ_TERM 0 mm_answer_term_f ].

Definition has_flag (e : mon_entry) (f : Z) : bool := negb (Z.land (m_flags e) f =? 0).
Definition set_permit (e : mon_entry) (permit : bool) : mon_entry :=
  mkEnt (m_reqtype e) (Z.lor (Z.land (m_flags e) (Z.lnot MON_PERMIT)) (if permit then MON_PERMIT else 0)) (m_f e).

(** The first entry of a type. *)
Fixpoint permit_table (type : Z) (permit : bool) (l : list mon_entry) : list mon_entry :=
  match l with
  | [] => []
  | e :: l => if m_reqtype e =? type then set_permit e permit :: l else e :: permit_table type permit l
  end.
Definition permit_authentications (permit : bool) (l : list mon_entry) : list mon_entry :=
  map (λ e, if has_flag e MON_AUTH then set_permit e permit else e) l.
Fixpoint find_entry (type : Z) (l : list mon_entry) (i : nat) : option nat :=
  match l with
  | [] => None
  | e :: l => if m_reqtype e =? type then Some i else find_entry type l (S i)
  end.

(** Host keys, big numbers, the RSA keys of protocol 1, and the system calls
    for terminals. *)
Class Privileged `{Backend} `{Bignum} := {
  hostkey : Type;
  host_keys : list (option hostkey);
  choose_dh : nat → Z → Z → Z → option (bn * bn);
  key_sign : nat → hostkey → list Z → option (list Z);
  ssh1_session_key : nat → bn → Z * bn;
  (* result, key, forced command *)
  auth_rsa_key_allowed : nat → passwd → bn → Z * option key * bool;
  auth_rhosts_rsa_key_allowed : nat → passwd → list Z → list Z → key → Z;
  key_to_blob : key → option (list Z);
  key_with_type : key → Z → key;
  key_rsa_n : key → option bn;        (* key->rsa may be NULL *)
  BN_rand256 : nat → bn;
  BN_mod : bn → bn → bn;
  MD5 : list Z → list Z;
  sizeof_passwd_bytes : passwd → list Z;
  sizeof_options_bytes : list Z;
  (* the strings of COPY_MATCH_STRING_OPTS after the banner *)
  match_string_opts : list (list Z);
  peername_ok : nat → bool;
  record_login_msg : nat → list Z;
  dup2_ok : nat → bool;
  send_fds_ok : nat → bool;
  open_devnull_ok : nat → bool;
  child_status : option Z;
  m_pid : Z
}.

(** What [poll] reports. *)
Inductive poll_result := Poll_again | Poll_failed | Poll_ready (log req : bool).

Section Monitor.
Context `{Privileged} `{Crypto} (options : ServerOptions) (E : senv) (datafellows : Z) (compat20 : bool).
Context (ptr_bytes : option Cipher → list Z) (sizeof_ptr sizeof_zstream : Z).

(** The variables of [monitor.c] and the two descriptors; [m_now] counts the
    requests. *)
Record mon := mkMon {
  m_authctxt : Authctxt;
  mon_dispatch : list mon_entry;
  key_blob : option (list Z);
  key_blobtype : Z;
  hostbased_cuser : option (list Z);
  hostbased_chost : option (list Z);
  auth_method : list Z;
  session_id2 : option (list Z);
  ssh1_challenge : option bn;
  m_session_id : list Z;
  m_forced_command : bool;
  call_count : Z;
  m_loginmsg : list Z;
  m_log_open : bool;
  rx : list Z;
  log_rx : list Z;
  tx : list Z;
  logged : list (Z * list Z);
  m_now : nat;
  m_sess : sess;
  child_state : netstate
}.
#[export] Instance eta_mon : Eta mon := λ s,
  {| m_authctxt := m_authctxt s; mon_dispatch := mon_dispatch s; key_blob := key_blob s; key_blobtype := key_blobtype s;
     hostbased_cuser := hostbased_cuser s; hostbased_chost := hostbased_chost s; auth_method := auth_method s;
     session_id2 := session_id2 s; ssh1_challenge := ssh1_challenge s; m_session_id := m_session_id s;
     m_forced_command := m_forced_command s; call_count := call_count s; m_loginmsg := m_loginmsg s; m_log_open := m_log_open s;
     rx := rx s; log_rx := log_rx s; tx := tx s; logged := logged s; m_now := m_now s; m_sess := m_sess s;
     child_state := child_state s |}.

Definition fatalM {A} (e : string) : M mon A := λ _, Fatal e.
Definition exitM {A} (code : Z) : M mon A := λ _, Exit code.
Definition faultM {A} : M mon A := λ _, Fault.
Definition getM {A} (f : Authctxt → A) : M mon A := gets (λ s, f (m_authctxt s)).
Definition modM (f : Authctxt → Authctxt) : M mon unit := modify (λ s, s <| m_authctxt := f (m_authctxt s) |>).
Definition derefM {A} (f : Authctxt → option A) : M mon A :=
  o ← getM f; match o with Some a => mret a | None => faultM end.
Definition askM {A} (f : nat → A) : M mon A := t ← gets m_now; mret (f t).
Definition inSession {A} (m : M sess A) : M mon A := λ s,
  match m (m_sess s) with
  | Ok (a, s') => Ok (a, s <| m_sess := s' |>)
  | Fatal e => Fatal e | Disconnect e => Disconnect e | Exit c => Exit c | Fault => Fault | NoFuel => NoFuel
  end.

(** ** Messages *)

Definition mm_request_send (type : Z) (m : Buffer) : M mon unit :=
  let mlen := buffer_len m in
  data ← liftO (peek_bytes m mlen);
  modify (λ s, s <| tx := tx s ++ put_u32 (u32 (mlen + 1)) ++ [u8 type] ++ data |>).

(** Too few bytes are the end of the stream; [EPIPE] ends the process. *)
Definition mm_request_receive (m : Buffer) : M mon Buffer :=
  q ← gets rx;
  if Z.of_nat (length q) <? 4 then exitM 255
  else
    let msg_len := get_u32 (take 4 q) in
    if 256 * 1024 <? msg_len then fatalM "mm_request_receive: read: bad msg_len"
    else if Z.of_nat (length q) - 4 <? msg_len then fatalM "mm_request_receive: read"
    else
      _ ← modify (λ s, s <| rx := drop (4 + Z.to_nat msg_len) q |>);
      liftO (buffer_append (buffer_clear m) (take (Z.to_nat msg_len) (drop 4 q))).
Definition mm_request_receive_expect (type : Z) (m : Buffer) : M mon Buffer :=
  m ← mm_request_receive m;
  '(rtype, m) ← liftO (buffer_get_char m);
  if negb (rtype =? type) then fatalM "mm_request_receive_expect: rtype != type" else mret m.

(** ** Permissions *)

Definition monitor_permit (type : Z) (permit : bool) : M mon unit :=
  modify (λ s, s <| mon_dispatch := permit_table type permit (mon_dispatch s) |>).
Definition monitor_permit_authentications (permit : bool) : M mon unit :=
  modify (λ s, s <| mon_dispatch := permit_authentications permit (mon_dispatch s) |>).

(** ** The key that was allowed *)

(** [timingsafe_bcmp] of the lengths that were compared before. *)
Definition monitor_allowed_key (blob : list Z) : M mon bool := gets (λ s, bool_decide (key_blob s = Some blob)).
Definition monitor_reset_key_state : M mon unit :=
  modify (λ s, s <| key_blob := None |> <| key_blobtype := MM_NOKEY |> <| hostbased_cuser := None |> <| hostbased_chost := None |>).
Definition clear_options : M mon unit := modify (λ s, s <| m_forced_command := false |>).
Definition set_method (m : string) : M mon unit := modify (λ s, s <| auth_method := codes m |>).

(** ** Key exchange *)

Definition mm_answer_moduli (m : Buffer) : M mon Z :=
  '(mn, m) ← liftO (buffer_get_int m);
  '(want, m) ← liftO (buffer_get_int m);
  '(mx, m) ← liftO (buffer_get_int m);
  let mn := i32 mn in let want := i32 want in let mx := i32 mx in
  if (mx <? mn) || (want <? mn) || (mx <? want) then fatalM "mm_answer_moduli: bad parameters"
  else
    dh ← askM (λ t, choose_dh t mn want mx);
    match dh with
    | None => _ ← liftO (buffer_put_char (buffer_clear m) 0); mret 0
    | Some (p, g) =>
        m ← liftO (buffer_put_char (buffer_clear m) 1);
        m ← liftO (buffer_put_bignum2 m p);
        m ← liftO (buffer_put_bignum2 m g);
        _ ← mm_request_send MONITOR_ANS_MODULI m;
        mret 0
    end.

(** [get_hostkey_by_index] of [sshd.c] *)
Definition get_hostkey_by_index (ind : Z) : option hostkey :=
  if (ind <? 0) || (Z.of_nat (length host_keys) <=? ind) then None else mjoin (host_keys !! Z.to_nat ind).

Definition mm_answer_sign (m : Buffer) : M mon Z :=
  '(keyid, m) ← liftO (buffer_get_int m);
  '(p, m) ← liftO (buffer_get_string m);
  let datlen := Z.of_nat (length p) in
  if negb (datlen =? 20) && negb (datlen =? 32) && negb (datlen =? 48) && negb (datlen =? 64) then
    fatalM "mm_answer_sign: data length incorrect"
  else
    sid ← gets session_id2;
    _ ← when (bool_decide (sid = None)) (modify (λ s, s <| session_id2 := Some p |>));
    match get_hostkey_by_index (i32 keyid) with
    | None => fatalM "mm_answer_sign: no hostkey from index"
    | Some k =>
        o ← askM (λ t, key_sign t k p);
        match o with
        | None => fatalM "mm_answer_sign: key_sign failed"
        | Some signature =>
            m ← liftO (buffer_put_string (buffer_clear m) signature);
            _ ← mm_request_send MONITOR_ANS_SIGN m;
            _ ← monitor_permit MONITOR_REQ_PWNAM true;
            mret 0
        end
    end.

(** ** The user *)

Definition passwd_items (p : passwd) : list Items.item :=
  [Items.Char 1; Items.String (sizeof_passwd_bytes p); Items.CString (pw_name p); Items.CString (codes "*");
   Items.CString (pw_gecos p); Items.CString (pw_dir p); Items.CString (pw_shell p)].
Definition options_items : list Items.item :=
  Items.String sizeof_options_bytes :: match banner options with Some b => [Items.CString b] | None => [] end ++
  map Items.CString match_string_opts.

Definition mm_answer_pwnamallow (m : Buffer) : M mon Z :=
  n ← getM attempt;
  _ ← modM (λ a, a <| attempt := i32 (n + 1) |>);
  if negb (n =? 0) then fatalM "mm_answer_pwnamallow: multiple attempts for getpwnam"
  else
    '(username, m) ← liftO (buffer_get_string m);
    pwent ← askM (λ t, b_getpwnamallow t (cstr username));
    _ ← modM (λ a, a <| user := Some (cstr username) |>);
    m ← (match pwent with
         | None =>
             _ ← modM (λ a, a <| pw := Some b_fakepw |>);
             liftO (buffer_put_char (buffer_clear m) 0)
         | Some p =>
             _ ← modM (λ a, a <| pw := Some p |> <| valid := true |>);
             liftO (Items.puts (buffer_clear m) (passwd_items p))
         end);
    m ← liftO (Items.puts m options_items);
    _ ← mm_request_send MONITOR_ANS_PWNAM m;
    _ ← (if negb compat20 then monitor_permit_authentications true
         else _ ← monitor_permit MONITOR_REQ_AUTHSERV true; monitor_permit MONITOR_REQ_AUTH2_READ_BANNER true);
    mret 0.

Definition mm_answer_auth2_read_banner (m : Buffer) : M mon Z :=
  m ← liftO (buffer_put_cstring (buffer_clear m) (Some (default [] b_read_banner)));
  _ ← mm_request_send MONITOR_ANS_AUTH2_READ_BANNER m;
  mret 0.

Definition mm_answer_authserv (m : Buffer) : M mon Z :=
  _ ← monitor_permit_authentications true;
  '(sv, m) ← liftO (buffer_get_string m);
  _ ← modM (λ a, a <| service := Some (cstr sv) |>);
  '(st, _) ← liftO (buffer_get_string m);
  _ ← modM (λ a, a <| style := match cstr st with [] => None | l => Some l end |>);
  mret 0.

Definition mm_answer_authpassword (m : Buffer) : M mon Z :=
  '(password, m) ← liftO (buffer_get_string m);
  authenticated ← (if password_authentication options then
      v ← getM valid; p ← derefM pw; st ← getM style;
      r ← askM (λ t, b_auth_password t v p st (cstr password));
      mret (b2z (negb (r =? 0)))
    else mret 0);
  m ← liftO (buffer_put_int (buffer_clear m) authenticated);
  _ ← mm_request_send MONITOR_ANS_AUTHPASSWORD m;
  _ ← modify (λ s, s <| call_count := i32 (call_count s + 1) |>);
  n ← gets call_count;
  _ ← (if (Z.of_nat (length password) =? 0) && (n =? 1) then set_method "none" else set_method "password");
  mret authenticated.

(** ** Keys *)

(** [hostbased_key_allowed] strips a final dot from [chost], in place. *)
Definition strip_dot (h : list Z) : list Z :=
  match last h with Some c => if c =? 46 then take (length h - 1) h else h | None => h end.

Definition key_allowed_by_type (type : Z) (k : key) (cuser chost : list Z) : M mon (Z * list Z) :=
  if type =? MM_USERKEY then
    allowed ← (if pubkey_authentication options then
        p ← derefM pw;
        '(r, forced) ← askM (λ t, b_user_key_allowed t p k);
        _ ← modify (λ s, s <| m_forced_command := forced |>);
        mret (b2z (negb (r =? 0)))
      else mret 0);
    _ ← set_method "publickey";
    _ ← when (pubkey_authentication options && negb (allowed =? 1)) clear_options;
    mret (allowed, cstr chost)
  else if type =? MM_HOSTKEY then
    '(allowed, chost) ← (if hostbased_authentication options then
        p ← derefM pw;
        r ← askM (λ t, b_hostbased_key_allowed t p (cstr cuser) (cstr chost) k);
        mret (b2z (negb (r =? 0)), strip_dot (cstr chost))
      else mret (0, cstr chost));
    _ ← set_method "hostbased";
    mret (allowed, chost)
  else if type =? MM_RSAHOSTKEY then
    allowed ← (if rhosts_rsa_authentication options then
        p ← derefM pw;
        r ← askM (λ t, auth_rhosts_rsa_key_allowed t p (cstr cuser) (cstr chost) (key_with_type k KEY_RSA1));
        mret (b2z (negb (r =? 0)))
      else mret 0);
    _ ← when (rhosts_rsa_authentication options && negb (allowed =? 1)) clear_options;
    _ ← set_method "rsa";
    mret (allowed, cstr chost)
  else fatalM "mm_answer_keyallowed: unknown key type".

Definition mm_answer_keyallowed (m : Buffer) : M mon Z :=
  '(type, m) ← liftO (buffer_get_int m);
  '(cuser, m) ← liftO (buffer_get_string m);
  '(chost, m) ← liftO (buffer_get_string m);
  '(blob, m) ← liftO (buffer_get_string m);
  let k := key_from_blob blob in
  if (compat20 && (type =? MM_RSAHOSTKEY)) || (negb compat20 && negb (type =? MM_RSAHOSTKEY)) then
    fatalM "mm_answer_keyallowed: key type and protocol mismatch"
  else
    v ← getM valid;
    '(allowed, chost) ← (match k with
        | Some k => if v : bool then key_allowed_by_type type k cuser chost else mret (0, cstr chost)
        | None => mret (0, cstr chost)
        end);
    _ ← monitor_reset_key_state;
    _ ← when (negb (allowed =? 0)) (modify (λ s, s <| key_blob := Some blob |> <| key_blobtype := type |>
          <| hostbased_cuser := Some (cstr cuser) |> <| hostbased_chost := Some chost |>));
    forced ← gets m_forced_command;
    m ← liftO (Items.puts (buffer_clear m) [Items.Int allowed; Items.Int (b2z forced)]);
    _ ← mm_request_send MONITOR_ANS_KEYALLOWED m;
    _ ← when (type =? MM_RSAHOSTKEY) (monitor_permit MONITOR_REQ_RSACHALLENGE (negb (allowed =? 0)));
    mret 0.

(** The checks count what is wrong; the counters of the two functions. *)
Definition bad (b : bool) : Z := b2z b.
Definition strcmp_ne (a b : list Z) : bool := negb (bool_decide (a = b)).

(** [authctxt->user] is used without a check. *)
Definition monitor_valid_userblob (data : list Z) (sid : option (list Z)) (usr : option (list Z)) : outcome bool :=
  b ← buffer_append buffer_init data;
  '(fail, b) ← (if has_bug datafellows SSH_OLD_SESSIONID then
      let l := match sid with None => 0 | Some sid => Z.of_nat (length sid) end in
      let f := match sid with
               | None => true
               | Some sid => (buffer_len b <? l) || negb (bool_decide (take (Z.to_nat l) (contents b) = sid))
               end in
      b ← buffer_consume b l;
      Ok (bad f, b)
    else
      '(p, b) ← buffer_get_string b;
      Ok (bad (negb (bool_decide (sid = Some p))), b));
  '(c, b) ← buffer_get_char b;
  let fail := fail + bad (negb (c =? SSH2_MSG_USERAUTH_REQUEST)) in
  '(p, b) ← buffer_get_string b;
  match usr with
  | None => Fault
  | Some u =>
      let fail := fail + bad (strcmp_ne u (cstr p)) in
      b ← buffer_skip_string b;
      '(fail, b) ← (if has_bug datafellows SSH_BUG_PKAUTH then
          '(c, b) ← buffer_get_char b; Ok (fail + bad (c =? 0), b)
        else
          '(p, b) ← buffer_get_string b;
          let fail := fail + bad (strcmp_ne (codes "publickey") (cstr p)) in
          '(c, b) ← buffer_get_char b;
          let fail := fail + bad (c =? 0) in
          b ← buffer_skip_string b;
          Ok (fail, b));
      b ← buffer_skip_string b;
      let fail := fail + bad (negb (buffer_len b =? 0)) in
      Ok (fail =? 0)
  end.

Definition monitor_valid_hostbasedblob (data : list Z) (sid : option (list Z)) (usr : option (list Z)) (cuser chost : list Z) : outcome bool :=
  b ← buffer_append buffer_init data;
  '(p, b) ← buffer_get_string b;
  let fail := bad (negb (bool_decide (sid = Some p))) in
  '(c, b) ← buffer_get_char b;
  let fail := fail + bad (negb (c =? SSH2_MSG_USERAUTH_REQUEST)) in
  '(p, b) ← buffer_get_string b;
  match usr with
  | None => Fault
  | Some u =>
      let fail := fail + bad (strcmp_ne u (cstr p)) in
      b ← buffer_skip_string b;
      '(p, b) ← buffer_get_string b;
      let fail := fail + bad (strcmp_ne (cstr p) (codes "hostbased")) in
      b ← buffer_skip_string b;
      b ← buffer_skip_string b;
      '(p, b) ← buffer_get_string b;
      let fail := fail + bad (strcmp_ne (strip_dot (cstr p)) chost) in
      '(p, b) ← buffer_get_string b;
      let fail := fail + bad (strcmp_ne (cstr p) cuser) in
      let fail := fail + bad (negb (buffer_len b =? 0)) in
      Ok (fail =? 0)
  end.

Definition mm_answer_keyverify (m : Buffer) : M mon Z :=
  '(blob, m) ← liftO (buffer_get_string m);
  '(signature, m) ← liftO (buffer_get_string m);
  '(data, m) ← liftO (buffer_get_string m);
  cuser ← gets hostbased_cuser;
  chost ← gets hostbased_chost;
  allowed ← monitor_allowed_key blob;
  match cuser, chost with
  | Some cuser, Some chost =>
      if negb allowed then fatalM "mm_answer_keyverify: bad key, not previously allowed"
      else match key_from_blob blob with
      | None => fatalM "mm_answer_keyverify: bad public key blob"
      | Some k =>
          type ← gets key_blobtype;
          sid ← gets session_id2;
          usr ← getM user;
          valid_data ← liftO (if type =? MM_USERKEY then monitor_valid_userblob data sid usr
                              else if type =? MM_HOSTKEY then monitor_valid_hostbasedblob data sid usr cuser chost
                              else Ok false);
          if negb valid_data then fatalM "mm_answer_keyverify: bad signature data blob"
          else
            verified ← askM (λ t, b_key_verify t k signature data);
            _ ← (if type =? MM_USERKEY then set_method "publickey" else set_method "hostbased");
            _ ← monitor_reset_key_state;
            m ← liftO (buffer_put_int (buffer_clear m) verified);
            _ ← mm_request_send MONITOR_ANS_KEYVERIFY m;
            mret (b2z (verified =? 1))
      end
  | _, _ => fatalM "mm_answer_keyverify: bad key, not previously allowed"
  end.

(** ** Protocol 1 *)

Definition mm_answer_sesskey (m : Buffer) : M mon Z :=
  _ ← monitor_permit MONITOR_REQ_SESSKEY false;
  '(p, m) ← liftO (buffer_get_bignum2 m);
  '(rsafail, p) ← askM (λ t, ssh1_session_key t p);
  m ← liftO (buffer_put_int (buffer_clear m) rsafail);
  m ← liftO (buffer_put_bignum2 m p);
  _ ← mm_request_send MONITOR_ANS_SESSKEY m;
  _ ← monitor_permit MONITOR_REQ_SESSID true;
  mret 0.

Fixpoint get_chars (n : nat) (m : Buffer) : outcome (list Z * Buffer) :=
  match n with
  | O => Ok ([], m)
  | S n => '(c, m) ← buffer_get_char m; '(l, m) ← get_chars n m; Ok (c :: l, m)
  end.
Definition mm_answer_sessid (m : Buffer) : M mon Z :=
  if negb (buffer_len m =? 16) then fatalM "mm_answer_sessid: bad ssh1 session id"
  else
    '(l, _) ← liftO (get_chars 16 m);
    _ ← modify (λ s, s <| m_session_id := l |>);
    _ ← monitor_permit MONITOR_REQ_PWNAM true;
    mret 0.

Definition mm_answer_rsa_keyallowed (m : Buffer) : M mon Z :=
  _ ← set_method "rsa";
  v ← getM valid;
  '(allowed, k, m) ← (if rsa_authentication options && v then
      '(client_n, m) ← liftO (buffer_get_bignum2 m);
      p ← derefM pw;
      '(allowed, k, forced) ← askM (λ t, auth_rsa_key_allowed t p client_n);
      _ ← modify (λ s, s <| m_forced_command := forced |>);
      mret (allowed, k, m)
    else mret (0, None, m));
  forced ← gets m_forced_command;
  m ← liftO (Items.puts (buffer_clear m) [Items.Int (u32 allowed); Items.Int (b2z forced)]);
  _ ← monitor_reset_key_state;
  m ← (match k with
       | Some k =>
           if negb (allowed =? 0) then
             match key_to_blob (key_with_type k KEY_RSA) with
             | None => fatalM "mm_answer_rsa_keyallowed: key_to_blob failed"
             | Some blob =>
                 m ← liftO (buffer_put_string m blob);
                 _ ← modify (λ s, s <| key_blob := Some blob |> <| key_blobtype := MM_RSAUSERKEY |>);
                 mret m
             end
           else mret m
       | None => mret m
       end);
  _ ← mm_request_send MONITOR_ANS_RSAKEYALLOWED m;
  _ ← monitor_permit MONITOR_REQ_RSACHALLENGE (negb (allowed =? 0));
  _ ← monitor_permit MONITOR_REQ_RSARESPONSE false;
  mret 0.

(** [auth-rsa.c] *)
Definition auth_rsa_generate_challenge (t : nat) (k : key) : outcome bn :=
  match key_rsa_n k with None => Fault | Some n => Ok (BN_mod (BN_rand256 t) n) end.
Definition auth_rsa_verify_response (sid : list Z) (k : key) (challenge : bn) (response : list Z) : outcome Z :=
  match key_rsa_n k with
  | None => Fault
  | Some n =>
      if BN_num_bits n <? SSH_RSA_MINIMUM_MODULUS_SIZE then Ok 0
      else
        let len := BN_num_bytes challenge in
        if (len <=? 0) || (32 <? len) then Fatal "auth_rsa_verify_response: bad challenge length"
        else
          let buf := replicate (Z.to_nat (32 - len)) 0 ++ BN_bn2bin challenge in
          Ok (b2z (bool_decide (response = MD5 (buf ++ sid))))
  end.

(** The checks both RSA requests begin with. *)
Definition rsa_allowed_key (blob : list Z) : M mon key :=
  allowed ← monitor_allowed_key blob;
  type ← gets key_blobtype;
  if negb allowed then fatalM "bad key, not previously allowed"
  else if negb (type =? MM_RSAUSERKEY) && negb (type =? MM_RSAHOSTKEY) then fatalM "key type mismatch"
  else match key_from_blob blob with
  | None => fatalM "received bad key"
  | Some k => mret k
  end.

Definition mm_answer_rsa_challenge (m : Buffer) : M mon Z :=
  v ← getM valid;
  if negb v then fatalM "mm_answer_rsa_challenge: authctxt not valid"
  else
    '(blob, m) ← liftO (buffer_get_string m);
    k ← rsa_allowed_key blob;
    if negb (key_type_of k =? KEY_RSA) then fatalM "mm_answer_rsa_challenge: received bad key type"
    else
      t ← gets m_now;
      c ← liftO (auth_rsa_generate_challenge t (key_with_type k KEY_RSA1));
      _ ← modify (λ s, s <| ssh1_challenge := Some c |>);
      m ← liftO (buffer_put_bignum2 (buffer_clear m) c);
      _ ← mm_request_send MONITOR_ANS_RSACHALLENGE m;
      _ ← monitor_permit MONITOR_REQ_RSARESPONSE true;
      mret 0.

Definition mm_answer_rsa_response (m : Buffer) : M mon Z :=
  v ← getM valid;
  if negb v then fatalM "mm_answer_rsa_response: authctxt not valid"
  else
    c ← gets ssh1_challenge;
    match c with
    | None => fatalM "mm_answer_rsa_response: no ssh1_challenge"
    | Some c =>
        '(blob, m) ← liftO (buffer_get_string m);
        k ← rsa_allowed_key blob;
        '(response, m) ← liftO (buffer_get_string m);
        if negb (Z.of_nat (length response) =? 16) then fatalM "mm_answer_rsa_response: received bad response to challenge"
        else
          sid ← gets m_session_id;
          success ← liftO (auth_rsa_verify_response sid k c response);
          type ← gets key_blobtype;
          _ ← (if type =? MM_RSAUSERKEY then set_method "rsa" else set_method "rhosts-rsa");
          _ ← modify (λ s, s <| ssh1_challenge := None |>);
          _ ← monitor_reset_key_state;
          m ← liftO (buffer_put_int (buffer_clear m) success);
          _ ← mm_request_send MONITOR_ANS_RSARESPONSE m;
          mret success
    end.

(** ** Terminals *)

Definition mm_session_close (i : Z) : M sess unit :=
  x ← get_session i;
  _ ← when (negb (ttyfd x =? -1)) (session_pty_cleanup2 E i);
  session_unused E (self x).

Definition mm_record_login (pid : Z) (tty : list Z) : M mon unit :=
  ok ← askM peername_ok;
  if negb ok then exitM 255
  else
    _ ← derefM pw;
    msg ← askM record_login_msg;
    _ ← modify (λ s, s <| m_loginmsg := m_loginmsg s ++ msg |>);
    inSession (emit (Ev_record_login pid tty)).

Definition pty_refused (m : Buffer) : M mon Z :=
  m ← liftO (buffer_put_int m 0);
  _ ← mm_request_send MONITOR_ANS_PTY m;
  mret 0.

Definition mm_answer_pty (m : Buffer) : M mon Z :=
  let m := buffer_clear m in
  o ← inSession (session_new E);
  match o with
  | None => pty_refused m
  | Some i =>
      p ← getM pw;
      _ ← inSession (mod_session i (λ x, x <| s_pw := p |> <| s_pid := m_pid |>));
      r ← inSession (answer (pty_allocate E));
      match r with
      | None => _ ← inSession (mm_session_close i); pty_refused m
      | Some (pfd, tfd, name) =>
          _ ← inSession (mod_session i (λ x, x <| ptyfd := pfd |> <| ttyfd := tfd |> <| tty := name |>));
          _ ← derefM pw;
          _ ← inSession (emit (Ev_pty_setowner name));
          m ← liftO (Items.puts m [Items.Int 1; Items.CString name]);
          ok ← askM dup2_ok;
          if negb ok then fatalM "mm_answer_pty: dup2"
          else
            _ ← mm_record_login m_pid name;
            msg ← gets m_loginmsg;
            m ← liftO (buffer_put_string m msg);
            _ ← modify (λ s, s <| m_loginmsg := [] |>);
            _ ← mm_request_send MONITOR_ANS_PTY m;
            ok ← askM send_fds_ok;
            if negb ok then fatalM "mm_answer_pty: send fds failed"
            else
              ok ← askM open_devnull_ok;
              if negb ok then fatalM "mm_answer_pty: open(/dev/null)"
              else
                _ ← inSession (emit (Ev_close tfd));
                _ ← inSession (mod_session i (λ x, x <| ttyfd := pfd |> <| ptymaster := pfd |>));
                mret 0
      end
  end.

Definition mm_answer_pty_cleanup (m : Buffer) : M mon Z :=
  '(t, _) ← liftO (buffer_get_string m);
  o ← inSession (session_by_tty (cstr t));
  _ ← (match o with Some i => inSession (mm_session_close i) | None => skip end);
  mret 0.

(** The process ends with the status of the child. *)
Definition mm_answer_term (m : Buffer) : M mon Z :=
  _ ← inSession (session_destroy_all mm_session_close);
  match child_status with
  | None => exitM 1
  | Some status => exitM (if WIFEXITED status then WEXITSTATUS status else 1)
  end.

(** ** The loops *)

Definition answer_request (f : mm_answer) (m : Buffer) : M mon Z :=
  match f with
  | mm_answer_moduli_f => mm_answer_moduli m
  | mm_answer_sign_f => mm_answer_sign m
  | mm_answer_pwnamallow_f => mm_answer_pwnamallow m
  | mm_answer_auth2_read_banner_f => mm_answer_auth2_read_banner m
  | mm_answer_authserv_f => mm_answer_authserv m
  | mm_answer_authpassword_f => mm_answer_authpassword m
  | mm_answer_keyallowed_f => mm_answer_keyallowed m
  | mm_answer_keyverify_f => mm_answer_keyverify m
  | mm_answer_pty_f => mm_answer_pty m
  | mm_answer_pty_cleanup_f => mm_answer_pty_cleanup m
  | mm_answer_term_f => mm_answer_term m
  | mm_answer_rsa_keyallowed_f => mm_answer_rsa_keyallowed m
  | mm_answer_rsa_challenge_f => mm_answer_rsa_challenge m
  | mm_answer_rsa_response_f => mm_answer_rsa_response m
  | mm_answer_sesskey_f => mm_answer_sesskey m
  | mm_answer_sessid_f => mm_answer_sessid m
  end.

(** [log_level_name(level) != NULL] *)
Definition log_level_known (level : Z) : bool := (0 <=? level) && (level <=? 7).

(** A message of the log pipe; false when the pipe has been closed. *)
Definition monitor_read_log : M mon bool :=
  q ← gets log_rx;
  if Z.of_nat (length q) <? 4 then
    _ ← modify (λ s, s <| m_log_open := false |>); mret false
  else
    let len := get_u32 (take 4 q) in
    if (len <=? 4) || (8192 <? len) then fatalM "monitor_read_log: invalid log message length"
    else if Z.of_nat (length q) - 4 <? len then fatalM "monitor_read_log: log fd read"
    else
      _ ← modify (λ s, s <| log_rx := drop (4 + Z.to_nat len) q |>);
      b ← liftO (buffer_append buffer_init (take (Z.to_nat len) (drop 4 q)));
      '(level, b) ← liftO (buffer_get_int b);
      '(msg, b) ← liftO (buffer_get_string b);
      if negb (log_level_known (i32 level)) then fatalM "monitor_read_log: invalid log level"
      else _ ← modify (λ s, s <| logged := logged s ++ [(i32 level, cstr msg)] |>); mret true.

(** One request: the answer and the index of its entry. *)
Definition serve : M mon (Z * nat) :=
  m ← mm_request_receive buffer_init;
  '(type, m) ← liftO (buffer_get_char m);
  l ← gets mon_dispatch;
  match find_entry type l 0 with
  | None => fatalM "monitor_read: unsupported request"
  | Some i =>
      e ← liftO (zget l (Z.of_nat i));
      if negb (has_flag e MON_PERMIT) then fatalM "monitor_read: unpermitted request"
      else
        ret ← answer_request (m_f e) m;
        l ← gets mon_dispatch;
        e ← liftO (zget l (Z.of_nat i));
        _ ← when (has_flag e MON_ONCE)
              (modify (λ s, s <| mon_dispatch := <[i := mkEnt (m_reqtype e) (Z.land (m_flags e) (Z.lnot MON_PERMIT)) (m_f e)]> l |>));
        _ ← modify (λ s, s <| m_now := S (m_now s) |>);
        mret (ret, i)
  end.

(** [None]: no request came while [poll] gave these results; the second
    component are the results that are left. *)
Fixpoint monitor_read (polls : list poll_result) : M mon (option (Z * nat) * list poll_result) :=
  match polls with
  | [] => mret (None, [])
  | Poll_again :: polls => monitor_read polls
  | Poll_failed :: _ => fatalM "monitor_read: poll"
  | Poll_ready log req :: polls =>
      open ← gets m_log_open;
      if (open : bool) && log then _ ← monitor_read_log; monitor_read polls
      else if req : bool then r ← serve; mret (Some r, polls)
      else monitor_read polls
  end.

(** The body of the loop of [monitor_child_preauth] after [monitor_read]. *)
Definition preauth_decide (ret : Z) (i : nat) : M mon bool :=
  l ← gets mon_dispatch;
  e ← liftO (zget l (Z.of_nat i));
  authenticated ← (if ret =? 1 then
      if negb (has_flag e MON_AUTHDECIDE) then fatalM "monitor_child_preauth: unexpected authentication"
      else
        p ← derefM pw;
        forced ← gets m_forced_command;
        method ← gets auth_method;
        mret (negb ((pw_uid p =? 0) && negb (auth_root_allowed options forced method)))
    else mret false);
  _ ← when (has_flag e (Z.lor MON_AUTHDECIDE MON_ALOG) && negb authenticated)
        (modM (λ a, a <| failures := i32 (failures a + 1) |>));
  mret authenticated.

(** The loop: whether it ended, and the results that are left. *)
Fixpoint preauth_loop (fuel : nat) (polls : list poll_result) : M mon bool :=
  match fuel with
  | O => λ _, NoFuel
  | S fuel =>
      _ ← set_method "unknown";
      '(r, polls) ← monitor_read polls;
      match r with
      | None => mret false
      | Some (ret, i) =>
          authenticated ← preauth_decide ret i;
          if authenticated : bool then mret true else preauth_loop fuel polls
      end
  end.

(** [while (m_log_recvfd != -1 && monitor_read_log() == 0)] *)
Fixpoint drain_log (fuel : nat) : M mon unit :=
  match fuel with
  | O => λ _, NoFuel
  | S fuel =>
      open ← gets m_log_open;
      if negb open then skip
      else more ← monitor_read_log; if more : bool then drain_log fuel else skip
  end.

Definition authctxt_zero : Authctxt := mkAuthctxt false false false 0 0 false None None None None None.

(** False: the child has not authenticated while [poll] gave these results. *)
Definition monitor_child_preauth (polls : list poll_result) : M mon bool :=
  _ ← modM (λ _, authctxt_zero);
  _ ← (if compat20 then
         _ ← modify (λ s, s <| mon_dispatch := mon_dispatch_proto20 |>);
         _ ← monitor_permit MONITOR_REQ_MODULI true;
         monitor_permit MONITOR_REQ_SIGN true
       else
         _ ← modify (λ s, s <| mon_dispatch := mon_dispatch_proto15 |>);
         monitor_permit MONITOR_REQ_SESSKEY true);
  authenticated ← preauth_loop (S (length polls)) polls;
  if negb authenticated then mret false
  else
    q ← gets log_rx;
    _ ← drain_log (S (length q));
    v ← getM valid;
    if negb v then fatalM "monitor_child_preauth: authenticated invalid user"
    else
      method ← gets auth_method;
      if bool_decide (method = codes "unknown") then fatalM "monitor_child_preauth: authentication method name unknown"
      else
        m ← mm_request_receive_expect MONITOR_REQ_KEYEXPORT buffer_init;
        sid ← gets session_id2;
        n0 ← gets child_state;
        n ← liftO (mm_get_keystate ptr_bytes sizeof_ptr sizeof_zstream compat20 sid n0 m);
        _ ← modify (λ s, s <| child_state := n |> <| m_log_open := false |>);
        mret true.

(** The endless loop of [monitor_child_postauth]. *)
Fixpoint postauth_loop (fuel : nat) (polls : list poll_result) : M mon unit :=
  match fuel with
  | O => λ _, NoFuel
  | S fuel =>
      '(r, polls) ← monitor_read polls;
      match r with None => skip | Some _ => postauth_loop fuel polls end
  end.
Definition monitor_child_postauth (polls : list poll_result) : M mon unit :=
  _ ← (if compat20 then
         _ ← modify (λ s, s <| mon_dispatch := mon_dispatch_postauth20 |>);
         _ ← monitor_permit MONITOR_REQ_MODULI true;
         _ ← monitor_permit MONITOR_REQ_SIGN true;
         monitor_permit MONITOR_REQ_TERM true
       else
         _ ← modify (λ s, s <| mon_dispatch := mon_dispatch_postauth15 |>);
         monitor_permit MONITOR_REQ_TERM true);
  _ ← when (negb (no_pty_flag E)) (
        _ ← monitor_permit MONITOR_REQ_PTY true;
        monitor_permit MONITOR_REQ_PTYCLEANUP true);
  postauth_loop (S (length polls)) polls.
End Monitor.
