(* ===== verification/Wp.v ===== *)
(** * Code that does not crash: weakest preconditions

    [wp m Q s]: run in [s], [m] neither dereferences a null pointer nor reads
    outside of an array nor runs out of fuel, and if it returns (it may also
    end the process in one of the ways the source has), [Q] holds of the result
    and the state.  [wpo] is the same for code without state.  The rules for
    the monad and for the functions on buffers. *)

From S2P Require Import Prelude ByteOrder Buffer Crc32 Deattack Stdio SuperTrace HashMap Csbuflo CipherMac Packet BufBn.

Definition wpo {A} (m : outcome A) (Q : A → Prop) : Prop :=
  match m with Ok a => Q a | Fault | NoFuel => False | _ => True end.
Definition wp {S A} (m : M S A) (Q : A → S → Prop) (s : S) : Prop :=
  match m s with Ok (a, s') => Q a s' | Fault | NoFuel => False | _ => True end.

(** ** The monad *)

Section Rules.
Context {S : Type}.
Implicit Types s : S.

Lemma wp_ret {A} (a : A) Q s : Q a s → wp (mret a) Q s.
Proof. done. Qed.
Lemma wp_bind {A B} (m : M S A) (f : A → M S B) Q s : wp m (λ a, wp (f a) Q) s → wp (m ≫= f) Q s.
Proof. unfold wp, mbind, M_bind. destruct (m s) as [[a s']| | | | |]; done. Qed.
Lemma wp_gets {A} (f : S → A) Q s : Q (f s) s → wp (gets f) Q s.
Proof. done. Qed.
Lemma wp_modify f (Q : unit → S → Prop) s : Q tt (f s) → wp (modify f) Q s.
Proof. done. Qed.
Lemma wp_skip (Q : unit → S → Prop) s : Q tt s → wp skip Q s.
Proof. done. Qed.
Lemma wp_lift {A} (m : outcome A) Q s : wpo m (λ a, Q a s) → wp (liftO m) Q s.
Proof. unfold wp, wpo, liftO, mbind, outcome_bind. by destruct m. Qed.
Lemma wp_when b (m : M S unit) Q s : (b = true → wp m Q s) → (b = false → Q tt s) → wp (when b m) Q s.
Proof. destruct b; simpl; [auto|intros _ H; by apply H]. Qed.
Lemma wp_mono {A} (m : M S A) (Q Q' : A → S → Prop) s : wp m Q s → (∀ a s', Q a s' → Q' a s') → wp m Q' s.
Proof. unfold wp. destruct (m s) as [[a s']| | | | |]; auto. Qed.
(** What a successful run tells. *)
Lemma wp_run {A} (m : M S A) Q s a s' : wp m Q s → m s = Ok (a, s') → Q a s'.
Proof. unfold wp. by intros H E; rewrite E in H. Qed.
End Rules.

Lemma wpo_bind {A B} (m : outcome A) (f : A → outcome B) Q : wpo m (λ a, wpo (f a) Q) → wpo (m ≫= f) Q.
Proof. by destruct m. Qed.
Lemma wpo_mono {A} (m : outcome A) (Q Q' : A → Prop) : wpo m Q → (∀ a, Q a → Q' a) → wpo m Q'.
Proof. destruct m; simpl; auto. Qed.
Lemma wpo_true {A} (m : outcome A) (Q : A → Prop) : wpo m (λ _, True) → (∀ a, m = Ok a → Q a) → wpo m Q.
Proof. destruct m; simpl; auto. Qed.

(** ** Buffers *)

Definition bwf (b : Buffer) : Prop := wf b ∧ bytes (contents b).

Lemma bwf_init : bwf buffer_init.
Proof. split; [apply buffer_init_wf|]. rewrite (proj2 buffer_init_wf). constructor. Qed.
Lemma bwf_wf b : bwf b → wf b.
Proof. by intros []. Qed.
Lemma wf_clear b : wf b → bwf (buffer_clear b).
Proof. intros Hb. destruct (buffer_clear_spec b Hb) as [Hw Hc]. split; [done|]. rewrite Hc. constructor. Qed.

Lemma wpo_append b d : wf b → wpo (buffer_append b d) (λ b', wf b' ∧ contents b' = contents b ++ d).
Proof.
  intros Hb. destruct (Z.le_gt_cases (Z.of_nat (length d)) BUFFER_MAX_CHUNK) as [Hl|Hl].
  - pose proof (buffer_append_spec b d Hb Hl) as Hs. destruct (append_fits _ _).
    + destruct Hs as (b' & -> & ? & ? & _). done.
    + destruct Hs as [m ->]. done.
  - unfold buffer_append, buffer_append_space. rewrite (proj2 (Z.ltb_lt _ _)) by lia. done.
Qed.
Lemma wpo_append_wf b d : wf b → wpo (buffer_append b d) wf.
Proof. intros Hb. eapply wpo_mono; [by apply wpo_append|]. by intros ? []. Qed.
Lemma wpo_append_bwf b d : bwf b → bytes d → wpo (buffer_append b d) bwf.
Proof.
  intros [Hb Hc] Hd. eapply wpo_mono; [by apply wpo_append|]. intros b' [Hw E]. split; [done|]. rewrite E. by apply Forall_app.
Qed.
Lemma wpo_put_int b v : wf b → wpo (buffer_put_int b v) wf.
Proof. apply wpo_append_wf. Qed.
Lemma wpo_put_char b v : wf b → wpo (buffer_put_char b v) wf.
Proof. apply wpo_append_wf. Qed.
Lemma wpo_put_string b s : wf b → wpo (buffer_put_string b s) wf.
Proof. intros Hb. apply wpo_bind. eapply wpo_mono; [by apply wpo_append_wf|]. intros b' Hb'. by apply wpo_append_wf. Qed.
Lemma wpo_put_cstring b s : wf b → wpo (buffer_put_cstring b s) wf.
Proof. intros Hb. destruct s; [by apply wpo_put_string|done]. Qed.
Lemma wpo_puts b its : wf b → wpo (Items.puts b its) wf.
Proof.
  revert b. induction its as [|i its IH]; intros b Hb; cbn [Items.puts]; [done|]. apply wpo_bind.
  apply wpo_mono with wf; [|intros; by apply IH]. destruct i; cbn [Items.put].
  all: first [by apply wpo_append_wf | by apply wpo_put_string | by apply wpo_put_cstring].
Qed.

Lemma wpo_get b n : bwf b → 0 ≤ n →
  wpo (buffer_get b n) (λ '(l, b'), bytes l ∧ Z.of_nat (length l) = n ∧ bwf b').
Proof.
  intros [Hb Hc] Hn. unfold buffer_get. pose proof (buffer_get_ret_spec b n Hb Hn) as Hs.
  destruct (Z.leb_spec n (Z.of_nat (length (contents b)))).
  - destruct Hs as (b' & -> & Hw & _ & Hk). cbn. split_and!; [by apply Forall_take|rewrite length_take; lia|].
    unfold bwf. rewrite Hk. split; [done|by apply Forall_drop].
  - by rewrite Hs.
Qed.
Lemma get_ret_cases b n : bwf b → 0 ≤ n →
  (∃ l b', buffer_get_ret b n = (Some l, b') ∧ bytes l ∧ Z.of_nat (length l) = n ∧ bwf b') ∨ buffer_get_ret b n = (None, b).
Proof.
  intros Hb Hn. pose proof (wpo_get b n Hb Hn) as Hg. pose proof (buffer_get_ret_spec b n (proj1 Hb) Hn) as Hs.
  unfold buffer_get in Hg. destruct (n <=? _); [|by right]. destruct Hs as (b' & E & _). rewrite E in *. left. eauto 10.
Qed.
Lemma wpo_get_int b : bwf b → wpo (buffer_get_int b) (λ '(v, b'), is_u32 v ∧ bwf b').
Proof.
  intros Hb. unfold buffer_get_int, buffer_get_int_ret.
  destruct (get_ret_cases b 4 Hb) as [(l & b' & -> & Hl & Hn & Hw)| ->]; [done| |done]. cbn. split; [|done].
  apply get_u32_range; [done|lia].
Qed.
Lemma wpo_get_char b : bwf b → wpo (buffer_get_char b) (λ '(v, b'), is_u8 v ∧ bwf b').
Proof.
  intros Hb. unfold buffer_get_char, buffer_get_char_ret.
  destruct (get_ret_cases b 1 Hb) as [(l & b' & -> & Hl & Hn & Hw)| ->]; [done| |done]. cbn. split; [|done].
  destruct l as [|c l]; [done|]. by apply Forall_cons in Hl as [? _].
Qed.
Lemma wpo_get_int64 b : bwf b → wpo (buffer_get_int64 b) (λ '(v, b'), bwf b').
Proof.
  intros Hb. unfold buffer_get_int64, buffer_get_int64_ret.
  by destruct (get_ret_cases b 8 Hb) as [(l & b' & -> & Hl & Hn & Hw)| ->].
Qed.
Lemma get_string_ret_cases b : bwf b →
  (∃ l b', buffer_get_string_ret b = (Some l, b') ∧ bytes l ∧ Z.of_nat (length l) ≤ 256 * 1024 ∧ bwf b') ∨
  (∃ b', buffer_get_string_ret b = (None, b') ∧ bwf b').
Proof.
  intros Hb. unfold buffer_get_string_ret, buffer_get_int_ret.
  destruct (get_ret_cases b 4 Hb) as [(l & b' & -> & Hl & Hn & Hw)| ->]; [done| |eauto].
  destruct (Z.ltb_spec (256 * 1024) (get_u32 l)); [eauto|].
  pose proof (get_u32_range l Hl ltac:(lia)) as [Hr _].
  destruct (get_ret_cases b' (get_u32 l) Hw Hr) as [(l' & b2 & -> & Hl' & Hn' & Hw2)| ->]; [|eauto].
  left. eexists _, _. split_and!; [done|done|lia|done..].
Qed.
Lemma wpo_get_string b : bwf b →
  wpo (buffer_get_string b) (λ '(l, b'), bytes l ∧ Z.of_nat (length l) ≤ 256 * 1024 ∧ bwf b').
Proof.
  intros Hb. unfold buffer_get_string. by destruct (get_string_ret_cases b Hb) as [(l & b' & -> & ?)|(b' & -> & ?)].
Qed.
Lemma wpo_consume b n : bwf b → 0 ≤ n → wpo (buffer_consume b n) bwf.
Proof.
  intros [Hb Hc] Hn. pose proof (buffer_consume_spec b n Hb Hn) as Hs. destruct (_ <=? _).
  - destruct Hs as (b' & -> & Hw & _ & _ & Hk). split; [done|]. rewrite Hk. by apply Forall_drop.
  - by destruct Hs as [m ->].
Qed.
Lemma wpo_skip_string b : bwf b → wpo (buffer_skip_string b) bwf.
Proof.
  intros Hb. apply wpo_bind. eapply wpo_mono; [by apply wpo_get_int|]. intros [v b'] [[Hv _] Hb']. by apply wpo_consume.
Qed.
Lemma wpo_peek b : wf b → wpo (peek_bytes b (buffer_len b)) (λ _, True).
Proof.
  intros Hb. unfold peek_bytes. rewrite (buffer_len_contents b Hb). unfold contents.
  rewrite (proj2 (Z.ltb_ge _ _)); [done|]. rewrite length_take. lia.
Qed.

(** ** Big numbers *)

Lemma wpo_put_bignum2 `{Bignum} b a : wf b → wpo (buffer_put_bignum2 b a) wf.
Proof.
  intros Hb. unfold buffer_put_bignum2, buffer_put_bignum2_ret. apply wpo_bind.
  apply wpo_mono with (λ '(_, b'), wf b'); [|intros [r b'] Hb'; by destruct (r =? -1)].
  destruct (BN_is_zero a); [apply wpo_bind; eapply wpo_mono; [by apply wpo_put_int|done]|].
  destruct (bn_neg a); [done|]. destruct (_ <? 2); [done|]. destruct (negb _); [done|].
  apply wpo_bind. eapply wpo_mono; [by apply wpo_put_string|done].
Qed.
Lemma wpo_get_bignum2 `{Bignum} b : bwf b → wpo (buffer_get_bignum2 b) (λ '(_, b'), bwf b').
Proof.
  intros Hb. unfold buffer_get_bignum2, buffer_get_bignum2_ret.
  destruct (get_string_ret_cases b Hb) as [(l & b' & -> & _ & _ & Hw)|(b' & -> & ?)]; [|done].
  destruct (_ && _); [done|]. destruct (_ <? _); [done|]. by destruct (BN_bin2bn l).
Qed.

(** ** Automation *)

Create HintDb wpo.
#[export] Hint Resolve bwf_init bwf_wf wf_clear wpo_put_int wpo_put_char wpo_put_string wpo_put_cstring wpo_puts
  wpo_append_wf wpo_append_bwf wpo_get_int wpo_get_char wpo_get_int64 wpo_get_string wpo_skip_string wpo_put_bignum2
  wpo_get_bignum2 : wpo.
#[export] Hint Extern 2 (wf (buffer_clear _)) => apply bwf_wf, wf_clear : wpo.

(** A call of a function on buffers with the rule of the database. *)
Ltac wcall := first [apply wp_lift | idtac]; eapply wpo_mono; [solve [eauto with wpo]|].

(** ** What was read was in the buffer *)

Lemma get_inv b n l b' : bwf b → 0 ≤ n → buffer_get_ret b n = (Some l, b') →
  bwf b' ∧ bytes l ∧ Z.of_nat (length l) = n ∧ contents b = l ++ contents b'.
Proof.
  intros [Hb Hc] Hn E. pose proof (buffer_get_ret_spec b n Hb Hn) as Hs. destruct (Z.leb_spec n (Z.of_nat (length (contents b)))).
  - destruct Hs as (b2 & Hs & Hw & _ & Hk). rewrite E in Hs. injection Hs as -> ->. unfold bwf. rewrite Hk.
    split_and!; [done|by apply Forall_drop|by apply Forall_take|rewrite length_take; lia|by rewrite take_drop].
  - rewrite E in Hs. discriminate.
Qed.
Lemma put_get_u32_bytes l : bytes l → length l = 4%nat → put_u32 (get_u32 l) = l.
Proof.
  intros Hb Hl. destruct l as [|a [|b [|c [|d [|]]]]]; try discriminate. unfold bytes in Hb. rewrite !Forall_cons in Hb.
  apply put_get_u32; tauto.
Qed.
Lemma get_char_inv b v b' : bwf b → buffer_get_char b = Ok (v, b') →
  bwf b' ∧ is_u8 v ∧ contents b = Items.wire (Items.Char v) ++ contents b'.
Proof.
  intros Hb. unfold buffer_get_char, buffer_get_char_ret. destruct (buffer_get_ret b 1) as [[l|] b1] eqn:Eg; [|done]. intros [= <- <-].
  apply get_inv in Eg as (Hw & Hl & Hn & Hc); [|done..]. destruct l as [|c [|]]; try (cbn [length] in Hn; lia).
  apply Forall_cons in Hl as [? _]. done.
Qed.
Lemma get_string_inv b s b' : bwf b → buffer_get_string b = Ok (s, b') →
  bwf b' ∧ bytes s ∧ Z.of_nat (length s) ≤ 256 * 1024 ∧ contents b = Items.wire (Items.String s) ++ contents b'.
Proof.
  intros Hb. unfold buffer_get_string, buffer_get_string_ret, buffer_get_int_ret.
  destruct (buffer_get_ret b 4) as [[l|] b1] eqn:Eg; [|done]. apply get_inv in Eg as (Hw & Hl & Hn & Hc); [|done..].
  destruct (Z.ltb_spec (256 * 1024) (get_u32 l)); [done|]. pose proof (get_u32_range l Hl ltac:(lia)) as [Hr _].
  destruct (buffer_get_ret b1 (get_u32 l)) as [[s'|] b2] eqn:Eg; [|done]. apply get_inv in Eg as (Hw2 & Hl2 & Hn2 & Hc2); [|done..].
  intros [= <- <-]. split_and!; [apply Hw2..|done|lia|]. cbn [Items.wire].
  rewrite Hn2, put_get_u32_bytes by (done || lia). by rewrite Hc, Hc2, app_assoc.
Qed.
Lemma skip_string_inv b b' : bwf b → buffer_skip_string b = Ok b' →
  bwf b' ∧ ∃ s, bytes s ∧ contents b = Items.wire (Items.String s) ++ contents b'.
Proof.
  intros Hb E. apply bind_Ok in E as ([n b1] & E1 & E2). unfold buffer_get_int, buffer_get_int_ret in E1.
  destruct (buffer_get_ret b 4) as [[l|] b2] eqn:Eg; [|done]. injection E1 as <- <-. apply get_inv in Eg as (Hw & Hl & Hn & Hc); [|done..].
  pose proof (get_u32_range l Hl ltac:(lia)) as [Hr _]. pose proof (buffer_consume_spec b2 (get_u32 l) (proj1 Hw) Hr) as Hs. rewrite E2 in Hs.
  destruct (Z.leb_spec (get_u32 l) (Z.of_nat (length (contents b2)))); [|by destruct Hs].
  destruct Hs as (b3 & [= <-] & Hw3 & _ & _ & Hk). split; [split; [done|rewrite Hk; apply Forall_drop, Hw]|].
  exists (take (Z.to_nat (get_u32 l)) (contents b2)). split; [apply Forall_take, Hw|]. cbn [Items.wire]. rewrite length_take.
  replace (Z.of_nat (Z.to_nat (get_u32 l) `min` length (contents b2))) with (get_u32 l) by lia.
  rewrite put_get_u32_bytes by (done || lia). rewrite Hc, <- app_assoc, Hk, take_drop. done.
Qed.
Lemma consumed_inv b n b' : bwf b → 0 ≤ n → buffer_consume b n = Ok b' →
  bwf b' ∧ contents b' = drop (Z.to_nat n) (contents b) ∧ n ≤ Z.of_nat (length (contents b)).
Proof.
  intros Hb Hn E. pose proof (wpo_consume b n Hb Hn) as Hw. rewrite E in Hw. split; [done|].
  pose proof (buffer_consume_spec b n (proj1 Hb) Hn) as Hs. rewrite E in Hs. destruct (Z.leb_spec n (Z.of_nat (length (contents b)))).
  - destruct Hs as (b2 & [= <-] & _ & _ & _ & Hk). done.
  - by destruct Hs.
Qed.
Lemma got_consume b l k : wf b → contents b = l ++ k →
  ∃ b', buffer_consume b (Z.of_nat (length l)) = Ok b' ∧ wf b' ∧ contents b' = k.
Proof.
  intros Hw Hc. pose proof (buffer_consume_spec b (Z.of_nat (length l)) Hw ltac:(lia)) as Hs. rewrite Hc, length_app, (proj2 (Z.leb_le _ _)) in Hs by lia.
  destruct Hs as (b' & -> & Hw' & _ & _ & Hk). exists b'. split_and!; [done..|]. by rewrite Hk, Nat2Z.id, drop_app_length.
Qed.
Lemma got_skip b s k : wf b → Z.of_nat (length s) < 2 ^ 32 → contents b = Items.wire (Items.String s) ++ k →
  ∃ b', buffer_skip_string b = Ok b' ∧ wf b' ∧ contents b' = k.
Proof.
  intros Hw Hl Hc. cbn [Items.wire] in Hc. rewrite <- app_assoc in Hc. unfold buffer_skip_string.
  destruct (Items.got_int b (Z.of_nat (length s)) (s ++ k) Hw) as (b1 & -> & Hw1 & Hc1); [unfold is_u32; lia|exact Hc|]. cbn [mbind outcome_bind].
  by apply got_consume.
Qed.

(** The next item of a buffer whose contents are known. *)
Ltac got_item lem tac :=
  let b' := fresh "b" in let E := fresh "E" in let Hw' := fresh "Hw" in let Hc' := fresh "Hc" in
  match goal with
  | Hw : wf ?b, Hc : contents ?b = Items.wire (_ ?v) ++ ?k |- _ =>
      destruct (lem b v k Hw) as (b' & E & Hw' & Hc');
      [|exact Hc|rewrite E; clear E Hw Hc; cbn [mbind outcome_bind]]; [tac|]
  end.
