(* ===== verification/MonitorProofs.v ===== *)
(** * The monitor before authentication

    Whatever the unprivileged process sends, the monitor does not crash, and it
    lets the process through only for a user that the account data base allows
    and with evidence that the monitor has checked itself. *)

From S2P Require Import Prelude ByteOrder Buffer Crc32 Deattack Stdio SuperTrace HashMap Csbuflo.
From S2P Require Import CipherMac Packet PacketWrite PacketRead Dispatch Match Nchan Kex KexProofs AddrMatch Auth Auth2 Session BufBn KeyState Monitor Wp.

(** RSA keys have their numbers, and only they are allowed for RSA. *)
Class PrivilegedOk `{Privileged} := {
  rsa_key_n : ∀ k, key_type_of k = KEY_RSA → is_Some (key_rsa_n (key_with_type k KEY_RSA1));
  rhosts_rsa_n : ∀ t p cu ch k, auth_rhosts_rsa_key_allowed t p cu ch (key_with_type k KEY_RSA1) ≠ 0 → is_Some (key_rsa_n k);
  rsa_allowed_n : ∀ t p n a k f blob k', auth_rsa_key_allowed t p n = (a, Some k, f) → key_to_blob (key_with_type k KEY_RSA) = Some blob →
    key_from_blob blob = Some k' → is_Some (key_rsa_n k')
}.

(** A step of the code. *)
Ltac wcase :=
  match goal with
  | |- wp (match ?x with _ => _ end) _ _ => destruct x eqn:?
  | |- wp (if ?x then _ else _) _ _ => destruct x eqn:?
  | |- wpo (match ?x with _ => _ end) _ => destruct x eqn:?
  | |- wpo (if ?x then _ else _) _ => destruct x eqn:?
  end.
Ltac wpost := let r := fresh "r" in intros r; repeat match goal with x : (_ * _)%type |- _ => destruct x end; cbv beta iota; intros; destruct_and?.
Ltac wstep :=
  match goal with
  | |- wp (_ ≫= _) _ _ => apply wp_bind
  | |- wp (gets _) _ _ => apply wp_gets
  | |- wp (modify _) _ _ => apply wp_modify
  | |- wp (mret _) _ _ => apply wp_ret
  | |- wp skip _ _ => apply wp_skip
  | |- wp (when _ _) _ _ => apply wp_when; intros
  | |- wp (liftO _) _ _ => apply wp_lift
  | |- wp (fatalM _) _ _ => exact I
  | |- wp (exitM _) _ _ => exact I
  | |- wpo (_ ≫= _) _ => apply wpo_bind
  | |- wpo (Ok _) _ => cbn [wpo]
  | |- wpo (Fatal _) _ => exact I
  | |- wpo _ _ => eapply wpo_mono; [solve [eauto with wpo]|wpost]
  end; cbv beta iota.

Section Proofs.
Context `{PrivilegedOk} `{Crypto} (options : ServerOptions) (E : senv) (datafellows : Z) (compat20 : bool).
Context (ptr_bytes : option Cipher → list Z) (sizeof_ptr sizeof_zstream : Z).

(** ** What the monitor knows *)

Definition known (a : Authctxt) : Prop :=
  attempt a = 1 ∧ ∃ u p, user a = Some u ∧ pw a = Some p ∧ (valid a = true → ∃ t, b_getpwnamallow t u = Some p).
Definition unknown (a : Authctxt) : Prop := attempt a = 0 ∧ user a = None ∧ pw a = None ∧ valid a = false.

(** A key that request number [t] found to be allowed for the account [p]. *)
Inductive allowed (p : passwd) (t : nat) (blob : list Z) : Z → option (list Z) → option (list Z) → Prop :=
| al_user k cu ch : pubkey_authentication options = true → key_from_blob blob = Some k → (b_user_key_allowed t p k).1 ≠ 0 →
    allowed p t blob MM_USERKEY cu ch
| al_host k cu ch : hostbased_authentication options = true → key_from_blob blob = Some k →
    b_hostbased_key_allowed t p cu ch k ≠ 0 → allowed p t blob MM_HOSTKEY (Some cu) (Some (strip_dot ch))
| al_rhosts k cu ch cu' ch' : rhosts_rsa_authentication options = true → key_from_blob blob = Some k →
    auth_rhosts_rsa_key_allowed t p cu ch (key_with_type k KEY_RSA1) ≠ 0 → allowed p t blob MM_RSAHOSTKEY cu' ch'
| al_rsa n a k f cu ch : rsa_authentication options = true → auth_rsa_key_allowed t p n = (a, Some k, f) → a ≠ 0 →
    key_to_blob (key_with_type k KEY_RSA) = Some blob → allowed p t blob MM_RSAUSERKEY cu ch.

(** A challenge for the owner of an allowed RSA key. *)
Definition challenge_for (p : passwd) (c : bn) : Prop :=
  ∃ t t' blob type cu ch k, allowed p t blob type cu ch ∧ (type = MM_RSAUSERKEY ∨ type = MM_RSAHOSTKEY) ∧
    key_from_blob blob = Some k ∧ auth_rsa_generate_challenge t' (key_with_type k KEY_RSA1) = Ok c.

(** What proves the identity of the user, by the name of the method. *)
Inductive evidence (a : Authctxt) (p : passwd) (u : list Z) (sid : option (list Z)) (sid1 : list Z) : list Z → Prop :=
| ev_password t password method : password_authentication options = true →
    b_auth_password t (valid a) p (style a) password ≠ 0 → method = codes "password" ∨ method = codes "none" →
    evidence a p u sid sid1 method
| ev_pubkey t t' blob k cu ch signature data : (t < t')%nat → allowed p t blob MM_USERKEY cu ch → key_from_blob blob = Some k →
    monitor_valid_userblob datafellows data sid (Some u) = Ok true → b_key_verify t' k signature data = 1 →
    evidence a p u sid sid1 (codes "publickey")
| ev_hostbased t t' blob k cu ch signature data : (t < t')%nat → allowed p t blob MM_HOSTKEY (Some cu) (Some ch) →
    key_from_blob blob = Some k → monitor_valid_hostbasedblob data sid (Some u) cu ch = Ok true → b_key_verify t' k signature data = 1 →
    evidence a p u sid sid1 (codes "hostbased")
| ev_rsa t blob type k cu ch c response : allowed p t blob type cu ch → type = MM_RSAUSERKEY ∨ type = MM_RSAHOSTKEY →
    key_from_blob blob = Some k → challenge_for p c → auth_rsa_verify_response sid1 k c response = Ok 1 →
    evidence a p u sid sid1 (codes (if type =? MM_RSAUSERKEY then "rsa" else "rhosts-rsa")).

(** ** The invariant *)

(** The entries that give access to the account need a user. *)
Definition needs_user (f : mm_answer) : Prop := f = mm_answer_authserv_f ∨ f = mm_answer_authpassword_f.
Definition tab_ok (l : list mon_entry) (user_known : Prop) : Prop :=
  length l = 8%nat ∧
  Forall (λ e, (m_f e = mm_answer_authserv_f → m_reqtype e = MONITOR_REQ_AUTHSERV) ∧
               (m_f e = mm_answer_authpassword_f → m_reqtype e = MONITOR_REQ_AUTHPASSWORD) ∧
               (m_f e = mm_answer_pty_f ∨ m_f e = mm_answer_pty_cleanup_f ∨ m_f e = mm_answer_term_f → False) ∧
               (needs_user (m_f e) → has_flag e MON_PERMIT = true → user_known)) l.

Definition key_ok (n : nat) (s : mon) : Prop := ∀ blob, key_blob s = Some blob →
  valid (m_authctxt s) = true ∧ ∃ p t, pw (m_authctxt s) = Some p ∧ (t < n)%nat ∧
    allowed p t blob (key_blobtype s) (hostbased_cuser s) (hostbased_chost s).
Definition chal_ok (s : mon) : Prop := ∀ c, ssh1_challenge s = Some c →
  ∃ p, pw (m_authctxt s) = Some p ∧ challenge_for p c.

Definition minv (n : nat) (s : mon) : Prop :=
  (known (m_authctxt s) ∨ unknown (m_authctxt s)) ∧ key_ok n s ∧ chal_ok s ∧
  tab_ok (mon_dispatch s) (known (m_authctxt s)) ∧ bytes (rx s) ∧ bytes (log_rx s).

(** What an answer of 1 means. *)
Definition shown (s : mon) : Prop :=
  ∃ u p, user (m_authctxt s) = Some u ∧ pw (m_authctxt s) = Some p ∧
    evidence (m_authctxt s) p u (session_id2 s) (m_session_id s) (auth_method s).

Definition answered (s : mon) (r : Z) (s' : mon) : Prop :=
  minv (S (m_now s)) s' ∧ m_now s' = m_now s ∧ (r = 1 → shown s').

(** ** Permissions *)

Lemma flag_permit f (b : bool) : Z.land (Z.lor (Z.land f (Z.lnot MON_PERMIT)) (if b then MON_PERMIT else 0)) MON_PERMIT = if b then MON_PERMIT else 0.
Proof.
  apply Z.bits_inj'. intros i Hi. rewrite Z.land_spec, Z.lor_spec, Z.land_spec, Z.lnot_spec by lia.
  destruct b; rewrite ?Z.bits_0; destruct (Z.testbit f i), (Z.testbit MON_PERMIT i); done.
Qed.
Lemma has_permit e b : has_flag (set_permit e b) MON_PERMIT = b.
Proof. unfold has_flag, set_permit. cbn [m_flags]. rewrite flag_permit. by destruct b. Qed.

Lemma tab_impl l (P Q : Prop) : (P → Q) → tab_ok l P → tab_ok l Q.
Proof. intros HPQ [Hl Ht]. split; [done|]. eapply Forall_impl; [exact Ht|]. cbn. intros e ?. naive_solver. Qed.
Lemma tab_permit l type b P :
  tab_ok l P → (type = MONITOR_REQ_AUTHSERV ∨ type = MONITOR_REQ_AUTHPASSWORD → b = true → P) → tab_ok (permit_table type b l) P.
Proof.
  intros [Hl Ht] HP. split.
  { rewrite <- Hl. clear. induction l as [|e l IH]; [done|]. cbn [permit_table]. destruct (_ =? _); [done|]. cbn [length]. by rewrite IH. }
  clear Hl. induction Ht as [|e l He Hl IH]; cbn [permit_table]; [constructor|]. destruct (Z.eqb_spec (m_reqtype e) type) as [Heq|Hne].
  - constructor; [|exact Hl]. destruct He as (K1 & K2 & K3 & K4). split_and!; try done. rewrite has_permit. cbn [m_f].
    intros Hn Hb. apply HP; [|done]. destruct Hn as [Hn|Hn]; [left|right]; rewrite <- Heq; auto.
  - constructor; [exact He|exact IH].
Qed.
Lemma tab_authentications l b P : tab_ok l P → (b = true → P) → tab_ok (permit_authentications b l) P.
Proof.
  intros [Hl Ht] HP. unfold permit_authentications. split; [by rewrite length_map|]. apply Forall_map. eapply Forall_impl; [exact Ht|].
  cbn. intros e (K1 & K2 & K3 & K4). destruct (has_flag e MON_AUTH); [|done]. split_and!; try done. rewrite has_permit. auto.
Qed.
Lemma tab_once l i e P :
  tab_ok l P → l !! i = Some e → tab_ok (<[i := mkEnt (m_reqtype e) (Z.land (m_flags e) (Z.lnot MON_PERMIT)) (m_f e)]> l) P.
Proof.
  intros [Hl Ht] He. split; [by rewrite length_insert|]. apply Forall_insert; [done|].
  rewrite Forall_lookup in Ht. destruct (Ht _ _ He) as (K1 & K2 & K3 & K4). split_and!; try done.
  unfold has_flag. cbn [m_flags]. intros _. replace (Z.land (Z.land (m_flags e) (Z.lnot MON_PERMIT)) MON_PERMIT) with 0; [done|].
  rewrite <- Z.land_assoc, (Z.land_comm _ MON_PERMIT), Z.land_lnot_diag. by rewrite Z.land_0_r.
Qed.

(** ** The requests *)

Lemma minv_weaken n n' s : (n ≤ n')%nat → minv n s → minv n' s.
Proof.
  intros Hn (Hu & Hk & Hr). split; [exact Hu|]. split; [|exact Hr]. intros blob Hb.
  destruct (Hk blob Hb) as (Hv & p & t & Hp & Ht & Ha). split; [done|]. exists p, t. split_and!; [done|lia|done].
Qed.
Lemma wp_send type m (Q : unit → mon → Prop) s : wf m → (∀ d, Q tt (s <| tx := d |>)) → wp (mm_request_send type m) Q s.
Proof. intros Hm HQ. unfold mm_request_send. wstep. wstep. eapply wpo_mono; [by apply wpo_peek|]. intros d _. wstep. apply HQ. Qed.

Ltac wsend := apply wp_send; [solve [eauto with wpo]|intros ?].
Ltac unf := unfold derefM, getM, modM, askM, monitor_permit, monitor_permit_authentications, monitor_allowed_key,
  monitor_reset_key_state, clear_options, set_method.
Ltac wgo := repeat first [wsend | wstep | wcase].

(** An invariant that holds still, possibly with a changed table. *)
Ltac tab := first [assumption | apply tab_permit; [tab|intros [?|?]; try done; tauto] | apply tab_authentications; [tab|tauto]].
Lemma answered_table s s' : minv (m_now s) s → tab_ok (mon_dispatch s') (known (m_authctxt s)) →
  (m_authctxt s', key_blob s', key_blobtype s', hostbased_cuser s', hostbased_chost s', ssh1_challenge s', rx s', log_rx s', m_now s') =
  (m_authctxt s, key_blob s, key_blobtype s, hostbased_cuser s, hostbased_chost s, ssh1_challenge s, rx s, log_rx s, m_now s) →
  answered s 0 s'.
Proof.
  intros Hi Ht [= Ea Eb Et Eu Eh Ec Er El En]. apply (minv_weaken _ (S (m_now s))) in Hi; [|lia].
  split; [|split; [done|done]]. destruct Hi as (I1 & I2 & I3 & I4 & I5 & I6). unfold minv, key_ok, chal_ok in *.
  rewrite Ea, Eb, Et, Eu, Eh, Ec, Er, El. split_and!; done.
Qed.
Ltac same_state := apply answered_table; [assumption| |reflexivity].

Lemma moduli_answered m s : bwf m → minv (m_now s) s → wp (mm_answer_moduli m) (answered s) s.
Proof.
  intros Hm Hi. pose proof Hi as (I1 & I2 & I3 & I4 & I5 & I6). unfold mm_answer_moduli. unf. wgo; same_state; tab.
Qed.
Lemma sign_answered m s : bwf m → minv (m_now s) s → wp (mm_answer_sign m) (answered s) s.
Proof.
  intros Hm Hi. pose proof Hi as (I1 & I2 & I3 & I4 & I5 & I6). unfold mm_answer_sign. unf. wgo; same_state; tab.
Qed.
Lemma banner_answered m s : bwf m → minv (m_now s) s → wp (mm_answer_auth2_read_banner m) (answered s) s.
Proof.
  intros Hm Hi. pose proof Hi as (I1 & I2 & I3 & I4 & I5 & I6). unfold mm_answer_auth2_read_banner. unf. wgo; same_state; tab.
Qed.
Lemma sesskey_answered m s : bwf m → minv (m_now s) s → wp (mm_answer_sesskey m) (answered s) s.
Proof.
  intros Hm Hi. pose proof Hi as (I1 & I2 & I3 & I4 & I5 & I6). unfold mm_answer_sesskey. unf. wgo; same_state; tab.
Qed.
Lemma wpo_get_chars n : ∀ m, bwf m → wpo (get_chars n m) (λ _, True).
Proof.
  induction n as [|n IH]; intros m Hm; cbn [get_chars]; [done|]. wstep. wstep. wstep. eapply wpo_mono; [by apply IH|].
  intros [l b2] _. done.
Qed.
Lemma sessid_answered m s : bwf m → minv (m_now s) s → wp (mm_answer_sessid m) (answered s) s.
Proof.
  intros Hm Hi. pose proof Hi as (I1 & I2 & I3 & I4 & I5 & I6). unfold mm_answer_sessid. unf. wcase; [exact I|]. wstep. wstep.
  eapply wpo_mono; [by apply wpo_get_chars|]. intros [l b] _. wgo. same_state. tab.
Qed.

Lemma pwnamallow_answered m s : bwf m → minv (m_now s) s → wp (mm_answer_pwnamallow options compat20 m) (answered s) s.
Proof.
  intros Hm Hi. destruct Hi as (I1 & I2 & I3 & I4 & I5 & I6). unfold mm_answer_pwnamallow. unf. wstep. wstep. wstep. wstep.
  destruct I1 as [[Hatt _]|(Hatt & Hu & Hp & Hv)]; rewrite Hatt; [exact I|]. change (negb (0 =? 0)) with false. cbv iota.
  assert (∀ a' s', (key_blob s', ssh1_challenge s', rx s', log_rx s', m_now s', mon_dispatch s') =
      (key_blob s, ssh1_challenge s, rx s, log_rx s, m_now s, mon_dispatch s') →
      m_authctxt s' = a' → known a' → tab_ok (mon_dispatch s') (known a') → answered s 0 s') as Hfin.
  { intros a' s' [= Eb Ec Er El En] Ea Hk Ht. split; [|done]. split; [left; by rewrite Ea|]. split_and!.
    - intros blob Hb. rewrite Eb in Hb. destruct (I2 blob Hb) as [Hv' _]. by rewrite Hv in Hv'.
    - intros c Hc. rewrite Ec in Hc. destruct (I3 c Hc) as (p & Hp' & _). by rewrite Hp in Hp'.
    - by rewrite Ea.
    - by rewrite Er.
    - by rewrite El. }
  assert (Htab : ∀ Q : Prop, Q → tab_ok (mon_dispatch s) Q) by (intros Q HQ; eapply tab_impl; [|exact I4]; done).
  wgo.
  all: eapply Hfin; [reflexivity|reflexivity| |].
  all: match goal with |- tab_ok _ _ => idtac | |- known _ => unfold known; rsimpl; split; [done|]; eexists _, _; split_and!; try done end.
  all: try (intros Hv'; by rewrite Hv in Hv').
  all: try (intros _; eexists; eassumption).
  all: match goal with |- tab_ok _ ?K => assert (K) as HK end.
  all: try (unfold known; rsimpl; split; [done|]; eexists _, _; split_and!; try done; first [intros Hv'; by rewrite Hv in Hv' | intros _; eexists; eassumption]).
  all: specialize (Htab _ HK); rsimpl; tab.
Qed.

Lemma authserv_answered m s : known (m_authctxt s) → bwf m → minv (m_now s) s → wp (mm_answer_authserv m) (answered s) s.
Proof.
  intros Hk Hm Hi. destruct Hi as (I1 & I2 & I3 & I4 & I5 & I6). unfold mm_answer_authserv. unf. wgo.
  split; [|done]. split; [left; exact Hk|]. split_and!; [|exact I3| |exact I5|exact I6].
  - intros blob Hb. destruct (I2 blob Hb) as (Hv & p & t & Hp & Ht & Ha). split; [exact Hv|]. exists p, t. split_and!; [exact Hp|lia|exact Ha].
  - rsimpl. change (known _) with (known (m_authctxt s)). tab.
Qed.

Lemma authpassword_answered m s :
  known (m_authctxt s) → bwf m → minv (m_now s) s → wp (mm_answer_authpassword options m) (answered s) s.
Proof.
  intros Hk Hm Hi. pose proof (minv_weaken _ (S (m_now s)) _ (Nat.le_succ_diag_r _) Hi) as Hi'.
  destruct Hk as (Hatt & u & p & Hu & Hp & Hv). unfold mm_answer_authpassword. unf. wstep. wstep. wstep. wstep.
  destruct (password_authentication options) eqn:Ho.
  - do 5 wstep. rewrite Hp. do 3 wstep.
    set (r1 := b_auth_password (m_now s) (valid (m_authctxt s)) p (style (m_authctxt s)) (cstr l)). wgo; (split; [exact Hi'|split; [done|]]).
    all: intros Hr; exists u, p; split_and!; [exact Hu|exact Hp|].
    all: eapply ev_password with (t := m_now s) (password := cstr l); [done| |first [right; reflexivity|left; reflexivity]].
    all: change (b2z (negb (r1 =? 0)) = 1) in Hr; change (r1 ≠ 0); intros Hz; rewrite Hz in Hr; discriminate.
  - wgo; (split; [exact Hi'|split; done]).
Qed.

(** Only the method and the forced command have changed. *)
Definition meth (s s' : mon) : Prop := ∃ f a, s' = s <| m_forced_command := f |> <| auth_method := a |>.
Lemma meth_refl s : meth s s.
Proof. exists (m_forced_command s), (auth_method s). by destruct s. Qed.

Lemma key_allowed_spec type k blob cuser chost p s :
  pw (m_authctxt s) = Some p → key_from_blob blob = Some k →
  wp (key_allowed_by_type options type k cuser chost)
     (λ '(al, ch) s', meth s s' ∧ (al ≠ 0 → allowed p (m_now s) blob type (Some (cstr cuser)) (Some ch))) s.
Proof.
  intros Hp Hk. unfold key_allowed_by_type. unf. destruct (Z.eqb_spec type MM_USERKEY) as [->|_].
  { destruct (pubkey_authentication options) eqn:Ho.
    - repeat wstep. rewrite Hp. repeat wstep. destruct (b_user_key_allowed (m_now s) p k) as [r f] eqn:Er. cbv beta iota.
      wgo; (split; [eexists _, _; reflexivity|]); intros Ha; apply al_user with k; try done; rewrite Er; cbn; intros ->; by apply Ha.
    - wgo; (split; [exists (m_forced_command s), (codes "publickey"); by destruct s|done]). }
  destruct (Z.eqb_spec type MM_HOSTKEY) as [->|_].
  { destruct (hostbased_authentication options) eqn:Ho.
    - repeat wstep. rewrite Hp. wgo. split; [exists (m_forced_command s), (codes "hostbased"); by destruct s|].
      intros Ha. apply al_host with k; try done. intros Hz. rewrite Hz in Ha. by apply Ha.
    - wgo. split; [exists (m_forced_command s), (codes "hostbased"); by destruct s|done]. }
  destruct (Z.eqb_spec type MM_RSAHOSTKEY) as [->|_]; [|exact I].
  destruct (rhosts_rsa_authentication options) eqn:Ho.
  - repeat wstep. rewrite Hp. wgo; (split; [first [eexists _, _; reflexivity | exists (m_forced_command s), (codes "rsa"); by destruct s]|]);
      intros Ha; apply al_rhosts with (k := k) (cu := cstr cuser) (ch := cstr chost); try done; intros Hz; rewrite Hz in Ha; by apply Ha.
  - wgo; (split; [exists (m_forced_command s), (codes "rsa"); by destruct s|done]).
Qed.

Lemma valid_known s n : minv n s → valid (m_authctxt s) = true →
  known (m_authctxt s) ∧ ∃ u p, user (m_authctxt s) = Some u ∧ pw (m_authctxt s) = Some p.
Proof.
  intros [[Hk|(_ & _ & _ & Hv')] _] Hv; [|congruence]. split; [done|]. destruct Hk as (_ & u & p & Hu & Hp & _). eauto.
Qed.

Lemma keyallowed_answered m s : bwf m → minv (m_now s) s → wp (mm_answer_keyallowed options compat20 m) (answered s) s.
Proof.
  intros Hm Hi. pose proof Hi as (I1 & I2 & I3 & I4 & I5 & I6). unfold mm_answer_keyallowed. unf.
  do 4 (wstep; wstep; wstep). rename l1 into blob, z into type, b2 into m1. wcase; [exact I|]. wstep. wstep. wstep.
  apply wp_mono with (λ '(al, ch) s', meth s s' ∧ (al ≠ 0 → valid (m_authctxt s) = true ∧ ∃ p, pw (m_authctxt s) = Some p ∧
     allowed p (m_now s) blob type (Some (cstr l)) (Some ch))).
  { destruct (key_from_blob blob) as [k|] eqn:Hk; [|split; [apply meth_refl|done]].
    destruct (valid (m_authctxt s)) eqn:Hv; [|split; [apply meth_refl|done]].
    destruct (valid_known s _ Hi Hv) as (_ & u & p & _ & Hp). eapply wp_mono; [by apply (key_allowed_spec type k blob l l0 p)|].
    intros [al ch] s' [Hmeth Hal]. split; [done|]. intros Ha. split; [done|]. exists p. auto. }
  intros [al ch] s' [(f & a & ->) Hal]. wstep. wstep. apply wp_bind.
  assert (∀ s', m_authctxt s' = m_authctxt s → (key_blob s' = None ∨ al ≠ 0 ∧ key_blob s' = Some blob ∧ key_blobtype s' = type ∧
      hostbased_cuser s' = Some (cstr l) ∧ hostbased_chost s' = Some ch) →
      (ssh1_challenge s', rx s', log_rx s', m_now s') = (ssh1_challenge s, rx s, log_rx s, m_now s) →
      tab_ok (mon_dispatch s') (known (m_authctxt s)) → answered s 0 s') as Hfin.
  { intros s' Ea Hb [= Ec Er El En] Ht. split; [|done]. unfold minv, chal_ok. rewrite Ea, Ec, Er, El. split; [exact I1|].
    split; [|split; [exact I3|done]]. intros blob' Hb'. destruct Hb as [Hb|(Ha & Hb & Hty & Hcu & Hch)]; [congruence|].
    rewrite Hb in Hb'. injection Hb' as <-. rewrite Ea, Hty, Hcu, Hch. destruct (Hal Ha) as (Hv & p & Hp & Hall).
    split; [done|]. exists p, (m_now s). split_and!; [done|lia|done]. }
  wstep.
  - wstep. wgo; apply Hfin; try reflexivity; try (right; split_and!; try reflexivity; intros Hz; rewrite Hz in *; discriminate); rsimpl; tab.
  - wgo; apply Hfin; try reflexivity; try (by left); rsimpl; tab.
Qed.

Lemma userblob_safe data sid u : bytes data → wpo (monitor_valid_userblob datafellows data sid (Some u)) (λ _, True).
Proof.
  intros Hd. unfold monitor_valid_userblob. wstep. eapply wpo_mono; [by apply wpo_append_bwf; [apply bwf_init|]|]. intros b Hb. wstep.
  apply wpo_mono with (λ '(_, b'), bwf b').
  { destruct (has_bug _ _).
    - wstep. eapply wpo_mono; [apply wpo_consume; [done|destruct sid; lia]|]. done.
    - wstep. wstep. done. }
  intros [fail b1] Hb1. do 7 wstep.
  apply wpo_mono with (λ '(_, b'), bwf b'); [|intros [f b5] Hb5; do 3 wstep; done].
  destruct (has_bug _ _); repeat wstep; done.
Qed.
Lemma hostbasedblob_safe data sid u cu ch : bytes data → wpo (monitor_valid_hostbasedblob data sid (Some u) cu ch) (λ _, True).
Proof.
  intros Hd. unfold monitor_valid_hostbasedblob. wstep. eapply wpo_mono; [by apply wpo_append_bwf; [apply bwf_init|]|]. intros b Hb.
  repeat wstep. done.
Qed.

(** The state after a key has been used. *)
Lemma answered_reset s s' r :
  minv (m_now s) s → m_authctxt s' = m_authctxt s → key_blob s' = None → (ssh1_challenge s' = ssh1_challenge s ∨ ssh1_challenge s' = None) →
  (rx s', log_rx s', m_now s', mon_dispatch s') = (rx s, log_rx s, m_now s, mon_dispatch s) → (r = 1 → shown s') → answered s r s'.
Proof.
  intros (I1 & I2 & I3 & I4 & I5 & I6) Ea Hb Hc [= Er El En Et] Hs. split; [|done]. unfold minv. rewrite Ea, Er, El, Et.
  split; [exact I1|]. split; [intros blob Hb'; congruence|]. split; [|done]. intros c Hc'. rewrite Ea.
  destruct Hc as [Hc|Hc]; [|congruence]. apply I3. congruence.
Qed.

Lemma keyverify_answered m s : bwf m → minv (m_now s) s → wp (mm_answer_keyverify datafellows m) (answered s) s.
Proof.
  intros Hm Hi. pose proof Hi as (I1 & I2 & I3 & I4 & I5 & I6). unfold mm_answer_keyverify. unf.
  do 3 (wstep; wstep; wstep). rename l into blob, l0 into signature, l1 into data. do 6 wstep.
  destruct (hostbased_cuser s) as [cu|] eqn:Hcu; [|exact I]. destruct (hostbased_chost s) as [ch|] eqn:Hch; [|exact I].
  destruct (bool_decide_reflect (key_blob s = Some blob)) as [Hb|]; [|exact I]. cbn [negb].
  destruct (key_from_blob blob) as [k|] eqn:Hk; [|exact I]. do 8 wstep.
  destruct (I2 blob Hb) as (Hv & p & t & Hp & Ht & Hal). destruct (valid_known s _ Hi Hv) as (_ & u & p' & Hu & Hp').
  rewrite Hp' in Hp. injection Hp as ->. rewrite Hu, Hcu, Hch in *.
  apply wpo_true.
  { destruct (_ =? MM_USERKEY); [by apply userblob_safe|]. destruct (_ =? MM_HOSTKEY); [by apply hostbasedblob_safe|done]. }
  intros vd Evd. destruct vd; [|exact I]. cbn [negb].
  set (v := b_key_verify (m_now s) k signature data).
  assert (∀ s' method, m_authctxt s' = m_authctxt s → session_id2 s' = session_id2 s → auth_method s' = method →
     method = codes (if key_blobtype s =? MM_USERKEY then "publickey" else "hostbased") → b2z (v =? 1) = 1 → shown s') as Hfin.
  { intros s' method Ea Es Em -> Hr. exists u, p. rewrite Ea, Es, Em. split_and!; [done..|].
    assert (v = 1) as Hv1 by (destruct (Z.eqb_spec v 1); [done|discriminate]).
    destruct (Z.eqb_spec (key_blobtype s) MM_USERKEY) as [Hty|Hty].
    - rewrite Hty in Hal. eapply ev_pubkey with (t := t) (t' := m_now s); try done.
    - destruct (Z.eqb_spec (key_blobtype s) MM_HOSTKEY) as [Hty'|]; [|discriminate Evd]. rewrite Hty' in Hal.
      eapply ev_hostbased with (t := t) (t' := m_now s); done. }
  repeat wstep. destruct (key_blobtype s =? MM_USERKEY); wgo.
  all: apply answered_reset; [done|done|done|by left|done|]; intros Hr; eapply Hfin; [done..|exact Hr].
Qed.

Lemma rsa_keyallowed_answered m s : bwf m → minv (m_now s) s → wp (mm_answer_rsa_keyallowed options m) (answered s) s.
Proof.
  intros Hm Hi. pose proof Hi as (I1 & I2 & I3 & I4 & I5 & I6). unfold mm_answer_rsa_keyallowed. unf. do 5 wstep.
  apply wp_mono with (λ '(al, k, m') s', bwf m' ∧ meth s s' ∧ (∀ k', k = Some k' → al ≠ 0 → valid (m_authctxt s) = true ∧
     rsa_authentication options = true ∧ ∃ p n f, pw (m_authctxt s) = Some p ∧ auth_rsa_key_allowed (m_now s) p n = (al, Some k', f))).
  { destruct (rsa_authentication options) eqn:Ho; [|split_and!; [done|by exists (m_forced_command s), (codes "rsa"); destruct s|done]].
    cbn [andb]. change (valid (m_authctxt _)) with (valid (m_authctxt s)).
    destruct (valid (m_authctxt s)) eqn:Hv; [|split_and!; [done|by exists (m_forced_command s), (codes "rsa"); destruct s|done]].
    destruct (valid_known s _ Hi Hv) as (_ & u & p & _ & Hp). wstep. wstep. wstep. wstep. wstep. wstep. rsimpl. rewrite Hp. repeat wstep.
    rsimpl. destruct (auth_rsa_key_allowed (m_now s) p b) as [[al k] f] eqn:Ek. repeat wstep. split_and!; [done|by eexists _, _|].
    intros k' -> Ha. split_and!; [done..|]. eauto. }
  intros [[al k] m1] s' (Hm1 & (f & a & ->) & Hal).
  assert (∀ s', m_authctxt s' = m_authctxt s → (key_blob s' = None ∨ ∃ blob k', k = Some k' ∧ al ≠ 0 ∧
      key_to_blob (key_with_type k' KEY_RSA) = Some blob ∧ key_blob s' = Some blob ∧ key_blobtype s' = MM_RSAUSERKEY) →
      (ssh1_challenge s', rx s', log_rx s', m_now s') = (ssh1_challenge s, rx s, log_rx s, m_now s) →
      tab_ok (mon_dispatch s') (known (m_authctxt s)) → answered s 0 s') as Hfin.
  { intros s' Ea Hb [= Ec Er El En] Ht. split; [|done]. unfold minv, chal_ok. rewrite Ea, Ec, Er, El. split; [exact I1|].
    split; [|split; [exact I3|done]]. intros blob' Hb'. destruct Hb as [Hb|(blob & k' & -> & Ha & Hbl & Hb & Hty)]; [congruence|].
    rewrite Hb in Hb'. injection Hb' as <-. rewrite Ea, Hty. destruct (Hal k' eq_refl Ha) as (Hv & Ho & p & n & f' & Hp & Hall).
    split; [done|]. exists p, (m_now s). split_and!; [done|lia|]. by eapply al_rsa. }
  wgo; apply Hfin; try reflexivity; try (by left); try (rsimpl; tab).
  right. eexists _, _. split_and!; try done; try reflexivity. by intros ->.
Qed.

Lemma rsa_allowed_spec blob s : minv (m_now s) s →
  wp (rsa_allowed_key blob) (λ k s', s' = s ∧ key_from_blob blob = Some k ∧ key_blob s = Some blob ∧
    (key_blobtype s = MM_RSAUSERKEY ∨ key_blobtype s = MM_RSAHOSTKEY) ∧
    ∃ p t, pw (m_authctxt s) = Some p ∧ allowed p t blob (key_blobtype s) (hostbased_cuser s) (hostbased_chost s)) s.
Proof.
  intros Hi. unfold rsa_allowed_key. unf. do 4 wstep. destruct (bool_decide_reflect (key_blob s = Some blob)) as [Hb|]; [|exact I]. cbn [negb].
  destruct (Z.eqb_spec (key_blobtype s) MM_RSAUSERKEY); cbn [negb andb].
  2: destruct (Z.eqb_spec (key_blobtype s) MM_RSAHOSTKEY); cbn [negb andb]; [|exact I].
  all: destruct (key_from_blob blob) as [k|]; [|exact I]; split_and!; try done; try tauto.
  all: destruct Hi as (_ & I2 & _); destruct (I2 blob Hb) as (_ & p & t & Hp & _ & Ha); eauto.
Qed.

Lemma rsa_challenge_answered m s : bwf m → minv (m_now s) s → wp (mm_answer_rsa_challenge m) (answered s) s.
Proof.
  intros Hm Hi. pose proof Hi as (I1 & I2 & I3 & I4 & I5 & I6). unfold mm_answer_rsa_challenge. unf. wstep. wstep.
  destruct (valid (m_authctxt s)) eqn:Hv; [|exact I]. cbn [negb]. wstep. wstep. wstep. wstep.
  eapply wp_mono; [by apply rsa_allowed_spec|]. intros k s' (-> & Hk & Hb & Hty & p & t & Hp & Hal).
  destruct (Z.eqb_spec (key_type_of k) KEY_RSA) as [Hkt|]; [|exact I]. cbn [negb]. wstep. wstep. wstep. wstep.
  apply wpo_true; [unfold auth_rsa_generate_challenge; by destruct (rsa_key_n k Hkt) as [n ->]|]. intros c Hc. wgo.
  split; [|done]. split; [exact I1|]. split_and!; [| |rsimpl; tab|exact I5|exact I6].
  - intros blob' Hb'. destruct (I2 blob' Hb') as (Hv' & p' & t' & Hp' & Ht' & Ha'). split; [done|]. exists p', t'. split_and!; [done|lia|done].
  - intros c' [= <-]. exists p. split; [done|]. by exists t, (m_now s), l, (key_blobtype s), (hostbased_cuser s), (hostbased_chost s), k.
Qed.

Lemma rsa_response_answered m s : bwf m → minv (m_now s) s → wp (mm_answer_rsa_response m) (answered s) s.
Proof.
  intros Hm Hi. pose proof Hi as (I1 & I2 & I3 & I4 & I5 & I6). unfold mm_answer_rsa_response. unf. wstep. wstep.
  destruct (valid (m_authctxt s)) eqn:Hv; [|exact I]. cbn [negb]. wstep. wstep.
  destruct (ssh1_challenge s) as [c|] eqn:Hc; [|exact I]. wstep. wstep. wstep. wstep.
  eapply wp_mono; [by apply rsa_allowed_spec|]. intros k s' (-> & Hk & Hb & Hty & p & t & Hp & Hal).
  wstep. wstep. wstep. wcase; [exact I|]. do 4 wstep.
  destruct (I3 c Hc) as (p' & Hp' & Hch). rewrite Hp in Hp'. injection Hp' as <-.
  assert (is_Some (key_rsa_n k)) as [n Hn].
  { destruct Hty as [Hty|Hty]; rewrite Hty in Hal; inversion Hal; subst.
    - by eapply rsa_allowed_n.
    - rewrite Hk in *. simplify_eq. by eapply rhosts_rsa_n. }
  apply wpo_true; [unfold auth_rsa_verify_response; rewrite Hn; repeat (wcase; try done)|]. intros succ Hsucc.
  destruct (valid_known s _ Hi Hv) as (_ & u & p' & Hu & Hp'). rewrite Hp in Hp'. injection Hp' as <-.
  do 3 wstep. destruct (key_blobtype s =? MM_RSAUSERKEY) eqn:Et; wgo.
  all: apply answered_reset; [done|done|done|by right|done|]; intros ->; exists u, p; split_and!; [done..|].
  all: pose proof (ev_rsa (m_authctxt s) p u (session_id2 s) (m_session_id s) t l (key_blobtype s) k _ _ c l0 Hal Hty Hk Hch Hsucc) as Hev;
    rewrite Et in Hev; exact Hev.
Qed.

(** ** The loop *)

Lemma receive_spec m s : wf m → bytes (rx s) →
  wp (mm_request_receive m) (λ b s', bwf b ∧ ∃ q, s' = s <| rx := q |> ∧ bytes q) s.
Proof.
  intros Hm Hb. unfold mm_request_receive. wstep. wstep. wcase; [exact I|]. wcase; [exact I|]. wcase; [exact I|].
  wstep. wstep. wstep. eapply wpo_mono; [apply wpo_append_bwf; [by apply wf_clear|by apply Forall_take, Forall_drop]|].
  intros b Hbw. split; [done|]. eexists. split; [reflexivity|]. by apply Forall_drop.
Qed.

Lemma find_entry_lookup type l : ∀ i j, find_entry type l i = Some j → (i ≤ j)%nat ∧ is_Some (l !! (j - i)%nat).
Proof.
  induction l as [|e l IH]; intros i j; cbn [find_entry]; [done|]. destruct (_ =? _).
  - intros [= <-]. rewrite Nat.sub_diag. split; [lia|by eexists].
  - intros [Hij He]%IH. split; [lia|]. replace (j - i)%nat with (S (j - S i)) by lia. done.
Qed.

Lemma answer_request_spec e m s :
  e ∈ mon_dispatch s → has_flag e MON_PERMIT = true → bwf m → minv (m_now s) s →
  wp (answer_request options E datafellows compat20 (m_f e) m) (answered s) s.
Proof.
  intros He Hf Hm Hi. pose proof Hi as (_ & _ & _ & [_ Ht] & _). rewrite Forall_forall in Ht.
  destruct (Ht e He) as (_ & _ & Hno & Hneed). unfold needs_user in Hneed. destruct (m_f e) eqn:Hfe; cbn [answer_request]; try (exfalso; tauto).
  - by apply moduli_answered.
  - by apply sign_answered.
  - by apply pwnamallow_answered.
  - by apply banner_answered.
  - apply authserv_answered; auto.
  - apply authpassword_answered; auto.
  - by apply keyallowed_answered.
  - by apply keyverify_answered.
  - by apply rsa_keyallowed_answered.
  - by apply rsa_challenge_answered.
  - by apply rsa_response_answered.
  - by apply sesskey_answered.
  - by apply sessid_answered.
Qed.

Lemma serve_spec s : minv (m_now s) s →
  wp (serve options E datafellows compat20) (λ '(r, i) s', minv (m_now s') s' ∧ (i < 8)%nat ∧ (r = 1 → shown s')) s.
Proof.
  intros Hi. unfold serve. wstep. eapply wp_mono; [apply receive_spec; [apply buffer_init_wf|apply Hi]|].
  intros m s1 (Hm & q & -> & Hq). do 5 wstep. set (s1 := s <| rx := q |>).
  assert (minv (m_now s1) s1) as Hi1. { destruct Hi as (I1 & I2 & I3 & I4 & I5 & I6). by split_and!. }
  change (mon_dispatch s1) with (mon_dispatch s). pose proof Hi as (_ & _ & _ & Ht & _).
  destruct (find_entry _ (mon_dispatch s) 0) as [i|] eqn:Hf; [|exact I]. apply find_entry_lookup in Hf as [_ [e He]]. rewrite Nat.sub_0_r in He.
  assert (∀ (l : list mon_entry) e, l !! i = Some e → zget l (Z.of_nat i) = Ok e) as Hz.
  { intros l e' He'. apply zget_lookup; [lia|]. by rewrite Nat2Z.id. }
  wstep. wstep. rewrite (Hz _ _ He). cbn [wpo]. destruct (has_flag e MON_PERMIT) eqn:Hpf; [|exact I]. cbn [negb].
  assert (i < 8)%nat as Hi8. { apply lookup_lt_Some in He. destruct Ht as [Hl _]. by rewrite <- Hl. }
  wstep. eapply wp_mono; [apply (answer_request_spec e b s1); [by eapply list_elem_of_lookup_2|done..]|].
  intros r s2 ([J1 [J2 [J3 [J4 [J5 J6]]]]] & Hnow & Hsh). wstep. wstep. wstep. wstep.
  destruct (lookup_lt_is_Some_2 (mon_dispatch s2) i) as [e' He']; [destruct J4 as [Hl _]; by rewrite Hl|].
  rewrite (Hz _ _ He'). cbn [wpo]. change (m_now s1) with (m_now s) in *.
  assert (∀ l, tab_ok l (known (m_authctxt s2)) → minv (S (m_now s2)) (s2 <| mon_dispatch := l |> <| m_now := S (m_now s2) |>)) as Hfin.
  { intros l Hl. rewrite Hnow. by split_and!. }
  do 2 wstep.
  - wgo. split; [|by split]. apply Hfin. by apply tab_once.
  - wgo. split; [|by split]. specialize (Hfin _ J4). by destruct s2.
Qed.

(** A state that differs in the log only. *)
Definition logs (s s' : mon) : Prop := ∃ o q l, s' = s <| m_log_open := o |> <| log_rx := q |> <| logged := l |> ∧ bytes q.
Lemma read_log_spec s : bytes (log_rx s) →
  wp monitor_read_log (λ more s', logs s s' ∧ (more = true → (length (log_rx s') < length (log_rx s))%nat)) s.
Proof.
  intros Hb. unfold monitor_read_log. wstep. wstep. destruct (Z.ltb_spec (Z.of_nat (length (log_rx s))) 4).
  { wgo. split; [|done]. exists false, (log_rx s), (logged s). by destruct s. }
  wcase; [exact I|]. wcase; [exact I|]. wstep. wstep. wstep. wstep.
  eapply wpo_mono; [apply wpo_append_bwf; [apply bwf_init|by apply Forall_take, Forall_drop]|]. intros b Hbw. wgo. split.
  - eexists (m_log_open s), _, _. split; [by destruct s|by apply Forall_drop].
  - intros _. rsimpl. rewrite length_drop. lia.
Qed.
Lemma minv_logs n s s' : logs s s' → minv n s → minv n s'.
Proof. intros (o & q & l & -> & Hq) (I1 & I2 & I3 & I4 & I5 & I6). by split_and!. Qed.
Lemma now_logs s s' : logs s s' → m_now s' = m_now s.
Proof. by intros (o & q & l & -> & Hq). Qed.

Lemma monitor_read_spec polls : ∀ s, minv (m_now s) s →
  wp (monitor_read options E datafellows compat20 polls)
     (λ '(r, polls') s', minv (m_now s') s' ∧
        match r with None => True | Some (ret, i) => (length polls' < length polls)%nat ∧ (i < 8)%nat ∧ (ret = 1 → shown s') end) s.
Proof.
  induction polls as [|x polls IH]; intros s Hi; cbn [monitor_read]; [done|].
  assert (∀ s, minv (m_now s) s → wp (monitor_read options E datafellows compat20 polls) (λ '(r, polls') s', minv (m_now s') s' ∧
        match r with None => True | Some (ret, i) => (length polls' < length (x :: polls))%nat ∧ (i < 8)%nat ∧ (ret = 1 → shown s') end) s) as IH'.
  { intros s1 Hs1. eapply wp_mono; [by apply IH|]. intros [[[ret i]|] polls'] s' [Hm Hr]; [|done]. split; [done|]. cbn [length]. split_and!; [lia|tauto..]. }
  clear IH. destruct x as [| |log req]; [by apply IH'|exact I|]. wstep. wstep. wcase.
  - wstep. eapply wp_mono; [apply read_log_spec, Hi|]. intros _ s' [Hl _]. apply IH'. rewrite (now_logs _ _ Hl). by eapply minv_logs.
  - destruct req; [|by apply IH']. wstep. eapply wp_mono; [by apply serve_spec|]. intros [ret i] s' (Hm & Hi8 & Hs). split; [done|]. cbn [length]. split_and!; [lia|done..].
Qed.

(** ** The decision *)

Definition root_ok (s : mon) : Prop := ∀ p, pw (m_authctxt s) = Some p → pw_uid p = 0 →
  auth_root_allowed options (m_forced_command s) (auth_method s) = true.

Lemma decide_spec ret i s : minv (m_now s) s → (i < 8)%nat → (ret = 1 → shown s) →
  wp (preauth_decide options ret i) (λ b s', minv (m_now s') s' ∧ (b = true → shown s' ∧ root_ok s')) s.
Proof.
  intros Hi Hi8 Hs. pose proof Hi as (_ & _ & _ & [Hl _] & _). unfold preauth_decide. unf. wstep. wstep. wstep. wstep.
  destruct (lookup_lt_is_Some_2 (mon_dispatch s) i) as [e He]; [by rewrite Hl|].
  rewrite (zget_lookup _ _ e) by (lia || by rewrite Nat2Z.id). cbn [wpo]. wstep.
  apply wp_mono with (λ b s', s' = s ∧ (b = true → shown s ∧ root_ok s)).
  { destruct (Z.eqb_spec ret 1) as [Hr|]; [|by wgo]. wcase; [exact I|]. destruct (Hs Hr) as (u & p & Hu & Hp & Hev).
    repeat wstep. rewrite Hp. repeat wstep. split; [done|]. intros Hb. split; [auto|]. intros p' Hp' H0u. rewrite Hp in Hp'. injection Hp' as <-.
    rewrite H0u in Hb. cbn in Hb. by destruct (auth_root_allowed _ _ _). }
  intros b s' [-> Hb]. wgo; [|done]. split; [exact Hi|]. intros ->. by rewrite andb_false_r in *.
Qed.

Lemma loop_spec fuel : ∀ polls s, (length polls < fuel)%nat → minv (m_now s) s →
  wp (preauth_loop options E datafellows compat20 fuel polls) (λ b s', minv (m_now s') s' ∧ (b = true → shown s' ∧ root_ok s')) s.
Proof.
  induction fuel as [|fuel IH]; intros polls s Hf Hi; [lia|]. cbn [preauth_loop]. unf. wstep. wstep. wstep.
  eapply wp_mono; [apply monitor_read_spec; exact Hi|]. intros [[[ret i]|] polls'] s' [Hm Hr]; [|by wgo].
  destruct Hr as (Hlen & Hi8 & Hs). wstep. eapply wp_mono; [by apply decide_spec|]. intros b s2 [Hm2 Hb]. destruct b; [by wgo|].
  apply IH; [lia|done].
Qed.

Lemma drain_spec fuel : ∀ s, (length (log_rx s) < fuel)%nat → bytes (log_rx s) → wp (drain_log fuel) (λ _ s', logs s s') s.
Proof.
  induction fuel as [|fuel IH]; intros s Hf Hb; [lia|]. cbn [drain_log]. wstep. wstep.
  destruct (m_log_open s) eqn:Ho; cbn [negb].
  2: { wgo. exists (m_log_open s), (log_rx s), (logged s). by destruct s. }
  wstep. eapply wp_mono; [by apply read_log_spec|]. intros more s' [Hl Hm]. destruct more; [|by wgo].
  eapply wp_mono; [apply IH|].
  - specialize (Hm eq_refl). lia.
  - by destruct Hl as (o & q & l & -> & Hq).
  - intros _ s2 (o2 & q2 & l2 & -> & Hq2). destruct Hl as (o & q & l & -> & Hq). exists o2, q2, l2. split; [by destruct s|done].
Qed.

(** ** The state of the child *)

Lemma mac_setup_safe name : wpo (mac_setup (Some mac_zero) name) (λ '(_, m), is_Some m).
Proof.
  unfold mac_setup. assert (Forall (λ e, m_type e = SSH_EVP → is_Some (m_mdfunc e)) macs) as Hm.
  { repeat (apply Forall_cons; split); [..|constructor]; cbn; intros ?; first [done | eexists; reflexivity]. }
  induction Hm as [|e l He Hl IH]; cbn [first_such]; [by exists mac_zero|]. destruct (String.eqb _ _); [|exact IH].
  apply wpo_bind. apply wpo_mono with (λ _, True); [|intros m _; by exists m]. unfold mac_setup_by_id. cbv zeta.
  apply wpo_bind. apply wpo_mono with (λ _, True); [|done]. destruct (Z.eqb_spec (m_type e) SSH_EVP) as [Ht|]; [|done].
  destruct (He Ht) as [md ->]. by destruct (_ <=? 0).
Qed.
Lemma from_blob_safe blob : 0 ≤ sizeof_ptr → bytes blob → wpo (mm_newkeys_from_blob ptr_bytes sizeof_ptr blob) (λ _, True).
Proof.
  intros Hs Hb. unfold mm_newkeys_from_blob. wstep. eapply wpo_mono; [apply wpo_append_bwf; [apply bwf_init|done]|]. intros b Hbw.
  wstep. wstep. wstep. eapply wpo_mono; [by apply wpo_get|]. intros [ptr b1] (_ & _ & Hb1). repeat wstep. wcase; [exact I|]. wcase; [|exact I].
  repeat wstep. eapply wpo_mono; [apply mac_setup_safe|]. intros [r m] [mac ->]. wcase; [exact I|]. repeat wstep. wcase; [exact I|]. repeat wstep. done.
Qed.
Lemma get_rest_safe n m : bwf m → wpo (get_rest sizeof_zstream compat20 n m) (λ _, True).
Proof.
  intros Hm. unfold get_rest. repeat wstep. wcase; [exact I|]. repeat wstep. wcase; [exact I|]. repeat wstep.
  apply wpo_mono with (λ _, True); [|intros [] _; done]. destruct compat20; [|done]. repeat wstep. done.
Qed.
Lemma get_state_safe m : bwf m → wpo (get_state m) (λ '(_, m'), bwf m').
Proof. intros Hm. unfold get_state. repeat wstep. done. Qed.
Lemma get_kex_safe sid m : bwf m → wpo (mm_get_kex sid m) (λ '(_, m'), bwf m').
Proof.
  intros Hm. unfold mm_get_kex. wstep. wstep. wcase; [exact I|]. repeat wstep. done.
Qed.
Lemma keystate_safe sid n0 m : 0 ≤ sizeof_ptr → bwf m →
  wpo (mm_get_keystate ptr_bytes sizeof_ptr sizeof_zstream compat20 sid n0 m) (λ _, True).
Proof.
  intros Hs Hm. unfold mm_get_keystate. destruct compat20 eqn:Hc.
  - wstep. eapply wpo_mono; [by apply get_kex_safe|]. intros [[[kex cvs] svs] m1] Hm1. wstep. wstep. wstep.
    eapply wpo_mono; [by apply from_blob_safe|]. intros ko _. wstep. wstep. wstep.
    eapply wpo_mono; [by apply from_blob_safe|]. intros ki _. wstep. eapply wpo_mono; [by apply get_state_safe|]. intros [p1 m2] Hm2.
    wstep. eapply wpo_mono; [by apply get_state_safe|]. intros [p2 m3] Hm3. rewrite <- Hc. by apply get_rest_safe.
  - repeat wstep. rewrite <- Hc. by apply get_rest_safe.
Qed.

(** ** Theorems *)

(** The monitor when the child starts. *)
Definition started (s : mon) : Prop := key_blob s = None ∧ ssh1_challenge s = None ∧ bytes (rx s) ∧ bytes (log_rx s).

(** A user whom the account data base admits and who has shown who he is, in a
    way in which root may log in if he is root. *)
Definition authorised (s : mon) : Prop :=
  ∃ u p t, user (m_authctxt s) = Some u ∧ pw (m_authctxt s) = Some p ∧ valid (m_authctxt s) = true ∧
    b_getpwnamallow t u = Some p ∧
    evidence (m_authctxt s) p u (session_id2 s) (m_session_id s) (auth_method s) ∧
    (pw_uid p = 0 → auth_root_allowed options (m_forced_command s) (auth_method s) = true).

Lemma start_inv s : started s →
  minv (m_now s) (s <| m_authctxt := authctxt_zero |>
    <| mon_dispatch := if compat20 then permit_table MONITOR_REQ_SIGN true (permit_table MONITOR_REQ_MODULI true mon_dispatch_proto20)
                       else permit_table MONITOR_REQ_SESSKEY true mon_dispatch_proto15 |>).
Proof.
  intros (Hb & Hc & Hr & Hl). assert (∀ P, tab_ok mon_dispatch_proto20 P ∧ tab_ok mon_dispatch_proto15 P) as Ht.
  { intros P. split; (split; [done|]; repeat (apply Forall_cons; split); [..|constructor]).
    all: unfold needs_user; cbn; naive_solver. }
  split; [by right|]. split_and!.
  - intros blob Hb'. rsimpl_in Hb'. congruence.
  - intros c Hc'. rsimpl_in Hc'. congruence.
  - rsimpl. destruct (Ht (known authctxt_zero)). destruct compat20; tab.
  - done.
  - done.
Qed.

Lemma preauth_spec polls s : started s → 0 ≤ sizeof_ptr →
  wp (monitor_child_preauth options E datafellows compat20 ptr_bytes sizeof_ptr sizeof_zstream polls)
     (λ b s', b = true → authorised s') s.
Proof.
  intros Hst Hp. unfold monitor_child_preauth. unf. wstep. wstep. wstep.
  apply wp_mono with (λ _ s', m_now s' = m_now s ∧ minv (m_now s) s').
  { pose proof (start_inv s Hst) as Hi. destruct compat20; repeat wstep; (split; [done|exact Hi]). }
  intros _ s1 [Hn Hi]. wstep. eapply wp_mono; [apply loop_spec; [lia|by rewrite Hn]|]. intros b s2 [Hi2 Hb2].
  destruct b; [|by wgo]. cbn [negb]. destruct (Hb2 eq_refl) as [Hsh Hroot]. clear Hb2. wstep. wstep. wstep.
  eapply wp_mono; [apply drain_spec; [lia|apply Hi2]|]. intros ? s3 Hl3. cbv beta in Hl3. pose proof (minv_logs _ _ _ Hl3 Hi2) as Hi3.
  assert (shown s3 ∧ root_ok s3) as [Hsh3 Hroot3]. { by destruct Hl3 as (o & q & l & -> & _). }
  wstep. wstep. destruct (valid (m_authctxt s3)) eqn:Hv; [|exact I]. cbn [negb]. wstep. wstep. wcase; [exact I|].
  wstep. unfold mm_request_receive_expect. wstep. eapply wp_mono; [apply receive_spec; [apply buffer_init_wf|apply Hi3]|].
  intros m s4 (Hm & q & -> & Hq). wstep. wstep. wstep. wcase; [exact I|]. do 7 wstep.
  eapply wpo_mono; [by apply keystate_safe|]. intros n _. wgo. intros _.
  destruct Hsh3 as (u & p & Hu & Hpw & Hev). pose proof Hi3 as [[(_ & u' & p' & Hu' & Hp' & Ht)|(_ & _ & _ & Hv')] _]; [|congruence].
  rewrite Hu in Hu'. rewrite Hpw in Hp'. injection Hu' as <-. injection Hp' as <-. destruct (Ht Hv) as [t Ht'].
  exists u, p, t. split_and!; [done..|]. intros Huid. by apply (Hroot3 p).
Qed.

(** C12: Whatever the unprivileged process sends: if the monitor lets it through,
    the account data base admits the user that was named in the only such
    request, and the monitor has accepted a password for this account, or has
    verified a signature with a key that an earlier request found allowed, over
    data that names this session and this user, or (protocol 1) has got the
    right response to a challenge; and root logs in only as
    [PermitRootLogin] says. *)
Theorem monitor_preauth_sound polls s s' :
  started s → 0 ≤ sizeof_ptr →
  monitor_child_preauth options E datafellows compat20 ptr_bytes sizeof_ptr sizeof_zstream polls s = Ok (true, s') →
  authorised s'.
Proof. intros Hs Hp Hr. exact (wp_run _ _ _ _ _ (preauth_spec polls s Hs Hp) Hr eq_refl). Qed.

(** C13: No sequence of bytes from the unprivileged process makes the monitor
    dereference a null pointer, leave an array or loop: its run to the end of
    authentication returns or ends the process in an orderly way. *)
Theorem monitor_preauth_no_crash polls s :
  started s → 0 ≤ sizeof_ptr →
  let r := monitor_child_preauth options E datafellows compat20 ptr_bytes sizeof_ptr sizeof_zstream polls s in
  r ≠ Fault ∧ r ≠ NoFuel.
Proof.
  intros Hs Hp r. pose proof (preauth_spec polls s Hs Hp) as Hw. unfold wp in Hw. fold r in Hw. by destruct r as [[]| | | | |].
Qed.
End Proofs.
