(* ===== verification/MonitorData.v ===== *)
(** * What the monitor lets be verified, and runs of the monitor

    The data under a public key signature that [monitor_valid_userblob] accepts
    is exactly that of an authentication request of this session for this
    user, which is what [userauth_pubkey] builds.  Runs of the monitor in a
    small world: a login with a password and one with a key. *)

From S2P Require Import Prelude ByteOrder Buffer Crc32 Deattack Stdio SuperTrace HashMap Csbuflo.
From S2P Require Import CipherMac Packet PacketWrite PacketRead Dispatch Match Nchan Kex KexProofs AddrMatch Auth Auth2 Session BufBn KeyState Monitor Wp Auth2Proofs SessionProofs MonitorProofs.

(** The bytes of the session id in front of the data, and the rest of a request.
    With [SSH_OLD_SESSIONID] the id comes without its length, with
    [SSH_BUG_PKAUTH] the request names neither the method nor the algorithm. *)
Definition session_wire (datafellows : Z) (sid : list Z) : list Z :=
  if has_bug datafellows SSH_OLD_SESSIONID then sid else Items.wire (Items.String sid).
Definition method_items (datafellows : Z) (method : list Z) (have_sig : Z) (alg : list Z) : list Items.item :=
  if has_bug datafellows SSH_BUG_PKAUTH then [Items.Char have_sig] else [Items.String method; Items.Char have_sig; Items.String alg].
Definition request_wire (datafellows : Z) (sid u sv method : list Z) (have_sig : Z) (alg blob : list Z) : list Z :=
  session_wire datafellows sid ++
  concat (map Items.wire ([Items.Char SSH2_MSG_USERAUTH_REQUEST; Items.String u; Items.String sv] ++
                          method_items datafellows method have_sig alg ++ [Items.String blob])).

(** Counting the failures: there is none if and only if no check fails. *)
Lemma bad_zero x y : 0 ≤ x → x + bad y = 0 ↔ x = 0 ∧ y = false.
Proof. unfold bad, b2z. destruct y; intros; split; intros; try lia; try (destruct_and?; lia); by split_and!; lia || done. Qed.
Lemma bad_nonneg x y : 0 ≤ x → 0 ≤ x + bad y.
Proof. unfold bad, b2z. destruct y; lia. Qed.
Lemma strcmp_ne_false a b : strcmp_ne a b = false ↔ a = b.
Proof. unfold strcmp_ne. rewrite negb_false_iff. apply bool_decide_eq_true. Qed.

Ltac no_failure := repeat first [apply bad_nonneg | (unfold bad, b2z; lia) | (unfold bad, b2z; case_match; lia)].

Lemma blob_start data : bytes data → Z.of_nat (length data) ≤ 256 * 1024 →
  ∃ b, buffer_append buffer_init data = Ok b ∧ bwf b ∧ contents b = data.
Proof.
  intros Hb Hl. destruct buffer_init_wf as [Hw H0].
  destruct (Items.append_small buffer_init data) as (b & E & Hwb & Hc & _);
    [done|unfold_consts; lia|change (alloc buffer_init) with 4096; unfold_consts; lia|].
  rewrite H0 in Hc. cbn [app] in Hc. exists b. split; [done|]. unfold bwf. rewrite Hc. done.
Qed.

(** The two steps of the check that depend on the client's version. *)
Section stages.
Context (datafellows : Z).

Definition session_stage (sid : list Z) (b : Buffer) : outcome (Z * Buffer) :=
  if has_bug datafellows SSH_OLD_SESSIONID then
    let l := Z.of_nat (length sid) in
    let f := (buffer_len b <? l) || negb (bool_decide (take (Z.to_nat l) (contents b) = sid)) in
    b ← buffer_consume b l;
    Ok (bad f, b)
  else
    '(p, b) ← buffer_get_string b;
    Ok (bad (negb (bool_decide (Some sid = Some p))), b).

Definition method_stage (fail : Z) (b : Buffer) : outcome (Z * Buffer) :=
  if has_bug datafellows SSH_BUG_PKAUTH then
    '(c, b) ← buffer_get_char b; Ok (fail + bad (c =? 0), b)
  else
    '(p, b) ← buffer_get_string b;
    let fail := fail + bad (strcmp_ne (codes "publickey") (cstr p)) in
    '(c, b) ← buffer_get_char b;
    let fail := fail + bad (c =? 0) in
    b ← buffer_skip_string b;
    Ok (fail, b).

Lemma userblob_stages data sid u :
  monitor_valid_userblob datafellows data (Some sid) (Some u) =
  (b ← buffer_append buffer_init data;
   '(fail, b) ← session_stage sid b;
   '(c, b) ← buffer_get_char b;
   let fail := fail + bad (negb (c =? SSH2_MSG_USERAUTH_REQUEST)) in
   '(p, b) ← buffer_get_string b;
   let fail := fail + bad (strcmp_ne u (cstr p)) in
   b ← buffer_skip_string b;
   '(fail, b) ← method_stage fail b;
   b ← buffer_skip_string b;
   let fail := fail + bad (negb (buffer_len b =? 0)) in
   Ok (fail =? 0)).
Proof. reflexivity. Qed.

Lemma session_stage_inv sid b f b' : bwf b → session_stage sid b = Ok (f, b') →
  bwf b' ∧ 0 ≤ f ∧ (f = 0 → contents b = session_wire datafellows sid ++ contents b').
Proof.
  intros Hb. unfold session_stage, session_wire. destruct (has_bug _ _).
  - intros E. apply bind_Ok in E as (b1 & E & [= <- <-]). apply consumed_inv in E as (Hb1 & Hc & Hl); [|done|lia].
    rewrite Nat2Z.id in *. split; [done|]. split; [apply (bad_nonneg 0); lia|].
    rewrite (buffer_len_contents _ (proj1 Hb)), (proj2 (Z.ltb_ge _ _)) by lia. cbn [orb].
    intros Hz. apply (bad_zero 0) in Hz as [_ Hz]; [|lia].
    apply negb_false_iff, bool_decide_eq_true in Hz. rewrite Hc. rewrite <- Hz at 1. by rewrite take_drop.
  - intros E. apply bind_Ok in E as ([p b1] & E & [= <- <-]). apply get_string_inv in E as (Hb1 & _ & _ & Hc); [|done].
    split; [done|]. split; [apply (bad_nonneg 0); lia|]. intros Hz. apply (bad_zero 0) in Hz as [_ Hz]; [|lia].
    apply negb_false_iff, bool_decide_eq_true in Hz. injection Hz as ->. exact Hc.
Qed.

Lemma session_stage_ok sid b k : wf b → Z.of_nat (length sid) ≤ 256 * 1024 → contents b = session_wire datafellows sid ++ k →
  ∃ b', session_stage sid b = Ok (0, b') ∧ wf b' ∧ contents b' = k.
Proof.
  intros Hw Hl Hc. unfold session_stage, session_wire in *. destruct (has_bug _ _).
  - destruct (got_consume b sid k Hw Hc) as (b2 & E2 & Hw2 & Hc2). exists b2. rewrite E2. cbn [mbind outcome_bind].
    rewrite (proj2 (Z.ltb_ge _ _)) by (rewrite buffer_len_contents, Hc, length_app by done; lia).
    by rewrite Nat2Z.id, Hc, take_app_length, bool_decide_true.
  - got_item Items.got_string lia. rewrite bool_decide_true by done. eauto.
Qed.

Lemma method_stage_inv f b f' b' : bwf b → 0 ≤ f → method_stage f b = Ok (f', b') →
  bwf b' ∧ 0 ≤ f' ∧ (f' = 0 → f = 0 ∧ ∃ m h alg, contents b = concat (map Items.wire (method_items datafellows m h alg)) ++ contents b' ∧
    (has_bug datafellows SSH_BUG_PKAUTH = false → cstr m = codes "publickey") ∧ is_u8 h ∧ h ≠ 0).
Proof.
  intros Hb Hf. unfold method_stage, method_items. destruct (has_bug _ _).
  - intros E. apply bind_Ok in E as ([h b1] & E & [= <- <-]). apply get_char_inv in E as (Hb1 & Hh & Hc); [|done].
    split; [done|]. split; [by apply bad_nonneg|]. intros Hz. apply bad_zero in Hz as [-> Hz]; [|done]. split; [done|].
    apply Z.eqb_neq in Hz. exists [], h, []. cbn [map concat]. by rewrite app_nil_r.
  - intros E. apply bind_Ok in E as ([m b5] & E5 & E). apply get_string_inv in E5 as (Hb5 & _ & _ & Hc5); [|done].
    apply bind_Ok in E as ([h b6] & E6 & E). apply get_char_inv in E6 as (Hb6 & Hh & Hc6); [|done].
    apply bind_Ok in E as (b7 & E7 & [= <- <-]). apply skip_string_inv in E7 as (Hb7 & alg & _ & Hc7); [|done].
    split; [done|]. split; [by repeat apply bad_nonneg|]. rewrite !bad_zero by (try apply bad_nonneg; done).
    intros [[-> E4] E5]. apply strcmp_ne_false in E4. apply Z.eqb_neq in E5. split; [done|]. exists m, h, alg.
    cbn [map concat]. rewrite app_nil_r, Hc5, Hc6, Hc7. by rewrite <- !app_assoc.
Qed.

Lemma method_stage_ok m h alg b k : wf b → is_u8 h → h ≠ 0 →
  (has_bug datafellows SSH_BUG_PKAUTH = false → Z.of_nat (length m) ≤ 256 * 1024 ∧ Z.of_nat (length alg) ≤ 256 * 1024) →
  (has_bug datafellows SSH_BUG_PKAUTH = false → cstr m = codes "publickey") →
  contents b = concat (map Items.wire (method_items datafellows m h alg)) ++ k →
  ∃ b', method_stage 0 b = Ok (0, b') ∧ wf b' ∧ contents b' = k.
Proof.
  intros Hw Hh Hh0 Hl Hpk Hc. unfold method_stage, method_items in *. destruct (has_bug _ _); cbn [map concat] in Hc; rewrite <- ?app_assoc in Hc.
  - got_item Items.got_char done. rewrite (proj2 (Z.eqb_neq h 0)) by done. eauto.
  - destruct Hl as [Hm Ha]; [done|]. got_item Items.got_string lia. got_item Items.got_char done. got_item got_skip lia.
    rewrite Hpk, (proj2 (Z.eqb_neq h 0)) by done. unfold strcmp_ne. rewrite bool_decide_true by done. eauto.
Qed.
End stages.

(** The parts of a request are shorter than the whole. *)
Lemma request_parts df sid u sv m h alg blob n :
  Z.of_nat (length (request_wire df sid u sv m h alg blob)) ≤ n →
  Z.of_nat (length sid) ≤ n ∧ Z.of_nat (length u) ≤ n ∧ Z.of_nat (length sv) ≤ n ∧ Z.of_nat (length blob) ≤ n ∧
  (has_bug df SSH_BUG_PKAUTH = false → Z.of_nat (length m) ≤ n ∧ Z.of_nat (length alg) ≤ n).
Proof.
  unfold request_wire, session_wire, method_items. destruct (has_bug df SSH_OLD_SESSIONID), (has_bug df SSH_BUG_PKAUTH);
    cbn [app map concat Items.wire]; repeat (rewrite length_app || cbn [length put_u32]); intros; split_and!; lia || done || split; lia.
Qed.

(** C14: The monitor has a signature verified only over the data of a public key
    request with a signature, for the session it knows and the user that was
    looked up, and over all such data: what it accepts is exactly the encoding
    of these requests, whatever compatibility flags the client's version sets.
    The method must be "publickey" where the request names one (without
    [SSH_BUG_PKAUTH]); the session id is compared in both of its encodings.
    The service, the algorithm and the key blob are not looked at here; the
    data are of at most 256 KB, as a message to the monitor is. *)
Theorem userblob_exact datafellows data sid u :
  bytes data → Z.of_nat (length data) ≤ 256 * 1024 →
  monitor_valid_userblob datafellows data (Some sid) (Some u) = Ok true ↔
  ∃ u' sv method have_sig alg blob, data = request_wire datafellows sid u' sv method have_sig alg blob ∧
    cstr u' = u ∧ (has_bug datafellows SSH_BUG_PKAUTH = false → cstr method = codes "publickey") ∧ is_u8 have_sig ∧ have_sig ≠ 0.
Proof.
  intros Hd Hl. destruct (blob_start data Hd Hl) as (b & Eb & Hb & Hc). rewrite userblob_stages, Eb. cbn [mbind outcome_bind]. split.
  - intros E. apply bind_Ok in E as ([f b1] & E1 & E). apply session_stage_inv in E1 as (Hb1 & Hf & Hc1); [|done].
    apply bind_Ok in E as ([c b2] & E2 & E). apply get_char_inv in E2 as (Hb2 & Hcu & Hc2); [|done].
    apply bind_Ok in E as ([u' b3] & E3 & E). apply get_string_inv in E3 as (Hb3 & _ & _ & Hc3); [|done].
    apply bind_Ok in E as (b4 & E4 & E). apply skip_string_inv in E4 as (Hb4 & sv & _ & Hc4); [|done].
    apply bind_Ok in E as ([f' b5] & E5 & E). apply method_stage_inv in E5 as (Hb5 & Hf' & Hc5); [|done|by repeat apply bad_nonneg].
    apply bind_Ok in E as (b6 & E6 & [= E]). apply skip_string_inv in E6 as (Hb6 & blob & _ & Hc6); [|done].
    apply Z.eqb_eq, bad_zero in E as [Ez E]; [|done]. apply Hc5 in Ez as [Ez (m & h & alg & Hc5' & Hm & Hh & Hh0)].
    rewrite !bad_zero in Ez by (try apply bad_nonneg; done). destruct Ez as [[Ez Ec] Eu]. apply Hc1 in Ez.
    apply negb_false_iff, Z.eqb_eq in Ec. apply strcmp_ne_false in Eu. apply negb_false_iff, Z.eqb_eq in E.
    rewrite (buffer_len_contents _ (proj1 Hb6)) in E. assert (contents b6 = []) as Hc9 by (apply nil_length_inv; lia).
    exists u', sv, m, h, alg, blob. subst c. split_and!; try done. unfold request_wire. cbn [app map concat].
    rewrite map_app, concat_app. cbn [map concat]. by rewrite <- Hc, Ez, Hc2, Hc3, Hc4, Hc5', Hc6, Hc9.
  - intros (u' & sv & m & h & alg & blob & -> & <- & Hm & Hh & Hh0).
    destruct (request_parts _ _ _ _ _ _ _ _ _ Hl) as (Ls & Lu & Lv & Lb & Lm). unfold request_wire in Hc.
    destruct Hb as [Hwb _]. destruct (session_stage_ok datafellows sid b _ Hwb Ls Hc) as (b1 & -> & Hw1 & Hc1).
    cbn [app map concat] in Hc1. rewrite map_app, concat_app in Hc1. cbn [mbind outcome_bind].
    got_item Items.got_char done. got_item Items.got_string lia. got_item got_skip lia.
    unfold strcmp_ne. rewrite bool_decide_true by done. cbn [negb].
    match goal with Hw : wf ?b, Hc : contents ?b = _ |- _ =>
      destruct (method_stage_ok datafellows m h alg b _ Hw Hh Hh0 Lm Hm Hc) as (b5 & E5 & Hw5 & Hc5) end.
    change (0 + bad _ + bad _) with 0. rewrite E5. cbn [mbind outcome_bind]. cbn [map concat] in Hc5.
    got_item got_skip lia. match goal with Hw : wf ?b, Hc : contents ?b = [] |- _ => by rewrite (buffer_len_contents _ Hw), Hc end.
Qed.

(** ** Runs *)


Module MonitorDemo.
Import Toy.
#[local] Existing Instance Auth2Demo.toy.
#[local] Existing Instance ZBignum.z_bignum.

Definition priv : Privileged := {|
  hostkey := unit; host_keys := [Some tt];
  choose_dh := λ _ _ _ _, None;
  key_sign := λ _ _ p, Some p;
  ssh1_session_key := λ _ p, (0, p);
  auth_rsa_key_allowed := λ _ _ n, (1, Some (codes "rsa key"), false);
  auth_rhosts_rsa_key_allowed := λ _ _ _ _ _, 0;
  key_to_blob := λ k, Some k;
  key_with_type := λ k _, k;
  key_rsa_n := λ k, Some (2 ^ 1000 + 1);
  BN_rand256 := λ t, 2 ^ 255 + Z.of_nat t;
  BN_mod := λ a b, a mod b;
  MD5 := λ l, take 16 (rev l);
  sizeof_passwd_bytes := λ _, replicate 48 0;
  sizeof_options_bytes := replicate 64 0;
  match_string_opts := [];
  peername_ok := λ _, true; record_login_msg := λ _, []; dup2_ok := λ _, true; send_fds_ok := λ _, true; open_devnull_ok := λ _, true;
  child_status := Some 0; m_pid := 4711
|}.
#[local] Existing Instance priv.
#[local] Instance priv_ok : PrivilegedOk.
Proof. split; intros; by eexists. Qed.

Definition frame (type : Z) (its : list Items.item) : list Z :=
  let p := concat (map Items.wire its) in put_u32 (Z.of_nat (length p) + 1) ++ [type] ++ p.
Definition sid : list Z := replicate 20 9.
Definition sign_req := frame MONITOR_REQ_SIGN [Items.Int 0; Items.String sid].
Definition pwnam_req := frame MONITOR_REQ_PWNAM [Items.String (codes "alice")].
Definition authserv_req := frame MONITOR_REQ_AUTHSERV [Items.String (codes "ssh-connection"); Items.String []].
Definition password_req (p : String.string) := frame MONITOR_REQ_AUTHPASSWORD [Items.String (codes p)].
Definition blob : list Z := codes "alice's key".
Definition data (u : String.string) : list Z :=
  request_wire 0 sid (codes u) (codes "ssh-connection") (codes "publickey") 1 (codes "ssh-rsa") blob.
Definition keyallowed_req := frame MONITOR_REQ_KEYALLOWED [Items.Int MM_USERKEY; Items.String []; Items.String []; Items.String blob].
Definition keyverify_req (u : String.string) := frame MONITOR_REQ_KEYVERIFY [Items.String blob; Items.String (blob ++ data u); Items.String (data u)].
Definition keyexport_req : list Z := Eval vm_compute in
  match mm_send_keystate KeyStateDemo.ptrs true KeyStateDemo.demo_net (replicate 16 1) (replicate 16 2) with
  | Ok m => put_u32 (buffer_len m + 1) ++ [MONITOR_REQ_KEYEXPORT] ++ contents m | _ => [] end.

Definition start (input : list Z) : mon :=
  mkMon authctxt_zero [] None MM_NOKEY None None (codes "unknown") None None [] false 0 [] true input [] [] [] 0%nat sess_init KeyStateDemo.demo_n0.
Definition ready (n : nat) : list poll_result := replicate n (Poll_ready false true).
Abbreviation preauth n input := (monitor_child_preauth Auth2Demo.opts SessionDemo.E 0 true KeyStateDemo.ptrs 8 112 (ready n) (start input)).
Abbreviation preauth1 n input := (monitor_child_preauth Auth2Demo.opts SessionDemo.E 0 false KeyStateDemo.ptrs 8 112 (ready n) (start input)).

Definition login_with_key : list Z := sign_req ++ pwnam_req ++ authserv_req ++ keyallowed_req ++ keyverify_req "alice" ++ keyexport_req.
Definition login_with_password : list Z := sign_req ++ pwnam_req ++ authserv_req ++ password_req "guess" ++ password_req "secret" ++ keyexport_req.
Definition let_through (o : outcome (bool * mon)) : bool := match o with Ok (b, _) => b | _ => false end.
Definition failed (o : outcome (bool * mon)) : bool := match o with Fatal _ => true | _ => false end.

Lemma start_ok input : bytes input → started (start input).
Proof. intros Hb. split_and!; try done. constructor. Qed.

Lemma monitor_preauth_sound_witness :
  ∃ s, preauth 5 login_with_key = Ok (true, s) ∧ authorised Auth2Demo.opts 0 s.
Proof.
  assert (B : let_through (preauth 5 login_with_key) = true) by (vm_compute; reflexivity).
  destruct (preauth 5 login_with_key) as [[b s]| | | | |] eqn:R; try discriminate B. cbn in B. subst b. exists s. split; [reflexivity|].
  apply (monitor_preauth_sound Auth2Demo.opts SessionDemo.E 0 true KeyStateDemo.ptrs 8 112 (ready 5) (start login_with_key) s).
  - apply start_ok. apply (bool_decide_unpack _). vm_compute. exact I.
  - apply Z.leb_le. vm_compute. reflexivity.
  - exact R.
Defined.

Lemma monitor_preauth_no_crash_witness :
  preauth 7 [0; 0; 0; 1; 22] ≠ Fault ∧ preauth 7 [0; 0; 0; 1; 22] ≠ NoFuel.
Proof.
  apply (monitor_preauth_no_crash Auth2Demo.opts SessionDemo.E 0 true KeyStateDemo.ptrs 8 112 (ready 7) (start [0; 0; 0; 1; 22])).
  - apply start_ok. apply (bool_decide_unpack _). vm_compute. exact I.
  - apply Z.leb_le. vm_compute. reflexivity.
Defined.

Definition old : Z := Z.lor SSH_OLD_SESSIONID SSH_BUG_PKAUTH.
Definition old_data (sid : list Z) : list Z := request_wire old sid (codes "alice") (codes "ssh-connection") [] 1 [] blob.

Lemma userblob_exact_witness :
  monitor_valid_userblob 0 (data "alice") (Some sid) (Some (codes "alice")) = Ok true ∧
  monitor_valid_userblob 0 (data "bob") (Some sid) (Some (codes "alice")) ≠ Ok true ∧
  monitor_valid_userblob old (old_data sid) (Some sid) (Some (codes "alice")) = Ok true ∧
  monitor_valid_userblob old (old_data (replicate 20 8)) (Some sid) (Some (codes "alice")) ≠ Ok true.
Proof.
  split_and!.
  - apply (userblob_exact 0 (data "alice") sid (codes "alice")).
    + apply (bool_decide_unpack _). vm_compute. exact I.
    + apply Z.leb_le. vm_compute. reflexivity.
    + exists (codes "alice"), (codes "ssh-connection"), (codes "publickey"), 1, (codes "ssh-rsa"), blob. split_and!; [reflexivity..|unfold is_u8; lia|lia].
  - intros Hv. vm_compute in Hv. discriminate Hv.
  - apply (userblob_exact old (old_data sid) sid (codes "alice")).
    + apply (bool_decide_unpack _). vm_compute. exact I.
    + apply Z.leb_le. vm_compute. reflexivity.
    + exists (codes "alice"), (codes "ssh-connection"), [], 1, [], blob. split_and!; [reflexivity..|intros H; discriminate H|unfold is_u8; lia|lia].
  - intros Hv. vm_compute in Hv. discriminate Hv.
Defined.

(** The other ways: a password; a signature for another user; a request for a
    password before the user is known. *)
Example login_with_password_ok : let_through (preauth 5 login_with_password) = true.
Proof. vm_compute. reflexivity. Qed.
Example signature_for_another_user :
  failed (preauth 5 (sign_req ++ pwnam_req ++ authserv_req ++ keyallowed_req ++ keyverify_req "bob")) = true.
Proof. vm_compute. reflexivity. Qed.
Example password_too_early : failed (preauth 5 (sign_req ++ password_req "secret")) = true.
Proof. vm_compute. reflexivity. Qed.
Example second_user : failed (preauth 5 (sign_req ++ pwnam_req ++ pwnam_req)) = true.
Proof. vm_compute. reflexivity. Qed.

(** Protocol 1: the response to a challenge for an RSA key. *)
Definition sid1 : list Z := replicate 16 3.
Definition login_with_rsa : list Z :=
  frame MONITOR_REQ_SESSKEY [Items.String [1; 2; 3]] ++ frame MONITOR_REQ_SESSID (map Items.Char sid1) ++ pwnam_req ++
  frame MONITOR_REQ_RSAKEYALLOWED [Items.String [77]] ++ frame MONITOR_REQ_RSACHALLENGE [Items.String (codes "rsa key")] ++
  frame MONITOR_REQ_RSARESPONSE [Items.String (codes "rsa key"); Items.String (take 16 (rev sid1))] ++
  frame MONITOR_REQ_KEYEXPORT ([Items.Int 0; Items.Int 3; Items.String []; Items.String []; Items.String []; Items.String []; Items.String []] ++
    [Items.String (replicate 112 0); Items.String (replicate 112 0); Items.String []; Items.String []]).
Example login_with_rsa_ok :
  match preauth1 6 login_with_rsa with Ok (true, s) => auth_method s = codes "rsa" | _ => False end.
Proof. vm_compute. reflexivity. Qed.

(** When no group of the wanted size is known, the monitor does not answer, and
    the child, which reads an answer with a first byte 0 as "none", waits. *)
Example moduli_without_answer :
  match preauth 1 (frame MONITOR_REQ_MODULI [Items.Int 1024; Items.Int 2048; Items.Int 4096]) with
  | Ok (b, s) => b = false ∧ tx s = [] ∧ m_now s = 1%nat
  | _ => False
  end.
Proof. vm_compute. repeat split. Qed.
End MonitorDemo.
