(* ===== verification/Base64.v ===== *)
(** * Base 64 ([openbsd-compat/base64.c], [uuencode.c])

    The encoding of binary data as text that key files use.  The arrays the C
    functions write to are arguments and results, and a write outside of them
    would be a [Fault].  The theorem: decoding gives back what was encoded, and
    neither direction leaves its array. *)

From S2P Require Import Prelude ByteOrder Stdio Match.

Definition Base64 : list Z :=
  Eval vm_compute in codes "ABCDEFGHIJKLMNOPQRSTUVWXYZabcdefghijklmnopqrstuvwxyz0123456789+/".
Definition Pad64 : Z := 61.

(** ** Encoding *)

(** [target[datalength++] = c] for some characters. *)
Fixpoint store (target : list Z) (datalength : Z) (cs : list Z) : outcome (list Z * Z) :=
  match cs with
  | [] => Ok (target, datalength)
  | c :: cs => target ← zset target datalength c; store target (datalength + 1) cs
  end.

(** Result -1 is [None]. *)
Fixpoint ntop_loop (src target : list Z) (datalength : Z) : outcome (option (list Z * list Z * Z)) :=
  match src with
  | i0 :: i1 :: i2 :: src =>
      let o0 := Z.shiftr i0 2 in
      let o1 := u8 (Z.shiftl (Z.land i0 0x03) 4 + Z.shiftr i1 4) in
      let o2 := u8 (Z.shiftl (Z.land i1 0x0f) 2 + Z.shiftr i2 6) in
      let o3 := Z.land i2 0x3f in
      if Z.of_nat (length target) <? datalength + 4 then Ok None
      else
        c0 ← zget Base64 o0; c1 ← zget Base64 o1; c2 ← zget Base64 o2; c3 ← zget Base64 o3;
        '(target, datalength) ← store target datalength [c0; c1; c2; c3];
        ntop_loop src target datalength
  | _ => Ok (Some (src, target, datalength))
  end.

(** The last one or two bytes. *)
Definition ntop_tail (src target : list Z) (datalength : Z) : outcome (option (list Z * Z)) :=
  match src with
  | [] => Ok (Some (target, datalength))
  | _ =>
      let i0 := byte_at src 0 in
      let i1 := byte_at src 1 in
      let o0 := Z.shiftr i0 2 in
      let o1 := u8 (Z.shiftl (Z.land i0 0x03) 4 + Z.shiftr i1 4) in
      let o2 := u8 (Z.shiftl (Z.land i1 0x0f) 2 + Z.shiftr 0 6) in
      if Z.of_nat (length target) <? datalength + 4 then Ok None
      else
        c0 ← zget Base64 o0; c1 ← zget Base64 o1;
        c2 ← (if (length src =? 1)%nat then Ok Pad64 else zget Base64 o2);
        '(target, datalength) ← store target datalength [c0; c1; c2; Pad64];
        Ok (Some (target, datalength))
  end.

(** The return value and the array. *)
Definition b64_ntop (src target : list Z) : outcome (Z * list Z) :=
  let targsize := Z.of_nat (length target) in
  r ← ntop_loop src target 0;
  match r with
  | None => Ok (-1, target)
  | Some (src, target, datalength) =>
      r ← ntop_tail src target datalength;
      match r with
      | None => Ok (-1, target)
      | Some (target, datalength) =>
          if targsize <=? datalength then Ok (-1, target)
          else target ← zset target datalength 0; Ok (datalength, target)
      end
  end.

Definition uuencode (src target : list Z) : outcome (Z * list Z) := b64_ntop src target.

(** ** Decoding *)

Definition isspace (c : Z) : bool := (c =? 32) || ((9 <=? c) && (c <=? 13)).

(** [strchr(Base64, ch) - Base64] *)
Definition digit (ch : Z) : option Z := (Z.of_nat ∘ fst) <$> list_find (λ c, c = ch) Base64.

(** Where the first loop stopped: at the end, at a pad character (with the rest
    behind it), or at an error. *)
Inductive pton_end := Pton_end (state tarindex : Z) | Pton_pad (rest : list Z) (state tarindex : Z) | Pton_error.

Definition or_at (target : list Z) (i x : Z) : outcome (list Z) := v ← zget target i; zset target i (u8 (Z.lor v x)).

Fixpoint pton_loop (src target : list Z) (state tarindex : Z) : outcome (pton_end * list Z) :=
  let targsize := Z.of_nat (length target) in
  match src with
  | [] => Ok (Pton_end state tarindex, target)
  | ch :: src =>
      if isspace ch then pton_loop src target state tarindex
      else if ch =? Pad64 then Ok (Pton_pad src state tarindex, target)
      else match digit ch with
      | None => Ok (Pton_error, target)
      | Some pos =>
          if state =? 0 then
            if targsize <=? tarindex then Ok (Pton_error, target)
            else
              target ← zset target tarindex (u8 (Z.shiftl pos 2));
              pton_loop src target 1 tarindex
          else if state =? 1 then
            if targsize <=? tarindex + 1 then Ok (Pton_error, target)
            else
              target ← or_at target tarindex (Z.shiftr pos 4);
              target ← zset target (tarindex + 1) (u8 (Z.shiftl (Z.land pos 0x0f) 4));
              pton_loop src target 2 (tarindex + 1)
          else if state =? 2 then
            if targsize <=? tarindex + 1 then Ok (Pton_error, target)
            else
              target ← or_at target tarindex (Z.shiftr pos 2);
              target ← zset target (tarindex + 1) (u8 (Z.shiftl (Z.land pos 0x03) 6));
              pton_loop src target 3 (tarindex + 1)
          else
            if targsize <=? tarindex then Ok (Pton_error, target)
            else
              target ← or_at target tarindex pos;
              pton_loop src target 0 (tarindex + 1)
      end
  end.

Fixpoint skip_spaces (s : list Z) : list Z :=
  match s with c :: s' => if isspace c then skip_spaces s' else s | [] => [] end.

Definition b64_pton (src target : list Z) : outcome (Z * list Z) :=
  '(e, target) ← pton_loop src target 0 0;
  let slack rest tarindex :=
    if negb (bool_decide (skip_spaces rest = [])) then Ok (-1, target)
    else v ← zget target tarindex; Ok (if negb (v =? 0) then -1 else tarindex, target) in
  match e with
  | Pton_error => Ok (-1, target)
  | Pton_end state tarindex => Ok (if negb (state =? 0) then -1 else tarindex, target)
  | Pton_pad rest state tarindex =>
      if (state =? 0) || (state =? 1) then Ok (-1, target)
      else if state =? 2 then
        match skip_spaces rest with
        | ch :: rest => if ch =? Pad64 then slack rest tarindex else Ok (-1, target)
        | [] => Ok (-1, target)
        end
      else slack rest tarindex
  end.

Definition is_blank (c : Z) : bool := (c =? 32) || (c =? 9).
Fixpoint span_blank (s : list Z) : list Z * list Z :=
  match s with c :: s' => if is_blank c then let '(a, b) := span_blank s' in (c :: a, b) else ([], s) | [] => ([], []) end.
Fixpoint upto_blank (s : list Z) : list Z :=
  match s with c :: s' => if is_blank c then [] else c :: upto_blank s' | [] => [] end.

Definition uudecode (src target : list Z) : outcome (Z * list Z) :=
  let '(blank, data) := span_blank src in
  b64_pton (blank ++ upto_blank data) target.

(** ** The text *)

Definition b64_char (o : Z) : Z := byte_at Base64 (Z.to_nat o).
Fixpoint b64_text (src : list Z) : list Z :=
  match src with
  | [] => []
  | [a] => [b64_char (a / 4); b64_char (a mod 4 * 16); Pad64; Pad64]
  | [a; b] => [b64_char (a / 4); b64_char (a mod 4 * 16 + b / 16); b64_char (b mod 16 * 4); Pad64]
  | a :: b :: c :: src =>
      [b64_char (a / 4); b64_char (a mod 4 * 16 + b / 16); b64_char (b mod 16 * 4 + c / 64); b64_char (c mod 64)] ++ b64_text src
  end.

(** Every digit is found at its place, and is neither a space nor the pad. *)
Definition char_ok (o : Z) : bool :=
  match zget Base64 o with Ok c => c =? b64_char o | _ => false end && bool_decide (digit (b64_char o) = Some o) &&
  negb (isspace (b64_char o)) && negb (b64_char o =? Pad64).
Lemma chars_ok : forallb char_ok (seqZ 0 64) = true.
Proof. vm_compute. reflexivity. Qed.
Lemma b64_char_digit o : 0 ≤ o < 64 →
  zget Base64 o = Ok (b64_char o) ∧ digit (b64_char o) = Some o ∧ isspace (b64_char o) = false ∧ (b64_char o =? Pad64) = false.
Proof.
  intros Ho. assert (char_ok o = true) as Hc.
  { apply (proj1 (forallb_forall _ _) chars_ok), list_elem_of_In, elem_of_seqZ. lia. }
  unfold char_ok in Hc. rewrite !andb_true_iff, bool_decide_eq_true, !negb_true_iff in Hc. destruct Hc as [[[Hz Hd] Hs] Hp].
  split_and!; [|done..]. destruct (zget Base64 o); try discriminate. f_equal. lia.
Qed.

(** Arithmetic for the shifts and masks. *)
Ltac bits_to_arith :=
  rewrite ?Z.shiftr_div_pow2, ?Z.shiftl_mul_pow2 by lia;
  repeat match goal with
  | |- context [Z.land ?x 3] => change 3 with (Z.ones 2); rewrite (Z.land_ones x 2) by lia
  | |- context [Z.land ?x 15] => change 15 with (Z.ones 4); rewrite (Z.land_ones x 4) by lia
  | |- context [Z.land ?x 63] => change 63 with (Z.ones 6); rewrite (Z.land_ones x 6) by lia
  end;
  change (2 ^ 2) with 4; change (2 ^ 4) with 16; change (2 ^ 6) with 64.
Ltac euclid := Z.to_euclidean_division_equations; lia.

Lemma enc0 a : Z.shiftr a 2 = a / 4.
Proof. by bits_to_arith. Qed.
Lemma enc1 a b : is_u8 a → is_u8 b → u8 (Z.shiftl (Z.land a 0x03) 4 + Z.shiftr b 4) = a mod 4 * 16 + b / 16.
Proof. unfold is_u8. intros Ha Hb. bits_to_arith. rewrite u8_small; [done|euclid]. Qed.
Lemma enc2 b c : is_u8 b → is_u8 c → u8 (Z.shiftl (Z.land b 0x0f) 2 + Z.shiftr c 6) = b mod 16 * 4 + c / 64.
Proof. unfold is_u8. intros Hb Hc. bits_to_arith. rewrite u8_small; [done|euclid]. Qed.
Lemma enc3 c : Z.land c 0x3f = c mod 64.
Proof. by bits_to_arith. Qed.

Lemma dec_or n hi lo : 0 ≤ n → 0 ≤ lo < 2 ^ n → 0 ≤ hi → hi * 2 ^ n + lo < 256 →
  u8 (Z.lor (hi * 2 ^ n) lo) = hi * 2 ^ n + lo.
Proof.
  intros Hn Hlo Hhi Hs. rewrite <- Z.shiftl_mul_pow2, lor_shiftl_add, Z.shiftl_mul_pow2 by lia. apply u8_small. lia.
Qed.
Lemma dec0 a b : is_u8 a → is_u8 b →
  u8 (Z.lor (u8 (Z.shiftl (a / 4) 2)) (Z.shiftr (a mod 4 * 16 + b / 16) 4)) = a.
Proof.
  unfold is_u8. intros Ha Hb. bits_to_arith. rewrite (u8_small (a / 4 * 4)) by euclid.
  replace ((a mod 4 * 16 + b / 16) / 16) with (a mod 4) by euclid.
  change 4 with (2 ^ 2). rewrite dec_or; change (2 ^ 2) with 4; euclid.
Qed.
Lemma dec1 a b c : is_u8 a → is_u8 b → is_u8 c →
  u8 (Z.lor (u8 (Z.shiftl (Z.land (a mod 4 * 16 + b / 16) 0x0f) 4)) (Z.shiftr (b mod 16 * 4 + c / 64) 2)) = b.
Proof.
  unfold is_u8. intros Ha Hb Hc. bits_to_arith.
  replace ((a mod 4 * 16 + b / 16) mod 16) with (b / 16) by euclid.
  rewrite (u8_small (b / 16 * 16)) by euclid. replace ((b mod 16 * 4 + c / 64) / 4) with (b mod 16) by euclid.
  change 16 with (2 ^ 4). rewrite dec_or; change (2 ^ 4) with 16; euclid.
Qed.
Lemma dec2 b c : is_u8 b → is_u8 c →
  u8 (Z.lor (u8 (Z.shiftl (Z.land (b mod 16 * 4 + c / 64) 0x03) 6)) (c mod 64)) = c.
Proof.
  unfold is_u8. intros Hb Hc. bits_to_arith.
  replace ((b mod 16 * 4 + c / 64) mod 4) with (c / 64) by euclid. rewrite (u8_small (c / 64 * 64)) by euclid.
  change 64 with (2 ^ 6). rewrite dec_or; change (2 ^ 6) with 64; euclid.
Qed.

(** ** Encoding writes the text *)

Lemma list_ind3 {A} (P : list A → Prop) :
  P [] → (∀ a, P [a]) → (∀ a b, P [a; b]) → (∀ a b c l, P l → P (a :: b :: c :: l)) → ∀ l, P l.
Proof. intros H0 H1 H2 H3. fix IH 1. intros [|a [|b [|c l]]]; [done|apply H1|apply H2|apply H3, IH]. Qed.

Lemma store_spec cs : ∀ pre mid rest, length mid = length cs →
  store (pre ++ mid ++ rest) (Z.of_nat (length pre)) cs = Ok (pre ++ cs ++ rest, Z.of_nat (length pre) + Z.of_nat (length cs)).
Proof.
  induction cs as [|c cs IH]; intros pre [|m mid] rest Hl; try discriminate; cbn [store]; [f_equal; f_equal; simpl; lia|].
  cbn [app]. rewrite zset_app_mid. cbn [mbind outcome_bind]. injection Hl as Hl.
  specialize (IH (pre ++ [c]) mid rest Hl). rewrite <- !app_assoc, length_app, Nat2Z.inj_add in IH. cbn [app length] in IH.
  change (Z.of_nat 1) with 1 in IH. rewrite IH. cbn [length]. f_equal. f_equal. lia.
Qed.

Lemma split_front {A} n (l : list A) : (n ≤ length l)%nat → ∃ mid rest, l = mid ++ rest ∧ length mid = n.
Proof. intros Hn. exists (take n l), (drop n l). rewrite take_drop, length_take. split; [done|lia]. Qed.

Lemma ntop_loop_spec src : bytes src → ∀ pre rest, Z.of_nat (length (b64_text src)) ≤ Z.of_nat (length rest) →
  ∃ text rest' tl, ntop_loop src (pre ++ rest) (Z.of_nat (length pre)) =
      Ok (Some (tl, pre ++ text ++ rest', Z.of_nat (length pre) + Z.of_nat (length text))) ∧
    length rest = (length text + length rest')%nat ∧ bytes tl ∧ (length tl < 3)%nat ∧ b64_text src = text ++ b64_text tl.
Proof.
  induction src as [|a|a b|a b c src IH] using list_ind3; intros Hb pre rest Hr.
  1-3: exists [], rest; eexists; split; [cbn [ntop_loop app length]; rewrite Z.add_0_r; reflexivity|]; split_and!; try done; simpl; lia.
  apply Forall_cons in Hb as [Ha Hb]. apply Forall_cons in Hb as [Hb Hc]. apply Forall_cons in Hc as [Hc Hs].
  cbn [b64_text] in Hr. rewrite length_app in Hr. cbn [length] in Hr.
  destruct (split_front 4 rest) as (mid & rest1 & -> & Hm); [lia|]. rewrite length_app in Hr.
  cbn [ntop_loop]. rewrite enc0, enc1, enc2, enc3 by done. rewrite !length_app, (proj2 (Z.ltb_ge _ _)) by lia. unfold is_u8 in *.
  destruct (b64_char_digit (a / 4)) as (-> & _); [euclid|]. cbn [mbind outcome_bind].
  destruct (b64_char_digit (a mod 4 * 16 + b / 16)) as (-> & _); [euclid|]. cbn [mbind outcome_bind].
  destruct (b64_char_digit (b mod 16 * 4 + c / 64)) as (-> & _); [euclid|]. cbn [mbind outcome_bind].
  destruct (b64_char_digit (c mod 64)) as (-> & _); [euclid|]. cbn [mbind outcome_bind].
  set (q := [b64_char (a / 4); _; _; _]). rewrite (store_spec q) by done. cbn [mbind outcome_bind].
  destruct (IH Hs (pre ++ q) rest1 ltac:(lia)) as (text & rest' & tl & E & Hl & Hb' & Ht & Htext).
  rewrite <- !app_assoc, length_app, Nat2Z.inj_add in E. exists (q ++ text), rest', tl.
  rewrite <- app_assoc. rewrite E. split_and!; [|rewrite length_app; simpl length; lia|done..|].
  - rewrite length_app. f_equal. f_equal. f_equal. lia.
  - cbn [b64_text]. fold q. rewrite Htext. done.
Qed.

Lemma ntop_tail_spec tl pre mid rest :
  bytes tl → (length tl < 3)%nat → length mid = length (b64_text tl) →
  ntop_tail tl (pre ++ mid ++ rest) (Z.of_nat (length pre)) =
    Ok (Some (pre ++ b64_text tl ++ rest, Z.of_nat (length pre) + Z.of_nat (length (b64_text tl)))).
Proof.
  intros Htl Hn Hm. destruct tl as [|a [|b [|]]]; [| | |simpl in Hn; lia].
  - destruct mid; [|done]. cbn [ntop_tail b64_text app length]. by rewrite Z.add_0_r.
  - apply Forall_cons in Htl as [Ha _]. cbn [ntop_tail b64_text length] in *. rewrite !length_app, (proj2 (Z.ltb_ge _ _)) by lia.
    unfold byte_at. cbn [nth]. rewrite enc0, enc1 by done. change (0 / 16) with 0. rewrite !Z.add_0_r. unfold is_u8 in *.
    destruct (b64_char_digit (a / 4)) as (-> & _); [euclid|]. destruct (b64_char_digit (a mod 4 * 16)) as (-> & _); [euclid|].
    cbn [mbind outcome_bind Nat.eqb]. rewrite store_spec by done. done.
  - apply Forall_cons in Htl as [Ha Htl]. apply Forall_cons in Htl as [Hb _]. cbn [ntop_tail b64_text length] in *.
    rewrite !length_app, (proj2 (Z.ltb_ge _ _)) by lia. unfold byte_at. cbn [nth]. rewrite enc0, enc1, enc2 by done.
    change (0 / 64) with 0. rewrite !Z.add_0_r. unfold is_u8 in *.
    destruct (b64_char_digit (a / 4)) as (-> & _); [euclid|]. destruct (b64_char_digit (a mod 4 * 16 + b / 16)) as (-> & _); [euclid|].
    destruct (b64_char_digit (b mod 16 * 4)) as (-> & _); [euclid|].
    cbn [mbind outcome_bind Nat.eqb]. rewrite store_spec by done. done.
Qed.

Lemma b64_ntop_spec src target : bytes src → Z.of_nat (length (b64_text src)) < Z.of_nat (length target) →
  ∃ rest, b64_ntop src target = Ok (Z.of_nat (length (b64_text src)), b64_text src ++ 0 :: rest) ∧
    length target = (length (b64_text src) + S (length rest))%nat.
Proof.
  intros Hb Hl. destruct (ntop_loop_spec src Hb [] target ltac:(lia)) as (text & rest & tl & E & Hlen & Htl & Hn & Ht).
  cbn [app length] in E. change (Z.of_nat 0) with 0 in E. rewrite Z.add_0_l in E.
  unfold b64_ntop. rewrite E. cbn [mbind outcome_bind]. rewrite Ht, length_app in *.
  destruct (split_front (length (b64_text tl)) rest) as (mid & rest' & -> & Hm); [lia|].
  rewrite ntop_tail_spec by done. cbn [mbind outcome_bind]. rewrite length_app in Hlen.
  destruct rest' as [|x rest']; [simpl in Hlen; lia|]. rewrite (proj2 (Z.leb_gt _ _)) by lia.
  rewrite app_assoc, <- Nat2Z.inj_add, <- length_app, zset_app_mid. cbn [mbind outcome_bind].
  exists rest'. split; [done|]. rewrite length_app. simpl in Hlen. lia.
Qed.

(** ** Decoding reads it *)

Lemma or_at_mid pre v rest x :
  or_at (pre ++ v :: rest) (Z.of_nat (length pre)) x = Ok (pre ++ u8 (Z.lor v x) :: rest).
Proof. unfold or_at. rewrite zget_app_mid. cbn [mbind outcome_bind]. apply zset_app_mid. Qed.
Lemma zset_next {A} (pre : list A) v w rest x :
  zset (pre ++ v :: w :: rest) (Z.of_nat (length pre) + 1) x = Ok (pre ++ v :: x :: rest).
Proof.
  replace (pre ++ v :: w :: rest) with ((pre ++ [v]) ++ w :: rest) by (by rewrite <- app_assoc).
  replace (Z.of_nat (length pre) + 1) with (Z.of_nat (length (pre ++ [v]))) by (rewrite length_app; simpl; lia).
  rewrite zset_app_mid. by rewrite <- app_assoc.
Qed.

(** One digit in each of the four states. *)
Section Digits.
Context (o : Z) (src pre : list Z).
Hypothesis Ho : 0 ≤ o < 64.

Ltac one_digit :=
  cbn [pton_loop]; destruct (b64_char_digit o Ho) as (_ & -> & -> & ->); cbn [Z.eqb Pos.eqb];
  rewrite length_app; cbn [length]; rewrite (proj2 (Z.leb_gt _ _)) by lia.

Lemma pton_0 v rest :
  pton_loop (b64_char o :: src) (pre ++ v :: rest) 0 (Z.of_nat (length pre)) =
  pton_loop src (pre ++ u8 (Z.shiftl o 2) :: rest) 1 (Z.of_nat (length pre)).
Proof. one_digit. by rewrite zset_app_mid. Qed.
Lemma pton_1 v w rest :
  pton_loop (b64_char o :: src) (pre ++ v :: w :: rest) 1 (Z.of_nat (length pre)) =
  pton_loop src (pre ++ u8 (Z.lor v (Z.shiftr o 4)) :: u8 (Z.shiftl (Z.land o 0x0f) 4) :: rest) 2 (Z.of_nat (length pre) + 1).
Proof. one_digit. rewrite or_at_mid. cbn [mbind outcome_bind]. by rewrite zset_next. Qed.
Lemma pton_2 v w rest :
  pton_loop (b64_char o :: src) (pre ++ v :: w :: rest) 2 (Z.of_nat (length pre)) =
  pton_loop src (pre ++ u8 (Z.lor v (Z.shiftr o 2)) :: u8 (Z.shiftl (Z.land o 0x03) 6) :: rest) 3 (Z.of_nat (length pre) + 1).
Proof. one_digit. rewrite or_at_mid. cbn [mbind outcome_bind]. by rewrite zset_next. Qed.
Lemma pton_3 v rest :
  pton_loop (b64_char o :: src) (pre ++ v :: rest) 3 (Z.of_nat (length pre)) =
  pton_loop src (pre ++ u8 (Z.lor v o) :: rest) 0 (Z.of_nat (length pre) + 1).
Proof. one_digit. by rewrite or_at_mid. Qed.
End Digits.

(** The end of a text: at the end of the string, or in its padding, with the
    bits that were left over in the next byte. *)
Definition pton_done (src : list Z) (n : Z) : pton_end :=
  match (length src `mod` 3)%nat with
  | 0%nat => Pton_end 0 n
  | 1%nat => Pton_pad [Pad64] 2 n
  | _ => Pton_pad [] 3 n
  end.

Lemma next_pos (pre : list Z) x : Z.of_nat (length pre) + 1 = Z.of_nat (length (pre ++ [x])).
Proof. rewrite length_app. simpl. lia. Qed.
Lemma next_app (pre : list Z) x l : pre ++ x :: l = (pre ++ [x]) ++ l.
Proof. by rewrite <- app_assoc. Qed.

Lemma pton_loop_spec src : bytes src → ∀ pre rest, (length src < length rest)%nat →
  ∃ rest', pton_loop (b64_text src) (pre ++ rest) 0 (Z.of_nat (length pre)) =
      Ok (pton_done src (Z.of_nat (length (pre ++ src))), pre ++ src ++ rest') ∧
    length rest = (length src + length rest')%nat ∧
    ((length src `mod` 3 ≠ 0)%nat → ∃ l, rest' = 0 :: l).
Proof.
  induction src as [|a|a b|a b c src IH] using list_ind3; intros Hb pre rest Hr.
  - exists rest. cbn. rewrite app_nil_r. done.
  - apply Forall_cons in Hb as [Ha _]. destruct rest as [|v [|w rest]]; try (simpl in Hr; lia). cbn [b64_text].
    unfold is_u8 in Ha. rewrite (pton_0 (a / 4)), (pton_1 (a mod 4 * 16)) by euclid.
    exists (0 :: rest). split_and!; [|simpl; lia|eauto].
    replace (a mod 4 * 16) with (a mod 4 * 16 + 0 / 16) by (change (0 / 16) with 0; lia). rewrite dec0 by (unfold is_u8; lia).
    replace (u8 _) with 0; [|bits_to_arith; rewrite u8_small; euclid]. cbn. by rewrite length_app, Nat2Z.inj_add.
  - apply Forall_cons in Hb as [Ha Hb]. apply Forall_cons in Hb as [Hb _].
    destruct rest as [|v [|w [|x rest]]]; try (simpl in Hr; lia). cbn [b64_text].
    unfold is_u8 in Ha, Hb. rewrite (pton_0 (a / 4)), (pton_1 (a mod 4 * 16 + b / 16)) by euclid.
    rewrite dec0 by (unfold is_u8; lia). rewrite (next_pos pre a), (next_app pre a), (pton_2 (b mod 16 * 4)) by euclid.
    exists (0 :: rest). split_and!; [|simpl; lia|eauto].
    replace (b mod 16 * 4) with (b mod 16 * 4 + 0 / 64) by (change (0 / 64) with 0; lia). rewrite dec1 by (unfold is_u8; lia).
    replace (u8 _) with 0; [|bits_to_arith; rewrite u8_small; euclid]. cbn. rewrite <- app_assoc. cbn [app].
    rewrite !length_app, !Nat2Z.inj_add. cbn. do 2 f_equal. f_equal. lia.
  - apply Forall_cons in Hb as [Ha Hb]. apply Forall_cons in Hb as [Hb Hc]. apply Forall_cons in Hc as [Hc Hs].
    destruct rest as [|v [|w [|x rest]]]; try (simpl in Hr; lia). cbn [b64_text app].
    unfold is_u8 in Ha, Hb, Hc. rewrite (pton_0 (a / 4)), (pton_1 (a mod 4 * 16 + b / 16)) by euclid.
    rewrite dec0 by (unfold is_u8; lia). rewrite (next_pos pre a), (next_app pre a), (pton_2 (b mod 16 * 4 + c / 64)) by euclid.
    rewrite dec1 by (unfold is_u8; lia). rewrite (next_pos _ b), (next_app _ b), (pton_3 (c mod 64)) by euclid.
    rewrite dec2 by (unfold is_u8; lia). rewrite (next_pos _ c), (next_app _ c).
    destruct (IH Hs (((pre ++ [a]) ++ [b]) ++ [c]) rest) as (rest' & -> & Hl & Hz); [simpl in Hr; lia|].
    exists rest'. unfold pton_done. cbn [length].
    replace (S (S (S (length src))) `mod` 3)%nat with (length src `mod` 3)%nat
      by (change (S (S (S (length src)))) with (3 + length src)%nat; rewrite <- Nat.Div0.add_mod_idemp_l; done).
    rewrite <- !app_assoc. cbn [app]. split_and!; [done|simpl; lia|done].
Qed.

(** Text that [b64_ntop] makes of some bytes is turned back into the bytes by
    [b64_pton], in an array that has room for one byte more. *)
Lemma b64_pton_spec src target : bytes src → (length src < length target)%nat →
  ∃ rest, b64_pton (b64_text src) target = Ok (Z.of_nat (length src), src ++ rest).
Proof.
  intros Hb Hl. destruct (pton_loop_spec src Hb [] target Hl) as (rest & E & _ & Hz). cbn [app length] in E.
  change (Z.of_nat 0) with 0 in E. unfold b64_pton. rewrite E. cbn [mbind outcome_bind]. exists rest. unfold pton_done.
  pose proof (Nat.mod_upper_bound (length src) 3 ltac:(lia)) as Hm.
  destruct (length src `mod` 3)%nat as [|[|[|]]]; [done| | |lia].
  all: destruct Hz as [l ->]; [done|]. all: cbn -[zget]; rewrite zget_app_mid; done.
Qed.

(** A property of the digits and the padding is one of the text. *)
Lemma b64_text_all (P : Z → Prop) src : (∀ o, 0 ≤ o < 64 → P (b64_char o)) → P Pad64 → bytes src → Forall P (b64_text src).
Proof.
  intros Hd Hp. induction src as [|a|a b|a b c src IH] using list_ind3; intros Hb; cbn [b64_text app].
  - constructor.
  - apply Forall_cons in Hb as [Ha _]. unfold is_u8 in *. repeat constructor; try done; apply Hd; euclid.
  - apply Forall_cons in Hb as [Ha Hb]. apply Forall_cons in Hb as [Hb _]. unfold is_u8 in *. repeat constructor; try done; apply Hd; euclid.
  - apply Forall_cons in Hb as [Ha Hb]. apply Forall_cons in Hb as [Hb Hc]. apply Forall_cons in Hc as [Hc Hs].
    unfold is_u8 in Ha, Hb, Hc. repeat (constructor; [apply Hd; euclid|]). by apply IH.
Qed.
(** The text has no blanks, so it may be followed by some and a comment. *)
Lemma b64_text_not_blank src : bytes src → Forall (λ c, is_blank c = false) (b64_text src).
Proof.
  apply b64_text_all; [|done]. intros o Ho. destruct (b64_char_digit o Ho) as (_ & _ & Hs & _). unfold isspace, is_blank in *.
  apply orb_false_iff in Hs as [-> Hs]. apply andb_false_iff in Hs. destruct (b64_char o =? 9) eqn:E; [|done]. lia.
Qed.
Lemma b64_text_not_zero src : bytes src → Forall (λ c, c ≠ 0) (b64_text src).
Proof.
  apply b64_text_all; [|done]. intros o Ho E. destruct (b64_char_digit o Ho) as (_ & E' & _). revert E'. rewrite E. vm_compute. congruence.
Qed.
Definition blank_first (s : list Z) : Prop := match s with [] => True | c :: _ => is_blank c = true end.
Lemma upto_blank_app s t : Forall (λ c, is_blank c = false) s → blank_first t → upto_blank (s ++ t) = s.
Proof.
  induction s as [|c s IH]; intros Hs Ht; cbn [app upto_blank].
  - destruct t; [done|]. cbn [upto_blank]. by rewrite Ht.
  - apply Forall_cons in Hs as [-> Hs]. by rewrite IH.
Qed.
Lemma span_blank_none s t : Forall (λ c, is_blank c = false) s → s ≠ [] → span_blank (s ++ t) = ([], s ++ t).
Proof. destruct s as [|c s]; [done|]. intros Hs _. apply Forall_cons in Hs as [Hc _]. cbn [app span_blank]. by rewrite Hc. Qed.

(** What [uuencode] writes, [uudecode] reads, with any comment behind it. *)
Lemma uuencode_uudecode src target target' tail :
  bytes src → src ≠ [] → Z.of_nat (length (b64_text src)) < Z.of_nat (length target) → (length src < length target')%nat →
  blank_first tail →
  ∃ text rest rest', uuencode src target = Ok (Z.of_nat (length text), text ++ 0 :: rest) ∧
    uudecode (text ++ tail) target' = Ok (Z.of_nat (length src), src ++ rest').
Proof.
  intros Hb Hne Hl Hl' Ht. destruct (b64_ntop_spec src target Hb Hl) as (rest & E & _).
  destruct (b64_pton_spec src target' Hb Hl') as (rest' & E').
  exists (b64_text src), rest, rest'. split; [done|]. unfold uudecode.
  rewrite span_blank_none, upto_blank_app by (try apply b64_text_not_blank; destruct src as [|? [|? [|]]]; done). exact E'.
Qed.

(** The length of the text. *)
Lemma b64_text_length src : Z.of_nat (length (b64_text src)) = 4 * ((Z.of_nat (length src) + 2) / 3).
Proof.
  induction src as [|a|a b|a b c src IH] using list_ind3; [done..|]. cbn [b64_text app length].
  rewrite !Nat2Z.inj_succ, IH. replace (Z.succ (Z.succ (Z.succ (Z.of_nat (length src)))) + 2) with (Z.of_nat (length src) + 2 + 1 * 3) by lia.
  rewrite Z.div_add by lia. lia.
Qed.
