(* ===== verification/Keys.v ===== *)
(** * Keys and certificates ([key.c], [ssh-rsa.c], [ssh-dss.c], [ssh-ecdsa.c])

    Public keys, their encoding on the wire and in files, certificates,
    signatures and fingerprints.  The arithmetic is OpenSSL's: the class
    [Openssl] has the functions that are called.  A [Buffer] inside a key is
    represented by its contents. *)

From S2P Require Import Prelude ByteOrder Buffer Stdio CipherMac Match Kex BufBn Base64.

(** ** Parsing

    Code that reads fields from a buffer and gives up at the first that is
    missing: [Ok None] is giving up, [Fatal] the end of the process. *)

Definition parse (A : Type) : Type := Buffer → outcome (option (A * Buffer)).
#[export] Instance parse_ret : MRet parse := λ A a b, Ok (Some (a, b)).
#[export] Instance parse_bind : MBind parse := λ A B f m b,
  r ← m b; match r with None => Ok None | Some (a, b) => f a b end.
Definition p_get {A} (f : Buffer → option A * Buffer) : parse A := λ b,
  Ok (match f b with (Some a, b) => Some (a, b) | (None, _) => None end).
Definition p_try {A} (f : Buffer → outcome (option A * Buffer)) : parse A := λ b,
  '(r, b) ← f b; Ok (match r with Some a => Some (a, b) | None => None end).
Definition p_fail {A} : parse A := λ _, Ok None.
Definition p_nofuel {A} : parse A := λ _, NoFuel.
Definition p_fatal {A} (e : string) : parse A := λ _, Fatal e.
Definition p_lift {A} (m : outcome A) : parse A := λ b, a ← m; Ok (Some (a, b)).
Definition p_when {A} (c : bool) (m : parse A) (a : A) : parse A := if c then m else mret a.
(** The number of bytes left. *)
Definition p_left : parse Z := λ b, Ok (Some (buffer_len b, b)).

#[export] Instance nid_eq_dec : EqDecision nid.
Proof. solve_decision. Defined.

(** ** OpenSSL *)

Record rsa_key `{Bignum} := mkRsa { r_e : bn; r_n : bn; r_private : option (bn * bn * bn * bn) }.
Record dsa_key `{Bignum} := mkDsa { d_p : bn; d_q : bn; d_g : bn; d_pub_key : bn; d_priv_key : option bn }.
Record ec_key `{Bignum} `{Curve} := mkEc { ec_grp : ec_group; ec_pub : ec_point; ec_private : option bn }.
#[global] Arguments mkRsa {_} _ _ _.
#[global] Arguments mkDsa {_} _ _ _ _ _.
#[global] Arguments mkEc {_ _} _ _ _.

Class Openssl `{Bignum} `{Curve} := {
  BN_cmp : bn → bn → Z;
  BN_minus_one : bn → bn;
  BN_dec2bn : list Z → option bn;
  BN_bn2dec : bn → option (list Z);
  EVP_get_digestbynid : evp_md_type → bool;
  EVP_Digest : evp_md_type → list Z → list Z;
  RSA_size : rsa_key → Z;
  RSA_sign : evp_md_type → list Z → rsa_key → option (list Z);
  RSA_public_decrypt : list Z → rsa_key → option (list Z);
  DSA_do_sign : nat → list Z → dsa_key → option (bn * bn);
  DSA_do_verify : list Z → bn * bn → dsa_key → Z;
  ECDSA_do_sign : nat → list Z → ec_key → option (bn * bn);
  ECDSA_do_verify : list Z → bn * bn → ec_key → Z;
  EC_KEY_new_by_curve_name : nid → option ec_group;
  EC_GROUP_cmp : ec_group → ec_group → Z;
  EC_POINT_cmp : ec_group → ec_point → ec_point → Z;
  EC_is_prime_field : ec_group → bool;
  EC_POINT_is_at_infinity : ec_group → ec_point → bool;
  EC_GROUP_get_order : ec_group → bn;
  EC_POINT_get_affine_coordinates_GFp : ec_group → ec_point → option (bn * bn);
  EC_POINT_mul : ec_group → ec_point → bn → ec_point
}.

(** ** Data *)

Definition CERT_MAX_PRINCIPALS : nat := 256.
Definition SSH2_CERT_TYPE_USER : Z := 1.
Definition SSH2_CERT_TYPE_HOST : Z := 2.
Definition SSH_BUG_SIGBLOB : Z := 0x00000001.
Definition SSH_BUG_RSASIGMD5 : Z := 0x00002000.
Definition SSH_RSA_MINIMUM_MODULUS_SIZE : Z := 768.

Section Keys.
Context `{Openssl} (datafellows : Z).

Inductive Key := mkKey {
  k_type : Z;
  k_flags : Z;
  k_nid : option nid;
  k_rsa : option rsa_key;
  k_dsa : option dsa_key;
  k_ecdsa : option ec_key;
  k_cert : option KeyCert
}
with KeyCert := mkCert {
  c_certblob : list Z;
  c_type : Z;
  c_serial : Z;
  c_key_id : option (list Z);
  c_principals : list (list Z);
  c_valid_after : Z;
  c_valid_before : Z;
  c_critical : list Z;
  c_extensions : list Z;
  c_signature_key : option Key
}.
#[global] Instance eta_Key : Eta Key := λ k,
  {| k_type := k_type k; k_flags := k_flags k; k_nid := k_nid k; k_rsa := k_rsa k; k_dsa := k_dsa k;
     k_ecdsa := k_ecdsa k; k_cert := k_cert k |}.
#[global] Instance eta_KeyCert : Eta KeyCert := λ c,
  {| c_certblob := c_certblob c; c_type := c_type c; c_serial := c_serial c; c_key_id := c_key_id c;
     c_principals := c_principals c; c_valid_after := c_valid_after c; c_valid_before := c_valid_before c;
     c_critical := c_critical c; c_extensions := c_extensions c; c_signature_key := c_signature_key c |}.

Definition cert_new : KeyCert := mkCert [] 0 0 None [] 0 0 [] [] None.

(** ** Types and names *)

Definition is_cert_type (t : Z) : bool :=
  (t =? KEY_RSA_CERT_V00) || (t =? KEY_DSA_CERT_V00) || (t =? KEY_RSA_CERT) || (t =? KEY_DSA_CERT) || (t =? KEY_ECDSA_CERT).
Definition key_is_cert (k : Key) : bool := is_cert_type (k_type k).
Definition key_type_plain (t : Z) : Z :=
  if (t =? KEY_RSA_CERT_V00) || (t =? KEY_RSA_CERT) then KEY_RSA
  else if (t =? KEY_DSA_CERT_V00) || (t =? KEY_DSA_CERT) then KEY_DSA
  else if t =? KEY_ECDSA_CERT then KEY_ECDSA
  else t.
Definition is_legacy_type (t : Z) : bool := (t =? KEY_DSA_CERT_V00) || (t =? KEY_RSA_CERT_V00).
Definition key_cert_is_legacy (k : Key) : bool := is_legacy_type (k_type k).
(** The three switches over the kinds of a key. *)
Definition is_rsa_type (t : Z) : bool := (t =? KEY_RSA) || (t =? KEY_RSA_CERT) || (t =? KEY_RSA_CERT_V00).
Definition is_dsa_type (t : Z) : bool := (t =? KEY_DSA) || (t =? KEY_DSA_CERT) || (t =? KEY_DSA_CERT_V00).
Definition is_ecdsa_type (t : Z) : bool := (t =? KEY_ECDSA) || (t =? KEY_ECDSA_CERT).

Definition key_ssh_name_from_type_nid (t : Z) (n : option nid) : list Z :=
  if t =? KEY_RSA then codes "ssh-rsa"
  else if t =? KEY_DSA then codes "ssh-dss"
  else if t =? KEY_RSA_CERT_V00 then codes "ssh-rsa-cert-v00@openssh.com"
  else if t =? KEY_DSA_CERT_V00 then codes "ssh-dss-cert-v00@openssh.com"
  else if t =? KEY_RSA_CERT then codes "ssh-rsa-cert-v01@openssh.com"
  else if t =? KEY_DSA_CERT then codes "ssh-dss-cert-v01@openssh.com"
  else if t =? KEY_ECDSA then
    match n with
    | Some NID_X9_62_prime256v1 => codes "ecdsa-sha2-nistp256"
    | Some NID_secp384r1 => codes "ecdsa-sha2-nistp384"
    | Some NID_secp521r1 => codes "ecdsa-sha2-nistp521"
    | None => codes "ssh-unknown"
    end
  else if t =? KEY_ECDSA_CERT then
    match n with
    | Some NID_X9_62_prime256v1 => codes "ecdsa-sha2-nistp256-cert-v01@openssh.com"
    | Some NID_secp384r1 => codes "ecdsa-sha2-nistp384-cert-v01@openssh.com"
    | Some NID_secp521r1 => codes "ecdsa-sha2-nistp521-cert-v01@openssh.com"
    | None => codes "ssh-unknown"
    end
  else codes "ssh-unknown".
Definition key_ssh_name (k : Key) : list Z := key_ssh_name_from_type_nid (k_type k) (k_nid k).
Definition key_ssh_name_plain (k : Key) : list Z := key_ssh_name_from_type_nid (key_type_plain (k_type k)) (k_nid k).

Definition key_ecdsa_nid_from_name (name : list Z) : option nid :=
  let named s := strcmp_is name (codes s) in
  if named "ecdsa-sha2-nistp256" || named "ecdsa-sha2-nistp256-cert-v01@openssh.com" then Some NID_X9_62_prime256v1
  else if named "ecdsa-sha2-nistp384" || named "ecdsa-sha2-nistp384-cert-v01@openssh.com" then Some NID_secp384r1
  else if named "ecdsa-sha2-nistp521" || named "ecdsa-sha2-nistp521-cert-v01@openssh.com" then Some NID_secp521r1
  else None.
(** [None] is NULL. *)
Definition key_curve_nid_to_name (n : option nid) : option (list Z) :=
  match n with
  | Some NID_X9_62_prime256v1 => Some (codes "nistp256")
  | Some NID_secp384r1 => Some (codes "nistp384")
  | Some NID_secp521r1 => Some (codes "nistp521")
  | None => None
  end.
Definition key_ecdsa_bits_to_nid (bits : Z) : option nid :=
  if bits =? 256 then Some NID_X9_62_prime256v1
  else if bits =? 384 then Some NID_secp384r1
  else if bits =? 521 then Some NID_secp521r1
  else None.
(** A missing structure of OpenSSL is dereferenced without a check. *)
Definition deref {A} (o : option A) : outcome A := match o with Some a => Ok a | None => Fault end.

Definition key_size (k : Key) : outcome Z :=
  let t := k_type k in
  if (t =? KEY_RSA1) || is_rsa_type t then r ← deref (k_rsa k); Ok (BN_num_bits (r_n r))
  else if is_dsa_type t then d ← deref (k_dsa k); Ok (BN_num_bits (d_p d))
  else if is_ecdsa_type t then Ok (match k_nid k with Some n => key_curve_nid_to_bits n | None => 0 end)
  else Ok 0.

(** [strsep] until an empty name; every round takes a character at least. *)
Fixpoint names_valid2_loop (fuel : nat) (cp : option (list Z)) : bool :=
  match fuel, cp with
  | S fuel, Some s =>
      let '(p, cp) := strsep s in
      match p with
      | [] => true
      | _ =>
          let t := key_type_from_name p in
          if (t =? KEY_RSA1) || (t =? KEY_UNSPEC) then false else names_valid2_loop fuel cp
      end
  | _, _ => true
  end.
Definition key_names_valid2 (names : list Z) : bool :=
  match names with [] => false | _ => names_valid2_loop (S (length names)) (Some names) end.

(** ** Comparison *)

Definition cert_compare (a b : option KeyCert) : bool :=
  match a, b with
  | None, None => true
  | Some a, Some b =>
      (length (c_certblob a) =? length (c_certblob b))%nat &&
      (timingsafe_bcmp (c_certblob a) (c_certblob b) (Z.of_nat (length (c_certblob a))) =? 0)
  | _, _ => false
  end.

Definition key_equal_public (a b : Key) : outcome bool :=
  if negb (key_type_plain (k_type a) =? key_type_plain (k_type b)) then Ok false
  else if (k_type a =? KEY_RSA1) || is_rsa_type (k_type a) then
    match k_rsa a, k_rsa b with
    | Some x, Some y => Ok ((BN_cmp (r_e x) (r_e y) =? 0) && (BN_cmp (r_n x) (r_n y) =? 0))
    | _, _ => Ok false
    end
  else if is_dsa_type (k_type a) then
    match k_dsa a, k_dsa b with
    | Some x, Some y =>
        Ok ((BN_cmp (d_p x) (d_p y) =? 0) && (BN_cmp (d_q x) (d_q y) =? 0) && (BN_cmp (d_g x) (d_g y) =? 0) &&
            (BN_cmp (d_pub_key x) (d_pub_key y) =? 0))
    | _, _ => Ok false
    end
  else if is_ecdsa_type (k_type a) then
    match k_ecdsa a, k_ecdsa b with
    | Some x, Some y =>
        Ok ((EC_GROUP_cmp (ec_grp x) (ec_grp y) =? 0) && (EC_POINT_cmp (ec_grp x) (ec_pub x) (ec_pub y) =? 0))
    | _, _ => Ok false
    end
  else Fatal "key_equal: bad key type".
Definition key_equal (a b : Key) : outcome bool :=
  if negb (k_type a =? k_type b) then Ok false
  else if key_is_cert a && negb (cert_compare (k_cert a) (k_cert b)) then Ok false
  else key_equal_public a b.

(** ** Signatures *)

(** [sig + diff] gets the signature, the front is zero. *)
Definition left_pad (n : Z) (sig : list Z) : list Z := replicate (Z.to_nat n - length sig) 0 ++ sig.

Definition rsa_nid : evp_md_type := if has_bug datafellows SSH_BUG_RSASIGMD5 then EVP_md5 else EVP_sha1.

Definition ssh_rsa_sign (k : Key) (data : list Z) : outcome (option (list Z)) :=
  match k_rsa k with
  | None => Ok None
  | Some rsa =>
      if negb (is_rsa_type (k_type k)) then Ok None
      else if negb (EVP_get_digestbynid rsa_nid) then Ok None
      else
        let slen := RSA_size rsa in
        match RSA_sign rsa_nid (EVP_Digest rsa_nid data) rsa with
        | None => Ok None
        | Some sig =>
            if slen <? Z.of_nat (length sig) then Ok None
            else
              b ← Items.puts buffer_init [Items.CString (codes "ssh-rsa"); Items.String (left_pad slen sig)];
              Ok (Some (contents b))
        end
  end.

Definition id_sha1 : list Z := [0x30; 0x21; 0x30; 0x09; 0x06; 0x05; 0x2b; 0x0e; 0x03; 0x02; 0x1a; 0x05; 0x00; 0x04; 0x14].
Definition id_md5 : list Z :=
  [0x30; 0x20; 0x30; 0x0c; 0x06; 0x08; 0x2a; 0x86; 0x48; 0x86; 0xF7; 0x0D; 0x02; 0x05; 0x05; 0x00; 0x04; 0x10].

Definition openssh_RSA_verify (type : evp_md_type) (hash sigbuf : list Z) (rsa : rsa_key) : Z :=
  match (match type with EVP_sha1 => Some (id_sha1, 20) | EVP_md5 => Some (id_md5, 16) | _ => None end) with
  | None => 0
  | Some (oid, hlen) =>
      let oidlen := Z.of_nat (length oid) in
      let siglen := Z.of_nat (length sigbuf) in
      if negb (Z.of_nat (length hash) =? hlen) then 0
      else if (siglen =? 0) || (RSA_size rsa <? siglen) then 0
      else match RSA_public_decrypt sigbuf rsa with
      | None => 0
      | Some decrypted =>
          if negb (Z.of_nat (length decrypted) =? hlen + oidlen) then 0
          else
            let oidmatch := timingsafe_bcmp decrypted oid oidlen =? 0 in
            let hashmatch := timingsafe_bcmp (drop (Z.to_nat oidlen) decrypted) hash hlen =? 0 in
            if negb oidmatch then 0 else if negb hashmatch then 0 else 1
      end
  end.

Definition ssh_rsa_verify (k : Key) (signature data : list Z) : outcome Z :=
  match k_rsa k with
  | None => Ok (-1)
  | Some rsa =>
      if negb (is_rsa_type (k_type k)) then Ok (-1)
      else if BN_num_bits (r_n rsa) <? SSH_RSA_MINIMUM_MODULUS_SIZE then Ok (-1)
      else
        b ← buffer_append buffer_init signature;
        '(ktype, b) ← buffer_get_cstring b;
        if negb (strcmp_is (codes "ssh-rsa") (cstr ktype)) then Ok (-1)
        else
          '(sigblob, b) ← buffer_get_string b;
          if negb (buffer_len b =? 0) then Ok (-1)
          else
            let modlen := RSA_size rsa in
            if modlen <? Z.of_nat (length sigblob) then Ok (-1)
            else if negb (EVP_get_digestbynid rsa_nid) then Ok (-1)
            else Ok (openssh_RSA_verify rsa_nid (EVP_Digest rsa_nid data) (left_pad modlen sigblob) rsa)
  end.

Definition INTBLOB_LEN : Z := 20.
Definition SIGBLOB_LEN : Z := 2 * INTBLOB_LEN.

Definition ssh_dss_sign (rnd : nat) (k : Key) (data : list Z) : outcome (option (list Z)) :=
  match k_dsa k with
  | None => Ok None
  | Some dsa =>
      if negb (is_dsa_type (k_type k)) then Ok None
      else match DSA_do_sign rnd (EVP_Digest EVP_sha1 data) dsa with
      | None => Ok None
      | Some (r, s) =>
          if (INTBLOB_LEN <? BN_num_bytes r) || (INTBLOB_LEN <? BN_num_bytes s) then Ok None
          else
            let sigblob := left_pad INTBLOB_LEN (BN_bn2bin r) ++ left_pad INTBLOB_LEN (BN_bn2bin s) in
            if has_bug datafellows SSH_BUG_SIGBLOB then Ok (Some sigblob)
            else
              b ← Items.puts buffer_init [Items.CString (codes "ssh-dss"); Items.String sigblob];
              Ok (Some (contents b))
      end
  end.

(** The signature inside its wrapping; [None] is a return of -1. *)
Definition dss_sigblob (signature : list Z) : outcome (option (list Z)) :=
  if has_bug datafellows SSH_BUG_SIGBLOB then Ok (Some signature)
  else
    b ← buffer_append buffer_init signature;
    '(ktype, b) ← buffer_get_cstring b;
    if negb (strcmp_is (codes "ssh-dss") (cstr ktype)) then Ok None
    else
      '(sigblob, b) ← buffer_get_string b;
      Ok (if negb (buffer_len b =? 0) then None else Some sigblob).

Definition ssh_dss_verify (k : Key) (signature data : list Z) : outcome Z :=
  match k_dsa k with
  | None => Ok (-1)
  | Some dsa =>
      if negb (is_dsa_type (k_type k)) then Ok (-1)
      else
        o ← dss_sigblob signature;
        match o with
        | None => Ok (-1)
        | Some sigblob =>
            if negb (Z.of_nat (length sigblob) =? SIGBLOB_LEN) then Fatal "bad sigbloblen"
            else match BN_bin2bn (take (Z.to_nat INTBLOB_LEN) sigblob), BN_bin2bn (drop (Z.to_nat INTBLOB_LEN) sigblob) with
                 | Some r, Some s => Ok (DSA_do_verify (EVP_Digest EVP_sha1 data) (r, s) dsa)
                 | _, _ => Fatal "ssh_dss_verify: BN_bin2bn failed"
                 end
        end
  end.

Definition ecdsa_md (k : Key) : outcome evp_md_type :=
  match k_nid k with Some n => Ok (key_ec_nid_to_evpmd n) | None => Fatal "key_ec_nid_to_evpmd: invalid nid" end.

Definition ssh_ecdsa_sign (rnd : nat) (k : Key) (data : list Z) : outcome (option (list Z)) :=
  match k_ecdsa k with
  | None => Ok None
  | Some ec =>
      if negb (is_ecdsa_type (k_type k)) then Ok None
      else
        md ← ecdsa_md k;
        match ECDSA_do_sign rnd (EVP_Digest md data) ec with
        | None => Ok None
        | Some (r, s) =>
            bb ← buffer_put_bignum2 buffer_init r;
            bb ← buffer_put_bignum2 bb s;
            b ← Items.puts buffer_init [Items.CString (key_ssh_name_plain k); Items.String (contents bb)];
            Ok (Some (contents b))
        end
  end.

Definition ssh_ecdsa_verify (k : Key) (signature data : list Z) : outcome Z :=
  match k_ecdsa k with
  | None => Ok (-1)
  | Some ec =>
      if negb (is_ecdsa_type (k_type k)) then Ok (-1)
      else
        md ← ecdsa_md k;
        b ← buffer_append buffer_init signature;
        '(ktype, b) ← buffer_get_string b;
        if negb (strcmp_is (key_ssh_name_plain k) (cstr ktype)) then Ok (-1)
        else
          '(sigblob, b) ← buffer_get_string b;
          if negb (buffer_len b =? 0) then Ok (-1)
          else
            bb ← buffer_append buffer_init sigblob;
            '(r, bb) ← buffer_get_bignum2 bb;
            '(s, bb) ← buffer_get_bignum2 bb;
            if negb (buffer_len bb =? 0) then Fatal "ssh_ecdsa_verify: remaining bytes in inner sigblob"
            else Ok (ECDSA_do_verify (EVP_Digest md data) (r, s) ec)
  end.

(** [None] is a return of -1. *)
Definition key_sign (rnd : nat) (k : Key) (data : list Z) : outcome (option (list Z)) :=
  if is_dsa_type (k_type k) then ssh_dss_sign rnd k data
  else if is_ecdsa_type (k_type k) then ssh_ecdsa_sign rnd k data
  else if is_rsa_type (k_type k) then ssh_rsa_sign k data
  else Ok None.
Definition key_verify (k : Key) (signature data : list Z) : outcome Z :=
  match signature with
  | [] => Ok (-1)
  | _ =>
      if is_dsa_type (k_type k) then ssh_dss_verify k signature data
      else if is_ecdsa_type (k_type k) then ssh_ecdsa_verify k signature data
      else if is_rsa_type (k_type k) then ssh_rsa_verify k signature data
      else Ok (-1)
  end.

(** ** Validity of points *)

Definition key_ec_validate_public (g : ec_group) (q : ec_point) : outcome bool :=
  if negb (EC_is_prime_field g) then Ok false
  else if EC_POINT_is_at_infinity g q then Ok false
  else
    let order := EC_GROUP_get_order g in
    match EC_POINT_get_affine_coordinates_GFp g q with
    | None => Fatal "key_ec_validate_public: EC_POINT_get_affine_coordinates_GFp"
    | Some (x, y) =>
        Ok (negb (BN_num_bits x <=? BN_num_bits order / 2) && negb (BN_num_bits y <=? BN_num_bits order / 2) &&
            EC_POINT_is_at_infinity g (EC_POINT_mul g q order) &&
            negb (0 <=? BN_cmp x (BN_minus_one order)) && negb (0 <=? BN_cmp y (BN_minus_one order)))
    end.
Definition key_ec_validate_private (ec : ec_key) : outcome bool :=
  p ← deref (ec_private ec);
  let order := EC_GROUP_get_order (ec_grp ec) in
  Ok (negb (BN_num_bits p <=? BN_num_bits order / 2) && negb (0 <=? BN_cmp p (BN_minus_one order))).

(** ** Certificates *)

(** The loop over the names of the owner. *)
Fixpoint parse_principals (room : nat) : parse (list (list Z)) :=
  n ← p_left;
  if n =? 0 then mret []
  else match room with
  | O => p_fail
  | S room => p ← p_get buffer_get_cstring_ret; ps ← parse_principals room; mret (cstr p :: ps)
  end.
(** The loops that check the structure of options: pairs of strings. *)
Fixpoint check_pairs (fuel : nat) : parse unit :=
  n ← p_left;
  if n =? 0 then mret tt
  else match fuel with
  | O => p_nofuel
  | S fuel => _ ← p_try buffer_get_string_ptr_ret; _ ← p_try buffer_get_string_ptr_ret; check_pairs fuel
  end.
(** Parsing of a fresh buffer with some bytes in it. *)
Definition in_buffer {A} (data : list Z) (m : parse A) : parse A := λ b,
  tmp ← buffer_append buffer_init data;
  r ← m tmp;
  Ok (match r with None => None | Some (a, _) => Some (a, b) end).

(** [from_blob] is [key_from_blob] on the key of the authority. *)
Definition cert_parse (from_blob : list Z → outcome (option Key)) (type : Z) (blob : list Z) : parse KeyCert :=
  let v00 := (type =? KEY_DSA_CERT_V00) || (type =? KEY_RSA_CERT_V00) in
  certblob ← p_lift (buffer_append buffer_init blob);
  serial ← p_when (negb v00) (p_get buffer_get_int64_ret) 0;
  ctype ← p_get buffer_get_int_ret;
  key_id ← p_get buffer_get_cstring_ret;
  principals ← p_get buffer_get_string_ret;
  valid_after ← p_get buffer_get_int64_ret;
  valid_before ← p_get buffer_get_int64_ret;
  critical ← p_get buffer_get_string_ret;
  exts ← p_when (negb v00) (p_get buffer_get_string_ret) [];
  _ ← p_when v00 (p_try buffer_get_string_ptr_ret) [];
  _ ← p_try buffer_get_string_ptr_ret;
  sig_key ← p_get buffer_get_string_ret;
  if negb (length key_id =? length (cstr key_id))%nat then p_fail
  else
    left_ ← p_left;
    let signed_len := u32 (buffer_len certblob - left_) in
    sig ← p_get buffer_get_string_ret;
    if negb (ctype =? SSH2_CERT_TYPE_USER) && negb (ctype =? SSH2_CERT_TYPE_HOST) then p_fail
    else
      names ← in_buffer principals (parse_principals CERT_MAX_PRINCIPALS);
      _ ← in_buffer critical (check_pairs (length critical));
      _ ← in_buffer exts (check_pairs (length exts));
      ca ← p_lift (from_blob sig_key);
      match ca with
      | None => p_fail
      | Some ca =>
          if negb (k_type ca =? KEY_RSA) && negb (k_type ca =? KEY_DSA) && negb (k_type ca =? KEY_ECDSA) then p_fail
          else
            v ← p_lift (key_verify ca sig (take (Z.to_nat signed_len) (contents certblob)));
            if v =? 1 then
              mret (mkCert (contents certblob) ctype serial (Some key_id) names valid_after valid_before critical exts (Some ca))
            else p_fail
      end.

(** ** Public keys on the wire *)

Definition parse_rsa : parse rsa_key :=
  e ← p_get buffer_get_bignum2_ret; n ← p_get buffer_get_bignum2_ret; mret (mkRsa e n None).
Definition parse_dsa : parse dsa_key :=
  p ← p_get buffer_get_bignum2_ret; q ← p_get buffer_get_bignum2_ret; g ← p_get buffer_get_bignum2_ret;
  y ← p_get buffer_get_bignum2_ret; mret (mkDsa p q g y None).
Definition parse_ecdsa (n : option nid) : parse ec_key :=
  curve ← p_get buffer_get_string_ret;
  if negb (bool_decide (n = key_curve_name_to_nid (cstr curve))) then p_fail
  else match (match n with Some n => EC_KEY_new_by_curve_name n | None => None end) with
  | None => p_fatal "key_from_blob: EC_KEY_new_by_curve_name failed"
  | Some g =>
      q ← p_get (λ b, buffer_get_ecpoint_ret b g);
      ok ← p_lift (key_ec_validate_public g q);
      if ok : bool then mret (mkEc g q None) else p_fail
  end.

(** The result of the attempt to skip the nonce is not looked at. *)
Definition skip_nonce (skip : bool) : parse unit := λ b,
  if skip then '(_, b) ← buffer_get_string_ptr_ret b; Ok (Some (tt, b)) else Ok (Some (tt, b)).

(** The certificate of a key of such a type. *)
Definition finish_key (rec : list Z → outcome (option Key)) (blob : list Z) (k : Key) : parse Key :=
  if key_is_cert k then c ← cert_parse rec (k_type k) blob; mret (k <| k_cert := Some c |>) else mret k.

Definition parse_key (rec : list Z → outcome (option Key)) (blob : list Z) : parse Key :=
  ktype ← p_get buffer_get_cstring_ret;
  let type := key_type_from_name (cstr ktype) in
  let n := if key_type_plain type =? KEY_ECDSA then key_ecdsa_nid_from_name (cstr ktype) else None in
  if is_rsa_type type then
    _ ← skip_nonce (type =? KEY_RSA_CERT);
    rsa ← parse_rsa; finish_key rec blob (mkKey type 0 None (Some rsa) None None None)
  else if is_dsa_type type then
    _ ← skip_nonce (type =? KEY_DSA_CERT);
    dsa ← parse_dsa; finish_key rec blob (mkKey type 0 None None (Some dsa) None None)
  else if is_ecdsa_type type then
    _ ← skip_nonce (type =? KEY_ECDSA_CERT);
    ec ← parse_ecdsa n; finish_key rec blob (mkKey type 0 n None None (Some ec) None)
  else if type =? KEY_UNSPEC then finish_key rec blob (mkKey type 0 None None None None None)
  else p_fail.

(** The recursion goes into the key of the authority, which is a part of the
    blob: the length of the blob is enough fuel. *)
Fixpoint from_blob (fuel : nat) (blob : list Z) : outcome (option Key) :=
  match fuel with
  | O => NoFuel
  | S fuel =>
      b ← buffer_append buffer_init blob;
      r ← parse_key (from_blob fuel) blob b;
      Ok (match r with Some (k, _) => Some k | None => None end)
  end.
Definition key_from_blob (blob : list Z) : outcome (option Key) := from_blob (S (length blob)) blob.

(** [None] is a return of 0. *)
Definition key_to_blob (k : Key) : outcome (option (list Z)) :=
  let t := k_type k in
  o ← (if is_cert_type t then
         c ← deref (k_cert k);
         b ← buffer_append buffer_init (c_certblob c); Ok (Some b)
       else if t =? KEY_DSA then
         b ← buffer_put_cstring buffer_init (Some (key_ssh_name k));
         d ← deref (k_dsa k);
         b ← buffer_put_bignum2 b (d_p d); b ← buffer_put_bignum2 b (d_q d); b ← buffer_put_bignum2 b (d_g d);
         b ← buffer_put_bignum2 b (d_pub_key d); Ok (Some b)
       else if t =? KEY_ECDSA then
         b ← buffer_put_cstring buffer_init (Some (key_ssh_name k));
         b ← buffer_put_cstring b (key_curve_nid_to_name (k_nid k));
         ec ← deref (k_ecdsa k);
         b ← buffer_put_ecpoint b (ec_grp ec) (ec_pub ec); Ok (Some b)
       else if t =? KEY_RSA then
         b ← buffer_put_cstring buffer_init (Some (key_ssh_name k));
         r ← deref (k_rsa k);
         b ← buffer_put_bignum2 b (r_e r); b ← buffer_put_bignum2 b (r_n r); Ok (Some b)
       else Ok None);
  match o with
  | None => Ok None
  | Some b => if buffer_len b =? 0 then Fatal "xmalloc: zero size" else Ok (Some (contents b))
  end.

(** ** Making certificates *)

Definition key_to_certified (k : Key) (legacy : bool) : outcome (option Key) :=
  let certified t := Ok (Some (k <| k_cert := Some cert_new |> <| k_type := t |>)) in
  if k_type k =? KEY_RSA then certified (if legacy then KEY_RSA_CERT_V00 else KEY_RSA_CERT)
  else if k_type k =? KEY_DSA then certified (if legacy then KEY_DSA_CERT_V00 else KEY_DSA_CERT)
  else if k_type k =? KEY_ECDSA then
    if legacy then Fatal "key_to_certified: legacy ECDSA certificates are not supported" else certified KEY_ECDSA_CERT
  else Ok None.
(** The certificate is freed, and nothing reads it for a plain type. *)
Definition key_drop_cert (k : Key) : option Key :=
  if is_cert_type (k_type k) then Some (k <| k_type := key_type_plain (k_type k) |> <| k_cert := None |>) else None.

(** The public part in a certificate. *)
Definition put_public (b : Buffer) (k : Key) : outcome Buffer :=
  if is_dsa_type (k_type k) then
    d ← deref (k_dsa k);
    b ← buffer_put_bignum2 b (d_p d); b ← buffer_put_bignum2 b (d_q d); b ← buffer_put_bignum2 b (d_g d);
    buffer_put_bignum2 b (d_pub_key d)
  else if is_ecdsa_type (k_type k) then
    b ← buffer_put_cstring b (key_curve_nid_to_name (k_nid k));
    ec ← deref (k_ecdsa k);
    buffer_put_ecpoint b (ec_grp ec) (ec_pub ec)
  else
    r ← deref (k_rsa k);
    b ← buffer_put_bignum2 b (r_e r);
    buffer_put_bignum2 b (r_n r).

(** Everything under the signature; [nonce] is what [arc4random_buf] gave. *)
Definition tbs_cert (k : Key) (c : KeyCert) (nonce ca_blob : list Z) : outcome Buffer :=
  let legacy := key_cert_is_legacy k in
  b ← buffer_put_cstring buffer_init (Some (key_ssh_name k));
  b ← (if negb legacy then buffer_put_string b nonce else Ok b);
  b ← put_public b k;
  b ← (if negb legacy then buffer_put_int64 b (c_serial c) else Ok b);
  b ← buffer_put_int b (c_type c);
  b ← buffer_put_cstring b (c_key_id c);
  principals ← Items.puts buffer_init (map Items.CString (c_principals c));
  b ← Items.puts b [Items.String (contents principals); Items.Int64 (c_valid_after c); Items.Int64 (c_valid_before c);
                    Items.String (c_critical c)];
  b ← (if negb legacy then buffer_put_string b (c_extensions c) else Ok b);
  b ← (if legacy then buffer_put_string b nonce else Ok b);
  Items.puts b [Items.String []; Items.String ca_blob].

(** Success, and the key with the new blob. *)
Definition key_certify (rnd : nat) (nonce : list Z) (k ca : Key) : outcome (bool * Key) :=
  match k_cert k with
  | None => Ok (false, k)
  | Some c =>
      if negb (key_is_cert k) then Ok (false, k)
      else if negb (k_type ca =? KEY_RSA) && negb (k_type ca =? KEY_DSA) && negb (k_type ca =? KEY_ECDSA) then Ok (false, k)
      else
        ca_blob ← key_to_blob ca;
        ca_blob ← deref ca_blob;
        b ← tbs_cert k c nonce ca_blob;
        sig ← key_sign rnd ca (contents b);
        match sig with
        | None => Ok (false, k <| k_cert := Some (c <| c_certblob := [] |>) |>)
        | Some sig =>
            b ← buffer_put_string b sig;
            Ok (true, k <| k_cert := Some (c <| c_certblob := contents b |>) |>)
        end
  end.

(** The reason why the certificate is refused. *)
Definition refuse (reason : string) : option string := Some reason.
Definition key_cert_check_authority (now : Z) (k : Key) (want_host require_principal : bool) (name : option (list Z)) :
    outcome (option string) :=
  c ← deref (k_cert k);
  Ok (
  if want_host && negb (c_type c =? SSH2_CERT_TYPE_HOST) then refuse "Certificate invalid: not a host certificate"
  else if negb want_host && negb (c_type c =? SSH2_CERT_TYPE_USER) then refuse "Certificate invalid: not a user certificate"
  else if now <? 0 then refuse "Certificate invalid: not yet valid"
  else if u64 now <? c_valid_after c then refuse "Certificate invalid: not yet valid"
  else if c_valid_before c <=? u64 now then refuse "Certificate invalid: expired"
  else match c_principals c with
       | [] => if require_principal then refuse "Certificate lacks principal list" else None
       | _ =>
           match name with
           | Some name => if existsb (strcmp_is name) (c_principals c) then None
                          else refuse "Certificate invalid: name is not a listed principal"
           | None => None
           end
       end).

(** ** Copies without the private part *)

Definition public_rsa (r : rsa_key) : rsa_key := mkRsa (r_e r) (r_n r) None.
Definition public_dsa (d : dsa_key) : dsa_key := mkDsa (d_p d) (d_q d) (d_g d) (d_pub_key d) None.
Definition public_ec (n : option nid) (e : option ec_key) : outcome ec_key :=
  match (match n with Some n => EC_KEY_new_by_curve_name n | None => None end) with
  | None => Fatal "EC_KEY_new_by_curve_name failed"
  | Some g => e ← deref e; Ok (mkEc g (ec_pub e) None)
  end.

Fixpoint key_from_private (k : Key) : outcome Key :=
  match k with
  | mkKey t fl n rsa dsa ec cert =>
      new ← (if is_dsa_type t then d ← deref dsa; Ok (mkKey t 0 None None (Some (public_dsa d)) None None)
             else if is_ecdsa_type t then e ← public_ec n ec; Ok (mkKey t 0 n None None (Some e) None)
             else if (t =? KEY_RSA1) || is_rsa_type t then
               r ← deref rsa; Ok (mkKey t 0 None (Some (public_rsa r)) None None None)
             else Fatal "key_from_private: unknown type");
      if is_cert_type t then
        match cert with
        | None => Ok new
        | Some c => c ← key_cert_copy c; Ok (new <| k_cert := Some c |>)
        end
      else Ok new
  end
with key_cert_copy (c : KeyCert) : outcome KeyCert :=
  match c with
  | mkCert blob t serial id names after before crit exts ca =>
      ca ← match ca with None => Ok None | Some ca => k ← key_from_private ca; Ok (Some k) end;
      if (CERT_MAX_PRINCIPALS <? length names)%nat then Fatal "key_cert_copy: nprincipals > CERT_MAX_PRINCIPALS"
      else Ok (mkCert blob t serial id names after before crit exts ca)
  end.

Definition key_demote (k : Key) : outcome Key :=
  let t := k_type k in
  let pk := mkKey t (k_flags k) (k_nid k) None None None None in
  pk ← (if is_cert_type t then
          match k_cert k with None => Ok pk | Some c => c ← key_cert_copy c; Ok (pk <| k_cert := Some c |>) end
        else Ok pk);
  if (t =? KEY_RSA1) || is_rsa_type t then r ← deref (k_rsa k); Ok (pk <| k_rsa := Some (public_rsa r) |>)
  else if is_dsa_type t then d ← deref (k_dsa k); Ok (pk <| k_dsa := Some (public_dsa d) |>)
  else if is_ecdsa_type t then e ← public_ec (k_nid k) (k_ecdsa k); Ok (pk <| k_ecdsa := Some e |>)
  else Fatal "key_free: bad key type".
End Keys.
