(* ===== verification/KeyText.v ===== *)
(** * Keys as text ([key.c])

    Fingerprints in their three forms, and the lines of key files.  The arrays
    that the C code writes to are modelled with their sizes. *)

From S2P Require Import Prelude ByteOrder Buffer Stdio CipherMac Match Kex BufBn Base64 Keys.

Section KeyText.
Context `{Openssl} (datafellows : Z).

(** ** Fingerprints *)

Inductive fp_type := SSH_FP_SHA1 | SSH_FP_MD5.
Inductive fp_rep := SSH_FP_HEX | SSH_FP_BUBBLEBABBLE | SSH_FP_RANDOMART.

Definition key_fingerprint_raw (k : Key) (dgst_type : fp_type) : outcome (option (list Z)) :=
  let md := match dgst_type with SSH_FP_MD5 => EVP_md5 | SSH_FP_SHA1 => EVP_sha1 end in
  let t := k_type k in
  if t =? KEY_UNSPEC then Ok None
  else
    blob ← (if t =? KEY_RSA1 then
              r ← deref (k_rsa k);
              let l := BN_bn2bin (r_n r) ++ BN_bn2bin (r_e r) in
              if bool_decide (l = []) then Fatal "xmalloc: zero size" else Ok (Some l)
            else if (t =? KEY_RSA) || (t =? KEY_DSA) || (t =? KEY_ECDSA) then key_to_blob k
            else if is_cert_type t then key_to_blob (k <| k_type := key_type_plain t |>)
            else Fatal "key_fingerprint_raw: bad key type");
    match blob with
    | None => Fatal "key_fingerprint_raw: blob is null"
    | Some blob => Ok (Some (EVP_Digest md blob))
    end.

Definition hexdigit (n : Z) : Z := if n <? 10 then 48 + n else 87 + n.
(** The text ends with a colon, which the last statement overwrites. *)
Definition key_fingerprint_hex (dgst_raw : list Z) : outcome (list Z) :=
  let n := Z.of_nat (length dgst_raw) in
  let text := concat (map (λ c, [hexdigit (c / 16); hexdigit (c mod 16); 58]) dgst_raw) in
  retval ← zset (text ++ [0]) (u32 (n * 3 - 1)) 0;
  Ok (cstr retval).

Definition vowels : list Z := Eval vm_compute in codes "aeiouy".
Definition consonants : list Z := Eval vm_compute in codes "bcdfghklmnprstvzx".

(** One round of the loop: the characters and the next seed. *)
Definition bubble_round (dgst_raw : list Z) (rounds i seed : Z) : outcome (list Z * Z) :=
  let len := Z.of_nat (length dgst_raw) in
  if (i + 1 <? rounds) || negb (len mod 2 =? 0) then
    d0 ← zget dgst_raw (2 * i);
    let idx0 := (Z.land (Z.shiftr d0 6) 3 + seed) mod 6 in
    let idx1 := Z.land (Z.shiftr d0 2) 15 in
    let idx2 := (Z.land d0 3 + seed / 6) mod 6 in
    c0 ← zget vowels idx0; c1 ← zget consonants idx1; c2 ← zget vowels idx2;
    if i + 1 <? rounds then
      d1 ← zget dgst_raw (2 * i + 1);
      c3 ← zget consonants (Z.land (Z.shiftr d1 4) 15); c4 ← zget consonants (Z.land d1 15);
      Ok ([c0; c1; c2; c3; 45; c4], u32 (seed * 5 + (d0 * 7 + d1)) mod 36)
    else Ok ([c0; c1; c2], seed)
  else
    c0 ← zget vowels (seed mod 6); c1 ← zget consonants 16; c2 ← zget vowels (seed / 6);
    Ok ([c0; c1; c2], seed).
Fixpoint bubble_loop (fuel : nat) (dgst_raw : list Z) (rounds i seed : Z) (retval : list Z) (j : Z) : outcome (list Z * Z) :=
  match fuel with
  | O => Ok (retval, j)
  | S fuel =>
      '(cs, seed) ← bubble_round dgst_raw rounds i seed;
      '(retval, j) ← store retval j cs;
      bubble_loop fuel dgst_raw rounds (i + 1) seed retval j
  end.
Definition key_fingerprint_bubblebabble (dgst_raw : list Z) : outcome (list Z) :=
  let rounds := Z.of_nat (length dgst_raw) / 2 + 1 in
  '(retval, j) ← store (replicate (Z.to_nat (rounds * 6)) 0) 0 [120];
  '(retval, j) ← bubble_loop (Z.to_nat rounds) dgst_raw rounds 0 1 retval j;
  '(retval, j) ← store retval j [120; 0];
  Ok (cstr retval).

Definition FLDBASE : Z := 8.
Definition FLDSIZE_Y : Z := FLDBASE + 1.
Definition FLDSIZE_X : Z := FLDBASE * 2 + 1.
Definition augmentation_string : list Z := Eval vm_compute in codes " .o+=*BOX@%&#/^SE".

Record art := mkArt { a_field : list Z; a_x : Z; a_y : Z }.
(** [field[x][y]] *)
Definition cell (x y : Z) : Z := x * FLDSIZE_Y + y.

Definition art_move (input : Z) (a : art) : outcome art :=
  let len := Z.of_nat (length augmentation_string) - 1 in
  let x := a_x a + (if negb (Z.land input 1 =? 0) then 1 else -1) in
  let y := a_y a + (if negb (Z.land input 2 =? 0) then 1 else -1) in
  let x := Z.min (Z.max x 0) (FLDSIZE_X - 1) in
  let y := Z.min (Z.max y 0) (FLDSIZE_Y - 1) in
  v ← zget (a_field a) (cell x y);
  f ← (if v <? len - 2 then zset (a_field a) (cell x y) (v + 1) else Ok (a_field a));
  Ok (mkArt f x y).
Fixpoint art_byte (n : nat) (input : Z) (a : art) : outcome art :=
  match n with O => Ok a | S n => a ← art_move input a; art_byte n (Z.shiftr input 2) a end.
Fixpoint art_walk (dgst_raw : list Z) (a : art) : outcome art :=
  match dgst_raw with [] => Ok a | c :: l => a ← art_byte 4 c a; art_walk l a end.

Definition key_type (k : Key) : list Z :=
  let t := k_type k in
  if t =? KEY_RSA1 then codes "RSA1"
  else if t =? KEY_RSA then codes "RSA"
  else if t =? KEY_DSA then codes "DSA"
  else if t =? KEY_ECDSA then codes "ECDSA"
  else if t =? KEY_RSA_CERT_V00 then codes "RSA-CERT-V00"
  else if t =? KEY_DSA_CERT_V00 then codes "DSA-CERT-V00"
  else if t =? KEY_RSA_CERT then codes "RSA-CERT"
  else if t =? KEY_DSA_CERT then codes "DSA-CERT"
  else if t =? KEY_ECDSA_CERT then codes "ECDSA-CERT"
  else codes "unknown".

(** The conversions [%4s] and [%4u]. *)
Definition pad4 (s : list Z) : list Z := replicate (4 - length s) 32 ++ s.
(** [snprintf] into [FLDSIZE_X] bytes. *)
Definition art_title (kind : list Z) (size : Z) : list Z :=
  take (Z.to_nat (FLDSIZE_X - 1)) (codes "+--[" ++ pad4 kind ++ [32] ++ pad4 (Scanf.dec size) ++ [93]).

(** A row of the picture. *)
Fixpoint art_row (n : nat) (field : list Z) (x y : Z) : outcome (list Z) :=
  let len := Z.of_nat (length augmentation_string) - 1 in
  match n with
  | O => Ok []
  | S n => v ← zget field (cell x y); c ← zget augmentation_string (Z.min v len); cs ← art_row n field (x + 1) y; Ok (c :: cs)
  end.
Fixpoint art_rows (n : nat) (field : list Z) (y : Z) (retval : list Z) (p : Z) : outcome (list Z * Z) :=
  match n with
  | O => Ok (retval, p)
  | S n =>
      cs ← art_row (Z.to_nat FLDSIZE_X) field 0 y;
      '(retval, p) ← store retval p ([124] ++ cs ++ [124; 10]);
      art_rows n field (y + 1) retval p
  end.

Definition key_fingerprint_randomart (dgst_raw : list Z) (k : Key) : outcome (list Z) :=
  let len := Z.of_nat (length augmentation_string) - 1 in
  let retval := replicate (Z.to_nat ((FLDSIZE_X + 3) * (FLDSIZE_Y + 2))) 0 in
  a ← art_walk dgst_raw (mkArt (replicate (Z.to_nat (FLDSIZE_X * FLDSIZE_Y)) 0) (FLDSIZE_X / 2) (FLDSIZE_Y / 2));
  f ← zset (a_field a) (cell (FLDSIZE_X / 2) (FLDSIZE_Y / 2)) (len - 1);
  f ← zset f (cell (a_x a) (a_y a)) len;
  size ← key_size k;
  let title := art_title (key_type k) size in
  '(retval, p) ← store retval 0 title;
  '(retval, p) ← store retval p (replicate (Z.to_nat (FLDSIZE_X - (p - 1))) 45 ++ [43; 10]);
  '(retval, p) ← art_rows (Z.to_nat FLDSIZE_Y) f 0 retval p;
  '(retval, p) ← store retval p ([43] ++ replicate (Z.to_nat FLDSIZE_X) 45 ++ [43]);
  Ok (cstr retval).

Definition key_fingerprint (k : Key) (dgst_type : fp_type) (dgst_rep : fp_rep) : outcome (list Z) :=
  raw ← key_fingerprint_raw k dgst_type;
  match raw with
  | None => Fatal "key_fingerprint: null from key_fingerprint_raw()"
  | Some raw =>
      match dgst_rep with
      | SSH_FP_HEX => key_fingerprint_hex raw
      | SSH_FP_BUBBLEBABBLE => key_fingerprint_bubblebabble raw
      | SSH_FP_RANDOMART => key_fingerprint_randomart raw k
      end
  end.

(** ** Keys as text *)

Definition is_digit (c : Z) : bool := (48 <=? c) && (c <=? 57).
Fixpoint span_digits (s : list Z) : list Z * list Z :=
  match s with c :: s' => if is_digit c then let '(a, b) := span_digits s' in (c :: a, b) else ([], s) | [] => ([], []) end.

(** The number and the text behind it; if it fails, the text that [*cpp] points
    to: where it was, or at the digits that could not be converted. *)
Definition read_bignum (cp : list Z) : option bn * list Z :=
  let '(_, cp1) := span_blank cp in
  let '(ds, rest) := span_digits cp1 in
  match ds with
  | [] => (None, cp)
  | _ => match BN_dec2bn ds with Some v => (Some v, rest) | None => (None, ds) end
  end.

(** [bits = 10 * bits + *cp - '0'] *)
Definition dec_bits (ds : list Z) : Z := foldl (λ v c, u32 (10 * v + c - 48)) 0 ds.

Definition read_rsa1 (ret : Key) (cp : list Z) : outcome (bool * Key * list Z) :=
  let '(ds, cp1) := span_digits cp in
  match ds with
  | [] => Ok (false, ret, cp)
  | _ =>
      let bits := dec_bits ds in
      if bits =? 0 then Ok (false, ret, cp)
      else
        r ← deref (k_rsa ret);
        match read_bignum cp1 with
        | (None, cp2) => Ok (false, ret, cp2)
        | (Some e, cp2) =>
            let ret := ret <| k_rsa := Some (mkRsa e (r_n r) (r_private r)) |> in
            match read_bignum cp2 with
            | (None, cp3) => Ok (false, ret, cp3)
            | (Some n, cp3) =>
                let ret := ret <| k_rsa := Some (mkRsa e n (r_private r)) |> in
                Ok (BN_num_bits n =? bits, ret, cp3)
            end
        end
  end.

(** What the decoded key [k] puts into [ret]. *)
Definition take_over (ret k : Key) : Key :=
  let ret := if key_is_cert ret then ret <| k_cert := k_cert k |> else ret in
  let ret := if key_type_plain (k_type ret) =? KEY_RSA then ret <| k_rsa := k_rsa k |> else ret in
  let ret := if key_type_plain (k_type ret) =? KEY_DSA then ret <| k_dsa := k_dsa k |> else ret in
  if key_type_plain (k_type ret) =? KEY_ECDSA then ret <| k_ecdsa := k_ecdsa k |> <| k_nid := k_nid k |> else ret.

(** Up to the first space, and what is behind it. *)
Fixpoint split_space (s : list Z) : option (list Z * list Z) :=
  match s with
  | [] => None
  | c :: s => if c =? 32 then Some ([], s) else match split_space s with Some (a, b) => Some (c :: a, b) | None => None end
  end.
(** Past the blanks and the word. *)
Fixpoint after_word (s : list Z) : list Z :=
  match s with c :: s' => if is_blank c then s else after_word s' | [] => [] end.

Definition read_typed (ret : Key) (cp : list Z) : outcome (bool * Key * list Z) :=
  match split_space cp with
  | None => Ok (false, ret, cp)
  | Some (name, data) =>
      let type := key_type_from_name name in
      let curve := if key_type_plain type =? KEY_ECDSA then key_ecdsa_nid_from_name name else None in
      (* the space is still overwritten by a NUL here *)
      if (key_type_plain type =? KEY_ECDSA) && bool_decide (curve = None) then Ok (false, ret, name)
      else if type =? KEY_UNSPEC then Ok (false, ret, cp)
      else match data with
      | [] => Ok (false, ret, cp)
      | _ =>
          if negb (k_type ret =? KEY_UNSPEC) && negb (k_type ret =? type) then Ok (false, ret, cp)
          else
            let ret := ret <| k_type := type |> in
            '(n, blob) ← uudecode data (replicate (2 * length data) 0);
            if n <? 0 then Ok (false, ret, cp)
            else
              o ← key_from_blob datafellows (take (Z.to_nat n) blob);
              match o with
              | None => Ok (false, ret, cp)
              | Some k =>
                  if negb (k_type k =? type) then Ok (false, ret, cp)
                  else if (key_type_plain type =? KEY_ECDSA) && negb (bool_decide (curve = k_nid k)) then Ok (false, ret, cp)
                  else Ok (true, take_over ret k, after_word (span_blank data).2)
              end
      end
  end.

(** Success, the key, and the text that [*cpp] points to. *)
Definition key_read (ret : Key) (cp : list Z) : outcome (bool * Key * list Z) :=
  if k_type ret =? KEY_RSA1 then read_rsa1 ret cp
  else if (k_type ret =? KEY_UNSPEC) || is_rsa_type (k_type ret) || is_dsa_type (k_type ret) || is_ecdsa_type (k_type ret)
  then read_typed ret cp
  else Fatal "key_read: bad key type".

(** What is printed to the file. *)
Definition write_bignum (num : bn) : option (list Z) := match BN_bn2dec num with None => None | Some buf => Some (32 :: buf) end.

Definition has_parts (k : Key) : bool :=
  let t := k_type k in
  if is_dsa_type t then bool_decide (is_Some (k_dsa k))
  else if is_ecdsa_type t then bool_decide (is_Some (k_ecdsa k))
  else if is_rsa_type t then bool_decide (is_Some (k_rsa k))
  else false.

(** Success, and what is printed. *)
Definition key_write (k : Key) : outcome (bool * list Z) :=
  if key_is_cert k && match k_cert k with None => true | Some c => bool_decide (c_certblob c = []) end then Ok (false, [])
  else if k_type k =? KEY_RSA1 then
    match k_rsa k with
    | None => Ok (false, [])
    | Some r =>
        let bits := Scanf.dec (BN_num_bits (r_n r)) in
        match write_bignum (r_e r) with
        | None => Ok (false, bits)
        | Some e => match write_bignum (r_n r) with
                    | None => Ok (false, bits ++ e)
                    | Some n => Ok (true, bits ++ e ++ n)
                    end
        end
    end
  else if negb (has_parts k) then Ok (false, [])
  else
    o ← key_to_blob k;
    blob ← deref o;
    '(n, uu) ← uuencode blob (replicate (2 * length blob) 0);
    if 0 <? n then Ok (true, key_ssh_name k ++ [32] ++ cstr uu) else Ok (false, []).
End KeyText.
