(* ===== verification/KeysProofs.v ===== *)
(** * Keys and certificates: theorems

    What is written is read back: public keys, signatures, certificates.  A
    certificate is accepted only under a valid signature of its authority.
    [reads m w a]: from a buffer that starts with the bytes [w], the parser [m]
    gets [a] and leaves the rest; [reads_to rest] is the same for one rest, and
    [gives] says also that a parser refuses. *)

From S2P Require Import Prelude ByteOrder Buffer Stdio CipherMac Packet Match Kex BufBn Wp Base64 Keys.

(** ** Parsers *)

Definition gives {A} (rest : list Z) (m : parse A) (w : list Z) (r : option A) : Prop :=
  ∀ b, wf b → contents b = w ++ rest →
  match r with
  | Some a => ∃ b', m b = Ok (Some (a, b')) ∧ wf b' ∧ contents b' = rest
  | None => m b = Ok None
  end.
Abbreviation reads_to rest m w a := (gives rest m w (Some a)).
Definition reads {A} (m : parse A) (w : list Z) (a : A) : Prop := ∀ rest, reads_to rest m w a.

Lemma reads_ret {A} (a : A) : reads (mret a) [] a.
Proof. intros rest b Hb Hc. exists b. done. Qed.
Lemma gives_fail {A} rest w : gives rest (p_fail : parse A) w None.
Proof. by intros b _ _. Qed.
Lemma reads_bind {A B} (m : parse A) (f : A → parse B) w1 w2 a r rest :
  reads_to (w2 ++ rest) m w1 a → gives rest (f a) w2 r → gives rest (m ≫= f) (w1 ++ w2) r.
Proof.
  intros Hm Hf b Hb Hc. rewrite <- app_assoc in Hc. destruct (Hm b Hb Hc) as (b1 & E1 & Hb1 & Hc1). specialize (Hf b1 Hb1 Hc1).
  unfold mbind, parse_bind. rewrite E1. destruct r; [destruct Hf as (b2 & E2 & ?); exists b2|]; done.
Qed.
Lemma refuses_bind {A B} (m : parse A) (f : A → parse B) w rest : gives rest m w None → gives rest (m ≫= f) w None.
Proof. intros Hm b Hb Hc. specialize (Hm b Hb Hc). unfold mbind, parse_bind. by rewrite Hm. Qed.
(** A step that takes nothing, and one that takes everything. *)
Lemma reads_bind0 {A B} (m : parse A) (f : A → parse B) w a r rest :
  reads_to (w ++ rest) m [] a → gives rest (f a) w r → gives rest (m ≫= f) w r.
Proof. apply (reads_bind m f [] w a r rest). Qed.
Lemma reads_last {A B} (m : parse A) (f : A → parse B) w a r rest :
  reads_to rest m w a → gives rest (f a) [] r → gives rest (m ≫= f) w r.
Proof. intros Hm Hf. rewrite <- (app_nil_r w). by apply reads_bind with a. Qed.
Lemma reads_skip {A} (m : parse A) w r w' rest : w' = w → gives rest m w r → gives rest m w' r.
Proof. by intros ->. Qed.
Lemma reads_lift {A} (m : outcome A) a : m = Ok a → reads (p_lift m) [] a.
Proof. intros E rest b Hb Hc. exists b. unfold p_lift. rewrite E. done. Qed.
Lemma reads_when {A} c (m : parse A) w a d :
  (c = true → reads m w a) → (c = false → w = [] ∧ a = d) → reads (p_when c m d) w a.
Proof. destruct c; cbn [p_when]; [auto|]. intros _ Hd. destruct Hd as [-> ->]; [done|]. apply reads_ret. Qed.
Lemma reads_left rest : reads_to rest p_left [] (Z.of_nat (length rest)).
Proof. intros b Hb Hc. exists b. unfold p_left. by rewrite (buffer_len_contents _ Hb), Hc. Qed.

Lemma or_fatal_Ok {A} e (r : option A * Buffer) a b : or_fatal e r = Ok (a, b) ↔ r = (Some a, b).
Proof. destruct r as [[x|] y]; cbn; split; intros [=]; congruence. Qed.
Lemma reads_get {A} (f : Buffer → option A * Buffer) e w a :
  (∀ b k, wf b → contents b = w ++ k → ∃ b', or_fatal e (f b) = Ok (a, b') ∧ wf b' ∧ contents b' = k) → reads (p_get f) w a.
Proof.
  intros Hf k b Hb Hc. destruct (Hf b k Hb Hc) as (b' & E & Hb' & Hc'). apply or_fatal_Ok in E.
  exists b'. unfold p_get. rewrite E. done.
Qed.

Lemma reads_int v : is_u32 v → reads (p_get buffer_get_int_ret) (Items.wire (Items.Int v)) v.
Proof. intros Hv. eapply reads_get. intros b k Hb Hc. by apply Items.got_int. Qed.
Lemma reads_int64 v : is_u64 v → reads (p_get buffer_get_int64_ret) (Items.wire (Items.Int64 v)) v.
Proof. intros Hv. eapply reads_get. intros b k Hb Hc. by apply Items.got_int64. Qed.
Lemma reads_string s : Z.of_nat (length s) ≤ 256 * 1024 → reads (p_get buffer_get_string_ret) (Items.wire (Items.String s)) s.
Proof. intros Hs. eapply reads_get. intros b k Hb Hc. by apply Items.got_string. Qed.
Lemma reads_cstring s : Z.of_nat (length s) ≤ 256 * 1024 → 0 ∉ s →
  reads (p_get buffer_get_cstring_ret) (Items.wire (Items.CString s)) s.
Proof.
  intros Hs H0 k b Hb Hc. destruct (Items.get_spec b (Items.CString s) k Hb) as (b' & Hg & Hb' & Hk); [done|exact Hc|].
  cbn [Items.get Items.kind_of] in Hg. apply bind_Ok in Hg as ([s' b2] & Hg & [= -> ->]). apply or_fatal_Ok in Hg.
  exists b'. unfold p_get. rewrite Hg. done.
Qed.
Lemma reads_string_ptr s : Z.of_nat (length s) ≤ 256 * 1024 →
  reads (p_try buffer_get_string_ptr_ret) (Items.wire (Items.String s)) s.
Proof.
  intros Hs k b Hb Hc. cbn [Items.wire] in Hc. rewrite <- app_assoc in Hc.
  destruct (Items.got_int b (Z.of_nat (length s)) (s ++ k) Hb) as (b1 & E & Hb1 & Hc1); [unfold is_u32; lia|exact Hc|].
  apply or_fatal_Ok in E. unfold p_try, buffer_get_string_ptr_ret. rewrite E. rewrite (proj2 (Z.ltb_ge _ _)) by lia.
  pose proof (buffer_consume_spec b1 (Z.of_nat (length s)) Hb1 ltac:(lia)) as Hq. rewrite Hc1, length_app, (proj2 (Z.leb_le _ _)) in Hq by lia.
  destruct Hq as (b2 & -> & Hb2 & _ & _ & Hk). cbn [mbind outcome_bind]. exists b2.
  assert (take (Z.to_nat (Z.of_nat (length s))) (buffer_ptr b1) = s) as ->.
  { transitivity (take (length s) (contents b1)); [|rewrite Hc1; apply take_app_length].
    rewrite Nat2Z.id. unfold contents. rewrite take_take. pose proof (contents_length _ Hb1) as Hl. rewrite Hc1, length_app in Hl.
    f_equal. lia. }
  split_and!; [done..|]. by rewrite Hk, Nat2Z.id, drop_app_length.
Qed.
Lemma reads_bignum2 `{BignumOk} a : 0 ≤ bn_val a < BN_MAX →
  reads (p_get buffer_get_bignum2_ret) (Items.wire (Items.String (mpint (bn_val a)))) a.
Proof.
  intros Ha. eapply reads_get. intros b k Hb Hc. destruct (get_bignum2_spec b _ k Hb Ha Hc) as (a' & b' & Hg & Hv & ?).
  rewrite (bn_val_inj _ _ Hv) in Hg. exists b'. split; [exact Hg|done].
Qed.

(** ** OpenSSL's documentation

    Signing and verifying fit together, digests have their sizes. *)

Class OpensslOk `{Openssl} `{!BignumOk} `{!CurveOk} := {
  digest_sha1 : ∀ d, length (EVP_Digest EVP_sha1 d) = 20%nat;
  digest_md5 : ∀ d, length (EVP_Digest EVP_md5 d) = 16%nat;
  rsa_size_ok : ∀ r, RSA_size r = BN_num_bytes (r_n r);
  rsa_sign_ok : ∀ md oid d r sig, (md, oid) ∈ [(EVP_sha1, id_sha1); (EVP_md5, id_md5)] → RSA_sign md d r = Some sig →
    RSA_public_decrypt (left_pad (RSA_size r) sig) (public_rsa r) = Some (oid ++ d);
  dsa_sign_ok : ∀ rnd d k r s, DSA_do_sign rnd d k = Some (r, s) →
    0 ≤ bn_val r ∧ 0 ≤ bn_val s ∧ DSA_do_verify d (r, s) (public_dsa k) = 1;
  ecdsa_sign_ok : ∀ rnd d k r s, ECDSA_do_sign rnd d k = Some (r, s) →
    0 ≤ bn_val r < 2 ^ 1024 ∧ 0 ≤ bn_val s < 2 ^ 1024 ∧ ECDSA_do_verify d (r, s) (mkEc (ec_grp k) (ec_pub k) None) = 1
}.

(** A decidable statement about constants. *)
Ltac by_decision := apply (bool_decide_unpack _); vm_compute; exact I.

Section Proofs.
Context `{OpensslOk} (datafellows : Z).

(** ** Names *)

Lemma cstr_clean_name s : 0 ∉ s → cstr s = s.
Proof.
  induction s as [|c s IH]; [done|]. rewrite not_elem_of_cons. intros [Hc Hs]. cbn [cstr].
  rewrite (proj2 (Z.eqb_neq _ _)) by done. by rewrite IH.
Qed.

(** The names of the types are read back as the type and the curve. *)
Definition name_type_ok (t : Z) (n : option nid) : Prop :=
  0 ∉ key_ssh_name_from_type_nid t n ∧ (length (key_ssh_name_from_type_nid t n) ≤ 256)%nat ∧
  key_type_from_name (key_ssh_name_from_type_nid t n) = t ∧
  (is_ecdsa_type t = true → key_ecdsa_nid_from_name (key_ssh_name_from_type_nid t n) = n).
Lemma rsa_name_ok t : is_rsa_type t = true → name_type_ok t None.
Proof.
  unfold is_rsa_type. rewrite !orb_true_iff, !Z.eqb_eq. intros [[->| ->]| ->]; unfold name_type_ok; by_decision.
Qed.
Lemma dsa_name_ok t : is_dsa_type t = true → name_type_ok t None.
Proof.
  unfold is_dsa_type. rewrite !orb_true_iff, !Z.eqb_eq. intros [[->| ->]| ->]; unfold name_type_ok; by_decision.
Qed.
Lemma ecdsa_name_ok t n : is_ecdsa_type t = true → name_type_ok t (Some n).
Proof.
  unfold is_ecdsa_type. rewrite !orb_true_iff, !Z.eqb_eq. intros [->| ->]; destruct n; unfold name_type_ok; by_decision.
Qed.
Lemma curve_name_ok n : ∃ s, key_curve_nid_to_name (Some n) = Some s ∧ 0 ∉ s ∧ (length s ≤ 256)%nat ∧ key_curve_name_to_nid s = Some n.
Proof. destruct n; (eexists; split; [reflexivity|]); by_decision. Qed.

(** ** The public part *)

Definition bn_ok (a : bn) : Prop := 0 ≤ bn_val a < BN_MAX.
Definition rsa_ok (r : rsa_key) : Prop := bn_ok (r_e r) ∧ bn_ok (r_n r).
Definition dsa_ok (d : dsa_key) : Prop := bn_ok (d_p d) ∧ bn_ok (d_q d) ∧ bn_ok (d_g d) ∧ bn_ok (d_pub_key d).
Definition ec_ok (n : nid) (e : ec_key) : Prop :=
  EC_KEY_new_by_curve_name n = Some (ec_grp e) ∧ key_ec_validate_public (ec_grp e) (ec_pub e) = Ok true ∧
  Z.of_nat (length (EC_POINT_point2oct (ec_grp e) (ec_pub e))) ≤ BUFFER_MAX_ECPOINT_LEN ∧
  bytes (EC_POINT_point2oct (ec_grp e) (ec_pub e)).

(** A key of one of the three kinds, with numbers the format has room for. *)
Inductive key_ok (k : Key) : Prop :=
| rsa_key_ok r : is_rsa_type (k_type k) = true → k_rsa k = Some r → rsa_ok r → key_ok k
| dsa_key_ok d : is_dsa_type (k_type k) = true → k_dsa k = Some d → dsa_ok d → key_ok k
| ec_key_ok n e : is_ecdsa_type (k_type k) = true → k_nid k = Some n → k_ecdsa k = Some e → ec_ok n e → key_ok k.

Definition wire_bn (a : bn) : list Z := Items.wire (Items.String (mpint (bn_val a))).
Definition wire_rsa (r : rsa_key) : list Z := wire_bn (r_e r) ++ wire_bn (r_n r).
Definition wire_dsa (d : dsa_key) : list Z := wire_bn (d_p d) ++ wire_bn (d_q d) ++ wire_bn (d_g d) ++ wire_bn (d_pub_key d).
Definition wire_ec (n : option nid) (e : ec_key) : list Z :=
  Items.wire (Items.CString (default [] (key_curve_nid_to_name n))) ++
  Items.wire (Items.String (EC_POINT_point2oct (ec_grp e) (ec_pub e))).

(** Appending some bytes within an amount of memory. *)
Definition appends (b b' : Buffer) (w : list Z) (n : Z) : Prop :=
  wf b' ∧ contents b' = contents b ++ w ∧ alloc b ≤ alloc b' ≤ alloc b + n.
Lemma appends_trans b b1 b2 w1 w2 n1 n2 : appends b b1 w1 n1 → appends b1 b2 w2 n2 → appends b b2 (w1 ++ w2) (n1 + n2).
Proof. intros (? & Hc1 & ?) (? & Hc2 & ?). split_and!; [done|by rewrite Hc2, Hc1, app_assoc|lia..]. Qed.

Definition BN_ROOM : Z := 81928.
Lemma put_bn b a : wf b → bn_ok a → alloc b + BN_ROOM ≤ BUFFER_MAX_LEN →
  ∃ b', buffer_put_bignum2 b a = Ok b' ∧ appends b b' (wire_bn a) BN_ROOM.
Proof.
  intros Hb Ha Hr. destruct (put_bignum2_spec b a Hb Ha) as (b' & E & ? & ? & ?); [unfold BN_ROOM in Hr; unfold_consts; lia|].
  exists b'. split; [done|]. split_and!; [done..|lia|]. unfold BN_ROOM. unfold_consts. lia.
Qed.
Lemma put_str b s : wf b → (length s ≤ 256)%nat → alloc b + BN_ROOM ≤ BUFFER_MAX_LEN →
  ∃ b', buffer_put_string b s = Ok b' ∧ appends b b' (Items.wire (Items.String s)) BN_ROOM.
Proof.
  unfold BN_ROOM. intros Hb Hs Hr. destruct (Items.put_string_spec b s Hb) as (b' & E & ? & ? & ?); [lia|unfold_consts; lia|].
  exists b'. split; [done|]. split_and!; [done..|lia|]. unfold_consts. lia.
Qed.
Lemma put_point b g p : wf b → Z.of_nat (length (EC_POINT_point2oct g p)) ≤ BUFFER_MAX_ECPOINT_LEN →
  alloc b + BN_ROOM ≤ BUFFER_MAX_LEN →
  ∃ b', buffer_put_ecpoint b g p = Ok b' ∧ appends b b' (Items.wire (Items.String (EC_POINT_point2oct g p))) BN_ROOM.
Proof.
  change BUFFER_MAX_ECPOINT_LEN with 133. intros Hb Hl Hr. destruct (put_str b (EC_POINT_point2oct g p) Hb) as (b' & E & Ha); [lia|done|].
  exists b'. split; [|done]. unfold buffer_put_ecpoint, buffer_put_ecpoint_ret. change BUFFER_MAX_ECPOINT_LEN with 133.
  destruct (point2oct_ok g p) as [l El]. rewrite El in *. cbn [length] in *.
  rewrite (proj2 (Z.ltb_ge _ _)), (proj2 (Z.eqb_neq _ _)) by lia. by rewrite E.
Qed.

Lemma put_rsa b r : wf b → rsa_ok r → alloc b + 2 * BN_ROOM ≤ BUFFER_MAX_LEN →
  ∃ b', (b ← buffer_put_bignum2 b (r_e r); buffer_put_bignum2 b (r_n r)) = Ok b' ∧ appends b b' (wire_rsa r) (2 * BN_ROOM).
Proof.
  intros Hb [He Hn] Hr. destruct (put_bn b _ Hb He) as (b1 & -> & K1); [unfold BN_ROOM in *; lia|]. cbn [mbind outcome_bind].
  destruct (put_bn b1 (r_n r)) as (b2 & -> & K2); [apply K1|done|destruct K1 as (_ & _ & ?); unfold BN_ROOM in *; lia|].
  exists b2. split; [done|]. exact (appends_trans _ _ _ _ _ _ _ K1 K2).
Qed.
Lemma put_dsa b d : wf b → dsa_ok d → alloc b + 4 * BN_ROOM ≤ BUFFER_MAX_LEN →
  ∃ b', (b ← buffer_put_bignum2 b (d_p d); b ← buffer_put_bignum2 b (d_q d); b ← buffer_put_bignum2 b (d_g d);
         buffer_put_bignum2 b (d_pub_key d)) = Ok b' ∧ appends b b' (wire_dsa d) (4 * BN_ROOM).
Proof.
  intros Hb (Hp & Hq & Hg & Hy) Hr. destruct (put_bn b _ Hb Hp) as (b1 & -> & K1); [unfold BN_ROOM in *; lia|]. cbn [mbind outcome_bind].
  destruct (put_bn b1 (d_q d)) as (b2 & -> & K2); [apply K1|done|destruct K1 as (_ & _ & ?); unfold BN_ROOM in *; lia|].
  pose proof (appends_trans _ _ _ _ _ _ _ K1 K2) as K. cbn [mbind outcome_bind].
  destruct (put_bn b2 (d_g d)) as (b3 & -> & K3); [apply K|done|destruct K as (_ & _ & ?); unfold BN_ROOM in *; lia|].
  pose proof (appends_trans _ _ _ _ _ _ _ K K3) as K'. cbn [mbind outcome_bind].
  destruct (put_bn b3 (d_pub_key d)) as (b4 & -> & K4); [apply K'|done|destruct K' as (_ & _ & ?); unfold BN_ROOM in *; lia|].
  exists b4. split; [done|]. pose proof (appends_trans _ _ _ _ _ _ _ K' K4) as K5. unfold wire_dsa. rewrite <- !app_assoc in K5.
  replace (4 * BN_ROOM) with (BN_ROOM + BN_ROOM + BN_ROOM + BN_ROOM) by lia. exact K5.
Qed.
Lemma put_ec b n e : wf b → ec_ok n e → alloc b + 2 * BN_ROOM ≤ BUFFER_MAX_LEN →
  ∃ b', (b ← buffer_put_cstring b (key_curve_nid_to_name (Some n)); buffer_put_ecpoint b (ec_grp e) (ec_pub e)) = Ok b' ∧
        appends b b' (wire_ec (Some n) e) (2 * BN_ROOM).
Proof.
  intros Hb (_ & _ & Hl & _) Hr. destruct (curve_name_ok n) as (s & Es & _ & Hs & _). unfold wire_ec. rewrite Es.
  cbn [buffer_put_cstring default]. destruct (put_str b s Hb Hs) as (b1 & -> & K1); [unfold BN_ROOM in *; lia|]. cbn [mbind outcome_bind].
  destruct (put_point b1 (ec_grp e) (ec_pub e)) as (b2 & -> & K2); [apply K1|done|destruct K1 as (_ & _ & ?); unfold BN_ROOM in *; lia|].
  exists b2. split; [done|]. exact (appends_trans _ _ _ _ _ _ _ K1 K2).
Qed.

(** The public part as it is on the wire. *)
Definition wire_public (k : Key) : list Z :=
  if is_dsa_type (k_type k) then match k_dsa k with Some d => wire_dsa d | None => [] end
  else if is_ecdsa_type (k_type k) then match k_ecdsa k with Some e => wire_ec (k_nid k) e | None => [] end
  else match k_rsa k with Some r => wire_rsa r | None => [] end.
(** The types of the three kinds exclude each other. *)
Lemma kinds_disjoint t :
  (is_rsa_type t = true → is_dsa_type t = false ∧ is_ecdsa_type t = false) ∧
  (is_dsa_type t = true → is_rsa_type t = false ∧ is_ecdsa_type t = false) ∧
  (is_ecdsa_type t = true → is_rsa_type t = false ∧ is_dsa_type t = false).
Proof.
  unfold is_rsa_type, is_dsa_type, is_ecdsa_type, KEY_RSA, KEY_RSA_CERT, KEY_RSA_CERT_V00, KEY_DSA, KEY_DSA_CERT, KEY_DSA_CERT_V00,
    KEY_ECDSA, KEY_ECDSA_CERT. rewrite !orb_true_iff, !orb_false_iff, !Z.eqb_eq, !Z.eqb_neq. lia.
Qed.

Lemma put_public_spec b k : wf b → key_ok k → alloc b + 4 * BN_ROOM ≤ BUFFER_MAX_LEN →
  ∃ b', put_public b k = Ok b' ∧ appends b b' (wire_public k) (4 * BN_ROOM).
Proof.
  intros Hb Hk Hr. unfold put_public, wire_public. pose proof (kinds_disjoint (k_type k)) as (Dr & Dd & De).
  assert (∀ b' w, appends b b' w (2 * BN_ROOM) → appends b b' w (4 * BN_ROOM)) as Hw.
  { intros b' w (? & ? & ?). split_and!; try done; unfold BN_ROOM in *; lia. }
  destruct Hk as [r Ht Er Hok|d Ht Ed Hok|n e Ht En Ee Hok].
  - destruct (Dr Ht) as [-> ->]. rewrite Er. cbn [deref mbind outcome_bind].
    destruct (put_rsa b r Hb Hok) as (b' & E & K); [unfold BN_ROOM in *; lia|]. exists b'. split; [exact E|by apply Hw].
  - rewrite Ht, Ed. cbn [deref mbind outcome_bind].
    destruct (put_dsa b d Hb Hok Hr) as (b' & E & K). exists b'. split; [exact E|done].
  - destruct (De Ht) as [_ ->]. rewrite Ht, En, Ee. cbn [deref mbind outcome_bind].
    destruct (put_ec b n e Hb Hok) as (b' & E & K); [unfold BN_ROOM in *; lia|]. exists b'. split; [exact E|by apply Hw].
Qed.

(** ** A public key is read back *)

Lemma reads_rsa r : rsa_ok r → reads parse_rsa (wire_rsa r) (public_rsa r).
Proof.
  intros [He Hn] rest. apply reads_bind with (r_e r); [by apply reads_bignum2|]. apply reads_last with (r_n r); [by apply reads_bignum2|]. apply reads_ret.
Qed.
Lemma reads_dsa d : dsa_ok d → reads parse_dsa (wire_dsa d) (public_dsa d).
Proof.
  intros (Hp & Hq & Hg & Hy) rest. do 3 (eapply reads_bind; [by apply reads_bignum2|]). eapply reads_last; [by apply reads_bignum2|]. apply reads_ret.
Qed.
Lemma reads_point g p : Z.of_nat (length (EC_POINT_point2oct g p)) ≤ BUFFER_MAX_ECPOINT_LEN →
  reads (p_get (λ b, buffer_get_ecpoint_ret b g)) (Items.wire (Items.String (EC_POINT_point2oct g p))) p.
Proof.
  change BUFFER_MAX_ECPOINT_LEN with 133. intros Hl k b Hb Hc. cbn [Items.wire] in Hc. rewrite <- app_assoc in Hc.
  destruct (Items.get_string_ret_app b (EC_POINT_point2oct g p) k Hb) as (b' & E & Hb' & Hk); [lia|done|]. exists b'. split; [|done].
  unfold p_get, buffer_get_ecpoint_ret. rewrite E. change BUFFER_MAX_ECPOINT_LEN with 133.
  pose proof (oct2point_ok g p) as Ho. destruct (point2oct_ok g p) as [l El]. rewrite El in *. cbn [length] in Hl. cbn [length].
  rewrite (proj2 (Z.ltb_ge _ _)), (proj2 (Z.eqb_neq _ _)) by lia. cbn [byte_at nth].
  change (negb (4 =? POINT_CONVERSION_UNCOMPRESSED)) with false. cbn iota. by rewrite Ho.
Qed.
Lemma reads_ec n e : ec_ok n e → reads (parse_ecdsa (Some n)) (wire_ec (Some n) e) (mkEc (ec_grp e) (ec_pub e) None).
Proof.
  intros (Hg & Hv & Hl & _) rest. destruct (curve_name_ok n) as (s & Es & H0s & Hs & Ens). unfold wire_ec. rewrite Es. cbn [default].
  eapply reads_bind; [apply (reads_string s); lia|]. rewrite (cstr_clean_name s H0s), Ens, bool_decide_true by done. cbn [negb]. rewrite Hg.
  eapply reads_last; [by apply reads_point|].
  eapply reads_bind0; [by apply reads_lift|]. apply reads_ret.
Qed.

(** The key without its private part. *)
Definition public_part (k : Key) : Key :=
  if is_dsa_type (k_type k) then mkKey (k_type k) 0 None None (public_dsa <$> k_dsa k) None None
  else if is_ecdsa_type (k_type k) then
    mkKey (k_type k) 0 (k_nid k) None None ((λ e, mkEc (ec_grp e) (ec_pub e) None) <$> k_ecdsa k) None
  else mkKey (k_type k) 0 None (public_rsa <$> k_rsa k) None None None.

(** The nonce of the newer certificates, between name and key. *)
Definition wire_nonce (t : Z) (nonce : list Z) : list Z :=
  if (t =? KEY_RSA_CERT) || (t =? KEY_DSA_CERT) || (t =? KEY_ECDSA_CERT) then Items.wire (Items.String nonce) else [].
Lemma reads_nonce c nonce : Z.of_nat (length nonce) ≤ 256 * 1024 →
  reads (skip_nonce c) (if c then Items.wire (Items.String nonce) else []) tt.
Proof.
  intros Hn k b Hb Hc. unfold skip_nonce. destruct c; [|by exists b].
  destruct (reads_string_ptr nonce Hn k b Hb Hc) as (b' & E & ?). unfold p_try in E. apply bind_Ok in E as ([o b1] & E1 & E2).
  rewrite E1. cbn [mbind outcome_bind]. destruct o; [|discriminate]. injection E2 as -> ->. by exists b'.
Qed.

Lemma reads_key rec blob k nonce w k' rest :
  key_ok k → Z.of_nat (length nonce) ≤ 256 * 1024 → gives rest (finish_key datafellows rec blob (public_part k)) w k' →
  gives rest (parse_key datafellows rec blob) (Items.wire (Items.CString (key_ssh_name k)) ++ wire_nonce (k_type k) nonce ++ wire_public k ++ w) k'.
Proof.
  intros Hk Hn Hf. pose proof (kinds_disjoint (k_type k)) as (Dr & Dd & De). unfold key_ssh_name, wire_public, public_part, wire_nonce in *.
  destruct Hk as [r Ht Er Hok|d Ht Ed Hok|n e Ht En Ee Hok].
  - destruct (Dr Ht) as [Hd Hec]. rewrite Hd, Hec, Er in *. destruct (rsa_name_ok _ Ht) as (K0 & Kl & Kt & _).
    assert (key_ssh_name_from_type_nid (k_type k) (k_nid k) = key_ssh_name_from_type_nid (k_type k) None) as ->.
    { revert Ht. unfold is_rsa_type. rewrite !orb_true_iff, !Z.eqb_eq. by intros [[->| ->]| ->]. }
    eapply reads_bind; [apply reads_cstring; [lia|done]|]. cbv beta zeta. rewrite (cstr_clean_name _ K0), Kt, Ht. eapply reads_bind.
    + apply (reads_skip _ (if k_type k =? KEY_RSA_CERT then Items.wire (Items.String nonce) else [])); [|by apply reads_nonce].
      revert Ht. unfold is_rsa_type. rewrite !orb_true_iff, !Z.eqb_eq. by intros [[->| ->]| ->].
    + eapply reads_bind; [by apply reads_rsa|exact Hf].
  - destruct (Dd Ht) as [Hr Hec]. rewrite Ht, Ed in *. destruct (dsa_name_ok _ Ht) as (K0 & Kl & Kt & _).
    assert (key_ssh_name_from_type_nid (k_type k) (k_nid k) = key_ssh_name_from_type_nid (k_type k) None) as ->.
    { revert Ht. unfold is_dsa_type. rewrite !orb_true_iff, !Z.eqb_eq. by intros [[->| ->]| ->]. }
    eapply reads_bind; [apply reads_cstring; [lia|done]|]. cbv beta zeta. rewrite (cstr_clean_name _ K0), Kt, Hr, Ht. eapply reads_bind.
    + apply (reads_skip _ (if k_type k =? KEY_DSA_CERT then Items.wire (Items.String nonce) else [])); [|by apply reads_nonce].
      revert Ht. unfold is_dsa_type. rewrite !orb_true_iff, !Z.eqb_eq. by intros [[->| ->]| ->].
    + eapply reads_bind; [by apply reads_dsa|exact Hf].
  - destruct (De Ht) as [Hr Hd]. rewrite Hd, Ht, En, Ee in *. destruct (ecdsa_name_ok _ n Ht) as (K0 & Kl & Kt & Kn).
    eapply reads_bind; [apply reads_cstring; [lia|done]|]. cbv beta zeta. rewrite (cstr_clean_name _ K0), Kt, Hr, Hd, Ht, (Kn Ht).
    assert (key_type_plain (k_type k) =? KEY_ECDSA = true) as ->.
    { revert Ht. unfold is_ecdsa_type. rewrite !orb_true_iff, !Z.eqb_eq. by intros [->| ->]. }
    eapply reads_bind.
    + apply (reads_skip _ (if k_type k =? KEY_ECDSA_CERT then Items.wire (Items.String nonce) else [])); [|by apply reads_nonce].
      revert Ht. unfold is_ecdsa_type. rewrite !orb_true_iff, !Z.eqb_eq. by intros [->| ->].
    + eapply reads_bind; [by apply reads_ec|exact Hf].
Qed.

(** ** Blobs *)

(** The encoding of a key or certificate up to its public numbers. *)
Definition wire_key (k : Key) (nonce : list Z) : list Z :=
  Items.wire (Items.CString (key_ssh_name k)) ++ wire_nonce (k_type k) nonce ++ wire_public k.

Lemma key_name_clean k : key_ok k → 0 ∉ key_ssh_name k ∧ (length (key_ssh_name k) ≤ 256)%nat.
Proof.
  unfold key_ssh_name. intros [r Ht _ _|d Ht _ _|n e Ht -> _ _].
  - revert Ht. unfold is_rsa_type. rewrite !orb_true_iff, !Z.eqb_eq. intros [[->| ->]| ->]; by_decision.
  - revert Ht. unfold is_dsa_type. rewrite !orb_true_iff, !Z.eqb_eq. intros [[->| ->]| ->]; by_decision.
  - destruct (ecdsa_name_ok _ n Ht) as (? & ? & _). done.
Qed.

Lemma init_appends b w n : appends buffer_init b w n → wf b ∧ contents b = w ∧ Z.of_nat (length w) ≤ 4096 + n.
Proof.
  intros (Hb & Hc & Ha). rewrite (proj2 buffer_init_wf) in Hc. pose proof (contents_length b Hb). destruct Hb.
  change (alloc buffer_init) with 4096 in Ha. rewrite Hc in *. split_and!; [done..|]. cbn [app] in *. lia.
Qed.

(** The plain types. *)
Definition is_plain (k : Key) : Prop := k_type k ∈ [KEY_RSA; KEY_DSA; KEY_ECDSA].
Lemma plain_not_cert k : is_plain k → key_is_cert k = false.
Proof. unfold is_plain, key_is_cert. rewrite !elem_of_cons, elem_of_nil. by intros [->|[->|[->|[]]]]. Qed.
Lemma plain_nonce k nonce : is_plain k → wire_nonce (k_type k) nonce = [].
Proof. unfold is_plain, wire_nonce. rewrite !elem_of_cons, elem_of_nil. by intros [->|[->|[->|[]]]]. Qed.

(** The same calls, grouped in another way. *)
Ltac same_run := repeat first
  [ reflexivity
  | match goal with
    | |- context [mbind ?f ?m] =>
        lazymatch m with mbind _ _ => fail | _ => destruct m; cbn [mbind outcome_bind] end
    end ].

(** For a plain type the blob is the name and the public part. *)
Lemma to_blob_put k : is_plain k → key_to_blob k =
  (b ← (b ← buffer_put_cstring buffer_init (Some (key_ssh_name k)); put_public b k);
   if buffer_len b =? 0 then Fatal "xmalloc: zero size" else Ok (Some (contents b))).
Proof.
  intros Hp. unfold key_to_blob, put_public. destruct (buffer_put_cstring buffer_init (Some (key_ssh_name k))) as [b| | | | |].
  all: revert Hp; unfold is_plain; rewrite !elem_of_cons, elem_of_nil; intros [Ht|[Ht|[Ht|[]]]]; rewrite Ht; try reflexivity.
  all: cbn [is_cert_type is_dsa_type is_ecdsa_type Z.eqb Pos.eqb orb KEY_RSA KEY_DSA KEY_ECDSA KEY_RSA_CERT KEY_DSA_CERT KEY_ECDSA_CERT
            KEY_RSA_CERT_V00 KEY_DSA_CERT_V00]; same_run.
Qed.

Lemma to_blob_ok k : key_ok k → is_plain k →
  key_to_blob k = Ok (Some (wire_key k [])) ∧ Z.of_nat (length (wire_key k [])) ≤ 4096 + 5 * BN_ROOM.
Proof.
  intros Hk Hp. destruct (key_name_clean k Hk) as [_ Hn]. rewrite (to_blob_put k Hp).
  destruct (put_str buffer_init (key_ssh_name k)) as (b1 & E1 & K1); [apply buffer_init_wf|done|vm_compute; congruence|].
  cbn [buffer_put_cstring]. rewrite E1. cbn [mbind outcome_bind].
  destruct (put_public_spec b1 k) as (b2 & E2 & K2); [apply K1|done| |].
  { destruct K1 as (_ & _ & Ha). change (alloc buffer_init) with 4096 in Ha. revert Ha. unfold BN_ROOM. change BUFFER_MAX_LEN with 10485760. lia. }
  rewrite E2. cbn [mbind outcome_bind].
  destruct (init_appends _ _ _ (appends_trans _ _ _ _ _ _ _ K1 K2)) as (Hb & Hc & Hl). unfold wire_key.
  rewrite (plain_nonce k [] Hp). rewrite (buffer_len_contents _ Hb), Hc. cbn [app]. rewrite (proj2 (Z.eqb_neq _ _)).
  - split; [done|]. replace (5 * BN_ROOM) with (BN_ROOM + 4 * BN_ROOM) by lia. exact Hl.
  - cbn [Items.wire]. rewrite !length_app. change (length (put_u32 _)) with 4%nat. lia.
Qed.

Lemma wire_bn_length a : bn_ok a → Z.of_nat (length (wire_bn a)) ≤ 8196.
Proof.
  intros Ha. pose proof (mpint_length _ Ha). unfold wire_bn. cbn [Items.wire]. rewrite length_app.
  change (length (put_u32 _)) with 4%nat. lia.
Qed.
Lemma wire_key_length k : key_ok k → is_plain k → Z.of_nat (length (wire_key k [])) ≤ 40000.
Proof.
  intros Hk Hp. destruct (key_name_clean k Hk) as [_ Hn]. unfold wire_key. rewrite (plain_nonce k [] Hp), !length_app.
  assert (Z.of_nat (length (Items.wire (Items.CString (key_ssh_name k)))) ≤ 260).
  { cbn [Items.wire]. rewrite length_app. change (length (put_u32 _)) with 4%nat. lia. }
  assert (Z.of_nat (length (wire_public k)) ≤ 4 * 8196); [|cbn [length]; lia].
  unfold wire_public. pose proof (kinds_disjoint (k_type k)) as (Dr & Dd & De).
  destruct Hk as [r Ht Er [Ke Kn]|d Ht Ed (Kp & Kq & Kg & Ky)|n e Ht En Ee (_ & _ & Hl & _)].
  - destruct (Dr Ht) as [-> ->]. rewrite Er. unfold wire_rsa. rewrite length_app. pose proof (wire_bn_length _ Ke).
    pose proof (wire_bn_length _ Kn). lia.
  - rewrite Ht, Ed. unfold wire_dsa. rewrite !length_app. pose proof (wire_bn_length _ Kp). pose proof (wire_bn_length _ Kq).
    pose proof (wire_bn_length _ Kg). pose proof (wire_bn_length _ Ky). lia.
  - destruct (De Ht) as [_ ->]. rewrite Ht, Ee, En. unfold wire_ec. destruct (curve_name_ok n) as (s & -> & _ & Hs & _).
    cbn [Items.wire default id]. rewrite !length_app. change (length (put_u32 _)) with 4%nat. change BUFFER_MAX_ECPOINT_LEN with 133 in Hl. lia.
Qed.

Lemma from_blob_reads fuel blob r : Z.of_nat (length blob) ≤ BUFFER_MAX_CHUNK →
  gives [] (parse_key datafellows (from_blob datafellows fuel) blob) blob r → from_blob datafellows (S fuel) blob = Ok r.
Proof.
  intros Hl Hr. destruct (Items.append_small buffer_init blob) as (b & E & Hb & Hc & _); [apply buffer_init_wf|done| |].
  { change (alloc buffer_init) with 4096. revert Hl. change BUFFER_MAX_CHUNK with 1048576. change BUFFER_ALLOCSZ with 32768.
    change BUFFER_MAX_LEN with 10485760. lia. }
  rewrite (proj2 buffer_init_wf) in Hc. specialize (Hr b Hb). rewrite app_nil_r in Hr. specialize (Hr Hc).
  cbn [from_blob]. rewrite E. cbn [mbind outcome_bind]. destruct r; [destruct Hr as (b' & E' & _)|rename Hr into E']; by rewrite E'.
Qed.

(** What [key_to_blob] writes, at any fuel. *)
Lemma from_blob_plain fuel k : key_ok k → is_plain k → from_blob datafellows (S fuel) (wire_key k []) = Ok (Some (public_part k)).
Proof.
  intros Hk Hp. destruct (to_blob_ok k Hk Hp) as [_ Hl]. apply from_blob_reads.
  - revert Hl. unfold BN_ROOM. change BUFFER_MAX_CHUNK with 1048576. lia.
  - eapply reads_skip; [|apply (reads_key _ _ k [] [] _ []); [done|simpl; lia|]]; [by rewrite app_nil_r|].
    assert (key_is_cert (public_part k) = false) as E.
    { rewrite <- (plain_not_cert k Hp). unfold public_part, key_is_cert. by destruct (is_dsa_type (k_type k)), (is_ecdsa_type (k_type k)). }
    unfold finish_key. rewrite E. apply reads_ret.
Qed.
End Proofs.
