(* ===== verification/KeyDemo.v ===== *)
(** * A small model of OpenSSL

    Shows that the documented behaviour of OpenSSL that the theorems on keys
    rely on can be had: integers as big numbers, signatures that contain the
    digest, curves whose points are byte strings.  Keys for the examples. *)

From S2P Require Import Prelude ByteOrder Buffer Stdio CipherMac Packet Match Kex BufBn Wp Base64 Keys KeysProofs.

Module KeyDemo.
Import ZBignum.

#[export] Instance toy_curve : Curve := {|
  ec_group := nid;
  ec_point := list Z;
  EC_POINT_point2oct := λ _ p, 4 :: p;
  EC_POINT_oct2point := λ _ l, Some (tail l)
|}.
#[export] Instance toy_curve_ok : CurveOk.
Proof. split; [intros g p; by exists p|done]. Qed.

Definition toy_digest (md : evp_md_type) (d : list Z) : list Z :=
  let n := match md with EVP_sha1 => 20%nat | EVP_md5 => 16%nat | _ => 32%nat end in
  map u8 (take n (d ++ replicate n 0)).
Fixpoint strip (l : list Z) : list Z := match l with c :: l' => if c =? 0 then strip l' else l | [] => [] end.
Definition toy_val (d : list Z) : Z := Z.abs (be_val d) mod 2 ^ 1024.
Fixpoint decimal (fuel : nat) (v : Z) : list Z :=
  match fuel with O => [] | S fuel => if v <? 10 then [48 + v] else decimal fuel (v / 10) ++ [48 + v mod 10] end.

(** In the order of the class. *)
#[export] Instance toy_openssl : @Openssl z_bignum toy_curve :=
  @Build_Openssl z_bignum toy_curve
    (* BN_cmp *) (λ a b : Z, a - b)
    (* BN_minus_one *) (λ a : Z, a - 1)
    (* BN_dec2bn *) (λ l, Some (foldl (λ v c, 10 * v + (c - 48)) 0 l))
    (* BN_bn2dec *) (λ a : Z, Some (decimal (S (Z.to_nat (nbits a))) a))
    (* EVP_get_digestbynid *) (λ _, true)
    (* EVP_Digest *) (toy_digest)
    (* RSA_size *) (λ r, BN_num_bytes (r_n r))
    (* RSA_sign *) (λ md d _, match md with EVP_sha1 => Some (id_sha1 ++ d) | EVP_md5 => Some (id_md5 ++ d) | _ => None end)
    (* RSA_public_decrypt *) (λ s _, Some (strip s))
    (* DSA_do_sign *) (λ _ d _, Some (toy_val d, 0))
    (* DSA_do_verify *) (λ d rs _, if fst rs =? toy_val d then 1 else 0)
    (* ECDSA_do_sign *) (λ _ d _, Some (toy_val d, 1))
    (* ECDSA_do_verify *) (λ d rs _, if fst rs =? toy_val d then 1 else 0)
    (* EC_KEY_new_by_curve_name *) (λ n, Some n)
    (* EC_GROUP_cmp *) (λ a b, if bool_decide (a = b) then 0 else 1)
    (* EC_POINT_cmp *) (λ _ a b, if bool_decide (a = b) then 0 else 1)
    (* EC_is_prime_field *) (λ _, true)
    (* EC_POINT_is_at_infinity *) (λ _ p, bool_decide (p = []))
    (* EC_GROUP_get_order *) (λ _, 1000)
    (* EC_POINT_get_affine_coordinates_GFp *) (λ _ _, Some (100, 101))
    (* EC_POINT_mul *) (λ _ _ _, []).


Lemma strip_pad n l : strip (left_pad n (48 :: l)) = 48 :: l.
Proof. unfold left_pad. induction (Z.to_nat n - length (48%Z :: l))%nat as [|m IH]; [done|exact IH]. Qed.
Lemma toy_digest_length md d : length (toy_digest md d) = match md with EVP_sha1 => 20%nat | EVP_md5 => 16%nat | _ => 32%nat end.
Proof. unfold toy_digest. rewrite length_map, length_take, length_app, length_replicate. destruct md; lia. Qed.
Lemma toy_val_range d : 0 ≤ toy_val d < 2 ^ 1024.
Proof. unfold toy_val. apply Z.mod_pos_bound. lia. Qed.
#[export] Instance toy_openssl_ok : @OpensslOk z_bignum toy_curve toy_openssl z_bignum_ok toy_curve_ok.
Proof.
  split.
  - apply (toy_digest_length EVP_sha1).
  - apply (toy_digest_length EVP_md5).
  - done.
  - intros md oid d r sig Hin E. rewrite !elem_of_cons, elem_of_nil in Hin.
    destruct Hin as [[= -> ->]|[[= -> ->]|[]]]; cbn in E; injection E as <-; cbn [RSA_public_decrypt toy_openssl]; f_equal; apply strip_pad.
  - intros rnd d k r s [= <- <-]. cbn. rewrite Z.eqb_refl. pose proof (toy_val_range d). split_and!; (done || lia).
  - intros rnd d k r s [= <- <-]. cbn. rewrite Z.eqb_refl. pose proof (toy_val_range d). split_and!; (done || lia).
Qed.

(** ** Keys *)

Definition rsa_demo : Key := mkKey KEY_RSA 0 None (Some (mkRsa (65537 : bn) (2 ^ 800 + 1 : bn) (Some (1, 2, 3, 4)))) None None None.
Definition dsa_demo : Key := mkKey KEY_DSA 0 None None (Some (mkDsa (2 ^ 500 : bn) (2 ^ 160 : bn) (2 : bn) (77 : bn) (Some 5))) None None.
Definition ec_demo : Key :=
  mkKey KEY_ECDSA 0 (Some NID_secp384r1) None None (Some (mkEc NID_secp384r1 [7; 8; 9] (Some 5))) None.

Lemma demo_bn (a : Z) : 0 ≤ a < 2 ^ 1024 → bn_ok a.
Proof. intros [Ha Hu]. split; [exact Ha|]. eapply Z.lt_trans; [exact Hu|]. unfold BN_MAX. apply Z.pow_lt_mono_r; [lia|by vm_compute..]. Qed.
Lemma rsa_demo_ok : key_ok rsa_demo.
Proof. eapply rsa_key_ok; [done|done|]. split; apply demo_bn; by vm_compute. Qed.
Lemma dsa_demo_ok : key_ok dsa_demo.
Proof. eapply dsa_key_ok; [done|done|]. split_and!; apply demo_bn; by vm_compute. Qed.
Lemma ec_demo_ok : key_ok ec_demo.
Proof. eapply ec_key_ok; [done|done|done|]. split_and!; try by vm_compute. by_decision. Qed.
End KeyDemo.
