(* ===== verification/KeySign.v ===== *)
(** * Signatures: theorems ([ssh-rsa.c], [ssh-dss.c], [ssh-ecdsa.c])

    A signature that a key makes is accepted by its public part, for the three
    algorithms and both wrappings; the check of an RSA signature accepts one
    plaintext only. *)

From S2P Require Import Prelude ByteOrder Buffer Stdio CipherMac Packet Match Kex BufBn Wp Base64 Keys KeysProofs KeyDemo.

(** ** The wrapping *)

Definition wire_sig (name blob : list Z) : list Z := Items.wire (Items.CString name) ++ Items.wire (Items.String blob).

Lemma init_append w : Z.of_nat (length w) ≤ BUFFER_MAX_CHUNK →
  ∃ b, buffer_append buffer_init w = Ok b ∧ wf b ∧ contents b = w.
Proof.
  intros Hl. destruct (Items.append_small buffer_init w) as (b & E & Hb & Hc & _); [apply buffer_init_wf|done| |].
  { change (alloc buffer_init) with 4096. revert Hl. change BUFFER_MAX_CHUNK with 1048576. change BUFFER_ALLOCSZ with 32768.
    change BUFFER_MAX_LEN with 10485760. lia. }
  rewrite (proj2 buffer_init_wf) in Hc. eauto.
Qed.
Lemma wrapped name blob b : (length name ≤ 256)%nat → 0 ∉ name → Z.of_nat (length blob) ≤ 256 * 1024 →
  Items.puts buffer_init [Items.CString name; Items.String blob] = Ok b → contents b = wire_sig name blob.
Proof.
  intros Hn H0 Hl E. apply Items.puts_inv in E as [_ Hc]; [|apply buffer_init_wf|repeat constructor; cbn; (lia || done)].
  rewrite Hc, (proj2 buffer_init_wf). cbn [map concat app]. by rewrite app_nil_r.
Qed.
Lemma unwrap name blob : (length name ≤ 256)%nat → 0 ∉ name → Z.of_nat (length blob) ≤ 256 * 1024 →
  ∃ b b1 b2, buffer_append buffer_init (wire_sig name blob) = Ok b ∧ buffer_get_cstring b = Ok (name, b1) ∧
    buffer_get_string b = Ok (name, b1) ∧ buffer_get_string b1 = Ok (blob, b2) ∧ buffer_len b2 = 0.
Proof.
  intros Hn H0 Hl. destruct (init_append (wire_sig name blob)) as (b & E & Hb & Hc).
  { unfold wire_sig. cbn [Items.wire]. rewrite !length_app. change (length (put_u32 _)) with 4%nat. change BUFFER_MAX_CHUNK with 1048576. lia. }
  destruct (Items.got_string b name (Items.wire (Items.String blob)) Hb) as (b1 & E1 & Hb1 & Hc1); [lia|exact Hc|].
  destruct (Items.got_string b1 blob [] Hb1 Hl) as (b2 & E2 & Hb2 & Hc2); [by rewrite app_nil_r|].
  exists b, b1, b2. split_and!; [done| |done..|by rewrite (buffer_len_contents _ Hb2), Hc2].
  destruct (Items.get_spec b (Items.CString name) (Items.wire (Items.String blob)) Hb) as (b1' & E1' & _); [cbn; split; [lia|done]|exact Hc|].
  cbn [Items.get Items.kind_of] in E1'. apply bind_Ok in E1' as ([n' b1''] & E1' & [= -> ->]).
  revert E1 E1'. unfold buffer_get_string, buffer_get_cstring, buffer_get_cstring_ret.
  destruct (buffer_get_string_ret b) as [[s|] bs]; [|done]. cbn. intros [= -> ->]. rewrite Items.memchr0_None by done. done.
Qed.
(** A signature that fits in a certificate. *)
Definition sig_ok (sig : list Z) : Prop := sig ≠ [] ∧ Z.of_nat (length sig) ≤ 10000.
Lemma wire_sig_ok name blob : (length name ≤ 256)%nat → Z.of_nat (length blob) ≤ 8192 → sig_ok (wire_sig name blob).
Proof.
  intros Hn Hl. unfold sig_ok, wire_sig. cbn [Items.wire]. split; [done|]. rewrite !length_app.
  change (length (put_u32 _)) with 4%nat. lia.
Qed.

Lemma left_pad_length n sig : Z.of_nat (length sig) ≤ n → Z.of_nat (length (left_pad n sig)) = n.
Proof. intros Hn. unfold left_pad. rewrite length_app, length_replicate. lia. Qed.
Lemma left_pad_val n sig : be_val (left_pad n sig) = be_val sig.
Proof. unfold left_pad. induction (Z.to_nat n - length sig)%nat as [|m IH]; [done|]. cbn [replicate app]. by rewrite be_val_zero. Qed.
Lemma left_pad_bytes n sig : bytes sig → bytes (left_pad n sig).
Proof. intros Hs. apply Forall_app. split; [|done]. apply Forall_replicate. unfold is_u8. lia. Qed.

(** The largest numbers. *)
Lemma nbits_max v : 0 ≤ v < BN_MAX → nbits v ≤ 65535.
Proof. unfold BN_MAX. change 65535 with (8 * BN_MAX_BYTES - 1). intros Hv. apply nbits_le; [exact Hv|]. by vm_compute. Qed.
Lemma small_max v : 0 ≤ v < 2 ^ 1024 → 0 ≤ v < BN_MAX.
Proof.
  unfold BN_MAX. intros [Ha Hu]. split; [exact Ha|]. eapply Z.lt_trans; [exact Hu|].
  apply Z.pow_lt_mono_r; [lia|by vm_compute..].
Qed.
#[local] Opaque BN_MAX.

Section Sign.
Context `{OpensslOk} (datafellows : Z).

(** ** RSA *)

(** The two digests, with their encodings and sizes. *)
Definition rsa_digest (md : evp_md_type) : option (list Z * Z) :=
  match md with EVP_sha1 => Some (id_sha1, 20) | EVP_md5 => Some (id_md5, 16) | _ => None end.

Lemma rsa_check md hash sigbuf rsa oid hlen d :
  rsa_digest md = Some (oid, hlen) → Z.of_nat (length hash) = hlen →
  0 < Z.of_nat (length sigbuf) ≤ RSA_size rsa → RSA_public_decrypt sigbuf rsa = Some d →
  openssh_RSA_verify md hash sigbuf rsa = if decide (d = oid ++ hash) then 1 else 0.
Proof.
  intros Hmd Hh Hs Ed. unfold openssh_RSA_verify. fold (rsa_digest md). rewrite Hmd, Hh, Z.eqb_refl. cbn [negb].
  rewrite (proj2 (Z.eqb_neq (Z.of_nat (length sigbuf)) 0)), (proj2 (Z.ltb_ge _ _)) by lia. cbn [orb]. rewrite Ed.
  destruct (Z.eqb_spec (Z.of_nat (length d)) (hlen + Z.of_nat (length oid))) as [El|El]; cbn [negb].
  2:{ rewrite decide_False; [done|]. intros ->. rewrite length_app in El. lia. }
  assert (Z.of_nat (length (drop (Z.to_nat (Z.of_nat (length oid))) d)) = hlen) as Hdl by (rewrite length_drop; lia).
  destruct (Z.eqb_spec (timingsafe_bcmp d oid (Z.of_nat (length oid))) 0) as [Eo|Eo]; cbn [negb];
    rewrite timingsafe_bcmp_eq in Eo by lia; rewrite Nat2Z.id, (take_ge oid) in Eo by lia.
  2:{ rewrite decide_False; [done|]. intros ->. by rewrite take_app_length in Eo. }
  destruct (Z.eqb_spec (timingsafe_bcmp (drop (Z.to_nat (Z.of_nat (length oid))) d) hash hlen) 0) as [Eh|Eh]; cbn [negb];
    rewrite timingsafe_bcmp_eq in Eh by lia; rewrite !take_ge, Nat2Z.id in Eh by lia.
  - rewrite decide_True; [done|]. rewrite <- (take_drop (length oid) d). by rewrite Eo, Eh.
  - rewrite decide_False; [done|]. intros ->. by rewrite drop_app_length in Eh.
Qed.

(** C22: The check of an RSA signature accepts exactly the encoding of the digest: no
    other length, prefix or digest. *)
Theorem rsa_verify_exact md hash sigbuf rsa :
  openssh_RSA_verify md hash sigbuf rsa = 1 ↔
  ∃ oid hlen, rsa_digest md = Some (oid, hlen) ∧ Z.of_nat (length hash) = hlen ∧
    0 < Z.of_nat (length sigbuf) ≤ RSA_size rsa ∧ RSA_public_decrypt sigbuf rsa = Some (oid ++ hash).
Proof.
  split.
  - intros E. pose proof E as E'. unfold openssh_RSA_verify in E. fold (rsa_digest md) in E.
    destruct (rsa_digest md) as [[oid hlen]|] eqn:Hmd; [|done].
    destruct (Z.eqb_spec (Z.of_nat (length hash)) hlen) as [Hh|]; [|done]. cbn [negb] in E.
    destruct (Z.eqb_spec (Z.of_nat (length sigbuf)) 0); [done|]. destruct (Z.ltb_spec (RSA_size rsa) (Z.of_nat (length sigbuf))); [done|].
    cbn [orb] in E. destruct (RSA_public_decrypt sigbuf rsa) as [d|] eqn:Ed; [|done].
    rewrite (rsa_check md hash sigbuf rsa oid hlen d) in E' by (done || lia). destruct (decide (d = oid ++ hash)) as [->|]; [|done].
    exists oid, hlen. split_and!; [done..|lia|lia|done].
  - intros (oid & hlen & Hmd & Hh & Hs & Ed). rewrite (rsa_check _ _ _ _ _ _ _ Hmd Hh Hs Ed). by rewrite decide_True.
Qed.

Lemma num_bytes_le a : bn_ok a → BN_num_bytes a ≤ 8192.
Proof.
  intros Ha. pose proof (nbits_max _ Ha) as Hn. unfold BN_num_bytes. rewrite num_bits_ok, Z.abs_eq by apply Ha. clear Ha.
  etrans; [apply (Z.div_le_mono _ 65542 8); lia|done].
Qed.
Lemma rsa_nid_digest : ∃ oid hlen, rsa_digest (rsa_nid datafellows) = Some (oid, hlen) ∧
  (rsa_nid datafellows, oid) ∈ [(EVP_sha1, id_sha1); (EVP_md5, id_md5)] ∧
  ∀ d, Z.of_nat (length (EVP_Digest (rsa_nid datafellows) d)) = hlen.
Proof.
  unfold rsa_nid. destruct (has_bug _ _); cbn [rsa_digest]; eexists _, _; (split; [reflexivity|split]).
  - apply list_elem_of_further, list_elem_of_here.
  - intros d. by rewrite digest_md5.
  - apply list_elem_of_here.
  - intros d. by rewrite digest_sha1.
Qed.

Lemma rsa_sign_verify k data sig r : is_rsa_type (k_type k) = true → k_rsa k = Some r → rsa_ok r →
  SSH_RSA_MINIMUM_MODULUS_SIZE ≤ BN_num_bits (r_n r) → ssh_rsa_sign datafellows k data = Ok (Some sig) →
  sig_ok sig ∧ ∀ k', k_type k' = k_type k → k_rsa k' = Some (public_rsa r) → ssh_rsa_verify datafellows k' sig data = Ok 1.
Proof.
  intros Ht Er [_ Hn] Hmin E. unfold ssh_rsa_sign in E. rewrite Er, Ht in E. cbn [negb] in E.
  destruct (EVP_get_digestbynid _) eqn:Hevp; [|done]. cbn [negb] in E. destruct (RSA_sign _ _ r) as [s|] eqn:Es; [|done].
  destruct (Z.ltb_spec (RSA_size r) (Z.of_nat (length s))) as [|Hlen]; [done|]. apply bind_Ok in E as (b & Eb & [= <-]).
  assert (RSA_size r ≤ 8192) as Hsz by (rewrite rsa_size_ok; by apply num_bytes_le).
  pose proof (left_pad_length _ _ Hlen) as Hpl. rewrite (wrapped _ _ _) with (4 := Eb); [|vm_compute; lia|by_decision|lia].
  split; [apply wire_sig_ok; [vm_compute|]; lia|]. intros k' Ht' Er'. unfold ssh_rsa_verify. rewrite Er', Ht', Ht. cbn [negb].
  change (r_n (public_rsa r)) with (r_n r). rewrite (proj2 (Z.ltb_ge _ _)) by done.
  destruct (unwrap (codes "ssh-rsa") (left_pad (RSA_size r) s)) as (b0 & b1 & b2 & -> & E1 & _ & E2 & E3); [vm_compute; lia|by_decision|lia|].
  cbn [mbind outcome_bind]. rewrite E1. cbn [mbind outcome_bind]. unfold strcmp_is. rewrite (bool_decide_true _) by by_decision. cbn [negb].
  rewrite E2. cbn [mbind outcome_bind]. rewrite E3. cbn [Z.eqb negb].
  assert (RSA_size (public_rsa r) = RSA_size r) as -> by by rewrite !rsa_size_ok.
  rewrite (proj2 (Z.ltb_ge _ _)), Hevp by lia. cbn [negb]. f_equal.
  assert (left_pad (RSA_size r) (left_pad (RSA_size r) s) = left_pad (RSA_size r) s) as ->.
  { unfold left_pad at 1. replace (_ - _)%nat with 0%nat by lia. done. }
  destruct rsa_nid_digest as (oid & hlen & Hd & Hin & Hl).
  rewrite (rsa_check _ _ _ (public_rsa r) oid hlen (oid ++ EVP_Digest (rsa_nid datafellows) data)); [by rewrite decide_True|done|done| |].
  - rewrite Hpl, !rsa_size_ok. change (r_n (public_rsa r)) with (r_n r). split; [|lia]. unfold BN_num_bytes.
    unfold SSH_RSA_MINIMUM_MODULUS_SIZE in Hmin. apply Z.lt_le_trans with (768 / 8); [done|]. apply Z.div_le_mono; lia.
  - by eapply rsa_sign_ok.
Qed.

(** ** DSA *)

Lemma bn_of_padded n a : 0 ≤ bn_val a → BN_bin2bn (left_pad n (BN_bn2bin a)) = Some a.
Proof.
  intros Ha. destruct (bin2bn_ok (left_pad n (BN_bn2bin a))) as (a' & E & Hv).
  { apply left_pad_bytes. rewrite bn2bin_ok. apply be_bytes_bytes. }
  rewrite E. f_equal. apply bn_val_inj. rewrite Hv, left_pad_val, bn2bin_ok, Z.abs_eq by done. by apply be_bytes_val.
Qed.
Lemma bn2bin_length a : 0 ≤ bn_val a → Z.of_nat (length (BN_bn2bin a)) = BN_num_bytes a.
Proof. intros Ha. unfold BN_num_bytes. rewrite bn2bin_ok, num_bits_ok, Z.abs_eq by done. by apply be_bytes_length. Qed.

Lemma dss_sign_verify rnd k data sig d : is_dsa_type (k_type k) = true → k_dsa k = Some d →
  ssh_dss_sign datafellows rnd k data = Ok (Some sig) →
  sig_ok sig ∧ ∀ k', k_type k' = k_type k → k_dsa k' = Some (public_dsa d) → ssh_dss_verify datafellows k' sig data = Ok 1.
Proof.
  intros Ht Ed E. unfold ssh_dss_sign in E. rewrite Ed, Ht in E. cbn [negb] in E.
  destruct (DSA_do_sign _ _ d) as [[r s]|] eqn:Es; [|done]. destruct (dsa_sign_ok _ _ _ _ _ Es) as (Hr & Hs & Hv).
  destruct (Z.ltb_spec INTBLOB_LEN (BN_num_bytes r)) as [|Hlr]; [done|]. destruct (Z.ltb_spec INTBLOB_LEN (BN_num_bytes s)) as [|Hls]; [done|].
  cbn [orb] in E. rewrite <- bn2bin_length in Hlr, Hls by done. pose proof (left_pad_length _ _ Hlr) as Lr. pose proof (left_pad_length _ _ Hls) as Ls.
  set (blob := left_pad INTBLOB_LEN (BN_bn2bin r) ++ left_pad INTBLOB_LEN (BN_bn2bin s)) in *.
  assert (Z.of_nat (length blob) = SIGBLOB_LEN) as Hbl by (unfold blob, SIGBLOB_LEN; rewrite length_app; lia).
  assert (dss_sigblob datafellows sig = Ok (Some blob) ∧ sig_ok sig) as [Hsig Hne].
  { unfold dss_sigblob. destruct (has_bug _ _).
    - injection E as <-. split; [done|]. change SIGBLOB_LEN with 40 in Hbl. split; [|lia]. intros E0. by rewrite E0 in Hbl.
    - apply bind_Ok in E as (b & Eb & [= <-]). change SIGBLOB_LEN with 40 in Hbl.
      rewrite (wrapped _ _ _) with (4 := Eb); [|vm_compute; lia|by_decision|lia]. split; [|apply wire_sig_ok; [vm_compute|]; lia].
      destruct (unwrap (codes "ssh-dss") blob) as (b0 & b1 & b2 & -> & E1 & _ & E2 & E3); [vm_compute; lia|by_decision|lia|].
      cbn [mbind outcome_bind]. rewrite E1. cbn [mbind outcome_bind]. unfold strcmp_is. rewrite (bool_decide_true _) by by_decision.
      cbn [negb]. rewrite E2. cbn [mbind outcome_bind]. by rewrite E3. }
  split; [done|]. intros k' Ht' Ed'. unfold ssh_dss_verify. rewrite Ed', Ht', Ht. cbn [negb]. rewrite Hsig. cbn [mbind outcome_bind].
  rewrite Hbl, Z.eqb_refl. cbn [negb]. assert (Z.to_nat INTBLOB_LEN = length (left_pad INTBLOB_LEN (BN_bn2bin r))) as -> by lia.
  unfold blob. rewrite take_app_length, drop_app_length, !bn_of_padded by done. by rewrite Hv.
Qed.

(** ** ECDSA *)

Lemma ecdsa_plain_name k n : is_ecdsa_type (k_type k) = true → k_nid k = Some n →
  0 ∉ key_ssh_name_plain k ∧ (length (key_ssh_name_plain k) ≤ 256)%nat.
Proof.
  unfold key_ssh_name_plain, is_ecdsa_type. rewrite !orb_true_iff, !Z.eqb_eq. intros [->| ->] ->; destruct n; by_decision.
Qed.

Lemma small_bn a : 0 ≤ bn_val a < 2 ^ 1024 → bn_ok a ∧ Z.of_nat (length (mpint (bn_val a))) ≤ 129.
Proof.
  intros Ha. split; [exact (small_max _ Ha)|]. apply mpint_length_gen; [lia|]. destruct Ha as [Ha Hu].
  split; [exact Ha|]. eapply Z.lt_trans; [exact Hu|]. apply Z.pow_lt_mono_r; lia.
Qed.

Lemma ecdsa_sign_verify rnd k data sig n e : is_ecdsa_type (k_type k) = true → k_nid k = Some n → k_ecdsa k = Some e →
  ssh_ecdsa_sign rnd k data = Ok (Some sig) →
  sig_ok sig ∧ ∀ k', k_type k' = k_type k → k_nid k' = Some n → k_ecdsa k' = Some (mkEc (ec_grp e) (ec_pub e) None) →
    ssh_ecdsa_verify k' sig data = Ok 1.
Proof.
  intros Ht En Ee E. unfold ssh_ecdsa_sign, ecdsa_md in E. rewrite Ee, Ht, En in E. cbn [negb mbind outcome_bind] in E.
  destruct (ECDSA_do_sign _ _ e) as [[r s]|] eqn:Es; [|done]. destruct (ecdsa_sign_ok _ _ _ _ _ Es) as (Hr & Hs & Hv).
  destruct (small_bn r Hr) as [Or Lr]. destruct (small_bn s Hs) as [Os Ls]. destruct (ecdsa_plain_name k n Ht En) as [N0 Nl].
  destruct (put_bn buffer_init r) as (b1 & E1 & K1); [apply buffer_init_wf|done|vm_compute; congruence|]. rewrite E1 in E.
  cbn [mbind outcome_bind] in E. destruct (put_bn b1 s) as (b2 & E2 & K2); [apply K1|done| |].
  { destruct K1 as (_ & _ & Ha). change (alloc buffer_init) with 4096 in Ha. revert Ha. unfold BN_ROOM. change BUFFER_MAX_LEN with 10485760. lia. }
  rewrite E2 in E. cbn [mbind outcome_bind] in E. apply bind_Ok in E as (b & Eb & [= <-]).
  destruct (init_appends _ _ _ (appends_trans _ _ _ _ _ _ _ K1 K2)) as (Hb2 & Hc & _).
  assert (Z.of_nat (length (contents b2)) ≤ 300) as Hl.
  { rewrite Hc. unfold wire_bn. cbn [Items.wire]. rewrite !length_app. change (length (put_u32 _)) with 4%nat. lia. }
  rewrite (wrapped _ _ _) with (4 := Eb); [|done..|lia]. split; [apply wire_sig_ok; lia|]. intros k' Ht' En' Ee'.
  assert (key_ssh_name_plain k' = key_ssh_name_plain k) as Hnm by (unfold key_ssh_name_plain; by rewrite Ht', En', En).
  unfold ssh_ecdsa_verify, ecdsa_md. rewrite Ee', Ht', Ht, En'. cbn [negb mbind outcome_bind].
  destruct (unwrap (key_ssh_name_plain k) (contents b2)) as (c0 & c1 & c2 & -> & _ & F1 & F2 & F3); [done..|lia|].
  cbn [mbind outcome_bind]. rewrite F1. cbn [mbind outcome_bind]. unfold strcmp_is. rewrite Hnm, cstr_clean_name, bool_decide_true by done.
  cbn [negb]. rewrite F2. cbn [mbind outcome_bind]. rewrite F3. cbn [Z.eqb negb].
  destruct (init_append (contents b2)) as (d0 & -> & Hd0 & Hcd); [change BUFFER_MAX_CHUNK with 1048576; lia|]. cbn [mbind outcome_bind].
  rewrite Hc in Hcd. destruct (get_bignum2_spec d0 (bn_val r) (wire_bn s) Hd0 Or Hcd) as (r' & d1 & -> & Er & Hd1 & Hc1).
  cbn [mbind outcome_bind]. destruct (get_bignum2_spec d1 (bn_val s) [] Hd1 Os) as (s' & d2 & -> & Es' & Hd2 & Hc2).
  { by rewrite app_nil_r. }
  cbn [mbind outcome_bind]. rewrite (buffer_len_contents _ Hd2), Hc2. cbn [length Z.of_nat Z.eqb negb].
  by rewrite (bn_val_inj _ _ Er), (bn_val_inj _ _ Es'), Hv.
Qed.

(** A key with which one can sign: RSA moduli have the minimal size. *)
Definition modulus_ok (k : Key) : Prop := ∀ r, k_rsa k = Some r → SSH_RSA_MINIMUM_MODULUS_SIZE ≤ BN_num_bits (r_n r).

Lemma sign_verify_ok rnd k data sig : key_ok k → modulus_ok k → key_sign datafellows rnd k data = Ok (Some sig) →
  sig_ok sig ∧ key_verify datafellows (public_part k) sig data = Ok 1.
Proof.
  intros Hk Hm E. pose proof (kinds_disjoint (k_type k)) as (Dr & Dd & De). unfold key_sign in E. unfold key_verify, public_part.
  destruct Hk as [r Ht Er Hok|d Ht Ed Hok|n e Ht En Ee Hok].
  - destruct (Dr Ht) as [Hd Hec]. rewrite Hd, Hec, Ht in E. destruct (rsa_sign_verify k data sig r Ht Er Hok (Hm r Er) E) as [Hne Hv].
    split; [done|]. destruct sig as [|c sig]; [by destruct Hne|]. rewrite Hd, Hec, Er. cbn [k_type]. rewrite Hd, Hec, Ht. by apply Hv.
  - destruct (Dd Ht) as [Hr Hec]. rewrite Ht in E. destruct (dss_sign_verify rnd k data sig d Ht Ed E) as [Hne Hv].
    split; [done|]. destruct sig as [|c sig]; [by destruct Hne|]. rewrite Ht, Ed. cbn [k_type]. rewrite Ht. by apply Hv.
  - destruct (De Ht) as [Hr Hd]. rewrite Hd, Ht in E. destruct (ecdsa_sign_verify rnd k data sig n e Ht En Ee E) as [Hne Hv].
    split; [done|]. destruct sig as [|c sig]; [by destruct Hne|]. rewrite Hd, Ht, En, Ee. cbn [k_type]. rewrite Hd, Ht. by apply Hv.
Qed.

(** C23: A signature that [key_sign] makes, with any of the three algorithms and in
    either wrapping, is accepted by [key_verify] under the public part of the key,
    for the same data. *)
Theorem sign_verify rnd k data sig : key_ok k → modulus_ok k → key_sign datafellows rnd k data = Ok (Some sig) →
  key_verify datafellows (public_part k) sig data = Ok 1.
Proof. intros Hk Hm E. exact (proj2 (sign_verify_ok rnd k data sig Hk Hm E)). Qed.
End Sign.

Import ZBignum KeyDemo.

Lemma sign_verify_witness : ∃ s1 s2 s3,
  key_sign 0 0 KeyDemo.rsa_demo [1; 2; 3] = Ok (Some s1) ∧ key_verify 0 (public_part KeyDemo.rsa_demo) s1 [1; 2; 3] = Ok 1 ∧
  key_sign 0 0 KeyDemo.dsa_demo [1; 2; 3] = Ok (Some s2) ∧ key_verify 0 (public_part KeyDemo.dsa_demo) s2 [1; 2; 3] = Ok 1 ∧
  key_sign 0 0 KeyDemo.ec_demo [1; 2; 3] = Ok (Some s3) ∧ key_verify 0 (public_part KeyDemo.ec_demo) s3 [1; 2; 3] = Ok 1.
Proof.
  eexists _, _, _. split_and!; [by vm_compute| |by vm_compute| |by vm_compute|].
  - apply (sign_verify 0 0 KeyDemo.rsa_demo); [exact KeyDemo.rsa_demo_ok|intros r [= <-]; by vm_compute|by vm_compute].
  - apply (sign_verify 0 0 KeyDemo.dsa_demo); [exact KeyDemo.dsa_demo_ok|intros r [=]|by vm_compute].
  - apply (sign_verify 0 0 KeyDemo.ec_demo); [exact KeyDemo.ec_demo_ok|intros r [=]|by vm_compute].
Defined.
