(* ===== verification/KeyCert.v ===== *)
(** * Certificates: theorems ([key.c])

    A certificate that an authority makes is accepted, and read back with every
    field that its format has, unless it names more than 256 principals or is
    of an unknown type: [key_certify] signs these too, and they are refused. *)

From S2P Require Import Prelude ByteOrder Buffer Stdio CipherMac Packet Match Kex BufBn Wp Base64 Keys KeysProofs KeyDemo KeySign.

(** ** The parts of a certificate *)

Definition wire_names (ps : list (list Z)) : list Z := concat (map (λ p, Items.wire (Items.CString p)) ps).
Definition wire_pairs (ps : list (list Z * list Z)) : list Z :=
  concat (map (λ '(a, d), Items.wire (Items.String a) ++ Items.wire (Items.String d)) ps).

Lemma wire_string_length s : length (Items.wire (Items.String s)) = (4 + length s)%nat.
Proof. cbn [Items.wire]. rewrite length_app. done. Qed.

(** A loop that ends with its buffer: nothing left, or a round. *)
Lemma reads_left_bind {A} (f : Z → parse A) w r : gives [] (f (Z.of_nat (length w))) w r → gives [] (p_left ≫= f) w r.
Proof. intros Hf. eapply reads_bind0; [|exact Hf]. rewrite <- (app_nil_r w) at 2. apply reads_left. Qed.

Lemma reads_principals room ps : Forall (λ p, Z.of_nat (length p) ≤ 256 * 1024 ∧ 0 ∉ p) ps →
  gives [] (parse_principals room) (wire_names ps) (if (length ps <=? room)%nat then Some ps else None).
Proof.
  revert ps. induction room as [|room IH]; intros [|p ps] Hp; cbn [parse_principals]; apply reads_left_bind; try apply reads_ret;
    apply Forall_cons in Hp as [[Hs H0] Hp]; cbn [wire_names map concat]; rewrite (proj2 (Z.eqb_neq _ _))
    by (cbn [Items.wire]; rewrite !length_app; change (length (put_u32 _)) with 4%nat; lia).
  { apply gives_fail. }
  eapply reads_bind; [by apply reads_cstring|]. specialize (IH ps Hp). cbn [length Nat.leb]. destruct (length ps <=? room)%nat.
  - eapply reads_last; [exact IH|]. rewrite (cstr_clean_name p H0). apply reads_ret.
  - by apply refuses_bind.
Qed.
Lemma reads_pairs fuel ps : (length ps ≤ fuel)%nat →
  Forall (λ '(a, d), Z.of_nat (length a) ≤ 256 * 1024 ∧ Z.of_nat (length d) ≤ 256 * 1024) ps →
  reads_to [] (check_pairs fuel) (wire_pairs ps) tt.
Proof.
  revert ps. induction fuel as [|fuel IH]; intros [|[a d] ps] Hl Hp; cbn [check_pairs]; apply reads_left_bind; try apply reads_ret.
  { cbn [length] in Hl. lia. }
  apply Forall_cons in Hp as [[Ha Hd] Hp]. cbn [wire_pairs map concat]. rewrite (proj2 (Z.eqb_neq _ _)).
  2:{ rewrite !length_app, wire_string_length. lia. }
  rewrite <- app_assoc. eapply reads_bind; [by apply reads_string_ptr|]. eapply reads_bind; [by apply reads_string_ptr|].
  apply IH; [cbn [length] in Hl; lia|done].
Qed.
Lemma wire_pairs_length ps : (length ps ≤ length (wire_pairs ps))%nat.
Proof.
  induction ps as [|[a d] ps IH]; [done|]. cbn [wire_pairs map concat length] in *. rewrite !length_app, wire_string_length.
  unfold wire_pairs in IH. lia.
Qed.
Lemma reads_in_buffer {A} (m : parse A) data r rest : Z.of_nat (length data) ≤ 256 * 1024 →
  gives [] m data r → gives rest (in_buffer data m) [] r.
Proof.
  intros Hl Hm b Hb Hc. destruct (init_append data) as (t & E & Ht & Hct); [change BUFFER_MAX_CHUNK with 1048576; lia|].
  specialize (Hm t Ht). rewrite app_nil_r in Hm. specialize (Hm Hct). unfold in_buffer. rewrite E. cbn [mbind outcome_bind].
  destruct r; [destruct Hm as (t' & -> & _); by exists b|by rewrite Hm].
Qed.

Section Cert.
Context `{OpensslOk} (datafellows : Z).

(** A certificate whose fields can be written: C strings, options that are a
    list of pairs as [ssh-keygen] makes them, and no field over the 256 KB of a
    string. *)
Record cert_ok (c : KeyCert) (id : list Z) (crit exts : list (list Z * list Z)) : Prop := {
  co_serial : is_u64 (c_serial c);
  co_type : is_u32 (c_type c);
  co_id : c_key_id c = Some id ∧ Z.of_nat (length id) ≤ 256 * 1024 ∧ 0 ∉ id;
  co_names : Forall (λ p, Z.of_nat (length p) ≤ 256 * 1024 ∧ 0 ∉ p) (c_principals c) ∧ Z.of_nat (length (wire_names (c_principals c))) ≤ 256 * 1024;
  co_after : is_u64 (c_valid_after c);
  co_before : is_u64 (c_valid_before c);
  co_critical : c_critical c = wire_pairs crit ∧ Z.of_nat (length (wire_pairs crit)) ≤ 256 * 1024 ∧
    Forall (λ '(a, d), Z.of_nat (length a) ≤ 256 * 1024 ∧ Z.of_nat (length d) ≤ 256 * 1024) crit;
  co_exts : c_extensions c = wire_pairs exts ∧ Z.of_nat (length (wire_pairs exts)) ≤ 256 * 1024 ∧
    Forall (λ '(a, d), Z.of_nat (length a) ≤ 256 * 1024 ∧ Z.of_nat (length d) ≤ 256 * 1024) exts
}.

(** The certificates that the reader takes. *)
Definition acceptable (c : KeyCert) : bool :=
  ((c_type c =? SSH2_CERT_TYPE_USER) || (c_type c =? SSH2_CERT_TYPE_HOST)) && (length (c_principals c) <=? CERT_MAX_PRINCIPALS)%nat.

(** The items between the public part and the signature. *)
Definition body_items (legacy : bool) (c : KeyCert) (id nonce ca_blob : list Z) : list Items.item :=
  (if legacy then [] else [Items.Int64 (c_serial c)]) ++
  [Items.Int (c_type c); Items.CString id; Items.String (wire_names (c_principals c)); Items.Int64 (c_valid_after c);
   Items.Int64 (c_valid_before c); Items.String (c_critical c)] ++
  (if legacy then [Items.String nonce] else [Items.String (c_extensions c)]) ++
  [Items.String []; Items.String ca_blob].
Definition wire_body (legacy : bool) (c : KeyCert) (id nonce ca_blob : list Z) : list Z :=
  concat (map Items.wire (body_items legacy c id nonce ca_blob)).

Lemma legacy_nonce k nonce : key_is_cert k = true →
  wire_nonce (k_type k) nonce = if key_cert_is_legacy k then [] else Items.wire (Items.String nonce).
Proof.
  unfold key_is_cert, is_cert_type, key_cert_is_legacy, wire_nonce. rewrite !orb_true_iff, !Z.eqb_eq.
  by intros [[[[->| ->]| ->]| ->]| ->].
Qed.

(** Name, nonce and public numbers: the part of fixed length. *)
Lemma tbs_front k nonce b : key_ok k → key_is_cert k = true → (length nonce ≤ 256)%nat →
  (b ← buffer_put_cstring buffer_init (Some (key_ssh_name k));
   b ← (if negb (key_cert_is_legacy k) then buffer_put_string b nonce else Ok b);
   put_public b k) = Ok b →
  wf b ∧ contents b = wire_key k nonce.
Proof.
  intros Hk Hc Hn E. destruct (key_name_clean k Hk) as [_ Hl].
  destruct (put_str buffer_init (key_ssh_name k)) as (b1 & E1 & K1); [apply buffer_init_wf|done|vm_compute; congruence|].
  cbn [buffer_put_cstring] in E. rewrite E1 in E. cbn [mbind outcome_bind] in E.
  assert (∃ b2, (if negb (key_cert_is_legacy k) then buffer_put_string b1 nonce else Ok b1) = Ok b2 ∧
    appends b1 b2 (wire_nonce (k_type k) nonce) BN_ROOM) as (b2 & E2 & K2).
  { rewrite (legacy_nonce k nonce Hc). destruct (key_cert_is_legacy k); cbn [negb].
    - exists b1. split; [done|]. split_and!; [apply K1|by rewrite app_nil_r|unfold BN_ROOM; lia..].
    - apply put_str; [apply K1|done|]. destruct K1 as (_ & _ & Ha). change (alloc buffer_init) with 4096 in Ha.
      revert Ha. unfold BN_ROOM. change BUFFER_MAX_LEN with 10485760. lia. }
  rewrite E2 in E. cbn [mbind outcome_bind] in E. pose proof (appends_trans _ _ _ _ _ _ _ K1 K2) as K.
  destruct (put_public_spec b2 k) as (b3 & E3 & K3); [apply K|done| |].
  { destruct K as (_ & _ & Ha). change (alloc buffer_init) with 4096 in Ha. revert Ha. unfold BN_ROOM. change BUFFER_MAX_LEN with 10485760. lia. }
  rewrite E3 in E. injection E as ->. destruct (init_appends _ _ _ (appends_trans _ _ _ _ _ _ _ K K3)) as (? & Hcs & _).
  split; [done|]. rewrite Hcs. unfold wire_key. by rewrite <- !app_assoc.
Qed.

Lemma tbs_cert_ok k c id crit exts nonce ca_blob b : key_ok k → key_is_cert k = true → cert_ok c id crit exts →
  (length nonce ≤ 256)%nat → Z.of_nat (length ca_blob) ≤ 256 * 1024 → tbs_cert k c nonce ca_blob = Ok b →
  wf b ∧ contents b = wire_key k nonce ++ wire_body (key_cert_is_legacy k) c id nonce ca_blob.
Proof.
  intros Hk Hc Hok Hn Hca E. unfold tbs_cert in E. cbv zeta in E.
  apply bind_Ok in E as (b1 & E1 & E). apply bind_Ok in E as (b2 & E2 & E). apply bind_Ok in E as (b3 & E3 & E).
  destruct (tbs_front k nonce b3 Hk Hc Hn) as [Hb3 Hc3].
  { rewrite E1. cbn [mbind outcome_bind]. rewrite E2. exact E3. }
  clear E1 E2 E3. destruct Hok as [Hser Hty (Hid & Hidl & Hid0) (Hnm & Hnml) Haf Hbe (Hcr & Hcrl & _) (Hex & Hexl & _)].
  assert (∃ b4, Items.puts b3 (body_items (key_cert_is_legacy k) c id nonce ca_blob) = Ok b4 ∧ b4 = b) as (b4 & E4 & ->).
  { unfold body_items.
    apply bind_Ok in E as (b4 & E4 & E). apply bind_Ok in E as (b5 & E5 & E). rewrite Hid in E. apply bind_Ok in E as (b6 & E6 & E).
    apply bind_Ok in E as (bp & Ep & E). apply Items.puts_inv in Ep as [_ Hp]; [|apply buffer_init_wf|].
    2:{ apply Forall_map. eapply Forall_impl; [exact Hnm|]. done. }
    rewrite (proj2 buffer_init_wf), map_map in Hp. cbn [app] in Hp. change (concat _) with (wire_names (c_principals c)) in Hp.
    rewrite Hp in E. apply bind_Ok in E as (b7 & E7 & E). apply bind_Ok in E as (b8 & E8 & E). apply bind_Ok in E as (b9 & E9 & E).
    exists b. split; [|done]. destruct (key_cert_is_legacy k); cbn [negb] in *; cbn [app Items.puts Items.put].
    - injection E4 as <-. rewrite E5. cbn [mbind outcome_bind]. rewrite E6. cbn [mbind outcome_bind].
      injection E8 as <-. cbn [Items.puts Items.put] in E7.
      apply bind_Ok in E7 as (x1 & -> & E7). cbn [mbind outcome_bind]. apply bind_Ok in E7 as (x2 & -> & E7). cbn [mbind outcome_bind].
      apply bind_Ok in E7 as (x3 & -> & E7). cbn [mbind outcome_bind]. apply bind_Ok in E7 as (x4 & -> & [= ->]). cbn [mbind outcome_bind].
      rewrite E9. exact E.
    - rewrite E4. cbn [mbind outcome_bind]. rewrite E5. cbn [mbind outcome_bind]. rewrite E6. cbn [mbind outcome_bind].
      injection E9 as <-. cbn [Items.puts Items.put] in E7.
      apply bind_Ok in E7 as (x1 & -> & E7). cbn [mbind outcome_bind]. apply bind_Ok in E7 as (x2 & -> & E7). cbn [mbind outcome_bind].
      apply bind_Ok in E7 as (x3 & -> & E7). cbn [mbind outcome_bind]. apply bind_Ok in E7 as (x4 & -> & [= ->]). cbn [mbind outcome_bind].
      rewrite E8. exact E. }
  apply Items.puts_inv in E4 as [Hb Hcb]; [by rewrite Hcb, Hc3|done|].
  unfold body_items. rewrite Hcr, Hex. destruct (key_cert_is_legacy k); cbn [app]; repeat apply Forall_cons_2; try apply Forall_nil_2;
    cbn [Items.ok length]; (done || lia).
Qed.

(** The test for the three kinds an authority may have. *)
Lemma plain_kind ca : is_plain ca → negb (k_type ca =? KEY_RSA) && negb (k_type ca =? KEY_DSA) && negb (k_type ca =? KEY_ECDSA) = false.
Proof. unfold is_plain. rewrite !elem_of_cons, elem_of_nil. by intros [->|[->|[->|[]]]]. Qed.

(** The certificate that is read: the old format has neither a serial number nor
    extensions. *)
Definition cert_read (legacy : bool) (c : KeyCert) (blob : list Z) (ca : Key) : KeyCert :=
  mkCert blob (c_type c) (if legacy then 0 else c_serial c) (c_key_id c) (c_principals c) (c_valid_after c) (c_valid_before c) (c_critical c)
         (if legacy then [] else c_extensions c) (Some ca).

Lemma reads_cert rec t c id crit exts nonce ca_blob ca sig front blob :
  let legacy := is_legacy_type t in
  let signed := front ++ wire_body legacy c id nonce ca_blob in
  cert_ok c id crit exts → (length nonce ≤ 256)%nat → Z.of_nat (length ca_blob) ≤ 256 * 1024 →
  Z.of_nat (length sig) ≤ 256 * 1024 → blob = signed ++ Items.wire (Items.String sig) → Z.of_nat (length blob) ≤ BUFFER_MAX_CHUNK →
  rec ca_blob = Ok (Some ca) → is_plain ca → key_verify datafellows ca sig signed = Ok 1 →
  gives [] (cert_parse datafellows rec t blob) (wire_body legacy c id nonce ca_blob ++ Items.wire (Items.String sig))
    (if acceptable c then Some (cert_read legacy c blob ca) else None).
Proof.
  intros legacy signed [Hser Hty (Hid & Hidl & Hid0) (Hnm & Hnml) Haf Hbe (Hcr & Hcrl & Hcrp) (Hex & Hexl & Hexp)] Hn Hca Hsig Hblob
    Hbl Hrec Hpl Hver.
  destruct (init_append blob Hbl) as (cb & Ecb & Hwcb & Hccb). unfold cert_parse. change ((t =? KEY_DSA_CERT_V00) || (t =? KEY_RSA_CERT_V00)) with legacy. clearbody legacy.
  eapply reads_bind0; [apply reads_lift; exact Ecb|].
  set (tail := Items.wire (Items.String sig)) in *.
  assert (wire_body legacy c id nonce ca_blob ++ tail =
    (if legacy then [] else Items.wire (Items.Int64 (c_serial c))) ++ Items.wire (Items.Int (c_type c)) ++ Items.wire (Items.CString id) ++
    Items.wire (Items.String (wire_names (c_principals c))) ++ Items.wire (Items.Int64 (c_valid_after c)) ++
    Items.wire (Items.Int64 (c_valid_before c)) ++ Items.wire (Items.String (c_critical c)) ++
    (if legacy then [] else Items.wire (Items.String (c_extensions c))) ++ (if legacy then Items.wire (Items.String nonce) else []) ++
    Items.wire (Items.String []) ++ Items.wire (Items.String ca_blob) ++ tail) as ->.
  { unfold wire_body, body_items. destruct legacy; cbn [map concat app]; rewrite <- !app_assoc; done. }
  eapply reads_bind.
  { apply (reads_when _ _ _ (if legacy then 0 else c_serial c)); destruct legacy; try done; intros _. by apply reads_int64. }
  eapply reads_bind; [by apply reads_int|]. eapply reads_bind; [by apply reads_cstring|]. eapply reads_bind; [by apply reads_string|].
  eapply reads_bind; [by apply reads_int64|]. eapply reads_bind; [by apply reads_int64|].
  eapply reads_bind; [apply reads_string; by rewrite Hcr|]. eapply reads_bind.
  { apply (reads_when _ _ _ (if legacy then [] else c_extensions c)); destruct legacy; try done; intros _. apply reads_string; by rewrite Hex. }
  eapply reads_bind.
  { apply (reads_when _ _ _ (if legacy then nonce else [])); destruct legacy; try done; intros _. apply reads_string_ptr. lia. }
  eapply reads_bind; [apply reads_string_ptr; cbn [length]; lia|]. eapply reads_bind; [by apply reads_string|].
  rewrite (cstr_clean_name id Hid0), Nat.eqb_refl. cbn [negb]. eapply reads_bind0; [rewrite app_nil_r; apply reads_left|]. cbv zeta.
  eapply reads_last; [by apply reads_string|].
  unfold acceptable. rewrite <- negb_orb. destruct (_ || _); [cbn [negb andb]|apply gives_fail].
  pose proof (reads_principals CERT_MAX_PRINCIPALS _ Hnm) as Hp. destruct (_ <=? _)%nat; [|apply refuses_bind, reads_in_buffer; done].
  eapply reads_bind0; [by apply reads_in_buffer|].
  eapply reads_bind0; [apply reads_in_buffer; [by rewrite Hcr|rewrite Hcr; apply reads_pairs; [apply wire_pairs_length|done]]|].
  eapply reads_bind0.
  { assert (∃ ps, (if legacy then [] else c_extensions c) = wire_pairs ps ∧ Z.of_nat (length (wire_pairs ps)) ≤ 256 * 1024 ∧
      Forall (λ '(a, d), Z.of_nat (length a) ≤ 256 * 1024 ∧ Z.of_nat (length d) ≤ 256 * 1024) ps) as (ps & -> & ? & ?).
    { destruct legacy; [by exists []|by exists exts]. }
    apply reads_in_buffer; [done|apply reads_pairs; [apply wire_pairs_length|done]]. }
  eapply reads_bind0; [by apply reads_lift|]. cbv beta iota.
  rewrite (plain_kind ca Hpl).
  apply reads_bind0 with 1; [apply reads_lift|cbn [Z.eqb Pos.eqb]; unfold cert_read; rewrite Hid, Hccb; apply reads_ret].
  rewrite (buffer_len_contents _ Hwcb), Hccb. assert (Z.to_nat (u32 (Z.of_nat (length blob) - Z.of_nat (length tail))) = length signed) as ->.
  { rewrite Hblob, length_app in Hbl |- *. change BUFFER_MAX_CHUNK with 1048576 in Hbl. rewrite u32_small; lia. }
  by rewrite Hblob, take_app_length.
Qed.

Lemma public_part_type k : k_type (public_part k) = k_type k.
Proof. unfold public_part. by destruct (is_dsa_type (k_type k)), (is_ecdsa_type (k_type k)). Qed.

(** C17: What becomes of a certificate that [key_certify] makes, when
    [key_from_blob] reads it.  A user or host certificate of at most 256
    principals is accepted: the public key and every field that its format has
    come back, under the public key of the authority.  A v00 certificate has no
    serial number and no extensions, which come back as 0 and empty.  One of
    more principals or of another type is refused, though [key_certify] signs
    it.  The fields of [c] are C strings and lists of options as [ssh-keygen]
    makes them, none over the 256 KB of a string, and the certificate is of at
    most 1 MB. *)
Theorem certify_roundtrip rnd nonce k ca c id crit exts k' :
  key_ok k → key_is_cert k = true → k_cert k = Some c → cert_ok c id crit exts → length nonce = 32%nat →
  key_ok ca → is_plain ca → modulus_ok ca → key_certify datafellows rnd nonce k ca = Ok (true, k') →
  ∃ blob, k' = k <| k_cert := Some (c <| c_certblob := blob |>) |> ∧
    (Z.of_nat (length blob) ≤ BUFFER_MAX_CHUNK →
     key_from_blob datafellows blob =
       Ok (if acceptable c then Some ((public_part k) <| k_cert := Some (cert_read (key_cert_is_legacy k) c blob (public_part ca)) |>)
           else None)).
Proof.
  intros Hk Hc Ec Hok Hn Hca Hpl Hm E. unfold key_certify in E. rewrite Ec, Hc in E. cbn [negb] in E. pose proof (plain_kind ca Hpl) as Hkind.
  rewrite Hkind in E. destruct (to_blob_ok ca Hca Hpl) as [Eb _]. pose proof (wire_key_length ca Hca Hpl) as Hcl. rewrite Eb in E.
  cbn [deref mbind outcome_bind] in E. apply bind_Ok in E as (b & Et & E).
  destruct (tbs_cert_ok k c id crit exts nonce (wire_key ca []) b) as [Hb Hcb]; [done..|lia|lia|done|].
  apply bind_Ok in E as (osig & Es & E). destruct osig as [sig|]; [|done].
  destruct (sign_verify_ok datafellows _ _ _ _ Hca Hm Es) as [[_ Hsl] Hv]. apply bind_Ok in E as (b' & Ep & [= <-]).
  apply (Items.put_inv b (Items.String sig)) in Ep as [_ Hc']; [|done|cbn; lia]. exists (contents b'). split; [done|]. intros Hl.
  rewrite Hcb in Hc', Hv. apply from_blob_reads; [done|]. eapply reads_skip; [|apply (reads_key _ _ _ k nonce); [done|lia|]].
  { rewrite Hc' at 1. unfold wire_key at 1. rewrite <- !app_assoc. reflexivity. }
  unfold finish_key, key_is_cert. rewrite public_part_type. unfold key_is_cert in Hc. rewrite Hc.
  assert (gives [] (cert_parse datafellows (from_blob datafellows (length (contents b'))) (k_type k) (contents b'))
    (wire_body (key_cert_is_legacy k) c id nonce (wire_key ca []) ++ Items.wire (Items.String sig))
    (if acceptable c then Some (cert_read (key_cert_is_legacy k) c (contents b') (public_part ca)) else None)) as Hg.
  { destruct (length (contents b')) as [|n] eqn:Hlen; [rewrite Hc', !length_app, wire_string_length in Hlen; lia|].
    eapply reads_cert; [exact Hok|lia|lia|lia|exact Hc'|lia|by apply from_blob_plain| |exact Hv]. unfold is_plain. by rewrite public_part_type. }
  destruct (acceptable c); [eapply reads_last; [exact Hg|apply reads_ret]|by apply refuses_bind].
Qed.

(** A public key that [key_to_blob] writes is read back by [key_from_blob]: the
    same type, curve and numbers, without the private part. *)
Theorem key_blob_roundtrip k : key_ok k → is_plain k →
  ∃ blob, key_to_blob k = Ok (Some blob) ∧ key_from_blob datafellows blob = Ok (Some (public_part k)).
Proof. intros Hk Hp. exists (wire_key k []). split; [by apply to_blob_ok|by apply from_blob_plain]. Qed.
End Cert.

Import ZBignum KeyDemo.

Lemma key_blob_roundtrip_witness :
  ∃ blob, key_to_blob KeyDemo.dsa_demo = Ok (Some blob) ∧ key_from_blob 0 blob = Ok (Some (public_part KeyDemo.dsa_demo)).
Proof. apply key_blob_roundtrip; [exact KeyDemo.dsa_demo_ok|vm_compute; by repeat constructor]. Defined.

(** A certificate for a key on a curve, by an RSA authority. *)
Definition cert_demo : KeyCert :=
  mkCert [] SSH2_CERT_TYPE_USER 7 (Some [109; 101]) [[114; 111; 111; 116]] 100 200 []
         (wire_pairs [([112; 116; 121], [])]) None.
Definition certified_demo : Key := KeyDemo.ec_demo <| k_type := KEY_ECDSA_CERT |> <| k_cert := Some cert_demo |>.
Lemma certified_demo_ok : key_ok certified_demo.
Proof. eapply ec_key_ok; [done|done|done|]. split_and!; try by vm_compute. by_decision. Qed.
Lemma cert_demo_ok : cert_ok cert_demo [109; 101] [] [([112; 116; 121], [])].
Proof.
  split; unfold cert_demo; cbn [c_serial c_type c_key_id c_principals c_valid_after c_valid_before c_critical c_extensions].
  - unfold is_u64. lia.
  - unfold is_u32. vm_compute. intuition congruence.
  - split; [done|]. by_decision.
  - by_decision.
  - unfold is_u64. lia.
  - unfold is_u64. lia.
  - split_and!; [done|by_decision|constructor].
  - split_and!; [done|by_decision|]. repeat constructor; by_decision.
Qed.
Lemma certify_roundtrip_witness : ∃ k' blob,
  key_certify 0 0 (replicate 32 1) certified_demo KeyDemo.rsa_demo = Ok (true, k') ∧
  k' = certified_demo <| k_cert := Some (cert_demo <| c_certblob := blob |>) |> ∧
  key_from_blob 0 blob =
    Ok (Some ((public_part certified_demo) <| k_cert := Some (cert_read false cert_demo blob (public_part KeyDemo.rsa_demo)) |>)).
Proof.
  assert (match key_certify 0 0 (replicate 32 1) certified_demo KeyDemo.rsa_demo with
          | Ok (true, k) => match k_cert k with Some c => Z.of_nat (length (c_certblob c)) <=? BUFFER_MAX_CHUNK | None => false end
          | _ => false
          end = true) as Hok by by vm_compute.
  destruct (key_certify 0 0 (replicate 32 1) certified_demo KeyDemo.rsa_demo) as [[[|] k']| | | | |] eqn:E; try discriminate Hok.
  destruct (certify_roundtrip 0 0 (replicate 32 1) certified_demo KeyDemo.rsa_demo cert_demo [109; 101] [] [([112; 116; 121], [])] k')
    as (blob & Ek & Hf).
  - exact certified_demo_ok.
  - done.
  - done.
  - exact cert_demo_ok.
  - done.
  - exact KeyDemo.rsa_demo_ok.
  - vm_compute. by repeat constructor.
  - intros r [= <-]. by vm_compute.
  - exact E.
  - exists k', blob. split; [reflexivity|]. split; [exact Ek|]. apply Hf. rewrite Ek in Hok. apply Z.leb_le, Hok.
Defined.

(** A certificate with 257 principals is signed, and then refused; the serial
    number of a v00 certificate is not part of it. *)
Definition reread (k : Key) : outcome (option Key) :=
  '(ok, k') ← key_certify 0 0 (replicate 32 1) k KeyDemo.rsa_demo;
  if ok : bool then key_from_blob 0 (from_option c_certblob [] (k_cert k')) else Fatal "not certified".
Definition with_principals (n : nat) : Key :=
  certified_demo <| k_cert := Some (cert_demo <| c_principals := replicate n [114; 111; 111; 116] |>) |>.
Example principals_257_refused :
  match reread (with_principals 256), reread (with_principals 257) with Ok (Some _), Ok None => true | _, _ => false end = true.
Proof. vm_compute. reflexivity. Qed.
Example v00_serial_lost :
  match reread (KeyDemo.rsa_demo <| k_type := KEY_RSA_CERT_V00 |> <| k_cert := Some cert_demo |>) with
  | Ok (Some k) => match k_cert k with Some c => (c_serial cert_demo =? 7) && (c_serial c =? 0) | None => false end
  | _ => false
  end = true.
Proof. vm_compute. reflexivity. Qed.
