(* ===== verification/KeyParse.v ===== *)
(** * Parsing of keys from untrusted bytes: theorems ([key.c])

    [key_from_blob] on any bytes: it comes to an end (the recursion into the key
    of the authority too) and dereferences no null pointer; a certificate that
    it accepts is signed, over everything before the signature, by the key it
    carries as its authority's.  [parses m b Q]: [m] on [b] neither crashes nor
    runs out of fuel, and a result satisfies [Q]. *)

From S2P Require Import Prelude ByteOrder Buffer Stdio CipherMac Packet Match Kex BufBn Wp Base64 Keys KeysProofs KeyDemo KeySign KeyCert.

Definition parses {A} (m : parse A) (b : Buffer) (Q : A → Buffer → Prop) : Prop :=
  wpo (m b) (λ r, match r with Some (a, b') => Q a b' | None => True end).

Lemma parses_ret {A} (a : A) b (Q : A → Buffer → Prop) : Q a b → parses (mret a) b Q.
Proof. done. Qed.
Lemma parses_fail {A} b (Q : A → Buffer → Prop) : parses p_fail b Q.
Proof. done. Qed.
Lemma parses_bind {A B} (m : parse A) (f : A → parse B) b Q : parses m b (λ a b', parses (f a) b' Q) → parses (m ≫= f) b Q.
Proof.
  unfold parses. intros Hm. unfold mbind, parse_bind. apply wpo_bind. eapply wpo_mono; [exact Hm|]. by intros [[a b']|].
Qed.
Lemma parses_mono {A} (m : parse A) b (Q Q' : A → Buffer → Prop) : parses m b Q → (∀ a b', Q a b' → Q' a b') → parses m b Q'.
Proof. intros Hm HQ. eapply wpo_mono; [exact Hm|]. intros [[a b']|]; [apply HQ|done]. Qed.
Lemma parses_lift {A} (m : outcome A) b (Q : A → Buffer → Prop) : wpo m (λ a, Q a b) → parses (p_lift m) b Q.
Proof. intros Hm. unfold parses, p_lift. apply wpo_bind. eapply wpo_mono; [exact Hm|]. done. Qed.
Lemma parses_run {A} (m : parse A) b Q a b' : parses m b Q → m b = Ok (Some (a, b')) → Q a b'.
Proof. unfold parses. by intros Hm E; rewrite E in Hm. Qed.

(** ** What is left of a buffer *)

Definition tail_of (b b' : Buffer) : Prop := bwf b' ∧ ∃ p, contents b = p ++ contents b'.
Lemma tail_refl b : bwf b → tail_of b b.
Proof. intros Hb. split; [done|]. by exists []. Qed.
Lemma tail_trans b b1 b2 : tail_of b b1 → tail_of b1 b2 → tail_of b b2.
Proof. intros [_ [p1 E1]] [Hb2 [p2 E2]]. split; [done|]. exists (p1 ++ p2). by rewrite E1, E2, app_assoc. Qed.
Lemma tail_length b b' : tail_of b b' → (length (contents b') ≤ length (contents b))%nat.
Proof. intros [_ [p ->]]. rewrite length_app. lia. Qed.

(** A string, and what follows. *)
Definition got_bytes (b : Buffer) (s : list Z) (b' : Buffer) : Prop :=
  bwf b' ∧ bytes s ∧ Z.of_nat (length s) ≤ 256 * 1024 ∧ contents b = Items.wire (Items.String s) ++ contents b'.
Lemma got_tail b s b' : got_bytes b s b' → tail_of b b'.
Proof. intros (? & _ & _ & E). split; [done|]. rewrite E. eauto. Qed.

Lemma parses_get {A} (f : Buffer → option A * Buffer) b (Q : A → Buffer → Prop) :
  (∀ a b', f b = (Some a, b') → Q a b') → parses (p_get f) b Q.
Proof. intros Hf. unfold parses, p_get. cbn. destruct (f b) as [[a|] b'] eqn:E; [|done]. by apply Hf. Qed.
Lemma parses_string b : bwf b → parses (p_get buffer_get_string_ret) b (got_bytes b).
Proof.
  intros Hb. apply parses_get. intros s b' E. apply get_string_inv; [done|]. unfold buffer_get_string. by apply or_fatal_Ok.
Qed.
Lemma parses_cstring b : bwf b → parses (p_get buffer_get_cstring_ret) b (got_bytes b).
Proof.
  intros Hb. apply parses_get. intros s b' E. apply get_string_inv; [done|]. unfold buffer_get_string. apply or_fatal_Ok.
  unfold buffer_get_cstring_ret in E. destruct (buffer_get_string_ret b) as [[r|] b1]; [|done]. destruct (memchr0 r); [|done].
  by destruct (_ =? _).
Qed.
Lemma parses_bignum2 `{Bignum} b : bwf b → parses (p_get buffer_get_bignum2_ret) b (λ _ b', tail_of b b').
Proof.
  intros Hb. apply parses_get. intros a b' E. unfold buffer_get_bignum2_ret in E.
  destruct (buffer_get_string_ret b) as [[r|] b1] eqn:Er; [|done].
  assert (got_bytes b r b1) as Hg by (apply get_string_inv; [done|]; by apply or_fatal_Ok). apply got_tail in Hg.
  repeat case_match; by simplify_eq.
Qed.
Lemma parses_ecpoint `{Curve} b g : bwf b → parses (p_get (λ b, buffer_get_ecpoint_ret b g)) b (λ _ b', tail_of b b').
Proof.
  intros Hb. apply parses_get. intros a b' E. unfold buffer_get_ecpoint_ret in E.
  destruct (buffer_get_string_ret b) as [[r|] b1] eqn:Er; [|done].
  assert (got_bytes b r b1) as Hg by (apply get_string_inv; [done|]; by apply or_fatal_Ok). apply got_tail in Hg.
  repeat case_match; by simplify_eq.
Qed.
Lemma get_ret_tail b n l b' : bwf b → 0 ≤ n → buffer_get_ret b n = (Some l, b') → tail_of b b'.
Proof. intros Hb Hn E. apply get_inv in E as (? & _ & _ & E); [|done..]. split; [done|]. rewrite E. eauto. Qed.
Lemma parses_int b : bwf b → parses (p_get buffer_get_int_ret) b (λ _ b', tail_of b b').
Proof.
  intros Hb. apply parses_get. intros a b' E. unfold buffer_get_int_ret in E. destruct (buffer_get_ret b 4) as [[l|] b1] eqn:El; [|done].
  injection E as _ <-. by apply get_ret_tail in El.
Qed.
Lemma parses_int64 b : bwf b → parses (p_get buffer_get_int64_ret) b (λ _ b', tail_of b b').
Proof.
  intros Hb. apply parses_get. intros a b' E. unfold buffer_get_int64_ret in E. destruct (buffer_get_ret b 8) as [[l|] b1] eqn:El; [|done].
  injection E as _ <-. by apply get_ret_tail in El.
Qed.
(** Also when the string is missing, the buffer loses its front only. *)
Lemma wpo_string_ptr b : bwf b → wpo (buffer_get_string_ptr_ret b) (λ '(r, b'), tail_of b b' ∧
  (is_Some r → (length (contents b') < length (contents b))%nat)).
Proof.
  intros Hb. unfold buffer_get_string_ptr_ret, buffer_get_int_ret. pose proof (buffer_get_ret_spec b 4 (proj1 Hb) ltac:(lia)) as Hs.
  destruct (buffer_get_ret b 4) as [[l|] b1] eqn:El.
  - clear Hs. apply get_inv in El as (Hw1 & Hl & Hn & Hc); [|done..].
    assert (tail_of b b1) as Ht by (split; [done|]; rewrite Hc; eauto).
    destruct (Z.ltb_spec (256 * 1024) (get_u32 l)). { split; [done|]. by intros []. }
    pose proof (get_u32_range l Hl ltac:(lia)) as [Hr _]. cbv zeta. apply wpo_bind.
    pose proof (buffer_consume_spec b1 (get_u32 l) (proj1 Hw1) Hr) as Hk. destruct (_ <=? _); [|by destruct Hk as [m ->]].
    destruct Hk as (b2 & -> & Hw2 & _ & _ & Hk). cbn.
    assert (tail_of b1 b2) as Ht2.
    { split; [split; [done|rewrite Hk; apply Forall_drop, Hw1]|]. exists (take (Z.to_nat (get_u32 l)) (contents b1)). by rewrite Hk, take_drop. }
    split; [by eapply tail_trans|]. intros _. pose proof (tail_length _ _ Ht2). rewrite Hc, length_app. lia.
  - destruct (_ <=? _).
    + by destruct Hs as (? & ? & _).
    + injection Hs as ->. split; [by apply tail_refl|]. by intros [].
Qed.
Lemma parses_string_ptr b : bwf b →
  parses (p_try buffer_get_string_ptr_ret) b (λ _ b', tail_of b b' ∧ (length (contents b') < length (contents b))%nat).
Proof.
  intros Hb. unfold parses, p_try. apply wpo_bind. eapply wpo_mono; [by apply wpo_string_ptr|].
  intros [[s|] b'] [Ht Hl]; cbn; [|done]. split; [done|]. apply Hl. eauto.
Qed.
Lemma parses_when {A} c (m : parse A) a b (Q : A → Buffer → Prop) : parses m b Q → Q a b → parses (p_when c m a) b Q.
Proof. by destruct c. Qed.

Lemma parses_left b : parses p_left b (λ n b', n = buffer_len b ∧ b' = b).
Proof. done. Qed.

(** ** Verification of signatures does not crash *)

Section Safe.
Context `{OpensslOk} (datafellows : Z).

Lemma wpo_or_fatal {A} e (r : option A * Buffer) : wpo (or_fatal e r) (λ _, True).
Proof. by destruct r as [[a|] b]. Qed.
Lemma wpo_init d : wpo (buffer_append buffer_init d) (λ _, True).
Proof. eapply wpo_mono; [apply wpo_append, buffer_init_wf|done]. Qed.

(** The next call of a straight line of code on buffers. *)
Ltac safe_step :=
  first [ exact I
        | apply wpo_bind; eapply wpo_mono; [first [apply wpo_init | apply wpo_or_fatal]|intros ? _]
        | match goal with
          | |- context [match ?x with pair _ _ => _ end] => destruct x
          | |- wpo (if ?c then _ else _) _ => destruct c
          | |- wpo (match ?x with Some _ => _ | None => _ end) _ => destruct x
          end ].
Lemma verify_safe k sig data : wpo (key_verify datafellows k sig data) (λ _, True).
Proof.
  unfold key_verify. destruct sig as [|c sig]; [done|]. destruct (is_dsa_type _); [|destruct (is_ecdsa_type _); [|destruct (is_rsa_type _); [|done]]].
  - unfold ssh_dss_verify. destruct (k_dsa k); [|done]. destruct (negb _); [done|]. apply wpo_bind.
    apply wpo_mono with (λ _, True); [unfold dss_sigblob; repeat safe_step|intros [blob|] _; [|done]].
    destruct (negb _); [done|]. repeat case_match; done.
  - unfold ssh_ecdsa_verify, ecdsa_md. destruct (k_ecdsa k); [|done]. destruct (negb _); [done|]. destruct (k_nid k); [|done].
    cbn [mbind outcome_bind]. repeat safe_step.
  - unfold ssh_rsa_verify. repeat safe_step.
Qed.

(** ** The parts of a certificate *)

Lemma principals_safe room : ∀ b, bwf b → parses (parse_principals room) b (λ _ _, True).
Proof.
  induction room as [|room IH]; intros b Hb; cbn [parse_principals]; apply parses_bind; unfold p_left; cbn; destruct (_ =? 0); try done.
  apply parses_bind. eapply parses_mono; [by apply parses_cstring|]. intros p b' Hg. apply parses_bind.
  eapply parses_mono; [apply IH, Hg|]. done.
Qed.
Lemma pairs_safe fuel : ∀ b, bwf b → (length (contents b) ≤ fuel)%nat → parses (check_pairs fuel) b (λ _ _, True).
Proof.
  induction fuel as [|fuel IH]; intros b Hb Hf; cbn [check_pairs]; apply parses_bind; unfold p_left; cbn.
  - rewrite (buffer_len_contents _ (proj1 Hb)). by replace (Z.of_nat (length (contents b))) with 0 by lia.
  - destruct (_ =? 0); [done|]. apply parses_bind. eapply parses_mono; [by apply parses_string_ptr|]. intros _ b1 [Ht1 Hl1].
    apply parses_bind. eapply parses_mono; [apply parses_string_ptr, Ht1|]. intros _ b2 [Ht2 Hl2]. apply IH; [apply Ht2|lia].
Qed.
Lemma parses_in_buffer {A} data (m : parse A) b (Q : A → Buffer → Prop) : bytes data →
  (∀ t, bwf t → contents t = data → parses m t (λ _ _, True)) → (∀ a, Q a b) → parses (in_buffer data m) b Q.
Proof.
  intros Hd Hm HQ. unfold parses, in_buffer. apply wpo_bind. eapply wpo_mono; [apply wpo_append, buffer_init_wf|].
  intros t [Ht Hc]. rewrite (proj2 buffer_init_wf) in Hc. cbn [app] in Hc. apply wpo_bind. eapply wpo_mono.
  - apply Hm; [split; [done|by rewrite Hc]|done].
  - intros [[a t']|] _; [apply HQ|done].
Qed.

Lemma kind_plain ca : negb (k_type ca =? KEY_RSA) && negb (k_type ca =? KEY_DSA) && negb (k_type ca =? KEY_ECDSA) = false → is_plain ca.
Proof.
  unfold is_plain. rewrite !elem_of_cons. destruct (Z.eqb_spec (k_type ca) KEY_RSA); [auto|]. destruct (Z.eqb_spec (k_type ca) KEY_DSA); [auto|].
  destruct (Z.eqb_spec (k_type ca) KEY_ECDSA); [auto|done].
Qed.

(** What an accepted certificate comes with: [signed] and the key of the
    authority are under the signature. *)
Definition authentic (rec : list Z → outcome (option Key)) (blob : list Z) (c : KeyCert) : Prop :=
  ∃ signed ca_blob sig rest ca, blob = (signed ++ Items.wire (Items.String ca_blob)) ++ Items.wire (Items.String sig) ++ rest ∧
    c_certblob c = blob ∧ c_signature_key c = Some ca ∧ is_plain ca ∧ rec ca_blob = Ok (Some ca) ∧
    key_verify datafellows ca sig (signed ++ Items.wire (Items.String ca_blob)) = Ok 1.

Lemma cert_parse_safe rec t blob front b : bwf b → bytes blob → blob = front ++ contents b →
  (∀ l, bytes l → (length l < length (contents b))%nat → wpo (rec l) (λ _, True)) →
  parses (cert_parse datafellows rec t blob) b (λ c _, authentic rec blob c).
Proof.
  intros Hb Hbl Hblob Hrec. unfold cert_parse. cbv zeta. apply parses_bind, parses_lift.
  eapply wpo_mono; [apply wpo_append, buffer_init_wf|]. intros cb [Hcb Ecb]. rewrite (proj2 buffer_init_wf) in Ecb. cbn [app] in Ecb.
  apply parses_bind. eapply parses_mono; [apply parses_when; [by apply parses_int64|by apply tail_refl]|]. intros serial b1 T1.
  apply parses_bind. eapply parses_mono; [apply parses_int, T1|]. intros ctype b2 T2. pose proof (tail_trans _ _ _ T1 T2) as U2.
  apply parses_bind. eapply parses_mono; [apply parses_cstring, T2|]. intros key_id b3 T3. pose proof (tail_trans _ _ _ U2 (got_tail _ _ _ T3)) as U3.
  apply parses_bind. eapply parses_mono; [apply parses_string, T3|]. intros principals b4 T4.
  pose proof (tail_trans _ _ _ U3 (got_tail _ _ _ T4)) as U4.
  apply parses_bind. eapply parses_mono; [apply parses_int64, T4|]. intros after b5 T5. pose proof (tail_trans _ _ _ U4 T5) as U5.
  apply parses_bind. eapply parses_mono; [apply parses_int64, T5|]. intros before b6 T6. pose proof (tail_trans _ _ _ U5 T6) as U6.
  apply parses_bind. eapply parses_mono; [apply parses_string, T6|]. intros critical b7 T7.
  pose proof (tail_trans _ _ _ U6 (got_tail _ _ _ T7)) as U7.
  apply parses_bind. eapply (parses_mono _ _ (λ s b', bytes s ∧ tail_of b7 b')).
  { apply parses_when; [|split; [constructor|apply tail_refl, T7]]. eapply parses_mono; [apply parses_string, T7|].
    intros s b' Hg. split; [apply Hg|by eapply got_tail]. }
  intros exts b8 [Hexts T8]. pose proof (tail_trans _ _ _ U7 T8) as U8.
  apply parses_bind. eapply (parses_mono _ _ (λ _ b', tail_of b8 b')).
  { apply parses_when; [|apply tail_refl, T8]. eapply parses_mono; [apply parses_string_ptr, T8|]. by intros ? ? []. }
  intros _ b9 T9. pose proof (tail_trans _ _ _ U8 T9) as U9.
  apply parses_bind. eapply parses_mono; [apply parses_string_ptr, T9|]. intros _ b10 [T10 _]. pose proof (tail_trans _ _ _ U9 T10) as U10.
  apply parses_bind. eapply parses_mono; [apply parses_string, T10|]. intros ca_blob b11 T11.
  destruct (negb _); [done|]. apply parses_bind. eapply parses_mono; [apply (parses_left b11)|]. intros left_ b11' [-> ->].
  apply parses_bind. eapply parses_mono; [apply parses_string, T11|]. intros sig b12 T12. destruct (negb _ && negb _); [done|].
  apply parses_bind, parses_in_buffer; [apply T4|intros; by apply principals_safe|]. intros names.
  apply parses_bind, parses_in_buffer; [apply T7|intros t' ? <-; by apply pairs_safe|]. intros _.
  apply parses_bind, parses_in_buffer; [apply Hexts|intros t' ? <-; by apply pairs_safe|]. intros _.
  assert (length ca_blob < length (contents b))%nat as Hlt.
  { pose proof (tail_length _ _ U10) as Hl. destruct T11 as (_ & _ & _ & E11). rewrite E11, length_app in Hl. cbn [Items.wire] in Hl.
    rewrite length_app in Hl. change (length (put_u32 _)) with 4%nat in Hl. lia. }
  apply parses_bind, parses_lift, wpo_true; [apply Hrec; [apply T11|done]|]. intros [ca|] Eca; [|done].
  destruct (negb _ && _ && _) eqn:Hkind; [done|]. apply parses_bind, parses_lift, wpo_true; [apply verify_safe|]. intros v Ev.
  destruct (Z.eqb_spec v 1) as [->|]; [|done]. apply parses_ret.
  destruct U10 as [Hb10 [p Ep]]. destruct T11 as (Hb11 & _ & _ & E11). destruct T12 as (Hb12 & _ & _ & E12).
  exists (front ++ p), ca_blob, sig, (contents b12), ca.
  assert (blob = ((front ++ p) ++ Items.wire (Items.String ca_blob)) ++ contents b11) as Hall
    by (rewrite Hblob, Ep, E11; by rewrite <- !app_assoc).
  split_and!; [by rewrite Hall, E12|done|done|by apply kind_plain|done|].
  rewrite <- Ev. f_equal. rewrite (buffer_len_contents _ Hcb), (buffer_len_contents _ (proj1 Hb11)), Ecb.
  replace (Z.to_nat (u32 _)) with (length ((front ++ p) ++ Items.wire (Items.String ca_blob))).
  - rewrite Hall at 1. by rewrite take_app_length.
  - pose proof (contents_length _ Hcb) as Hlen. pose proof (wf_alloc _ Hcb) as Ha. pose proof (wf_end _ Hcb). pose proof (wf_offset _ Hcb).
    revert Ha. change BUFFER_MAX_LEN with 10485760. rewrite Ecb in Hlen. rewrite Hall in Hlen |- *. rewrite !length_app in Hlen. rewrite !length_app. intros. rewrite u32_small; lia.
Qed.

(** ** Keys *)

Lemma validate_safe g q : wpo (key_ec_validate_public g q) (λ _, True).
Proof. unfold key_ec_validate_public. repeat case_match; done. Qed.
Lemma nonce_safe c b : bwf b → parses (skip_nonce c) b (λ _ b', tail_of b b').
Proof.
  intros Hb. unfold parses, skip_nonce. destruct c; [|by apply tail_refl]. apply wpo_bind.
  eapply wpo_mono; [by apply wpo_string_ptr|]. by intros [r b'] [? _].
Qed.
Lemma rsa_safe b : bwf b → parses parse_rsa b (λ _ b', tail_of b b').
Proof.
  intros Hb. apply parses_bind. eapply parses_mono; [by apply parses_bignum2|]. intros x1 b1 T1.
  apply parses_bind. eapply parses_mono; [apply parses_bignum2, T1|]. intros x2 b2 T2. apply parses_ret. exact (tail_trans _ _ _ T1 T2).
Qed.
Lemma dsa_safe b : bwf b → parses parse_dsa b (λ _ b', tail_of b b').
Proof.
  intros Hb. apply parses_bind. eapply parses_mono; [by apply parses_bignum2|]. intros x1 b1 T1.
  apply parses_bind. eapply parses_mono; [apply parses_bignum2, T1|]. intros x2 b2 T2. pose proof (tail_trans _ _ _ T1 T2) as U2.
  apply parses_bind. eapply parses_mono; [apply parses_bignum2, T2|]. intros x3 b3 T3. pose proof (tail_trans _ _ _ U2 T3) as U3.
  apply parses_bind. eapply parses_mono; [apply parses_bignum2, T3|]. intros x4 b4 T4. apply parses_ret. exact (tail_trans _ _ _ U3 T4).
Qed.
Lemma ecdsa_safe n b : bwf b → parses (parse_ecdsa n) b (λ _ b', tail_of b b').
Proof.
  intros Hb. apply parses_bind. eapply parses_mono; [by apply parses_string|]. intros curve b1 T1%got_tail. destruct (negb _); [done|].
  destruct (match n with Some n => EC_KEY_new_by_curve_name n | None => None end) as [g|]; [|done].
  apply parses_bind. eapply parses_mono; [apply parses_ecpoint, T1|]. intros q b2 T2. apply parses_bind, parses_lift.
  eapply wpo_mono; [apply validate_safe|]. intros [|] _; [|done]. apply parses_ret. exact (tail_trans _ _ _ T1 T2).
Qed.

(** A key is what its type says, and its certificate is authentic. *)
Definition key_sound (rec : list Z → outcome (option Key)) (blob : list Z) (k : Key) : Prop :=
  if key_is_cert k then ∃ c, k_cert k = Some c ∧ authentic rec blob c else k_cert k = None.

Lemma finish_safe rec blob front k b : bwf b → bytes blob → blob = front ++ contents b → k_cert k = None →
  (∀ l, bytes l → (length l < length blob)%nat → wpo (rec l) (λ _, True)) →
  parses (finish_key datafellows rec blob k) b (λ k' _, key_sound rec blob k').
Proof.
  intros Hb Hbl E Hk Hrec. unfold finish_key. destruct (key_is_cert k) eqn:Hc.
  - apply parses_bind. eapply parses_mono; [eapply cert_parse_safe; [done|done|exact E|]|].
    { intros l Hl Hlt. apply Hrec; [done|]. rewrite E, length_app. lia. }
    intros c b' Ha. apply parses_ret. unfold key_sound. change (key_is_cert (k <| k_cert := Some c |>)) with (key_is_cert k). rewrite Hc. eauto.
  - apply parses_ret. unfold key_sound. by rewrite Hc.
Qed.

Lemma parse_key_safe rec blob b : bwf b → contents b = blob →
  (∀ l, bytes l → (length l < length blob)%nat → wpo (rec l) (λ _, True)) →
  parses (parse_key datafellows rec blob) b (λ k _, key_sound rec blob k).
Proof.
  intros Hb Hc Hrec. assert (bytes blob) as Hbl by (rewrite <- Hc; apply Hb).
  assert (∀ b' k, tail_of b b' → k_cert k = None → parses (finish_key datafellows rec blob k) b' (λ k _, key_sound rec blob k)) as Hfin.
  { intros b' k [Hb' [p Ep]] Hk. eapply finish_safe; [done|done|by rewrite <- Hc, Ep|done|done]. }
  apply parses_bind. eapply parses_mono; [by apply parses_cstring|]. intros ktype b1 T1%got_tail. cbv zeta.
  destruct (is_rsa_type _); [|destruct (is_dsa_type _); [|destruct (is_ecdsa_type _); [|destruct (_ =? KEY_UNSPEC); [|done]]]].
  4: by apply Hfin.
  all: apply parses_bind; eapply parses_mono; [apply nonce_safe, T1|]; intros u b2 T2; apply parses_bind;
    eapply parses_mono; [first [apply rsa_safe|apply dsa_safe|apply ecdsa_safe]; apply T2|]; intros x b3 T3;
    apply Hfin; [exact (tail_trans _ _ _ (tail_trans _ _ _ T1 T2) T3)|done].
Qed.

Lemma blob_parse_sound fuel blob : bytes blob → (length blob < fuel)%nat →
  wpo (from_blob datafellows fuel blob) (λ r, ∀ k, r = Some k → key_sound (from_blob datafellows (pred fuel)) blob k).
Proof.
  revert blob. induction fuel as [|fuel IH]; intros blob Hbl Hf; [lia|]. cbn [from_blob pred]. apply wpo_bind.
  eapply wpo_mono; [apply wpo_append, buffer_init_wf|]. intros b [Hb Hc]. rewrite (proj2 buffer_init_wf) in Hc. cbn [app] in Hc.
  apply wpo_bind. eapply wpo_mono.
  - apply (parse_key_safe (from_blob datafellows fuel) blob b); [split; [done|by rewrite Hc]|done|].
    intros l Hl Hlt. eapply wpo_mono; [apply IH; [done|lia]|done].
  - intros [[k b']|] Hk k' [= <-]. done.
Qed.

(** C18: [key_from_blob] ends on every string of bytes, with a key, a refusal or a
    fatal error: the recursion into the key of the authority has enough fuel, the
    loops over the options come to an end, and no null pointer is read. *)
Theorem key_from_blob_total blob : bytes blob → wpo (key_from_blob datafellows blob) (λ _, True).
Proof. intros Hb. eapply wpo_mono; [apply blob_parse_sound; [done|lia]|done]. Qed.

(** C16: A certificate is accepted only under a signature, by the key it names as its
    authority's and over everything that precedes the signature; the authority is
    not itself a certificate. *)
Theorem cert_authentic blob k : bytes blob → key_from_blob datafellows blob = Ok (Some k) → key_is_cert k = true →
  ∃ c signed ca_blob sig rest ca,
    k_cert k = Some c ∧ c_certblob c = blob ∧ c_signature_key c = Some ca ∧ is_plain ca ∧
    blob = (signed ++ Items.wire (Items.String ca_blob)) ++ Items.wire (Items.String sig) ++ rest ∧
    from_blob datafellows (length blob) ca_blob = Ok (Some ca) ∧
    key_verify datafellows ca sig (signed ++ Items.wire (Items.String ca_blob)) = Ok 1.
Proof.
  intros Hb E Hc. pose proof (blob_parse_sound (S (length blob)) blob Hb ltac:(lia)) as Hs. unfold key_from_blob in E. rewrite E in Hs.
  specialize (Hs k eq_refl). unfold key_sound in Hs. rewrite Hc in Hs.
  destruct Hs as (c & Ec & signed & ca_blob & sig & rest & ca & ? & ? & ? & ? & ? & ?). exists c, signed, ca_blob, sig, rest, ca. done.
Qed.
End Safe.

Import ZBignum KeyDemo.
(** The blob of the demonstration certificate. *)
Definition demo_blob : list Z :=
  match key_certify 0 0 (replicate 32 1) certified_demo KeyDemo.rsa_demo with
  | Ok (_, k) => match k_cert k with Some c => c_certblob c | None => [] end
  | _ => []
  end.
Lemma demo_blob_bytes : bytes demo_blob.
Proof. apply (bool_decide_unpack _). by vm_compute. Qed.
Lemma key_from_blob_total_witness : wpo (key_from_blob 0 demo_blob) (λ _, True).
Proof. apply key_from_blob_total. exact demo_blob_bytes. Defined.
Lemma cert_authentic_witness : ∃ k c signed ca_blob sig rest ca,
  key_from_blob 0 demo_blob = Ok (Some k) ∧ k_cert k = Some c ∧ c_signature_key c = Some ca ∧
  demo_blob = (signed ++ Items.wire (Items.String ca_blob)) ++ Items.wire (Items.String sig) ++ rest ∧
  key_verify 0 ca sig (signed ++ Items.wire (Items.String ca_blob)) = Ok 1.
Proof.
  assert (match key_from_blob 0 demo_blob with Ok (Some k) => key_is_cert k | _ => false end = true) as Hk by by vm_compute.
  destruct (key_from_blob 0 demo_blob) as [[k|]| | | | |] eqn:E; try discriminate Hk.
  destruct (cert_authentic 0 demo_blob k demo_blob_bytes E Hk) as (c & signed & ca_blob & sig & rest & ca & Ec & _ & Eca & _ & Eb & _ & Ev).
  exists k, c, signed, ca_blob, sig, rest, ca. split; [reflexivity|]. exact (conj Ec (conj Eca (conj Eb Ev))).
Defined.

(** Not every fault in a blob is a refusal.  [buffer_get_string_ptr_ret] calls the
    fatal [buffer_consume] for a string longer than the rest of the buffer: a
    certificate that is cut off in its nonce ends the process.  So does a key of
    the type ecdsa on a curve that is not known: -1 is the number of the curve in
    the name of the type as well as of the curve. *)
Example truncated_certificate_fatal :
  key_from_blob 0 (Items.wire (Items.CString (codes "ssh-rsa-cert-v01@openssh.com")) ++ [0; 0; 0; 9; 1]) =
    Fatal "buffer_consume: buffer error".
Proof. by vm_compute. Qed.
Example unknown_curve_fatal :
  key_from_blob 0 (Items.wire (Items.CString (codes "ecdsa")) ++ Items.wire (Items.String (codes "none"))) =
    Fatal "key_from_blob: EC_KEY_new_by_curve_name failed".
Proof. by vm_compute. Qed.
