(* ===== verification/KeyTextProofs.v ===== *)
(** * Keys as text: theorems ([key.c], [uuencode.c], [openbsd-compat/base64.c])

    A line that [key_write] writes to a file of public keys is read by
    [key_read]: the composition of the encoding of keys with base 64. *)

From S2P Require Import Prelude ByteOrder Buffer Stdio CipherMac Packet Match Kex BufBn Wp Base64 Keys KeyText KeysProofs KeyDemo.

Lemma cstr_app s t : 0 ∉ s → cstr (s ++ 0 :: t) = s.
Proof.
  induction s as [|c s IH]; [done|]. rewrite not_elem_of_cons. intros [Hc Hs]. cbn [app cstr].
  rewrite (proj2 (Z.eqb_neq _ _)) by done. by rewrite IH.
Qed.
Lemma b64_text_clean src : bytes src → 0 ∉ b64_text src.
Proof. intros Hb Hin. pose proof (b64_text_not_zero src Hb) as Hf. rewrite Forall_forall in Hf. by apply (Hf 0). Qed.
Lemma b64_text_short src : (4 < length src)%nat → Z.of_nat (length (b64_text src)) < Z.of_nat (2 * length src).
Proof.
  intros Hl. rewrite b64_text_length. pose proof (Z.div_mod (Z.of_nat (length src) + 2) 3 ltac:(lia)).
  pose proof (Z.mod_pos_bound (Z.of_nat (length src) + 2) 3 ltac:(lia)). lia.
Qed.
Lemma b64_text_nonempty src : src ≠ [] → b64_text src ≠ [].
Proof. by destruct src as [|a [|b [|c src]]]. Qed.
Lemma split_space_app s t : 32 ∉ s → split_space (s ++ 32 :: t) = Some (s, t).
Proof.
  induction s as [|c s IH]; [done|]. rewrite not_elem_of_cons. intros [Hc Hs]. cbn [app split_space].
  rewrite (proj2 (Z.eqb_neq _ _)) by done. by rewrite IH.
Qed.
Lemma after_word_app s t : Forall (λ c, is_blank c = false) s → blank_first t → after_word (s ++ t) = t.
Proof.
  induction s as [|c s IH]; intros Hs Ht; cbn [app after_word].
  - destruct t; [done|]. cbn [after_word]. by rewrite Ht.
  - apply Forall_cons in Hs as [-> Hs]. by apply IH.
Qed.

Section Text.
Context `{OpensslOk} (datafellows : Z).

Lemma codes_bytes_name k : key_ok k → bytes (key_ssh_name k) ∧ 32 ∉ key_ssh_name k ∧ (7 ≤ length (key_ssh_name k))%nat.
Proof.
  unfold key_ssh_name. intros [r Ht _ _|d Ht _ _|n e Ht -> _ _].
  - revert Ht. unfold is_rsa_type. rewrite !orb_true_iff, !Z.eqb_eq. intros [[->| ->]| ->]; by_decision.
  - revert Ht. unfold is_dsa_type. rewrite !orb_true_iff, !Z.eqb_eq. intros [[->| ->]| ->]; by_decision.
  - revert Ht. unfold is_ecdsa_type. rewrite !orb_true_iff, !Z.eqb_eq. intros [->| ->]; destruct n; by_decision.
Qed.
Lemma wire_string_bytes s : bytes s → bytes (Items.wire (Items.String s)).
Proof. intros Hs. apply Forall_app. split; [apply put_u32_bytes|done]. Qed.
Lemma wire_bn_bytes a : bytes (wire_bn a).
Proof. apply wire_string_bytes, mpint_bytes. Qed.
Lemma wire_public_bytes k : key_ok k → bytes (wire_public k).
Proof.
  unfold wire_public. pose proof (kinds_disjoint (k_type k)) as (Dr & Dd & De).
  intros [r Ht Er _|d Ht Ed _|n e Ht En Ee (_ & _ & _ & Hp)].
  - destruct (Dr Ht) as [-> ->]. rewrite Er. apply Forall_app. split; apply wire_bn_bytes.
  - rewrite Ht, Ed. unfold wire_dsa. do 3 (apply Forall_app; split; [apply wire_bn_bytes|]). apply wire_bn_bytes.
  - destruct (De Ht) as [_ ->]. rewrite Ht, Ee, En. apply Forall_app. split; [|by apply wire_string_bytes].
    apply wire_string_bytes. destruct n; by_decision.
Qed.
Lemma wire_key_bytes k : key_ok k → is_plain k → bytes (wire_key k []).
Proof.
  intros Hk Hp. unfold wire_key. rewrite (plain_nonce k [] Hp). apply Forall_app. split; [|by apply wire_public_bytes].
  apply wire_string_bytes. by apply codes_bytes_name.
Qed.

(** An empty key, as [key_new(KEY_UNSPEC)] makes it. *)
Definition key_unspec : Key := mkKey KEY_UNSPEC 0 None None None None None.

Lemma plain_type k : key_ok k → is_plain k → key_type_from_name (key_ssh_name k) = k_type k ∧
  (key_type_plain (k_type k) = k_type k) ∧ (k_type k =? KEY_UNSPEC) = false ∧
  (if key_type_plain (k_type k) =? KEY_ECDSA then key_ecdsa_nid_from_name (key_ssh_name k) else None) =
    (if k_type k =? KEY_ECDSA then k_nid k else None) ∧ (k_type k =? KEY_ECDSA → is_Some (k_nid k)) ∧ has_parts k = true.
Proof.
  intros Hk Hp. unfold is_plain in Hp. rewrite !elem_of_cons, elem_of_nil in Hp. unfold key_ssh_name, has_parts.
  destruct Hk as [r Ht Er _|d Ht Ed _|n e Ht En Ee _]; destruct Hp as [E|[E|[E|[]]]]; rewrite E in *; try discriminate.
  - rewrite Er. split_and!; by vm_compute.
  - rewrite Ed. split_and!; by vm_compute.
  - rewrite Ee, En. split_and!; try by vm_compute. all: first [by eauto|destruct n; by vm_compute].
Qed.

Lemma plain_not_rsa1 k : is_plain k → (k_type k =? KEY_RSA1) = false.
Proof. unfold is_plain. rewrite !elem_of_cons, elem_of_nil. by intros [->|[->|[->|[]]]]. Qed.

(** What is taken over from the decoded key is all of it. *)
Lemma take_over_public k : key_ok k → is_plain k → take_over (key_unspec <| k_type := k_type k |>) (public_part k) = public_part k.
Proof.
  intros Hk Hp. unfold is_plain in Hp. rewrite !elem_of_cons, elem_of_nil in Hp. unfold take_over, public_part, key_unspec, key_is_cert.
  destruct Hk as [r Ht Er _|d Ht Ed _|n e Ht En Ee _]; destruct Hp as [E|[E|[E|[]]]]; rewrite E in *; try discriminate.
  - by rewrite Er.
  - by rewrite Ed.
  - by rewrite Ee, En.
Qed.
Lemma public_nid k : key_ok k → is_plain k → k_type (public_part k) = k_type k ∧
  k_nid (public_part k) = if k_type k =? KEY_ECDSA then k_nid k else None.
Proof.
  intros Hk Hp. unfold is_plain in Hp. rewrite !elem_of_cons, elem_of_nil in Hp. unfold public_part.
  destruct Hk as [r Ht Er _|d Ht Ed _|n e Ht En Ee _]; destruct Hp as [E|[E|[E|[]]]]; rewrite E in *; try discriminate; done.
Qed.
Lemma read_typed_public k comment : key_ok k → is_plain k → blank_first comment → wire_key k [] ≠ [] →
  read_typed datafellows key_unspec (key_ssh_name k ++ 32 :: b64_text (wire_key k []) ++ comment) = Ok (true, public_part k, comment).
Proof.
  intros Hk Hp Hc Hne. pose proof (wire_key_bytes k Hk Hp) as Hby.
  destruct (codes_bytes_name k Hk) as (_ & Hsp & _). destruct (plain_type k Hk Hp) as (Et & Epl & Eu & Ecv & Hcv & _).
  destruct (public_nid k Hk Hp) as [Ept Epn]. set (blob := wire_key k []) in *.
  unfold read_typed. rewrite split_space_app by done. cbv zeta. rewrite Et, Ecv, Epl, Eu.
  assert ((k_type k =? KEY_ECDSA) && bool_decide ((if k_type k =? KEY_ECDSA then k_nid k else None) = None) = false) as ->.
  { destruct (k_type k =? KEY_ECDSA); [|done]. destruct Hcv as [n ->]; [done|]. done. }
  pose proof (b64_text_nonempty blob Hne) as Ht. pose proof (b64_text_not_blank blob Hby) as Hnb.
  destruct (b64_text blob ++ comment) as [|c0 data] eqn:Ed; [by destruct (b64_text blob)|]. rewrite <- Ed.
  change (k_type key_unspec) with KEY_UNSPEC. rewrite Z.eqb_refl. cbn [negb andb].
  destruct (b64_pton_spec blob (replicate (2 * length (b64_text blob ++ comment)) 0) Hby) as (rest & Ep).
  { rewrite length_replicate, length_app. pose proof (b64_text_length blob). pose proof (Z.div_mod (Z.of_nat (length blob) + 2) 3 ltac:(lia)).
    pose proof (Z.mod_pos_bound (Z.of_nat (length blob) + 2) 3 ltac:(lia)). destruct blob; [done|]. cbn [length] in *. lia. }
  unfold uudecode. rewrite span_blank_none by done. cbv beta iota. cbn [app snd]. rewrite upto_blank_app, Ep by done.
  cbn [mbind outcome_bind]. rewrite (proj2 (Z.ltb_ge _ _)) by lia. rewrite Nat2Z.id, take_app_length.
  unfold key_from_blob, blob. rewrite from_blob_plain by done. cbn [mbind outcome_bind]. rewrite Ept, Z.eqb_refl, Epn. cbn [negb].
  rewrite bool_decide_true, andb_false_r by done. rewrite take_over_public by done. by rewrite after_word_app.
Qed.

(** A public key that [key_write] prints is read by [key_read], also with a
    comment behind it; the cursor is left at the comment. *)
Theorem key_text_roundtrip k comment : key_ok k → is_plain k → blank_first comment →
  ∃ text, key_write k = Ok (true, text) ∧ key_read datafellows key_unspec (text ++ comment) = Ok (true, public_part k, comment).
Proof.
  intros Hk Hp Hc. destruct (to_blob_ok k Hk Hp) as [Eb _]. pose proof (wire_key_bytes k Hk Hp) as Hby.
  destruct (codes_bytes_name k Hk) as (_ & Hsp & Hnl). destruct (plain_type k Hk Hp) as (Et & Epl & Eu & Ecv & Hcv & Hparts).
  set (blob := wire_key k []) in *. assert (7 ≤ length blob)%nat as Hbl.
  { unfold blob, wire_key. rewrite !length_app. cbn [Items.wire]. rewrite length_app. lia. }
  assert (blob ≠ []) as Hne by (intros E0; rewrite E0 in Hbl; simpl in Hbl; lia).
  destruct (b64_ntop_spec blob (replicate (2 * length blob) 0) Hby) as (rest & Ew & _).
  { rewrite length_replicate. apply b64_text_short. lia. }
  exists (key_ssh_name k ++ [32] ++ b64_text blob). split.
  - unfold key_write. rewrite (plain_not_cert k Hp). cbn [andb]. rewrite (plain_not_rsa1 k Hp), Hparts, Eb. cbn [negb mbind outcome_bind deref].
    unfold uuencode. rewrite Ew. cbn [mbind outcome_bind]. rewrite (proj2 (Z.ltb_lt _ _)).
    + by rewrite cstr_app by by apply b64_text_clean.
    + pose proof (b64_text_nonempty blob Hne) as Ht. destruct (b64_text blob); [done|]. simpl. lia.
  - unfold key_read, key_unspec. cbn [k_type Z.eqb]. change (KEY_UNSPEC =? KEY_RSA1) with false. change (KEY_UNSPEC =? KEY_UNSPEC) with true.
    cbn [orb]. rewrite <- !app_assoc. by apply read_typed_public.
Qed.
End Text.

Import ZBignum KeyDemo.
Lemma key_text_roundtrip_witness : ∃ text, key_write ec_demo = Ok (true, text) ∧
  key_read 0 key_unspec (text ++ [32; 109; 101]) = Ok (true, public_part ec_demo, [32; 109; 101]).
Proof. apply (key_text_roundtrip 0 ec_demo [32; 109; 101]); [exact ec_demo_ok|vm_compute; by repeat constructor|done]. Defined.
