(* ===== verification/Agent.v ===== *)
(** * The authentication agent ([ssh-agent.c]) and its clients ([authfd.c])

    The table of identities, the requests, locking, lifetimes, the sockets, and
    the functions by which a client adds keys and has data signed.  The state
    is passed explicitly; a request that [buffer_get_*] cannot read ends the
    agent ([Fatal]).  Smart cards are not in the default build, so no identity
    has a provider. *)

From S2P Require Import Prelude ByteOrder Buffer Stdio CipherMac Match Kex BufBn Base64 Keys KeyText.

Definition SSH_AGENTC_REQUEST_RSA_IDENTITIES : Z := 1.
Definition SSH_AGENT_RSA_IDENTITIES_ANSWER : Z := 2.
Definition SSH_AGENTC_RSA_CHALLENGE : Z := 3.
Definition SSH_AGENT_RSA_RESPONSE : Z := 4.
Definition SSH_AGENT_FAILURE : Z := 5.
Definition SSH_AGENT_SUCCESS : Z := 6.
Definition SSH_AGENTC_ADD_RSA_IDENTITY : Z := 7.
Definition SSH_AGENTC_REMOVE_RSA_IDENTITY : Z := 8.
Definition SSH_AGENTC_REMOVE_ALL_RSA_IDENTITIES : Z := 9.
Definition SSH2_AGENTC_REQUEST_IDENTITIES : Z := 11.
Definition SSH2_AGENT_IDENTITIES_ANSWER : Z := 12.
Definition SSH2_AGENTC_SIGN_REQUEST : Z := 13.
Definition SSH2_AGENT_SIGN_RESPONSE : Z := 14.
Definition SSH2_AGENTC_ADD_IDENTITY : Z := 17.
Definition SSH2_AGENTC_REMOVE_IDENTITY : Z := 18.
Definition SSH2_AGENTC_REMOVE_ALL_IDENTITIES : Z := 19.
Definition SSH_AGENTC_LOCK : Z := 22.
Definition SSH_AGENTC_UNLOCK : Z := 23.
Definition SSH_AGENTC_ADD_RSA_ID_CONSTRAINED : Z := 24.
Definition SSH2_AGENTC_ADD_ID_CONSTRAINED : Z := 25.
Definition SSH_AGENT_CONSTRAIN_LIFETIME : Z := 1.
Definition SSH_AGENT_CONSTRAIN_CONFIRM : Z := 2.
Definition SSH2_AGENT_FAILURE : Z := 30.
Definition SSH_COM_AGENT2_FAILURE : Z := 102.
Definition SSH_AGENT_OLD_SIGNATURE : Z := 0x01.

(** ** The environment

    More of OpenSSL, the person who is asked for permission (comment and
    fingerprint of the key), and the random numbers of a signature. *)
Class AgentEnv `{Openssl} := {
  RSA_private_decrypt : list Z → rsa_key → option (list Z);
  RSA_blinding_on : rsa_key → bool;
  (** [BN_sub] and [BN_mod] of the parameters of the Chinese remainder theorem. *)
  crt_parameters : rsa_key → bool;
  ask_permission : list Z → list Z → bool;
  sign_random : nat
}.

Section Agent.
Context `{AgentEnv}.

(** ** State *)

Record Identity := mkIdentity { id_key : Key; id_comment : list Z; id_death : Z; id_confirm : bool }.
Record Idtab := mkIdtab { nentries : Z; idlist : list Identity }.
(** [idtable[1]] and [idtable[2]]; [lock_passwd] is NULL while the agent is not
    locked. *)
Record agent := mkAgent {
  idtable1 : Idtab;
  idtable2 : Idtab;
  locked : bool;
  lock_passwd : option (list Z);
  lifetime : Z
}.
#[global] Instance eta_Identity : Eta Identity := λ i,
  {| id_key := id_key i; id_comment := id_comment i; id_death := id_death i; id_confirm := id_confirm i |}.
#[global] Instance eta_Idtab : Eta Idtab := λ t, {| nentries := nentries t; idlist := idlist t |}.
#[global] Instance eta_agent : Eta agent := λ a,
  {| idtable1 := idtable1 a; idtable2 := idtable2 a; locked := locked a; lock_passwd := lock_passwd a; lifetime := lifetime a |}.

Inductive sock_type := AUTH_UNUSED | AUTH_SOCKET | AUTH_CONNECTION.
Record SocketEntry := mkSocket { s_fd : Z; s_type : sock_type; s_input : Buffer; s_output : Buffer; s_request : Buffer }.
#[global] Instance eta_SocketEntry : Eta SocketEntry := λ s,
  {| s_fd := s_fd s; s_type := s_type s; s_input := s_input s; s_output := s_output s; s_request := s_request s |}.

Definition close_socket (e : SocketEntry) : SocketEntry :=
  mkSocket (-1) AUTH_UNUSED (buffer_free (s_input e)) (buffer_free (s_output e)) (buffer_free (s_request e)).

Definition idtab_init (a : agent) : agent := a <| idtable1 := mkIdtab 0 [] |> <| idtable2 := mkIdtab 0 [] |>.
(** The table of a version of the protocol. *)
Definition idtab_lookup (a : agent) (version : Z) : outcome Idtab :=
  if version =? 1 then Ok (idtable1 a) else if version =? 2 then Ok (idtable2 a)
  else Fatal "internal error, bad protocol version".
Definition set_idtab (a : agent) (version : Z) (t : Idtab) : agent :=
  if version =? 1 then a <| idtable1 := t |> else a <| idtable2 := t |>.

(** The position of the identity in the list. *)
Fixpoint find_identity (key : Key) (ids : list Identity) : outcome (option nat) :=
  match ids with
  | [] => Ok None
  | id :: ids =>
      eq ← key_equal key (id_key id);
      if eq : bool then Ok (Some 0%nat) else r ← find_identity key ids; Ok (option_map S r)
  end.
Definition lookup_identity (a : agent) (key : Key) (version : Z) : outcome (option nat) :=
  tab ← idtab_lookup a version; find_identity key (idlist tab).
Definition get_identity (a : agent) (version : Z) (i : nat) : outcome Identity :=
  tab ← idtab_lookup a version; deref (idlist tab !! i).

Definition confirm_key (id : Identity) : outcome bool :=
  p ← key_fingerprint (id_key id) SSH_FP_MD5 SSH_FP_HEX;
  Ok (ask_permission (id_comment id) p).
(** [id != NULL && (!id->confirm || confirm_key(id) == 0)] *)
Definition may_use (a : agent) (version : Z) (id : option nat) : outcome (option Identity) :=
  match id with
  | None => Ok None
  | Some i =>
      id ← get_identity a version i;
      if negb (id_confirm id) then Ok (Some id)
      else ok ← confirm_key id; Ok (if ok : bool then Some id else None)
  end.

(** ** Answers *)

Definition put_message (e : SocketEntry) (msg : Buffer) : outcome SocketEntry :=
  o ← buffer_put_int (s_output e) (buffer_len msg);
  o ← buffer_append o (contents msg);
  Ok (e <| s_output := o |>).
Definition put_status (e : SocketEntry) (success : bool) : outcome SocketEntry :=
  o ← buffer_put_int (s_output e) 1;
  o ← buffer_put_char o (if success then SSH_AGENT_SUCCESS else SSH_AGENT_FAILURE);
  Ok (e <| s_output := o |>).

(** ** Requests *)

Fixpoint put_identities (msg : Buffer) (ids : list Identity) : outcome Buffer :=
  match ids with
  | [] => Ok msg
  | id :: ids =>
      msg ← (if k_type (id_key id) =? KEY_RSA1 then
               r ← deref (k_rsa (id_key id));
               msg ← buffer_put_int msg (BN_num_bits (r_n r));
               msg ← buffer_put_bignum msg (r_e r);
               buffer_put_bignum msg (r_n r)
             else
               o ← key_to_blob (id_key id); blob ← deref o;
               buffer_put_string msg blob);
      msg ← buffer_put_cstring msg (Some (id_comment id));
      put_identities msg ids
  end.
Definition process_request_identities (a : agent) (e : SocketEntry) (version : Z) : outcome SocketEntry :=
  tab ← idtab_lookup a version;
  msg ← buffer_put_char buffer_init
          (if version =? 1 then SSH_AGENT_RSA_IDENTITIES_ANSWER else SSH2_AGENT_IDENTITIES_ANSWER);
  msg ← buffer_put_int msg (nentries tab);
  msg ← put_identities msg (idlist tab);
  put_message e msg.

Definition rsa_private_decrypt (challenge : bn) (rsa : rsa_key) : outcome (option bn) :=
  if (BN_num_bytes (r_n rsa) =? 0) || (BN_num_bytes challenge =? 0) then Fatal "xmalloc: zero size"
  else match RSA_private_decrypt (BN_bn2bin challenge) rsa with
  | None | Some [] => Ok None
  | Some out => match BN_bin2bn out with Some v => Ok (Some v) | None => Fatal "rsa_private_decrypt: BN_bin2bn failed" end
  end.

(** The request: key, challenge, session id; [None] is a jump to failure. *)
Definition challenge_answer (a : agent) (req : Buffer) : outcome (option (list Z) * Buffer) :=
  '(_, req) ← buffer_get_int req;
  '(e, req) ← buffer_get_bignum req;
  '(n, req) ← buffer_get_bignum req;
  '(challenge, req) ← buffer_get_bignum req;
  if buffer_len req =? 0 then Ok (None, req)
  else
    '(session_id, req) ← buffer_get req 16;
    '(response_type, req) ← buffer_get_int req;
    if negb (response_type =? 1) then Ok (None, req)
    else
      i ← lookup_identity a (mkKey KEY_RSA1 0 None (Some (mkRsa e n None)) None None None) 1;
      o ← may_use a 1 i;
      match o with
      | None => Ok (None, req)
      | Some id =>
          rsa ← deref (k_rsa (id_key id));
          c ← rsa_private_decrypt challenge rsa;
          match c with
          | None => Ok (None, req)
          | Some c =>
              let len := BN_num_bytes c in
              if (len <=? 0) || (32 <? len) then Ok (None, req)
              else Ok (Some (EVP_Digest EVP_md5 (left_pad 32 (BN_bn2bin c) ++ session_id)), req)
          end
      end.
Definition process_authentication_challenge1 (a : agent) (e : SocketEntry) : outcome SocketEntry :=
  '(o, req) ← challenge_answer a (s_request e);
  msg ← (match o with
         | Some mdbuf => Items.puts buffer_init (Items.Char SSH_AGENT_RSA_RESPONSE :: map Items.Char (take 16 mdbuf))
         | None => buffer_put_char buffer_init SSH_AGENT_FAILURE
         end);
  put_message (e <| s_request := req |>) msg.

Definition process_sign_request2 (a : agent) (e : SocketEntry) : outcome SocketEntry :=
  '(blob, req) ← buffer_get_string (s_request e);
  '(data, req) ← buffer_get_string req;
  '(flags, req) ← buffer_get_int req;
  let datafellows := if negb (Z.land flags SSH_AGENT_OLD_SIGNATURE =? 0) then SSH_BUG_SIGBLOB else 0 in
  key ← key_from_blob datafellows blob;
  signature ← (match key with
               | None => Ok None
               | Some key =>
                   i ← lookup_identity a key 2;
                   o ← may_use a 2 i;
                   match o with None => Ok None | Some id => key_sign datafellows sign_random (id_key id) data end
               end);
  msg ← (match signature with
         | Some s => Items.puts buffer_init [Items.Char SSH2_AGENT_SIGN_RESPONSE; Items.String s]
         | None => buffer_put_char buffer_init SSH_AGENT_FAILURE
         end);
  put_message (e <| s_request := req |>) msg.

(** The entry is taken out of the list. *)
Definition remove_at (i : nat) (t : Idtab) : Idtab := mkIdtab (nentries t - 1) (delete i (idlist t)).

Definition process_remove_identity (a : agent) (e : SocketEntry) (version : Z) : outcome (agent * SocketEntry) :=
  '(key, req) ←
    (if version =? 1 then
       '(bits, req) ← buffer_get_int (s_request e);
       '(re, req) ← buffer_get_bignum req;
       '(rn, req) ← buffer_get_bignum req;
       Ok (Some (mkKey KEY_RSA1 0 None (Some (mkRsa re rn None)) None None None), req)
     else if version =? 2 then
       '(blob, req) ← buffer_get_string (s_request e);
       k ← key_from_blob 0 blob; Ok (k, req)
     else Ok (None, s_request e));
  let e := e <| s_request := req |> in
  match key with
  | None => e ← put_status e false; Ok (a, e)
  | Some key =>
      i ← lookup_identity a key version;
      match i with
      | None => e ← put_status e false; Ok (a, e)
      | Some i =>
          tab ← idtab_lookup a version;
          if nentries tab <? 1 then Fatal "process_remove_identity: internal error: tab->nentries"
          else e ← put_status e true; Ok (set_idtab a version (remove_at i tab), e)
      end
  end.

Definition process_remove_all_identities (a : agent) (e : SocketEntry) (version : Z) : outcome (agent * SocketEntry) :=
  _ ← idtab_lookup a version;
  e ← put_status e true;
  Ok (set_idtab a version (mkIdtab 0 []), e).

(** One table of [reaper]: what is left, and the earliest death in the future. *)
Fixpoint reap (now : Z) (ids : list Identity) (n deadline : Z) : list Identity * Z * Z :=
  match ids with
  | [] => ([], n, deadline)
  | id :: ids =>
      if id_death id =? 0 then let '(l, n, d) := reap now ids n deadline in (id :: l, n, d)
      else if id_death id <=? now then reap now ids (n - 1) deadline
      else
        let '(l, n, d) := reap now ids n (if deadline =? 0 then id_death id else Z.min deadline (id_death id)) in
        (id :: l, n, d)
  end.
Definition reaper (time : Z) (a : agent) : Z * agent :=
  let now := u32 time in
  let '(l1, n1, d1) := reap now (idlist (idtable1 a)) (nentries (idtable1 a)) 0 in
  let '(l2, n2, d2) := reap now (idlist (idtable2 a)) (nentries (idtable2 a)) d1 in
  (if (d2 =? 0) || (d2 <=? now) then 0 else u32 (d2 - now), a <| idtable1 := mkIdtab n1 l1 |> <| idtable2 := mkIdtab n2 l2 |>).

(** ** Adding *)

Definition rsa_generate_additional_parameters (r : rsa_key) : outcome unit :=
  if crt_parameters r then Ok tt else Fatal "rsa_generate_additional_parameters: BN_sub/mod failed".

Definition get_rsa1_private (req : Buffer) : outcome (Key * Buffer) :=
  '(_, req) ← buffer_get_int req;
  '(n, req) ← buffer_get_bignum req;
  '(e, req) ← buffer_get_bignum req;
  '(d, req) ← buffer_get_bignum req;
  '(iqmp, req) ← buffer_get_bignum req;
  '(q, req) ← buffer_get_bignum req;
  '(p, req) ← buffer_get_bignum req;
  let r := mkRsa e n (Some (d, iqmp, p, q)) in
  _ ← rsa_generate_additional_parameters r;
  Ok (mkKey KEY_RSA1 0 None (Some r) None None None, req).
Definition get_rsa_private (req : Buffer) : outcome (Key * Buffer) :=
  '(n, req) ← buffer_get_bignum2 req;
  '(e, req) ← buffer_get_bignum2 req;
  '(d, req) ← buffer_get_bignum2 req;
  '(iqmp, req) ← buffer_get_bignum2 req;
  '(p, req) ← buffer_get_bignum2 req;
  '(q, req) ← buffer_get_bignum2 req;
  let r := mkRsa e n (Some (d, iqmp, p, q)) in
  _ ← rsa_generate_additional_parameters r;
  Ok (mkKey KEY_RSA 0 None (Some r) None None None, req).
Definition get_dsa_private (req : Buffer) : outcome (Key * Buffer) :=
  '(p, req) ← buffer_get_bignum2 req;
  '(q, req) ← buffer_get_bignum2 req;
  '(g, req) ← buffer_get_bignum2 req;
  '(y, req) ← buffer_get_bignum2 req;
  '(x, req) ← buffer_get_bignum2 req;
  Ok (mkKey KEY_DSA 0 None None (Some (mkDsa p q g y (Some x))) None None, req).
Definition get_ecdsa_private (type_name : list Z) (req : Buffer) : outcome (Key * Buffer) :=
  let n := key_ecdsa_nid_from_name (cstr type_name) in
  '(curve, req) ← buffer_get_string req;
  if negb (bool_decide (n = key_curve_name_to_nid (cstr curve))) then Fatal "process_add_identity: curve names mismatch"
  else match (match n with Some n => EC_KEY_new_by_curve_name n | None => None end) with
  | None => Fatal "process_add_identity: EC_KEY_new_by_curve_name failed"
  | Some g =>
      '(q, req) ← buffer_get_ecpoint req g;
      '(exponent, req) ← buffer_get_bignum2 req;
      let ec := mkEc g q (Some exponent) in
      ok ← key_ec_validate_public g q;
      if negb ok then Fatal "process_add_identity: bad ECDSA public key"
      else
        ok ← key_ec_validate_private ec;
        if negb ok then Fatal "process_add_identity: bad ECDSA private key"
        else Ok (mkKey KEY_ECDSA 0 n None None (Some ec) None, req)
  end.
(** The certificate; its type need not be the one that was announced. *)
Definition get_cert (req : Buffer) : outcome (Key * Buffer) :=
  '(cert, req) ← buffer_get_string req;
  k ← key_from_blob 0 cert;
  match k with None => Fatal "Certificate parse failed" | Some k => Ok (k, req) end.
Definition get_dsa_cert (req : Buffer) : outcome (Key * Buffer) :=
  '(k, req) ← get_cert req;
  d ← deref (k_dsa k);
  '(x, req) ← buffer_get_bignum2 req;
  Ok (k <| k_dsa := Some (mkDsa (d_p d) (d_q d) (d_g d) (d_pub_key d) (Some x)) |>, req).
Definition get_ecdsa_cert (req : Buffer) : outcome (Key * Buffer) :=
  '(k, req) ← get_cert req;
  '(exponent, req) ← buffer_get_bignum2 req;
  e ← deref (k_ecdsa k);
  let ec := mkEc (ec_grp e) (ec_pub e) (Some exponent) in
  ok ← key_ec_validate_public (ec_grp ec) (ec_pub ec);
  if negb ok then Fatal "process_add_identity: bad ECDSA key"
  else
    ok ← key_ec_validate_private ec;
    if negb ok then Fatal "process_add_identity: bad ECDSA key"
    else Ok (k <| k_ecdsa := Some ec |>, req).
Definition get_rsa_cert (req : Buffer) : outcome (Key * Buffer) :=
  '(k, req) ← get_cert req;
  r ← deref (k_rsa k);
  '(d, req) ← buffer_get_bignum2 req;
  '(iqmp, req) ← buffer_get_bignum2 req;
  '(p, req) ← buffer_get_bignum2 req;
  '(q, req) ← buffer_get_bignum2 req;
  Ok (k <| k_rsa := Some (mkRsa (r_e r) (r_n r) (Some (d, iqmp, p, q))) |>, req).

(** The key of the request; [None] for a type that is not known, after which the
    rest of the request is thrown away. *)
Definition get_private (version : Z) (req : Buffer) : outcome (option Key * Buffer) :=
  let some (m : outcome (Key * Buffer)) := '(k, req) ← m; Ok (Some k, req) in
  if version =? 1 then some (get_rsa1_private req)
  else
    '(type_name, req) ← buffer_get_string req;
    let type := key_type_from_name (cstr type_name) in
    if type =? KEY_DSA then some (get_dsa_private req)
    else if (type =? KEY_DSA_CERT_V00) || (type =? KEY_DSA_CERT) then some (get_dsa_cert req)
    else if type =? KEY_ECDSA then some (get_ecdsa_private type_name req)
    else if type =? KEY_ECDSA_CERT then some (get_ecdsa_cert req)
    else if type =? KEY_RSA then some (get_rsa_private req)
    else if (type =? KEY_RSA_CERT_V00) || (type =? KEY_RSA_CERT) then some (get_rsa_cert req)
    else Ok (None, buffer_clear req).
Definition blinding_ok (k : Key) : outcome bool :=
  if (k_type k =? KEY_RSA1) || is_rsa_type (k_type k) then r ← deref (k_rsa k); Ok (RSA_blinding_on r) else Ok true.

(** The constraints behind the comment: time of death and confirmation; [None] for
    one that is not known.  Every round takes a byte. *)
Fixpoint get_constraints (fuel : nat) (time : Z) (req : Buffer) (death : Z) (confirm : bool) : outcome (option (Z * bool) * Buffer) :=
  if buffer_len req =? 0 then Ok (Some (death, confirm), req)
  else match fuel with
  | O => NoFuel
  | S fuel =>
      '(type, req) ← buffer_get_char req;
      if type =? SSH_AGENT_CONSTRAIN_LIFETIME then
        '(n, req) ← buffer_get_int req; get_constraints fuel time req (u32 (time + n)) confirm
      else if type =? SSH_AGENT_CONSTRAIN_CONFIRM then get_constraints fuel time req death true
      else Ok (None, req)
  end.

(** A new entry at the end, or the old one with a new comment and constraints. *)
Definition store_identity (a : agent) (version : Z) (k : Key) (comment : list Z) (death : Z) (confirm : bool) : outcome agent :=
  tab ← idtab_lookup a version;
  i ← lookup_identity a k version;
  Ok (set_idtab a version
    (match i with
     | None => mkIdtab (nentries tab + 1) (idlist tab ++ [mkIdentity k comment death confirm])
     | Some i => mkIdtab (nentries tab)
         (alter (λ id, id <| id_comment := comment |> <| id_death := death |> <| id_confirm := confirm |>) i (idlist tab))
     end)).

Definition process_add_identity (time : Z) (a : agent) (e : SocketEntry) (version : Z) : outcome (agent * SocketEntry) :=
  let fail req := e ← put_status (e <| s_request := req |>) false; Ok (a, e) in
  _ ← idtab_lookup a version;
  '(k, req) ← get_private version (s_request e);
  match k with
  | None => fail req
  | Some k =>
      blind ← blinding_ok k;
      if negb blind then fail req
      else
        '(comment, req) ← buffer_get_string req;
        '(c, req) ← get_constraints (length (contents req)) time req 0 false;
        match c with
        | None => fail req
        | Some (death, confirm) =>
            let death := if negb (lifetime a =? 0) && (death =? 0) then u32 (time + lifetime a) else death in
            a' ← store_identity a version k (cstr comment) death confirm;
            e ← put_status (e <| s_request := req |>) true;
            Ok (a', e)
        end
  end.

(** ** Locking *)

Definition process_lock_agent (a : agent) (e : SocketEntry) (lock : bool) : outcome (agent * SocketEntry) :=
  '(passwd, req) ← buffer_get_string (s_request e);
  let passwd := cstr passwd in
  let e := e <| s_request := req |> in
  right ← (if locked a && negb lock then p ← deref (lock_passwd a); Ok (strcmp_is passwd p) else Ok false);
  if right : bool then e ← put_status e true; Ok (a <| locked := false |> <| lock_passwd := None |>, e)
  else if negb (locked a) && lock then e ← put_status e true; Ok (a <| locked := true |> <| lock_passwd := Some passwd |>, e)
  else e ← put_status e false; Ok (a, e).

Definition no_identities (e : SocketEntry) (type : Z) : outcome SocketEntry :=
  msg ← Items.puts buffer_init
    [Items.Char (if type =? SSH_AGENTC_REQUEST_RSA_IDENTITIES then SSH_AGENT_RSA_IDENTITIES_ANSWER else SSH2_AGENT_IDENTITIES_ANSWER);
     Items.Int 0];
  put_message e msg.

(** ** Messages *)

Definition dispatch_message (time : Z) (a : agent) (e : SocketEntry) (type : Z) : outcome (agent * SocketEntry) :=
  let same (m : outcome SocketEntry) := e ← m; Ok (a, e) in
  if locked a && negb (type =? SSH_AGENTC_UNLOCK) then
    let e := e <| s_request := buffer_clear (s_request e) |> in
    if (type =? SSH_AGENTC_REQUEST_RSA_IDENTITIES) || (type =? SSH2_AGENTC_REQUEST_IDENTITIES) then same (no_identities e type)
    else same (put_status e false)
  else if (type =? SSH_AGENTC_LOCK) || (type =? SSH_AGENTC_UNLOCK) then process_lock_agent a e (type =? SSH_AGENTC_LOCK)
  else if type =? SSH_AGENTC_RSA_CHALLENGE then same (process_authentication_challenge1 a e)
  else if type =? SSH_AGENTC_REQUEST_RSA_IDENTITIES then same (process_request_identities a e 1)
  else if (type =? SSH_AGENTC_ADD_RSA_IDENTITY) || (type =? SSH_AGENTC_ADD_RSA_ID_CONSTRAINED) then process_add_identity time a e 1
  else if type =? SSH_AGENTC_REMOVE_RSA_IDENTITY then process_remove_identity a e 1
  else if type =? SSH_AGENTC_REMOVE_ALL_RSA_IDENTITIES then process_remove_all_identities a e 1
  else if type =? SSH2_AGENTC_SIGN_REQUEST then same (process_sign_request2 a e)
  else if type =? SSH2_AGENTC_REQUEST_IDENTITIES then same (process_request_identities a e 2)
  else if (type =? SSH2_AGENTC_ADD_IDENTITY) || (type =? SSH2_AGENTC_ADD_ID_CONSTRAINED) then process_add_identity time a e 2
  else if type =? SSH2_AGENTC_REMOVE_IDENTITY then process_remove_identity a e 2
  else if type =? SSH2_AGENTC_REMOVE_ALL_IDENTITIES then process_remove_all_identities a e 2
  else same (put_status (e <| s_request := buffer_clear (s_request e) |>) false).

Definition process_message (time : Z) (a : agent) (e : SocketEntry) : outcome (agent * SocketEntry) :=
  if buffer_len (s_input e) <? 5 then Ok (a, e)
  else
    let msg_len := get_u32 (buffer_ptr (s_input e)) in
    if 256 * 1024 <? msg_len then Ok (a, close_socket e)
    else if buffer_len (s_input e) <? msg_len + 4 then Ok (a, e)
    else
      inp ← buffer_consume (s_input e) 4;
      req ← buffer_append (buffer_clear (s_request e)) (take (Z.to_nat msg_len) (buffer_ptr inp));
      inp ← buffer_consume inp msg_len;
      '(type, req) ← buffer_get_char req;
      dispatch_message time a (e <| s_input := inp |> <| s_request := req |>) type.

(** ** Sockets *)

Record server := mkServer { sv_agent : agent; sv_sockets : list SocketEntry; sv_max_fd : Z; sv_parent_alive_interval : Z }.
#[global] Instance eta_server : Eta server := λ s,
  {| sv_agent := sv_agent s; sv_sockets := sv_sockets s; sv_max_fd := sv_max_fd s; sv_parent_alive_interval := sv_parent_alive_interval s |}.

Definition is_unused (e : SocketEntry) : bool := match s_type e with AUTH_UNUSED => true | _ => false end.
(** The fields of the entries that [xrealloc] adds are not set, except the type. *)
Definition blank_socket : SocketEntry := mkSocket 0 AUTH_UNUSED buffer_init buffer_init buffer_init.
Fixpoint fill_unused (new : SocketEntry) (l : list SocketEntry) : option (list SocketEntry) :=
  match l with
  | [] => None
  | e :: l => if is_unused e then Some (new :: l) else match fill_unused new l with Some l => Some (e :: l) | None => None end
  end.
Definition new_socket (type : sock_type) (fd : Z) (sv : server) : server :=
  let new := mkSocket fd type buffer_init buffer_init buffer_init in
  let sv := if sv_max_fd sv <? fd then sv <| sv_max_fd := fd |> else sv in
  match fill_unused new (sv_sockets sv) with
  | Some l => sv <| sv_sockets := l |>
  | None => sv <| sv_sockets := sv_sockets sv ++ new :: replicate 9 blank_socket |>
  end.

(** The two sets of descriptors, the largest descriptor and the time limit
    ([None] is a null pointer). *)
Definition max_used_fd (l : list SocketEntry) : Z := foldl (λ n e, if is_unused e then n else Z.max n (s_fd e)) 0 l.
Definition prepare_select (time : Z) (sv : server) : (list Z * list Z * Z * option Z) * server :=
  let used := filter (λ e, is_unused e = false) (sv_sockets sv) in
  let rset := map s_fd used in
  let wset := map s_fd (filter (λ e, 0 < buffer_len (s_output e)) used) in
  let n := max_used_fd (sv_sockets sv) in
  let '(deadline, a) := reaper time (sv_agent sv) in
  let interval := sv_parent_alive_interval sv in
  let deadline := if interval =? 0 then deadline else if deadline =? 0 then interval else Z.min deadline interval in
  ((rset, wset, n, if deadline =? 0 then None else Some deadline), sv <| sv_agent := a |> <| sv_max_fd := n |>).

(** What [accept] and [getpeereid] give, what [write] and [read] do ([None] for an
    interrupted call), per entry. *)
Inductive accepted := accept_failed | peer_unknown | peer_is (fd euid : Z).
Record sock_io := mkIo { io_accept : accepted; io_write : option Z; io_read : option (list Z); io_readable : bool; io_writable : bool }.

(** [Ok (true, …)]: on to the reading part. *)
Definition write_output (io : sock_io) (e : SocketEntry) : outcome (bool * SocketEntry) :=
  if (0 <? buffer_len (s_output e)) && io_writable io then
    match io_write io with
    | None => Ok (false, e)
    | Some len =>
        if len <=? 0 then Ok (false, close_socket e)
        else o ← buffer_consume (s_output e) len; Ok (true, e <| s_output := o |>)
    end
  else Ok (true, e).
Definition serve_connection (time : Z) (io : sock_io) (a : agent) (e : SocketEntry) : outcome (agent * SocketEntry) :=
  '(go, e) ← write_output io e;
  if negb (go : bool) || negb (io_readable io) then Ok (a, e)
  else match io_read io with
  | None => Ok (a, e)
  | Some [] => Ok (a, close_socket e)
  | Some data =>
      inp ← buffer_append (s_input e) (take 1024 data);
      process_message time a (e <| s_input := inp |>)
  end.
Definition serve_socket (time uid : Z) (io : sock_io) (i : nat) (sv : server) : outcome server :=
  match sv_sockets sv !! i with
  | None => Fault
  | Some e =>
      match s_type e with
      | AUTH_UNUSED => Ok sv
      | AUTH_SOCKET =>
          if negb (io_readable io) then Ok sv
          else match io_accept io with
          | peer_is fd euid => Ok (if negb (euid =? 0) && negb (uid =? euid) then sv else new_socket AUTH_CONNECTION fd sv)
          | _ => Ok sv
          end
      | AUTH_CONNECTION =>
          '(a, e) ← serve_connection time io (sv_agent sv) e;
          Ok (sv <| sv_agent := a |> <| sv_sockets := <[i := e]> (sv_sockets sv) |>)
      end
  end.
(** The loop over the entries that were there at its start. *)
Fixpoint serve_sockets (time uid : Z) (ios : nat → sock_io) (i n : nat) (sv : server) : outcome server :=
  match n with
  | O => Ok sv
  | S n => sv ← serve_socket time uid (ios i) i sv; serve_sockets time uid ios (S i) n sv
  end.
Definition after_select (time uid : Z) (ios : nat → sock_io) (sv : server) : outcome server :=
  serve_sockets time uid ios 0 (length (sv_sockets sv)) sv.

(** A round of the main loop: the times before and after [select], what [select]
    returned (negative only when it was interrupted), whether the shell that
    started the agent is gone. *)
Record round := mkRound { rd_before : Z; rd_after : Z; rd_result : Z; rd_orphan : bool; rd_io : nat → sock_io }.
Definition agent_round (uid : Z) (r : round) (sv : server) : outcome server :=
  let sv := (prepare_select (rd_before r) sv).2 in
  if negb (sv_parent_alive_interval sv =? 0) && rd_orphan r then Exit 2
  else
    let sv := sv <| sv_agent := (reaper (rd_after r) (sv_agent sv)).2 |> in
    if 0 <? rd_result r then after_select (rd_after r) uid (rd_io r) sv else Ok sv.
Fixpoint agent_rounds (uid : Z) (rs : list round) (sv : server) : outcome server :=
  match rs with [] => Ok sv | r :: rs => sv ← agent_round uid r sv; agent_rounds uid rs sv end.

(** ** Clients ([authfd.c])

    [peer w]: the bytes that come back after [w] was written. *)

Definition agent_failed (x : Z) : bool := (x =? SSH_AGENT_FAILURE) || (x =? SSH_COM_AGENT2_FAILURE) || (x =? SSH2_AGENT_FAILURE).
Definition decode_reply (type : Z) : outcome bool :=
  if agent_failed type then Ok false
  else if type =? SSH_AGENT_SUCCESS then Ok true
  else Fatal "Bad response from authentication agent".

Fixpoint read_reply (fuel : nat) (input : list Z) (len : Z) (reply : Buffer) : outcome (option Buffer) :=
  if len <=? 0 then Ok (Some reply)
  else match fuel with
  | O => NoFuel
  | S fuel =>
      let l := Z.min len 1024 in
      if Z.of_nat (length input) <? l then Ok None
      else reply ← buffer_append reply (take (Z.to_nat l) input); read_reply fuel (drop (Z.to_nat l) input) (len - l) reply
  end.
(** [None] is a return of 0. *)
Definition ssh_request_reply (peer : list Z → list Z) (request : Buffer) : outcome (option Buffer) :=
  let input := peer (put_u32 (buffer_len request) ++ contents request) in
  if Z.of_nat (length input) <? 4 then Ok None
  else
    let len := get_u32 (take 4 input) in
    if 256 * 1024 <? len then Fatal "Authentication response too long"
    else read_reply (Z.to_nat len) (drop 4 input) len (buffer_clear request).

Definition reply_status (peer : list Z → list Z) (msg : Buffer) : outcome bool :=
  r ← ssh_request_reply peer msg;
  match r with None => Ok false | Some r => '(type, _) ← buffer_get_char r; decode_reply type end.

Definition ssh_lock_agent (peer : list Z → list Z) (lock : bool) (password : list Z) : outcome bool :=
  msg ← Items.puts buffer_init [Items.Char (if lock then SSH_AGENTC_LOCK else SSH_AGENTC_UNLOCK); Items.CString password];
  reply_status peer msg.

Record AuthenticationConnection := mkConn { ac_identities : Buffer; ac_howmany : Z }.
Definition ssh_get_num_identities (peer : list Z → list Z) (version : Z) (c : AuthenticationConnection) :
    outcome (Z * AuthenticationConnection) :=
  if negb (version =? 1) && negb (version =? 2) then Ok (0, c)
  else
    let '(code1, code2) :=
      if version =? 1 then (SSH_AGENTC_REQUEST_RSA_IDENTITIES, SSH_AGENT_RSA_IDENTITIES_ANSWER)
      else (SSH2_AGENTC_REQUEST_IDENTITIES, SSH2_AGENT_IDENTITIES_ANSWER) in
    msg ← buffer_put_char buffer_init code1;
    r ← ssh_request_reply peer msg;
    match r with
    | None => Ok (0, c)
    | Some r =>
        '(type, r) ← buffer_get_char r;
        if agent_failed type then Ok (0, mkConn r (ac_howmany c))
        else if negb (type =? code2) then Fatal "Bad authentication reply message type"
        else
          '(n, r) ← buffer_get_int r;
          if 1024 <? n then Fatal "Too many identities in authentication reply" else Ok (n, mkConn r n)
    end.
Definition ssh_get_next_identity (version : Z) (c : AuthenticationConnection) :
    outcome (option (Key * list Z) * AuthenticationConnection) :=
  if ac_howmany c <=? 0 then Ok (None, c)
  else if version =? 1 then
    '(_, b) ← buffer_get_int (ac_identities c);
    '(e, b) ← buffer_get_bignum b;
    '(n, b) ← buffer_get_bignum b;
    '(comment, b) ← buffer_get_string b;
    Ok (Some (mkKey KEY_RSA1 0 None (Some (mkRsa e n None)) None None None, comment), mkConn b (ac_howmany c - 1))
  else if version =? 2 then
    '(blob, b) ← buffer_get_string (ac_identities c);
    '(comment, b) ← buffer_get_string b;
    k ← key_from_blob 0 blob;
    Ok (match k with Some k => Some (k, comment) | None => None end, mkConn b (ac_howmany c - 1))
  else Ok (None, c).
Definition ssh_get_first_identity (peer : list Z → list Z) (version : Z) (c : AuthenticationConnection) :
    outcome (option (Key * list Z) * AuthenticationConnection) :=
  '(n, c) ← ssh_get_num_identities peer version c;
  if 0 <? n then ssh_get_next_identity version c else Ok (None, c).

Definition ssh_decrypt_challenge (peer : list Z → list Z) (k : Key) (challenge : bn) (session_id : list Z) (response_type : Z) :
    outcome (option (list Z)) :=
  if negb (k_type k =? KEY_RSA1) then Ok None
  else if response_type =? 0 then Ok None
  else
    r ← deref (k_rsa k);
    b ← Items.puts buffer_init [Items.Char SSH_AGENTC_RSA_CHALLENGE; Items.Int (BN_num_bits (r_n r))];
    b ← buffer_put_bignum b (r_e r);
    b ← buffer_put_bignum b (r_n r);
    b ← buffer_put_bignum b challenge;
    b ← buffer_append b (take 16 session_id);
    b ← buffer_put_int b response_type;
    o ← ssh_request_reply peer b;
    match o with
    | None => Ok None
    | Some b =>
        '(type, b) ← buffer_get_char b;
        if agent_failed type then Ok None
        else if negb (type =? SSH_AGENT_RSA_RESPONSE) then Fatal "Bad authentication response"
        else '(response, _) ← buffer_get b 16; Ok (Some response)
    end.

(** [None] is a return of -1. *)
Definition ssh_agent_sign (datafellows : Z) (peer : list Z → list Z) (k : Key) (data : list Z) : outcome (option (list Z)) :=
  o ← key_to_blob k;
  match o with
  | None => Ok None
  | Some blob =>
      let flags := if has_bug datafellows SSH_BUG_SIGBLOB then SSH_AGENT_OLD_SIGNATURE else 0 in
      msg ← Items.puts buffer_init [Items.Char SSH2_AGENTC_SIGN_REQUEST; Items.String blob; Items.String data; Items.Int flags];
      r ← ssh_request_reply peer msg;
      match r with
      | None => Ok None
      | Some msg =>
          '(type, msg) ← buffer_get_char msg;
          if agent_failed type then Ok None
          else if negb (type =? SSH2_AGENT_SIGN_RESPONSE) then Fatal "Bad authentication response"
          else '(sig, _) ← buffer_get_string msg; Ok (Some sig)
      end
  end.

(** The private part is given to [buffer_put_bignum2] as it is. *)
Definition rsa_parts (k : Key) : outcome (rsa_key * (bn * bn * bn * bn)) :=
  r ← deref (k_rsa k); p ← deref (r_private r); Ok (r, p).
Definition put_bignums (b : Buffer) (l : list bn) : outcome Buffer := foldl (λ m v, b ← m; buffer_put_bignum2 b v) (Ok b) l.
Definition put_bignums1 (b : Buffer) (l : list bn) : outcome Buffer := foldl (λ m v, b ← m; buffer_put_bignum b v) (Ok b) l.

Definition ssh_encode_identity_rsa1 (b : Buffer) (k : Key) (comment : list Z) : outcome Buffer :=
  '(r, (d, iqmp, p, q)) ← rsa_parts k;
  b ← buffer_put_int b (BN_num_bits (r_n r));
  b ← put_bignums1 b [r_n r; r_e r; d; iqmp; q; p];
  buffer_put_cstring b (Some comment).

Definition put_certblob (b : Buffer) (k : Key) : outcome Buffer :=
  match k_cert k with
  | None | Some (mkCert [] _ _ _ _ _ _ _ _ _) => Fatal "ssh_encode_identity_ssh2: no cert/certblob"
  | Some c => buffer_put_string b (c_certblob c)
  end.
Definition ssh_encode_identity_ssh2 (b : Buffer) (k : Key) (comment : list Z) : outcome Buffer :=
  b ← buffer_put_cstring b (Some (key_ssh_name k));
  let t := k_type k in
  b ← (if t =? KEY_RSA then
         '(r, (d, iqmp, p, q)) ← rsa_parts k; put_bignums b [r_n r; r_e r; d; iqmp; p; q]
       else if (t =? KEY_RSA_CERT_V00) || (t =? KEY_RSA_CERT) then
         b ← put_certblob b k; '(r, (d, iqmp, p, q)) ← rsa_parts k; put_bignums b [d; iqmp; p; q]
       else if t =? KEY_DSA then
         d ← deref (k_dsa k); x ← deref (d_priv_key d); put_bignums b [d_p d; d_q d; d_g d; d_pub_key d; x]
       else if (t =? KEY_DSA_CERT_V00) || (t =? KEY_DSA_CERT) then
         b ← put_certblob b k; d ← deref (k_dsa k); x ← deref (d_priv_key d); put_bignums b [x]
       else if t =? KEY_ECDSA then
         b ← buffer_put_cstring b (key_curve_nid_to_name (k_nid k));
         e ← deref (k_ecdsa k);
         b ← buffer_put_ecpoint b (ec_grp e) (ec_pub e);
         x ← deref (ec_private e); put_bignums b [x]
       else if t =? KEY_ECDSA_CERT then
         b ← put_certblob b k; e ← deref (k_ecdsa k); x ← deref (ec_private e); put_bignums b [x]
       else Ok b);
  buffer_put_cstring b (Some comment).

Definition put_constraints (b : Buffer) (life : Z) (confirm : bool) : outcome Buffer :=
  Items.puts b
    ((if life =? 0 then [] else [Items.Char SSH_AGENT_CONSTRAIN_LIFETIME; Items.Int life]) ++
     (if confirm then [Items.Char SSH_AGENT_CONSTRAIN_CONFIRM] else [])).
Definition ssh_add_identity_constrained (peer : list Z → list Z) (k : Key) (comment : list Z) (life : Z) (confirm : bool) : outcome bool :=
  let constrained := negb (life =? 0) || confirm in
  o ← (if k_type k =? KEY_RSA1 then
         b ← buffer_put_char buffer_init (if constrained then SSH_AGENTC_ADD_RSA_ID_CONSTRAINED else SSH_AGENTC_ADD_RSA_IDENTITY);
         b ← ssh_encode_identity_rsa1 b k comment; Ok (Some b)
       else if is_rsa_type (k_type k) || is_dsa_type (k_type k) || is_ecdsa_type (k_type k) then
         b ← buffer_put_char buffer_init (if constrained then SSH2_AGENTC_ADD_ID_CONSTRAINED else SSH2_AGENTC_ADD_IDENTITY);
         b ← ssh_encode_identity_ssh2 b k comment; Ok (Some b)
       else Ok None);
  match o with
  | None => Ok false
  | Some b => b ← (if constrained then put_constraints b life confirm else Ok b); reply_status peer b
  end.

Definition ssh_remove_identity (peer : list Z → list Z) (k : Key) : outcome bool :=
  let t := key_type_plain (k_type k) in
  if k_type k =? KEY_RSA1 then
    r ← deref (k_rsa k);
    b ← Items.puts buffer_init [Items.Char SSH_AGENTC_REMOVE_RSA_IDENTITY; Items.Int (BN_num_bits (r_n r))];
    b ← put_bignums1 b [r_e r; r_n r];
    reply_status peer b
  else if (t =? KEY_DSA) || (t =? KEY_RSA) || (t =? KEY_ECDSA) then
    o ← key_to_blob k; blob ← deref o;
    b ← Items.puts buffer_init [Items.Char SSH2_AGENTC_REMOVE_IDENTITY; Items.String blob];
    reply_status peer b
  else Ok false.
Definition ssh_remove_all_identities (peer : list Z → list Z) (version : Z) : outcome bool :=
  b ← buffer_put_char buffer_init (if version =? 1 then SSH_AGENTC_REMOVE_ALL_RSA_IDENTITIES else SSH2_AGENTC_REMOVE_ALL_IDENTITIES);
  reply_status peer b.
End Agent.
