(* ===== verification/AgentProofs.v ===== *)
(** * The authentication agent: theorems

    The tables of identities stay sound under any sequence of requests; a locked
    agent neither signs nor shows its keys. *)

From S2P Require Import Prelude ByteOrder Buffer Stdio CipherMac Packet Match Kex BufBn Wp Base64 Keys KeyText KeysProofs KeyDemo KeySign KeyCert.
From S2P Require Import KeyParse Agent.

Section AgentProofs.
Context `{AgentEnv}.

(** ** Tables *)

(** No two entries have the same key: a later one was compared with every earlier
    one when it was added. *)
Definition distinct (l : list Identity) : Prop :=
  ∀ i j x y, (i < j)%nat → l !! i = Some x → l !! j = Some y → key_equal (id_key y) (id_key x) = Ok false.
Record tab_ok (version : Z) (t : Idtab) : Prop := {
  to_count : nentries t = Z.of_nat (length (idlist t));
  to_distinct : distinct (idlist t);
  to_types : Forall (λ id, (k_type (id_key id) =? KEY_RSA1) = (version =? 1)) (idlist t)
}.
Record agent_ok (a : agent) : Prop := {
  ao_one : tab_ok 1 (idtable1 a);
  ao_two : tab_ok 2 (idtable2 a);
  ao_lock : locked a = true ↔ is_Some (lock_passwd a)
}.

Lemma distinct_sublist l k : k `sublist_of` l → distinct l → distinct k.
Proof.
  induction 1 as [|x l k Hs IH|x l k Hs IH]; intros Hd.
  - done.
  - assert (distinct k) as Hk by (intros i j u v Hij Hu Hv; by apply (Hd (S i) (S j)); [lia|..]). specialize (IH Hk).
    intros [|i] [|j] u v Hij Hu Hv; try lia; cbn in *; [|by apply (IH i j); [lia|..]]. injection Hu as <-.
    assert (v ∈ k) as [j' Hj']%list_elem_of_lookup. { eapply elem_of_sublist; [|done]. by eapply list_elem_of_lookup_2. }
    by apply (Hd 0%nat (S j')); [lia|..].
  - apply IH. intros i j u v Hij Hu Hv. by apply (Hd (S i) (S j)); [lia|..].
Qed.
Lemma distinct_snoc l x : distinct l → Forall (λ y, key_equal (id_key x) (id_key y) = Ok false) l → distinct (l ++ [x]).
Proof.
  intros Hd Hx i j u v Hij Hu Hv. apply lookup_app_Some in Hv as [Hv|[Hl Hv]].
  - rewrite lookup_app_l in Hu by (apply lookup_lt_Some in Hv; lia). by apply (Hd i j).
  - apply list_lookup_singleton_Some in Hv as [Hj <-]. rewrite lookup_app_l in Hu by lia.
    by apply (Forall_lookup_1 _ _ _ _ Hx Hu).
Qed.
Lemma distinct_alter l i f : (∀ x, id_key (f x) = id_key x) → distinct l → distinct (alter f i l).
Proof.
  intros Hf Hd. assert (∀ j x, alter f i l !! j = Some x → ∃ y, l !! j = Some y ∧ id_key x = id_key y) as Hk.
  { intros j x. destruct (decide (i = j)) as [->|Hne].
    - rewrite list_lookup_alter_eq. destruct (l !! j) as [y|] eqn:E; [|done]. intros [= <-]. eauto.
    - rewrite list_lookup_alter_ne by done. eauto. }
  intros p q x y Hpq (x' & Hx & ->)%Hk (y' & Hy & ->)%Hk. by apply (Hd p q).
Qed.

Lemma find_identity_None k l : find_identity k l = Ok None → Forall (λ y, key_equal k (id_key y) = Ok false) l.
Proof.
  induction l as [|id l IH]; intros E; [constructor|]. cbn [find_identity] in E. apply bind_Ok in E as ([|] & Eq & E); [done|].
  apply bind_Ok in E as (r & Er & [= E]). destruct r; [done|]. constructor; [done|by apply IH].
Qed.
Lemma find_identity_Some k l i : find_identity k l = Ok (Some i) →
  ∃ id, l !! i = Some id ∧ key_equal k (id_key id) = Ok true.
Proof.
  revert i. induction l as [|id l IH]; intros i E; [done|]. cbn [find_identity] in E. apply bind_Ok in E as ([|] & Eq & E).
  - injection E as <-. by exists id.
  - apply bind_Ok in E as (r & Er & [= E]). destruct r as [j|]; [|done]. injection E as <-. by apply IH.
Qed.

(** ** Types of keys that come from outside *)

Lemma parse_bind_inv {A B} (m : parse A) (f : A → parse B) b r :
  (m ≫= f) b = Ok (Some r) → ∃ a b', m b = Ok (Some (a, b')) ∧ f a b' = Ok (Some r).
Proof.
  unfold mbind, parse_bind. intros E. apply bind_Ok in E as ([[a b']|] & E1 & E2); [|done]. eauto.
Qed.
Lemma blob_type df blob k : key_from_blob df blob = Ok (Some k) → (k_type k =? KEY_RSA1) = false.
Proof.
  unfold key_from_blob. cbn [from_blob]. intros E. apply bind_Ok in E as (b & _ & E). apply bind_Ok in E as ([[k' b']|] & E & [= <-]).
  assert (∀ c b, finish_key df (from_blob df (length blob)) blob c b = Ok (Some (k', b')) → k_type k' = k_type c) as Hfin.
  { intros c b0. unfold finish_key. destruct (key_is_cert c); [|by intros [= <- _]].
    intros (? & ? & _ & [= <- _])%parse_bind_inv. done. }
  apply parse_bind_inv in E as (ktype & b1 & _ & E). cbv zeta in E. destruct (is_rsa_type _) eqn:Er; [|destruct (is_dsa_type _) eqn:Ed;
    [|destruct (is_ecdsa_type _) eqn:Ee; [|destruct (_ =? KEY_UNSPEC) eqn:Eu; [|done]]]].
  4: { rewrite (Hfin _ _ E). cbn [k_type]. apply Z.eqb_eq in Eu. by rewrite Eu. }
  all: apply parse_bind_inv in E as (? & ? & _ & E); apply parse_bind_inv in E as (? & ? & _ & E); rewrite (Hfin _ _ E); cbn [k_type].
  all: unfold is_rsa_type, is_dsa_type, is_ecdsa_type in *; rewrite ?orb_true_iff, ?Z.eqb_eq in *;
    repeat match goal with Hor : _ ∨ _ |- _ => destruct Hor end; match goal with Ht : key_type_from_name _ = _ |- _ => by rewrite Ht end.
Qed.

(** ** The operations keep the tables sound *)

Definition is_version (v : Z) : Prop := v = 1 ∨ v = 2.
Lemma tab_of a v : is_version v → agent_ok a → ∃ t, idtab_lookup a v = Ok t ∧ tab_ok v t.
Proof. intros [->| ->] []; cbn; eauto. Qed.
Lemma set_ok a v t : is_version v → agent_ok a → tab_ok v t → agent_ok (set_idtab a v t).
Proof. intros [->| ->] [] ?; by split. Qed.

Lemma tab_ok_nil v : tab_ok v (mkIdtab 0 []).
Proof. split; [done|by intros ? ? ? ? ? ?|constructor]. Qed.
Lemma tab_ok_remove v t i : (i < length (idlist t))%nat → tab_ok v t → tab_ok v (remove_at i t).
Proof.
  intros Hi [Hn Hd Ht]. split; cbn [remove_at nentries idlist].
  - rewrite Hn, length_delete by (apply lookup_lt_is_Some; lia). lia.
  - eapply distinct_sublist; [apply sublist_delete|done].
  - by apply Forall_delete.
Qed.
Lemma tab_ok_snoc v t id : tab_ok v t → Forall (λ y, key_equal (id_key id) (id_key y) = Ok false) (idlist t) →
  (k_type (id_key id) =? KEY_RSA1) = (v =? 1) → tab_ok v (mkIdtab (nentries t + 1) (idlist t ++ [id])).
Proof.
  intros [Hn Hd Ht] Hk Hty. split; cbn [nentries idlist].
  - rewrite Hn, length_app. simpl. lia.
  - by apply distinct_snoc.
  - apply Forall_app. split; [done|by constructor].
Qed.
Lemma tab_ok_alter v t i f : (∀ x, id_key (f x) = id_key x) → tab_ok v t → tab_ok v (mkIdtab (nentries t) (alter f i (idlist t))).
Proof.
  intros Hf [Hn Hd Ht]. split; cbn [nentries idlist].
  - by rewrite length_alter.
  - by apply distinct_alter.
  - apply Forall_alter; [done|]. intros x _ Hx. by rewrite Hf.
Qed.
(** What the reaper leaves is a part of the list, and it counts what it takes. *)
Lemma reap_spec now ids : ∀ n d l n' d', reap now ids n d = (l, n', d') →
  l = filter (λ id, id_death id = 0 ∨ now < id_death id) ids ∧ n' = n - (Z.of_nat (length ids) - Z.of_nat (length l)).
Proof.
  induction ids as [|id ids IH]; intros n d l n' d' E; cbn [reap] in E.
  { injection E as <- <- _. split; [done|]. simpl. lia. }
  rewrite filter_cons. destruct (Z.eqb_spec (id_death id) 0).
  - destruct (reap now ids n d) as [[l1 n1] d1] eqn:E1. injection E as <- <- _. apply IH in E1 as [-> ->].
    rewrite decide_True by auto. split; [done|]. cbn [length]. lia.
  - destruct (Z.leb_spec (id_death id) now).
    + apply IH in E as [-> ->]. rewrite decide_False by lia. split; [done|]. cbn [length]. lia.
    + destruct (reap now ids n _) as [[l1 n1] d1] eqn:E1. injection E as <- <- _. apply IH in E1 as [-> ->].
      rewrite decide_True by auto. split; [done|]. cbn [length]. lia.
Qed.
Lemma tab_ok_filter v t now l n d d' : tab_ok v t → reap now (idlist t) (nentries t) d = (l, n, d') → tab_ok v (mkIdtab n l).
Proof.
  intros [Hn Hd Ht] [-> ->]%reap_spec. split; cbn [nentries idlist].
  - lia.
  - eapply distinct_sublist; [apply sublist_filter|done].
  - rewrite Forall_forall in *. intros x [_ Hx]%list_elem_of_filter. by apply Ht.
Qed.
Lemma reaper_ok time a : agent_ok a → agent_ok (reaper time a).2.
Proof.
  intros [H1' H2' Hl]. unfold reaper. destruct (reap _ (idlist (idtable1 a)) _ _) as [[l1 n1] d1] eqn:E1.
  destruct (reap _ (idlist (idtable2 a)) _ _) as [[l2 n2] d2] eqn:E2. split; cbn.
  - by eapply tab_ok_filter.
  - by eapply tab_ok_filter.
  - done.
Qed.

Lemma store_ok a v k comment death confirm a' : is_version v → agent_ok a → (k_type k =? KEY_RSA1) = (v =? 1) →
  store_identity a v k comment death confirm = Ok a' → agent_ok a'.
Proof.
  intros Hv Ha Hk E. destruct (tab_of a v Hv Ha) as (t & Et & Ht). unfold store_identity, lookup_identity in E. rewrite Et in E.
  cbn [mbind outcome_bind] in E. apply bind_Ok in E as (i & Ei & [= <-]). apply set_ok; [done|done|]. destruct i as [i|].
  - by apply tab_ok_alter.
  - apply tab_ok_snoc; [done|by apply find_identity_None|done].
Qed.

Lemma get_private_type v req k req' : is_version v → get_private v req = Ok (Some k, req') → (k_type k =? KEY_RSA1) = (v =? 1).
Proof.
  intros [->| ->] E; unfold get_private in E; cbn [Z.eqb Pos.eqb] in E.
  - apply bind_Ok in E as ([k' r'] & E & [= <- <-]). unfold get_rsa1_private in E.
    do 7 (apply bind_Ok in E as ([? ?] & _ & E)). by apply bind_Ok in E as (? & _ & [= <- _]).
  - apply bind_Ok in E as ([tn r] & _ & E). cbv zeta in E.
    assert (∀ r c r', get_cert r = Ok (c, r') → (k_type c =? KEY_RSA1) = false) as Hcert.
    { intros r0 c r'. unfold get_cert. intros E0. apply bind_Ok in E0 as ([blob r1] & _ & E0). apply bind_Ok in E0 as ([c'|] & E1 & E0); [|done].
      injection E0 as -> ->. by eapply blob_type. }
    destruct (_ =? KEY_DSA); [|destruct (_ || _); [|destruct (_ =? KEY_ECDSA); [|destruct (_ =? KEY_ECDSA_CERT);
      [|destruct (_ =? KEY_RSA); [|destruct (_ || _); [|done]]]]]];
    apply bind_Ok in E as ([k' r'] & E & [= <- <-]).
    + unfold get_dsa_private in E. do 5 (apply bind_Ok in E as ([? ?] & _ & E)). by injection E as <- _.
    + unfold get_dsa_cert in E. apply bind_Ok in E as ([c ?] & Ec & E). apply bind_Ok in E as (? & _ & E).
      apply bind_Ok in E as ([? ?] & _ & [= <- _]). by apply Hcert in Ec.
    + unfold get_ecdsa_private in E. apply bind_Ok in E as ([? ?] & _ & E). destruct (negb _); [done|].
      destruct (match _ with Some n => EC_KEY_new_by_curve_name n | None => None end); [|done].
      do 2 (apply bind_Ok in E as ([? ?] & _ & E)). apply bind_Ok in E as ([|] & _ & E); [|done].
      apply bind_Ok in E as ([|] & _ & E); [|done]. by injection E as <- _.
    + unfold get_ecdsa_cert in E. apply bind_Ok in E as ([c ?] & Ec & E). apply bind_Ok in E as ([? ?] & _ & E). apply bind_Ok in E as (? & _ & E).
      apply bind_Ok in E as ([|] & _ & E); [|done]. apply bind_Ok in E as ([|] & _ & E); [|done]. injection E as <- _. by apply Hcert in Ec.
    + unfold get_rsa_private in E. do 6 (apply bind_Ok in E as ([? ?] & _ & E)). by apply bind_Ok in E as (? & _ & [= <- _]).
    + unfold get_rsa_cert in E. apply bind_Ok in E as ([c ?] & Ec & E). apply bind_Ok in E as (? & _ & E).
      do 4 (apply bind_Ok in E as ([? ?] & _ & E)). injection E as <- _. by apply Hcert in Ec.
Qed.
Lemma add_ok time a e v a' e' : is_version v → agent_ok a → process_add_identity time a e v = Ok (a', e') → agent_ok a'.
Proof.
  intros Hv Ha E. unfold process_add_identity in E. cbv zeta in E. apply bind_Ok in E as (t & _ & E).
  apply bind_Ok in E as ([k req] & Ek & E). destruct k as [k|]; [|by apply bind_Ok in E as (? & _ & [= <- _])].
  apply bind_Ok in E as ([|] & _ & E); cbn [negb] in E; [|by apply bind_Ok in E as (? & _ & [= <- _])].
  apply bind_Ok in E as ([c r1] & _ & E). apply bind_Ok in E as ([[[death confirm]|] r2] & _ & E);
    [|by apply bind_Ok in E as (? & _ & [= <- _])].
  apply bind_Ok in E as (a1 & Es & E). apply bind_Ok in E as (e1 & _ & [= <- _]).
  eapply store_ok; [done|done|by eapply get_private_type|done].
Qed.
Lemma remove_ok a e v a' e' : is_version v → agent_ok a → process_remove_identity a e v = Ok (a', e') → agent_ok a'.
Proof.
  intros Hv Ha E. destruct (tab_of a v Hv Ha) as (t & Et & Ht). unfold process_remove_identity in E. apply bind_Ok in E as ([k req] & _ & E).
  cbv zeta in E. destruct k as [k|]; [|by apply bind_Ok in E as (? & _ & [= <- _])]. unfold lookup_identity in E. rewrite Et in E.
  cbn [mbind outcome_bind] in E. apply bind_Ok in E as ([i|] & Ei & E); [|by apply bind_Ok in E as (? & _ & [= <- _])].
  destruct (nentries t <? 1); [done|]. apply bind_Ok in E as (e1 & _ & [= <- _]). apply set_ok; [done|done|].
  apply tab_ok_remove; [|done]. destruct (find_identity_Some _ _ _ Ei) as (id & Hi & _). by eapply lookup_lt_Some.
Qed.
Lemma lock_ok a e lock a' e' : agent_ok a → process_lock_agent a e lock = Ok (a', e') → agent_ok a'.
Proof.
  intros [? ? Hl] E. unfold process_lock_agent in E. apply bind_Ok in E as ([p r] & _ & E). cbv zeta in E.
  apply bind_Ok in E as ([|] & Er & E).
  - apply bind_Ok in E as (? & _ & [= <- _]). split; [done..|]. cbn. split; [done|by intros []].
  - destruct (negb (locked a) && lock); by apply bind_Ok in E as (? & _ & [= <- _]).
Qed.

Lemma dispatch_ok time a e type a' e' : agent_ok a → dispatch_message time a e type = Ok (a', e') → agent_ok a'.
Proof.
  intros Ha E. unfold dispatch_message in E. cbv zeta in E.
  assert (∀ m : outcome SocketEntry, (e ← m; Ok (a, e)) = Ok (a', e') → agent_ok a') as Hsame.
  { intros m Em. by apply bind_Ok in Em as (? & _ & [= <- _]). }
  repeat match type of E with
         | (if ?c then _ else _) = _ => destruct c
         end; try by apply Hsame in E.
  all: first [ by eapply lock_ok | by eapply add_ok; [|done|exact E]; (by left) || by right
             | by eapply remove_ok; [|done|exact E]; (by left) || by right | idtac ].
  all: unfold process_remove_all_identities in E; apply bind_Ok in E as (? & _ & E); apply bind_Ok in E as (? & _ & [= <- _]);
    apply set_ok; [(by left) || by right|done|apply tab_ok_nil].
Qed.
Lemma message_ok time a e a' e' : agent_ok a → process_message time a e = Ok (a', e') → agent_ok a'.
Proof.
  intros Ha E. unfold process_message in E. cbv zeta in E. destruct (_ <? 5); [by injection E as <- _|].
  destruct (_ <? get_u32 _); [by injection E as <- _|]. destruct (_ <? _ + 4); [by injection E as <- _|].
  apply bind_Ok in E as (? & _ & E). apply bind_Ok in E as (? & _ & E). apply bind_Ok in E as (? & _ & E).
  apply bind_Ok in E as ([? ?] & _ & E). by eapply dispatch_ok.
Qed.

(** ** Rounds *)

Lemma new_socket_agent type fd sv : sv_agent (new_socket type fd sv) = sv_agent sv.
Proof. unfold new_socket. destruct (_ <? fd), (fill_unused _ _); done. Qed.
Lemma serve_ok time uid io i sv sv' : agent_ok (sv_agent sv) → serve_socket time uid io i sv = Ok sv' → agent_ok (sv_agent sv').
Proof.
  intros Ha E. unfold serve_socket in E. destruct (sv_sockets sv !! i) as [e|]; [|done]. destruct (s_type e).
  - by injection E as <-.
  - destruct (negb _); [by injection E as <-|]. destruct (io_accept io); injection E as <-; try done.
    destruct (negb _ && negb _); [done|]. by rewrite new_socket_agent.
  - apply bind_Ok in E as ([a' e'] & E & [= <-]). cbn. unfold serve_connection in E. apply bind_Ok in E as ([go e1] & _ & E).
    destruct (negb go || _); [by injection E as <- _|]. destruct (io_read io) as [[|c data]|]; [by injection E as <- _| |by injection E as <- _].
    apply bind_Ok in E as (inp & _ & E). by eapply message_ok.
Qed.
Lemma serve_all_ok time uid ios n : ∀ i sv sv', agent_ok (sv_agent sv) → serve_sockets time uid ios i n sv = Ok sv' → agent_ok (sv_agent sv').
Proof.
  induction n as [|n IH]; intros i sv sv' Ha E; cbn [serve_sockets] in E; [by injection E as <-|].
  apply bind_Ok in E as (sv1 & E1 & E). eapply IH; [|exact E]. by eapply serve_ok.
Qed.
Lemma round_ok uid r sv sv' : agent_ok (sv_agent sv) → agent_round uid r sv = Ok sv' → agent_ok (sv_agent sv').
Proof.
  intros Ha E. unfold agent_round in E. cbv zeta in E. destruct (negb _ && _); [done|].
  assert (agent_ok (sv_agent (prepare_select (rd_before r) sv).2)) as Hp.
  { unfold prepare_select. pose proof (reaper_ok (rd_before r) _ Ha) as Hr. by destruct (reaper (rd_before r) (sv_agent sv)). }
  apply (reaper_ok (rd_after r)) in Hp. destruct (0 <? rd_result r); [|by injection E as <-].
  eapply serve_all_ok; [|exact E]. exact Hp.
Qed.

(** An agent without keys, as [main] starts it. *)
Definition fresh_agent (life : Z) : agent := mkAgent (mkIdtab 0 []) (mkIdtab 0 []) false None life.

(** C21: Whatever clients send, in whatever pieces, and whenever keys expire, the
    counters of both tables are the numbers of their entries, no key is held twice,
    the keys of protocol 1 are in the first table and all others in the second, and
    the agent has a password exactly while it is locked. *)
Theorem agent_tables_sound uid rs life interval sockets sv :
  agent_rounds uid rs (mkServer (fresh_agent life) sockets 0 interval) = Ok sv → agent_ok (sv_agent sv).
Proof.
  assert (agent_ok (sv_agent (mkServer (fresh_agent life) sockets 0 interval))) as Ha.
  { split; [apply tab_ok_nil|apply tab_ok_nil|]. cbn. split; [done|by intros []]. }
  revert Ha. generalize (mkServer (fresh_agent life) sockets 0 interval). intros s0 Ha. revert s0 Ha.
  induction rs as [|r rs IH]; intros s0 Ha E; cbn [agent_rounds] in E; [by injection E as <-|].
  apply bind_Ok in E as (s1 & E1 & E). eapply IH; [|exact E]. by eapply round_ok.
Qed.

(** ** Answers *)

Lemma appended_inv b d b' : wf b → buffer_append b d = Ok b' → wf b' ∧ contents b' = contents b ++ d.
Proof. intros Hb E. pose proof (wpo_append b d Hb) as Hw. by rewrite E in Hw. Qed.
Lemma put_status_inv e ok e' : wf (s_output e) → put_status e ok = Ok e' →
  e' = e <| s_output := s_output e' |> ∧ wf (s_output e') ∧
  contents (s_output e') = contents (s_output e) ++ [0; 0; 0; 1; if ok then SSH_AGENT_SUCCESS else SSH_AGENT_FAILURE].
Proof.
  intros Hw E. unfold put_status in E. apply bind_Ok in E as (o1 & E1 & E). apply bind_Ok in E as (o2 & E2 & [= <-]).
  apply appended_inv in E1 as [Hw1 Hc1]; [|done]. apply appended_inv in E2 as [Hw2 Hc2]; [|done].
  change (s_output (e <| s_output := o2 |>)) with o2. split_and!; [by destruct e|done|].
  rewrite Hc2, Hc1, <- app_assoc. by destruct ok.
Qed.
Lemma put_message_inv e msg e' : wf (s_output e) → wf msg → put_message e msg = Ok e' →
  e' = e <| s_output := s_output e' |> ∧ wf (s_output e') ∧
  contents (s_output e') = contents (s_output e) ++ put_u32 (Z.of_nat (length (contents msg))) ++ contents msg.
Proof.
  intros Hw Hm E. unfold put_message in E. apply bind_Ok in E as (o1 & E1 & E). apply bind_Ok in E as (o2 & E2 & [= <-]).
  apply appended_inv in E1 as [Hw1 Hc1]; [|done]. apply appended_inv in E2 as [Hw2 Hc2]; [|done].
  change (s_output (e <| s_output := o2 |>)) with o2. split_and!; [by destruct e|done|].
  by rewrite Hc2, Hc1, <- app_assoc, (buffer_len_contents _ Hm).
Qed.

(** ** A locked agent *)

Definition failure_answer : list Z := [0; 0; 0; 1; SSH_AGENT_FAILURE].
Definition empty_answer (type : Z) : list Z :=
  [0; 0; 0; 5; if type =? SSH_AGENTC_REQUEST_RSA_IDENTITIES then SSH_AGENT_RSA_IDENTITIES_ANSWER else SSH2_AGENT_IDENTITIES_ANSWER; 0; 0; 0; 0].

Lemma no_identities_inv e type e' : wf (s_output e) → no_identities e type = Ok e' →
  e' = e <| s_output := s_output e' |> ∧ wf (s_output e') ∧ contents (s_output e') = contents (s_output e) ++ empty_answer type.
Proof.
  intros Hw E. unfold no_identities in E. apply bind_Ok in E as (msg & Em & E).
  apply Items.puts_inv in Em as [Hm Hc]; [|apply buffer_init_wf|].
  2:{ repeat constructor; cbn; unfold is_u8, is_u32; try lia. all: by destruct (type =? _). }
  apply put_message_inv in E as (? & ? & Ho); [|done..]. split_and!; [done..|]. rewrite Ho, Hc, (proj2 buffer_init_wf). done.
Qed.

(** The contents are a front of what the pointer designates. *)
Lemma ptr_split b : ∃ l, buffer_ptr b = contents b ++ l.
Proof. unfold contents. eexists. symmetry. apply take_drop. Qed.
Lemma ptr_u32 b : bwf b → (4 ≤ length (contents b))%nat →
  contents b = put_u32 (get_u32 (buffer_ptr b)) ++ drop 4 (contents b) ∧ is_u32 (get_u32 (buffer_ptr b)).
Proof.
  intros [_ Hb] Hl. assert (length (take 4 (contents b)) = 4%nat) as Ht by (rewrite length_take; lia).
  assert (get_u32 (buffer_ptr b) = get_u32 (take 4 (contents b))) as ->.
  { destruct (ptr_split b) as [l ->]. rewrite <- (take_drop 4 (contents b)) at 1. rewrite <- app_assoc. by apply get_u32_app. }
  split; [|apply get_u32_range; [by apply Forall_take|done]].
  rewrite put_get_u32_bytes by (try apply Forall_take; done). symmetry. apply take_drop.
Qed.
Lemma ptr_take b n : (n ≤ length (contents b))%nat → take n (buffer_ptr b) = take n (contents b).
Proof. intros Hn. destruct (ptr_split b) as [l ->]. by rewrite take_app_le. Qed.

(** What a step of [process_message] is: nothing yet, an end of the connection for
    an overlong message, or the handling of the first message of the input. *)
Lemma message_inv time a e a' e' : bwf (s_input e) → wf (s_request e) → process_message time a e = Ok (a', e') →
  (a' = a ∧ e' = e) ∨ (a' = a ∧ e' = close_socket e) ∨
  ∃ type body rest inp req,
    contents (s_input e) = put_u32 (Z.of_nat (S (length body))) ++ (type :: body) ++ rest ∧
    bwf inp ∧ contents inp = rest ∧ bwf req ∧ contents req = body ∧
    dispatch_message time a (e <| s_input := inp |> <| s_request := req |>) type = Ok (a', e').
Proof.
  intros Hi Hr E. unfold process_message in E. cbv zeta in E. destruct (Z.ltb_spec (buffer_len (s_input e)) 5) as [|Hl5]; [by left; injection E as -> ->|].
  destruct (Z.ltb_spec (256 * 1024) (get_u32 (buffer_ptr (s_input e)))) as [|Hmax]; [by right; left; injection E as -> ->|].
  destruct (Z.ltb_spec (buffer_len (s_input e)) (get_u32 (buffer_ptr (s_input e)) + 4)) as [|Hlen]; [by left; injection E as -> ->|].
  right. right. apply bind_Ok in E as (inp & E1 & E). apply bind_Ok in E as (req & E2 & E). apply bind_Ok in E as (inp2 & E3 & E).
  apply bind_Ok in E as ([type req2] & E4 & E). rewrite (buffer_len_contents _ (proj1 Hi)) in *.
  destruct (ptr_u32 (s_input e) Hi ltac:(lia)) as [Hfront [Hn _]]. set (n := get_u32 (buffer_ptr (s_input e))) in *.
  apply consumed_inv in E1 as (Hb1 & Hc1 & _); [|done|lia]. apply consumed_inv in E3 as (Hb3 & Hc3 & Hl3); [|done|lia].
  rewrite ptr_take in E2 by lia. apply appended_inv in E2 as [Hw2 Hc2]; [|by apply wf_clear].
  rewrite (proj2 (buffer_clear_spec _ Hr)) in Hc2. cbn [app] in Hc2.
  assert (bwf req) as Hbr by (split; [done|rewrite Hc2; apply Forall_take, Hb1]).
  apply get_char_inv in E4 as (Hb4 & _ & Hc4); [|done]. cbn [Items.wire app] in Hc4.
  exists type, (contents req2), (contents inp2), inp2, req2. split_and!; try done.
  assert (n = Z.of_nat (S (length (contents req2)))) as Hlen'.
  { pose proof (f_equal length Hc2) as Hq. rewrite Hc4, length_take in Hq. cbn [length] in Hq. lia. }
  rewrite Hfront, <- Hlen'. f_equal. change (drop 4 (contents (s_input e))) with (drop (Z.to_nat 4) (contents (s_input e))).
  rewrite <- Hc1, <- (take_drop (Z.to_nat n) (contents inp)) at 1. by rewrite <- Hc2, <- Hc3, Hc4.
Qed.

(** C20: A locked agent.  Whatever a client sends, the keys stay what they are and the
    answer is a failure or an empty list; only the message that unlocks with the
    right password changes the agent, and it changes the lock alone. *)
Theorem locked_agent_silent time a e a' e' :
  agent_ok a → locked a = true → bwf (s_input e) → wf (s_output e) → wf (s_request e) → process_message time a e = Ok (a', e') →
  (a' = a ∧ (e' = close_socket e ∨
     ∃ w, contents (s_output e') = contents (s_output e) ++ w ∧
       (w = [] ∨ w = failure_answer ∨ ∃ type, w = empty_answer type))) ∨
  (∃ passwd rest k, contents (s_input e) = put_u32 k ++ (SSH_AGENTC_UNLOCK :: Items.wire (Items.String passwd)) ++ rest ∧
     lock_passwd a = Some (cstr passwd) ∧ a' = a <| locked := false |> <| lock_passwd := None |> ∧
     contents (s_output e') = contents (s_output e) ++ [0; 0; 0; 1; SSH_AGENT_SUCCESS]).
Proof.
  intros Ha Hl Hi Ho Hr E. destruct (message_inv _ _ _ _ _ Hi Hr E) as [[-> ->]|[[-> ->]|(type & body & rest & inp & req & Hc & Hbi & Hci & Hbr & Hcr & E')]].
  - left. split; [done|]. right. exists []. rewrite app_nil_r. auto.
  - left. auto.
  - clear E. set (e1 := e <| s_input := inp |> <| s_request := req |>) in *. unfold dispatch_message in E'. cbv zeta in E'. rewrite Hl in E'.
    destruct (Z.eqb_spec type SSH_AGENTC_UNLOCK) as [->|Hne]; cbn [andb negb] in E'.
    + cbn [Z.eqb Pos.eqb orb SSH_AGENTC_LOCK SSH_AGENTC_UNLOCK] in E'. unfold process_lock_agent in E'. apply bind_Ok in E' as ([p r] & Ep & E').
      apply get_string_inv in Ep as (_ & _ & _ & Hp); [|done]. cbv zeta in E'. rewrite Hl in E'. cbn [andb negb] in E'.
      apply bind_Ok in E' as (right & Er & E'). apply bind_Ok in Er as (pw & Epw & [= <-]).
      destruct (strcmp_is (cstr p) pw) eqn:Ecmp.
      * right. apply bind_Ok in E' as (e2 & Es & [= <- <-]). apply put_status_inv in Es as (_ & _ & Hout); [|done].
        unfold strcmp_is in Ecmp. apply bool_decide_eq_true in Ecmp as <-. destruct (lock_passwd a) as [q|]; [|done]. injection Epw as ->.
        exists p, (contents r ++ rest), (Z.of_nat (S (length body))). split_and!; [|done..|exact Hout].
        rewrite Hc. f_equal. rewrite <- Hcr. change (contents (s_request e1)) with (contents req) in Hp. rewrite Hp.
        cbn [app]. by rewrite <- app_assoc.
      * left. apply bind_Ok in E' as (e2 & Es & [= <- <-]). split; [done|]. right. apply put_status_inv in Es as (_ & _ & Hout); [|done].
        exists failure_answer. split; [exact Hout|auto].
    + left. destruct (_ || _); apply bind_Ok in E' as (e2 & Es & [= <- <-]); (split; [done|right]).
      * apply no_identities_inv in Es as (_ & _ & Hout); [|done]. exists (empty_answer type). split; [exact Hout|eauto].
      * apply put_status_inv in Es as (_ & _ & Hout); [|done]. exists failure_answer. split; [exact Hout|auto].
Qed.
End AgentProofs.

(** ** An agent at work *)

Module AgentDemo.
Import ZBignum KeyDemo.

#[export] Instance demo_env : @AgentEnv z_bignum toy_curve toy_openssl :=
  @Build_AgentEnv z_bignum toy_curve toy_openssl (λ l _, Some l) (λ _, true) (λ _, true) (λ _ _, true) 0%nat.

(** A small DSA key with the comment "a" is added. *)
Definition add_request : list Z :=
  [0; 0; 0; 42; SSH2_AGENTC_ADD_IDENTITY; 0; 0; 0; 7] ++ codes "ssh-dss" ++
  [0; 0; 0; 1; 5; 0; 0; 0; 1; 3; 0; 0; 0; 1; 2; 0; 0; 0; 1; 4; 0; 0; 0; 1; 1; 0; 0; 0; 1; 97].
Definition quiet : sock_io := mkIo accept_failed None None false false.
Definition listener : SocketEntry := mkSocket 3 AUTH_SOCKET buffer_init buffer_init buffer_init.
Definition rounds : list round :=
  [ mkRound 10 10 1 false (λ i, if (i =? 0)%nat then mkIo (peer_is 5 0) None None true false else quiet);
    mkRound 11 11 1 false (λ i, if (i =? 1)%nat then mkIo accept_failed None (Some (take 20 add_request)) true false else quiet);
    mkRound 12 12 1 false (λ i, if (i =? 1)%nat then mkIo accept_failed None (Some (drop 20 add_request)) true false else quiet) ].
Definition run : outcome server := agent_rounds 0 rounds (mkServer (fresh_agent 0) [listener] 0 0).

Definition small_dsa : Key := mkKey KEY_DSA 0 None None (Some (mkDsa (5 : bn) (3 : bn) (2 : bn) (4 : bn) (Some 1))) None None.
Definition locked_agent : agent := mkAgent (mkIdtab 0 []) (mkIdtab 1 [mkIdentity small_dsa [97] 0 false]) true (Some [112]) 0.
Lemma locked_agent_ok : agent_ok locked_agent.
Proof.
  split; [apply tab_ok_nil| |by cbn; split; [eauto|]]. split; [done| |by constructor].
  intros [|i] [|j] x y Hij Hx Hy; by (lia || cbn in *).
Qed.
Definition request (l : list Z) : SocketEntry :=
  match buffer_append buffer_init l with Ok b => mkSocket 5 AUTH_CONNECTION b buffer_init buffer_init | _ => listener end.
Lemma request_ok l : bytes l → bwf (s_input (request l)) ∧ wf (s_output (request l)) ∧ wf (s_request (request l)).
Proof.
  assert (bwf buffer_init) as Hi by (split; [apply buffer_init_wf|rewrite (proj2 buffer_init_wf); constructor]).
  intros Hl. unfold request. destruct (buffer_append buffer_init l) as [b| | | | |] eqn:E;
    (split; [|split; apply buffer_init_wf]); try exact Hi.
  apply appended_inv in E as [Hw Hc]; [|apply buffer_init_wf]. split; [done|]. cbn [s_input]. by rewrite Hc, (proj2 buffer_init_wf).
Qed.
End AgentDemo.
Import ZBignum KeyDemo AgentDemo.

Lemma run_keeps_key :
  match AgentDemo.run with Ok sv => nentries (idtable2 (sv_agent sv)) =? 1 | _ => false end = true.
Proof. vm_compute. reflexivity. Qed.

Lemma agent_tables_sound_witness :
  match AgentDemo.run with Ok sv => agent_ok (sv_agent sv) ∧ nentries (idtable2 (sv_agent sv)) = 1 | _ => False end.
Proof.
  pose proof run_keeps_key as Hc. pose proof (agent_tables_sound 0 rounds 0 0 [listener]) as Hs.
  revert Hc Hs. unfold run. generalize (agent_rounds 0 rounds (mkServer (fresh_agent 0) [listener] 0 0)) as o. intros [sv| | | | |] Hc Hs; try discriminate Hc. split.
  - exact (Hs sv eq_refl).
  - by apply Z.eqb_eq.
Defined.

(** A request for the keys; the answer is the empty list. *)
Lemma locked_agent_silent_witness :
  match process_message 10 AgentDemo.locked_agent (AgentDemo.request [0; 0; 0; 1; SSH2_AGENTC_REQUEST_IDENTITIES]) with
  | Ok (a', e') => a' = AgentDemo.locked_agent ∧ contents (s_output e') = empty_answer SSH2_AGENTC_REQUEST_IDENTITIES
  | _ => False
  end.
Proof.
  set (e := AgentDemo.request _). assert (match process_message 10 AgentDemo.locked_agent e with
    Ok (a', e') => locked a' && bool_decide (contents (s_output e') = empty_answer SSH2_AGENTC_REQUEST_IDENTITIES) | _ => false end = true) as Hc
    by (vm_compute; reflexivity).
  destruct (process_message 10 AgentDemo.locked_agent e) as [[a' e']| | | | |] eqn:E; try discriminate Hc. apply andb_true_iff in Hc as [Hl Hc].
  destruct (AgentDemo.request_ok [0; 0; 0; 1; SSH2_AGENTC_REQUEST_IDENTITIES]) as (Hi & Ho & Hr); [unfold bytes; rewrite !Forall_cons; by split_and!; [by vm_compute..|]|].
  split; [|exact (bool_decide_eq_true_1 _ Hc)].
  destruct (locked_agent_silent 10 AgentDemo.locked_agent e a' e' AgentDemo.locked_agent_ok eq_refl Hi Ho Hr E) as [[-> _]|(p & r & k & _ & _ & -> & _)].
  - reflexivity.
  - discriminate Hl.
Defined.

(** A certificate type with a blob of another type: the agent follows a null
    pointer. *)
Example add_wrong_certificate : process_add_identity 10 (fresh_agent 0)
  (listener <| s_request := match Items.puts buffer_init
     [Items.CString (codes "ssh-dss-cert-v01@openssh.com"); Items.String (match key_to_blob rsa_demo with Ok (Some w) => w | _ => [] end)] with
     Ok b => b | _ => buffer_init end |>) 2 = Fault.
Proof. vm_compute. reflexivity. Qed.

(** Four bytes of length 0 and one more byte end the agent. *)
Example empty_message_ends_agent : ∃ s, process_message 10 (fresh_agent 0) (AgentDemo.request [0; 0; 0; 0; 1]) = Fatal s.
Proof. eexists. vm_compute. reflexivity. Qed.
