(* ===== verification/AgentSign.v ===== *)
(** * Agent and client together: theorem ([ssh-agent.c], [authfd.c])

    A key that a client has added to the agent signs until it expires: request,
    rounds of the main loop with its reaper, pieces of any size, decoding, table,
    signature and answer, composed.
    [takes m w a]: from a buffer that starts with [w], [m] gets [a]. *)

From S2P Require Import Prelude ByteOrder Buffer Stdio CipherMac Packet Match Kex BufBn Wp Base64 Keys KeyText KeysProofs KeyDemo KeySign KeyCert.
From S2P Require Import KeyParse Agent AgentProofs.

(** ** Reading *)

Definition takes {A} (m : Buffer → outcome (A * Buffer)) (w : list Z) (a : A) : Prop :=
  ∀ b k, wf b → contents b = w ++ k → ∃ b', m b = Ok (a, b') ∧ wf b' ∧ contents b' = k.
Lemma takes_bind {A B} (m : Buffer → outcome (A * Buffer)) (f : A → Buffer → outcome (B * Buffer)) w1 w2 x c :
  takes m w1 x → takes (f x) w2 c → takes (λ b, '(x, b) ← m b; f x b) (w1 ++ w2) c.
Proof.
  intros Hm Hf b k Hb Hc. rewrite <- app_assoc in Hc. destruct (Hm b _ Hb Hc) as (b1 & -> & Hb1 & Hc1). cbn [mbind outcome_bind].
  by apply Hf.
Qed.
Lemma takes_ret {A} (a : A) : takes (λ b, Ok (a, b)) [] a.
Proof. intros b k Hb Hc. eauto. Qed.
Lemma takes_last {A B} (m : Buffer → outcome (A * Buffer)) (f : A → Buffer → outcome (B * Buffer)) w x c :
  takes m w x → takes (f x) [] c → takes (λ b, '(x, b) ← m b; f x b) w c.
Proof. intros Hm Hf. rewrite <- (app_nil_r w). by apply (takes_bind m f w [] x c). Qed.
Lemma takes_step {A B} (m : outcome A) (f : A → Buffer → outcome (B * Buffer)) w x c :
  m = Ok x → takes (f x) w c → takes (λ b, x ← m; f x b) w c.
Proof. intros -> Hf b k Hb Hc. by apply Hf. Qed.
Lemma takes_fatal {A} (f : Buffer → option A * Buffer) e w a : reads (p_get f) w a → takes (λ b, or_fatal e (f b)) w a.
Proof.
  intros Hr b k Hb Hc. destruct (Hr k b Hb Hc) as (b' & E & ?). exists b'. split; [|done]. unfold p_get in E.
  destruct (f b) as [[x|] b1]; [|done]. by injection E as -> ->.
Qed.
Lemma takes_string s : Z.of_nat (length s) ≤ 256 * 1024 → takes buffer_get_string (Items.wire (Items.String s)) s.
Proof. intros Hs. by apply takes_fatal, reads_string. Qed.
Lemma takes_int v : is_u32 v → takes buffer_get_int (Items.wire (Items.Int v)) v.
Proof. intros Hv b k Hb Hc. by apply Items.got_int. Qed.
Lemma takes_char v : is_u8 v → takes buffer_get_char [v] v.
Proof. intros Hv b k Hb Hc. by apply Items.got_char. Qed.
Lemma takes_bn `{BignumOk} a : bn_ok a → takes buffer_get_bignum2 (wire_bn a) a.
Proof. intros Ha. by apply takes_fatal, reads_bignum2. Qed.
Lemma takes_point `{CurveOk} g p : Z.of_nat (length (EC_POINT_point2oct g p)) ≤ BUFFER_MAX_ECPOINT_LEN →
  takes (λ b, buffer_get_ecpoint b g) (Items.wire (Items.String (EC_POINT_point2oct g p))) p.
Proof. intros Hp. by apply takes_fatal, reads_point. Qed.

Lemma put_bignum2_string `{BignumOk} b a : 0 ≤ bn_val a → bn_val a ≠ 0 → buffer_put_bignum2 b a = buffer_put_string b (mpint (bn_val a)).
Proof.
  intros Ha Hz. unfold buffer_put_bignum2, buffer_put_bignum2_ret. rewrite is_zero_ok, neg_ok, (proj2 (Z.eqb_neq _ _) Hz), (proj2 (Z.ltb_ge _ _)) by lia.
  unfold BN_num_bytes. rewrite num_bits_ok, bn2bin_ok, Z.abs_eq by lia. rewrite be_bytes_length by lia.
  assert (1 ≤ (nbits (bn_val a) + 7) / 8) as Hn.
  { unfold nbits. rewrite (proj2 (Z.eqb_neq _ _) Hz). pose proof (Z.log2_nonneg (bn_val a)). apply Z.div_le_lower_bound; lia. }
  rewrite Z.add_simpl_r, Z.eqb_refl, (proj2 (Z.ltb_ge _ _)) by lia. cbn [negb]. cbv zeta.
  change (byte_at (0 :: be_bytes (bn_val a)) 1) with (byte_at (be_bytes (bn_val a)) 0). unfold mpint.
  rewrite (proj2 (Z.eqb_neq _ _) Hz). cbv zeta. destruct (negb _); cbn [drop]; by destruct (buffer_put_string _ _).
Qed.

(** ** Private keys *)

(** Equal numbers, curves and points compare as equal. *)
Class CompareOk `{Openssl} := {
  bn_cmp_refl a : BN_cmp a a = 0;
  group_cmp_refl g : EC_GROUP_cmp g g = 0;
  point_cmp_refl g p : EC_POINT_cmp g p p = 0
}.

Section AgentSign.
Context `{AgentEnv} `{!BignumOk} `{!CurveOk} `{!OpensslOk} `{!CompareOk}.

(** A key of one of the plain types that can be given to the agent. *)
Inductive private_ok : Key → Prop :=
| private_rsa e n d iqmp p q :
    Forall bn_ok [n; e; d; iqmp; p; q] → SSH_RSA_MINIMUM_MODULUS_SIZE ≤ BN_num_bits n →
    crt_parameters (mkRsa e n (Some (d, iqmp, p, q))) = true → RSA_blinding_on (mkRsa e n (Some (d, iqmp, p, q))) = true →
    private_ok (mkKey KEY_RSA 0 None (Some (mkRsa e n (Some (d, iqmp, p, q)))) None None None)
| private_dsa p q g y x :
    Forall bn_ok [p; q; g; y; x] → private_ok (mkKey KEY_DSA 0 None None (Some (mkDsa p q g y (Some x))) None None)
| private_ec n g pt x :
    ec_ok n (mkEc g pt (Some x)) → bn_ok x → key_ec_validate_private (mkEc g pt (Some x)) = Ok true →
    private_ok (mkKey KEY_ECDSA 0 (Some n) None None (Some (mkEc g pt (Some x))) None).

Lemma private_key_ok k : private_ok k → key_ok k ∧ is_plain k ∧ modulus_ok k.
Proof.
  assert (∀ t, t ∈ [KEY_RSA; KEY_DSA; KEY_ECDSA] → is_plain (mkKey t 0 None None None None None)) as Hp by done.
  intros [e n d iqmp p q Hb Hm _ _|p q g y x Hb|n g pt x He Hx _].
  - rewrite !Forall_cons in Hb. split_and!; [|apply list_elem_of_here|intros r [= <-]; exact Hm].
    eapply rsa_key_ok; [done|done|]. split; tauto.
  - rewrite !Forall_cons in Hb. split_and!; [|apply list_elem_of_further, list_elem_of_here|by intros r [=]].
    eapply dsa_key_ok; [done|done|]. split_and!; tauto.
  - split_and!; [|apply list_elem_of_further, list_elem_of_further, list_elem_of_here|by intros r [=]].
    eapply ec_key_ok; [done|done|done|exact He].
Qed.

Definition wire_private (k : Key) : list Z :=
  match k_rsa k, k_dsa k, k_ecdsa k with
  | Some r, _, _ => match r_private r with Some (d, iqmp, p, q) => concat (map wire_bn [r_n r; r_e r; d; iqmp; p; q]) | None => [] end
  | _, Some d, _ => match d_priv_key d with Some x => concat (map wire_bn [d_p d; d_q d; d_g d; d_pub_key d; x]) | None => [] end
  | _, _, Some e => match ec_private e with Some x => wire_ec (k_nid k) e ++ wire_bn x | None => [] end
  | _, _, _ => []
  end.

Lemma takes_private k : private_ok k → takes (get_private 2) (Items.wire (Items.String (key_ssh_name k)) ++ wire_private k) (Some k).
Proof.
  intros Hk. destruct (private_key_ok k Hk) as (Hok & _ & _). destruct (key_name_clean k Hok) as [Hn0 Hnl].
  unfold get_private. cbn [Z.eqb Pos.eqb]. eapply takes_bind; [apply takes_string; lia|]. cbv zeta. rewrite (cstr_clean_name _ Hn0).
  destruct Hk as [e n d iqmp p q Hb Hm Hcrt _|p q g y x Hb|n g pt x (Hg & Hv & Hl & _) Hx Hpv].
  - change (key_type_from_name _) with KEY_RSA. cbn [Z.eqb Pos.eqb orb KEY_RSA KEY_DSA KEY_DSA_CERT_V00 KEY_DSA_CERT KEY_ECDSA KEY_ECDSA_CERT].
    rewrite !Forall_cons in Hb. destruct Hb as (?&?&?&?&?&?&_). eapply takes_last; [|apply takes_ret]. unfold get_rsa_private, wire_private.
    cbn [k_rsa r_private r_n r_e map concat]. do 6 (eapply takes_bind; [by apply takes_bn|]). unfold rsa_generate_additional_parameters.
    rewrite Hcrt. apply takes_ret.
  - change (key_type_from_name _) with KEY_DSA. cbn [Z.eqb Pos.eqb orb KEY_RSA KEY_DSA].
    rewrite !Forall_cons in Hb. destruct Hb as (?&?&?&?&?&_). eapply takes_last; [|apply takes_ret]. unfold get_dsa_private, wire_private.
    cbn [k_rsa k_dsa d_p d_q d_g d_pub_key d_priv_key map concat]. do 5 (eapply takes_bind; [by apply takes_bn|]). apply takes_ret.
  - destruct (ecdsa_name_ok KEY_ECDSA n eq_refl) as (K0 & _ & Et & En). unfold key_ssh_name. cbn [k_type k_nid]. rewrite Et.
    cbn [Z.eqb Pos.eqb orb KEY_DSA KEY_DSA_CERT_V00 KEY_DSA_CERT KEY_ECDSA]. eapply takes_last; [|apply takes_ret].
    unfold get_ecdsa_private, wire_private, wire_ec. cbn [k_rsa k_dsa k_ecdsa k_nid ec_private ec_grp ec_pub]. cbv zeta.
    rewrite (cstr_clean_name _ K0), (En eq_refl).
    destruct (curve_name_ok n) as (s & Es & H0s & Hs & Ens). rewrite Es. cbn [default id]. rewrite <- app_assoc.
    eapply takes_bind; [apply (takes_string s); lia|]. rewrite (cstr_clean_name s H0s), Ens, bool_decide_true by done. cbn [negb].
    cbn [ec_grp] in Hg. rewrite Hg. eapply takes_bind; [by apply takes_point|]. eapply takes_last; [by apply takes_bn|].
    cbn [ec_grp ec_pub] in Hv. rewrite Hv. cbn [mbind outcome_bind negb]. rewrite Hpv. cbn [mbind outcome_bind negb]. apply takes_ret.
Qed.

(** ** Transport *)

(** A buffer that has stayed small: [c] bytes were put into it. *)
Definition small_buf (b : Buffer) (c : Z) : Prop := wf b ∧ alloc b ≤ 1500000 ∧ end_ b ≤ c.
Lemma small_init : small_buf buffer_init 0.
Proof. split_and!; [apply buffer_init_wf|by vm_compute..]. Qed.
Lemma small_append b c d : small_buf b c → c + Z.of_nat (length d) ≤ 300000 →
  ∃ b', buffer_append b d = Ok b' ∧ small_buf b' (c + Z.of_nat (length d)) ∧ contents b' = contents b ++ d.
Proof.
  intros (Hw & Ha & He) Hl. pose proof (wf_offset _ Hw). destruct (buffer_append_ok b d Hw) as (b' & E & Hw' & Hc & Ha' & He').
  - change BUFFER_MAX_CHUNK with 1048576. lia.
  - change BUFFER_ALLOCSZ with 32768. change BUFFER_MAX_LEN with 10485760. lia.
  - exists b'. split; [done|]. change BUFFER_ALLOCSZ with 32768 in Ha'. split; [split_and!; [done|lia..]|done].
Qed.

(** ** Writing

    [writes m w]: [m] appends [w] to a buffer that stays small. *)
Definition writes (m : Buffer → outcome Buffer) (w : list Z) : Prop :=
  ∀ b c, small_buf b c → c + Z.of_nat (length w) ≤ 300000 →
    ∃ b', m b = Ok b' ∧ small_buf b' (c + Z.of_nat (length w)) ∧ contents b' = contents b ++ w.
Lemma writes_append d : writes (λ b, buffer_append b d) d.
Proof. intros b c. apply small_append. Qed.
Lemma writes_bind m f w1 w2 : writes m w1 → writes f w2 → writes (λ b, b ← m b; f b) (w1 ++ w2).
Proof.
  intros Hm Hf b c Hb Hl. rewrite length_app in Hl. destruct (Hm b c Hb) as (b1 & -> & Hb1 & Hc1); [lia|]. cbn [mbind outcome_bind].
  destruct (Hf b1 _ Hb1) as (b2 & -> & Hb2 & Hc2); [lia|]. exists b2. rewrite length_app, Nat2Z.inj_add, Z.add_assoc, app_assoc, <- Hc1. done.
Qed.
Lemma writes_ext m m' w : (∀ b, m b = m' b) → writes m w → writes m' w.
Proof. intros He Hm b c Hb Hl. rewrite <- He. by apply Hm. Qed.
Lemma writes_nil : writes Ok [].
Proof. intros b c Hb _. exists b. rewrite app_nil_r, Z.add_0_r. done. Qed.
Lemma writes_string s : writes (λ b, buffer_put_string b s) (Items.wire (Items.String s)).
Proof.
  intros b c Hb Hl. cbn [Items.wire] in *. rewrite length_app in Hl. change (length (put_u32 _)) with 4%nat in Hl.
  assert (0 ≤ c) by (destruct Hb as (Hw & _ & ?); pose proof (wf_offset _ Hw); lia).
  unfold buffer_put_string. rewrite (u32_small (Z.of_nat (length s))) by lia.
  apply (writes_bind (λ b, buffer_append b (put_u32 (Z.of_nat (length s)))) (λ b, buffer_append b s)); [apply writes_append..|done|].
  rewrite length_app. change (length (put_u32 _)) with 4%nat. lia.
Qed.
Lemma writes_items its : Forall Items.ok its → Forall (λ i, match i with Items.Char _ | Items.Int _ | Items.String _ => True | _ => False end) its →
  writes (λ b, Items.puts b its) (concat (map Items.wire its)).
Proof.
  induction its as [|i its IH]; intros Hok Hk; [exact writes_nil|]. apply Forall_cons in Hok as [Hi Hok]. apply Forall_cons in Hk as [Hki Hk].
  cbn [Items.puts map concat]. apply (writes_bind (λ b, Items.put b i)); [|by apply IH].
  destruct i; try done; cbn [Items.put].
  - apply writes_append.
  - cbn [Items.ok] in Hi. cbn [Items.wire]. unfold buffer_put_char. rewrite u8_small by done. apply writes_append.
  - apply writes_string.
Qed.
Lemma writes_bn a : bn_ok a → writes (λ b, buffer_put_bignum2 b a) (wire_bn a).
Proof.
  intros Ha b c Hb Hl. destruct (decide (bn_val a = 0)) as [Hz|Hz].
  - unfold buffer_put_bignum2, buffer_put_bignum2_ret, wire_bn in *. rewrite is_zero_ok, Hz in *. cbn [Z.eqb].
    destruct (writes_append (put_u32 0) b c Hb Hl) as (b' & E & ?). unfold buffer_put_int. rewrite E. by exists b'.
  - rewrite put_bignum2_string by (apply Ha || done). by apply writes_string.
Qed.
Lemma writes_bns l : Forall bn_ok l → writes (λ b, put_bignums b l) (concat (map wire_bn l)).
Proof.
  assert (∀ l m, (∀ b, m ≠ Ok b) → foldl (λ m v, b ← m; buffer_put_bignum2 b v) m l = m) as Hno.
  { clear. induction l as [|a l IH]; intros m Hm; [done|]. cbn [foldl]. destruct m; [by destruct (Hm a0)|..]; cbn [mbind outcome_bind]; by apply IH. }
  induction l as [|a l IH]; intros Hl; [exact writes_nil|]. apply Forall_cons in Hl as [Ha Hl].
  eapply writes_ext; [|apply (writes_bind (λ b, buffer_put_bignum2 b a) (λ b, put_bignums b l)); [by apply writes_bn|by apply IH]].
  intros b. unfold put_bignums. cbn [foldl mbind outcome_bind]. destruct (buffer_put_bignum2 b a); cbn [mbind outcome_bind]; [done|by rewrite Hno..].
Qed.
Lemma writes_point g p : Z.of_nat (length (EC_POINT_point2oct g p)) ≤ BUFFER_MAX_ECPOINT_LEN →
  writes (λ b, buffer_put_ecpoint b g p) (Items.wire (Items.String (EC_POINT_point2oct g p))).
Proof.
  change BUFFER_MAX_ECPOINT_LEN with 133. intros Hl b c Hb Hc. destruct (writes_string (EC_POINT_point2oct g p) b c Hb Hc) as (b' & E & ?).
  exists b'. split; [|done]. unfold buffer_put_ecpoint, buffer_put_ecpoint_ret. change BUFFER_MAX_ECPOINT_LEN with 133.
  destruct (point2oct_ok g p) as [l El]. rewrite El in *. cbn [length] in *.
  rewrite (proj2 (Z.ltb_ge _ _)), (proj2 (Z.eqb_neq _ _)) by lia. by rewrite E.
Qed.

(** What a client sends of a key. *)
Lemma writes_key k comment : private_ok k → writes (λ b, ssh_encode_identity_ssh2 b k comment)
  (Items.wire (Items.String (key_ssh_name k)) ++ wire_private k ++ Items.wire (Items.String comment)).
Proof.
  intros Hk. unfold ssh_encode_identity_ssh2. apply (writes_bind (λ b, buffer_put_string b (key_ssh_name k))); [apply writes_string|].
  destruct Hk as [e n d iqmp p q Hb Hm Hcrt _|p q g y x Hb|n g pt x (Hg & Hv & Hl & _) Hx Hpv].
  all: cbn [k_type k_rsa k_dsa k_ecdsa k_nid Z.eqb Pos.eqb orb KEY_RSA KEY_DSA KEY_ECDSA KEY_RSA_CERT KEY_DSA_CERT KEY_RSA_CERT_V00
    KEY_DSA_CERT_V00]; cbn [buffer_put_cstring].
  - apply (writes_bind (λ b, put_bignums b [n; e; d; iqmp; p; q])); [|apply writes_string]. apply writes_bns.
    rewrite !Forall_cons in *. tauto.
  - apply (writes_bind (λ b, put_bignums b [p; q; g; y; x])); [by apply writes_bns|apply writes_string].
  - destruct (curve_name_ok n) as (s & Es & _ & _ & _). unfold wire_private, wire_ec. cbn [k_rsa k_dsa k_ecdsa k_nid ec_private ec_grp ec_pub].
    rewrite Es. cbn [default id buffer_put_cstring deref mbind outcome_bind ec_private ec_grp ec_pub].
    eapply (writes_bind (λ b, b ← buffer_put_string b s; b ← buffer_put_ecpoint b g pt; put_bignums b [x]));
      [|apply writes_string]. rewrite <- app_assoc. apply (writes_bind (λ b, buffer_put_string b s)); [apply writes_string|].
    apply (writes_bind (λ b, buffer_put_ecpoint b g pt)); [by apply writes_point|].
    rewrite <- (app_nil_r (wire_bn x)). apply (writes_bns [x]). by constructor.
Qed.

(** The agent reads a message in pieces of up to 1024 bytes. *)
Definition piece_io (piece : list Z) : sock_io := mkIo accept_failed None (Some piece) true false.
Definition cut (pieces : list (list Z)) (w : list Z) : Prop :=
  concat pieces = w ∧ Forall (λ p, p ≠ [] ∧ (length p ≤ 1024)%nat) pieces.

Definition frame (m : list Z) : list Z := put_u32 (Z.of_nat (length m)) ++ m.
Lemma frame_u32 m l : Z.of_nat (length m) ≤ 260000 → take 4 l = take 4 (frame m) → (4 ≤ length l)%nat → get_u32 l = Z.of_nat (length m).
Proof.
  intros Hm Ht Hl. assert (get_u32 l = get_u32 (take 4 l)) as ->.
  { rewrite <- (take_drop 4 l) at 1. apply get_u32_app. rewrite length_take. lia. }
  rewrite Ht. change (take 4 (frame m)) with (put_u32 (Z.of_nat (length m))). apply get_put_u32. unfold is_u32. lia.
Qed.
Lemma agent_frame_length m : length (frame m) = (4 + length m)%nat.
Proof. unfold frame. rewrite length_app. done. Qed.

Lemma step_incomplete time a e m l : wf (s_input e) → contents (s_input e) ++ l = frame m → l ≠ [] → Z.of_nat (length m) ≤ 260000 →
  process_message time a e = Ok (a, e).
Proof.
  intros Hw Hc Hl Hm. pose proof (f_equal length Hc) as Hlen. rewrite length_app, agent_frame_length in Hlen.
  assert (length l ≠ 0)%nat by (destruct l; [done|simpl; lia]).
  unfold process_message. rewrite (buffer_len_contents _ Hw). destruct (Z.ltb_spec (Z.of_nat (length (contents (s_input e)))) 5) as [|]; [done|].
  cbv zeta. assert (get_u32 (buffer_ptr (s_input e)) = Z.of_nat (length m)) as ->.
  { apply frame_u32; [done| |].
    - rewrite ptr_take, <- Hc, take_app_le by lia. done.
    - destruct (ptr_split (s_input e)) as [x ->]. rewrite length_app. lia. }
  rewrite (proj2 (Z.ltb_ge _ _)), (proj2 (Z.ltb_lt _ _)) by lia. done.
Qed.
Lemma step_complete time a e type body : small_buf (s_input e) 300000 → s_request e = buffer_init →
  contents (s_input e) = frame (type :: body) → Z.of_nat (length body) ≤ 250000 → is_u8 type →
  ∃ inp req, wf req ∧ contents req = body ∧ wf inp ∧ contents inp = [] ∧
    process_message time a e = dispatch_message time a (e <| s_input := inp |> <| s_request := req |>) type.
Proof.
  intros (Hw & _) Hreq Hc Hb Ht. pose proof (f_equal length Hc) as Hlen. rewrite agent_frame_length in Hlen. cbn [length] in Hlen.
  unfold process_message. rewrite (buffer_len_contents _ Hw), (proj2 (Z.ltb_ge _ _)).
  2:{ rewrite Hlen. destruct body; [|simpl; lia]. simpl. lia. }
  cbv zeta. assert (get_u32 (buffer_ptr (s_input e)) = Z.of_nat (S (length body))) as Hn.
  { apply (frame_u32 (type :: body)); [cbn [length]; lia| |].
    - by rewrite ptr_take, Hc by lia.
    - destruct (ptr_split (s_input e)) as [x ->]. rewrite length_app. lia. }
  rewrite Hn, (proj2 (Z.ltb_ge _ _)), (proj2 (Z.ltb_ge _ _)) by lia.
  pose proof (buffer_consume_spec (s_input e) 4 Hw ltac:(lia)) as Hs. rewrite (proj2 (Z.leb_le _ _)) in Hs by lia.
  destruct Hs as (i1 & -> & Hw1 & _ & _ & Hc1). rewrite Hc in Hc1. change (drop (Z.to_nat 4) (frame (type :: body))) with (type :: body) in Hc1.
  cbn [mbind outcome_bind]. rewrite Hreq, ptr_take by (rewrite Hc1; simpl length; lia). rewrite Hc1, take_ge by (simpl length; lia).
  destruct (small_append (buffer_clear buffer_init) 0 (type :: body)) as (r1 & -> & Hr1 & Hcr); [|simpl length; lia|].
  { split_and!; [apply (wf_clear _ (proj1 buffer_init_wf))|by vm_compute..]. }
  cbn [mbind outcome_bind].
  pose proof (buffer_consume_spec i1 (Z.of_nat (S (length body))) Hw1 ltac:(lia)) as Hs. rewrite Hc1, (proj2 (Z.leb_le _ _)) in Hs by (simpl length; lia).
  destruct Hs as (i2 & -> & Hw2 & _ & _ & Hc2). cbn [mbind outcome_bind].
  rewrite (proj2 (buffer_clear_spec _ (proj1 buffer_init_wf))) in Hcr. cbn [app] in Hcr.
  destruct (takes_char type Ht r1 body (proj1 Hr1)) as (r2 & -> & Hw3 & Hc3); [exact Hcr|]. cbn [mbind outcome_bind].
  exists i2, r2. split_and!; try done. rewrite Hc2, drop_ge; [done|simpl length; lia].
Qed.

(** A connection at its start. *)
Definition fresh_conn (fd : Z) : SocketEntry := mkSocket fd AUTH_CONNECTION buffer_init buffer_init buffer_init.

(** ** Rounds of the main loop

    A piece of a request arrives on the connection [i], the other sockets are
    silent: the times before and after [select] and the piece.  Expired keys go
    before [select] and after it. *)
Definition silent : sock_io := mkIo accept_failed None None false false.
Definition arrival : Type := Z * Z * list Z.
Definition arrival_round (i : nat) (x : arrival) : round :=
  let '(before, after, piece) := x in mkRound before after 1 false (λ j, if (j =? i)%nat then piece_io piece else silent).
Definition arrive (uid : Z) (i : nat) (xs : list arrival) (sv : server) : outcome server := agent_rounds uid (map (arrival_round i) xs) sv.
(** The request [w] comes in the pieces of [xs], at times of which [T] holds. *)
Definition arrives (T : Z → Prop) (xs : list arrival) (w : list Z) : Prop :=
  cut (map snd xs) w ∧ Forall (λ x, T x.1.1 ∧ T x.1.2) xs.

Lemma serve_silent time uid i sv : (i < length (sv_sockets sv))%nat → serve_socket time uid silent i sv = Ok sv.
Proof.
  intros Hi. unfold serve_socket. destruct (lookup_lt_is_Some_2 _ _ Hi) as [e E]. rewrite E. destruct (s_type e); [done|done|].
  unfold serve_connection, write_output. cbn [silent io_writable io_readable]. rewrite andb_false_r. cbn [mbind outcome_bind negb orb].
  destruct sv as [a l m n]. cbn in *. by rewrite list_insert_id.
Qed.
Lemma serve_silents time uid ios n : ∀ i sv, (i + n ≤ length (sv_sockets sv))%nat → (∀ j, (i ≤ j < i + n)%nat → ios j = silent) →
  serve_sockets time uid ios i n sv = Ok sv.
Proof.
  induction n as [|n IH]; intros i sv Hl Hs; [done|]. cbn [serve_sockets]. rewrite Hs, serve_silent by lia. cbn [mbind outcome_bind].
  apply IH; [lia|]. intros j Hj. apply Hs. lia.
Qed.
Lemma serve_sockets_app time uid ios n m : ∀ i sv,
  serve_sockets time uid ios i (n + m) sv = (sv ← serve_sockets time uid ios i n sv; serve_sockets time uid ios (i + n) m sv).
Proof.
  induction n as [|n IH]; intros i sv; cbn [serve_sockets Nat.add]; [cbn [mbind outcome_bind]; by rewrite Nat.add_0_r|].
  destruct (serve_socket time uid (ios i) i sv) as [sv1| | | | |]; cbn [mbind outcome_bind]; [|done..]. by rewrite IH, Nat.add_succ_comm.
Qed.
(** A round with a piece is one service of its connection, by what is left of the agent. *)
Lemma arrival_step uid i b t p sv e a' e' : sv_sockets sv !! i = Some e → s_type e = AUTH_CONNECTION →
  serve_connection t (piece_io p) (reaper t (reaper b (sv_agent sv)).2).2 e = Ok (a', e') →
  ∃ sv', agent_round uid (arrival_round i (b, t, p)) sv = Ok sv' ∧ sv_agent sv' = a' ∧ sv_sockets sv' = <[i := e']> (sv_sockets sv).
Proof.
  intros Hi Ht E. pose proof (lookup_lt_Some _ _ _ Hi) as Hl. unfold agent_round, arrival_round, prepare_select. cbn [rd_before rd_after rd_result rd_orphan rd_io].
  destruct (reaper b (sv_agent sv)) as [d a1]. cbn [snd] in *. rewrite andb_false_r. change (0 <? 1) with true. cbv iota.
  unfold after_select. set (sv1 := sv <| sv_agent := a1 |> <| sv_max_fd := max_used_fd (sv_sockets sv) |>). set (sv2 := sv1 <| sv_agent := (reaper t (sv_agent sv1)).2 |>).
  change (sv_sockets sv2) with (sv_sockets sv). replace (length (sv_sockets sv)) with (i + (1 + (length (sv_sockets sv) - i - 1)))%nat by lia.
  rewrite serve_sockets_app, serve_silents; [|change (sv_sockets sv2) with (sv_sockets sv); lia|intros j Hj; by rewrite (proj2 (Nat.eqb_neq _ _)) by lia].
  cbn [mbind outcome_bind Nat.add serve_sockets]. rewrite Nat.eqb_refl. unfold serve_socket. change (sv_sockets sv2) with (sv_sockets sv).
  rewrite Hi, Ht. change (sv_agent sv2) with (reaper t a1).2. rewrite E. cbn [mbind outcome_bind].
  eexists (sv2 <| sv_agent := a' |> <| sv_sockets := <[i := e']> (sv_sockets sv) |>). split; [|done].
  apply serve_silents; [|intros j Hj; by rewrite (proj2 (Nat.eqb_neq _ _)) by lia].
  etrans; [|apply Nat.eq_le_incl; symmetry; exact (length_insert (sv_sockets sv) i e')]. lia.
Qed.
Lemma serve_piece time a fd inp p : small_buf inp (Z.of_nat (length (contents inp))) → p ≠ [] → (length p ≤ 1024)%nat →
  Z.of_nat (length (contents inp)) + Z.of_nat (length p) ≤ 300000 →
  ∃ inp', serve_connection time (piece_io p) a (mkSocket fd AUTH_CONNECTION inp buffer_init buffer_init) =
      process_message time a (mkSocket fd AUTH_CONNECTION inp' buffer_init buffer_init) ∧
    small_buf inp' (Z.of_nat (length (contents inp'))) ∧ contents inp' = contents inp ++ p.
Proof.
  intros Hs Hp Hpl Hl. destruct (small_append inp _ p Hs Hl) as (i1 & E1 & Hs1 & Hc1). exists i1.
  split_and!; [|by rewrite Hc1, length_app, Nat2Z.inj_add|done].
  unfold serve_connection, write_output. change (0 <? buffer_len (s_output _)) with false.
  cbn [piece_io io_writable io_readable io_read andb orb negb mbind outcome_bind]. destruct p as [|c p]; [done|]. rewrite take_ge by done.
  cbn [s_input]. by rewrite E1.
Qed.

(** In whatever pieces a message comes, it is handled once, when it is complete,
    by the agent that the reaper has left: [P] holds of the agent at the start,
    [P'] after the reaper, [Q] when the message was handled. *)
Lemma arrive_frame uid i fd type body (T : Z → Prop) (P P' : agent → Prop) (Q : Z → agent → Prop) reply :
  Z.of_nat (length body) ≤ 250000 → is_u8 type → (∀ a, P' a → P a) → (∀ t a, T t → P a → P' (reaper t a).2) →
  (∀ t a inp req, T t → P' a → wf req → contents req = body →
    ∃ a' e', dispatch_message t a (mkSocket fd AUTH_CONNECTION inp buffer_init req) type = Ok (a', e') ∧ contents (s_output e') = reply ∧ Q t a') →
  ∀ xs sv, arrives T xs (frame (type :: body)) → sv_sockets sv !! i = Some (fresh_conn fd) → P (sv_agent sv) →
  ∃ sv' e' t, arrive uid i xs sv = Ok sv' ∧ sv_sockets sv' = <[i := e']> (sv_sockets sv) ∧ contents (s_output e') = reply ∧
    T t ∧ last xs.*1.*2 = Some t ∧ Q t (sv_agent sv').
Proof.
  intros Hb Ht HP Hreap Hd.
  assert (∀ xs sv inp, Forall (λ p, p ≠ [] ∧ (length p ≤ 1024)%nat) (map snd xs) → Forall (λ x, T x.1.1 ∧ T x.1.2) xs → xs ≠ [] →
    small_buf inp (Z.of_nat (length (contents inp))) → contents inp ++ concat (map snd xs) = frame (type :: body) →
    sv_sockets sv !! i = Some (mkSocket fd AUTH_CONNECTION inp buffer_init buffer_init) → P (sv_agent sv) →
    ∃ sv' e' t, arrive uid i xs sv = Ok sv' ∧ sv_sockets sv' = <[i := e']> (sv_sockets sv) ∧ contents (s_output e') = reply ∧
      T t ∧ last xs.*1.*2 = Some t ∧ Q t (sv_agent sv')) as Hgen.
  { induction xs as [|[[b t] p] xs IH]; intros sv inp Hps HT Hnil Hsm Hc Hi Ha; [done|]. cbn [map] in Hps. cbn [snd] in Hps, Hc.
    apply Forall_cons in Hps as [[Hp Hpl] Hps]. apply Forall_cons in HT as [[HTb HTt] HT]. cbn [fst snd] in HTb, HTt.
    pose proof (f_equal length Hc) as Hlen. cbn [map concat snd] in Hc, Hlen. rewrite !length_app, agent_frame_length in Hlen. cbn [length] in Hlen.
    destruct (serve_piece t (reaper t (reaper b (sv_agent sv)).2).2 fd inp p Hsm Hp Hpl) as (i1 & E1 & Hs1 & Hc1); [lia|].
    rewrite app_assoc, <- Hc1 in Hc. pose proof (Hreap t _ HTt (HP _ (Hreap b _ HTb Ha))) as Ha1. unfold arrive. cbn [map agent_rounds].
    destruct xs as [|x2 xs].
    - cbn [map concat] in Hc. rewrite app_nil_r in Hc.
      destruct (step_complete t (reaper t (reaper b (sv_agent sv)).2).2 (mkSocket fd AUTH_CONNECTION i1 buffer_init buffer_init) type body)
        as (i2 & r2 & Hw2 & Hcr & Hwi & Hci & E2); [|done|exact Hc|done|done|].
      { destruct Hs1 as (? & ? & ?). split_and!; [done..|]. cbn [s_input]. rewrite Hc1, length_app in *. lia. }
      destruct (Hd t _ i2 r2 HTt Ha1 Hw2 Hcr) as (a' & e' & E3 & Hout & HQ). rewrite E2 in E1.
      destruct (arrival_step uid i b t p sv _ a' e' Hi eq_refl) as (sv' & -> & <- & Hsk); [rewrite E1; exact E3|].
      exists sv', e', t. done.
    - rewrite (step_incomplete _ _ _ (type :: body) (concat (map snd (x2 :: xs)))) in E1; [|apply Hs1|exact Hc| |cbn [length]; lia].
      + destruct (arrival_step uid i b t p sv _ _ _ Hi eq_refl E1) as (sv1 & -> & Ha2 & Hsk). cbn [mbind outcome_bind].
        destruct (IH sv1 i1 Hps HT) as (sv' & e' & t' & E & Hsk' & Hout & HTt' & Hlast & HQ); [done|done|exact Hc| |by rewrite Ha2; apply HP|].
        { rewrite Hsk, list_lookup_insert_eq; [done|by eapply lookup_lt_Some]. }
        exists sv', e', t'. split_and!; try done. by rewrite Hsk', Hsk, list_insert_insert_eq.
      + apply Forall_cons in Hps as [[Hp2 _] _]. cbn [map concat]. destruct (snd x2); [done|]. by cbn. }
  intros xs sv [[Hcat Hne] HT] Hi Ha. apply (Hgen xs sv buffer_init); [done|done| |exact small_init|exact Hcat|exact Hi|exact Ha].
  intros ->. cbn [map concat] in Hcat. by rewrite <- (app_nil_r (frame _)) in Hcat; unfold frame in Hcat; rewrite <- app_assoc in Hcat.
Qed.
(** ** The client's side of an exchange *)

Lemma read_reply_ok fuel : ∀ m input reply c, small_buf reply c → c + Z.of_nat (length m) ≤ 300000 → (length m ≤ fuel)%nat →
  ∃ r, read_reply fuel (m ++ input) (Z.of_nat (length m)) reply = Ok (Some r) ∧ wf r ∧ contents r = contents reply ++ m.
Proof.
  induction fuel as [|fuel IH]; intros m input reply c Hs Hl Hf.
  { destruct m; [|simpl in Hf; lia]. exists reply. rewrite app_nil_r. split_and!; [done|apply Hs|done]. }
  cbn [read_reply]. destruct (Z.leb_spec (Z.of_nat (length m)) 0) as [Hz|Hz].
  { destruct m; [|simpl in Hz; lia]. exists reply. rewrite app_nil_r. split_and!; [done|apply Hs|done]. }
  cbv zeta. set (l := Z.min (Z.of_nat (length m)) 1024). assert (0 < l ≤ Z.of_nat (length m)) as Hb by (unfold l; lia).
  rewrite length_app, (proj2 (Z.ltb_ge _ _)) by lia. assert (length (take (Z.to_nat l) m) = Z.to_nat l) as Ht by (rewrite length_take; lia).
  rewrite take_app_le, drop_app_le by lia. destruct (small_append reply c (take (Z.to_nat l) m) Hs) as (r1 & -> & Hs1 & Hc1); [lia|].
  cbn [mbind outcome_bind]. assert (Z.of_nat (length m) - l = Z.of_nat (length (drop (Z.to_nat l) m))) as -> by (rewrite length_drop; lia).
  destruct (IH (drop (Z.to_nat l) m) input r1 _ Hs1) as (r & E & Hw & Hc).
  - rewrite length_drop. lia.
  - rewrite length_drop. lia.
  - exists r. split_and!; [done..|]. by rewrite Hc, Hc1, <- app_assoc, take_drop.
Qed.
Lemma request_reply peer msg c m : small_buf msg c → peer (frame (contents msg)) = frame m → Z.of_nat (length m) ≤ 200000 →
  ∃ r, ssh_request_reply peer msg = Ok (Some r) ∧ wf r ∧ contents r = m.
Proof.
  intros (Hw & Ha & He) Hp Hm. unfold ssh_request_reply. rewrite (buffer_len_contents _ Hw). unfold frame in Hp at 1. rewrite Hp.
  cbv zeta. rewrite agent_frame_length, (proj2 (Z.ltb_ge _ _)) by lia.
  rewrite (frame_u32 m (take 4 (frame m))); [|lia|by rewrite take_take|rewrite length_take, agent_frame_length; lia].
  rewrite (proj2 (Z.ltb_ge _ _)), Nat2Z.id by lia. change (drop 4 (frame m)) with m.
  destruct (read_reply_ok (length m) m [] (buffer_clear msg) 0) as (r & E & Hr & Hc).
  - split_and!; [apply (wf_clear _ Hw)|exact Ha|done].
  - lia.
  - done.
  - rewrite (proj2 (buffer_clear_spec _ Hw)) in Hc. rewrite app_nil_r in E. by exists r.
Qed.
Lemma status_reply peer msg c ok : small_buf msg c →
  peer (frame (contents msg)) = [0; 0; 0; 1; if ok : bool then SSH_AGENT_SUCCESS else SSH_AGENT_FAILURE] → reply_status peer msg = Ok ok.
Proof.
  intros Hs Hp. unfold reply_status. destruct (request_reply peer msg c [if ok then SSH_AGENT_SUCCESS else SSH_AGENT_FAILURE] Hs) as (r & -> & Hw & Hc);
    [exact Hp|simpl; lia|]. cbn [mbind outcome_bind].
  destruct (takes_char (if ok then SSH_AGENT_SUCCESS else SSH_AGENT_FAILURE) ltac:(by destruct ok) r [] Hw Hc) as (r' & -> & _).
  by destruct ok.
Qed.

(** The request by which a key is added. *)
Definition add_type (life : Z) : Z := if life =? 0 then SSH2_AGENTC_ADD_IDENTITY else SSH2_AGENTC_ADD_ID_CONSTRAINED.
Definition wire_life (life : Z) : list Z := if life =? 0 then [] else SSH_AGENT_CONSTRAIN_LIFETIME :: put_u32 life.
Definition add_body (k : Key) (comment : list Z) (life : Z) : list Z :=
  (Items.wire (Items.String (key_ssh_name k)) ++ wire_private k ++ Items.wire (Items.String comment)) ++ wire_life life.
Lemma wire_private_length k : private_ok k → Z.of_nat (length (wire_private k)) ≤ 60000.
Proof.
  assert (∀ l, Forall bn_ok l → Z.of_nat (length (concat (map wire_bn l))) ≤ 8196 * Z.of_nat (length l)) as Hl.
  { induction l as [|a l IH]; intros Hl; [done|]. apply Forall_cons in Hl as [Ha Hl]. specialize (IH Hl). pose proof (wire_bn_length a Ha).
    cbn [map concat length]. rewrite length_app. lia. }
  intros [e n d iqmp p q Hb Hm Hcrt _|p q g y x Hb|n g pt x (Hg & Hv & Hpl & _) Hx Hpv]; unfold wire_private;
    cbn [k_rsa k_dsa k_ecdsa k_nid r_private r_n r_e d_p d_q d_g d_pub_key d_priv_key ec_private].
  - etrans; [exact (Hl [n; e; d; iqmp; p; q] Hb)|by cbn].
  - etrans; [exact (Hl [p; q; g; y; x] Hb)|by cbn].
  - pose proof (wire_bn_length x Hx). unfold wire_ec. destruct (curve_name_ok n) as (s & -> & _ & Hs & _). cbn [ec_grp ec_pub] in *.
    cbn [Items.wire default id]. rewrite !length_app. change (length (put_u32 _)) with 4%nat. change BUFFER_MAX_ECPOINT_LEN with 133 in Hpl. lia.
Qed.
Lemma add_body_length k comment life : private_ok k → Z.of_nat (length comment) ≤ 1000 → Z.of_nat (length (add_body k comment life)) ≤ 70000.
Proof.
  intros Hk Hc. pose proof (wire_private_length k Hk). destruct (key_name_clean k (proj1 (private_key_ok k Hk))) as [_ Hn].
  unfold add_body, wire_life. cbn [Items.wire]. rewrite !length_app. change (length (put_u32 (Z.of_nat _))) with 4%nat.
  destruct (life =? 0); simpl length; lia.
Qed.
Lemma client_adds k comment life : private_ok k → Z.of_nat (length comment) ≤ 1000 → is_u32 life → ∃ msg c, small_buf msg c ∧
  contents msg = add_type life :: add_body k comment life ∧ ∀ peer, ssh_add_identity_constrained peer k comment life false = reply_status peer msg.
Proof.
  intros Hk Hc Hlife. pose proof (add_body_length k comment life Hk Hc) as Hlen.
  assert (writes (λ b, b ← buffer_put_char b (add_type life); b ← ssh_encode_identity_ssh2 b k comment;
    if negb (life =? 0) then put_constraints b life false else Ok b) ([add_type life] ++ add_body k comment life)) as Hw.
  { apply (writes_bind (λ b, buffer_put_char b (add_type life))).
    { unfold buffer_put_char. rewrite u8_small by by unfold add_type; destruct (life =? 0). apply writes_append. }
    apply (writes_bind (λ b, ssh_encode_identity_ssh2 b k comment)); [by apply writes_key|]. unfold wire_life, put_constraints.
    destruct (life =? 0); cbn [negb app]; [exact writes_nil|]. rewrite <- (app_nil_r (put_u32 life)).
    apply (writes_items [Items.Char SSH_AGENT_CONSTRAIN_LIFETIME; Items.Int life]); repeat constructor; (done || apply Hlife). }
  destruct (Hw buffer_init 0 small_init) as (msg & E & Hs & Hcm); [rewrite length_app; cbn [length]; lia|].
  exists msg, (0 + Z.of_nat (length ([add_type life] ++ add_body k comment life))). split_and!; [exact Hs|by rewrite Hcm, (proj2 buffer_init_wf)|]. intros peer. unfold ssh_add_identity_constrained. rewrite orb_false_r.
  assert ((k_type k =? KEY_RSA1) = false ∧ (is_rsa_type (k_type k) || is_dsa_type (k_type k) || is_ecdsa_type (k_type k)) = true) as [-> ->] by by destruct Hk.
  unfold add_type in E. destruct (life =? 0); cbn [negb] in *; apply bind_Ok in E as (b1 & -> & E); apply bind_Ok in E as (b2 & E2 & E);
    cbn [mbind outcome_bind]; rewrite E2; cbn [mbind outcome_bind]; [by injection E as ->|by rewrite E].
Qed.
(** ** The agent's side *)

Lemma small_status e c ok : small_buf (s_output e) c → c ≤ 1000 →
  ∃ o, put_status e ok = Ok (e <| s_output := o |>) ∧ contents o = contents (s_output e) ++ [0; 0; 0; 1; if ok then SSH_AGENT_SUCCESS else SSH_AGENT_FAILURE].
Proof.
  intros Hs Hc. unfold put_status, buffer_put_char, buffer_put_int. destruct (small_append (s_output e) c (put_u32 1) Hs) as (o1 & -> & Hs1 & Hc1); [simpl; lia|].
  cbn [mbind outcome_bind]. destruct (small_append o1 _ [u8 (if ok then SSH_AGENT_SUCCESS else SSH_AGENT_FAILURE)] Hs1) as (o2 & -> & Hs2 & Hc2); [simpl; lia|].
  exists o2. split; [done|]. rewrite Hc2, Hc1, <- app_assoc. by destruct ok.
Qed.
Lemma small_message e c msg : small_buf (s_output e) c → c ≤ 1000 → wf msg → Z.of_nat (length (contents msg)) ≤ 200000 →
  ∃ o, put_message e msg = Ok (e <| s_output := o |>) ∧ contents o = contents (s_output e) ++ frame (contents msg).
Proof.
  intros Hs Hc Hm Hl. unfold put_message, buffer_put_int. rewrite (buffer_len_contents _ Hm).
  destruct (small_append (s_output e) c (put_u32 (Z.of_nat (length (contents msg)))) Hs) as (o1 & -> & Hs1 & Hc1); [change (length (put_u32 _)) with 4%nat; lia|].
  change (length (put_u32 _)) with 4%nat in Hs1.
  cbn [mbind outcome_bind]. destruct (small_append o1 _ (contents msg) Hs1) as (o2 & -> & Hs2 & Hc2); [lia|].
  exists o2. split; [done|]. by rewrite Hc2, Hc1, <- app_assoc.
Qed.

(** When a key dies that was added with a lifetime (0 for none), to an agent with
    the default lifetime [default]. *)
Definition death_of (default time life : Z) : Z :=
  let d := if life =? 0 then 0 else u32 (time + life) in
  if negb (default =? 0) && (d =? 0) then u32 (time + default) else d.
Definition agent_with (a : agent) (id : Identity) : agent :=
  a <| idtable2 := mkIdtab (nentries (idtable2 a) + 1) (idlist (idtable2 a) ++ [id]) |>.

Lemma takes_constraints req time life : wf req → contents req = wire_life life → is_u32 life →
  ∃ req', get_constraints (length (contents req)) time req 0 false = Ok (Some (if life =? 0 then 0 else u32 (time + life), false), req').
Proof.
  intros Hw Hc Hl. rewrite Hc. unfold wire_life in *. destruct (life =? 0).
  - exists req. cbn [get_constraints length]. by rewrite (buffer_len_contents _ Hw), Hc.
  - cbn [length get_constraints]. rewrite (buffer_len_contents _ Hw), Hc. cbn [length]. rewrite (proj2 (Z.eqb_neq _ _)) by lia.
    destruct (takes_char SSH_AGENT_CONSTRAIN_LIFETIME ltac:(done) req (put_u32 life) Hw Hc) as (r1 & -> & Hw1 & Hc1).
    cbn [mbind outcome_bind Z.eqb Pos.eqb SSH_AGENT_CONSTRAIN_LIFETIME].
    destruct (takes_int life Hl r1 [] Hw1) as (r2 & -> & Hw2 & Hc2); [by rewrite app_nil_r|]. cbn [mbind outcome_bind].
    exists r2. change (length (put_u32 life)) with 4%nat. cbn [get_constraints]. by rewrite (buffer_len_contents _ Hw2), Hc2.
Qed.
Lemma agent_adds time a e k comment life : private_ok k → Z.of_nat (length comment) ≤ 1000 → is_u32 life →
  find_identity k (idlist (idtable2 a)) = Ok None → wf (s_request e) → contents (s_request e) = add_body k comment life → s_output e = buffer_init →
  ∃ e', process_add_identity time a e 2 = Ok (agent_with a (mkIdentity k (cstr comment) (death_of (lifetime a) time life) false), e') ∧
    contents (s_output e') = [0; 0; 0; 1; SSH_AGENT_SUCCESS].
Proof.
  intros Hk Hcm Hlife Hnew Hw Hc Ho. unfold add_body in Hc. rewrite <- !app_assoc, app_assoc in Hc. unfold process_add_identity. cbv zeta.
  cbn [idtab_lookup Z.eqb Pos.eqb mbind outcome_bind]. destruct (takes_private k Hk _ _ Hw Hc) as (r1 & -> & Hw1 & Hc1). cbn [mbind outcome_bind].
  assert (blinding_ok k = Ok true) as ->. { destruct Hk as [? ? ? ? ? ? _ _ _ Hbl| |]; [|done..]. unfold blinding_ok. cbn. by rewrite Hbl. }
  cbn [mbind outcome_bind negb]. destruct (takes_string comment ltac:(lia) r1 _ Hw1 Hc1) as (r2 & -> & Hw2 & Hc2). cbn [mbind outcome_bind].
  destruct (takes_constraints r2 time life Hw2 Hc2 Hlife) as (r3 & ->). cbn [mbind outcome_bind].
  unfold store_identity, lookup_identity. cbn [idtab_lookup Z.eqb Pos.eqb mbind outcome_bind]. rewrite Hnew. cbn [mbind outcome_bind].
  destruct (small_status (e <| s_request := r3 |>) 0 true) as (o & -> & Hco); [change (s_output (e <| s_request := r3 |>)) with (s_output e); rewrite Ho; exact small_init|lia|]. cbn [mbind outcome_bind].
  eexists. split; [reflexivity|]. change (s_output (_ <| s_output := o |>)) with o. rewrite Hco.
  change (s_output (e <| s_request := r3 |>)) with (s_output e). by rewrite Ho, (proj2 buffer_init_wf).
Qed.
Lemma public_again k : private_ok k → key_ok (public_part k) ∧ is_plain (public_part k) ∧ public_part (public_part k) = public_part k.
Proof.
  intros Hk. destruct (private_key_ok k Hk) as (Hok & Hp & _). destruct Hk as [e n d iqmp p q Hb Hm _ _|p q g y x Hb|n g pt x He Hx _].
  - rewrite !Forall_cons in Hb. split_and!; [|exact Hp|done]. eapply rsa_key_ok; [done|done|]. split; tauto.
  - rewrite !Forall_cons in Hb. split_and!; [|exact Hp|done]. eapply dsa_key_ok; [done|done|]. split_and!; tauto.
  - split_and!; [|exact Hp|done]. eapply ec_key_ok; [done|done|done|exact He].
Qed.
Lemma find_public k l c d f : private_ok k → find_identity k l = Ok None →
  find_identity (public_part k) (l ++ [mkIdentity k c d f]) = Ok (Some (length l)).
Proof.
  intros Hk. assert (∀ y, key_equal (public_part k) y = key_equal k y) as Hpub by (by destruct Hk).
  assert (key_equal k k = Ok true) as Hself.
  { destruct Hk; cbn; by rewrite ?bn_cmp_refl, ?group_cmp_refl, ?point_cmp_refl. }
  induction l as [|id l IH]; cbn [find_identity app]; rewrite Hpub.
  { cbn [id_key]. rewrite Hself. done. }
  intros E. apply bind_Ok in E as ([|] & -> & E); [done|]. apply bind_Ok in E as (r & Er & [= E]). destruct r; [done|].
  cbn [mbind outcome_bind]. by rewrite (IH Er).
Qed.

(** The agent holds the key of an entry, or does not know the key. *)
Definition unknown (k : Key) (a : agent) : Prop := locked a = false ∧ find_identity k (idlist (idtable2 a)) = Ok None.
Definition holds (id : Identity) (a : agent) : Prop :=
  locked a = false ∧ ∃ l, idlist (idtable2 a) = l ++ [id] ∧ find_identity (id_key id) l = Ok None.
(** Before its death a key is kept, from then on it is gone. *)
Definition alive (death time : Z) : Prop := death = 0 ∨ u32 time < death.
Definition expired (death time : Z) : Prop := death ≠ 0 ∧ death ≤ u32 time.

Lemma find_filter k (P : Identity → Prop) `{!∀ id, Decision (P id)} l : find_identity k l = Ok None → find_identity k (filter P l) = Ok None.
Proof.
  induction l as [|id l IH]; [done|]. cbn [find_identity]. intros E. apply bind_Ok in E as ([|] & E1 & E); [done|].
  apply bind_Ok in E as ([x|] & E2 & E); [done|]. rewrite filter_cons. destruct (decide _); [|by apply IH].
  cbn [find_identity]. rewrite E1. cbn [mbind outcome_bind]. by rewrite IH.
Qed.
Lemma reaper_table2 time a : let a' := (reaper time a).2 in
  locked a' = locked a ∧ lifetime a' = lifetime a ∧
  idlist (idtable2 a') = filter (λ id, id_death id = 0 ∨ u32 time < id_death id) (idlist (idtable2 a)).
Proof.
  cbv zeta. unfold reaper. destruct (reap _ (idlist (idtable1 a)) _ _) as [[l1 n1] d1]. destruct (reap _ (idlist (idtable2 a)) _ _) as [[l2 n2] d2] eqn:E.
  apply reap_spec in E as [-> _]. done.
Qed.
Lemma reaper_unknown k time a : unknown k a → unknown k (reaper time a).2.
Proof. intros [Hl Hf]. destruct (reaper_table2 time a) as (Hl' & _ & Ht). split; [by rewrite Hl'|]. rewrite Ht. by apply find_filter. Qed.
Lemma reaper_holds id time a : alive (id_death id) time → holds id a → holds id (reaper time a).2.
Proof.
  intros Ha (Hl & l & Hi & Hf). destruct (reaper_table2 time a) as (Hl' & _ & Ht). split; [by rewrite Hl'|]. rewrite Ht, Hi, filter_app.
  rewrite filter_cons_True by exact Ha. eexists. split; [done|by apply find_filter].
Qed.
Lemma reaper_expires id time a : expired (id_death id) time → holds id a → unknown (id_key id) (reaper time a).2.
Proof.
  intros [Hne He] (Hl & l & Hi & Hf). destruct (reaper_table2 time a) as (Hl' & _ & Ht). split; [by rewrite Hl'|]. rewrite Ht, Hi, filter_app.
  rewrite filter_cons_False by lia. rewrite app_nil_r. by apply find_filter.
Qed.
Lemma holds_added a id : unknown (id_key id) a → holds id (agent_with a id).
Proof. intros [Hl Hf]. split; [done|]. by exists (idlist (idtable2 a)). Qed.

(** The peculiarities of the peer that reach the agent. *)
Definition sign_compat (datafellows : Z) : Z := if has_bug datafellows SSH_BUG_SIGBLOB then SSH_BUG_SIGBLOB else 0.
Definition sign_flags (datafellows : Z) : Z := if has_bug datafellows SSH_BUG_SIGBLOB then SSH_AGENT_OLD_SIGNATURE else 0.
Definition sign_body (df : Z) (k : Key) (data : list Z) : list Z :=
  Items.wire (Items.String (wire_key k [])) ++ Items.wire (Items.String data) ++ put_u32 (sign_flags df).

Lemma sign_request df a e k data : private_ok k → Z.of_nat (length data) ≤ 100000 →
  wf (s_request e) → contents (s_request e) = sign_body df (public_part k) data →
  ∃ req, process_sign_request2 a e =
    (signature ← (i ← find_identity (public_part k) (idlist (idtable2 a));
                  o ← may_use a 2 i;
                  match o with None => Ok None | Some id => key_sign (sign_compat df) sign_random (id_key id) data end);
     msg ← (match signature with
            | Some s => Items.puts buffer_init [Items.Char SSH2_AGENT_SIGN_RESPONSE; Items.String s]
            | None => buffer_put_char buffer_init SSH_AGENT_FAILURE
            end);
     put_message (e <| s_request := req |>) msg).
Proof.
  intros Hk Hd Hw Hc. destruct (public_again k Hk) as (Hpk & Hpp & Hpub). pose proof (wire_key_length _ Hpk Hpp) as Hbl.
  assert (Z.of_nat (length (wire_key (public_part k) [])) ≤ 256 * 1024) as Hbl' by lia.
  unfold process_sign_request2. destruct (takes_string _ Hbl' _ _ Hw Hc) as (r1 & -> & Hw1 & Hc1).
  cbn [mbind outcome_bind]. destruct (takes_string data ltac:(lia) r1 _ Hw1 Hc1) as (r2 & -> & Hw2 & Hc2). cbn [mbind outcome_bind].
  destruct (takes_int (sign_flags df)) with (b := r2) (k := @nil Z) as (r3 & -> & _); [by unfold sign_flags; destruct (has_bug df _)|done|by rewrite app_nil_r|].
  cbn [mbind outcome_bind]. cbv zeta. exists r3.
  assert ((if negb (Z.land (sign_flags df) SSH_AGENT_OLD_SIGNATURE =? 0) then SSH_BUG_SIGBLOB else 0) = sign_compat df) as ->.
  { unfold sign_flags, sign_compat. by destruct (has_bug df _). }
  unfold key_from_blob. rewrite from_blob_plain, Hpub by done. done.
Qed.
Lemma answer_message e req msg : s_output e = buffer_init → wf msg → Z.of_nat (length (contents msg)) ≤ 200000 →
  ∃ e', put_message (e <| s_request := req |>) msg = Ok e' ∧ contents (s_output e') = frame (contents msg).
Proof.
  intros Ho Hw Hl. destruct (small_message (e <| s_request := req |>) 0 msg) as (o & -> & Hco); [|lia|done|done|].
  { change (s_output (e <| s_request := req |>)) with (s_output e). rewrite Ho. exact small_init. }
  eexists. split; [reflexivity|]. change (s_output (_ <| s_output := o |>)) with o. rewrite Hco.
  change (s_output (e <| s_request := req |>)) with (s_output e). by rewrite Ho, (proj2 buffer_init_wf).
Qed.
Lemma agent_signs df a e k c d data sig : private_ok k → Z.of_nat (length data) ≤ 100000 → holds (mkIdentity k c d false) a →
  key_sign (sign_compat df) sign_random k data = Ok (Some sig) → Z.of_nat (length sig) ≤ 10000 →
  wf (s_request e) → contents (s_request e) = sign_body df (public_part k) data → s_output e = buffer_init →
  ∃ e', process_sign_request2 a e = Ok e' ∧ contents (s_output e') = frame (SSH2_AGENT_SIGN_RESPONSE :: Items.wire (Items.String sig)).
Proof.
  intros Hk Hd (_ & l & Hi & Hnew) Hsig Hsl Hw Hc Ho. destruct (sign_request df a e k data Hk Hd Hw Hc) as (r3 & ->).
  rewrite Hi, (find_public k l c d false Hk Hnew). cbn [mbind outcome_bind may_use]. unfold get_identity. cbn [idtab_lookup Z.eqb Pos.eqb mbind outcome_bind].
  rewrite Hi, list_lookup_middle by done. cbn [deref mbind outcome_bind id_confirm negb id_key]. rewrite Hsig. cbn [mbind outcome_bind].
  destruct (writes_items [Items.Char SSH2_AGENT_SIGN_RESPONSE; Items.String sig]) with (b := buffer_init) (c := 0) as (msg & -> & Hs & Hcm);
    [repeat constructor; cbn; (done || lia)|repeat constructor|exact small_init|..].
  { cbn [map concat Items.wire app length]. rewrite app_nil_r, length_app. change (length (put_u32 _)) with 4%nat. lia. }
  cbn [map concat app] in Hcm. rewrite (proj2 buffer_init_wf), app_nil_r in Hcm. cbn [Items.wire app] in Hcm. cbn [mbind outcome_bind].
  change (Items.wire (Items.String sig)) with (put_u32 (Z.of_nat (length sig)) ++ sig). rewrite <- Hcm. apply answer_message; [done|apply Hs|]. rewrite Hcm. cbn [length]. rewrite length_app. change (length (put_u32 _)) with 4%nat. lia.
Qed.
Lemma agent_refuses df a e k data : private_ok k → Z.of_nat (length data) ≤ 100000 → unknown k a →
  wf (s_request e) → contents (s_request e) = sign_body df (public_part k) data → s_output e = buffer_init →
  ∃ e', process_sign_request2 a e = Ok e' ∧ contents (s_output e') = frame [SSH_AGENT_FAILURE].
Proof.
  intros Hk Hd (_ & Hnew) Hw Hc Ho. destruct (sign_request df a e k data Hk Hd Hw Hc) as (r3 & ->).
  assert (find_identity (public_part k) (idlist (idtable2 a)) = Ok None) as ->.
  { rewrite <- Hnew. assert (∀ y, key_equal (public_part k) y = key_equal k y) as Hpub by (by destruct Hk). clear -Hpub.
    induction (idlist (idtable2 a)) as [|id l IH]; [done|]. cbn [find_identity]. by rewrite Hpub, IH. }
  cbn [mbind outcome_bind may_use]. destruct (writes_append [SSH_AGENT_FAILURE] buffer_init 0 small_init) as (msg & E & Hs & Hcm); [done|].
  unfold buffer_put_char. rewrite u8_small by done. rewrite E. cbn [mbind outcome_bind]. rewrite (proj2 buffer_init_wf) in Hcm. cbn [app] in Hcm.
  rewrite <- Hcm. apply answer_message; [done|apply Hs|]. by rewrite Hcm.
Qed.
(** ** Together *)

Lemma client_signs df k data : private_ok k → Z.of_nat (length data) ≤ 100000 → ∃ w,
  w = frame (SSH2_AGENTC_SIGN_REQUEST :: sign_body df (public_part k) data) ∧
  (∀ peer sig, Z.of_nat (length sig) ≤ 10000 → peer w = frame (SSH2_AGENT_SIGN_RESPONSE :: Items.wire (Items.String sig)) →
    ssh_agent_sign df peer (public_part k) data = Ok (Some sig)) ∧
  (∀ peer, peer w = frame [SSH_AGENT_FAILURE] → ssh_agent_sign df peer (public_part k) data = Ok None).
Proof.
  intros Hk Hd. eexists. split; [reflexivity|]. destruct (public_again k Hk) as (Hpk & Hpp & _). pose proof (wire_key_length _ Hpk Hpp) as Hbl.
  assert (is_u32 (sign_flags df)) as Hf by (unfold sign_flags; by destruct (has_bug df _)).
  destruct (writes_items [Items.Char SSH2_AGENTC_SIGN_REQUEST; Items.String (wire_key (public_part k) []); Items.String data; Items.Int (sign_flags df)])
    with (b := buffer_init) (c := 0) as (msg & Em & Hs & Hcm); [repeat constructor; cbn [Items.ok]; (done || apply Hf || lia)|repeat constructor|exact small_init|..].
  { cbn [map concat Items.wire]. rewrite !length_app. change (length (put_u32 _)) with 4%nat. cbn [length]. lia. }
  rewrite (proj2 buffer_init_wf) in Hcm. cbn [map concat app] in Hcm. rewrite app_nil_r in Hcm.
  split; [intros peer sig Hsl Hpeer|intros peer Hpeer]; unfold ssh_agent_sign; rewrite (proj1 (to_blob_ok _ Hpk Hpp)); cbn [mbind outcome_bind];
    cbv zeta; fold (sign_flags df); rewrite Em; cbn [mbind outcome_bind].
  - destruct (request_reply peer msg _ (SSH2_AGENT_SIGN_RESPONSE :: Items.wire (Items.String sig)) Hs) as (r & -> & Hw & Hc).
    { rewrite Hcm. exact Hpeer. }
    { cbn [Items.wire length]. rewrite length_app. change (length (put_u32 _)) with 4%nat. lia. }
    cbn [mbind outcome_bind]. destruct (takes_char SSH2_AGENT_SIGN_RESPONSE ltac:(done) r _ Hw Hc) as (r1 & -> & Hw1 & Hc1).
    cbn [mbind outcome_bind]. change (agent_failed SSH2_AGENT_SIGN_RESPONSE) with false. cbn [Z.eqb Pos.eqb negb SSH2_AGENT_SIGN_RESPONSE].
    assert (Z.of_nat (length sig) ≤ 256 * 1024) as Hsl' by lia.
    destruct (takes_string sig Hsl' r1 [] Hw1) as (r2 & -> & _); [by rewrite app_nil_r|]. done.
  - destruct (request_reply peer msg _ [SSH_AGENT_FAILURE] Hs) as (r & -> & Hw & Hc); [rewrite Hcm; exact Hpeer|done|].
    cbn [mbind outcome_bind]. destruct (takes_char SSH_AGENT_FAILURE ltac:(done) r [] Hw Hc) as (r1 & -> & _). done.
Qed.

(** A message of the agent's protocol, handled in a round. *)
Lemma dispatch_adds time a fd inp req k comment life : private_ok k → Z.of_nat (length comment) ≤ 1000 → is_u32 life → unknown k a →
  wf req → contents req = add_body k comment life →
  ∃ a' e', dispatch_message time a (mkSocket fd AUTH_CONNECTION inp buffer_init req) (add_type life) = Ok (a', e') ∧
    contents (s_output e') = [0; 0; 0; 1; SSH_AGENT_SUCCESS] ∧ holds (mkIdentity k (cstr comment) (death_of (lifetime a) time life) false) a'.
Proof.
  intros Hk Hcm Hlife Hun Hw Hc. destruct (agent_adds time a (mkSocket fd AUTH_CONNECTION inp buffer_init req) k comment life) as (e' & E & Ho); [done|done|done|apply Hun|done..|].
  eexists _, e'. split_and!; [|exact Ho|by apply holds_added]. unfold dispatch_message. rewrite (proj1 Hun). rewrite <- E. unfold add_type. by destruct (life =? 0).
Qed.
Lemma dispatch_sign_request time a fd inp req e' : locked a = false → process_sign_request2 a (mkSocket fd AUTH_CONNECTION inp buffer_init req) = Ok e' →
  dispatch_message time a (mkSocket fd AUTH_CONNECTION inp buffer_init req) SSH2_AGENTC_SIGN_REQUEST = Ok (a, e').
Proof. intros Hl E. unfold dispatch_message. rewrite Hl. cbn. by rewrite E. Qed.

(** C19: A key that a client adds to an agent signs for another client of the agent
    until its lifetime ends, and not from then on.  The requests go through
    rounds of the agent's main loop, with the reaper before and after [select];
    in whatever pieces and at whatever times they arrive, the agent stores the
    key and says so; the death of the key is counted from the round in which
    the request is complete, with the agent's default lifetime where none is
    given.  As long as all the rounds of a later request are before the death
    (always, without a lifetime), the client gets the signature, which the public
    key verifies; when they are all after it, the client is refused.  This is
    for plain RSA, DSA and ECDSA keys without a confirmation, new to an unlocked
    agent, with data of at most 100 KB and a comment of at most 1000 bytes; other
    clients are connected and silent meanwhile, and other keys may expire. *)
Theorem added_key_signs df uid sv i fd j fd' k comment life data sig :
  private_ok k → Z.of_nat (length comment) ≤ 1000 → is_u32 life → locked (sv_agent sv) = false → lookup_identity (sv_agent sv) k 2 = Ok None →
  sv_sockets sv !! i = Some (fresh_conn fd) → sv_sockets sv !! j = Some (fresh_conn fd') → i ≠ j →
  Z.of_nat (length data) ≤ 100000 → key_sign (sign_compat df) sign_random k data = Ok (Some sig) →
  ∃ w reply w' signed refused,
    (∀ peer, peer w = reply → ssh_add_identity_constrained peer k comment life false = Ok true) ∧
    (∀ peer, peer w' = signed → ssh_agent_sign df peer (public_part k) data = Ok (Some sig)) ∧
    (∀ peer, peer w' = refused → ssh_agent_sign df peer (public_part k) data = Ok None) ∧
    key_verify (sign_compat df) (public_part k) sig data = Ok 1 ∧
    ∀ xs, arrives (λ _, True) xs w → ∃ sv1 e t, arrive uid i xs sv = Ok sv1 ∧ sv_sockets sv1 !! i = Some e ∧ contents (s_output e) = reply ∧
      last xs.*1.*2 = Some t ∧
      let death := death_of (lifetime (sv_agent sv)) t life in
      (∀ ys, arrives (alive death) ys w' →
         ∃ sv2 e2, arrive uid j ys sv1 = Ok sv2 ∧ sv_sockets sv2 !! j = Some e2 ∧ contents (s_output e2) = signed) ∧
      (∀ ys, arrives (expired death) ys w' →
         ∃ sv2 e2, arrive uid j ys sv1 = Ok sv2 ∧ sv_sockets sv2 !! j = Some e2 ∧ contents (s_output e2) = refused).
Proof.
  intros Hk Hcm Hlife Hlock Hnew Hi Hj Hij Hd Hsig. destruct (private_key_ok k Hk) as (Hok & _ & Hmod).
  destruct (sign_verify_ok _ _ _ _ _ Hok Hmod Hsig) as [[_ Hsl] Hver].
  destruct (client_adds k comment life Hk Hcm Hlife) as (msg & c & Hs & Hcs & Hadd). destruct (client_signs df k data Hk Hd) as (w' & -> & Hsgn & Hrfs).
  destruct (public_again k Hk) as (Hpk & Hpp & _). pose proof (wire_key_length _ Hpk Hpp) as Hbl. pose proof (add_body_length k comment life Hk Hcm) as Hal.
  assert (Z.of_nat (length (sign_body df (public_part k) data)) ≤ 250000) as Hbody.
  { unfold sign_body. cbn [Items.wire]. rewrite !length_app. change (length (put_u32 _)) with 4%nat. lia. }
  exists (frame (add_type life :: add_body k comment life)), [0; 0; 0; 1; SSH_AGENT_SUCCESS], (frame (SSH2_AGENTC_SIGN_REQUEST :: sign_body df (public_part k) data)),
    (frame (SSH2_AGENT_SIGN_RESPONSE :: Items.wire (Items.String sig))), (frame [SSH_AGENT_FAILURE]). split_and!; [|by auto|done|done|].
  { intros peer Hp. rewrite Hadd. apply (status_reply peer msg c true Hs). by rewrite Hcs. }
  set (L := lifetime (sv_agent sv)). intros xs Hxs.
  destruct (arrive_frame uid i fd (add_type life) (add_body k comment life) (λ _, True) (λ a, unknown k a ∧ lifetime a = L) (λ a, unknown k a ∧ lifetime a = L)
    (λ t a, holds (mkIdentity k (cstr comment) (death_of L t life) false) a) [0; 0; 0; 1; SSH_AGENT_SUCCESS]) with (xs := xs) (sv := sv)
    as (sv1 & e & t & E1 & Hsk & Ho & _ & Hlast & Hh); [lia|by unfold add_type; destruct (life =? 0)|done| | |done|done|done|].
  { intros t a _ [Hu <-]. split; [by apply reaper_unknown|apply reaper_table2]. }
  { intros t a inp req _ [Hu <-] Hw Hc. by apply dispatch_adds. }
  exists sv1, e, t. assert (sv_sockets sv1 !! j = Some (fresh_conn fd')) as Hj1 by by rewrite Hsk, list_lookup_insert_ne.
  split_and!; [done|rewrite Hsk, list_lookup_insert_eq; [done|by eapply lookup_lt_Some]|done|done|]. cbv zeta. set (d := death_of L t life) in *.
  assert (∀ sv2 e2, sv_sockets sv2 = <[j := e2]> (sv_sockets sv1) → sv_sockets sv2 !! j = Some e2) as Hat.
  { intros sv2 e2 ->. rewrite list_lookup_insert_eq; [done|by eapply lookup_lt_Some]. }
  set (id := mkIdentity k (cstr comment) d false) in *. split; intros ys Hys.
  - destruct (arrive_frame uid j fd' SSH2_AGENTC_SIGN_REQUEST (sign_body df (public_part k) data) (alive d) (holds id) (holds id) (λ _ _, True)
      (frame (SSH2_AGENT_SIGN_RESPONSE :: Items.wire (Items.String sig)))) with (xs := ys) (sv := sv1) as (sv2 & e2 & _ & E2 & Hsk2 & Ho2 & _);
      [done|done|done| | |done|done|done|by eauto 6].
    { intros t' a. by apply (reaper_holds id). }
    intros t' a inp req _ Ha Hw Hc. destruct (agent_signs df a (mkSocket fd' AUTH_CONNECTION inp buffer_init req) k (cstr comment) d data sig)
      as (e' & E & ?); [done..|lia|done|done|done|]. exists a, e'. split_and!; [|done|done]. apply dispatch_sign_request; [apply Ha|done].
  - destruct (arrive_frame uid j fd' SSH2_AGENTC_SIGN_REQUEST (sign_body df (public_part k) data) (expired d) (λ a, holds id a ∨ unknown k a) (unknown k) (λ _ _, True)
      (frame [SSH_AGENT_FAILURE])) with (xs := ys) (sv := sv1) as (sv2 & e2 & _ & E2 & Hsk2 & Ho2 & _);
      [done|done|by right| | |done|done|by left|by eauto 6].
    { intros t' a Hx [Ha|Ha]; [by apply (reaper_expires id)|by apply reaper_unknown]. }
    intros t' a inp req _ Ha Hw Hc. destruct (agent_refuses df a (mkSocket fd' AUTH_CONNECTION inp buffer_init req) k data) as (e' & E & ?); [done..|].
    exists a, e'. split_and!; [|done|done]. apply dispatch_sign_request; [apply Ha|done].
Qed.
End AgentSign.

(** ** A key that is added and used *)

Import ZBignum KeyDemo AgentDemo.
#[local] Opaque BN_MAX.

#[local] Instance toy_compare_ok : @CompareOk z_bignum toy_curve toy_openssl.
Proof. split; intros; cbn; [lia|by rewrite bool_decide_true..]. Qed.

(** The requests arrive byte by byte. *)
Definition bytewise (t : Z) (w : list Z) : list arrival := map (λ c, (t, t, [c])) w.
Lemma bytewise_arrives (T : Z → Prop) t w : T t → arrives T (bytewise t w) w.
Proof.
  intros Ht. split; [split|].
  - induction w as [|c w IH]; [done|]. cbn. by rewrite <- IH at 2.
  - apply Forall_forall. intros p (x & -> & (c & -> & _)%list_elem_of_fmap)%list_elem_of_fmap. split; [done|simpl; lia].
  - apply Forall_forall. intros x (c & -> & _)%list_elem_of_fmap. done.
Qed.
Lemma bytewise_last t w u : last (bytewise t w).*1.*2 = Some u → u = t.
Proof.
  intros Hu. apply last_Some_elem_of in Hu. apply list_elem_of_fmap in Hu as (y & -> & Hy). apply list_elem_of_fmap in Hy as (x & -> & Hx).
  by apply list_elem_of_fmap in Hx as (c & -> & _).
Qed.
Lemma rsa_demo_private : private_ok rsa_demo.
Proof.
  refine (private_rsa (65537 : bn) (2 ^ 800 + 1 : bn) 1 2 3 4 _ _ _ _); [|by vm_compute|done|done]. rewrite !Forall_cons. split_and!; try (apply demo_bn; by vm_compute). constructor.
Qed.

(** A server with two clients: the first adds a key with a lifetime of 600 s at
    the time 10, the second asks for signatures at the times 609 and 610. *)
Definition two_clients : server := mkServer (fresh_agent 0) [listener; fresh_conn 5; fresh_conn 6] 6 0.
Definition answers (o : outcome server) (j : nat) (reply : list Z) : Prop :=
  ∃ sv e, o = Ok sv ∧ sv_sockets sv !! j = Some e ∧ contents (s_output e) = reply.
Lemma added_key_signs_witness : ∃ sig w w' signed refused sv,
  arrive 0 1 (bytewise 10 w) two_clients = Ok sv ∧
  answers (arrive 0 2 (bytewise 609 w') sv) 2 signed ∧
  answers (arrive 0 2 (bytewise 610 w') sv) 2 refused ∧
  ssh_agent_sign 0 (λ _, signed) (public_part rsa_demo) [1; 2; 3] = Ok (Some sig) ∧
  ssh_agent_sign 0 (λ _, refused) (public_part rsa_demo) [1; 2; 3] = Ok None.
Proof.
  assert (∃ sig, key_sign 0 0 rsa_demo [1; 2; 3] = Ok (Some sig)) as [sig Hsig] by (eexists; by vm_compute).
  destruct (added_key_signs 0 0 two_clients 1 5 2 6 rsa_demo (codes "laptop") 600 [1; 2; 3] sig)
    as (w & r & w' & signed & refused & _ & Hs & Hr & _ & Hrun).
  - exact rsa_demo_private.
  - vm_compute. intros Hf. discriminate Hf.
  - by vm_compute.
  - reflexivity.
  - reflexivity.
  - reflexivity.
  - reflexivity.
  - done.
  - vm_compute. intros Hf. discriminate Hf.
  - exact Hsig.
  - destruct (Hrun (bytewise 10 w)) as (sv & e & t & E & _ & _ & Hl & Halive & Hexp); [by apply bytewise_arrives|].
    apply bytewise_last in Hl as ->. exists sig, w, w', signed, refused, sv. split_and!; [exact E| | |by apply Hs|by apply Hr].
    + apply Halive, bytewise_arrives. right. by vm_compute.
    + apply Hexp, bytewise_arrives. by vm_compute.
Defined.
