(* ===== verification/RbTree.v ===== *)
(** * Red-black trees ([openbsd-compat/sys-tree.h])

    The trees that [RB_GENERATE] makes.  A position in a tree is a subtree and
    the list of the nodes above it, so parent pointers are the next element of
    this list, and walking up is going down the list.  The two mirrored halves
    of each loop are one definition with the side as an argument.  Reading a
    field of a null pointer is a [Fault].

    Theorems: the operations keep order, colours and black heights, and never
    read through a null pointer. *)

From Stdlib Require Import Sorted.
From S2P Require Import Prelude.

Inductive rb_color := RB_BLACK | RB_RED.
Inductive rb_side := LEFT | RIGHT.
Inductive rb_tree (A : Type) := RB_NULL | RB_NODE (c : rb_color) (l : rb_tree A) (x : A) (r : rb_tree A).
Arguments RB_NULL {A}.
Arguments RB_NODE {A}.
(** A node above the position: on which side of it the position is, its colour
    and element, and its other subtree. *)
Record rb_frame (A : Type) := mkFrame { fr_side : rb_side; fr_color : rb_color; fr_elm : A; fr_sibling : rb_tree A }.
Arguments mkFrame {A}.
Arguments fr_side {A}.
Arguments fr_color {A}.
Arguments fr_elm {A}.
Arguments fr_sibling {A}.

Section RbTree.
Context {A : Type} (cmp : A → A → Z).
Implicit Types (t : rb_tree A) (p : list (rb_frame A)).

Definition is_red t : bool := match t with RB_NODE RB_RED _ _ _ => true | _ => false end.
Definition paint (c : rb_color) t : rb_tree A := match t with RB_NULL => RB_NULL | RB_NODE _ l x r => RB_NODE c l x r end.
Definition opposite (s : rb_side) : rb_side := match s with LEFT => RIGHT | RIGHT => LEFT end.
(** A node with its subtree on the side [s] and the other one. *)
Definition node (s : rb_side) (c : rb_color) (near : rb_tree A) (x : A) (far : rb_tree A) : rb_tree A :=
  match s with LEFT => RB_NODE c near x far | RIGHT => RB_NODE c far x near end.
Definition plug t (f : rb_frame A) : rb_tree A := node (fr_side f) (fr_color f) t (fr_elm f) (fr_sibling f).
(** The tree around a position. *)
Definition zip t p : rb_tree A := foldl plug t p.

Definition near (s : rb_side) t : rb_tree A :=
  match t with RB_NULL => RB_NULL | RB_NODE _ l _ r => match s with LEFT => l | RIGHT => r end end.

(** [RB_ROTATE_LEFT] is [rotate LEFT]. *)
Definition rotate (s : rb_side) t : outcome (rb_tree A) :=
  match t with
  | RB_NULL => Fault
  | RB_NODE c _ x _ =>
      match near (opposite s) t with
      | RB_NULL => Fault
      | RB_NODE c' _ y _ as tmp => Ok (node s c' (node s c (near s t) x (near s tmp)) y (near (opposite s) tmp))
      end
  end.

(** [elm] is [t]; the result is the tree with its new root. *)
Fixpoint RB_INSERT_COLOR t p : outcome (rb_tree A) :=
  match p with
  | [] => Ok (paint RB_BLACK t)
  | parent :: p1 =>
      match fr_color parent with
      | RB_BLACK => Ok (paint RB_BLACK (zip t p))
      | RB_RED =>
          match p1 with
          | [] => Fault
          | gparent :: p2 =>
              let s := fr_side gparent in
              if is_red (fr_sibling gparent) then
                RB_INSERT_COLOR
                  (node s RB_RED (plug t (mkFrame (fr_side parent) RB_BLACK (fr_elm parent) (fr_sibling parent)))
                     (fr_elm gparent) (paint RB_BLACK (fr_sibling gparent))) p2
              else
                u ← (match s, fr_side parent with
                     | LEFT, RIGHT | RIGHT, LEFT => rotate s (plug t parent)
                     | _, _ => Ok (plug t parent)
                     end);
                v ← rotate (opposite s) (node s RB_RED (paint RB_BLACK u) (fr_elm gparent) (fr_sibling gparent));
                Ok (paint RB_BLACK (zip v p2))
          end
      end
  end.

(** The position at which the search for an element ends, and whether the element
    was found there. *)
Fixpoint rb_locate (elm : A) t p : rb_tree A * list (rb_frame A) :=
  match t with
  | RB_NULL => (RB_NULL, p)
  | RB_NODE c l x r =>
      let comp := cmp elm x in
      if comp <? 0 then rb_locate elm l (mkFrame LEFT c x r :: p)
      else if 0 <? comp then rb_locate elm r (mkFrame RIGHT c x l :: p)
      else (t, p)
  end.
(** [None]: an element with the same key is there. *)
Definition RB_INSERT (elm : A) t : outcome (option (rb_tree A)) :=
  match rb_locate elm t [] with
  | (RB_NULL, p) => t ← RB_INSERT_COLOR (RB_NODE RB_RED RB_NULL elm RB_NULL) p; Ok (Some t)
  | _ => Ok None
  end.
Definition RB_FIND (elm : A) t : option A :=
  match rb_locate elm t [] with (RB_NODE _ _ x _, _) => Some x | _ => None end.

(** The part of a round of [RB_REMOVE_COLOR] after a red sibling has been rotated
    away: [elm] is [t] and [parent] the head of the path. *)
Definition remove_round (up : rb_tree A → list (rb_frame A) → outcome (rb_tree A)) t (parent : rb_frame A) p : outcome (rb_tree A) :=
  let s := fr_side parent in
  match fr_sibling parent with
  | RB_NULL => Fault
  | RB_NODE _ _ y _ as tmp =>
      if negb (is_red (near s tmp)) && negb (is_red (near (opposite s) tmp)) then
        up (node s (fr_color parent) t (fr_elm parent) (paint RB_RED tmp)) p
      else
        tmp ← (if is_red (near (opposite s) tmp) then Ok tmp
               else rotate (opposite s) (node s RB_RED (paint RB_BLACK (near s tmp)) y (near (opposite s) tmp)));
        match tmp with
        | RB_NULL => Fault
        | RB_NODE _ _ y _ =>
            u ← rotate s (node s RB_BLACK t (fr_elm parent)
                  (node s (fr_color parent) (near s tmp) y (paint RB_BLACK (near (opposite s) tmp))));
            Ok (paint RB_BLACK (zip u p))
        end
  end.
(** Every round but the last goes up.  A red sibling is rotated above the parent
    first: the parent becomes red and gets the sibling's nearer subtree. *)
Fixpoint RB_REMOVE_COLOR (fuel : nat) t p : outcome (rb_tree A) :=
  if is_red t then Ok (zip (paint RB_BLACK t) p)
  else match p with
  | [] => Ok (paint RB_BLACK t)
  | parent :: p1 =>
      match fuel with
      | O => NoFuel
      | S fuel =>
          match fr_sibling parent with
          | RB_NULL => Fault
          | RB_NODE RB_BLACK _ _ _ => remove_round (RB_REMOVE_COLOR fuel) t parent p1
          | RB_NODE RB_RED _ y _ as tmp =>
              let s := fr_side parent in
              remove_round (RB_REMOVE_COLOR fuel) t (mkFrame s RB_RED (fr_elm parent) (near s tmp))
                (mkFrame s RB_BLACK y (near (opposite s) tmp) :: p1)
          end
      end
  end.

(** The smallest node of a subtree: colour, element, its right subtree and the
    nodes above it. *)
Fixpoint rb_min (c : rb_color) (l : rb_tree A) (x : A) (r : rb_tree A) p : rb_color * A * rb_tree A * list (rb_frame A) :=
  match l with
  | RB_NULL => (c, x, r, p)
  | RB_NODE c' l' x' r' => rb_min c' l' x' r' (mkFrame LEFT c x r :: p)
  end.
Definition remove_at_position t p : outcome (rb_tree A) :=
  match t with
  | RB_NULL => Fault
  | RB_NODE c l x r =>
      let '(color, child, p) :=
        match l, r with
        | RB_NULL, _ => (c, r, p)
        | _, RB_NULL => (c, l, p)
        | _, RB_NODE c' l' x' r' =>
            let '(color, y, child, above) := rb_min c' l' x' r' [] in
            (color, child, above ++ mkFrame RIGHT c y l :: p)
        end in
      match color with
      | RB_BLACK => RB_REMOVE_COLOR (length p) child p
      | RB_RED => Ok (zip child p)
      end
  end.
(** [elm] is in the tree. *)
Definition RB_REMOVE (elm : A) t : outcome (rb_tree A) := let '(u, p) := rb_locate elm t [] in remove_at_position u p.

(** ** Walking *)

Fixpoint RB_MINMAX (s : rb_side) t : option A :=
  match t with
  | RB_NULL => None
  | RB_NODE _ l x r =>
      match (match s with LEFT => RB_MINMAX s l | RIGHT => RB_MINMAX s r end) with Some y => Some y | None => Some x end
  end.
(** Up until the position is on the side [s] of a node. *)
Fixpoint walk_up (s : rb_side) p : option A :=
  match p with
  | [] => None
  | f :: p =>
      match s, fr_side f with
      | LEFT, LEFT | RIGHT, RIGHT => Some (fr_elm f)
      | _, _ => walk_up s p
      end
  end.
(** [RB_NEXT] is [neighbour RIGHT]: down into the subtree on that side, or up. *)
Definition neighbour (s : rb_side) t p : option A :=
  match t with
  | RB_NULL => None
  | RB_NODE _ _ _ _ =>
      match near s t with
      | RB_NULL => walk_up (opposite s) p
      | u => RB_MINMAX (opposite s) u
      end
  end.
Definition RB_NEXT (elm : A) t : option A := let '(u, p) := rb_locate elm t [] in neighbour RIGHT u p.

(** The elements in the order of [RB_FOREACH]. *)
Fixpoint inorder t : list A := match t with RB_NULL => [] | RB_NODE _ l x r => inorder l ++ x :: inorder r end.

(** A node is changed in place. *)
Definition rb_modify (f : A → A) (elm : A) t : rb_tree A :=
  match rb_locate elm t [] with
  | (RB_NODE c l x r, p) => zip (RB_NODE c l (f x) r) p
  | _ => t
  end.

(** ** Order *)

Fixpoint before p : list A :=
  match p with [] => [] | f :: p => before p ++ match fr_side f with RIGHT => inorder (fr_sibling f) ++ [fr_elm f] | LEFT => [] end end.
Fixpoint after p : list A :=
  match p with [] => [] | f :: p => match fr_side f with LEFT => fr_elm f :: inorder (fr_sibling f) | RIGHT => [] end ++ after p end.
Lemma zip_inorder p : ∀ t, inorder (zip t p) = before p ++ inorder t ++ after p.
Proof.
  induction p as [|f p IH]; intros t; cbn [zip foldl before after]; [by rewrite app_nil_r|]. change (foldl plug (plug t f) p) with (zip (plug t f) p).
  rewrite IH. unfold plug. destruct (fr_side f); cbn [node inorder]; rewrite <- ?app_assoc; cbn [app]; by rewrite <- ?app_assoc.
Qed.
Lemma zip_same t u p : inorder t = inorder u → inorder (zip t p) = inorder (zip u p).
Proof. intros E. by rewrite !zip_inorder, E. Qed.
Lemma paint_inorder c t : inorder (paint c t) = inorder t.
Proof. by destruct t. Qed.
Lemma rotate_node s c a x c' b y d : rotate s (node s c a x (node s c' b y d)) = Ok (node s c' (node s c a x b) y d).
Proof. by destruct s. Qed.
Lemma rotate_node' s c a x c' b y d : rotate (opposite s) (node s c (node s c' a x b) y d) = Ok (node s c' a x (node s c b y d)).
Proof. by destruct s. Qed.
Lemma node_cases s t : t = RB_NULL ∨ ∃ c a x b, t = node s c a x b.
Proof. destruct t as [|c l x r]; [by left|right]. destruct s; [by exists c, l, x, r|by exists c, r, x, l]. Qed.
Lemma near_node s c a x b : near s (node s c a x b) = a ∧ near (opposite s) (node s c a x b) = b.
Proof. by destruct s. Qed.
Lemma paint_node c s c' a x b : paint c (node s c' a x b) = node s c a x b.
Proof. by destruct s. Qed.
Lemma red_node s c a x b : is_red (node s c a x b) = match c with RB_RED => true | RB_BLACK => false end.
Proof. by destruct s, c. Qed.

(** ** Balance *)

(** Every way down passes the same number of black nodes, and no red node has a
    red child. *)
Fixpoint balanced (n : nat) t : Prop :=
  match t with
  | RB_NULL => n = 0%nat
  | RB_NODE RB_RED l _ r => balanced n l ∧ balanced n r ∧ is_red l = false ∧ is_red r = false
  | RB_NODE RB_BLACK l _ r => match n with O => False | S n => balanced n l ∧ balanced n r end
  end.
Definition valid t : Prop := is_red t = false ∧ ∃ n, balanced n t.
Definition black_above p : Prop := match p with f :: _ => fr_color f = RB_BLACK | [] => False end.
(** A subtree of black height [n] may be put at the position. *)
Fixpoint fits (n : nat) p : Prop :=
  match p with
  | [] => True
  | f :: p =>
      balanced n (fr_sibling f) ∧
      match fr_color f with RB_RED => is_red (fr_sibling f) = false ∧ black_above p ∧ fits n p | RB_BLACK => fits (S n) p end
  end.
Lemma balanced_red n s a x b : balanced n (node s RB_RED a x b) ↔ balanced n a ∧ balanced n b ∧ is_red a = false ∧ is_red b = false.
Proof. destruct s; cbn; tauto. Qed.
Lemma balanced_black n s a x b : balanced n (node s RB_BLACK a x b) ↔ ∃ m, n = S m ∧ balanced m a ∧ balanced m b.
Proof. destruct s, n; cbn; (split; [intros H; (done || (eexists; split; [done|tauto]))|intros (m & [= ->] & ?); (done || tauto)]). Qed.
Lemma valid_black n t : balanced n t → valid (paint RB_BLACK t).
Proof.
  destruct t as [|[] l x r]; intros Hb; (split; [done|]); cbn [paint]; [by exists n|by exists n|]. destruct Hb as (? & ? & _).
  exists (S n). by cbn.
Qed.
Lemma zip_valid p : ∀ n t, balanced n t → fits n p → (is_red t = true → black_above p) → valid (zip t p).
Proof.
  induction p as [|f p IH]; intros n t Hb Hf Hr.
  { cbn. split; [|eauto]. destruct (is_red t); [by destruct Hr|done]. }
  cbn [zip foldl]. change (foldl plug (plug t f) p) with (zip (plug t f) p). destruct Hf as [Hs Hf]. destruct f as [s [] x sib]; cbn [fr_color fr_sibling] in *.
  - apply (IH (S n)); [|done|unfold plug; cbn [fr_side fr_color]; by rewrite red_node]. unfold plug. cbn. rewrite balanced_black. eauto.
  - destruct Hf as (Hsr & Hba & Hf). apply (IH n); [|done|done]. unfold plug. cbn. rewrite balanced_red. split_and!; try done.
    destruct (is_red t); [|done]. by specialize (Hr eq_refl).
Qed.
Lemma valid_paint t : valid t → paint RB_BLACK t = t.
Proof. by destruct t as [|[] ? ? ?]; intros []. Qed.

Lemma insert_color_ok n : ∀ p t h, (length p ≤ n)%nat → is_red t = true → balanced h t → fits h p →
  ∃ t', RB_INSERT_COLOR t p = Ok t' ∧ valid t' ∧ inorder t' = inorder (zip t p).
Proof.
  induction n as [|n IH]; intros p t h Hn Hr Hb Hf.
  { destruct p; [|simpl in Hn; lia]. eexists. split; [reflexivity|]. split; [by eapply valid_black|apply paint_inorder]. }
  destruct p as [|[s1 c1 x1 sib1] p1]; [eexists; split; [reflexivity|]; split; [by eapply valid_black|apply paint_inorder]|].
  destruct c1; cbn [RB_INSERT_COLOR fr_color].
  { eexists. split; [reflexivity|]. rewrite valid_paint; [split; [|done]|]; by eapply zip_valid. }
  destruct Hf as (Hs1 & Hsr1 & Hba & Hf). destruct p1 as [|[s c2 x2 sib2] p2]; [done|]. cbn [fr_color fr_sibling fr_side fr_elm black_above] in *. subst c2.
  destruct Hf as [Hs2 Hf]. cbn [fr_color fr_sibling] in *. cbv zeta. destruct (is_red sib2) eqn:Hsr2.
  - destruct (IH p2 (node s RB_RED (plug t (mkFrame s1 RB_BLACK x1 sib1)) x2 (paint RB_BLACK sib2)) (S h)) as (t' & -> & Hv & Hi).
    + simpl in Hn. lia.
    + by rewrite red_node.
    + rewrite balanced_red. unfold plug. cbn. rewrite balanced_black, red_node. destruct sib2 as [|[] ? ? ?]; [done|done|]. cbn in *. naive_solver.
    + done.
    + exists t'. split_and!; [done..|]. rewrite Hi. cbn [zip foldl]. apply zip_same. unfold plug. cbn [fr_side fr_color fr_elm fr_sibling].
      destruct s, s1; cbn [node inorder]; by rewrite ?paint_inorder.
  - assert (∃ a y b,
      (match s, s1 with LEFT, RIGHT | RIGHT, LEFT => rotate s (plug t (mkFrame s1 RB_RED x1 sib1)) | _, _ => Ok (plug t (mkFrame s1 RB_RED x1 sib1)) end)
        = Ok (node s RB_RED a y b) ∧ balanced h a ∧ balanced h b ∧ is_red b = false ∧
      inorder (node s RB_RED a y b) = inorder (plug t (mkFrame s1 RB_RED x1 sib1))) as (a & y & b & -> & Ha & Hb' & Hbr & Hi).
    { destruct t as [|[] l x r]; [done|done|]. destruct Hb as (Hl & Hr' & Hlr & Hrr). unfold plug. cbn [fr_side fr_color fr_elm fr_sibling].
      destruct s, s1; cbn [node rotate near opposite]; eexists _, _, _; (split; [reflexivity|]); cbn [node inorder balanced];
        (split_and!; try done); by rewrite <- ?app_assoc. }
    cbn [mbind outcome_bind]. rewrite paint_node, rotate_node'. cbn [mbind outcome_bind]. eexists. split; [reflexivity|].
    assert (balanced (S h) (node s RB_BLACK a y (node s RB_RED b x2 sib2))) as Hbal.
    { rewrite balanced_black. exists h. rewrite balanced_red. done. }
    rewrite valid_paint; [split|]; [by eapply zip_valid; [..|rewrite red_node]| |by eapply zip_valid; [..|rewrite red_node]].
    cbn [zip foldl]. apply zip_same. unfold plug at 1. cbn [fr_side fr_color fr_elm fr_sibling].
    destruct s; cbn [node inorder] in *; rewrite <- Hi; by rewrite <- ?app_assoc.
Qed.
Fixpoint height t : nat := match t with RB_NULL => 0 | RB_NODE _ l _ r => S (Nat.max (height l) (height r)) end.
(** A search looks at few nodes. *)
Lemma rb_height t : valid t → (height t ≤ 2 * Nat.log2 (S (length (inorder t))))%nat.
Proof.
  assert (∀ t n, balanced n t → (2 ^ n ≤ S (length (inorder t)))%nat ∧ (height t ≤ 2 * n + if is_red t then 1 else 0)%nat) as Hb.
  { induction t0 as [|c l IHl x r IHr]; intros n Hb; [cbn in Hb; subst n; cbn; lia|]. cbn [inorder height is_red]. rewrite length_app. cbn [length].
    destruct c; cbn in Hb.
    - destruct n as [|n]; [done|]. destruct Hb as [Hl Hr]. apply IHl in Hl. apply IHr in Hr. rewrite Nat.pow_succ_r'. destruct (is_red l), (is_red r); lia.
    - destruct Hb as (Hl & Hr & El & Er). apply IHl in Hl. apply IHr in Hr. rewrite El in Hl. rewrite Er in Hr. lia. }
  intros [Hr [n Hn]]. destruct (Hb _ _ Hn) as [Hs Hh]. rewrite Hr in Hh. pose proof (Nat.log2_le_mono _ _ Hs) as Hlog. rewrite Nat.log2_pow2 in Hlog by lia. lia.
Qed.

(** A round with a black sibling: the black height of the position is one more than
    that of the subtree. *)
Lemma remove_round_ok up t parent p n :
  balanced n t → fits (S n) (parent :: p) → is_red (fr_sibling parent) = false → is_red t = false →
  (∀ u, is_red u = true → up u p = Ok (zip (paint RB_BLACK u) p)) →
  (fr_color parent = RB_BLACK → ∀ u, balanced (S n) u → is_red u = false →
     ∃ t', up u p = Ok t' ∧ valid t' ∧ inorder t' = inorder (zip u p)) →
  ∃ t', remove_round up t parent p = Ok t' ∧ valid t' ∧ inorder t' = inorder (zip t (parent :: p)).
Proof.
  destruct parent as [s c x sib]. intros Hb [Hs Hf] Hsr Htr Hred Hblack. cbn [fr_side fr_color fr_elm fr_sibling] in *. unfold remove_round.
  cbn [fr_side fr_color fr_elm fr_sibling]. cbv zeta. destruct (node_cases s sib) as [->|(c' & a & y & b & ->)]; [done|].
  destruct c'; [|by rewrite red_node in Hsr]. apply balanced_black in Hs as (m & [= <-] & Ha & Hb').
  assert (∀ a' z b' u, balanced n a' → balanced (S n) b' → is_red b' = false → inorder u = inorder (node s c (node s RB_BLACK t x a') z b') →
    valid (zip (node s c (node s RB_BLACK t x a') z b') p) ∧
    inorder (paint RB_BLACK (zip (node s c (node s RB_BLACK t x a') z b') p)) = inorder (zip u p)) as Hend.
  { intros a' z b' u Ha' Hb'' Hbr Hu. split; [|rewrite paint_inorder; by apply zip_same]. assert (balanced (S n) (node s RB_BLACK t x a')) by (rewrite balanced_black; eauto).
    destruct c; cbn [fr_color] in Hf.
    - apply (zip_valid p (S (S n))); [rewrite balanced_black; eauto|done|by rewrite red_node].
    - destruct Hf as (_ & Hba & Hf). apply (zip_valid p (S n)); [rewrite balanced_red, red_node; done|done|done]. }
  assert (is_red a = false → is_red b = false →
    ∃ t', up (node s c t x (node s RB_RED a y b)) p = Ok t' ∧ valid t' ∧ inorder t' = inorder (zip (node s c t x (node s RB_BLACK a y b)) p)) as Hboth.
  { intros Har Hbr. assert (∀ c1 c2, inorder (node s c1 t x (node s c2 a y b)) = inorder (node s c t x (node s RB_BLACK a y b))) as Hi by (by destruct s).
    destruct c; cbn [fr_color] in Hf.
    - destruct (Hblack eq_refl (node s RB_BLACK t x (node s RB_RED a y b))) as (t' & -> & Hv & Ht'); [|by rewrite red_node|].
      + rewrite balanced_black. exists n. by rewrite balanced_red.
      + exists t'. split_and!; [done..|]. rewrite Ht'. apply zip_same, Hi.
    - rewrite Hred by by rewrite red_node. rewrite paint_node. eexists. split; [reflexivity|]. split; [|apply zip_same, Hi].
      destruct Hf as (_ & Hba & Hf). apply (zip_valid p (S n)); [|done|by rewrite red_node]. rewrite balanced_black. exists n. by rewrite balanced_red. }
  destruct s; cbn [node near opposite paint] in *; (destruct (is_red b) eqn:Hbr; cbn [andb negb];
    [|destruct (is_red a) eqn:Har; cbn [negb andb]; [|by apply Hboth]]); rewrite ?andb_false_r; cbn [mbind outcome_bind rotate near opposite node].
  1, 3: destruct b as [|[] bl z br]; [done..|]; cbn [paint]; eexists; (split; [reflexivity|]).
  3, 4: destruct a as [|[] al z ar]; [done..|]; cbn [paint mbind outcome_bind near opposite]; eexists; (split; [reflexivity|]).
  - destruct (Hend a y (RB_NODE RB_BLACK bl z br) (RB_NODE c t x (RB_NODE RB_BLACK a y (RB_NODE RB_RED bl z br)))) as [Hv Hi];
      [done|by split; apply Hb'|done|cbn; by rewrite <- app_assoc|]. split; [by rewrite valid_paint|exact Hi].
  - destruct (Hend a y (RB_NODE RB_BLACK bl z br) (RB_NODE c (RB_NODE RB_BLACK (RB_NODE RB_RED bl z br) y a) x t)) as [Hv Hi];
      [done|by split; apply Hb'|done|cbn; rewrite <- !app_assoc; cbn; by rewrite <- ?app_assoc|]. split; [by rewrite valid_paint|exact Hi].
  - destruct Ha as (Hl & Hr & _). destruct (Hend al z (RB_NODE RB_BLACK ar y b) (RB_NODE c t x (RB_NODE RB_BLACK (RB_NODE RB_RED al z ar) y b))) as [Hv Hi];
      [done|done|done|cbn; rewrite <- !app_assoc; cbn; by rewrite <- ?app_assoc|]. split; [by rewrite valid_paint|exact Hi].
  - destruct Ha as (Hl & Hr & _). destruct (Hend ar z (RB_NODE RB_BLACK b y al) (RB_NODE c (RB_NODE RB_BLACK b y (RB_NODE RB_RED al z ar)) x t)) as [Hv Hi];
      [done|done|done|cbn; rewrite <- !app_assoc; cbn; by rewrite <- ?app_assoc|]. split; [by rewrite valid_paint|exact Hi].
Qed.

Lemma remove_color_ok fuel : ∀ p t n, (length p ≤ fuel)%nat → balanced n t → fits (S n) p →
  ∃ t', RB_REMOVE_COLOR fuel t p = Ok t' ∧ valid t' ∧ inorder t' = inorder (zip t p).
Proof.
  assert (∀ fuel u p, is_red u = true → RB_REMOVE_COLOR fuel u p = Ok (zip (paint RB_BLACK u) p)) as Hred.
  { intros [] u p Hu; cbn [RB_REMOVE_COLOR]; by rewrite Hu. }
  induction fuel as [|fuel IH]; intros p t n Hl Hb Hf; destruct (is_red t) eqn:Hr.
  1, 3: rewrite Hred by done; eexists; (split; [reflexivity|]); (split; [|apply zip_same, paint_inorder]);
    (destruct t as [|[] l x r]; [done..|]); destruct Hb as (? & ? & _); by apply (zip_valid p (S n)).
  - destruct p; [|simpl in Hl; lia]. cbn [RB_REMOVE_COLOR]. rewrite Hr. eexists. split; [reflexivity|]. split; [by eapply valid_black|apply paint_inorder].
  - cbn [RB_REMOVE_COLOR]. rewrite Hr. destruct p as [|parent p]; [eexists; split; [reflexivity|]; split; [by eapply valid_black|apply paint_inorder]|].
    destruct (fr_sibling parent) as [|[] l y r] eqn:Es.
    + destruct Hf as [Hs _]. by rewrite Es in Hs.
    + apply (remove_round_ok _ _ _ _ n); [done|done|by rewrite Es|done|intros u Hu; by apply Hred|]. intros Hc u Hu Hur. apply (IH p u (S n)); [simpl in Hl; lia|done|].
      destruct Hf as [_ Hf]. by rewrite Hc in Hf.
    + cbv zeta. destruct parent as [s c x sib]. cbn [fr_sibling fr_side fr_elm] in *. subst sib. destruct Hf as [Hs Hf]. cbn [fr_sibling fr_color] in *.
      destruct Hs as (Hl' & Hr' & Hlr & Hrr). destruct c; [|by destruct Hf].
      destruct (remove_round_ok (RB_REMOVE_COLOR fuel) t (mkFrame s RB_RED x (near s (RB_NODE RB_RED l y r)))
        (mkFrame s RB_BLACK y (near (opposite s) (RB_NODE RB_RED l y r)) :: p) n) as (t' & E & Hv & Hi); [done| | |done|intros u Hu; by apply Hred|done|].
      * by destruct s; cbn.
      * by destruct s.
      * exists t'. split_and!; [exact E|done|]. rewrite Hi. cbn [zip foldl]. apply zip_same. unfold plug. cbn [fr_side fr_color fr_elm fr_sibling].
        destruct s; cbn; rewrite <- ?app_assoc; cbn; by rewrite <- ?app_assoc.
Qed.

(** A position in a valid tree. *)
Definition good t p : Prop := ∃ n, balanced n t ∧ fits n p ∧ (is_red t = true → black_above p).
Lemma good_zip t p : good t p → valid (zip t p).
Proof. intros (n & ? & ? & ?). by eapply zip_valid. Qed.
Lemma good_root t : valid t → good t [].
Proof. intros [Hr [n Hb]]. exists n. split_and!; [done..|by rewrite Hr]. Qed.
Lemma good_down s c a x b p : good (node s c a x b) p → good a (mkFrame s c x b :: p).
Proof.
  intros (n & Hb & Hf & Hr). rewrite red_node in Hr. destruct c.
  - apply balanced_black in Hb as (m & -> & Ha & Hb). exists m. split_and!; [done..|by cbn].
  - apply balanced_red in Hb as (Ha & Hb & Har & Hbr). exists n. split_and!; [done| |by rewrite Har]. cbn. auto.
Qed.
Lemma locate_good elm t : ∀ p, good t p → let '(u, q) := rb_locate elm t p in good u q ∧ zip u q = zip t p.
Proof.
  induction t as [|c l IHl x r IHr]; intros p Hg; cbn [rb_locate]; [done|]. cbv zeta. destruct (cmp elm x <? 0); [|destruct (0 <? cmp elm x); [|done]].
  - exact (IHl _ (good_down LEFT c l x r p Hg)).
  - exact (IHr _ (good_down RIGHT c r x l p Hg)).
Qed.

(** The smallest node of the subtree at a position. *)
Lemma rb_min_spec l : ∀ c x r q rest, good (RB_NODE c l x r) (q ++ rest) →
  let '(col, y, child, above) := rb_min c l x r q in
  good (RB_NODE col RB_NULL y child) (above ++ rest) ∧
  y :: inorder child ++ after above = inorder (RB_NODE c l x r) ++ after q ∧ before above = before q.
Proof.
  induction l as [|c' l' IH x' r' _]; intros c x r q rest Hg; cbn [rb_min]; [done|].
  specialize (IH c' x' r' (mkFrame LEFT c x r :: q) rest (good_down LEFT c _ x r _ Hg)). destruct (rb_min _ _ _ _ _) as [[[col y] child] above].
  destruct IH as (Hg' & Ha & Hb). split_and!; [done| |by rewrite Hb; cbn; rewrite app_nil_r]. rewrite Ha. cbn [after fr_side fr_elm fr_sibling inorder].
  by rewrite <- !app_assoc.
Qed.
Lemma before_app p q : before (p ++ q) = before q ++ before p.
Proof. induction p as [|f p IH]; cbn; [by rewrite app_nil_r|]. by rewrite IH, app_assoc. Qed.
Lemma after_app p q : after (p ++ q) = after p ++ after q.
Proof. induction p as [|f p IH]; cbn; [done|]. by rewrite IH, app_assoc. Qed.
Lemma fits_elm c x y sib p q : ∀ n s, fits n (q ++ mkFrame s c x sib :: p) → fits n (q ++ mkFrame s c y sib :: p).
Proof.
  induction q as [|f q IH]; intros n s Hf; [done|]. cbn [app fits] in *. destruct Hf as [Hs Hf]. split; [done|].
  destruct (fr_color f); [by apply IH|]. destruct Hf as (? & ? & ?). split_and!; [done|by destruct q|by apply IH].
Qed.
Lemma black_elm c x y sib p q s : black_above (q ++ mkFrame s c x sib :: p) → black_above (q ++ mkFrame s c y sib :: p).
Proof. by destruct q. Qed.
(** A node with at most one child is taken out. *)
Lemma splice c x child p : good (RB_NODE c RB_NULL x child) p ∨ good (RB_NODE c child x RB_NULL) p →
  ∃ t', (match c with RB_BLACK => RB_REMOVE_COLOR (length p) child p | RB_RED => Ok (zip child p) end) = Ok t' ∧
    valid t' ∧ inorder t' = inorder (zip child p).
Proof.
  intros Hg. assert (∃ n, balanced n child ∧ match c with RB_BLACK => fits (S n) p | RB_RED => fits n p ∧ is_red child = false end) as (n & Hb & Hf).
  { destruct Hg as [(n & Hb & Hf & _)|(n & Hb & Hf & _)]; destruct c; cbn in Hb; (destruct n as [|n]; [|]); try done; naive_solver. }
  destruct c.
  - by apply (remove_color_ok _ _ _ n).
  - destruct Hf as [Hf Hr]. eexists. split; [reflexivity|]. split; [|done]. apply (zip_valid p n); [done..|by rewrite Hr].
Qed.
Lemma remove_position c l x r p : good (RB_NODE c l x r) p →
  ∃ t', remove_at_position (RB_NODE c l x r) p = Ok t' ∧ valid t' ∧ inorder t' = (before p ++ inorder l) ++ inorder r ++ after p.
Proof.
  intros Hg. cbn [remove_at_position]. destruct l as [|cl ll xl rl].
  { destruct (splice c x r p) as (t' & -> & Hv & Hi); [by left|]. exists t'. split_and!; [done..|]. by rewrite Hi, zip_inorder, app_nil_r. }
  set (l := RB_NODE cl ll xl rl) in *. destruct r as [|cr lr xr rr].
  { destruct (splice c x l p) as (t' & -> & Hv & Hi); [by right|]. exists t'. split_and!; [done..|]. by rewrite Hi, zip_inorder, app_assoc. }
  pose proof (rb_min_spec lr cr xr rr [] (mkFrame RIGHT c x l :: p)) as Hm. cbn [app] in Hm. specialize (Hm (good_down RIGHT c _ x l p Hg)).
  destruct (rb_min cr lr xr rr []) as [[[col y] child] above]. destruct Hm as (Hg' & Ha & Hb). rewrite app_nil_r in Ha.
  destruct (splice col y child (above ++ mkFrame RIGHT c y l :: p)) as (t' & -> & Hv & Hi).
  - left. destruct Hg' as (n & Hbal & Hfit & Hred). exists n. split_and!; [done|by eapply fits_elm|]. intros Hr. by eapply black_elm, Hred.
  - exists t'. split_and!; [done..|]. rewrite Hi, zip_inorder, before_app, after_app, Hb, <- Ha. cbn [before after fr_side fr_elm fr_sibling app].
    rewrite app_nil_r, <- !app_assoc. cbn [app]. by rewrite <- ?app_assoc.
Qed.

(** ** Neighbours *)

Lemma min_head t : RB_MINMAX LEFT t = head (inorder t).
Proof. induction t as [|c l IHl x r _]; [done|]. cbn [RB_MINMAX inorder]. rewrite IHl. by destruct (inorder l). Qed.
Lemma max_last t : RB_MINMAX RIGHT t = last (inorder t).
Proof.
  induction t as [|c l _ x r IHr]; [done|]. cbn [RB_MINMAX inorder]. rewrite IHr, last_app. rewrite last_cons. by destruct (last (inorder r)).
Qed.
Lemma up_head p : walk_up LEFT p = head (after p).
Proof. induction p as [|f p IH]; [done|]. cbn [walk_up after]. by destruct (fr_side f). Qed.
Lemma up_last p : walk_up RIGHT p = last (before p).
Proof.
  induction p as [|f p IH]; [done|]. cbn [walk_up before]. destruct (fr_side f); [by rewrite app_nil_r|]. by rewrite app_assoc, last_snoc.
Qed.
Lemma next_spec c l x r p : neighbour RIGHT (RB_NODE c l x r) p = head (inorder r ++ after p).
Proof.
  cbn [neighbour near opposite]. destruct r as [|c' l' y r'] eqn:E; [apply up_head|]. rewrite <- E at 1. rewrite min_head, E.
  destruct (inorder (RB_NODE c' l' y r')) eqn:E'; [|done]. cbn in E'. by destruct (inorder l').
Qed.
Lemma prev_spec c l x r p : neighbour LEFT (RB_NODE c l x r) p = last (before p ++ inorder l).
Proof.
  cbn [neighbour near opposite]. destruct l as [|c' l' y r'] eqn:E; [by rewrite app_nil_r; apply up_last|]. rewrite <- E at 1. rewrite max_last, E, last_app.
  destruct (last (inorder (RB_NODE c' l' y r'))) eqn:E'; [done|]. apply last_None in E'. cbn in E'. by destruct (inorder l').
Qed.

(** ** Search

    The comparison is that of the keys, for the elements at hand. *)
Section Keys.
Context (key : A → Z).
Definition ordered (l : list A) : Prop := StronglySorted (λ x y, key x < key y) l.
Definition cmp_ok (elm : A) (l : list A) : Prop :=
  Forall (λ y, (cmp elm y < 0 ↔ key elm < key y) ∧ (0 < cmp elm y ↔ key y < key elm)) l.

Lemma ordered_app l k : ordered (l ++ k) ↔ ordered l ∧ ordered k ∧ ∀ x y, x ∈ l → y ∈ k → key x < key y.
Proof.
  unfold ordered. induction l as [|x l IH]; cbn [app].
  - split; [intros; split_and!; [constructor|done|by intros ? ? ?%elem_of_nil]|tauto].
  - split.
    + intros [Hs Hf]%StronglySorted_inv. apply IH in Hs as (H1 & H2 & H3). apply Forall_app in Hf as [Hf1 Hf2]. split_and!; [by constructor|done|].
      intros u v [->|Hu]%elem_of_cons Hv; [by apply (proj1 (Forall_forall _ _) Hf2)|by apply H3].
    + intros ([Hs Hf]%StronglySorted_inv & Hk & Hlk). constructor; [apply IH; split_and!; [done..|]; intros u v Hu Hv; apply Hlk; [by right|done]|].
      apply Forall_app. split; [done|]. apply Forall_forall. intros v Hv. apply Hlk; [left|done].
Qed.
Lemma ordered_cons x l : ordered (x :: l) ↔ ordered l ∧ ∀ y, y ∈ l → key x < key y.
Proof.
  change (x :: l) with ([x] ++ l). rewrite ordered_app. split.
  - intros (_ & ? & Hx). split; [done|]. intros y Hy. apply Hx; [by left|done].
  - intros (? & Hx). split_and!; [repeat constructor|done|]. intros u y ->%list_elem_of_singleton Hy. by apply Hx.
Qed.
(** An element of an ordered list is at one place. *)
Lemma ordered_split l1 x l2 m1 y m2 : ordered (l1 ++ x :: l2) → l1 ++ x :: l2 = m1 ++ y :: m2 → key x = key y → l1 = m1 ∧ x = y ∧ l2 = m2.
Proof.
  revert m1. induction l1 as [|z l1 IH]; intros m1 Ho E Hk; destruct m1 as [|w m1]; cbn [app] in *.
  - by injection E as -> ->.
  - injection E as -> ->. apply ordered_cons in Ho as [_ Ho]. specialize (Ho y). rewrite elem_of_app, elem_of_cons in Ho. specialize (Ho ltac:(auto)). lia.
  - injection E as -> <-. apply ordered_cons in Ho as [_ Ho]. specialize (Ho x). rewrite elem_of_app, elem_of_cons in Ho. specialize (Ho ltac:(auto)). lia.
  - injection E as -> E. apply ordered_cons in Ho as [Ho _]. destruct (IH _ Ho E Hk) as (-> & -> & ->). done.
Qed.

Lemma locate_order elm t : ∀ p, ordered (inorder t) → cmp_ok elm (inorder t) →
  (∀ y, y ∈ before p → key y < key elm) → (∀ y, y ∈ after p → key elm < key y) →
  let '(u, q) := rb_locate elm t p in
  (∀ y, y ∈ before q → key y < key elm) ∧ (∀ y, y ∈ after q → key elm < key y) ∧ before q ++ inorder u ++ after q = before p ++ inorder t ++ after p ∧
  match u with RB_NULL => True | RB_NODE _ _ x _ => key x = key elm end.
Proof.
  induction t as [|c l IHl x r IHr]; intros p Ho Hc Hb Ha; cbn [rb_locate inorder] in *; [done|]. cbv zeta.
  apply ordered_app in Ho as (Hol & Hor & Hlr). apply ordered_cons in Hor as [Hor Hxr]. apply Forall_app in Hc as [Hcl Hcr].
  apply Forall_cons in Hcr as [[Hlt Hgt] Hcr]. destruct (Z.ltb_spec (cmp elm x) 0) as [Hx|Hx]; [|destruct (Z.ltb_spec 0 (cmp elm x)) as [Hx'|Hx']].
  - specialize (IHl (mkFrame LEFT c x r :: p) Hol Hcl). destruct (rb_locate elm l _) as [u q]. cbn [before after fr_side fr_elm fr_sibling] in IHl.
    rewrite app_nil_r in IHl. destruct IHl as (Hb' & Ha' & He & Hu); [done| |split_and!; try done; rewrite He, <- !app_assoc; done].
    intros y Hy. apply elem_of_app in Hy as [[->|Hy]%elem_of_cons|Hy]; [lia| |by apply Ha]. specialize (Hxr y Hy). lia.
  - specialize (IHr (mkFrame RIGHT c x l :: p) Hor Hcr). destruct (rb_locate elm r _) as [u q]. cbn [before after fr_side fr_elm fr_sibling app] in IHr.
    destruct IHr as (Hb' & Ha' & He & Hu); [|done|split_and!; try done; rewrite He, <- !app_assoc; done].
    intros y Hy. rewrite !elem_of_app, list_elem_of_singleton in Hy. destruct Hy as [Hy|[Hy| ->]]; [by apply Hb| |lia].
    specialize (Hlr y x Hy). rewrite elem_of_cons in Hlr. specialize (Hlr ltac:(auto)). lia.
  - split_and!; try done. lia.
Qed.
Lemma locate_at elm t l1 x l2 : valid t → ordered (inorder t) → cmp_ok elm (inorder t) → inorder t = l1 ++ x :: l2 → key x = key elm →
  ∃ c l r p, rb_locate elm t [] = (RB_NODE c l x r, p) ∧ before p ++ inorder l = l1 ∧ inorder r ++ after p = l2 ∧ good (RB_NODE c l x r) p.
Proof.
  intros Hv Ho Hc E Hk. pose proof (locate_order elm t [] Ho Hc) as Hl. pose proof (locate_good elm t [] (good_root t Hv)) as Hg.
  destruct (rb_locate elm t []) as [u p]. cbn [before after app] in Hl. rewrite app_nil_r in Hl.
  destruct Hl as (Hb & Ha & He & Hu); [by intros ? ?%elem_of_nil..|]. destruct u as [|c l y r].
  - assert (x ∈ before p ++ after p) as Hx. { cbn [inorder app] in He. rewrite He, E. apply elem_of_app. right. left. }
    apply elem_of_app in Hx as [Hx|Hx]; [apply Hb in Hx|apply Ha in Hx]; lia.
  - cbn [inorder] in He. rewrite <- app_assoc in He. cbn [app] in He. rewrite app_assoc in He. rewrite E in Ho, He.
    destruct (ordered_split _ _ _ _ _ _ Ho (eq_sym He)) as (-> & -> & ->); [lia|]. exists c, l, r, p. split_and!; try done. apply Hg.
Qed.

Lemma locate_new elm t l1 l2 : valid t → ordered (inorder t) → cmp_ok elm (inorder t) → inorder t = l1 ++ l2 →
  (∀ y, y ∈ l1 → key y < key elm) → (∀ y, y ∈ l2 → key elm < key y) →
  ∃ p, rb_locate elm t [] = (RB_NULL, p) ∧ before p = l1 ∧ after p = l2 ∧ good RB_NULL p.
Proof.
  intros Hv Ho Hc E H1 H2. pose proof (locate_order elm t [] Ho Hc) as Hl. pose proof (locate_good elm t [] (good_root t Hv)) as Hg.
  destruct (rb_locate elm t []) as [u p]. cbn [before after app] in Hl. rewrite app_nil_r in Hl.
  destruct Hl as (Hb & Ha & He & Hu); [by intros ? ?%elem_of_nil..|]. destruct u as [|c l y r].
  - exists p. cbn [inorder app] in He. split; [done|]. assert (before p = l1 ∧ after p = l2) as [-> ->]; [|split_and!; try done; apply Hg].
    rewrite E in He. clear -H1 H2 Hb Ha He. revert l1 H1 He. generalize dependent (before p). intros k Hk. induction k as [|x k IH]; intros l1 H1 He; destruct l1 as [|y l1]; cbn [app] in He.
    + done.
    + specialize (H1 y (list_elem_of_here _ _)). specialize (Ha y). rewrite He in Ha. specialize (Ha (list_elem_of_here _ _)). lia.
    + specialize (Hk x (list_elem_of_here _ _)). specialize (H2 x). rewrite <- He in H2. specialize (H2 (list_elem_of_here _ _)). lia.
    + injection He as -> He. destruct (IH (λ z Hz, Hk z (list_elem_of_further _ _ _ Hz)) l1 (λ z Hz, H1 z (list_elem_of_further _ _ _ Hz)) He) as [-> ->]. done.
  - assert (y ∈ l1 ++ l2) as Hy. { rewrite <- E, <- He. cbn [inorder]. rewrite !elem_of_app, elem_of_cons. auto. }
    apply elem_of_app in Hy as [Hy|Hy]; [apply H1 in Hy|apply H2 in Hy]; lia.
Qed.
Lemma find_new elm t l1 l2 : valid t → ordered (inorder t) → cmp_ok elm (inorder t) → inorder t = l1 ++ l2 →
  (∀ y, y ∈ l1 → key y < key elm) → (∀ y, y ∈ l2 → key elm < key y) → RB_FIND elm t = None.
Proof. intros Hv Ho Hc E H1 H2. destruct (locate_new elm t l1 l2 Hv Ho Hc E H1 H2) as (p & El & _). unfold RB_FIND. by rewrite El. Qed.
Lemma insert_new elm t l1 l2 : valid t → ordered (inorder t) → cmp_ok elm (inorder t) → inorder t = l1 ++ l2 →
  (∀ y, y ∈ l1 → key y < key elm) → (∀ y, y ∈ l2 → key elm < key y) →
  ∃ t', RB_INSERT elm t = Ok (Some t') ∧ valid t' ∧ inorder t' = l1 ++ elm :: l2.
Proof.
  intros Hv Ho Hc E H1 H2. destruct (locate_new elm t l1 l2 Hv Ho Hc E H1 H2) as (p & El & Hb & Ha & (n & Hn & Hf & _)). cbn in Hn. subst n.
  unfold RB_INSERT. rewrite El. destruct (insert_color_ok (length p) p (RB_NODE RB_RED RB_NULL elm RB_NULL) 0) as (t' & -> & Hv' & Hi); [done..|].
  exists t'. split_and!; [done..|]. by rewrite Hi, zip_inorder, Hb, Ha.
Qed.
Lemma remove_one elm t l1 x l2 : valid t → ordered (inorder t) → cmp_ok elm (inorder t) → inorder t = l1 ++ x :: l2 → key x = key elm →
  ∃ t', RB_REMOVE elm t = Ok t' ∧ valid t' ∧ inorder t' = l1 ++ l2.
Proof.
  intros Hv Ho Hc E Hk. destruct (locate_at elm t l1 x l2 Hv Ho Hc E Hk) as (c & l & r & p & El & <- & <- & Hg). unfold RB_REMOVE. rewrite El.
  by apply remove_position.
Qed.
Lemma modify_one f elm t l1 x l2 : valid t → ordered (inorder t) → cmp_ok elm (inorder t) → inorder t = l1 ++ x :: l2 → key x = key elm →
  valid (rb_modify f elm t) ∧ inorder (rb_modify f elm t) = l1 ++ f x :: l2.
Proof.
  intros Hv Ho Hc E Hk. destruct (locate_at elm t l1 x l2 Hv Ho Hc E Hk) as (c & l & r & p & El & <- & <- & Hg). unfold rb_modify. rewrite El. split.
  - destruct Hg as (n & Hb & Hf & Hr). apply (zip_valid p n); [|done|]; destruct c; done.
  - rewrite zip_inorder. cbn [inorder]. by rewrite <- !app_assoc.
Qed.

(** C29: The trees of [sys-tree.h]: in a valid tree ordered by keys, an element whose
    key is new is inserted at its place and one whose key is there is not;
    exactly the elements that are there are found; removal takes out one
    element; the neighbours are those of the order.  The trees stay valid
    (no red node below a red one, equal black heights), and no operation reads
    through a null pointer. *)
Theorem rb_tree_ok elm t : valid t → ordered (inorder t) → cmp_ok elm (inorder t) →
  (∀ l1 l2, inorder t = l1 ++ l2 → (∀ y, y ∈ l1 → key y < key elm) → (∀ y, y ∈ l2 → key elm < key y) →
     RB_FIND elm t = None ∧ ∃ t', RB_INSERT elm t = Ok (Some t') ∧ valid t' ∧ inorder t' = l1 ++ elm :: l2) ∧
  (∀ l1 x l2, inorder t = l1 ++ x :: l2 → key x = key elm →
     RB_FIND elm t = Some x ∧ RB_INSERT elm t = Ok None ∧ RB_NEXT elm t = head l2 ∧
     ∃ t', RB_REMOVE elm t = Ok t' ∧ valid t' ∧ inorder t' = l1 ++ l2).
Proof.
  intros Hv Ho Hc. split.
  - intros l1 l2 E H1 H2. split; [by eapply find_new|by eapply insert_new].
  - intros l1 x l2 E Hk. destruct (locate_at elm t l1 x l2 Hv Ho Hc E Hk) as (c & l & r & p & El & _ & <- & _). split_and!.
    + unfold RB_FIND. by rewrite El.
    + unfold RB_INSERT. by rewrite El.
    + unfold RB_NEXT. by rewrite El, next_spec.
    + by eapply remove_one.
Qed.
End Keys.
End RbTree.

(** ** An example *)

Module RbDemo.
Definition minus (a b : Z) : Z := a - b.
Definition tree : rb_tree Z :=
  foldl (λ t x, match RB_INSERT minus x t with Ok (Some t) => t | _ => t end) RB_NULL [50; 20; 80; 10; 30; 70; 90; 60; 40].
Lemma minus_ok x l : cmp_ok minus id x l.
Proof. apply Forall_forall. intros y _. unfold minus. cbn. lia. Qed.
Lemma tree_valid : valid tree.
Proof. split; [reflexivity|]. exists 2%nat. vm_compute. repeat split. Qed.
Lemma tree_ordered : ordered id (inorder tree).
Proof. assert (inorder tree = [10; 20; 30; 40; 50; 60; 70; 80; 90]) as -> by reflexivity. repeat constructor; done. Qed.
End RbDemo.

Lemma rb_tree_ok_witness : ∃ t1 t2,
  RB_INSERT RbDemo.minus 65 RbDemo.tree = Ok (Some t1) ∧ inorder t1 = [10; 20; 30; 40; 50; 60; 65; 70; 80; 90] ∧
  RB_REMOVE RbDemo.minus 50 RbDemo.tree = Ok t2 ∧ valid t2 ∧ inorder t2 = [10; 20; 30; 40; 60; 70; 80; 90].
Proof.
  destruct (rb_tree_ok RbDemo.minus id 65 RbDemo.tree RbDemo.tree_valid RbDemo.tree_ordered (RbDemo.minus_ok _ _)) as [Hnew _].
  destruct (Hnew [10; 20; 30; 40; 50; 60] [70; 80; 90] eq_refl) as (_ & t1 & E1 & _ & Hi1).
  { intros y Hy. revert y Hy. apply Forall_forall. repeat constructor; done. } { intros y Hy. revert y Hy. apply Forall_forall. repeat constructor; done. }
  destruct (rb_tree_ok RbDemo.minus id 50 RbDemo.tree RbDemo.tree_valid RbDemo.tree_ordered (RbDemo.minus_ok _ _)) as [_ Hrem].
  destruct (Hrem [10; 20; 30; 40] 50 [60; 70; 80; 90] eq_refl eq_refl) as (_ & _ & _ & t2 & E2 & Hv2 & Hi2).
  exists t1, t2. split_and!; [exact E1|exact Hi1|exact E2|exact Hv2|exact Hi2].
Defined.
