(* ===== verification/MmProofs.v ===== *)
(** * The allocator of the shared memory: theorems

    An area refines the list of its allocated blocks: the free tree holds exactly
    the gaps between them. *)

From Stdlib Require Import Sorted.
From S2P Require Import Prelude RbTree MonitorMm.

(** ** Blocks and gaps

    A block is its address and its size. *)

Definition block : Type := Z * Z.
(** Blocks in order, apart from each other, between two addresses. *)
Fixpoint laid (lo : Z) (A : list block) (hi : Z) : Prop :=
  match A with
  | [] => lo ≤ hi
  | (a, n) :: A => lo ≤ a ∧ 0 < n ∧ laid (a + n) A hi
  end.
Definition gap (lo hi : Z) : list block := if lo <? hi then [(lo, hi - lo)] else [].
Fixpoint gaps (lo : Z) (A : list block) (hi : Z) : list block :=
  match A with
  | [] => gap lo hi
  | (a, n) :: A => gap lo a ++ gaps (a + n) A hi
  end.
(** The end of the last block and the begin of the first. *)
Fixpoint last_end (lo : Z) (A : list block) : Z := match A with [] => lo | (a, n) :: A => last_end (a + n) A end.
Definition first_begin (A : list block) (hi : Z) : Z := match A with [] => hi | (a, _) :: _ => a end.

Lemma laid_le lo A hi : laid lo A hi → lo ≤ hi.
Proof. revert lo. induction A as [|[a n] A IH]; intros lo; cbn; [done|]. intros (? & ? & H%IH). lia. Qed.
Lemma laid_weaken lo lo' A hi : lo' ≤ lo → laid lo A hi → laid lo' A hi.
Proof. destruct A as [|[a n] A]; cbn; [lia|]. intros ? (? & ? & ?). split_and!; (done || lia). Qed.
Lemma laid_app lo A B hi : laid lo (A ++ B) hi ↔ laid lo A (last_end lo A) ∧ laid (last_end lo A) B hi.
Proof.
  revert lo. induction A as [|[a n] A IH]; intros lo; cbn; [split; [done|tauto]|]. rewrite IH. tauto.
Qed.
Lemma last_end_le lo A hi : laid lo A hi → lo ≤ last_end lo A ≤ hi.
Proof. revert lo. induction A as [|[a n] A IH]; intros lo; cbn; [lia|]. intros (? & ? & H%IH). lia. Qed.
Lemma gap_cons lo hi : lo < hi → gap lo hi = [(lo, hi - lo)].
Proof. intros. unfold gap. by rewrite (proj2 (Z.ltb_lt _ _)). Qed.
Lemma gap_nil lo hi : hi ≤ lo → gap lo hi = [].
Proof. intros. unfold gap. by rewrite (proj2 (Z.ltb_ge _ _)). Qed.
Lemma gaps_app lo A a n B hi : gaps lo (A ++ (a, n) :: B) hi = gaps lo A a ++ gaps (a + n) B hi.
Proof. revert lo. induction A as [|[x m] A IH]; intros lo; cbn; [done|]. by rewrite IH, app_assoc. Qed.
Lemma gaps_end lo A hi : gaps lo A hi = gaps lo A (last_end lo A) ++ gap (last_end lo A) hi.
Proof.
  revert lo. induction A as [|[x m] A IH]; intros lo; cbn; [by rewrite (gap_nil lo lo)|]. by rewrite IH, app_assoc.
Qed.
Lemma gaps_begin lo A hi : gaps lo A hi = gap lo (first_begin A hi) ++ gaps (first_begin A hi) A hi.
Proof. destruct A as [|[x m] A]; cbn; [rewrite (gap_nil hi hi) by done|rewrite (gap_nil x x) by done]; by rewrite ?app_nil_r. Qed.
Lemma gaps_middle lo A B hi : gaps lo (A ++ B) hi =
  gaps lo A (last_end lo A) ++ gap (last_end lo A) (first_begin B hi) ++ gaps (first_begin B hi) B hi.
Proof.
  destruct B as [|[x m] B].
  - rewrite app_nil_r. cbn. rewrite (gap_nil hi hi), app_nil_r by done. apply gaps_end.
  - rewrite gaps_app, (gaps_end lo A x), <- app_assoc. cbn. by rewrite (gap_nil x x).
Qed.
Lemma gap_elem x lo hi : x ∈ gap lo hi → x = (lo, hi - lo) ∧ lo < hi.
Proof. unfold gap. destruct (Z.ltb_spec lo hi); [intros ->%list_elem_of_singleton; done|by intros ?%elem_of_nil]. Qed.

(** Gaps are between the blocks. *)
Lemma gaps_inside lo A hi x : laid lo A hi → x ∈ gaps lo A hi → lo ≤ x.1 ∧ 0 < x.2 ∧ x.1 + x.2 ≤ hi.
Proof.
  revert lo. induction A as [|[a n] A IH]; intros lo; cbn.
  - intros ? [-> ?]%gap_elem. cbn. lia.
  - intros (? & ? & Hl) [[-> ?]%gap_elem|Hx]%elem_of_app; [apply laid_le in Hl; cbn; lia|]. apply IH in Hx; [|done]. lia.
Qed.
(** Those before the last block end before it begins. *)
Lemma gaps_before lo A x : laid lo A (last_end lo A) → x ∈ gaps lo A (last_end lo A) → x.1 + x.2 < last_end lo A.
Proof.
  revert lo. induction A as [|[a n] A IH]; intros lo; cbn.
  - intros _ [_ ?]%gap_elem. lia.
  - intros (? & ? & Hl) [[-> ?]%gap_elem|Hx]%elem_of_app; [|by apply IH]. pose proof (last_end_le _ _ _ Hl). cbn. lia.
Qed.
Lemma gaps_behind A hi x : laid (first_begin A hi) A hi → x ∈ gaps (first_begin A hi) A hi → first_begin A hi < x.1.
Proof.
  destruct A as [|[a n] A]; cbn.
  - intros _ [_ ?]%gap_elem. lia.
  - intros (? & ? & Hl) [[_ ?]%gap_elem|Hx]%elem_of_app; [lia|]. apply gaps_inside in Hx; [|done]. lia.
Qed.
Lemma laid_begin lo A hi : laid lo A hi → lo ≤ first_begin A hi ≤ hi ∧ laid (first_begin A hi) A hi.
Proof.
  destruct A as [|[a n] A]; cbn; [intros; split; lia|]. intros (? & ? & Hl). pose proof (laid_le _ _ _ Hl). split_and!; (done || lia).
Qed.

(** The place of a gap in the list. *)
Lemma gap_split lo A hi G1 a s G2 : laid lo A hi → gaps lo A hi = G1 ++ (a, s) :: G2 →
  ∃ A1 A2, A = A1 ++ A2 ∧ a = last_end lo A1 ∧ a + s = first_begin A2 hi ∧ 0 < s ∧ G1 = gaps lo A1 a ∧ G2 = gaps (a + s) A2 hi.
Proof.
  revert lo G1. induction A as [|[x m] A IH]; intros lo G1 Hl E; cbn [gaps] in E.
  - exists [], []. cbn. unfold gap in *. destruct (Z.ltb_spec lo hi); [|by destruct G1].
    destruct G1 as [|g [|]]; [|done..]. injection E as <- <- <-. rewrite Z.ltb_irrefl, (proj2 (Z.ltb_ge _ _)) by lia. split_and!; (done || lia).
  - destruct Hl as (Hlo & Hm & Hl). destruct (Z.ltb_spec lo x) as [Hlt|Hge].
    + rewrite gap_cons in E by done. destruct G1 as [|g G1]; cbn [app] in E.
      * injection E as <- <- <-. exists [], ((x, m) :: A). cbn. rewrite (gap_nil lo lo), (gap_nil (lo + (x - lo)) x) by lia.
        split_and!; (done || lia).
      * injection E as <- E. apply IH in E as (A1 & A2 & -> & Ha & Hs & Hs' & -> & ->); [|done]. exists ((x, m) :: A1), A2. cbn. rewrite gap_cons by done. done.
    + rewrite gap_nil in E by done. cbn [app] in E. apply IH in E as (A1 & A2 & -> & Ha & Hs & Hs' & -> & ->); [|done].
      exists ((x, m) :: A1), A2. cbn. by rewrite gap_nil by done.
Qed.

(** ** Trees of blocks *)

Definition proj (x : mm_share) : block := (sh_address x, sh_size x).
(** A tree in the order of its addresses, which are those of user space. *)
Definition address_ok (x : mm_share) : Prop := 0 ≤ sh_address x < 2 ^ 63.
Record tree_ok (t : rb_tree mm_share) : Prop := {
  tk_valid : valid t;
  tk_ordered : ordered sh_address (inorder t);
  tk_range : Forall address_ok (inorder t)
}.

Lemma laid_ordered lo l hi : laid lo (map proj l) hi →
  ordered sh_address l ∧ Forall (λ x, lo ≤ sh_address x ∧ 0 < sh_size x ∧ sh_address x + sh_size x ≤ hi) l.
Proof.
  revert lo. induction l as [|x l IH]; intros lo; cbn; [by repeat constructor|]. intros (Hx & Hn & Hl). destruct (IH _ Hl) as [Ho Hf].
  pose proof (laid_le _ _ _ Hl). rewrite Forall_forall in Hf. split.
  - apply ordered_cons. split; [done|]. intros y Hy. apply Hf in Hy. lia.
  - constructor; [lia|]. apply Forall_forall. intros y Hy. apply Hf in Hy. lia.
Qed.
Lemma tree_laid lo t hi : valid t → 0 ≤ lo → hi < 2 ^ 63 → laid lo (map proj (inorder t)) hi → tree_ok t.
Proof.
  intros Hv Hlo Hhi Hl. destruct (laid_ordered _ _ _ Hl) as [Ho Hf]. split; [done..|]. eapply Forall_impl; [exact Hf|]. unfold address_ok. cbn beta.
  intros x Hx. lia.
Qed.
Lemma ordered_addresses l k : map sh_address l = map sh_address k → ordered sh_address k → ordered sh_address l.
Proof.
  revert k. induction l as [|x l IH]; intros [|y k] E; try done. injection E as Ex E. rewrite !ordered_cons. intros [Ho Hy]. split; [by eapply IH|].
  intros z Hz. rewrite Ex. assert (sh_address z ∈ map sh_address k) as (w & -> & Hw)%list_elem_of_fmap; [|by apply Hy].
  rewrite <- E. apply list_elem_of_fmap. eauto.
Qed.
(** A change that keeps the addresses. *)
Lemma tree_same t u : valid t → map sh_address (inorder t) = map sh_address (inorder u) → tree_ok u → tree_ok t.
Proof.
  intros Hv E [_ Ho Hr]. split; [done|by eapply ordered_addresses|]. unfold address_ok in *. revert E Hr. generalize (inorder t), (inorder u).
  intros l. induction l as [|x l IH]; intros [|y k] E Hr; try done. injection E as Ex E. apply Forall_cons in Hr as [Hy Hr].
  constructor; [by rewrite Ex|by eapply IH].
Qed.
Lemma compare_ok e l : address_ok e → Forall address_ok l → cmp_ok mm_compare sh_address e l.
Proof.
  intros He Hl. eapply Forall_impl; [exact Hl|]. intros y Hy. unfold address_ok in *. cbn beta in Hy. unfold mm_compare. rewrite i64_small by lia. cbv zeta.
  destruct (Z.eqb_spec (sh_address e - sh_address y) 0); [lia|]. destruct (Z.ltb_spec (sh_address e - sh_address y) 0); lia.
Qed.
Lemma block_end lo l hi x : 0 ≤ lo → hi < 2 ^ 63 → laid lo (map proj l) hi → x ∈ l →
  lo ≤ sh_address x ∧ 0 < sh_size x ∧ sh_address x + sh_size x ≤ hi ∧ MM_ADDRESS_END x = sh_address x + sh_size x.
Proof.
  intros Hlo Hhi Hl Hx. destruct (laid_ordered _ _ _ Hl) as [_ Hf]. rewrite Forall_forall in Hf. apply Hf in Hx. unfold MM_ADDRESS_END.
  rewrite u64_small by lia. lia.
Qed.

Section Tree.
Context (t : rb_tree mm_share) (l1 : list mm_share) (x : mm_share) (l2 : list mm_share).
Hypothesis Ht : tree_ok t.
Hypothesis Hi : inorder t = l1 ++ x :: l2.
Lemma tree_member : address_ok x.
Proof. apply (proj1 (Forall_forall _ _) (tk_range _ Ht)). rewrite Hi. apply elem_of_app. right. left. Qed.
(** The position of a block, found by its address. *)
Lemma tree_at e : sh_address e = sh_address x → ∃ c l r p, rb_locate mm_compare e t [] = (RB_NODE c l x r, p) ∧
  before p ++ inorder l = l1 ∧ inorder r ++ after p = l2 ∧ good (RB_NODE c l x r) p.
Proof.
  intros He. pose proof tree_member as Hx. apply (locate_at mm_compare sh_address e t l1 x l2); [apply Ht|apply Ht| |done|done].
  apply compare_ok; [unfold address_ok in *; lia|apply Ht].
Qed.
Lemma tree_find : RB_FIND mm_compare (mkShare 0 (sh_address x) 0) t = Some x.
Proof. destruct (tree_at (mkShare 0 (sh_address x) 0)) as (c & l & r & p & E & _); [done|]. unfold RB_FIND. by rewrite E. Qed.
Lemma tree_remove : ∃ t', RB_REMOVE mm_compare x t = Ok t' ∧ valid t' ∧ inorder t' = l1 ++ l2.
Proof.
  destruct (tree_at x) as (c & l & r & p & E & H1 & H2 & Hg); [done|]. unfold RB_REMOVE. rewrite E. rewrite <- H1, <- H2. apply (remove_position mm_compare c l x r p Hg).
Qed.
Lemma tree_modify f : ∃ t', rb_modify mm_compare f x t = t' ∧ valid t' ∧ inorder t' = l1 ++ f x :: l2.
Proof.
  eexists. split; [reflexivity|]. apply (modify_one mm_compare sh_address f x t l1 x l2); [apply Ht|apply Ht| |done|done].
  apply compare_ok; [exact tree_member|apply Ht].
Qed.
Lemma tree_next : RB_NEXT mm_compare x t = head l2.
Proof. destruct (tree_at x) as (c & l & r & p & E & _ & <- & _); [done|]. unfold RB_NEXT. by rewrite E, next_spec. Qed.
Lemma tree_prev : prev_entry x t = last l1.
Proof. destruct (tree_at x) as (c & l & r & p & E & <- & _ & _); [done|]. unfold prev_entry. by rewrite E, prev_spec. Qed.
End Tree.
Lemma tree_insert t l1 x l2 : tree_ok t → inorder t = l1 ++ l2 → address_ok x →
  (∀ y, y ∈ l1 → sh_address y < sh_address x) → (∀ y, y ∈ l2 → sh_address x < sh_address y) →
  ∃ t', RB_INSERT mm_compare x t = Ok (Some t') ∧ valid t' ∧ inorder t' = l1 ++ x :: l2.
Proof.
  intros Ht Hi Hx H1 H2. apply (insert_new mm_compare sh_address x t l1 l2); [apply Ht|apply Ht| |done|done|done]. apply compare_ok; [done|apply Ht].
Qed.
(** An address without a block. *)
Lemma find_absent t a : tree_ok t → 0 ≤ a < 2 ^ 63 → (∀ x, x ∈ inorder t → a ≠ sh_address x) → RB_FIND mm_compare (mkShare 0 a 0) t = None.
Proof.
  intros Ht Ha Hno. unfold RB_FIND. pose proof (locate_order mm_compare sh_address (mkShare 0 a 0) t [] (tk_ordered _ Ht)) as Hl.
  destruct (rb_locate mm_compare (mkShare 0 a 0) t []) as [[|c l x r] p]; [done|]. cbn [before after app] in Hl. rewrite app_nil_r in Hl.
  destruct Hl as (_ & _ & He & Hk); [apply compare_ok; [done|apply Ht]|by intros ? ?%elem_of_nil..|]. exfalso. apply (Hno x); [|done].
  rewrite <- He. cbn [inorder]. rewrite !elem_of_app, elem_of_cons. auto.
Qed.

(** ** One area *)

Record area_ok (mm : mm_master) (A : list block) : Prop := {
  ak_free : valid (rb_free mm);
  ak_allocated : valid (rb_allocated mm);
  ak_range : 0 ≤ mm_address mm ∧ mm_address mm + mm_size mm < 2 ^ 63;
  ak_laid : laid (mm_address mm) A (mm_address mm + mm_size mm);
  ak_blocks : map proj (inorder (rb_allocated mm)) = A;
  ak_gaps : map proj (inorder (rb_free mm)) = gaps (mm_address mm) A (mm_address mm + mm_size mm)
}.
Lemma gaps_laid lo A hi : laid lo A hi → laid lo (gaps lo A hi) hi.
Proof.
  assert (∀ lo x B hi, lo ≤ x → laid x B hi → laid lo (gap lo x ++ B) hi) as Hg.
  { intros l x B h Hx HB. unfold gap. destruct (Z.ltb_spec l x); cbn.
    - split_and!; [lia..|]. by replace (l + (x - l)) with x by lia.
    - by replace l with x by lia. }
  revert lo. induction A as [|[a n] A IH]; intros lo; cbn.
  - intros Hl. rewrite <- (app_nil_r (gap lo hi)). apply Hg; cbn; lia.
  - intros (Ha & Hn & Hl). apply Hg; [done|]. apply (laid_weaken (a + n)); [lia|]. by apply IH.
Qed.
Lemma free_tree mm A : area_ok mm A → tree_ok (rb_free mm).
Proof. intros []. eapply tree_laid; [done|apply ak_range0|apply ak_range0|]. rewrite ak_gaps0. by apply gaps_laid. Qed.
Lemma allocated_tree mm A : area_ok mm A → tree_ok (rb_allocated mm).
Proof. intros []. eapply tree_laid; [done|apply ak_range0|apply ak_range0|]. by rewrite ak_blocks0. Qed.

(** The structures of the trees, by their addresses. *)
Definition structs (free allocated : rb_tree mm_share) : list Z := map sh_self (inorder free ++ inorder allocated).
(** Giving back structures, in order. *)
Definition release_at (fuel : nat) (m : option mm_master) (x : mm_share) : outcome (option mm_master) :=
  match m with None => Ok None | Some m => m ← free_at fuel m (sh_self x); Ok (Some m) end.
Fixpoint release_all (fuel : nat) (m : option mm_master) (xs : list mm_share) : outcome (option mm_master) :=
  match xs with [] => Ok m | x :: xs => m ← release_at fuel m x; release_all fuel m xs end.

Lemma map_proj_gap F lo hi : map proj F = gap lo hi → (hi ≤ lo ∧ F = []) ∨ (lo < hi ∧ ∃ p, F = [p] ∧ proj p = (lo, hi - lo)).
Proof.
  unfold gap. destruct (Z.ltb_spec lo hi); intros E; [right|left; by apply map_eq_nil in E]. split; [done|].
  destruct F as [|p [|]]; try done. injection E as E1 E2. exists p. split; [done|]. unfold proj. congruence.
Qed.
Lemma map_app_split {B C} (f : B → C) l k1 k2 : map f l = k1 ++ k2 → ∃ l1 l2, l = l1 ++ l2 ∧ map f l1 = k1 ∧ map f l2 = k2.
Proof. intros E. apply map_eq_app in E as (l1 & l2 & -> & <- & <-). eauto. Qed.

(** Merging: the blocks before and behind, the gap next to the block or none. *)
Section Merge.
Context (lo hi : Z) (fuel : nat) (m : option mm_master).
Hypothesis Hlo : 0 ≤ lo.
Hypothesis Hhi : hi < 2 ^ 63.

Lemma merge_back_ok F1 Fp x F e a free :
  valid free → inorder free = (F1 ++ Fp) ++ x :: F → laid lo (map proj (inorder free)) hi → map proj Fp = gap e a → sh_address x = a → e ≤ a →
  (∀ y, y ∈ F1 → sh_address y + sh_size y < e) →
  ∃ y free' xs, merge_back (release_at fuel) x free m = (m ← release_all fuel m xs; Ok (y, free', m)) ∧ valid free' ∧
    inorder free' = F1 ++ y :: F ∧ proj y = (e, a + sh_size x - e) ∧ map sh_self (Fp ++ [x]) ≡ₚ map sh_self (xs ++ [y]).
Proof.
  intros Hv Hi Hl Hp Ha He Hbefore. pose proof (tree_laid lo free hi Hv Hlo Hhi Hl) as Ht.
  assert (∀ y, y ∈ inorder free → lo ≤ sh_address y ∧ 0 < sh_size y ∧ sh_address y + sh_size y ≤ hi ∧ MM_ADDRESS_END y = sh_address y + sh_size y) as Hend.
  { intros y Hy. by apply (block_end lo (inorder free) hi). }
  unfold merge_back. rewrite (tree_prev free (F1 ++ Fp) x F Ht Hi). destruct (map_proj_gap _ _ _ Hp) as [[Hle ->]|(Hlt & p & -> & Ep)].
  - rewrite app_nil_r in *. exists x, free, []. split_and!; try done; [|unfold proj; f_equal; lia].
    destruct (last F1) as [y|] eqn:El; [|done]. apply last_Some in El as [l ->].
    assert (y ∈ l ++ [y]) as Hy by (apply elem_of_app; right; left). specialize (Hbefore y Hy).
    destruct (Hend y) as (_ & _ & _ & ->); [rewrite Hi; by apply elem_of_app; left|].
    rewrite (proj2 (Z.ltb_ge _ _)), (proj2 (Z.eqb_neq _ _)) by lia. done.
  - rewrite last_snoc. cbv beta iota. injection Ep as Ep1 Ep2.
    destruct (Hend p) as (Hp1 & Hp2 & Hp3 & ->); [rewrite Hi; cbn [app]; rewrite ?elem_of_app, ?elem_of_cons; auto|].
    destruct (Hend x) as (Hx1 & Hx2 & Hx3 & _); [rewrite Hi; cbn [app]; rewrite ?elem_of_app, ?elem_of_cons; auto|].
    rewrite (proj2 (Z.ltb_ge _ _)), (proj2 (Z.eqb_eq _ _)) by lia. rewrite <- app_assoc in Hi.
    destruct (tree_modify free F1 p (x :: F) Ht Hi (grow (sh_size x))) as (f1 & -> & Hv1 & Hi1).
    assert (tree_ok f1) as Ht1 by (eapply tree_same; [done| |exact Ht]; rewrite Hi1, Hi, !map_app; done).
    change (F1 ++ grow (sh_size x) p :: x :: F) with (F1 ++ [grow (sh_size x) p] ++ x :: F) in Hi1. rewrite app_assoc in Hi1.
    destruct (tree_remove f1 _ x F Ht1 Hi1) as (f2 & -> & Hv2 & Hi2). cbn [mbind outcome_bind].
    exists (grow (sh_size x) p), f2, [x]. split_and!; try done.
    + cbn [release_all]. destruct (release_at fuel m x); done.
    + by rewrite Hi2, <- app_assoc.
    + unfold proj, grow. cbn. rewrite u64_small by lia. f_equal; lia.
    + cbn. by constructor 3.
Qed.
Lemma merge_forward_ok F1 y Fn F2 b e free :
  valid free → inorder free = F1 ++ y :: Fn ++ F2 → laid lo (map proj (inorder free)) hi → map proj Fn = gap b e → sh_address y + sh_size y = b → b ≤ e →
  (∀ z, z ∈ F2 → e < sh_address z) →
  ∃ y' free' xs, (∀ m, merge_forward (release_at fuel) y free m = (m ← release_all fuel m xs; Ok (free', m))) ∧ valid free' ∧
    inorder free' = F1 ++ y' :: F2 ∧ proj y' = (sh_address y, e - sh_address y) ∧ map sh_self (y :: Fn) ≡ₚ map sh_self (xs ++ [y']).
Proof.
  intros Hv Hi Hl Hp Ha He Hbehind. pose proof (tree_laid lo free hi Hv Hlo Hhi Hl) as Ht.
  assert (∀ y, y ∈ inorder free → lo ≤ sh_address y ∧ 0 < sh_size y ∧ sh_address y + sh_size y ≤ hi ∧ MM_ADDRESS_END y = sh_address y + sh_size y) as Hend.
  { intros z Hz. by apply (block_end lo (inorder free) hi). }
  destruct (Hend y) as (Hy1 & Hy2 & Hy3 & Hy4); [rewrite Hi; cbn [app]; rewrite ?elem_of_app, ?elem_of_cons; auto|].
  pose proof (tree_next free F1 y (Fn ++ F2) Ht Hi) as Hnext. destruct (map_proj_gap _ _ _ Hp) as [[Hle ->]|(Hlt & p & -> & Ep)]; cbn [app head] in *.
  - exists y, free, []. split_and!; try done; [|unfold proj; f_equal; lia]. intros m'. unfold merge_forward. rewrite Hnext, Hy4.
    destruct F2 as [|z F2]; [done|]. cbn [head].
    specialize (Hbehind z (list_elem_of_here _ _)). rewrite (proj2 (Z.ltb_ge _ _)), (proj2 (Z.eqb_neq _ _)) by lia. done.
  - injection Ep as Ep1 Ep2. destruct (Hend p) as (Hp1 & Hp2 & Hp3 & _); [rewrite Hi; rewrite ?elem_of_app, ?elem_of_cons; auto|].
    destruct (tree_modify free F1 y (p :: F2) Ht Hi (grow (sh_size p))) as (f1 & Ef1 & Hv1 & Hi1).
    assert (tree_ok f1) as Ht1 by (eapply tree_same; [done| |exact Ht]; rewrite Hi1, Hi, !map_app; done).
    change (F1 ++ grow (sh_size p) y :: p :: F2) with (F1 ++ [grow (sh_size p) y] ++ p :: F2) in Hi1. rewrite app_assoc in Hi1.
    destruct (tree_remove f1 _ p F2 Ht1 Hi1) as (f2 & Ef2 & Hv2 & Hi2).
    exists (grow (sh_size p) y), f2, [p]. split_and!; try done.
    + intros m'. unfold merge_forward. rewrite Hnext, Hy4, (proj2 (Z.ltb_ge _ _)), (proj2 (Z.eqb_eq _ _)) by lia. cbn [negb].
      rewrite Ef1, Ef2. cbn [mbind outcome_bind release_all]. destruct (release_at fuel m' p); done.
    + by rewrite Hi2, <- app_assoc.
    + unfold proj, grow. cbn. rewrite u64_small by lia. f_equal; lia.
    + cbn. by constructor 3.
Qed.
End Merge.

Lemma laid_join lo B a n C hi : laid lo B a → 0 < n → laid (a + n) C hi → laid lo (B ++ (a, n) :: C) hi.
Proof. revert lo. induction B as [|[x m] B IH]; intros lo; cbn; [intros; split_and!; (done || lia)|]. intros (? & ? & ?) ? ?. split_and!; [done..|]. by apply IH. Qed.
Lemma laid_out lo A1 a n A2 hi : laid lo (A1 ++ (a, n) :: A2) hi → laid lo A1 (last_end lo A1) ∧ lo ≤ last_end lo A1 ≤ a ∧ 0 < n ∧ laid (a + n) A2 hi.
Proof. rewrite laid_app. cbn. intros (H1 & ? & ? & ?). pose proof (last_end_le _ _ _ H1). done || (split_and!; (done || lia)). Qed.
Lemma laid_skip lo A1 a n A2 hi : laid lo (A1 ++ (a, n) :: A2) hi → laid lo (A1 ++ A2) hi.
Proof. intros (H1 & ? & ? & ?)%laid_out. apply laid_app. split; [done|]. apply (laid_weaken (a + n)); [lia|done]. Qed.
Lemma laid_upto lo A hi' : laid lo A (last_end lo A) → last_end lo A ≤ hi' → laid lo A hi'.
Proof. revert lo. induction A as [|[x m] A IH]; intros lo; cbn; [done|]. intros (? & ? & ?) ?. split_and!; [done..|]. by apply IH. Qed.

Lemma perm_merge (f1 fp fn f2 l1 l2 x1 x2 : list Z) (x y y' : Z) : fp ++ [x] ≡ₚ x1 ++ [y] → y :: fn ≡ₚ x2 ++ [y'] →
  ((f1 ++ fp) ++ fn ++ f2) ++ l1 ++ x :: l2 ≡ₚ (x1 ++ x2) ++ (f1 ++ y' :: f2) ++ l1 ++ l2.
Proof.
  rewrite !(Permutation_count_occ Z.eq_dec). intros H1 H2 z. specialize (H1 z). specialize (H2 z). change (y :: fn) with ([y] ++ fn) in H2.
  change (x :: l2) with ([x] ++ l2). change (y' :: f2) with ([y'] ++ f2). rewrite !count_occ_app in *. lia.
Qed.
Lemma release_app fuel m xs ys : release_all fuel m (xs ++ ys) = (m ← release_all fuel m xs; release_all fuel m ys).
Proof. revert m. induction xs as [|x xs IH]; intros m; cbn [release_all app]; [done|]. destruct (release_at fuel m x); cbn; done || apply IH. Qed.

(** An allocated block is given back: its area merges with the gaps next to it. *)
Lemma free_level fuel mm A1 a n A2 : area_ok mm (A1 ++ (a, n) :: A2) →
  ∃ free allocated xs,
    (∀ m, area_ok (mkMm (mm_self mm) free allocated (mm_address mm) (mm_size mm) m) (A1 ++ A2)) ∧
    structs (rb_free mm) (rb_allocated mm) ≡ₚ map sh_self xs ++ structs free allocated ∧
    free_at (S fuel) mm a = (m ← release_all fuel (mmalloc mm) xs; Ok (mkMm (mm_self mm) free allocated (mm_address mm) (mm_size mm) m)).
Proof.
  intros Hok. pose proof (free_tree _ _ Hok) as Htf. pose proof (allocated_tree _ _ Hok) as Hta. destruct Hok as [Hvf Hva [Hlo Hhi] Hlaid Hblocks Hgaps].
  set (lo := mm_address mm) in *. set (hi := lo + mm_size mm) in *.
  apply map_app_split in Hblocks as (L1 & L2' & Hal & HL1 & HL2). destruct L2' as [|x L2]; [done|]. injection HL2 as Hxa Hxn HL2.
  destruct (laid_out _ _ _ _ _ _ Hlaid) as (Hl1 & He & Hn & Hl2). destruct (laid_begin _ _ _ Hl2) as [Hb Hl2'].
  pose proof (laid_skip _ _ _ _ _ _ Hlaid) as Hskip. set (e := last_end lo A1) in *. set (b := first_begin A2 hi) in *.
  assert (laid lo (gaps lo A1 a) a) as Hg1 by (apply gaps_laid, (laid_upto lo A1 a Hl1); lia).
  assert (laid (a + n) (gaps (a + n) A2 hi) hi) as Hg2 by by apply gaps_laid.
  rewrite gaps_app in Hgaps. pose proof (laid_join _ _ _ _ _ _ Hg1 Hn Hg2) as Hall.
  apply map_app_split in Hgaps as (FL & FR & Hfr & HFL & HFR). pose proof HFL as HFL'. pose proof HFR as HFR'.
  rewrite gaps_end in HFL'. fold e in HFL'. rewrite gaps_begin in HFR'. fold b in HFR'.
  apply map_app_split in HFL' as (F1 & Fp & -> & HF1 & HFp). apply map_app_split in HFR' as (Fn & F2 & -> & HFn & HF2).
  cbn [free_at]. cbv zeta. assert (mkShare 0 a 0 = mkShare 0 (sh_address x) 0) as -> by by rewrite Hxa.
  rewrite (tree_find _ _ _ _ Hta Hal). unfold debug_fill. fold lo hi. rewrite (proj2 (Z.leb_le _ _)), (proj2 (Z.leb_le _ _)) by lia. cbn [andb mbind outcome_bind].
  destruct (tree_remove _ _ _ _ Hta Hal) as (al' & -> & Hval & Hial). cbn [mbind outcome_bind].
  destruct (tree_insert _ _ x _ Htf Hfr) as (f0 & -> & Hv0 & Hi0).
  { unfold address_ok. lia. }
  { intros y Hy. assert (proj y ∈ gaps lo A1 a) as Hin by (rewrite <- HFL; apply list_elem_of_fmap; eauto).
    apply gaps_inside in Hin; [|apply (laid_upto lo A1 a Hl1); lia]. cbn in Hin. lia. }
  { intros y Hy. assert (proj y ∈ gaps (a + n) A2 hi) as Hin by (rewrite <- HFR; apply list_elem_of_fmap; eauto).
    apply gaps_inside in Hin; [|done]. cbn in Hin. lia. }
  cbn [mbind outcome_bind]. fold (release_at fuel).
  destruct (merge_back_ok lo hi fuel (mmalloc mm) Hlo Hhi F1 Fp x (Fn ++ F2) e a f0) as (y & f1 & xs1 & -> & Hv1 & Hi1 & Hy & Hperm1); try done; [|lia| |].
  { rewrite Hi0, map_app. cbn [map]. rewrite HFL, HFR. unfold proj. by rewrite Hxa, Hxn. }
  { intros z Hz. assert (proj z ∈ gaps lo A1 e) as Hin by (rewrite <- HF1; apply list_elem_of_fmap; eauto). by apply gaps_before in Hin. }
  rewrite Hxn in Hy. injection Hy as Hya Hyn.
  destruct (merge_forward_ok lo hi fuel Hlo Hhi F1 y Fn F2 (a + n) b f1) as (y' & f2 & xs2 & Hfwd & Hv2 & Hi2 & Hy' & Hperm2); try done; [|lia|lia| |].
  { rewrite Hi1, map_app. cbn [map]. rewrite HF1, HFR. unfold proj. rewrite Hya, Hyn. apply laid_join; [by apply gaps_laid|lia|].
    replace (e + (a + n - e)) with (a + n) by lia. done. }
  { intros z Hz. assert (proj z ∈ gaps b A2 hi) as Hin by (rewrite <- HF2; apply list_elem_of_fmap; eauto). by apply gaps_behind in Hin. }
  exists f2, al', (xs1 ++ xs2). split_and!.
  - intros m. split; cbn [rb_free rb_allocated mm_address mm_size]; try done.
    + rewrite Hial, map_app. by rewrite HL1, HL2.
    + fold hi. rewrite Hi2, map_app. cbn [map]. rewrite HF1, HF2, Hy', gaps_middle. fold e b. rewrite (gap_cons e b), Hya by lia. done.
  - unfold structs. rewrite Hfr, Hal, Hi2, Hial, !map_app. cbn [map]. rewrite map_app in Hperm1, Hperm2. cbn [map] in Hperm1, Hperm2.
    rewrite map_app in Hperm1. cbn [map] in Hperm1. by eapply perm_merge.
  - rewrite release_app. destruct (release_all fuel (mmalloc mm) xs1) as [m| | | | |]; cbn [mbind outcome_bind]; try done. rewrite Hfwd.
    by destruct (release_all fuel m xs2).
Qed.

(** ** Allocation *)

(** The size that is taken: a multiple of the unit. *)
Definition taken (size : Z) : Z := u64 (u64 (size + (MM_MINSIZE - 1)) / MM_MINSIZE * MM_MINSIZE).
Lemma taken_bounds size : 0 < size ≤ SIZE_T_MAX - MM_MINSIZE + 1 → size ≤ taken size < size + MM_MINSIZE ∧ (MM_MINSIZE | taken size).
Proof.
  unfold SIZE_T_MAX, taken, MM_MINSIZE. intros Hs. rewrite (u64_small (size + _)) by lia. pose proof (Z.div_mod (size + (128 - 1)) 128 ltac:(lia)) as Hd.
  pose proof (Z.mod_pos_bound (size + (128 - 1)) 128 ltac:(lia)). rewrite u64_small by lia. split; [lia|]. apply Z.divide_factor_r.
Qed.

Lemma perm_new (g l1 l2 : list Z) (y : Z) : y :: g ++ l1 ++ l2 ≡ₚ g ++ l1 ++ y :: l2.
Proof. rewrite !app_assoc. apply Permutation_middle. Qed.
Lemma perm_take (g1 g2 l1 l2 : list Z) (x y : Z) : y :: (g1 ++ x :: g2) ++ l1 ++ l2 ≡ₚ [x] ++ (g1 ++ g2) ++ l1 ++ y :: l2.
Proof.
  rewrite (Permutation_count_occ Z.eq_dec). intros z. change (x :: g2) with ([x] ++ g2). change (y :: l2) with ([y] ++ l2).
  change (y :: (g1 ++ [x] ++ g2) ++ l1 ++ l2) with ([y] ++ (g1 ++ [x] ++ g2) ++ l1 ++ l2). rewrite !count_occ_app. lia.
Qed.

Definition new_struct (fuel : nat) (m : option mm_master) : outcome (Z * option mm_master) :=
  match m with
  | None => Ok (0, None)
  | Some m =>
      '(p, m) ← malloc_at fuel m SIZEOF_mm_share;
      match p with None => Fatal "mm_xmalloc: mm_malloc" | Some p => Ok (p, Some m) end
  end.
Definition give_back (m : option mm_master) (x : mm_share) : outcome (option mm_master) :=
  match m with None => Ok None | Some m => m ← mm_free m (sh_self x); Ok (Some m) end.
Fixpoint give_all (m : option mm_master) (xs : list mm_share) : outcome (option mm_master) :=
  match xs with [] => Ok m | x :: xs => m ← give_back m x; give_all m xs end.

Lemma shrunk_tree t u G1 x G2 n : tree_ok t → inorder t = G1 ++ x :: G2 → valid u → inorder u = G1 ++ shrink n x :: G2 →
  0 ≤ n → sh_address x + n < 2 ^ 63 → (∀ y, y ∈ G2 → sh_address x + n < sh_address y) → tree_ok u.
Proof.
  intros [_ Ho Hr] Hi Hv Hu Hn Hx H2. rewrite Hi in Ho, Hr. apply Forall_app in Hr as [Hr1 [Hrx Hr2]%Forall_cons]. unfold address_ok in Hrx.
  assert (sh_address (shrink n x) = sh_address x + n) as Ha by (cbn; apply u64_small; lia). split; [done|..]; rewrite Hu.
  - rewrite !ordered_app, !ordered_cons in *. destruct Ho as (Ho1 & [Ho2 _] & Ho3). split_and!; try done; [intros y Hy; rewrite Ha; by apply H2|].
    intros y z Hy [->|Hz]%elem_of_cons; [|apply Ho3; [done|by right]]. specialize (Ho3 y x Hy (list_elem_of_here _ _)). lia.
  - apply Forall_app. split; [done|]. constructor; [unfold address_ok; lia|done].
Qed.
Lemma malloc_none fuel mm size : 0 < size ≤ SIZE_T_MAX - MM_MINSIZE + 1 → list_find (λ x, taken size ≤ sh_size x) (inorder (rb_free mm)) = None →
  malloc_at (S fuel) mm size = Ok (None, mm).
Proof.
  intros Hs Hf. cbn [malloc_at]. rewrite (proj2 (Z.eqb_neq _ _)), (proj2 (Z.ltb_ge _ _)) by lia. cbv zeta. fold (taken size). by rewrite Hf.
Qed.
(** A block is taken from the front of the first gap with enough room. *)
Lemma malloc_level fuel mm A size i x : area_ok mm A → 0 < size ≤ SIZE_T_MAX - MM_MINSIZE + 1 →
  list_find (λ x, taken size ≤ sh_size x) (inorder (rb_free mm)) = Some (i, x) →
  (∃ A1 A2, A = A1 ++ A2 ∧ ∀ self m, new_struct fuel (mmalloc mm) = Ok (self, m) →
     ∃ free allocated xs,
       (∀ m, area_ok (mkMm (mm_self mm) free allocated (mm_address mm) (mm_size mm) m) (A1 ++ (sh_address x, taken size) :: A2)) ∧
       self :: structs (rb_free mm) (rb_allocated mm) ≡ₚ map sh_self xs ++ structs free allocated ∧
       malloc_at (S fuel) mm size =
         (m ← give_all m xs; Ok (Some (sh_address x), mkMm (mm_self mm) free allocated (mm_address mm) (mm_size mm) m))) ∧
  (∀ s, new_struct fuel (mmalloc mm) = Fatal s → malloc_at (S fuel) mm size = Fatal s).
Proof.
  intros Hok Hs Hfind. pose proof (free_tree _ _ Hok) as Htf. pose proof (allocated_tree _ _ Hok) as Hta. destruct Hok as [Hvf Hva [Hlo Hhi] Hlaid Hblocks Hgaps].
  pose proof (proj1 (taken_bounds size Hs)) as Ht. cbn [malloc_at]. rewrite (proj2 (Z.eqb_neq _ _)), (proj2 (Z.ltb_ge _ _)) by lia. cbv zeta. fold (taken size). rewrite Hfind.
  set (n := taken size) in *. set (lo := mm_address mm) in *. set (hi := lo + mm_size mm) in *.
  apply list_find_Some in Hfind as (Hlook & Hroom & _). destruct (list_elem_of_split_length _ _ _ Hlook) as (G1 & G2 & Hfr & _).
  rewrite Hfr, map_app in Hgaps. cbn [map] in Hgaps. destruct (gap_split _ _ _ _ _ _ _ Hlaid (eq_sym Hgaps)) as (A1 & A2 & -> & Ha & Hb & Hpos & HG1 & HG2).
  set (a := sh_address x) in *. apply laid_app in Hlaid as [Hl1 Hl2]. rewrite <- Ha in Hl1, Hl2. destruct (laid_begin _ _ _ Hl2) as [Hbb Hl2']. rewrite <- Hb in Hbb, Hl2'.
  pose proof (last_end_le _ _ _ Hl1) as Hla. rewrite <- Ha in Hla.
  unfold debug_fill. fold lo hi. rewrite (proj2 (Z.leb_le _ _)), (proj2 (Z.leb_le _ _)) by (unfold MM_MINSIZE in *; lia). cbn [andb mbind outcome_bind].
  fold (new_struct fuel (mmalloc mm)). split; [|intros s ->; done]. exists A1, A2. split; [done|]. intros self m ->. cbn [mbind outcome_bind].
  apply map_app_split in Hblocks as (L1 & L2 & Hal & HL1 & HL2).
  destruct (tree_insert (rb_allocated mm) L1 (mkShare self a n) L2) as (al & -> & Hval & Hial); [done|done|unfold address_ok; cbn; lia|..]; cbn [sh_address].
  { intros y Hy. destruct (block_end lo L1 a y) as (? & ? & ? & _); [done|lia|by rewrite HL1|done|lia]. }
  { intros y Hy. destruct (block_end (a + sh_size x) L2 hi y) as (? & ? & ? & _); [lia|done|by rewrite HL2|done|lia]. }
  cbn [mbind outcome_bind]. destruct (tree_modify _ _ _ _ Htf Hfr (shrink n)) as (f1 & -> & Hv1 & Hi1).
  assert (tree_ok f1) as Ht1.
  { eapply shrunk_tree; [exact Htf|done|done|exact Hi1|lia|lia|]. intros y Hy. fold a.
    assert (proj y ∈ gaps (a + sh_size x) A2 hi) as Hin by (rewrite <- HG2; apply list_elem_of_fmap; eauto). rewrite Hb in Hin.
    apply gaps_behind in Hin; [|by rewrite <- Hb]. cbn in Hin. lia. }
  rewrite (u64_small (sh_size x - n)) by lia. assert (laid lo (A1 ++ (a, n) :: A2) hi) as Hlaid'.
  { apply laid_join; [exact Hl1|lia|]. apply (laid_weaken (a + sh_size x)); [lia|done]. }
  assert (∀ free m, valid free → map proj (inorder free) = gaps lo (A1 ++ (a, n) :: A2) hi →
    area_ok (mkMm (mm_self mm) free al lo (mm_size mm) m) (A1 ++ (a, n) :: A2)) as Hnew.
  { intros free m' Hv Hg. split; cbn [rb_free rb_allocated mm_address mm_size]; try done. rewrite Hial, map_app. cbn [map]. rewrite HL1, HL2. done. }
  destruct (Z.eqb_spec (sh_size x - n) 0) as [Hz|Hz].
  - destruct (tree_remove _ _ _ _ Ht1 Hi1) as (f2 & -> & Hv2 & Hi2). cbn [mbind outcome_bind]. fold (give_back m x). exists f2, al, [x]. split_and!.
    + intros m'. apply Hnew; [done|]. rewrite Hi2, map_app, HG1, HG2, gaps_app. f_equal. f_equal. lia.
    + unfold structs. rewrite Hfr, Hal, Hi2, Hial, !map_app. cbn [map]. apply perm_take.
    + cbn [give_all]. by destruct (give_back m x).
  - exists f1, al, []. split_and!.
    + intros m'. apply Hnew; [done|]. rewrite Hi1, map_app. cbn [map]. rewrite HG1, HG2, gaps_app, (gaps_begin (a + n)), <- Hb, gap_cons by lia.
      f_equal. cbn [app]. assert (proj (shrink n x) = (a + n, a + sh_size x - (a + n))) as ->; [|done].
      unfold proj, shrink. cbn [sh_address sh_size]. fold a. rewrite (u64_small (a + n)), (u64_small (sh_size x - n)) by lia. f_equal; lia.
    + unfold structs. rewrite Hfr, Hal, Hi1, Hial, !map_app. cbn [map sh_self shrink app]. apply perm_new.
    + done.
Qed.

(** ** Areas above each other *)

(** The structures of an area are distinct blocks of [mmalloc]. *)
Inductive mm_ok : mm_master → list block → Prop :=
| mm_ok_heap mm A : area_ok mm A → mmalloc mm = None → mm_ok mm A
| mm_ok_shared mm A m B :
    area_ok mm A → mmalloc mm = Some m → mm_ok m B → NoDup (mm_self mm :: structs (rb_free mm) (rb_allocated mm)) →
    (∀ p, p ∈ mm_self mm :: structs (rb_free mm) (rb_allocated mm) → p ∈ map fst B) → mm_ok mm A.
Lemma mm_area mm A : mm_ok mm A → area_ok mm A.
Proof. by intros []. Qed.
Lemma laid_lower lo A hi x : laid lo A hi → x ∈ A → lo ≤ x.1.
Proof.
  revert lo. induction A as [|[a n] A IH]; intros lo; [by intros _ ?%elem_of_nil|]. cbn. intros (? & ? & Hl) [->|Hx]%elem_of_cons; [done|].
  specialize (IH _ Hl Hx). lia.
Qed.
Lemma laid_nodup lo A hi : laid lo A hi → NoDup (map fst A).
Proof.
  revert lo. induction A as [|[a n] A IH]; intros lo; cbn; [constructor|]. intros (? & ? & Hl). constructor; [|by eapply IH].
  intros (x & Ex & Hx)%list_elem_of_fmap. pose proof (laid_lower _ _ _ _ Hl Hx). lia.
Qed.
Lemma blocks_nodup mm A : mm_ok mm A → NoDup (map fst A).
Proof. intros [_ _ _ Hl _ _]%mm_area. by eapply laid_nodup. Qed.
Lemma block_removed (A1 A2 : list block) a n p : NoDup (map fst (A1 ++ (a, n) :: A2)) →
  p ∈ map fst (A1 ++ A2) ↔ p ∈ map fst (A1 ++ (a, n) :: A2) ∧ p ≠ a.
Proof.
  rewrite !map_app. cbn [map fst]. intros Hn. apply NoDup_app in Hn as (_ & H1 & [H2 _]%NoDup_cons). rewrite !elem_of_app, elem_of_cons.
  split; [|tauto]. intros Hp. split; [tauto|]. intros ->. destruct Hp as [Hp|Hp]; [|done]. by apply (H1 a Hp), list_elem_of_here.
Qed.

(** What a call keeps. *)
Definition same_shape (mm mm' : mm_master) : Prop :=
  depth mm' = depth mm ∧ mm_self mm' = mm_self mm ∧ mm_address mm' = mm_address mm ∧ mm_size mm' = mm_size mm.

(** Blocks of [mmalloc] are given back one after the other. *)
Lemma release_ok (free : mm_master → Z → outcome mm_master) (give : option mm_master → mm_share → outcome (option mm_master))
    (all : option mm_master → list mm_share → outcome (option mm_master)) d :
  (∀ m x, give (Some m) x = (m ← free m (sh_self x); Ok (Some m))) → (∀ m, all m [] = Ok m) →
  (∀ m x xs, all m (x :: xs) = (m ← give m x; all m xs)) →
  (∀ m A1 a n A2, depth m = d → mm_ok m (A1 ++ (a, n) :: A2) → ∃ m', free m a = Ok m' ∧ mm_ok m' (A1 ++ A2) ∧ same_shape m m') →
  ∀ xs m B, depth m = d → mm_ok m B → NoDup (map sh_self xs) → (∀ p, p ∈ map sh_self xs → p ∈ map fst B) →
  ∃ m' B', all (Some m) xs = Ok (Some m') ∧ mm_ok m' B' ∧ same_shape m m' ∧ ∀ p, p ∈ map fst B' ↔ p ∈ map fst B ∧ p ∉ map sh_self xs.
Proof.
  intros Hgive Hnil Hcons Hfree. induction xs as [|x xs IH]; intros m B Hd Hok Hnd Hin.
  { exists m, B. rewrite Hnil. split_and!; try done. intros p. cbn. rewrite elem_of_nil. tauto. }
  cbn [map] in Hnd. apply NoDup_cons in Hnd as [Hx Hnd]. assert (sh_self x ∈ map fst B) as ([a n] & Ea & HB)%list_elem_of_fmap by (apply Hin; left).
  cbn in Ea. apply list_elem_of_split in HB as (B1 & B2 & ->). subst a. destruct (Hfree _ _ _ _ _ Hd Hok) as (m1 & E1 & Hok1 & Hs1).
  pose proof (block_removed B1 B2 (sh_self x) n) as Hrem. pose proof (blocks_nodup _ _ Hok) as HndB.
  destruct (IH m1 (B1 ++ B2)) as (m2 & B' & E2 & Hok2 & Hs2 & HB'); [destruct Hs1; lia|done|done| |].
  { intros p Hp. apply Hrem; [done|]. split; [apply Hin; by right|]. by intros ->. }
  exists m2, B'. rewrite Hcons, Hgive, E1. cbn [mbind outcome_bind]. split_and!; [done|done| |].
  - unfold same_shape in *. intuition congruence.
  - intros p. rewrite HB', Hrem by done. cbn [map]. rewrite elem_of_cons. tauto.
Qed.

(** An area with new trees: the structures that are left are still blocks. *)
Lemma shared_ok mm mm' A m (B B' : list block) xs ps :
  area_ok mm' A → mmalloc mm' = Some m → mm_ok m B' → mm_self mm' = mm_self mm →
  NoDup (mm_self mm :: ps) → (∀ p, p ∈ mm_self mm :: ps → p ∈ map fst B) →
  ps ≡ₚ map sh_self xs ++ structs (rb_free mm') (rb_allocated mm') → (∀ p, p ∈ map fst B' ↔ p ∈ map fst B ∧ p ∉ map sh_self xs) → mm_ok mm' A.
Proof.
  intros Ha Hm Hok Hself Hnd Hin Hperm HB'. rewrite Hperm in Hnd. apply NoDup_cons in Hnd as [Hnot Hnd]. rewrite elem_of_app in Hnot.
  apply NoDup_app in Hnd as (_ & Hdis & Hnd). econstructor; [exact Ha|exact Hm|exact Hok|..]; rewrite Hself.
  - constructor; [tauto|done].
  - intros p Hp. apply HB'. split.
    + apply Hin. rewrite Hperm. apply elem_of_cons in Hp as [->|Hp]; [left|]. right. apply elem_of_app. by right.
    + intros Hx. apply elem_of_cons in Hp as [->|Hp]; [tauto|]. by apply (Hdis p).
Qed.
Lemma free_ok fuel : ∀ mm A1 a n A2, (depth mm < fuel)%nat → mm_ok mm (A1 ++ (a, n) :: A2) →
  ∃ mm', free_at fuel mm a = Ok mm' ∧ mm_ok mm' (A1 ++ A2) ∧ same_shape mm mm'.
Proof.
  induction fuel as [|fuel IH]; intros mm A1 a n A2 Hd Hok; [lia|].
  destruct (free_level fuel mm A1 a n A2 (mm_area _ _ Hok)) as (free & al & xs & Harea & Hperm & ->).
  inversion Hok as [? ? _ Hm|? ? m B _ Hm Hmok Hnd Hin]; subst; rewrite Hm.
  - assert (∀ xs, release_all fuel None xs = Ok None) as Hnone by (induction xs0 as [|x l IHl]; [done|by cbn]). rewrite Hnone. cbn [mbind outcome_bind].
    eexists. split; [reflexivity|]. split; [by apply mm_ok_heap|]. unfold same_shape. destruct mm. cbn in *. by subst.
  - assert (depth mm = S (depth m)) as Hdm by (destruct mm; cbn in *; by subst).
    assert (NoDup (map sh_self xs) ∧ ∀ p, p ∈ map sh_self xs → p ∈ structs (rb_free mm) (rb_allocated mm)) as [Hx1 Hx2].
    { apply NoDup_cons in Hnd as [_ Hnd]. rewrite Hperm in Hnd. apply NoDup_app in Hnd as (? & _ & _). split; [done|].
      intros p Hp. rewrite Hperm. apply elem_of_app. by left. }
    destruct (release_ok (free_at fuel) (release_at fuel) (release_all fuel) (depth m) (λ _ _, eq_refl) (λ _, eq_refl) (λ _ _ _, eq_refl)
      (λ m0 B1 p k B2 Hm0 Hok0, IH m0 B1 p k B2 ltac:(lia) Hok0) xs m B eq_refl Hmok Hx1) as (m' & B' & -> & Hok' & Hs & HB').
    + intros p Hp. apply Hin. right. by apply Hx2.
    + cbn [mbind outcome_bind]. eexists. split; [reflexivity|]. split; [|unfold same_shape; cbn; split_and!; try done; rewrite Hdm; f_equal; apply Hs].
      eapply (shared_ok mm); [apply Harea|done|exact Hok'|done|exact Hnd|exact Hin|exact Hperm|exact HB'].
Qed.

(** A structure can be made: the area of the structures has a gap for it, and a
    structure can be made there. *)
Fixpoint can_make (mm : mm_master) : bool :=
  match mmalloc mm with
  | None => true
  | Some m => match list_find (λ x, taken SIZEOF_mm_share ≤ sh_size x) (inorder (rb_free m)) with Some _ => can_make m | None => false end
  end.

Lemma malloc_ok fuel : ∀ mm A size, (depth mm < fuel)%nat → mm_ok mm A → 0 < size ≤ SIZE_T_MAX - MM_MINSIZE + 1 →
  match list_find (λ x, taken size ≤ sh_size x) (inorder (rb_free mm)) with
  | None => malloc_at fuel mm size = Ok (None, mm)
  | Some (_, x) =>
      if can_make mm then
        ∃ A1 A2 mm', A = A1 ++ A2 ∧ malloc_at fuel mm size = Ok (Some (sh_address x), mm') ∧
          mm_ok mm' (A1 ++ (sh_address x, taken size) :: A2) ∧ same_shape mm mm'
      else malloc_at fuel mm size = Fatal "mm_xmalloc: mm_malloc"
  end.
Proof.
  induction fuel as [|fuel IH]; intros mm A size Hd Hok Hs; [lia|].
  destruct (list_find _ _) as [[i x]|] eqn:Hf; [|by apply malloc_none].
  destruct (malloc_level fuel mm A size i x (mm_area _ _ Hok) Hs Hf) as [(A1 & A2 & -> & Hnew) Hfail].
  inversion Hok as [? ? _ Hm|? ? m B _ Hm Hmok Hnd Hin]; subst; rewrite Hm in *.
  - assert (can_make mm = true) as -> by (destruct mm; cbn in *; by subst). destruct (Hnew 0 None eq_refl) as (free & al & xs & Harea & Hperm & ->).
    assert (∀ xs, give_all None xs = Ok None) as Hnone by (induction xs0 as [|y l IHl]; [done|by cbn]). rewrite Hnone. cbn [mbind outcome_bind].
    eexists A1, A2, _. split; [done|]. split; [reflexivity|]. split; [by apply mm_ok_heap|]. unfold same_shape. destruct mm. cbn in *. by subst.
  - assert (depth mm = S (depth m)) as Hdm by (destruct mm; cbn in *; by subst). cbn [new_struct] in Hnew, Hfail.
    specialize (IH m B SIZEOF_mm_share ltac:(lia) Hmok ltac:(done)).
    assert (can_make mm = match list_find (λ x, taken SIZEOF_mm_share ≤ sh_size x) (inorder (rb_free m)) with Some _ => can_make m | None => false end)
      as Hcan by (destruct mm; cbn in *; by subst).
    destruct (list_find _ (inorder (rb_free m))) as [[j y]|].
    2:{ rewrite Hcan. apply Hfail. by rewrite IH. }
    rewrite Hcan. destruct (can_make m); [|apply Hfail; by rewrite IH]. destruct IH as (B1 & B2 & m1 & -> & Em & Hok1 & Hs1).
    rewrite Em in Hnew. destruct (Hnew _ _ eq_refl) as (free & al & xs & Harea & Hperm & ->). set (p := sh_address y) in *.
    assert (∀ q, q ∈ map fst (B1 ++ (p, taken SIZEOF_mm_share) :: B2) ↔ q = p ∨ q ∈ map fst (B1 ++ B2)) as HB1.
    { intros q. rewrite !map_app. cbn [map fst]. rewrite !elem_of_app, elem_of_cons. tauto. }
    pose proof (blocks_nodup _ _ Hok1) as HndB. assert (p ∉ map fst (B1 ++ B2)) as Hfresh.
    { intros Hp. apply (block_removed B1 B2 p _ p HndB) in Hp as [_ Hp]. done. }
    assert (NoDup (mm_self mm :: p :: structs (rb_free mm) (rb_allocated mm))) as Hnd'.
    { apply NoDup_cons in Hnd as [H1 H2]. constructor; [|constructor; [|done]].
      - intros [E|Hp]%elem_of_cons; [|done]. apply Hfresh. rewrite <- E. apply Hin. left.
      - intros Hp. apply Hfresh, Hin. by right. }
    assert (∀ q, q ∈ mm_self mm :: p :: structs (rb_free mm) (rb_allocated mm) → q ∈ map fst (B1 ++ (p, taken SIZEOF_mm_share) :: B2)) as Hin'.
    { intros q Hq. apply HB1. rewrite !elem_of_cons in Hq. destruct Hq as [->|[->|Hq]]; [right; apply Hin; left|by left|right; apply Hin; by right]. }
    assert (NoDup (map sh_self xs) ∧ ∀ q, q ∈ map sh_self xs → q ∈ p :: structs (rb_free mm) (rb_allocated mm)) as [Hx1 Hx2].
    { apply NoDup_cons in Hnd' as [_ Hnd']. rewrite Hperm in Hnd'. apply NoDup_app in Hnd' as (? & _ & _). split; [done|].
      intros q Hq. rewrite Hperm. apply elem_of_app. by left. }
    destruct (release_ok mm_free give_back give_all (depth m) (λ _ _, eq_refl) (λ _, eq_refl) (λ _ _ _, eq_refl)
      (λ m0 C1 q k C2 Hm0 Hok0, free_ok _ m0 C1 q k C2 (Nat.lt_succ_diag_r _) Hok0) xs m1 (B1 ++ (p, taken SIZEOF_mm_share) :: B2)
      (proj1 Hs1) Hok1 Hx1) as (m2 & B' & -> & Hok2 & Hs2 & HB').
    + intros q Hq. apply Hin'. right. by apply Hx2.
    + cbn [mbind outcome_bind]. eexists A1, A2, _. split; [done|]. split; [reflexivity|].
      split; [|unfold same_shape in *; cbn; split_and!; try done; rewrite Hdm; f_equal; destruct Hs1, Hs2; congruence].
      eapply (shared_ok mm); [apply Harea|done|exact Hok2|done|exact Hnd'|exact Hin'|exact Hperm|exact HB'].
Qed.

(** ** The claims *)

Lemma area_single self address size m : 0 ≤ address → 0 < size → address + size < 2 ^ 63 → ∀ q,
  area_ok (mkMm self (RB_NODE RB_BLACK RB_NULL (mkShare q address size) RB_NULL) RB_NULL address size m) [].
Proof.
  intros Ha Hs Hr q. split; cbn [rb_free rb_allocated mm_address mm_size inorder map gaps laid app]; try done; try lia.
  - split; [done|]. exists 1%nat. done.
  - split; [done|]. by exists 0%nat.
  - rewrite gap_cons by lia. unfold proj. cbn. f_equal. f_equal. lia.
Qed.
(** A new area is one gap. *)
Lemma create_ok address size : 0 ≤ address → 0 < size → address + size < 2 ^ 63 → ∃ mm, mm_create None (Some address) size = Ok mm ∧ mm_ok mm [].
Proof. intros Ha Hs Hr. eexists. split; [reflexivity|]. apply mm_ok_heap; [|done]. by apply area_single. Qed.
Lemma xmalloc_inv mm A size p mm' : mm_ok mm A → 0 < size ≤ SIZE_T_MAX - MM_MINSIZE + 1 → mm_xmalloc mm size = Ok (p, mm') →
  ∃ A1 A2, A = A1 ++ A2 ∧ mm_ok mm' (A1 ++ (p, taken size) :: A2) ∧ same_shape mm mm' ∧ p ∉ map fst A.
Proof.
  intros Hok Hs E. unfold mm_xmalloc, mm_malloc in E. pose proof (malloc_ok (S (depth mm)) mm A size ltac:(lia) Hok Hs) as Hm.
  destruct (list_find _ _) as [[i x]|]; [|by rewrite Hm in E]. destruct (can_make mm); [|by rewrite Hm in E].
  destruct Hm as (A1 & A2 & mm1 & -> & Em & Hok1 & Hs1).
  rewrite Em in E. injection E as <- <-. exists A1, A2. split_and!; try done. intros Hp.
  by apply (block_removed A1 A2 _ _ _ (blocks_nodup _ _ Hok1)) in Hp as [_ ?].
Qed.
Lemma create_shared_ok m B address size mm : mm_ok m B → 0 ≤ address → 0 < size → address + size < 2 ^ 63 →
  mm_create (Some m) (Some address) size = Ok mm → mm_ok mm [].
Proof.
  intros Hok Ha Hs Hr E. unfold mm_create, mm_make_entry, place in E. apply bind_Ok in E as ([p om] & E1 & E). apply bind_Ok in E1 as ([p' m1] & E1 & [= <- <-]).
  apply bind_Ok in E as ([om head] & E2 & [= <-]). apply bind_Ok in E2 as ([q om'] & E2 & E). apply bind_Ok in E2 as ([q' m2] & E2 & [= <- <-]).
  cbn in E. injection E as <- <-. destruct (xmalloc_inv m B SIZEOF_mm_master p' m1 Hok ltac:(done) E1) as (B1 & B2 & -> & Hok1 & _ & _).
  destruct (xmalloc_inv m1 _ SIZEOF_mm_share q' m2 Hok1 ltac:(done) E2) as (C1 & C2 & EC & Hok2 & _ & Hq).
  assert (p' ∈ map fst (B1 ++ (p', taken SIZEOF_mm_master) :: B2)) as Hp by (rewrite map_app, elem_of_app; right; left).
  eapply mm_ok_shared; [by apply area_single|done|exact Hok2|..]; cbn [mm_self structs inorder map app sh_self rb_free rb_allocated].
  - constructor; [|apply NoDup_singleton]. intros ->%list_elem_of_singleton. done.
  - intros r Hr'. rewrite map_app. cbn [map fst]. rewrite elem_of_app, elem_of_cons. apply elem_of_cons in Hr' as [->|Hr']; [|apply list_elem_of_singleton in Hr'; auto].
    rewrite EC, map_app, elem_of_app in Hp. tauto.
Qed.

(** C28: An area of the shared memory is a list of allocated blocks, in order and apart
    from each other within the area, and its free tree holds exactly the gaps
    between them.  [mm_malloc] takes the front of the first gap with enough room,
    and returns NULL only if there is none; [mm_free] takes exactly the block
    at the address out, and ends the process only for an address that is not
    allocated.  No check for corruption can fail and nothing outside the area is
    written, also for an area whose structures are blocks of another one: there
    [mm_malloc] succeeds whenever a structure can be made ([can_make]: the other
    area has a gap for it), and ends the process with the one message that there
    is no memory exactly when not. *)
Theorem mm_area_refines mm A : mm_ok mm A →
  (∀ size, 0 < size ≤ SIZE_T_MAX - MM_MINSIZE + 1 →
     match list_find (λ g, taken size ≤ g.2) (gaps (mm_address mm) A (mm_address mm + mm_size mm)) with
     | None => mm_malloc mm size = Ok (None, mm)
     | Some (_, (a, _)) =>
         if can_make mm then
           ∃ A1 A2 mm', A = A1 ++ A2 ∧ mm_malloc mm size = Ok (Some a, mm') ∧ mm_ok mm' (A1 ++ (a, taken size) :: A2)
         else mm_malloc mm size = Fatal "mm_xmalloc: mm_malloc"
     end) ∧
  (∀ a, 0 ≤ a < 2 ^ 63 →
     match list_find (λ b, b.1 = a) A with
     | None => mm_free mm a = Fatal "mm_free: can not find"
     | Some (i, _) => ∃ mm', mm_free mm a = Ok mm' ∧ mm_ok mm' (delete i A)
     end).
Proof.
  intros Hok. pose proof (mm_area _ _ Hok) as Harea. split.
  - intros size Hs. pose proof (malloc_ok (S (depth mm)) mm A size ltac:(lia) Hok Hs) as Hm. rewrite <- (ak_gaps _ _ Harea).
    change (map proj (inorder (rb_free mm))) with (proj <$> inorder (rb_free mm)). rewrite list_find_fmap.
    change (list_find ((λ g : Z * Z, taken size ≤ g.2) ∘ proj) (inorder (rb_free mm))) with (list_find (λ x, taken size ≤ sh_size x) (inorder (rb_free mm))).
    destruct (list_find (λ x, taken size ≤ sh_size x) (inorder (rb_free mm))) as [[i x]|]; cbn; [|done]. fold (can_make mm). destruct (can_make mm); [|done].
    destruct Hm as (A1 & A2 & mm' & -> & E & Hok' & _). by exists A1, A2, mm'.
  - intros a Ha. destruct (list_find (λ b, b.1 = a) A) as [[i [a' n]]|] eqn:Hf.
    + apply list_find_Some in Hf as (Hi & Hx & _). cbn in Hx. subst a'. rewrite delete_take_drop. rewrite <- (take_drop_middle A i (a, n) Hi) in Hok.
      destruct (free_ok (S (depth mm)) mm _ _ _ _ ltac:(lia) Hok) as (mm' & E & Hok' & _). by exists mm'.
    + apply list_find_None in Hf. unfold mm_free. cbn [free_at]. cbv zeta. rewrite (find_absent _ a (allocated_tree _ _ Harea) Ha); [done|].
      intros x Hx ->. rewrite Forall_forall in Hf. apply (Hf (proj x)); [|done]. rewrite <- (ak_blocks _ _ Harea). apply list_elem_of_fmap. eauto.
Qed.

(** ** Taking over an area *)

(** The list is copied into a tree whose structures are new blocks; [U] are the
    structures that were made before. *)
Lemma sync_list_ok mm mmold lo hi : 0 ≤ lo → hi < 2 ^ 63 → ∀ old t alloc t' alloc' B U,
  mm_sync_list old t mm mmold alloc = Ok (t', alloc') → mm_ok alloc B → valid t → laid lo (map proj (inorder t ++ old)) hi →
  NoDup (U ++ map sh_self (inorder t)) → (∀ p, p ∈ U ++ map sh_self (inorder t) → p ∈ map fst B) →
  valid t' ∧ map proj (inorder t') = map proj (inorder t ++ old) ∧
  ∃ B', mm_ok alloc' B' ∧ NoDup (U ++ map sh_self (inorder t')) ∧ ∀ p, p ∈ U ++ map sh_self (inorder t') → p ∈ map fst B'.
Proof.
  intros Hlo Hhi. induction old as [|x old IH]; intros t alloc t' alloc' B U E Hok Hv Hl Hnd Hin; cbn [mm_sync_list] in E.
  { injection E as <- <-. rewrite app_nil_r in *. split_and!; [done..|]. by exists B. }
  apply bind_Ok in E as ([] & _ & E). apply bind_Ok in E as ([] & _ & E). apply bind_Ok in E as ([self alloc1] & Ex & E).
  destruct (xmalloc_inv _ _ SIZEOF_mm_share _ _ Hok ltac:(done) Ex) as (B1 & B2 & -> & Hok1 & _ & Hfresh).
  assert (tree_ok t) as Ht. { rewrite map_app in Hl. apply laid_app in Hl as [Hl Hl2]. pose proof (laid_le _ _ _ Hl2). by apply (tree_laid lo t (last_end lo (map proj (inorder t)))); [..|lia|]. }
  destruct (laid_ordered _ _ _ Hl) as [Ho Hf]. apply ordered_app in Ho as (_ & _ & Ho). apply Forall_app in Hf as [_ [Hx _]%Forall_cons].
  destruct (tree_insert t (inorder t) (mkShare self (sh_address x) (sh_size x)) []) as (t1 & E1 & Hv1 & Hi1).
  { done. } { by rewrite app_nil_r. } { unfold address_ok. cbn. lia. } { intros y Hy. cbn. apply Ho; [done|left]. } { by intros y ?%elem_of_nil. }
  rewrite E1 in E. cbn [mbind outcome_bind] in E.
  assert (∀ p, p ∈ map fst (B1 ++ (self, taken SIZEOF_mm_share) :: B2) ↔ p = self ∨ p ∈ map fst (B1 ++ B2)) as HB1.
  { intros q. rewrite !map_app. cbn [map fst]. rewrite !elem_of_app, elem_of_cons. tauto. }
  destruct (IH _ _ _ _ _ U E Hok1 Hv1) as (Hv' & Hp' & HB').
  - rewrite Hi1, <- app_assoc. cbn [app]. rewrite map_app in *. exact Hl.
  - rewrite Hi1, map_app. cbn [map sh_self]. rewrite app_assoc. apply NoDup_app. split_and!; [done| |apply NoDup_singleton].
    intros q Hq ->%list_elem_of_singleton. by apply Hfresh, Hin.
  - intros q. rewrite Hi1, map_app. cbn [map sh_self]. rewrite app_assoc, elem_of_app, list_elem_of_singleton. intros [Hq| ->]; apply HB1; auto.
  - split_and!; [done| |done]. rewrite Hp', Hi1, <- app_assoc. cbn [app]. by rewrite !map_app.
Qed.
(** The monitor takes over the area of the child: the same blocks, with structures in
    an area of its own. *)
Theorem share_sync_ok mapped mm A mm' : mm_ok mm A → 0 < mm_size mm → (∀ a, mapped = Some a → 0 ≤ a ∧ a + mm_size mm < 2 ^ 63) →
  mm_share_sync mapped mm = Ok mm' → mm_ok mm' A ∧ mm_address mm' = mm_address mm ∧ mm_size mm' = mm_size mm.
Proof.
  intros Hok Hs Hmap E. pose proof (mm_area _ _ Hok) as Harea. unfold mm_share_sync in E. destruct (mmalloc mm) as [mmold|]; [|done].
  apply bind_Ok in E as ([] & _ & E). apply bind_Ok in E as (alloc & Ec & E). apply bind_Ok in E as ([self alloc1] & Ex & E).
  apply bind_Ok in E as ([free alloc2] & Ef & E). apply bind_Ok in E as ([al alloc3] & Ea & E). apply bind_Ok in E as (? & _ & [= <-]). split; [|done].
  destruct mapped as [address|]; [|done]. destruct (Hmap address eq_refl) as [Ha Hr]. destruct (create_ok address (mm_size mm) Ha Hs Hr) as (c & Ec' & Hc).
  rewrite Ec in Ec'. injection Ec' as <-. destruct (xmalloc_inv _ _ SIZEOF_mm_master _ _ Hc ltac:(done) Ex) as (B1 & B2 & EB & Hok1 & _ & _).
  destruct Harea as [Hvf Hva [Hlo Hhi] Hlaid Hblocks Hgaps].
  destruct (sync_list_ok mm mmold _ _ Hlo Hhi _ _ _ _ _ _ [self] Ef Hok1) as (Hv2 & Hp2 & B' & Hok2 & Hnd2 & Hin2).
  { split; [done|]. by exists 0%nat. } { cbn [inorder app]. rewrite Hgaps. by apply gaps_laid. } { apply NoDup_singleton. }
  { intros p Hp. rewrite app_nil_r in Hp. apply list_elem_of_singleton in Hp as ->. rewrite map_app, elem_of_app. right. left. }
  destruct (sync_list_ok mm mmold _ _ Hlo Hhi _ _ _ _ _ _ ([self] ++ map sh_self (inorder free)) Ea Hok2) as (Hv3 & Hp3 & B'' & Hok3 & Hnd3 & Hin3).
  { split; [done|]. by exists 0%nat. } { cbn [inorder app]. by rewrite Hblocks. } { by rewrite app_nil_r. } { intros p. rewrite app_nil_r. apply Hin2. }
  assert ([self] ++ map sh_self (inorder free) ++ map sh_self (inorder al) = self :: structs free al) as Hst by (unfold structs; by rewrite map_app).
  rewrite <- app_assoc, Hst in Hnd3, Hin3. eapply mm_ok_shared; [|done|exact Hok3|exact Hnd3|exact Hin3].
  split; cbn [rb_free rb_allocated mm_address mm_size inorder app] in *; congruence || done.
Qed.

(** ** An example *)

Module MmDemo.
Definition back : mm_master := match mm_create None (Some 4096) MM_MEMSIZE with Ok mm => mm | _ => mkMm 0 RB_NULL RB_NULL 0 0 None end.
Definition area : mm_master := match zlib_areas (Some 4096) (Some 1048576) with Ok mm => mm | _ => mkMm 0 RB_NULL RB_NULL 0 0 None end.
Lemma area_demo_ok : mm_ok area [].
Proof.
  destruct (create_ok 4096 MM_MEMSIZE) as (m & E & Hm); [done..|]. apply (create_shared_ok m [] 1048576 (20 * MM_MEMSIZE)); [done..|].
  assert (m = back) as ->. { unfold back. by rewrite E. } vm_compute. reflexivity.
Qed.
End MmDemo.

Lemma mm_area_refines_witness : ∃ mm' mm'',
  mm_malloc MmDemo.area 100 = Ok (Some 1048576, mm') ∧ mm_ok mm' [(1048576, 128)] ∧ mm_free mm' 1048576 = Ok mm'' ∧ mm_ok mm'' [].
Proof.
  destruct (mm_area_refines _ _ MmDemo.area_demo_ok) as [Hm _]. specialize (Hm 100 ltac:(done)).
  assert (list_find (λ g, taken 100 ≤ g.2) (gaps (mm_address MmDemo.area) [] (mm_address MmDemo.area + mm_size MmDemo.area)) = Some (0%nat, (1048576, 1310720))) as Hg
    by (vm_compute; reflexivity).
  assert (can_make MmDemo.area = true) as Hc by (vm_compute; reflexivity). rewrite Hg, Hc in Hm. destruct Hm as (A1 & A2 & mm' & EA & E & Hok).
  symmetry in EA. apply app_nil in EA as [-> ->]. destruct (mm_area_refines _ _ Hok) as [_ Hf]. specialize (Hf 1048576 ltac:(done)).
  destruct Hf as (mm'' & Ef & Hok'). exists mm', mm''. split_and!; [exact E|exact Hok|exact Ef|exact Hok'].
Defined.

(** [mm_freelist] starts at the root: what is to the left of it is neither removed nor
    given back. *)
Example freelist_skips_left :
  let t := foldl (λ t a, match RB_INSERT mm_compare (mkShare 0 a 128) t with Ok (Some t) => t | _ => t end) RB_NULL [4096; 8192; 12288] in
  match mm_freelist None t with Ok (_, t') => map sh_address (inorder t') = [4096] | _ => False end.
Proof. vm_compute. reflexivity. Qed.
